(* ===== verification/_CoqProject ===== *)
-Q . S2P
Prelude.v
RecordSet.v
StateResult.v
RustStr.v
Utf8.v
F64.v
FloatRound.v
Codec.v
Regex.v
Net.v
ConfigTypes.v
ConfigSurfaces.v
CircuitBreaker.v
LoadBalancer.v
Toml.v
Json.v
Sql.v
AuthStore.v
Auth.v
Router.v
Config.v
RateLimit.v
ProxyProtocol.v
Http.v
Metrics.v
Health.v
Cache.v
Compression.v
Runtime.v
Plugin.v
Middleware.v
ProxyHeaders.v
Proxy.v
ProxyProps.v
Server.v
ProxyFindings.v
AuthProps.v
Management.v
ManagementProps.v
SessionStore.v
SessionRecovery.v
RecoveryProps.v
SessionApi.v
SessionProps.v
GatewayContext.v
UsageStore.v
StreamUsage.v
SemanticService.v
SemanticServiceProps.v
GatewayLimits.v
Failover.v
CostTracker.v
CostTrackerProps.v
SessionRollup.v
Providers.v
VirtualKeys.v
VirtualKeysProps.v
GovernanceStore.v
Governance.v
SemanticSafety.v
SemanticSafetyProps.v
PluginOrder.v
ContentFilter.v
ContentFilterProps.v
PromptRegistry.v
PromptRegistryProps.v
GovernanceRows.v
GovernanceProps.v
ProjectConfig.v
ProjectConfigProps.v
Routing.v
RoutingProps.v
SemanticCache.v
SemanticCacheProps.v
PromptCache.v
PromptCacheProps.v
JsonText.v
EvalStore.v
Evals.v
EvalsProps.v
