(* ===== verification/Prelude.v ===== *)
(** * Tiny Proxy: a verification development

    Tiny Proxy is a reverse proxy in Rust with an LLM gateway on top of it.  The
    workspace under [src/crates] has the data plane [proxy-core], the process
    [tiny-reverse-proxy], the authentication service [proxy-auth], the gateway
    [plugin-llm-gateway] (a chain of plugins with stores and a management API)
    and the semantic safety service.  This development is a shallow embedding:
    the code's records are records, its functions are functions that can be
    evaluated, shared state is passed explicitly, and what other crates or the
    outside do is a parameter.

    ** The program and where it is modelled

    A process loads and validates a configuration file, builds the shared
    components from it, accepts connections and gives every request to a
    handler, which consults the components in a fixed order and runs the hooks of
    the plugins; the gateway is a list of such plugins.

    Foundations:
    - [Prelude.v]: [Result] and [?], machine integers, time, list lemmas and
      the automation (databases [trp] and [trp_rw], tactics [inv_ok],
      [bool_to_prop], [split_match], [decide_closed]).  [RecordSet.v]: update of
      one field of a record.  [StateResult.v]: the monad [ST] of operations on
      shared state that can fail.  [RustStr.v], [Utf8.v]: strings of Rust's
      standard library.  [F64.v], [FloatRound.v]: IEEE doubles and singles over
      the Standard Library's [SpecFloat], and monotone rounding.  [Codec.v]: the
      text of any countable value, the instance behind the serialisers.
      [Json.v], [JsonText.v], [Toml.v], [Regex.v], [Net.v]: JSON values and their
      text, TOML values, regular expressions, socket addresses.  [Sql.v]: tables,
      statements and the faults of a database.

    The data plane and the process:
    - [Config.v], [ConfigSurfaces.v], [ConfigTypes.v]: [config.rs].
      [config_parse] is [Config::parse] (the settings in the order of the code,
      so the first error is the first error), [validate] is [Config::validate].
    - [Server.v]: [main.rs].  [start], [accept_service], [serve], [reload] and
      the connection tracker [tracker_step].
    - [Proxy.v]: [handlers/proxy.rs].  [handle] and [handle_boxed], one
      definition per phase of the handler, in a state and early-return monad
      [M] over [Shared]; [Env] holds the upstream client, the clock, the
      compressors and [interfere], what other requests do during an await.
      [ProxyHeaders.v]: the header and body helpers of the same file.
    - [Middleware.v], [Plugin.v] (the chain and the retry budget, whose
      compare-and-swap loop is a step relation over concurrent callers),
      [CircuitBreaker.v], [LoadBalancer.v], [Router.v], [RateLimit.v],
      [Cache.v], [Compression.v], [Health.v], [Http.v], [ProxyProtocol.v],
      [Runtime.v], [Metrics.v]: the files of these names.

    Access and sessions:
    - [AuthStore.v], [Auth.v]: [proxy-auth] (projects, principals, tokens, role
      bindings, the authorizer) over its store.
    - [Management.v]: of [management_server.rs] and [api.rs] the access control
      and the administration of identities.  [SessionStore.v],
      [SessionRecovery.v], [SessionApi.v]: sessions, their recovery
      ([session_recovery.rs]) and their endpoints.

    The gateway ([plugin-llm-gateway/src]):
    - [GatewayContext.v] ([lib.rs]: what plugins keep with a request),
      [PluginOrder.v] ([lib.rs]: the order plugins must have), [StreamUsage.v]
      ([streaming.rs]), [GatewayLimits.v] ([rate_limiter.rs]), [Failover.v]
      ([provider_failover.rs]), [UsageStore.v], [CostTracker.v],
      [SessionRollup.v] ([cost_tracker.rs]), [Providers.v], [VirtualKeys.v]
      ([virtual_keys.rs]).
    - [GovernanceStore.v], [Governance.v], [Routing.v], [GovernanceRows.v]
      ([governance.rs] and its tables), [ProjectConfig.v] ([api.rs]: snapshots,
      revisions and roll-back of a project).
    - [ContentFilter.v], [PromptRegistry.v], [SemanticCache.v], [PromptCache.v]
      (the files of these names), [SemanticSafety.v] ([semantic_safety.rs]) and
      [SemanticService.v] (the service it calls).
    - [EvalStore.v], [Evals.v] ([evals.rs]: datasets, evaluation runs, judges,
      comparison and gate).
    A file [XProps.v] has the theorems about [X.v]; where a component has no such
    file its theorems are in its own.

    ** Conventions

    Integers are [Z] at their width: a wrap-around is written with [wrap32] or
    [wrap64], a range check with the type's maximum.  A [String] is a [string]
    of UTF-8 bytes.  An [Instant] or a [Duration] is a number of nanoseconds,
    times of the gateway are in the unit the code has; an operation that reads the
    clock several times takes the sequence of its readings.  Maps are [gmap], sets
    are [gset].  A panic is the exit [Panic] of the handler's monad; a [Result] is
    [result].  Tasks that run beside a request are definitions of their own, and
    what happens during an await is an argument.

    Other crates and services are classes.  The proxy uses [Http], [Lru], [Toml],
    [GlobPattern], [SipHasher] and [PluginTypes]; the services use [SerdeJson] and
    the text forms of single types ([SerdeTexts], [RevisionTexts], [PolicyTexts],
    [IndexPayloads], [HeaderPayloads], [Payload], [ToolTraces]), [TokenDigest],
    [DefaultHasher], [RegexEngine], [Lowercase], [InferenceBackend], and the
    clients [SafetyClient], [VerifierClient] and [EvalClient].  The stores are
    [AuthStore], [SessionStore], [UsageStore], [KeyStore], [GovernanceStore],
    [CacheStore], [RouteStore] and [EvalStore].  What the proofs need of a class
    is a class of laws of its own (the suffix [Ok] or [Laws], and [JsonTexts])
    that states documented behaviour; each has a concrete instance on which the
    witnesses are evaluated: for the stores the SQLite implementation of the
    repository, whose statements may fail.

    Recursion on fuel: the long poll [wait_loop] runs 121 rounds, since a poll
    lasts at most 30 seconds and every round sleeps 250 milliseconds
    ([SessionProps.long_poll_answers] shows that this is enough); [alias_loop]
    and [lossy_bytes] have as much as the text is long and every round consumes
    some of it; [read_tail] belongs to the demonstration instance of
    [SerdeJson].  The retry loop recurses on the attempts the code fixes before
    it; every other loop is over a list.

    ** What the theorems show

    - The handler ([ProxyProps.v]): it always responds, its in-flight slot is
      returned, the admission limit holds under concurrency, the number of
      upstream calls is bounded, everything sent upstream is sanitised and goes
      to a configured healthy server, and retries reach a working server.  The
      process: after any requests, health events and reloads, each taken as one
      step, the parts belong to one valid configuration, and a round of the
      health checker that a reload has cut in two is repaired by the next one;
      the shutdown cannot miss the last connection.
    - The parts of the data plane: refinement of an abstract failure streak by
      the breaker, fairness and bounds of the balancers, decisions of a bucket,
      isolation of the cache, transparency of compression, round trips of the
      PROXY protocol, a configuration that says what the file says, and exact
      validation.
    - Access: [is_allowed] is exactly what the bindings grant, the management API
      asks for the permission its endpoint demands (the table [demands] of
      [ManagementProps.v]) and changes identities only behind one, restarts keep
      access.  Sessions: a lease is
      respected, finished sessions stay finished, recovery converges, a long
      poll answers.
    - Money and limits: a request is refused exactly when the budget of its
      window is spent, totals are the sums of the bills, streamed usage is read
      exactly when the tail of the stream is text, batches do not matter to the roll-up; cooldowns
      refine the history of failures; keys survive a restart.
    - Governance: memory mirrors the tables, routing picks what the rules and
      scores say, an applied snapshot is in force, a failed one is undone and a
      roll-back restores its revision, all as long as the identifiers of rules
      stay with one project, which the code does not see to.
    - Texts: the filter's decision is the strongest action that matched,
      redaction touches text fields only of the parsed request, a referenced prompt comes first,
      answers of the semantic cache are backed by an answer of the same project as
      similar as the request asks,
      the prompt cache's memory answers as the complete log of observations and
      its copy loses no update, semantic policies reach the service.
    - Evaluations: the totals of a run are those of its items, a queued run is
      taken up after a restart with what it was started with, in whatever order
      the hash maps give the headers, recovery leaves
      finished runs alone, the gate decides on the items of both runs.
    - Behaviour that differs from what the code means is proved as well
      ([ProxyFindings.v], the modules named [...Demo] and single theorems of the
      components); the manifest lists each with its source.

    ** Not modelled

    Sockets, TLS and QUIC set-up, the HTTP/3 request translation, the byte
    tunnel of a WebSocket, the Prometheus text format, timers of background
    tasks, tracing and OpenTelemetry, and the accept hook of plugins: I/O and
    calls of libraries.  The MySQL and PostgreSQL stores, which repeat the SQLite
    one in another dialect behind the same interface, and the SQL schema.  Of the
    gateway: the tool runtime ([tool_runtime.rs]), the choice of a provider by
    a virtual key and the translation between provider protocols, the export and
    import of the control plane, and those handlers of the management API that
    read out what the modelled components keep or that roll prompts out: their
    guards are modelled, their bodies are parameters of the dispatcher. *)

From Stdlib Require Export ZArith Lia Sorted Btauto.
From Stdlib Require Export Ascii.
From stdpp Require Export base tactics option gmap sets strings numbers pretty.
From stdpp Require Export list.

#[export] Set Default Proof Using "Type*".
#[export] Set Warnings "-clear-no-such-hyp,-register-all".
#[global] Arguments String.append !_ _ : simpl nomatch.

(** ** Rust's [Result] and the [?] operator *)

Inductive result (E A : Type) : Type :=
| Ok (a : A)
| Err (e : E).
Arguments Ok {E A} a.
Arguments Err {E A} e.

Definition result_bind {E A B} (m : result E A) (k : A → result E B) : result E B :=
  match m with
  | Ok a => k a
  | Err e => Err e
  end.

Definition result_map {E A B} (f : A → B) (m : result E A) : result E B :=
  match m with
  | Ok a => Ok (f a)
  | Err e => Err e
  end.

Definition ok_or {E A} (o : option A) (e : E) : result E A :=
  match o with
  | Some a => Ok a
  | None => Err e
  end.

Definition result_ok {E A} (m : result E A) : option A :=
  match m with
  | Ok a => Some a
  | Err _ => None
  end.

(** [Option::is_some] and [Option::or] *)
Definition is_some {A} (o : option A) : bool := match o with Some _ => true | None => false end.
Definition or_else {A} (x y : option A) : option A := match x with Some _ => x | None => y end.

(** [Option<Result<T, E>>::transpose] *)
Definition transpose {E A} (o : option (result E A)) : result E (option A) :=
  match o with
  | Some (Ok a) => Ok (Some a)
  | Some (Err e) => Err e
  | None => Ok None
  end.

(** Collecting an iterator of results: the first error wins. *)
Fixpoint collect_results {E A} (l : list (result E A)) : result E (list A) :=
  match l with
  | [] => Ok []
  | Ok a :: l' => result_map (cons a) (collect_results l')
  | Err e :: _ => Err e
  end.

(** A notation for [let x = m?; k], in a scope of its own. *)
Declare Scope rust_scope.
Delimit Scope rust_scope with rust.
Notation "'let?' x ':=' m 'in' k" := (result_bind m (λ x, k))
  (at level 10, x name, m at level 100, k at level 200) : rust_scope.

(** ** Machine integers: values of [Z] with the wrap-around written out *)

Definition u8_max : Z := 255.
Definition u16_max : Z := 65535.
Definition u32_max : Z := 4294967295.
Definition u64_max : Z := 18446744073709551615.

(** [usize] and [AtomicUsize] on the 64-bit targets the proxy is built for. *)
Definition usize_max : Z := u64_max.

Definition wrap32 (z : Z) : Z := z `mod` 4294967296.
Definition wrap64 (z : Z) : Z := z `mod` 18446744073709551616.

Definition i64_max : Z := 9223372036854775807.
Definition i64_min : Z := -9223372036854775808.

(** [z as i64] of a [u64]. *)
Definition as_i64 (z : Z) : Z := if (z <=? i64_max)%Z then z else (z - 18446744073709551616)%Z.

(** [i64::saturating_add] *)
Definition saturating_add_i64 (a b : Z) : Z := Z.max i64_min (Z.min i64_max (a + b)).

Definition in_u32 (z : Z) : Prop := (0 ≤ z ≤ u32_max)%Z.
Definition in_u64 (z : Z) : Prop := (0 ≤ z ≤ u64_max)%Z.

(** ** Time: an [Instant] and a [Duration] are counts of nanoseconds *)

Definition Instant := Z.
Definition Duration := Z.

(** [Duration::from_secs] *)
Definition from_secs (s : Z) : Duration := (s * 1000000000)%Z.

(** [Instant::duration_since] (and [elapsed]): saturates at zero. *)
Definition duration_since (now earlier : Instant) : Duration := Z.max 0 (now - earlier).

(** The successive readings of the monotonic clock that one call makes. *)
Definition Clock := nat → Instant.

Definition monotone (clk : Clock) : Prop := ∀ i j, i ≤ j → (clk i ≤ clk j)%Z.

(** ** Lists *)

(** [iter().enumerate()] *)
Definition enumerate {A} (l : list A) : list (nat * A) := imap pair l.

(** [iter().find(p)] *)
Fixpoint find_first {A} (p : A → bool) (l : list A) : option A :=
  match l with
  | [] => None
  | x :: l' => if p x then Some x else find_first p l'
  end.

(** [iter().filter_map(f).collect()] *)
Definition filter_map {A B} (f : A → option B) (l : list A) : list B := omap f l.

(** [iter().find_map(f)] *)
Definition find_map {A B} (f : A → option B) (l : list A) : option B := head (filter_map f l).

(** A stateful [filter]: the predicate may update the state it closes over. *)
Fixpoint filter_st {S A} (p : S → A → S * bool) (s : S) (l : list A) : S * list A :=
  match l with
  | [] => (s, [])
  | x :: l' =>
      let '(s1, keep) := p s x in
      let '(s2, r) := filter_st p s1 l' in
      (s2, if keep then x :: r else r)
  end.

(** Stable insertion sort by a boolean "goes no later" order, the order
    [slice::sort_by] produces (the sort is stable). *)
Fixpoint insert_by {A} (leb : A → A → bool) (x : A) (l : list A) : list A :=
  match l with
  | [] => [x]
  | y :: l' => if leb x y then x :: y :: l' else y :: insert_by leb x l'
  end.

Fixpoint sort_by {A} (leb : A → A → bool) (l : list A) : list A :=
  match l with
  | [] => []
  | x :: l' => insert_by leb x (sort_by leb l')
  end.

(** [Vec::dedup] *)
Fixpoint dedup {A} `{EqDecision A} (l : list A) : list A :=
  match l with
  | x :: ((y :: _) as l') => if bool_decide (x = y) then dedup l' else x :: dedup l'
  | _ => l
  end.

(** ** Automation *)

Create HintDb trp discriminated.
#[export] Hint Constants Opaque : trp.
Create Rewrite HintDb trp_rw.

(** Case analysis on every [if] and [match] of the goal or of a hypothesis. *)
Ltac split_match :=
  repeat first
    [ progress simplify_eq/=
    | case_match ].

(** Inverts [let?] chains that ended in [Ok]. *)
Ltac inv_ok :=
  repeat match goal with
  | H : result_bind ?m _ = Ok _ |- _ =>
      let E := fresh "E" in
      destruct m eqn:E; simpl in H; [ | discriminate H ]
  | H : result_map _ ?m = Ok _ |- _ =>
      let E := fresh "E" in
      destruct m eqn:E; simpl in H; [ | discriminate H ]
  | H : ok_or ?o _ = Ok _ |- _ =>
      let E := fresh "E" in
      destruct o eqn:E; simpl in H; [ | discriminate H ]
  | H : Ok _ = Ok _ |- _ => injection H as H
  | H : Err _ = Ok _ |- _ => discriminate H
  end.

(** Boolean tests to propositions. *)
Ltac bool_to_prop :=
  repeat match goal with
  | H : (_ <=? _)%Z = true |- _ => apply Z.leb_le in H
  | H : (_ <=? _)%Z = false |- _ => apply Z.leb_gt in H
  | H : (_ <? _)%Z = true |- _ => apply Z.ltb_lt in H
  | H : (_ <? _)%Z = false |- _ => apply Z.ltb_ge in H
  | H : (_ =? _)%Z = true |- _ => apply Z.eqb_eq in H
  | H : (_ =? _)%Z = false |- _ => apply Z.eqb_neq in H
  | H : String.eqb _ _ = true |- _ => apply String.eqb_eq in H
  | H : String.eqb _ _ = false |- _ => apply String.eqb_neq in H
  | H : andb _ _ = true |- _ => apply andb_true_iff in H as [? ?]
  | H : orb _ _ = false |- _ => apply orb_false_iff in H as [? ?]
  | H : negb _ = true |- _ => apply negb_true_iff in H
  | H : negb _ = false |- _ => apply negb_false_iff in H
  | H : bool_decide _ = true |- _ => apply bool_decide_eq_true in H
  | H : bool_decide _ = false |- _ => apply bool_decide_eq_false in H
  end.

(** Decides a closed proposition by evaluation. *)
Ltac decide_closed :=
  first [ refine (bool_decide_eq_true_1 _ _); vm_compute; reflexivity
        | refine (bool_decide_eq_false_1 _ _); vm_compute; reflexivity ].

(** ** Shared lemmas *)

Lemma result_bind_ok {E A B} (m : result E A) (k : A → result E B) b :
  result_bind m k = Ok b ↔ ∃ a, m = Ok a ∧ k a = Ok b.
Proof. destruct m; simpl; naive_solver. Qed.

Lemma collect_results_ok {E A} (l : list (result E A)) r :
  collect_results l = Ok r ↔ l = Ok <$> r.
Proof.
  revert r. induction l as [|[a|e] l IH]; intros [|b r]; simpl; try naive_solver.
  - destruct (collect_results l); simpl; naive_solver.
  - split.
    + intros. inv_ok. naive_solver.
    + intros [= -> ->]. rewrite (proj2 (IH r) eq_refl). done.
Qed.

Lemma wrap32_small z : in_u32 z → wrap32 z = z.
Proof. unfold wrap32, in_u32, u32_max. intros. apply Z.mod_small. lia. Qed.

Lemma wrap64_small z : in_u64 z → wrap64 z = z.
Proof. unfold wrap64, in_u64, u64_max. intros. apply Z.mod_small. lia. Qed.

Lemma wrap32_range z : in_u32 (wrap32 z).
Proof. unfold wrap32, in_u32, u32_max. pose proof (Z.mod_pos_bound z 4294967296). lia. Qed.

Lemma wrap64_range z : in_u64 (wrap64 z).
Proof.
  unfold wrap64, in_u64, u64_max. pose proof (Z.mod_pos_bound z 18446744073709551616). lia.
Qed.

#[export] Hint Resolve wrap32_range wrap64_range : trp.
#[export] Hint Rewrite @length_fmap @length_app : trp_rw.

Lemma duration_since_nonneg now earlier : (0 ≤ duration_since now earlier)%Z.
Proof. unfold duration_since. lia. Qed.

Lemma duration_since_le now earlier : (earlier ≤ now)%Z → duration_since now earlier = (now - earlier)%Z.
Proof. unfold duration_since. lia. Qed.

#[export] Hint Resolve duration_since_nonneg : trp.

Lemma find_first_Some {A} (p : A → bool) l x :
  find_first p l = Some x ↔
  ∃ l1 l2, l = l1 ++ x :: l2 ∧ p x = true ∧ Forall (λ y, p y = false) l1.
Proof.
  induction l as [|y l IH]; simpl.
  - split; [done|]. intros (l1 & l2 & H & _). by destruct l1.
  - destruct (p y) eqn:Hy.
    + split.
      * intros [= ->]. exists [], l. auto.
      * intros ([|z l1] & l2 & [= -> ->] & Hp & HF); [done|].
        apply Forall_cons in HF as [? _]. congruence.
    + rewrite IH. split.
      * intros (l1 & l2 & -> & Hp & HF). exists (y :: l1), l2. auto.
      * intros ([|z l1] & l2 & [= -> ->] & Hp & HF); [congruence|].
        apply Forall_cons in HF as [_ HF]. eauto.
Qed.

Lemma find_first_None {A} (p : A → bool) l :
  find_first p l = None ↔ Forall (λ y, p y = false) l.
Proof.
  induction l as [|y l IH]; simpl; [naive_solver|].
  rewrite Forall_cons_iff. destruct (p y) eqn:Hy; naive_solver.
Qed.

Lemma find_first_In {A} (p : A → bool) l x : find_first p l = Some x → x ∈ l ∧ p x = true.
Proof. intros (l1 & l2 & -> & Hp & _)%find_first_Some. set_solver. Qed.

Lemma insert_by_perm {A} (leb : A → A → bool) x l : insert_by leb x l ≡ₚ x :: l.
Proof.
  induction l as [|y l IH]; simpl; [done|].
  destruct (leb x y); [done|]. rewrite IH. apply Permutation_swap.
Qed.

Lemma sort_by_perm {A} (leb : A → A → bool) l : sort_by leb l ≡ₚ l.
Proof. induction l as [|x l IH]; simpl; [done|]. by rewrite insert_by_perm, IH. Qed.

Lemma sort_by_elem_of {A} (leb : A → A → bool) l x : x ∈ sort_by leb l ↔ x ∈ l.
Proof. by rewrite sort_by_perm. Qed.

Lemma insert_by_StronglySorted {A} (leb : A → A → bool) x l :
  (∀ a b, leb a b = false → leb b a = true) →
  (∀ a b c, leb a b = true → leb b c = true → leb a c = true) →
  StronglySorted (λ a b, leb a b = true) l →
  StronglySorted (λ a b, leb a b = true) (insert_by leb x l).
Proof.
  intros Htot Htrans. induction l as [|y l IH]; simpl; intros HS.
  { repeat constructor. }
  apply StronglySorted_inv in HS as [HS HF].
  destruct (leb x y) eqn:Hxy.
  - constructor; [by constructor|]. constructor; [done|].
    rewrite List.Forall_forall in *. eauto.
  - constructor; [by apply IH|].
    rewrite List.Forall_forall in *. intros z Hz.
    rewrite insert_by_perm in Hz. destruct Hz as [<-|Hz]; [by apply Htot|]. by apply HF.
Qed.

Lemma sort_by_StronglySorted {A} (leb : A → A → bool) l :
  (∀ a b, leb a b = false → leb b a = true) →
  (∀ a b c, leb a b = true → leb b c = true → leb a c = true) →
  StronglySorted (λ a b, leb a b = true) (sort_by leb l).
Proof.
  intros Htot Htrans. induction l as [|x l IH]; simpl; [constructor|].
  by apply insert_by_StronglySorted.
Qed.

Lemma StronglySorted_weaken {A} (R S : relation A) l :
  (∀ x y, R x y → S x y) → StronglySorted R l → StronglySorted S l.
Proof. intros HRS. induction 1 as [|x l _ IH Hx]; constructor; [done|]. eapply Forall_impl; eauto. Qed.

Lemma filter_true_id {A} (P : A → Prop) `{∀ x, Decision (P x)} (l : list A) :
  (∀ x, x ∈ l → P x) → filter P l = l.
Proof.
  induction l as [|x l IH]; intros Hl; [done|]. rewrite filter_cons_True by (apply Hl; left).
  rewrite IH; [done|]. intros y Hy. apply Hl. by right.
Qed.

Lemma filter_map_length {A B} (f : A → option B) l : (length (filter_map f l) ≤ length l)%nat.
Proof. unfold filter_map. induction l as [|x l IH]; csimpl; [done|]. destruct (f x); simpl; lia. Qed.

Lemma dedup_cons {A} `{EqDecision A} (x y : A) l :
  dedup (x :: y :: l) = if bool_decide (x = y) then dedup (y :: l) else x :: dedup (y :: l).
Proof. reflexivity. Qed.

Lemma elem_of_dedup {A} `{EqDecision A} (l : list A) x : x ∈ dedup l ↔ x ∈ l.
Proof.
  induction l as [|y [|z l] IH]; [done..|]. rewrite dedup_cons. case_bool_decide as E.
  - subst. rewrite IH. set_solver.
  - rewrite !elem_of_cons. rewrite elem_of_cons in IH. by rewrite IH.
Qed.

Lemma dedup_sorted_NoDup {A} `{EqDecision A} (le : A → A → bool) (l : list A) :
  (∀ x y, le x y = true → le y x = true → x = y) →
  StronglySorted (λ x y, le x y = true) l → NoDup (dedup l).
Proof.
  intros Hanti. induction l as [|y [|z l] IH]; intros HS; [constructor|apply NoDup_singleton|].
  rewrite dedup_cons. apply StronglySorted_inv in HS as [HS Hy]. case_bool_decide as E; [by apply IH|].
  constructor; [|by apply IH]. rewrite elem_of_dedup. intros [->|Hin]%elem_of_cons; [done|].
  apply StronglySorted_inv in HS as [_ Hz]. apply Forall_cons in Hy as [Hyz _].
  rewrite Forall_forall in Hz. apply E. by apply Hanti; [|apply Hz].
Qed.

Lemma filter_st_snd_sublist {S A} (p : S → A → S * bool) s (l : list A) :
  (filter_st p s l).2 `sublist_of` l.
Proof.
  revert s. induction l as [|x l IH]; intros s; simpl; [done|].
  destruct (p s x) as [s1 keep] eqn:Hp.
  specialize (IH s1). destruct (filter_st p s1 l) as [s2 r] eqn:Hf. simpl in *.
  destruct keep; by constructor.
Qed.

(** A test of every integer of a range, for facts about small machine types. *)
Fixpoint all_from (P : Z → bool) (n : nat) (z : Z) : bool :=
  match n with
  | O => true
  | S n' => if P z then all_from P n' (z + 1)%Z else false
  end.

Lemma all_from_spec P n z : all_from P n z = true →
  ∀ y, (z ≤ y < z + Z.of_nat n)%Z → P y = true.
Proof.
  revert z. induction n as [|n IH]; intros z; simpl; [lia|].
  destruct (P z) eqn:E; [|done]. intros H y Hy.
  destruct (decide (y = z)) as [->|]; [done|]. apply (IH _ H). lia.
Qed.
