(* ===== verification/RecordSet.v ===== *)
(** * Updating one field of a record

    Rust's [record.field = value].  A record type is [Settable] when its eta
    expansion is known; the setter of a projection is then found by
    abstracting the projection out of that expansion, and
    [r <| field := v |>] writes it.  Setters are transparent, so a projection
    of an update simplifies away. *)

From S2P Require Import Prelude.

(** The eta expansion of a record type. *)
Class Settable (R : Type) := eta_record : R → R.

Class FieldSetter {R T : Type} (proj : R → T) := update_field : (T → T) → R → R.

(** Abstracts [proj] out of the eta expansion [e]. *)
Ltac field_setter e proj :=
  let e := eval pattern proj in e in
  match e with
  | ?abs proj => exact (λ f, abs (λ r, f (proj r)))
  end.

#[export] Hint Extern 1 (FieldSetter ?proj) =>
  (match type of proj with
   | ?R → _ =>
       let i := constr:(_ : Settable R) in
       let e := eval red in i in
       field_setter e proj
   end) : typeclass_instances.

Notation "r '<|' proj ':=' v '|>'" :=
  (update_field (proj := proj) (λ _, v) r)
  (at level 12, left associativity, proj at next level, v at level 200,
   format "r  <|  proj  :=  v  |>") : rust_scope.

#[global] Arguments update_field {R T} proj {_} f r /.
