(* ===== verification/StateResult.v ===== *)
(** * Stateful operations that can fail

    An [async fn f(&self, ...) -> Result<A, E>] of a component whose shared
    state is [S] is a function [ST S E A]: it takes the state and gives the
    state back with the answer or the error.  [x ← m; k] is [let x = m?; k]. *)

From S2P Require Import Prelude.

Definition ST (S E A : Type) : Type := S → S * result E A.

#[export] Instance ST_ret {S E} : MRet (ST S E) := λ A a s, (s, Ok a).

#[export] Instance ST_bind {S E} : MBind (ST S E) := λ A B k m s,
  let '(s, r) := m s in
  match r with
  | Ok a => k a s
  | Err e => (s, Err e)
  end.

Definition st_fail {S E A} (e : E) : ST S E A := λ s, (s, Err e).

(** Reads the state. *)
Definition st_get {S E} : ST S E S := λ s, (s, Ok s).

(** Changes the state. *)
Definition st_modify {S E} (f : S → S) : ST S E () := λ s, (f s, Ok ()).

(** Runs an operation of a part of the state. *)
Definition st_zoom {S T E A} (get : S → T) (put : T → S → S) (m : ST T E A) : ST S E A := λ s,
  let '(t, r) := m (get s) in (put t s, r).

(** Runs the operation for each element of a list, in order. *)
Fixpoint st_for {S E A} (l : list A) (body : A → ST S E ()) : ST S E () :=
  match l with
  | [] => mret ()
  | a :: l' => _ ← body a; st_for l' body
  end.

(** ** Lemmas *)

Lemma ST_bind_ok {S E A B} (m : ST S E A) (k : A → ST S E B) s s' b :
  (m ≫= k) s = (s', Ok b) → ∃ s1 a, m s = (s1, Ok a) ∧ k a s1 = (s', Ok b).
Proof. unfold mbind, ST_bind. destruct (m s) as [s1 [a|e]]; naive_solver. Qed.

Lemma ST_bind_step {S E A B} (m : ST S E A) (k : A → ST S E B) s s1 r1 :
  m s = (s1, r1) →
  (m ≫= k) s = match r1 with Ok a => k a s1 | Err e => (s1, Err e) end.
Proof. intros E1. unfold mbind, ST_bind. by rewrite E1. Qed.

(** An operation preserves a property of the state, whatever its outcome. *)
Definition preserves {S E A} (P : S → Prop) (m : ST S E A) : Prop := ∀ s, P s → P (m s).1.

Lemma preserves_ret {S E A} (P : S → Prop) (a : A) : preserves P (mret a : ST S E A).
Proof. by intros s Hs. Qed.

Lemma preserves_fail {S E A} (P : S → Prop) (e : E) : preserves P (st_fail e : ST S E A).
Proof. by intros s Hs. Qed.

Lemma preserves_get {S E} (P : S → Prop) : preserves P (st_get : ST S E S).
Proof. by intros s Hs. Qed.

Lemma preserves_modify {S E} (P : S → Prop) f :
  (∀ s, P s → P (f s)) → preserves P (st_modify f : ST S E ()).
Proof. intros Hf s Hs. by apply Hf. Qed.

Lemma preserves_bind {S E A B} (P : S → Prop) (m : ST S E A) (k : A → ST S E B) :
  preserves P m → (∀ a, preserves P (k a)) → preserves P (m ≫= k).
Proof.
  intros Hm Hk s Hs. unfold mbind, ST_bind. specialize (Hm s Hs).
  destruct (m s) as [s1 [a|e]]; [by apply Hk|done].
Qed.

Lemma preserves_for {S E A} (P : S → Prop) (l : list A) (body : A → ST S E ()) :
  (∀ a, a ∈ l → preserves P (body a)) → preserves P (st_for l body).
Proof.
  induction l as [|a l IH]; intros Hb; simpl; [apply preserves_ret|].
  apply preserves_bind; [apply Hb; left|]. intros _. apply IH. intros x Hx. apply Hb. by right.
Qed.

#[export] Hint Resolve preserves_ret preserves_fail preserves_get preserves_modify
  preserves_bind preserves_for : trp.
