(* ===== verification/RustStr.v ===== *)
(** * Rust strings

    The [str] operations the proxy uses, on Rocq strings read as the UTF-8
    bytes of a Rust [&str]: splitting, trimming, searching, case folding and
    the integer parsers and printers of the standard library.  [trim] and the
    case conversions are the ASCII ones; the code applies them to values that
    [HeaderValue::to_str] accepted, which are ASCII ([is_blank] knows the
    Unicode white space). *)

From S2P Require Import Prelude.

Local Open Scope string_scope.
Local Open Scope list_scope.

(** ** Operations *)

(** [str::split(c)]: always at least one piece. *)
Fixpoint split (c : Ascii.ascii) (s : string) : list string :=
  match s with
  | EmptyString => [""]
  | String a s' =>
      if Ascii.eqb a c then "" :: split c s'
      else match split c s' with
           | [] => [String a ""]
           | h :: t => String a h :: t
           end
  end.

(** [[&str]::join(sep)] *)
Fixpoint join (sep : string) (l : list string) : string :=
  match l with
  | [] => ""
  | [x] => x
  | x :: l' => x +:+ sep +:+ join sep l'
  end.

Definition is_ascii_whitespace (a : Ascii.ascii) : bool :=
  let n := Ascii.N_of_ascii a in
  ((9 <=? n)%N && (n <=? 13)%N) || (n =? 32)%N.

Fixpoint trim_start (s : string) : string :=
  match s with
  | EmptyString => ""
  | String a s' => if is_ascii_whitespace a then trim_start s' else s
  end.

Fixpoint trim_end (s : string) : string :=
  match s with
  | EmptyString => ""
  | String a s' =>
      match trim_end s' with
      | EmptyString => if is_ascii_whitespace a then "" else String a ""
      | r => String a r
      end
  end.

Definition trim (s : string) : string := trim_end (trim_start s).

(** The UTF-8 encodings of the White_Space characters beyond ASCII. *)
Definition whitespace2 (a b : Ascii.ascii) : bool :=
  let a := Ascii.N_of_ascii a in let b := Ascii.N_of_ascii b in
  (a =? 194)%N && ((b =? 133)%N || (b =? 160)%N).

Definition whitespace3 (a b c : Ascii.ascii) : bool :=
  let a := Ascii.N_of_ascii a in let b := Ascii.N_of_ascii b in let c := Ascii.N_of_ascii c in
  ((a =? 225) && (b =? 154) && (c =? 128))%N
  || ((a =? 226) && (b =? 128) && (((128 <=? c) && (c <=? 138)) || (c =? 168) || (c =? 169) || (c =? 175)))%N
  || ((a =? 226) && (b =? 129) && (c =? 159))%N
  || ((a =? 227) && (b =? 128) && (c =? 128))%N.

(** [s.trim().is_empty()]: only White_Space characters, Unicode ones included. *)
Fixpoint is_blank (s : string) : bool :=
  match s with
  | EmptyString => true
  | String a s1 =>
      if is_ascii_whitespace a then is_blank s1
      else match s1 with
           | EmptyString => false
           | String b s2 =>
               if whitespace2 a b then is_blank s2
               else match s2 with
                    | EmptyString => false
                    | String c s3 => if whitespace3 a b c then is_blank s3 else false
                    end
           end
  end.

(** [str::trim] on text that is not known to be ASCII.  A byte inside a character
    never starts a White_Space one, so the end can be found byte by byte. *)
Fixpoint unicode_trim_start (s : string) : string :=
  match s with
  | EmptyString => ""
  | String a s1 =>
      if is_ascii_whitespace a then unicode_trim_start s1
      else match s1 with
           | EmptyString => s
           | String b s2 =>
               if whitespace2 a b then unicode_trim_start s2
               else match s2 with
                    | EmptyString => s
                    | String c s3 => if whitespace3 a b c then unicode_trim_start s3 else s
                    end
           end
  end.

Fixpoint unicode_trim_end (s : string) : string :=
  match s with
  | EmptyString => ""
  | String a s' => if is_blank s then "" else String a (unicode_trim_end s')
  end.

Definition unicode_trim (s : string) : string := unicode_trim_end (unicode_trim_start s).

(** [str::split_once] *)
Fixpoint split_once (c : ascii) (s : string) : option (string * string) :=
  match s with
  | "" => None
  | String a s' =>
      if Ascii.eqb a c then Some ("", s')
      else '(l, r) ← split_once c s'; Some (String a l, r)
  end.

(** [str::starts_with] *)
Definition starts_with (s p : string) : bool := String.prefix p s.

(** [str::strip_prefix] *)
Fixpoint strip_prefix (p s : string) : option string :=
  match p, s with
  | EmptyString, _ => Some s
  | String a p', String b s' => if Ascii.eqb a b then strip_prefix p' s' else None
  | _, EmptyString => None
  end.

(** [str::find(pat)]: the byte offset of the first occurrence. *)
Fixpoint str_find (pat s : string) : option nat :=
  if starts_with s pat then Some 0
  else match s with
       | EmptyString => None
       | String _ s' => S <$> str_find pat s'
       end.

(** [str::contains(pat)] *)
Definition contains (s pat : string) : bool := bool_decide (is_Some (str_find pat s)).

(** [&s[n..]] *)
Fixpoint str_drop (n : nat) (s : string) : string :=
  match n, s with
  | 0, _ => s
  | S n', String _ s' => str_drop n' s'
  | S _, EmptyString => ""
  end.

(** [str::ends_with] *)
Fixpoint ends_with (s suf : string) : bool :=
  String.eqb s suf ||
  match s with
  | EmptyString => false
  | String _ s' => ends_with s' suf
  end.

Definition ascii_lower (a : Ascii.ascii) : Ascii.ascii :=
  let n := Ascii.N_of_ascii a in
  if ((65 <=? n)%N && (n <=? 90)%N) then Ascii.ascii_of_N (n + 32) else a.

(** [str::to_ascii_lowercase] *)
Fixpoint to_lowercase (s : string) : string :=
  match s with
  | EmptyString => ""
  | String a s' => String (ascii_lower a) (to_lowercase s')
  end.

(** [str::eq_ignore_ascii_case] *)
Definition eq_ignore_ascii_case (a b : string) : bool :=
  String.eqb (to_lowercase a) (to_lowercase b).

Definition digit_of (a : Ascii.ascii) : option Z :=
  let n := Z.of_N (Ascii.N_of_ascii a) in
  if ((48 <=? n)%Z && (n <=? 57)%Z) then Some (n - 48)%Z else None.

(** Decimal digits with the overflow check of [checked_mul]/[checked_add]. *)
Fixpoint parse_digits (max acc : Z) (s : string) : option Z :=
  match s with
  | EmptyString => Some acc
  | String a s' =>
      match digit_of a with
      | Some d =>
          let acc' := (acc * 10 + d)%Z in
          if (acc' <=? max)%Z then parse_digits max acc' s' else None
      | None => None
      end
  end.

(** [str::parse] at an unsigned integer type: an optional [+], then at least
    one digit, and no overflow. *)
Definition parse_uint (max : Z) (s : string) : option Z :=
  match s with
  | EmptyString => None
  | String a s' =>
      if Ascii.eqb a "+"%char
      then match s' with EmptyString => None | _ => parse_digits max 0 s' end
      else parse_digits max 0 s
  end.

(** [str::parse::<i64>]: an optional sign, then as above. *)
Definition parse_i64 (s : string) : option Z :=
  match s with
  | String a (String _ _ as s') =>
      if Ascii.eqb a "-"%char then Z.opp <$> parse_digits (i64_max + 1) 0 s'
      else parse_uint i64_max s
  | _ => parse_uint i64_max s
  end.

(** The bytes of a string. *)
Definition bytes_of (s : string) : list Z :=
  (λ a, Z.of_N (Ascii.N_of_ascii a)) <$> String.list_ascii_of_string s.

(** A string all of whose bytes [HeaderValue::to_str] accepts: visible ASCII,
    space and tab. *)
Definition visible_byte (b : Z) : bool :=
  ((32 <=? b)%Z && (b <? 127)%Z) || (b =? 9)%Z.

Definition visible (s : string) : bool := forallb visible_byte (bytes_of s).

(** ** Lemmas *)

Lemma starts_with_spec s p : starts_with s p = true ↔ ∃ r, s = p +:+ r.
Proof.
  unfold starts_with. revert s.
  induction p as [|a p IH]; intros s; simpl.
  { split; [intros _; by exists s|by destruct s]. }
  destruct s as [|b s]; simpl.
  { split; [done|]. by intros (r & [=]). }
  destruct (Ascii.ascii_dec a b) as [->|Hne].
  - rewrite IH. split; intros (r & Hr); exists r; [by rewrite Hr|by injection Hr].
  - split; [done|]. by intros (r & [= ? _]).
Qed.

Lemma str_app_assoc (a b c : string) : (a +:+ b) +:+ c = a +:+ (b +:+ c).
Proof. induction a as [|x a IH]; simpl; [done|]. by rewrite IH. Qed.

Lemma str_app_nil_r (a : string) : a +:+ "" = a.
Proof. induction a as [|x a IH]; simpl; [done|]. by rewrite IH. Qed.

Lemma str_app_inj_l (a b c : string) : a +:+ b = a +:+ c → b = c.
Proof. induction a as [|x a IH]; simpl; [done|]. intros [= H]. auto. Qed.

#[export] Hint Rewrite str_app_assoc str_app_nil_r : trp_rw.

Lemma str_length_app (a b : string) : String.length (a +:+ b) = String.length a + String.length b.
Proof. induction a as [|x a IH]; simpl; [done|]. by rewrite IH. Qed.

Lemma str_app_inj_len (a b c d : string) :
  String.length a = String.length c → a +:+ b = c +:+ d → a = c ∧ b = d.
Proof.
  revert c. induction a as [|x a IH]; intros [|y c]; simpl; try done.
  intros [= Hl] [= -> H]. destruct (IH _ Hl H) as [-> ->]. done.
Qed.

(** A character does not occur in a string. *)
Fixpoint no_char (c : Ascii.ascii) (s : string) : bool :=
  match s with
  | EmptyString => true
  | String a s' => negb (Ascii.eqb a c) && no_char c s'
  end.

Lemma split_not_nil c s : split c s ≠ [].
Proof.
  destruct s as [|a s]; simpl; [done|].
  destruct (Ascii.eqb a c); [done|]. by destruct (split c s).
Qed.

Lemma split_no_char c s : Forall (λ x, no_char c x = true) (split c s).
Proof.
  induction s as [|a s IH]; simpl; [by repeat constructor|].
  destruct (Ascii.eqb a c) eqn:Ha; [by constructor|].
  pose proof (split_not_nil c s). destruct (split c s) as [|h t]; [done|].
  apply Forall_cons in IH as [Hh Ht].
  constructor; [|done]. simpl. by rewrite Ha, Hh.
Qed.

(** Splitting a character-free piece followed by the separator. *)
Lemma split_app_sep c x r :
  no_char c x = true → split c (x +:+ String c r) = x :: split c r.
Proof.
  induction x as [|a x IH]; simpl.
  - intros _. by rewrite Ascii.eqb_refl.
  - intros [Ha Hx]%andb_true_iff. apply negb_true_iff in Ha. rewrite Ha.
    by rewrite IH.
Qed.

Lemma split_app c a b : split c (a +:+ String c b) = split c a ++ split c b.
Proof.
  induction a as [|x a IH]; simpl; [by rewrite Ascii.eqb_refl|].
  rewrite IH. destruct (Ascii.eqb x c); [done|].
  pose proof (split_not_nil c a). by destruct (split c a).
Qed.

Lemma split_single c x : no_char c x = true → split c x = [x].
Proof.
  induction x as [|a x IH]; simpl; [done|].
  intros [Ha Hx]%andb_true_iff. apply negb_true_iff in Ha. rewrite Ha.
  by rewrite IH.
Qed.

(** [split] undoes [join] on separator-free pieces. *)
Lemma split_join c l :
  l ≠ [] → Forall (λ x, no_char c x = true) l → split c (join (String c "") l) = l.
Proof.
  induction l as [|x l IH]; [done|].
  intros _ [Hx Hl]%Forall_cons.
  destruct l as [|y l]; [by apply split_single|].
  change (join (String c "") (x :: y :: l))
    with (x +:+ String c (join (String c "") (y :: l))).
  rewrite split_app_sep by done. by rewrite IH.
Qed.

(** [join] undoes [split]. *)
Lemma join_split c s : join (String c "") (split c s) = s.
Proof.
  induction s as [|a s IH]; simpl; [done|].
  pose proof (split_not_nil c s) as Hn.
  destruct (Ascii.eqb a c) eqn:Ha.
  - apply Ascii.eqb_eq in Ha as ->.
    destruct (split c s) as [|h t]; [done|]. simpl in *. by rewrite IH.
  - destruct (split c s) as [|h t]; [done|].
    destruct t as [|h' t]; simpl in *; by rewrite IH.
Qed.

Lemma strip_prefix_Some p s r : strip_prefix p s = Some r ↔ s = p +:+ r.
Proof.
  revert s. induction p as [|a p IH]; intros s; simpl; [naive_solver|].
  destruct s as [|b s]; [naive_solver|].
  destruct (Ascii.eqb a b) eqn:Hab.
  - apply Ascii.eqb_eq in Hab as ->. rewrite IH. naive_solver.
  - apply Ascii.eqb_neq in Hab. naive_solver.
Qed.

Lemma ascii_lower_idem a : ascii_lower (ascii_lower a) = ascii_lower a.
Proof. destruct a as [[] [] [] [] [] [] [] []]; reflexivity. Qed.

Lemma to_lowercase_idem s : to_lowercase (to_lowercase s) = to_lowercase s.
Proof. induction s as [|a s IH]; simpl; [done|]. by rewrite ascii_lower_idem, IH. Qed.

#[export] Hint Rewrite to_lowercase_idem : trp_rw.

Lemma digit_of_range a d : digit_of a = Some d → (0 ≤ d ≤ 9)%Z.
Proof. unfold digit_of. intros. split_match. bool_to_prop. lia. Qed.

Lemma parse_digits_range max acc s z :
  (0 ≤ acc ≤ max)%Z → parse_digits max acc s = Some z → (0 ≤ z ≤ max)%Z.
Proof.
  revert acc. induction s as [|a s IH]; intros acc Hacc; simpl; [naive_solver|].
  destruct (digit_of a) as [d|] eqn:Hd; [|done].
  apply digit_of_range in Hd. case_match eqn:Hle; [|done]. bool_to_prop.
  apply IH. lia.
Qed.

Lemma parse_uint_range max s z : (0 ≤ max)%Z → parse_uint max s = Some z → (0 ≤ z ≤ max)%Z.
Proof.
  intros Hmax. unfold parse_uint. destruct s as [|a s]; [done|].
  destruct (Ascii.eqb a "+"); [destruct s; [done|]|]; apply parse_digits_range; lia.
Qed.

Lemma visible_app a b : visible (a +:+ b) = visible a && visible b.
Proof.
  unfold visible, bytes_of. rewrite <- forallb_app, <- fmap_app. f_equal. f_equal.
  induction a as [|x a IH]; simpl; [done|]. by rewrite IH.
Qed.

Lemma no_char_app c a b : no_char c (a +:+ b) = no_char c a && no_char c b.
Proof. induction a as [|x a IH]; simpl; [done|]. by rewrite IH, andb_assoc. Qed.

#[export] Hint Rewrite visible_app no_char_app : trp_rw.

(** ** Printed integers *)

Section pretty.
Local Open Scope N_scope.

(** Digits are added at the front, one per decimal place. *)
Lemma pretty_N_go_ind (P : N → string → string → Prop) :
  (∀ s, P 0 s s) →
  (∀ x s r, 0 < x → P (x / 10) (String (pretty_N_char (x mod 10)) s) r → P x s r) →
  ∀ x s, P x s (pretty_N_go x s).
Proof.
  intros H0 HS x. induction (N.lt_wf_0 x) as [x _ IH]. intros s.
  destruct (decide (x = 0)) as [->|Hx]; [apply H0|].
  rewrite pretty_N_go_step by lia. apply HS; [lia|]. apply IH. apply N.div_lt; lia.
Qed.

Lemma pretty_N_char_cases d : d < 10 →
  digit_of (pretty_N_char d) = Some (Z.of_N d) ∧ visible (String (pretty_N_char d) "") = true ∧
  pretty_N_char d ≠ "+"%char.
Proof.
  intros Hd. assert (d = 0 ∨ d = 1 ∨ d = 2 ∨ d = 3 ∨ d = 4 ∨ d = 5 ∨ d = 6 ∨ d = 7 ∨ d = 8 ∨ d = 9)
    as Hc by lia.
  destruct_or! Hc; subst d; by vm_compute.
Qed.

Lemma parse_digits_pretty max x s :
  (Z.of_N x ≤ max)%Z → parse_digits max 0 (pretty_N_go x s) = parse_digits max (Z.of_N x) s.
Proof.
  revert x s. apply (pretty_N_go_ind
    (λ x s r, (Z.of_N x ≤ max)%Z → parse_digits max 0 r = parse_digits max (Z.of_N x) s)); [done|].
  intros x s r Hx IH Hmax. pose proof (N.div_mod x 10) as Hdm.
  assert (x / 10 <= x) by (apply N.Div0.div_le_upper_bound; lia).
  rewrite IH by lia. simpl.
  destruct (pretty_N_char_cases (x mod 10)) as [-> _]; [by apply N.mod_lt|].
  replace (Z.of_N (x / 10) * 10 + Z.of_N (x mod 10))%Z with (Z.of_N x) by lia.
  by rewrite (proj2 (Z.leb_le _ _) Hmax).
Qed.

Lemma visible_pretty_go x s : visible (pretty_N_go x s) = visible s.
Proof.
  revert x s. apply (pretty_N_go_ind (λ x s r, visible r = visible s)); [done|].
  intros x s r Hx ->.
  change (String (pretty_N_char (x mod 10)) s) with (String (pretty_N_char (x mod 10)) "" +:+ s).
  rewrite visible_app.
  by destruct (pretty_N_char_cases (x mod 10)) as (_ & -> & _); [apply N.mod_lt|].
Qed.

Lemma no_char_pretty_go c x s : digit_of c = None → no_char c (pretty_N_go x s) = no_char c s.
Proof.
  intros Hc. revert x s. apply (pretty_N_go_ind (λ x s r, no_char c r = no_char c s)); [done|].
  intros x s r Hx ->. simpl.
  destruct (pretty_N_char_cases (x mod 10)) as (Hd & _); [by apply N.mod_lt|].
  rewrite (proj2 (Ascii.eqb_neq _ _)); [done|]. intros E. rewrite E in Hd. congruence.
Qed.

Lemma pretty_N_go_length k x s :
  x < 10 ^ N.of_nat k → (String.length (pretty_N_go x s) ≤ k + String.length s)%nat.
Proof.
  revert x s. induction k as [|k IH]; intros x s Hx.
  { assert (x = 0) as -> by (simpl in Hx; lia). done. }
  destruct (decide (x = 0)) as [->|]; [simpl; rewrite pretty_N_go_0; lia|].
  rewrite pretty_N_go_step by lia. etransitivity; [apply IH|simpl; lia].
  rewrite Nat2N.inj_succ, N.pow_succ_r' in Hx. apply N.Div0.div_lt_upper_bound. lia.
Qed.

(** A printed number starts with a digit. *)
Lemma pretty_N_go_head x s :
  0 < x ∨ (∃ a t, s = String a t ∧ a ≠ "+"%char) →
  ∃ a t, pretty_N_go x s = String a t ∧ a ≠ "+"%char.
Proof.
  revert x s. apply (pretty_N_go_ind (λ x s r,
    0 < x ∨ (∃ a t, s = String a t ∧ a ≠ "+"%char) → ∃ a t, r = String a t ∧ a ≠ "+"%char)).
  { intros s [|]; [lia|done]. }
  intros x s r Hx IH _. apply IH. right. eexists _, _. split; [done|].
  destruct (pretty_N_char_cases (x mod 10)) as (_ & _ & ?); [by apply N.mod_lt|done].
Qed.

End pretty.

Lemma pretty_Z_go z : (0 < z)%Z → pretty z = pretty_N_go (Z.to_N z) "".
Proof. by destruct z. Qed.

(** Printed non-negative integers parse back, at any width that holds them. *)
Lemma parse_uint_pretty max z : (0 ≤ z ≤ max)%Z → parse_uint max (pretty z) = Some z.
Proof.
  intros Hz. destruct (decide (z = 0%Z)) as [->|].
  { change (pretty 0%Z) with "0". unfold parse_uint. cbn [parse_digits Ascii.eqb Bool.eqb].
    change (digit_of "0") with (Some 0%Z). cbv beta iota zeta.
    by rewrite (proj2 (Z.leb_le (0 * 10 + 0) max)) by lia. }
  rewrite pretty_Z_go by lia.
  destruct (pretty_N_go_head (Z.to_N z) "") as (a & t & E & Ha); [left; lia|].
  pose proof (parse_digits_pretty max (Z.to_N z) "") as Hp. rewrite E in *.
  unfold parse_uint. rewrite (proj2 (Ascii.eqb_neq _ _) Ha), Hp by lia.
  simpl. f_equal. lia.
Qed.

Lemma no_char_pretty c z : (0 ≤ z)%Z → digit_of c = None → no_char c (pretty z) = true.
Proof.
  intros Hz Hc. destruct (decide (z = 0%Z)) as [->|].
  { change (pretty 0%Z) with "0". cbn [no_char]. rewrite (proj2 (Ascii.eqb_neq _ _)); [done|].
    by intros <-. }
  rewrite pretty_Z_go by lia. by rewrite no_char_pretty_go.
Qed.

Lemma visible_pretty z : (0 ≤ z)%Z → visible (pretty z) = true.
Proof.
  intros Hz. destruct (decide (z = 0%Z)) as [->|]; [done|].
  rewrite pretty_Z_go by lia. by rewrite visible_pretty_go.
Qed.

Lemma pretty_nonempty z : (0 ≤ z)%Z → pretty z ≠ "".
Proof.
  intros Hz. destruct (decide (z = 0%Z)) as [->|]; [done|]. rewrite pretty_Z_go by lia.
  destruct (pretty_N_go_head (Z.to_N z) "") as (a & t & -> & _); [left; lia|done].
Qed.

(** A printed integer of at most [k] digits is visible text without spaces. *)
Lemma pretty_text k z : (0 ≤ z < 10 ^ Z.of_nat k)%Z → (0 < k)%nat →
  visible (pretty z) = true ∧ no_char " " (pretty z) = true ∧ (String.length (pretty z) ≤ k)%nat.
Proof.
  intros Hz Hk. split_and!; [apply visible_pretty; lia|apply no_char_pretty; [lia|done]|].
  destruct (decide (z = 0%Z)) as [->|]; [simpl; lia|].
  rewrite pretty_Z_go by lia. etransitivity; [apply (pretty_N_go_length k)|simpl; lia].
  apply N2Z.inj_lt. rewrite N2Z.inj_pow, nat_N_Z, Z2N.id by lia. simpl. lia.
Qed.

(** Text built from pieces. *)
Lemma visible_join sep l :
  visible sep = true → Forall (λ s, visible s = true) l → visible (join sep l) = true.
Proof.
  intros Hsep. induction 1 as [|x l Hx HF IH]; [done|]. destruct l as [|y l]; [done|].
  change (join sep (x :: y :: l)) with (x +:+ sep +:+ join sep (y :: l)).
  by rewrite !visible_app, Hx, Hsep, IH.
Qed.

Lemma no_char_join c sep l :
  no_char c sep = true → Forall (λ s, no_char c s = true) l → no_char c (join sep l) = true.
Proof.
  intros Hsep. induction 1 as [|x l Hx HF IH]; [done|]. destruct l as [|y l]; [done|].
  change (join sep (x :: y :: l)) with (x +:+ sep +:+ join sep (y :: l)).
  by rewrite !no_char_app, Hx, Hsep, IH.
Qed.

(** Pieces without the separator are recovered from their join. *)
Lemma join_inj c l l' :
  l ≠ [] → l' ≠ [] →
  Forall (λ s, no_char c s = true) l → Forall (λ s, no_char c s = true) l' →
  join (String c "") l = join (String c "") l' → l = l'.
Proof.
  intros Hl Hl' HF HF' Heq. rewrite <- (split_join c l), <- (split_join c l') by done. by rewrite Heq.
Qed.

(** *** Order of strings *)

Lemma str_leb_total a b : String.leb a b = false → String.leb b a = true.
Proof. unfold String.leb. rewrite (String.compare_antisym b a). by destruct (String.compare a b). Qed.

Lemma str_leb_antisym a b : String.leb a b = true → String.leb b a = true → a = b.
Proof.
  unfold String.leb. rewrite (String.compare_antisym b a).
  destruct (String.compare a b) eqn:E; simpl; try done. intros _ _. by apply String.compare_eq_iff.
Qed.

Lemma str_leb_cons a s b t : String.leb (String a s) (String b t) =
  match Ascii.compare a b with Lt => true | Gt => false | Eq => String.leb s t end.
Proof. unfold String.leb. simpl. by destruct (Ascii.compare a b). Qed.

Lemma str_leb_trans a b c : String.leb a b = true → String.leb b c = true → String.leb a c = true.
Proof.
  revert b c. induction a as [|x a IH]; intros b c.
  { intros _ _. by destruct c. }
  destruct b as [|y b]; [done|]. destruct c as [|z c]; [done|]. rewrite !str_leb_cons.
  unfold Ascii.compare.
  destruct (N.compare_spec (N_of_ascii x) (N_of_ascii y)) as [E1|E1|E1]; [|intros _|done];
  destruct (N.compare_spec (N_of_ascii y) (N_of_ascii z)) as [E2|E2|E2]; try done;
  destruct (N.compare_spec (N_of_ascii x) (N_of_ascii z)) as [E3|E3|E3]; try done; try lia.
  by apply IH.
Qed.
