(* ===== verification/Utf8.v ===== *)
(** * Characters of texts

    A text is its UTF-8 bytes: what the standard library computes over the
    characters and the words of one. *)

From S2P Require Import Prelude RustStr.

Local Open Scope string_scope.
Local Open Scope list_scope.

(** A byte inside a character. *)
Definition is_continuation (a : ascii) : bool :=
  let n := Ascii.N_of_ascii a in (128 <=? n)%N && (n <? 192)%N.

(** [s.chars().take(n).collect()] *)
Fixpoint take_chars (n : nat) (s : string) : string :=
  match s with
  | "" => ""
  | String c s' =>
      if is_continuation c then String c (take_chars n s')
      else match n with
           | O => ""
           | S n' => String c (take_chars n' s')
           end
  end.

(** [s.chars().count()] *)
Fixpoint count_chars (s : string) : nat :=
  match s with
  | "" => 0
  | String c s' => if is_continuation c then count_chars s' else S (count_chars s')
  end.

(** The text after its first character. *)
Fixpoint skip_continuation (s : string) : string :=
  match s with
  | String c s' => if is_continuation c then skip_continuation s' else s
  | "" => ""
  end.

Definition drop_char (s : string) : string :=
  match s with
  | "" => ""
  | String _ s' => skip_continuation s'
  end.

(** [char::is_ascii_alphanumeric] of a character, by its first or last byte. *)
Definition is_ascii_alphanumeric (a : ascii) : bool :=
  let n := Ascii.N_of_ascii a in
  ((48 <=? n) && (n <=? 57) || (65 <=? n) && (n <=? 90) || (97 <=? n) && (n <=? 122))%N.

(** The last byte of a text. *)
Fixpoint last_byte (s : string) : option ascii :=
  match s with
  | "" => None
  | String c s' => Some (default c (last_byte s'))
  end.

Definition first_byte (s : string) : option ascii :=
  match s with
  | "" => None
  | String c _ => Some c
  end.

(** [str::split_whitespace]: the word a text begins with, and those behind it. *)
Definition push_word (w : string) (l : list string) : list string :=
  if String.eqb w "" then l else w :: l.

Fixpoint split_words (s : string) : string * list string :=
  let word a r := let '(w, l) := r in (String a w, l) in
  let space r := let '(w, l) := r in ("", push_word w l) in
  match s with
  | "" => ("", [])
  | String a s1 =>
      if is_ascii_whitespace a then space (split_words s1)
      else
        match s1 with
        | "" => word a (split_words s1)
        | String b s2 =>
            if whitespace2 a b then space (split_words s2)
            else
              match s2 with
              | "" => word a (split_words s1)
              | String c s3 =>
                  if whitespace3 a b c then space (split_words s3) else word a (split_words s1)
              end
        end
  end.

Definition split_whitespace (s : string) : list string :=
  let '(w, l) := split_words s in push_word w l.

(** ** Lemmas *)

Lemma take_chars_count n s : (count_chars (take_chars n s) ≤ n)%nat.
Proof.
  revert n. induction s as [|c s IH]; intros n; simpl; [lia|].
  destruct (is_continuation c) eqn:E; simpl; [by rewrite E|].
  destruct n as [|n]; simpl; [lia|]. rewrite E. specialize (IH n). lia.
Qed.

Lemma last_byte_app s t : last_byte (s +:+ t) = or_else (last_byte t) (last_byte s).
Proof.
  induction s as [|c s IH]; simpl; [by destruct (last_byte t)|]. rewrite IH. by destruct (last_byte t).
Qed.

(** *** Searching *)

Lemma str_drop_app (a b : string) : str_drop (String.length a) (a +:+ b) = b.
Proof. induction a as [|c a IH]; simpl; [by destruct b|done]. Qed.

Lemma substring_app (a b : string) : String.substring 0 (String.length a) (a +:+ b) = a.
Proof. induction a as [|c a IH]; simpl; [by destruct b|]. by rewrite IH. Qed.

(** [find] gives the first occurrence. *)
Lemma str_find_Some pat s n : str_find pat s = Some n →
  ∃ p r, s = p +:+ pat +:+ r ∧ String.length p = n ∧
    ∀ p' r', s = p' +:+ pat +:+ r' → (n ≤ String.length p')%nat.
Proof.
  revert n. induction s as [|c s IH]; intros n; cbn [str_find].
  - destruct (starts_with "" pat) eqn:E; [|done]. intros [= <-].
    apply starts_with_spec in E as [r E]. exists "", r. split_and!; [done..|]. intros. lia.
  - destruct (starts_with (String c s) pat) eqn:E.
    + intros [= <-]. apply starts_with_spec in E as [r E]. exists "", r. split_and!; [done..|]. intros. lia.
    + destruct (str_find pat s) as [m|]; [|done]. intros [= <-].
      destruct (IH m eq_refl) as (p & r & -> & <- & Hmin). exists (String c p), r. split_and!; [done..|].
      intros [|c' p'] r' Heq.
      * assert (starts_with (String c (p +:+ pat +:+ r)) pat = true) by (apply starts_with_spec; by exists r').
        congruence.
      * injection Heq as _ Heq. simpl. specialize (Hmin _ _ Heq). lia.
Qed.

Lemma str_find_None pat s : str_find pat s = None → ∀ p r, s ≠ p +:+ pat +:+ r.
Proof.
  induction s as [|c s IH]; cbn [str_find]; intros H p r Heq.
  - destruct (starts_with "" pat) eqn:E; [done|].
    assert (starts_with "" pat = true) as Hs; [|congruence]. apply starts_with_spec.
    destruct p; [|done]. exists r. done.
  - destruct (starts_with (String c s) pat) eqn:E; [done|]. destruct p as [|c' p].
    + assert (starts_with (String c s) pat = true) by (apply starts_with_spec; by exists r). congruence.
    + injection Heq as _ Heq. destruct (str_find pat s); [done|]. by apply (IH eq_refl p r).
Qed.

Lemma str_find_char c a s : str_find (String c "") (String a s) =
  if Ascii.eqb c a then Some 0 else S <$> str_find (String c "") s.
Proof.
  cbn [str_find]. unfold starts_with. cbn [String.prefix].
  destruct (ascii_dec _ _) as [E|E], (Ascii.eqb_spec c a); try congruence. by destruct s.
Qed.

Lemma contains_char_cons c a s : contains (String a s) (String c "") = Ascii.eqb c a || contains s (String c "").
Proof.
  unfold contains. rewrite str_find_char. destruct (Ascii.eqb c a); simpl; [done|].
  apply bool_decide_ext, fmap_is_Some.
Qed.

Lemma contains_char_app c a b :
  contains (a +:+ b) (String c "") = contains a (String c "") || contains b (String c "").
Proof.
  induction a as [|x a IH]; [done|]. change (String x a +:+ b) with (String x (a +:+ b)).
  by rewrite !contains_char_cons, IH, orb_assoc.
Qed.

Lemma ends_with_app a b : ends_with (a +:+ b) b = true.
Proof.
  assert (ends_with b b = true) as Hb by (destruct b; cbn; [done|by rewrite Ascii.eqb_refl, String.eqb_refl]).
  induction a as [|x a IH]; [done|]. cbn [String.append ends_with]. by rewrite IH, orb_true_r.
Qed.

(** A text begins a character: its first byte, if any, is not inside one. *)
Definition char_start (s : string) : bool :=
  match s with String c _ => negb (is_continuation c) | "" => true end.

(** Skipping the rest of a character skips nothing of a text that begins one. *)
Lemma skip_continuation_app q pat r : pat ≠ "" → char_start pat = true →
  ∃ cut q2, q = cut +:+ q2 ∧ skip_continuation (q +:+ pat +:+ r) = q2 +:+ pat +:+ r.
Proof.
  intros Hne Hst. induction q as [|c q IH]; simpl.
  - exists "", "". split; [done|]. destruct pat as [|c pat]; [done|]. simpl in *.
    destruct (is_continuation c); [done|]. done.
  - destruct (is_continuation c) eqn:E.
    + destruct IH as (cut & q2 & -> & E2). exists (String c cut), q2. done.
    + exists "", (String c q). done.
Qed.

Lemma skip_continuation_suffix s : ∃ cut, s = cut +:+ skip_continuation s.
Proof.
  induction s as [|c s IH]; simpl; [by exists ""|]. destruct (is_continuation c); [|by exists ""].
  destruct IH as [cut E]. exists (String c cut). simpl. by rewrite <-E.
Qed.

#[export] Hint Resolve take_chars_count : trp.
