(* ===== verification/F64.v ===== *)
(** * Floating point numbers

    Rust's [f64] and [f32] as the binary64 and binary32 numbers of the
    standard library's [SpecFloat]: exact IEEE-754 arithmetic, rounding to
    nearest even, computed on integers.  The comparison operators, [min],
    [Duration::as_secs_f64] and the decimal parser [str::parse::<f32>] are
    those of the Rust standard library. *)

From Stdlib Require Export SpecFloat.
From S2P Require Import Prelude RustStr.

Local Open Scope Z_scope.

(** ** Operations *)

Notation f64 := spec_float (only parsing).
Notation f32 := spec_float (only parsing).

Definition f64_prec : Z := 53.
Definition f64_emax : Z := 1024.
Definition f32_prec : Z := 24.
Definition f32_emax : Z := 128.

(** [z as f64] *)
Definition f64_of_Z (z : Z) : f64 := binary_normalize f64_prec f64_emax z 0 false.

Definition f64_add : f64 → f64 → f64 := SFadd f64_prec f64_emax.
Definition f64_sub : f64 → f64 → f64 := SFsub f64_prec f64_emax.
Definition f64_mul : f64 → f64 → f64 := SFmul f64_prec f64_emax.
Definition f64_div : f64 → f64 → f64 := SFdiv f64_prec f64_emax.

Definition is_nan (x : spec_float) : bool :=
  match x with S754_nan => true | _ => false end.

(** [x <= y], [x < y] and [x == y]: false when an operand is NaN. *)
Definition f_le : spec_float → spec_float → bool := SFleb.
Definition f_lt : spec_float → spec_float → bool := SFltb.
Definition f_eq : spec_float → spec_float → bool := SFeqb.

(** [f64::min]: a NaN operand is ignored. *)
Definition f64_min (x y : f64) : f64 :=
  if is_nan x then y
  else if is_nan y then x
  else if f_lt y x then y else x.

(** [Duration::as_secs_f64]: whole seconds plus the nanoseconds over 1e9. *)
Definition as_secs_f64 (d : Duration) : f64 :=
  f64_add (f64_of_Z (d `div` 1000000000))
          (f64_div (f64_of_Z (d `mod` 1000000000)) (f64_of_Z 1000000000)).

Definition f_zero : spec_float := S754_zero false.

(** [f64::max]: a NaN operand is ignored. *)
Definition f64_max (x y : f64) : f64 :=
  if is_nan x then y
  else if is_nan y then x
  else if f_lt x y then y else x.

(** [x as u64]: truncation, saturating at the ends; NaN is zero. *)
Definition f64_to_u64 (x : f64) : Z :=
  match x with
  | S754_nan | S754_zero _ | S754_infinity true => 0
  | S754_infinity false => u64_max
  | S754_finite true _ _ => 0
  | S754_finite false m e =>
      Z.min u64_max (if 0 <=? e then Zpos m * 2 ^ e else Zpos m / 2 ^ (- e))
  end.

(** [f64::ceil]: an integer below [2^53] is a float exactly, and a float above
    is an integer. *)
Definition f64_ceil (x : f64) : f64 :=
  match x with
  | S754_finite s m e =>
      if 0 <=? e then x
      else
        let v := if s then Zneg m else Zpos m in
        let c := - ((- v) / 2 ^ (- e)) in
        if c =? 0 then S754_zero s else f64_of_Z c
  | _ => x
  end.

(** Correct rounding of [d * 10^e10] for a non-negative [d]. *)
Definition round_decimal (prec emax : Z) (neg : bool) (d e10 : Z) : spec_float :=
  match d with
  | Zpos m =>
      if 0 <=? e10 then
        match d * 10 ^ e10 with
        | Zpos m' => binary_round prec emax neg m' 0
        | _ => S754_zero neg
        end
      else
        match 10 ^ (- e10) with
        | Zpos k =>
            let '(q, e, loc) := SFdiv_core_binary prec emax (Zpos m) 0 (Zpos k) 0 in
            binary_round_aux prec emax neg q e loc
        | _ => S754_nan
        end
  | _ => S754_zero neg
  end.

(** Reads a run of digits: the accumulated value, how many were read, the rest. *)
Fixpoint scan_digits (s : string) (acc n : Z) : Z * Z * string :=
  match s with
  | EmptyString => (acc, n, s)
  | String a s' =>
      match digit_of a with
      | Some d => scan_digits s' (acc * 10 + d) (n + 1)
      | None => (acc, n, s)
      end
  end.

(** The optional exponent part, which must end the input. *)
Definition scan_exponent (s : string) : option Z :=
  match s with
  | EmptyString => Some 0
  | String c s1 =>
      if (Ascii.eqb c "e" || Ascii.eqb c "E")%bool then
        let '(neg, s2) :=
          match s1 with
          | String c' s1' =>
              if Ascii.eqb c' "-" then (true, s1')
              else if Ascii.eqb c' "+" then (false, s1') else (false, s1)
          | EmptyString => (false, s1)
          end in
        let '(v, n, rest) := scan_digits s2 0 0 in
        match rest with
        | EmptyString => if n =? 0 then None else Some (if (neg : bool) then - v else v)
        | _ => None
        end
      else None
  end.

(** [str::parse::<f32>()] and [::<f64>()]: [inf], [infinity] and [nan] in any
    case, or a decimal number with at least one digit. *)
Definition parse_float (prec emax : Z) (s : string) : option spec_float :=
  let '(neg, body) :=
    match s with
    | String c s' =>
        if Ascii.eqb c "-" then (true, s')
        else if Ascii.eqb c "+" then (false, s') else (false, s)
    | EmptyString => (false, s)
    end in
  let low := to_lowercase body in
  if (String.eqb low "inf" || String.eqb low "infinity")%bool then Some (S754_infinity neg)
  else if String.eqb low "nan" then Some S754_nan
  else
    let '(ipart, ni, rest1) := scan_digits body 0 0 in
    let '(mant, nf, rest2) :=
      match rest1 with
      | String c r => if Ascii.eqb c "." then scan_digits r ipart 0 else (ipart, 0, rest1)
      | EmptyString => (ipart, 0, rest1)
      end in
    if ni + nf =? 0 then None
    else option_map (λ e, round_decimal prec emax neg mant (e - nf)) (scan_exponent rest2).

Definition parse_f32 (s : string) : option f32 := parse_float f32_prec f32_emax s.

(** ** Order lemmas *)

Lemma SFcompare_antisym x y : SFcompare y x = option_map CompOpp (SFcompare x y).
Proof.
  destruct x as [sx|sx| |sx mx ex], y as [sy|sy| |sy my ey]; simpl;
    try destruct sx; try destruct sy; simpl; try done;
    rewrite (Z.compare_antisym ex ey); destruct (Z.compare_spec ex ey); simpl; try done;
    change (Pos.compare_cont Eq) with Pos.compare;
    rewrite (Pos.compare_antisym mx my), ?CompOpp_involutive; done.
Qed.

Lemma SFcompare_refl x : is_nan x = false → SFcompare x x = Some Eq.
Proof.
  destruct x as [sx|sx| |sx mx ex]; simpl; try done; intros _;
    try destruct sx; try done; rewrite Z.compare_refl;
    change (Pos.compare_cont Eq) with Pos.compare; by rewrite Pos.compare_refl.
Qed.

Lemma SFcompare_nan x y : SFcompare x y = None ↔ is_nan x = true ∨ is_nan y = true.
Proof.
  destruct x as [sx|sx| |sx mx ex], y as [sy|sy| |sy my ey]; simpl;
    try destruct sx; try destruct sy; simpl; try naive_solver;
    destruct (Z.compare ex ey); naive_solver.
Qed.

Lemma f_le_refl x : is_nan x = false → f_le x x = true.
Proof. intros H. unfold f_le, SFleb. by rewrite SFcompare_refl. Qed.

Lemma f_lt_le x y : f_lt x y = true → f_le x y = true.
Proof. unfold f_lt, f_le, SFltb, SFleb. by destruct (SFcompare x y) as [[]|]. Qed.

Lemma f_not_lt_le x y :
  is_nan x = false → is_nan y = false → f_lt y x = false → f_le x y = true.
Proof.
  intros Hx Hy. unfold f_lt, f_le, SFltb, SFleb.
  rewrite (SFcompare_antisym x y).
  destruct (SFcompare x y) as [[]|] eqn:E; simpl; try done.
  apply SFcompare_nan in E. destruct E; congruence.
Qed.

Lemma f_le_not_lt x y : f_le x y = true → f_lt y x = false.
Proof.
  unfold f_lt, f_le, SFltb, SFleb. rewrite (SFcompare_antisym x y).
  by destruct (SFcompare x y) as [[]|].
Qed.

(** Finite magnitudes compare by exponent, then mantissa. *)
Lemma f_le_finite (sgn : bool) m e m' e' :
  f_le (S754_finite sgn m e) (S754_finite sgn m' e') = true ↔
  if sgn then e' < e ∨ (e' = e ∧ (m' ≤ m)%positive) else e < e' ∨ (e = e' ∧ (m ≤ m')%positive).
Proof.
  unfold f_le, SFleb. simpl. change (Pos.compare_cont Eq) with Pos.compare.
  destruct sgn; destruct (Z.compare_spec e e'); destruct (Pos.compare_spec m m'); simpl;
    split; try done; try lia; intros; try (left; lia); try (right; lia).
Qed.

Lemma f_le_trans x y z : f_le x y = true → f_le y z = true → f_le x z = true.
Proof.
  destruct x as [sx|sx| |sx mx ex], y as [sy|sy| |sy my ey], z as [sz|sz| |sz mz ez];
    try destruct sx; try destruct sy; try destruct sz; try done.
  all: rewrite !f_le_finite; lia.
Qed.

Lemma f_eq_le x y : f_eq x y = true → f_le x y = true ∧ f_le y x = true.
Proof.
  unfold f_eq, f_le, SFeqb, SFleb. rewrite (SFcompare_antisym x y).
  by destruct (SFcompare x y) as [[]|].
Qed.

Lemma f64_min_le x b : is_nan b = false → f_le (f64_min x b) b = true.
Proof.
  intros Hb. unfold f64_min. destruct (is_nan x) eqn:Hx; [by apply f_le_refl|].
  rewrite Hb. destruct (f_lt b x) eqn:E; [by apply f_le_refl|]. by apply f_not_lt_le.
Qed.

Lemma f64_min_not_nan x b : is_nan b = false → is_nan (f64_min x b) = false.
Proof.
  intros Hb. unfold f64_min. destruct (is_nan x) eqn:Hx; [done|]. rewrite Hb.
  by destruct (f_lt b x).
Qed.

(** Comparison with zero is by sign. *)
Lemma f_le_zero_pos x y :
  f_le x f_zero = true → f_lt f_zero y = true → f_le y x = false.
Proof.
  unfold f_le, f_lt, SFleb, SFltb.
  destruct x as [sx|sx| |sx mx ex], y as [sy|sy| |sy my ey]; simpl;
    try destruct sx; try destruct sy; simpl; done.
Qed.

#[export] Hint Resolve f_le_refl f_lt_le f64_min_le f64_min_not_nan : trp.

Example parse_f32_tenth : parse_f32 "0.1" = Some (S754_finite false 13421773 (-27)).
Proof. vm_compute. reflexivity. Qed.

Example parse_f32_forms :
  parse_f32 "1e-1" = parse_f32 "0.1" ∧ parse_f32 ".5" = parse_f32 "5E-1" ∧
  parse_f32 "." = None ∧ parse_f32 "1x" = None ∧ parse_f32 "NaN" = Some S754_nan.
Proof. vm_compute. by split_and!. Qed.
