(* ===== verification/FloatRound.v ===== *)
(** * Rounding of doubles

    What the proofs about [f64] need of IEEE arithmetic: rounding to nearest even
    is monotone, so addition and multiplication of doubles that are not negative
    are monotone and stay so.  The value of a double is counted in units of the
    least positive one, [2^-1074]. *)

From S2P Require Import Prelude F64.

Local Open Scope Z_scope.

(** ** Rounding of integers *)

(** [m / d] to the nearest integer, ties to even. *)
Definition rne (m d : Z) : Z :=
  let q := m / d in
  let r := m mod d in
  if 2 * r <? d then q
  else if 2 * r =? d then (if Z.even q then q else q + 1)
  else q + 1.

Lemma rne_bounds m d : 0 < d → m / d ≤ rne m d ≤ m / d + 1.
Proof. intros Hd. unfold rne. repeat case_match; lia. Qed.

Lemma rne_exact q d : 0 < d → rne (q * d) d = q.
Proof. intros Hd. unfold rne. rewrite Z.div_mul, Z.mod_mul by lia. destruct (Z.ltb_spec (2 * 0) d); lia. Qed.

Lemma rne_mono m n d : 0 < d → m ≤ n → rne m d ≤ rne n d.
Proof.
  intros Hd Hmn. pose proof (Z.div_le_mono m n d Hd Hmn) as Hq.
  destruct (decide (m / d < n / d)) as [Hlt|Hge].
  { pose proof (rne_bounds m d Hd). pose proof (rne_bounds n d Hd). lia. }
  assert (m / d = n / d) as E by lia.
  assert (m mod d ≤ n mod d) by (rewrite !Z.mod_eq by lia; rewrite E; lia).
  unfold rne. rewrite E.
  destruct (Z.ltb_spec (2 * (m mod d)) d), (Z.ltb_spec (2 * (n mod d)) d),
    (Z.eqb_spec (2 * (m mod d)) d), (Z.eqb_spec (2 * (n mod d)) d), (Z.even (n / d)); lia.
Qed.

Lemma rne_scale m d j : 0 < d → 0 < j → rne (m * j) (d * j) = rne m d.
Proof.
  intros Hd Hj. unfold rne. rewrite Z.div_mul_cancel_r, Z.mul_mod_distr_r by lia.
  destruct (Z.ltb_spec (2 * (m mod d * j)) (d * j)), (Z.ltb_spec (2 * (m mod d)) d); try nia;
  destruct (Z.eqb_spec (2 * (m mod d * j)) (d * j)), (Z.eqb_spec (2 * (m mod d)) d); try nia; done.
Qed.

Lemma rne_nonneg m d : 0 < d → 0 ≤ m → 0 ≤ rne m d.
Proof. intros Hd Hm. pose proof (rne_bounds m d Hd). pose proof (Z.div_pos m d Hm Hd). lia. Qed.

(** ** Rounding of a value *)

(** The exponent the value [M * 2^c] is rounded to. *)
Definition target (M c : Z) : Z := Z.max (Z.log2 M + 1 + c - 53) (-1074).

(** The rounded value of [M * 2^c], in units of [2^-1074]. *)
Definition rounded (M c : Z) : Z :=
  let k := target M c in
  if c <=? k then rne M (2 ^ (k - c)) * 2 ^ (k + 1074) else M * 2 ^ (c + 1074).

Lemma pow_pos a : 0 ≤ a → 0 < 2 ^ a.
Proof. intros. apply Z.pow_pos_nonneg; lia. Qed.

Lemma target_scale M c j : 0 < M → 0 ≤ j → target (M * 2 ^ j) c = target M (c + j).
Proof. intros HM Hj. unfold target. rewrite Z.log2_mul_pow2 by lia. lia. Qed.

Lemma rounded_scale M c j : 0 < M → 0 ≤ j → rounded (M * 2 ^ j) c = rounded M (c + j).
Proof.
  intros HM Hj. unfold rounded. rewrite target_scale by lia. set (k := target M (c + j)).
  assert (-1074 ≤ k) by (unfold k, target; lia). pose proof (pow_pos j Hj).
  destruct (Z.leb_spec c k), (Z.leb_spec (c + j) k); try lia.
  - replace (k - c) with (k - (c + j) + j) by lia. rewrite Z.pow_add_r by lia.
    rewrite rne_scale; [done|apply pow_pos; lia|done].
  - replace (M * 2 ^ j) with (M * 2 ^ (c + j - k) * 2 ^ (k - c)).
    2:{ rewrite <-Z.mul_assoc, <-Z.pow_add_r by lia. f_equal. f_equal. lia. }
    rewrite rne_exact by (apply pow_pos; lia).
    rewrite <-Z.mul_assoc, <-Z.pow_add_r by lia. f_equal. f_equal. lia.
  - rewrite <-Z.mul_assoc, <-Z.pow_add_r by lia. f_equal. f_equal. lia.
Qed.

(** At a fixed low exponent every value is rounded by [rne]. *)
Lemma rounded_low M c : c ≤ -1074 → rounded M c = rne M (2 ^ (target M c - c)) * 2 ^ (target M c + 1074).
Proof. intros Hc. unfold rounded. assert (-1074 ≤ target M c) by (unfold target; lia). by destruct (Z.leb_spec c (target M c)); [|lia]. Qed.

Lemma rounded_mono_low M N c : c ≤ -1074 → 0 < M → M ≤ N → rounded M c ≤ rounded N c.
Proof.
  intros Hc HM HMN. rewrite !rounded_low by done.
  pose proof (Z.log2_le_mono M N HMN) as Hl.
  assert (target M c ≤ target N c) as Ht by (unfold target; lia).
  assert (-1074 ≤ target M c) as Hk by (unfold target; lia).
  destruct (decide (target M c = target N c)) as [->|Hne].
  { apply Z.mul_le_mono_nonneg_r; [apply Z.lt_le_incl, pow_pos; lia|]. apply rne_mono; [apply pow_pos; lia|done]. }
  (* the least value of the binade of [N] lies between *)
  set (k := target M c) in *. set (k' := target N c) in *.
  assert (k' = Z.log2 N + 1 + c - 53) as Ek' by (unfold k', k, target in *; lia).
  assert (k ≤ k') by lia. set (b := Z.log2 N) in *.
  assert (Z.log2 M < b) as Hlt by (unfold k, target in *; lia).
  destruct (Z.log2_spec M HM) as [_ HM2]. destruct (Z.log2_spec N ltac:(lia)) as [HN1 _]. fold b in HN1.
  assert (M ≤ 2 ^ b) as HMb.
  { apply Z.lt_le_incl, (Z.lt_le_trans _ _ _ HM2). apply Z.pow_le_mono_r; lia. }
  transitivity (2 ^ (b + c + 1074)).
  - transitivity (rne (2 ^ b) (2 ^ (k - c)) * 2 ^ (k + 1074)).
    + apply Z.mul_le_mono_nonneg_r; [apply Z.lt_le_incl, pow_pos; lia|]. apply rne_mono; [apply pow_pos; lia|done].
    + replace (2 ^ b) with (2 ^ (b - (k - c)) * 2 ^ (k - c)) by (rewrite <-Z.pow_add_r by lia; f_equal; lia).
      rewrite rne_exact by (apply pow_pos; lia). rewrite <-Z.pow_add_r by lia. apply Z.eq_le_incl. f_equal. lia.
  - transitivity (rne (2 ^ b) (2 ^ (k' - c)) * 2 ^ (k' + 1074)).
    + replace (2 ^ b) with (2 ^ (b - (k' - c)) * 2 ^ (k' - c)) by (rewrite <-Z.pow_add_r by lia; f_equal; lia).
      rewrite rne_exact by (apply pow_pos; lia). rewrite <-Z.pow_add_r by lia. apply Z.eq_le_incl. f_equal. lia.
    + apply Z.mul_le_mono_nonneg_r; [apply Z.lt_le_incl, pow_pos; lia|]. apply rne_mono; [apply pow_pos; lia|done].
Qed.

Lemma rounded_mono M c N c' j j' :
  0 < M → 0 < N → 0 ≤ j → 0 ≤ j' → c - j = c' - j' → c - j ≤ -1074 →
  M * 2 ^ j ≤ N * 2 ^ j' → rounded M c ≤ rounded N c'.
Proof.
  intros HM HN Hj Hj' E Hlow Hle.
  replace c with ((c - j) + j) by lia. replace c' with ((c' - j') + j') by lia.
  rewrite <-!rounded_scale by lia. rewrite <-E. apply rounded_mono_low; [done| |done].
  apply Z.mul_pos_pos; [done|by apply pow_pos].
Qed.

(** ** The rounding of [SpecFloat] *)

Lemma digits2_log2 p : Zpos (digits2_pos p) = Z.log2 (Zpos p) + 1.
Proof.
  induction p as [p IH|p IH|]; [..|done]; simpl digits2_pos; rewrite Pos2Z.inj_succ, IH.
  - change (Zpos p~1) with (2 * Zpos p + 1). rewrite Z.log2_succ_double by lia. lia.
  - change (Zpos p~0) with (2 * Zpos p). rewrite Z.log2_double by lia. lia.
Qed.

Lemma fexp_target p c : fexp f64_prec f64_emax (Zpos (digits2_pos p) + c) = target (Zpos p) c.
Proof. rewrite digits2_log2. reflexivity. Qed.

Lemma iter_pos_nat {A} (f : A → A) p x : iter_pos f p x = Nat.iter (Pos.to_nat p) f x.
Proof.
  revert x. induction p as [p IH|p IH|]; intros x; cbn [iter_pos]; [..|done]; rewrite !IH.
  - rewrite <-Nat.iter_add, Pos2Nat.inj_xI, Nat.iter_succ_r. f_equal. lia.
  - rewrite <-Nat.iter_add, Pos2Nat.inj_xO. f_equal. lia.
Qed.

Lemma shr_1_nonneg m r s : 0 ≤ m →
  shr_1 {| shr_m := m; shr_r := r; shr_s := s |} =
  {| shr_m := m / 2; shr_r := Z.odd m; shr_s := r || s |}.
Proof. intros Hm. rewrite <-Z.div2_div. destruct m as [|[p|p|]|]; done. Qed.

(** Shifting by [n + 1] leaves the quotient, the next bit and whether anything
    is left below it. *)
Lemma shr_iter m n : 0 ≤ m →
  Nat.iter (S n) shr_1 {| shr_m := m; shr_r := false; shr_s := false |} =
  {| shr_m := m / 2 ^ (Z.of_nat n + 1); shr_r := Z.odd (m / 2 ^ Z.of_nat n);
     shr_s := negb (m mod 2 ^ Z.of_nat n =? 0) |}.
Proof.
  intros Hm. induction n as [|n IH].
  - cbn [Nat.iter nat_rect]. rewrite shr_1_nonneg by done. rewrite Z.div_1_r, Z.mod_1_r. done.
  - change (Nat.iter (S (S n)) shr_1 ?x) with (shr_1 (Nat.iter (S n) shr_1 x)). rewrite IH.
    rewrite shr_1_nonneg by (apply Z.div_pos; [done|apply pow_pos; lia]).
    assert (0 < 2 ^ Z.of_nat n) by (apply pow_pos; lia).
    replace (Z.of_nat (S n)) with (Z.of_nat n + 1) by lia. f_equal.
    + rewrite Z.div_div by (try lia; apply pow_pos; lia). f_equal.
      rewrite (Z.pow_add_r 2 (Z.of_nat n + 1)) by lia. done.
    + rewrite Z.pow_add_r, Z.rem_mul_r, Zodd_mod by lia. change (2 ^ 1) with 2.
      pose proof (Z.mod_pos_bound m (2 ^ Z.of_nat n) ltac:(lia)).
      pose proof (Z.mod_pos_bound (m / 2 ^ Z.of_nat n) 2 ltac:(lia)).
      destruct (Z.eqb_spec ((m / 2 ^ Z.of_nat n) mod 2) 1), (Z.eqb_spec (m mod 2 ^ Z.of_nat n) 0); simpl;
        symmetry; rewrite ?negb_true_iff, ?negb_false_iff, ?Z.eqb_eq, ?Z.eqb_neq; nia.
Qed.

Lemma round_shr m n : 0 ≤ m →
  let r := Nat.iter n shr_1 {| shr_m := m; shr_r := false; shr_s := false |} in
  round_nearest_even (shr_m r) (loc_of_shr_record r) = rne m (2 ^ Z.of_nat n).
Proof.
  intros Hm. destruct n as [|n]; cbv zeta.
  { pose proof (rne_exact m 1 ltac:(lia)) as E. rewrite Z.mul_1_r in E. exact (eq_sym E). }
  rewrite shr_iter by done. cbn [shr_m].
  replace (Z.of_nat (S n)) with (Z.of_nat n + 1) by lia. set (d := 2 ^ Z.of_nat n).
  assert (0 < d) by (apply pow_pos; lia).
  assert (2 ^ (Z.of_nat n + 1) = d * 2) as Ed by (rewrite Z.pow_add_r by lia; done).
  unfold rne. rewrite Ed. set (q := m / (d * 2)). rewrite (Z.rem_mul_r m d 2) by lia.
  rewrite Zodd_mod.
  pose proof (Z.mod_pos_bound m d ltac:(lia)). pose proof (Z.mod_pos_bound (m / d) 2 ltac:(lia)).
  destruct (Z.eqb_spec ((m / d) mod 2) 1) as [E1|E1], (Z.eqb_spec (m mod d) 0) as [E0|E0]; simpl;
    destruct (Z.ltb_spec (2 * (m mod d + d * ((m / d) mod 2))) (d * 2)),
      (Z.eqb_spec (2 * (m mod d + d * ((m / d) mod 2))) (d * 2)); try nia; done.
Qed.

(** ** Doubles that are not negative *)

(** Valid, and zero of either sign, positive or infinite. *)
Definition fpos (x : f64) : Prop :=
  match x with
  | S754_zero _ | S754_infinity false => True
  | S754_finite false m e => bounded f64_prec f64_emax m e = true
  | _ => False
  end.

Definition top : Z := 2 ^ 2098.

Definition fval (x : f64) : Z :=
  match x with
  | S754_infinity false => top
  | S754_finite false m e => Zpos m * 2 ^ (e + 1074)
  | _ => 0
  end.

Lemma bounded_spec m e :
  bounded f64_prec f64_emax m e = true ↔ target (Zpos m) e = e ∧ e ≤ 971.
Proof.
  unfold bounded, canonical_mantissa. rewrite fexp_target, andb_true_iff, Z.eqb_eq, Z.leb_le. done.
Qed.

Lemma canonical_mantissa_range m e : target (Zpos m) e = e →
  -1074 ≤ e ∧ Zpos m < 2 ^ 53 ∧ (e = -1074 ∨ 2 ^ 52 ≤ Zpos m).
Proof.
  unfold target. intros E. pose proof (Z.log2_spec (Zpos m) ltac:(lia)) as [H1 H2].
  split_and!; [lia| |].
  - apply (Z.lt_le_trans _ _ _ H2). apply Z.pow_le_mono_r; lia.
  - destruct (decide (e = -1074)); [by left|right].
    transitivity (2 ^ Z.log2 (Zpos m)); [|done]. apply Z.pow_le_mono_r; lia.
Qed.

Lemma fval_nonneg x : 0 ≤ fval x.
Proof.
  destruct x as [|[]| |[] m e]; try done. apply Z.mul_nonneg_nonneg; [lia|apply Z.pow_nonneg; lia].
Qed.

Lemma fval_finite_lt m e : bounded f64_prec f64_emax m e = true →
  0 < fval (S754_finite false m e) < top.
Proof.
  rewrite bounded_spec. intros [E He]. apply canonical_mantissa_range in E as (E1 & E2 & _). simpl.
  pose proof (pow_pos (e + 1074) ltac:(lia)). split; [lia|].
  apply (Z.lt_le_trans _ (2 ^ 53 * 2 ^ (e + 1074))); [nia|]. rewrite <-Z.pow_add_r by lia.
  unfold top. apply Z.pow_le_mono_r; lia.
Qed.

Lemma fval_exponent_lt m e m' e' :
  bounded f64_prec f64_emax m e = true → bounded f64_prec f64_emax m' e' = true → e < e' →
  Zpos m * 2 ^ (e + 1074) < Zpos m' * 2 ^ (e' + 1074).
Proof.
  rewrite !bounded_spec. intros [E _] [E' _] Hlt.
  apply canonical_mantissa_range in E as (E1 & E2 & _). apply canonical_mantissa_range in E' as (_ & _ & [?|E3]); [lia|].
  pose proof (pow_pos (e + 1074) ltac:(lia)). pose proof (pow_pos (e' + 1074) ltac:(lia)).
  apply (Z.lt_le_trans _ (2 ^ 53 * 2 ^ (e + 1074))); [nia|].
  transitivity (2 ^ 52 * 2 ^ (e' + 1074)); [|nia].
  rewrite <-!Z.pow_add_r by lia. apply Z.pow_le_mono_r; lia.
Qed.

(** The order of these doubles is that of their values. *)
Lemma f_le_fval x y : fpos x → fpos y → f_le x y = true ↔ fval x ≤ fval y.
Proof.
  intros Hx Hy.
  destruct x as [sx|[]| |[] m e], y as [sy|[]| |[] m' e']; try done; simpl in Hx, Hy;
    try (pose proof (fval_finite_lt _ _ Hx)); try (pose proof (fval_finite_lt _ _ Hy));
    try (split; [intros Hle; first [done|unfold fval, top in *; lia]
                |intros Hle; first [done|exfalso; unfold fval, top in *; lia]]).
  rewrite f_le_finite. unfold fval. destruct (Z.lt_trichotomy e e') as [Hlt|[<-|Hlt]].
  - pose proof (fval_exponent_lt _ _ _ _ Hx Hy Hlt). split; [lia|by left].
  - assert (0 < 2 ^ (e + 1074)).
    { apply pow_pos. apply bounded_spec in Hx as [E _]. apply canonical_mantissa_range in E. lia. }
    rewrite <-Z.mul_le_mono_pos_r by done. lia.
  - pose proof (fval_exponent_lt _ _ _ _ Hy Hx Hlt). split; lia.
Qed.

Lemma SFcompare_fval x y : fpos x → fpos y → SFcompare x y = Some (fval x ?= fval y).
Proof.
  intros Hx Hy. pose proof (f_le_fval x y Hx Hy) as Hxy. pose proof (f_le_fval y x Hy Hx) as Hyx.
  unfold f_le, SFleb in *. assert (∀ c, SFcompare x y = Some c → SFcompare y x = Some (CompOpp c)) as Hsym.
  { intros c. destruct x as [|[]| |[] m e], y as [|[]| |[] m' e']; simpl; try by intros [= <-].
    rewrite (Z.compare_antisym e e'). destruct (e ?= e'); simpl; [|by intros [= <-]..].
    intros [= <-]. f_equal. symmetry. apply (Pos.compare_cont_antisym m m' Eq). }
  destruct (SFcompare x y) as [c|] eqn:E.
  - rewrite (Hsym c eq_refl) in Hyx. f_equal. symmetry.
    destruct c; simpl in *; [apply Z.compare_eq_iff|apply Z.compare_lt_iff|apply Z.compare_gt_iff];
      [apply Z.le_antisymm; naive_solver|..]; apply Z.lt_nge; naive_solver.
  - exfalso. by destruct x as [|[]| |[] m e], y as [|[]| |[] m' e'].
Qed.

Lemma quotient_range M c : 0 < M → c ≤ target M c →
  let k := target M c in let q := rne M (2 ^ (k - c)) in
  -1074 ≤ k ∧ 0 ≤ q ≤ 2 ^ 53 ∧ (k = -1074 ∨ 2 ^ 52 ≤ q).
Proof.
  intros HM Hc k q. pose proof (pow_pos (k - c) ltac:(unfold k in *; lia)) as Hd.
  pose proof (Z.log2_spec M HM) as [H1 H2]. pose proof (Z.log2_nonneg M) as H0.
  assert (-1074 ≤ k) by (unfold k, target; lia).
  assert (Z.log2 M + 1 ≤ 53 + (k - c)) by (unfold k, target; lia).
  split_and!; [done|by apply rne_nonneg; [|lia]| |].
  - transitivity (rne (2 ^ 53 * 2 ^ (k - c)) (2 ^ (k - c))); [|by rewrite rne_exact].
    apply rne_mono; [done|]. rewrite <-Z.pow_add_r by lia. apply Z.lt_le_incl, (Z.lt_le_trans _ _ _ H2).
    apply Z.pow_le_mono_r; lia.
  - destruct (decide (k = -1074)) as [|Hk]; [by left|right].
    assert (Z.log2 M = 52 + (k - c)) as El by (unfold k, target in *; lia).
    transitivity (rne (2 ^ 52 * 2 ^ (k - c)) (2 ^ (k - c))); [by rewrite rne_exact|].
    apply rne_mono; [done|]. rewrite <-Z.pow_add_r by lia. by rewrite <-El.
Qed.

Lemma iter_xO m d : Zpos (Pos.iter xO m d) = Zpos m * 2 ^ Zpos d.
Proof.
  induction d as [|d IH] using Pos.peano_ind; [simpl; lia|].
  rewrite Pos.iter_succ, Pos2Z.inj_succ, Z.pow_succ_r by lia.
  change (Zpos (Pos.iter xO m d)~0) with (2 * Zpos (Pos.iter xO m d)). rewrite IH. lia.
Qed.

Lemma shl_align_spec m e e' :
  shl_align m e e' = if e' <? e then (Z.to_pos (Zpos m * 2 ^ (e - e')), e') else (m, e).
Proof.
  unfold shl_align. destruct (e' - e) as [|d|d] eqn:E; destruct (Z.ltb_spec e' e); try lia; try done.
  f_equal. replace (e - e') with (Zpos d) by lia. rewrite <-iter_xO. done.
Qed.

Lemma shr_nonpos r e n : n ≤ 0 → shr r e n = (r, e).
Proof. by destruct n. Qed.

Lemma shr_pos m e n : 0 ≤ n →
  shr {| shr_m := m; shr_r := false; shr_s := false |} e n =
  (Nat.iter (Z.to_nat n) shr_1 {| shr_m := m; shr_r := false; shr_s := false |}, e + n).
Proof.
  destruct n as [|p|p]; intros Hn; [by rewrite Z.add_0_r| |lia]. cbn [shr]. by rewrite iter_pos_nat.
Qed.

Lemma fexp_digits q k : 0 ≤ q →
  fexp f64_prec f64_emax (Zdigits2 q + k) = if q =? 0 then Z.max (k - 53) (-1074) else target q k.
Proof.
  intros Hq. destruct q as [|p|p]; [done| |lia]. unfold Zdigits2. by rewrite fexp_target.
Qed.

Lemma round_aux_spec M c : 0 < M → c ≤ target M c →
  let x := binary_round_aux f64_prec f64_emax false M c loc_Exact in
  fpos x ∧ fval x = Z.min (rounded M c) top.
Proof.
  intros HM Hc. destruct (quotient_range M c HM Hc) as (Hk & Hq & Hnorm).
  assert (rounded M c = rne M (2 ^ (target M c - c)) * 2 ^ (target M c + 1074)) as ->.
  { unfold rounded. by destruct (Z.leb_spec c (target M c)); [|lia]. }
  unfold binary_round_aux, shr_fexp, shr_record_of_loc.
  rewrite fexp_digits by lia. destruct (Z.eqb_spec M 0); [lia|].
  rewrite shr_pos by lia. replace (c + (target M c - c)) with (target M c) by lia.
  rewrite round_shr by lia. rewrite Z2Nat.id by lia.
  set (k := target M c) in *. set (q := rne M (2 ^ (k - c))) in *. clearbody k q. clear M c HM Hc n.
  rewrite fexp_digits by lia. pose proof (pow_pos (k + 1074) ltac:(lia)) as Hpow.
  destruct (Z.eqb_spec q 0) as [->|Hq0].
  { rewrite shr_nonpos by lia. simpl. split; [done|]. symmetry. apply Z.min_l. unfold top. lia. }
  destruct (decide (q = 2 ^ 53)) as [->|Hq53].
  - replace (target (2 ^ 53) k - k) with 1 by (unfold target; rewrite Z.log2_pow2 by lia; lia).
    assert (shr {| shr_m := 2 ^ 53; shr_r := false; shr_s := false |} k 1 =
      ({| shr_m := 2 ^ 52; shr_r := false; shr_s := false |}, k + 1)) as -> by reflexivity.
    assert (target (2 ^ 52) (k + 1) = k + 1) as Et by (unfold target; rewrite Z.log2_pow2 by lia; lia).
    replace (2 ^ 53 * 2 ^ (k + 1074)) with (2 ^ 52 * 2 ^ (k + 1 + 1074))
      by (replace (k + 1 + 1074) with ((k + 1074) + 1) by lia; rewrite (Z.pow_add_r 2 (k + 1074) 1) by lia; lia).
    change (2 ^ 52) with 4503599627370496 in *. cbn [shr_m].
    destruct (Z.leb_spec (k + 1) (f64_emax - f64_prec)) as [Hle|Hgt]; unfold f64_emax, f64_prec in *.
    + assert (bounded f64_prec f64_emax 4503599627370496 (k + 1) = true) as Hb by (apply bounded_spec; lia).
      split; [done|]. pose proof (fval_finite_lt _ _ Hb) as Hv. unfold fval in *. lia.
    + split; [done|]. symmetry. apply Z.min_r. unfold top.
      change 4503599627370496 with (2 ^ 52). rewrite <-Z.pow_add_r by lia. apply Z.pow_le_mono_r; lia.
  - assert (target q k = k ∧ 0 < q) as [Et Hpos].
    { split; [|lia]. unfold target. assert (Z.log2 q < 53) by (apply Z.log2_lt_pow2; lia).
      destruct Hnorm as [->|Hn]; [lia|]. assert (52 ≤ Z.log2 q) by (apply Z.log2_le_pow2; lia). lia. }
    rewrite Et, Z.sub_diag, shr_nonpos by lia. cbn [shr_m]. destruct q as [|p|p]; [lia| |lia].
    destruct (Z.leb_spec k (f64_emax - f64_prec)) as [Hle|Hgt]; unfold f64_emax, f64_prec in *.
    + assert (bounded f64_prec f64_emax p k = true) as Hb by (apply bounded_spec; lia).
      split; [done|]. pose proof (fval_finite_lt _ _ Hb) as Hv. unfold fval in *. lia.
    + split; [done|]. symmetry. apply Z.min_r. unfold top. destruct Hnorm as [->|Hn]; [lia|].
      transitivity (2 ^ 52 * 2 ^ (k + 1074)); [|nia]. rewrite <-Z.pow_add_r by lia. apply Z.pow_le_mono_r; lia.
Qed.

Lemma binary_round_spec m c :
  let x := binary_round f64_prec f64_emax false m c in
  fpos x ∧ fval x = Z.min (rounded (Zpos m) c) top.
Proof.
  unfold binary_round. rewrite shl_align_spec, fexp_target. set (k := target (Zpos m) c).
  destruct (Z.ltb_spec k c) as [Hlt|Hge].
  - set (M := Zpos m * 2 ^ (c - k)). assert (0 < M) as HM by (apply Z.mul_pos_pos; [lia|apply pow_pos; lia]).
    rewrite Z2Pos.id by done.
    assert (target M k = k) as Et by (unfold M; rewrite target_scale by lia; replace (k + (c - k)) with c by lia; done).
    replace (rounded (Zpos m) c) with (rounded M k).
    + apply round_aux_spec; [done|lia].
    + unfold M. rewrite rounded_scale by lia. f_equal. lia.
  - by apply round_aux_spec.
Qed.

(** The sum and the product, from the values. *)
Definition round_value (v c : Z) : Z := if v =? 0 then 0 else Z.min (rounded v c) top.

Lemma rounded_top : rounded top (-1074) = top.
Proof. vm_compute. reflexivity. Qed.

Lemma rounded_nonneg v c : 0 < v → 0 ≤ rounded v c.
Proof.
  intros Hv. unfold rounded. assert (-1074 ≤ target v c) by (unfold target; lia).
  destruct (Z.leb_spec c (target v c)).
  - apply Z.mul_nonneg_nonneg; [|apply Z.pow_nonneg; lia]. apply rne_nonneg; [apply pow_pos; lia|lia].
  - apply Z.mul_nonneg_nonneg; [lia|apply Z.pow_nonneg; lia].
Qed.

Lemma round_value_mono v w c : c ≤ -1074 → 0 ≤ v ≤ w → round_value v c ≤ round_value w c.
Proof.
  intros Hc Hvw. unfold round_value. pose proof (pow_pos 2098 ltac:(lia)) as Htop.
  destruct (Z.eqb_spec v 0), (Z.eqb_spec w 0); try lia.
  - pose proof (rounded_nonneg w c ltac:(lia)). unfold top in *. lia.
  - pose proof (rounded_mono_low v w c). lia.
Qed.

Lemma fpos_exponent m e : fpos (S754_finite false m e) → -1074 ≤ e.
Proof. intros [E _]%bounded_spec. by destruct (canonical_mantissa_range _ _ E). Qed.

Lemma fval_rounded x : fpos x → round_value (fval x) (-1074) = fval x.
Proof.
  intros Hx. unfold round_value. destruct x as [s|[]| |[] m e]; try done.
  - pose proof (fpos_exponent _ _ Hx) as He. pose proof (fval_finite_lt _ _ Hx) as Hv.
    destruct (Z.eqb_spec (fval (S754_finite false m e)) 0); [lia|].
    cbn [fval] in *. rewrite rounded_scale by lia. replace (-1074 + (e + 1074)) with e by lia.
    apply bounded_spec in Hx as [E _]. unfold rounded. rewrite E.
    destruct (Z.leb_spec e e); [|lia]. rewrite Z.sub_diag. change (2 ^ 0) with 1.
    pose proof (rne_exact (Zpos m) 1 ltac:(lia)) as Er. rewrite Z.mul_1_r in Er. rewrite Er. lia.
Qed.

Lemma fst_shl_align m e ez : ez ≤ e → Zpos (fst (shl_align m e ez)) = Zpos m * 2 ^ (e - ez).
Proof.
  intros He. rewrite shl_align_spec. destruct (Z.ltb_spec ez e); simpl fst.
  - rewrite Z2Pos.id; [done|]. apply Z.mul_pos_pos; [lia|apply pow_pos; lia].
  - replace (e - ez) with 0 by lia. lia.
Qed.

Lemma f64_add_spec x y : fpos x → fpos y →
  fpos (f64_add x y) ∧ fval (f64_add x y) = round_value (fval x + fval y) (-1074).
Proof.
  intros Hx Hy. pose proof (fval_nonneg x) as Nx. pose proof (fval_nonneg y) as Ny.
  assert (∀ v, 0 ≤ v → round_value (top + v) (-1074) = top) as Hinf.
  { intros v Hv. apply Z.le_antisymm.
    - unfold round_value. destruct (Z.eqb_spec (top + v) 0); unfold top in *; lia.
    - transitivity (round_value top (-1074)); [by vm_compute|].
      apply round_value_mono; unfold top; lia. }
  destruct x as [sx|[]| |[] mx ex], y as [sy|[]| |[] my ey]; try done;
    try (by split; [destruct sx, sy|destruct sx, sy]);
    try (split; [done|]; change (fval (f64_add _ _)) with top; symmetry;
         first [by apply (Hinf (fval _))|rewrite Z.add_comm; by apply (Hinf (fval _))]);
    try (split; [done|]; symmetry; rewrite ?Z.add_0_l, ?Z.add_0_r; by apply (fval_rounded (S754_finite _ _ _))).
  unfold f64_add, SFadd. cbn [cond_Zopp]. rewrite !fst_shl_align by lia.
  pose proof (fpos_exponent _ _ Hx) as Hex. pose proof (fpos_exponent _ _ Hy) as Hey.
  set (ez := Z.min ex ey). set (M := Zpos mx * 2 ^ (ex - ez) + Zpos my * 2 ^ (ey - ez)).
  assert (0 < M) as HM.
  { pose proof (pow_pos (ex - ez) ltac:(lia)). pose proof (pow_pos (ey - ez) ltac:(lia)). unfold M. nia. }
  assert (fval (S754_finite false mx ex) + fval (S754_finite false my ey) = M * 2 ^ (ez + 1074)) as ->.
  { unfold M. cbn [fval]. rewrite Z.mul_add_distr_r, <-!Z.mul_assoc, <-!Z.pow_add_r by lia.
    f_equal; f_equal; f_equal; lia. }
  unfold round_value. destruct (Z.eqb_spec (M * 2 ^ (ez + 1074)) 0).
  { pose proof (pow_pos (ez + 1074) ltac:(lia)). nia. }
  rewrite rounded_scale by lia. replace (-1074 + (ez + 1074)) with ez by lia.
  destruct M as [|m|m]; [lia| |lia]. cbn [binary_normalize]. apply binary_round_spec.
Qed.

(** Not infinite. *)
Definition ffin (x : f64) : Prop :=
  match x with
  | S754_zero _ => True
  | S754_finite false m e => bounded f64_prec f64_emax m e = true
  | _ => False
  end.

Lemma ffin_fpos x : ffin x → fpos x.
Proof. by destruct x as [|[]| |[] m e]. Qed.

Lemma fpos_ffin x : fpos x → fval x < top → ffin x.
Proof. destruct x as [|[]| |[] m e]; done. Qed.

Lemma f64_mul_spec x y : ffin x → ffin y →
  fpos (f64_mul x y) ∧ fval (f64_mul x y) = round_value (fval x * fval y) (-2148).
Proof.
  intros Hx Hy. destruct x as [sx|[]| |[] mx ex], y as [sy|[]| |[] my ey]; try done;
    try (split; [done|]; rewrite ?Z.mul_0_r; reflexivity).
  unfold f64_mul, SFmul. cbn [xorb].
  pose proof (fpos_exponent _ _ Hx) as Hex. pose proof (fpos_exponent _ _ Hy) as Hey.
  rewrite Pos2Z.inj_mul. set (M := Zpos mx * Zpos my). assert (0 < M) by lia.
  assert (ex + ey ≤ target M (ex + ey)) as Hc.
  { apply bounded_spec in Hx as [Ex _], Hy as [Ey _].
    apply canonical_mantissa_range in Ex as (_ & _ & Ex), Ey as (_ & _ & Ey). unfold target.
    destruct Ex as [->|Ex]; [destruct Ey as [->|Ey]; [lia|]|].
    all: assert (52 ≤ Z.log2 M); [apply Z.log2_le_pow2; unfold M; nia|lia]. }
  assert (fval (S754_finite false mx ex) * fval (S754_finite false my ey) = M * 2 ^ (ex + ey + 2148)) as ->.
  { unfold M. cbn [fval]. replace (ex + ey + 2148) with ((ex + 1074) + (ey + 1074)) by lia.
    rewrite (Z.pow_add_r 2 (ex + 1074) (ey + 1074)) by lia. lia. }
  unfold round_value. destruct (Z.eqb_spec (M * 2 ^ (ex + ey + 2148)) 0).
  { pose proof (pow_pos (ex + ey + 2148) ltac:(lia)). nia. }
  rewrite rounded_scale by lia. replace (-2148 + (ex + ey + 2148)) with (ex + ey) by lia.
  by apply round_aux_spec.
Qed.

(** ** Monotonicity *)

Lemma f64_add_mono x y x' y' : fpos x → fpos y → fpos x' → fpos y' →
  f_le x x' = true → f_le y y' = true → f_le (f64_add x y) (f64_add x' y') = true.
Proof.
  intros Hx Hy Hx' Hy' Hxx Hyy. apply f_le_fval in Hxx, Hyy; [|done..].
  destruct (f64_add_spec x y Hx Hy) as [P1 E1], (f64_add_spec x' y' Hx' Hy') as [P2 E2].
  apply f_le_fval; [done..|]. rewrite E1, E2. apply round_value_mono; [lia|].
  pose proof (fval_nonneg x). pose proof (fval_nonneg y). lia.
Qed.

Lemma f64_add_grows x y : fpos x → fpos y → f_le x (f64_add x y) = true.
Proof.
  intros Hx Hy. destruct (f64_add_spec x y Hx Hy) as [P E]. apply f_le_fval; [done..|].
  rewrite E, <-(fval_rounded x Hx) at 1. apply round_value_mono; [lia|].
  pose proof (fval_nonneg x). pose proof (fval_nonneg y). lia.
Qed.

Lemma f64_mul_mono x y x' y' : ffin x → ffin y → ffin x' → ffin y' →
  f_le x x' = true → f_le y y' = true → f_le (f64_mul x y) (f64_mul x' y') = true.
Proof.
  intros Hx Hy Hx' Hy' Hxx Hyy.
  apply f_le_fval in Hxx, Hyy; [|by apply ffin_fpos..].
  destruct (f64_mul_spec x y Hx Hy) as [P1 E1], (f64_mul_spec x' y' Hx' Hy') as [P2 E2].
  apply f_le_fval; [done..|]. rewrite E1, E2. apply round_value_mono; [lia|].
  pose proof (fval_nonneg x). pose proof (fval_nonneg y). nia.
Qed.

Lemma f64_of_Z_fpos z : 0 ≤ z → fpos (f64_of_Z z).
Proof. destruct z as [|p|p]; intros Hz; [done| |lia]. apply (binary_round_spec p 0). Qed.

Lemma fpos_not_nan x : fpos x → is_nan x = false.
Proof. by destruct x as [|[]| |[] m e]. Qed.

(** ** Division *)

(** The mantissa with the two bits a location stands for. *)
Definition sticky (M : Z) (l : location) : Z :=
  4 * M + match l with loc_Exact => 0 | loc_Inexact Lt => 1 | loc_Inexact Eq => 2 | loc_Inexact Gt => 3 end.

Lemma record_of_loc M l : 0 ≤ M →
  shr_record_of_loc M l =
  Nat.iter 2 shr_1 {| shr_m := sticky M l; shr_r := false; shr_s := false |}.
Proof.
  intros HM. change (Nat.iter 2 shr_1 ?x) with (shr_1 (shr_1 x)).
  assert (0 ≤ sticky M l) by (unfold sticky; destruct l as [|[]]; lia).
  assert (sticky M l / 2 = 2 * M + match l with loc_Inexact (Eq | Gt) => 1 | _ => 0 end) as E1
    by (unfold sticky; destruct l as [|[]]; Z.to_euclidean_division_equations; lia).
  rewrite shr_1_nonneg by done. rewrite E1.
  rewrite shr_1_nonneg by (destruct l as [|[]]; lia).
  assert (∀ a b, 0 ≤ b < 2 → (2 * a + b) / 2 = a) as Hd by (intros; Z.to_euclidean_division_equations; lia).
  assert (∀ a b, 0 ≤ b < 2 → Z.odd (2 * a + b) = (b =? 1)) as Ho.
  { intros a b Hb. rewrite Z.odd_add, Z.odd_mul. assert (b = 0 ∨ b = 1) as [->| ->] by lia; done. }
  destruct l as [|[]]; unfold sticky; rewrite Hd, Ho by lia;
    (replace (4 * M) with (2 * (2 * M)) by lia);
    first [rewrite Ho by lia
          |replace (2 * (2 * M) + 2) with (2 * (2 * M + 1) + 0) by lia; rewrite Ho by lia
          |replace (2 * (2 * M) + 3) with (2 * (2 * M + 1) + 1) by lia; rewrite Ho by lia]; done.
Qed.

Lemma sticky_range M l : 4 * M ≤ sticky M l ≤ 4 * M + 3.
Proof. unfold sticky. destruct l as [|[]]; lia. Qed.

Lemma log2_sticky M l : 0 < M → Z.log2 (sticky M l) = Z.log2 M + 2.
Proof.
  intros HM. pose proof (Z.log2_spec M HM) as [H1 H2]. pose proof (Z.log2_nonneg M).
  pose proof (sticky_range M l). apply Z.log2_unique; [lia|].
  replace (Z.succ (Z.log2 M + 2)) with (Z.succ (Z.log2 M) + 2) by lia.
  rewrite !(Z.pow_add_r 2 _ 2) by lia. change (2 ^ 2) with 4. lia.
Qed.

Lemma round_aux_loc M c l : 0 ≤ M →
  (M = 0 → c ≤ -1074) → (0 < M → c ≤ target M c) →
  let x := binary_round_aux f64_prec f64_emax false M c l in
  fpos x ∧ fval x = round_value (sticky M l) (c - 2).
Proof.
  intros HM H0 Hpos. pose proof (sticky_range M l) as HN.
  set (k := if M =? 0 then -1074 else target M c).
  assert (c ≤ k) as Hck by (unfold k; destruct (Z.eqb_spec M 0); [by apply H0|apply Hpos; lia]).
  assert (fexp f64_prec f64_emax (Zdigits2 M + c) = k) as Hf.
  { rewrite fexp_digits by done. unfold k. destruct (Z.eqb_spec M 0); [|done]. specialize (H0 e). lia. }
  destruct (decide (sticky M l = 0)) as [Hz|Hnz].
  { assert (M = 0 ∧ l = loc_Exact) as [-> ->] by (unfold sticky in Hz; destruct l as [|[]]; split; lia || done).
    unfold binary_round_aux, shr_fexp. rewrite Hf. cbn [shr_record_of_loc]. rewrite shr_pos by lia.
    assert (∀ n, Nat.iter n shr_1 {| shr_m := 0; shr_r := false; shr_s := false |} =
      {| shr_m := 0; shr_r := false; shr_s := false |}) as Hit
      by (induction n as [|n IH]; [done|]; by rewrite Nat.iter_succ, IH).
    rewrite Hit. cbn [shr_m loc_of_shr_record round_nearest_even].
    rewrite (fexp_digits 0) by lia. assert (k = -1074) by done. cbn [Z.eqb].
    rewrite shr_nonpos by lia. by rewrite Hz. }
  assert (target (sticky M l) (c - 2) = k) as Ht.
  { unfold k. destruct (Z.eqb_spec M 0) as [->|Hne].
    - unfold target. assert (Z.log2 (sticky 0 l) < 2); [|specialize (H0 eq_refl); lia].
      apply Z.log2_lt_pow2; lia.
    - unfold target. rewrite log2_sticky by lia. lia. }
  assert (binary_round_aux f64_prec f64_emax false M c l =
          binary_round_aux f64_prec f64_emax false (sticky M l) (c - 2) loc_Exact) as ->.
  { unfold binary_round_aux, shr_fexp. rewrite Hf, fexp_digits by lia.
    destruct (Z.eqb_spec (sticky M l) 0); [done|]. rewrite Ht.
    rewrite record_of_loc by done. cbn [shr_record_of_loc]. rewrite (shr_pos (sticky M l)) by lia.
    replace (k - (c - 2)) with (k - c + 2) by lia. rewrite Z2Nat.inj_add by lia.
    rewrite Nat.iter_add.
    assert (∀ r, shr r c (k - c) = (Nat.iter (Z.to_nat (k - c)) shr_1 r, c - 2 + (k - c + 2))) as ->; [|done].
    intros r. replace (c - 2 + (k - c + 2)) with (c + (k - c)) by lia.
    destruct (k - c) as [|p|p] eqn:E; [by rewrite Z.add_0_r| |lia]. cbn [shr]. by rewrite iter_pos_nat. }
  unfold round_value. destruct (Z.eqb_spec (sticky M l) 0); [done|]. apply round_aux_spec; lia.
Qed.

(** *** The size of a quotient *)

Lemma quotient_lower a b q r s : 0 < a → 0 < b → 0 ≤ s → a * 2 ^ s = b * q + r → r < b →
  Z.log2 b + 1 ≤ Z.log2 a + s → 2 ^ (Z.log2 a + s - Z.log2 b - 1) ≤ q.
Proof.
  intros Ha Hb Hs E Hr Hle. pose proof (Z.log2_spec a Ha) as [La _]. pose proof (Z.log2_spec b Hb) as [_ Lb].
  pose proof (Z.log2_nonneg a). pose proof (Z.log2_nonneg b). pose proof (pow_pos s Hs).
  set (n := Z.log2 a + s - Z.log2 b - 1). pose proof (pow_pos n ltac:(lia)).
  apply Z.lt_succ_r, (Z.mul_lt_mono_pos_l b); [done|].
  apply (Z.le_lt_trans _ (2 ^ (Z.log2 a + s))).
  - replace (Z.log2 a + s) with (n + Z.succ (Z.log2 b)) by lia. rewrite (Z.pow_add_r 2 n) by lia. nia.
  - rewrite Z.pow_add_r by lia. nia.
Qed.

Lemma quotient_upper a b q r s : 0 < a → 0 < b → 0 ≤ s → a * 2 ^ s = b * q + r → 0 ≤ r →
  q < 2 ^ Z.max 0 (Z.log2 a + 1 + s - Z.log2 b).
Proof.
  intros Ha Hb Hs E Hr. pose proof (Z.log2_spec a Ha) as [_ La]. pose proof (Z.log2_spec b Hb) as [Lb _].
  pose proof (Z.log2_nonneg a). pose proof (Z.log2_nonneg b). pose proof (pow_pos s Hs).
  set (n := Z.max 0 (Z.log2 a + 1 + s - Z.log2 b)). pose proof (pow_pos n ltac:(lia)).
  apply (Z.mul_lt_mono_pos_l b); [done|].
  apply (Z.le_lt_trans _ (a * 2 ^ s)); [lia|].
  apply (Z.lt_le_trans _ (2 ^ (Z.succ (Z.log2 a) + s))); [rewrite Z.pow_add_r by lia; nia|].
  transitivity (2 ^ (Z.log2 b + n)); [apply Z.pow_le_mono_r; lia|]. rewrite Z.pow_add_r by lia. nia.
Qed.

Lemma sticky_rounded_le q l u c b : 0 ≤ q < 2 ^ u → 0 ≤ u → 0 ≤ b → u + c ≤ b →
  round_value (sticky q l) (c - 2) ≤ 2 ^ (b + 1074).
Proof.
  intros Hq Hu Hb Hle. pose proof (sticky_range q l) as HN. set (N := sticky q l) in *. clearbody N.
  unfold round_value. destruct (Z.eqb_spec N 0); [apply Z.lt_le_incl, pow_pos; lia|].
  transitivity (rounded N (c - 2)); [lia|].
  assert (rounded 1 b = 2 ^ (b + 1074)) as <-.
  { unfold rounded, target. change (Z.log2 1) with 0.
    destruct (Z.leb_spec b (Z.max (0 + 1 + b - 53) (-1074))); lia. }
  set (L := Z.min (c - 2) (-1074)).
  apply (rounded_mono N (c - 2) 1 b (c - 2 - L) (b - L)); try lia.
  transitivity (2 ^ (u + 2) * 2 ^ (c - 2 - L)).
  - apply Z.mul_le_mono_nonneg_r; [apply Z.pow_nonneg; lia|]. rewrite Z.pow_add_r by lia. lia.
  - rewrite <-Z.pow_add_r, Z.mul_1_l by lia. apply Z.pow_le_mono_r; lia.
Qed.

Lemma div_core_spec mx ex my ey : -1074 ≤ ex → -1074 ≤ ey →
  let '(q, c, l) := SFdiv_core_binary f64_prec f64_emax (Zpos mx) ex (Zpos my) ey in
  0 ≤ q ∧ (q = 0 → c ≤ -1074) ∧ (0 < q → c ≤ target q c) ∧
  ∃ u, 0 ≤ u ∧ q < 2 ^ u ∧
    u + c ≤ Z.max (-1074) (Z.log2 (Zpos mx) + 1 + ex - (Z.log2 (Zpos my) + ey)).
Proof.
  intros Hex Hey. unfold SFdiv_core_binary. cbn [Zdigits2]. rewrite !digits2_log2.
  set (dx := Z.log2 (Zpos mx)). set (dy := Z.log2 (Zpos my)).
  set (k := fexp f64_prec f64_emax (dx + 1 + ex - (dy + 1 + ey))).
  assert (k = Z.max (dx + ex - dy - ey - 53) (-1074)) as Ek by (unfold k, fexp, emin, f64_prec, f64_emax; lia).
  set (c := Z.min k (ex - ey)). set (s := ex - ey - c). assert (0 ≤ s) as Hs by lia.
  assert (match s with 0 => Zpos mx | Zpos _ => Z.shiftl (Zpos mx) s | Zneg _ => 0 end = Zpos mx * 2 ^ s) as ->.
  { destruct s as [|p|p]; [lia| |lia]. by rewrite Z.shiftl_mul_pow2 by lia. }
  pose proof (Z_div_mod (Zpos mx * 2 ^ s) (Zpos my) ltac:(lia)) as Hdm.
  destruct (Z.div_eucl (Zpos mx * 2 ^ s) (Zpos my)) as [q r]. destruct Hdm as [E Hr].
  pose proof (pow_pos s Hs). assert (0 ≤ q) as Hq by nia.
  pose proof (quotient_lower (Zpos mx) (Zpos my) q r s ltac:(lia) ltac:(lia) Hs E ltac:(lia)) as Hlow.
  pose proof (quotient_upper (Zpos mx) (Zpos my) q r s ltac:(lia) ltac:(lia) Hs E ltac:(lia)) as Hup.
  fold dx dy in Hlow, Hup. split_and!; [done| | |].
  - intros ->. destruct (decide (dy + 1 ≤ dx + s)) as [Hle|Hgt]; [|lia].
    specialize (Hlow Hle). pose proof (pow_pos (dx + s - dy - 1) ltac:(lia)). lia.
  - intros Hq0. unfold target. destruct (decide (dy + 1 ≤ dx + s)) as [Hle|Hgt]; [|lia].
    assert (dx + s - dy - 1 ≤ Z.log2 q); [apply Z.log2_le_pow2; [done|by apply Hlow]|lia].
  - exists (Z.max 0 (dx + 1 + s - dy)). split_and!; [lia|done|lia].
Qed.

(** The quotient is not negative, and by a divisor of at least one it does not
    exceed a power of two that bounds the dividend. *)
Lemma f64_div_spec x y : ffin x → ffin y → fval y ≠ 0 →
  fpos (f64_div x y) ∧
  ∀ b, 0 ≤ b → 2 ^ 1074 ≤ fval y → fval x < 2 ^ (b + 1074) → fval (f64_div x y) ≤ 2 ^ (b + 1074).
Proof.
  intros Hx Hy Hne. destruct x as [sx|[]| |[] mx ex], y as [sy|[]| |[] my ey]; try done.
  { split; [done|]. intros b Hb _ _. by apply Z.lt_le_incl, pow_pos; lia. }
  pose proof (fpos_exponent _ _ Hx) as Hex. pose proof (fpos_exponent _ _ Hy) as Hey.
  unfold f64_div, SFdiv. cbn [xorb]. pose proof (div_core_spec mx ex my ey Hex Hey) as Hcore.
  destruct (SFdiv_core_binary f64_prec f64_emax (Zpos mx) ex (Zpos my) ey) as [[q c] l].
  destruct Hcore as (Hq & Hq0 & Hqt & u & Hu & Hqu & Huc).
  destruct (round_aux_loc q c l Hq Hq0 Hqt) as [P E]. split; [exact P|]. intros b Hb Hy1 Hxb. rewrite E.
  apply (sticky_rounded_le q l u); [done..|]. cbn [fval] in *.
  pose proof (pow_pos (ex + 1074) ltac:(lia)). pose proof (pow_pos (ey + 1074) ltac:(lia)).
  pose proof (Z.log2_spec (Zpos mx) ltac:(lia)) as [Lx _]. pose proof (Z.log2_spec (Zpos my) ltac:(lia)) as [_ Ly].
  pose proof (Z.log2_nonneg (Zpos mx)). pose proof (Z.log2_nonneg (Zpos my)).
  assert (Z.log2 (Zpos mx) + (ex + 1074) < b + 1074).
  { apply (Z.pow_lt_mono_r_iff 2); [lia..|]. rewrite Z.pow_add_r by lia. nia. }
  assert (1074 < Z.succ (Z.log2 (Zpos my)) + (ey + 1074)); [|lia].
  apply (Z.pow_lt_mono_r_iff 2); [lia..|]. rewrite Z.pow_add_r by lia. nia.
Qed.

Lemma f64_div_fpos x y : ffin x → ffin y → fval y ≠ 0 → fpos (f64_div x y).
Proof. intros Hx Hy Hne. by destruct (f64_div_spec x y Hx Hy Hne). Qed.

(** ** Numbers and durations as doubles *)

Lemma f64_mul_fpos x y : fpos x → ffin y → fval y ≠ 0 → fpos (f64_mul x y).
Proof.
  intros Hx Hy Hne. destruct x as [s|[]| |[] m e]; try done.
  - by apply f64_mul_spec.
  - by destruct y as [|[]| |[] m' e'].
  - by apply f64_mul_spec.
Qed.

Lemma f64_of_Z_fval z : 0 < z → fval (f64_of_Z z) = Z.min (rounded z 0) top.
Proof. destruct z as [|p|p]; intros Hz; [lia| |lia]. apply (binary_round_spec p 0). Qed.

Lemma f64_of_Z_mono a b : 0 ≤ a ≤ b → f_le (f64_of_Z a) (f64_of_Z b) = true.
Proof.
  intros Hab. apply f_le_fval; [apply f64_of_Z_fpos; lia..|].
  destruct (decide (a = 0)) as [->|]; [apply fval_nonneg|].
  rewrite !f64_of_Z_fval by lia.
  pose proof (rounded_mono a 0 b 0 1074 1074 ltac:(lia) ltac:(lia) ltac:(lia) ltac:(lia) eq_refl ltac:(lia)).
  assert (a * 2 ^ 1074 ≤ b * 2 ^ 1074); [|lia].
  apply Z.mul_le_mono_nonneg_r; [|lia]. apply Z.lt_le_incl, pow_pos. lia.
Qed.

Lemma ffin_le x y : fpos x → ffin y → f_le x y = true → ffin x.
Proof.
  intros Hx Hy Hle. apply fpos_ffin; [done|]. apply f_le_fval in Hle; [|done|by apply ffin_fpos].
  apply (Z.le_lt_trans _ _ _ Hle). destruct y as [s|[]| |[] m e]; try done.
  by apply fval_finite_lt.
Qed.

Lemma f64_of_Z_ffin z : 0 ≤ z ≤ u64_max → ffin (f64_of_Z z).
Proof.
  intros Hz. apply (ffin_le _ (f64_of_Z u64_max)); [apply f64_of_Z_fpos; lia|by vm_compute|].
  by apply f64_of_Z_mono.
Qed.

Lemma f64_of_Z_nonzero z : 0 < z → fval (f64_of_Z z) ≠ 0.
Proof.
  intros Hz. pose proof (f64_of_Z_mono 1 z ltac:(lia)) as Hle.
  apply f_le_fval in Hle; [|apply f64_of_Z_fpos; lia..].
  assert (0 < fval (f64_of_Z 1)) by (by vm_compute). lia.
Qed.

Lemma as_secs_f64_fpos d : 0 ≤ d → fpos (as_secs_f64 d).
Proof.
  intros Hd. unfold as_secs_f64. apply f64_add_spec.
  - apply f64_of_Z_fpos, Z.div_pos; lia.
  - pose proof (Z.mod_pos_bound d 1000000000 ltac:(lia)).
    apply f64_div_fpos; [apply f64_of_Z_ffin; unfold u64_max; lia..|by apply f64_of_Z_nonzero].
Qed.

#[export] Hint Resolve ffin_fpos fpos_not_nan f64_of_Z_fpos f64_of_Z_ffin as_secs_f64_fpos : trp.
