(* ===== verification/Codec.v ===== *)
(** * Texts that stand for data

    The serialisers the program calls are interfaces with the law that reading
    gives back what was written.  This file has the one instance all of them
    share: the text of the number that stands for a value. *)

From S2P Require Import Prelude F64.

Local Open Scope string_scope.

Fixpoint text_of_pos (p : positive) : string :=
  match p with
  | xH => ""
  | xO p' => String "0" (text_of_pos p')
  | xI p' => String "1" (text_of_pos p')
  end.

Fixpoint pos_of_text (s : string) : positive :=
  match s with
  | "" => xH
  | String c s' => if Ascii.eqb c "1" then xI (pos_of_text s') else xO (pos_of_text s')
  end.

Lemma pos_text p : pos_of_text (text_of_pos p) = p.
Proof. induction p as [p IH|p IH|]; simpl; congruence. Qed.

Definition to_text `{Countable A} (a : A) : string := text_of_pos (encode a).

Definition of_text `{Countable A} (s : string) : result string A :=
  from_option Ok (Err "unreadable") (decode (pos_of_text s)).

Lemma of_to_text `{Countable A} (a : A) : of_text (to_text a) = Ok a.
Proof. unfold of_text, to_text. by rewrite pos_text, decode_encode. Qed.

(** Doubles and singles. *)
#[export] Instance spec_float_eq_dec : EqDecision spec_float.
Proof. solve_decision. Defined.

#[export] Instance spec_float_countable : Countable spec_float.
Proof.
  refine (inj_countable'
    (λ x, match x with
          | S754_zero s => inl (inl s)
          | S754_infinity s => inl (inr s)
          | S754_nan => inr (inl ())
          | S754_finite s m e => inr (inr (s, m, e))
          end)
    (λ y, match y with
          | inl (inl s) => S754_zero s
          | inl (inr s) => S754_infinity s
          | inr (inl _) => S754_nan
          | inr (inr (s, m, e)) => S754_finite s m e
          end) _).
  by intros [].
Defined.
