(* ===== verification/Regex.v ===== *)
(** * Regular expressions

    What the code calls of the [regex] crate.  A compiled expression is known by
    the places of its matches in a text, [find_spans]; the methods of the crate
    are what their documentation says of those places.  The law is that of
    [find_iter]: the matches are inside the text, in order, and do not overlap. *)

From S2P Require Import Prelude RustStr Utf8.

Local Open Scope string_scope.
Local Open Scope list_scope.

Class RegexEngine := {
  Rx : Type;
  regex_new : string → result string Rx;
  (** The start and the end of every match. *)
  find_spans : Rx → string → list (nat * nat);
  (** The first group of a match. *)
  group_1 : Rx → string → nat * nat → option (nat * nat);
}.

(** Places in a text, from [pos] on. *)
Inductive spans_from (len : nat) : nat → list (nat * nat) → Prop :=
| spans_nil pos : spans_from len pos []
| spans_cons pos i j l : (pos ≤ i)%nat → (i ≤ j)%nat → (j ≤ len)%nat → spans_from len j l → spans_from len pos ((i, j) :: l).

Class RegexLaws `{RegexEngine} := {
  find_spans_ok rx s : spans_from (String.length s) 0 (find_spans rx s);
}.

(** [&s[i..j]] *)
Definition slice (i j : nat) (s : string) : string := String.substring i (j - i) s.

(** The text in front of every match, the match, and what is left. *)
Fixpoint pieces (s : string) (pos : nat) (l : list (nat * nat)) : list (string * (nat * nat)) * string :=
  match l with
  | [] => ([], str_drop pos s)
  | (i, j) :: l' => let '(ps, rest) := pieces s j l' in ((slice pos i s, (i, j)) :: ps, rest)
  end.

Section methods.
Context `{RegexEngine}.

Definition is_match (rx : Rx) (s : string) : bool := match find_spans rx s with [] => false | _ => true end.

Definition find_iter (rx : Rx) (s : string) : list string := (λ x, slice x.1 x.2 s) <$> find_spans rx s.

(** [captures_iter] with [captures.get(1)]. *)
Definition first_groups (rx : Rx) (s : string) : list (option string) :=
  (λ x, (λ y, slice y.1 y.2 s) <$> group_1 rx s x) <$> find_spans rx s.

(** [replace_all] with a function of the match. *)
Definition replace_all (rx : Rx) (f : nat * nat → string) (s : string) : string :=
  let '(ps, rest) := pieces s 0 (find_spans rx s) in
  foldr (λ p acc, p.1 +:+ f p.2 +:+ acc) rest ps.

End methods.

(** [str::replacen(from, to, 1)] *)
Definition replace_first (from to s : string) : string :=
  match str_find from s with
  | None => s
  | Some i => String.substring 0 i s +:+ to +:+ str_drop (i + String.length from) s
  end.

(** ** Lemmas *)

Lemma slice_drop i j s : (i ≤ j)%nat → (j ≤ String.length s)%nat →
  slice i j s +:+ str_drop j s = str_drop i s.
Proof.
  intros Hij Hj. unfold slice.
  revert i j Hij Hj. induction s as [|a s IH]; intros i j Hij Hj; simpl in Hj.
  - assert (i = 0 ∧ j = 0) as [-> ->] by lia. done.
  - destruct i as [|i], j as [|j]; [done| |lia|].
    + simpl. f_equal. specialize (IH 0 j). rewrite Nat.sub_0_r in IH. apply IH; lia.
    + simpl. apply IH; lia.
Qed.

Lemma pieces_join s pos l : spans_from (String.length s) pos l →
  let '(ps, rest) := pieces s pos l in
  foldr (λ p acc, p.1 +:+ slice p.2.1 p.2.2 s +:+ acc) rest ps = str_drop pos s.
Proof.
  induction 1 as [pos|pos i j l Hpi Hij Hj Hl IH]; simpl; [done|].
  destruct (pieces s j l) as [ps rest]. simpl. rewrite IH.
  by rewrite (slice_drop i j), (slice_drop pos i) by lia.
Qed.

(** Replacing every match by itself changes nothing. *)
Lemma replace_all_id `{RegexLaws} rx s : replace_all rx (λ x, slice x.1 x.2 s) s = s.
Proof.
  unfold replace_all. pose proof (pieces_join s 0 _ (find_spans_ok rx s)) as Hj.
  by destruct (pieces s 0 _) as [ps rest].
Qed.

(** ** A lawful engine

    Expressions are words, and match where the word stands alone; the empty
    expression matches at every place, and a group that is opened and not closed
    does not compile. *)

Definition is_word (a : ascii) : bool := is_ascii_alphanumeric a || Ascii.eqb a "_".

Definition at_word (s : string) : bool := from_option is_word false (first_byte s).

Fixpoint word_spans (w s : string) (pos : nat) (after_word : bool) (skip : nat) : list (nat * nat) :=
  match s with
  | EmptyString => []
  | String c s' =>
      match skip with
      | S skip' => word_spans w s' (S pos) (is_word c) skip'
      | O =>
          if negb after_word && starts_with s w && negb (at_word (str_drop (String.length w) s))
          then (pos, pos + String.length w) :: word_spans w s' (S pos) (is_word c) (String.length w - 1)
          else word_spans w s' (S pos) (is_word c) 0
      end
  end.

#[local] Instance word_engine : RegexEngine := {|
  Rx := string;
  regex_new w := if String.eqb w "(" then Err "unclosed group" else Ok w;
  find_spans w s :=
    match w with
    | EmptyString => (λ i, (i, i)) <$> seq 0 (S (String.length s))
    | _ => word_spans w s 0 false 0
    end;
  group_1 _ _ x := Some x;
|}.

Lemma word_spans_ok c w s pos after skip q : (q ≤ pos + skip)%nat →
  spans_from (pos + String.length s) q (word_spans (String c w) s pos after skip).
Proof.
  revert pos after skip q. induction s as [|a s IH]; intros pos after skip q Hq; [constructor|].
  assert (pos + String.length (String a s) = S pos + String.length s)%nat as Hlen by (simpl; lia).
  cbn [word_spans]. destruct skip as [|skip]; [|rewrite Hlen; apply IH; lia].
  destruct (negb after && _ && _) eqn:E; [|rewrite Hlen; apply IH; lia].
  apply andb_true_iff in E as [[_ E]%andb_true_iff _]. apply starts_with_spec in E as [r Er].
  apply (f_equal String.length) in Er. rewrite str_length_app in Er. simpl in Er.
  constructor; [lia|lia|simpl; lia|]. rewrite Hlen. apply IH. simpl. lia.
Qed.

Lemma empty_spans_ok len n i pos : (pos ≤ i)%nat → (i + n ≤ S len)%nat →
  spans_from len pos ((λ i, (i, i)) <$> seq i n).
Proof.
  revert i pos. induction n as [|n IH]; intros i pos Hp Hl; [constructor|].
  simpl. constructor; [lia..|]. apply IH; lia.
Qed.

#[export] Instance word_engine_ok : RegexLaws.
Proof.
  split. intros [|c w] s; [apply empty_spans_ok; lia|]. by apply (word_spans_ok c w s 0).
Qed.
