(* ===== verification/Net.v ===== *)
(** * Addresses

    [std::net]'s [IpAddr] and [SocketAddr]: an address is its bits, the ones of
    [Ipv4Addr::new(a, b, c, d)] and of [Ipv6Addr::from([u8; 16])] in network
    order, with the standard library's printer and parser of addresses. *)

From S2P Require Import Prelude RustStr.

Local Open Scope string_scope.
Local Open Scope list_scope.
Local Open Scope Z_scope.

Inductive IpAddr :=
| V4 (bits : Z)
| V6 (bits : Z).

#[export] Instance IpAddr_eq_dec : EqDecision IpAddr.
Proof. solve_decision. Defined.

#[export] Instance IpAddr_countable : Countable IpAddr.
Proof.
  refine (inj_countable' (λ a, match a with V4 b => inl b | V6 b => inr b end)
                         (λ s, match s with inl b => V4 b | inr b => V6 b end) _).
  by intros [].
Defined.

Record SocketAddr := { ip : IpAddr; port : Z }.

#[export] Instance SocketAddr_eq_dec : EqDecision SocketAddr.
Proof. solve_decision. Defined.

(** The big-endian value of a list of bytes. *)
Definition from_be_bytes (bs : list Z) : Z := foldl (λ acc b, acc * 256 + b) 0 bs.

(** The [n] big-endian bytes of a value: [to_be_bytes]. *)
Fixpoint to_be_bytes (n : nat) (z : Z) : list Z :=
  match n with
  | O => []
  | S n' => to_be_bytes n' (z `div` 256) ++ [z `mod` 256]
  end.

(** ** Reading addresses: the recursive-descent parser of [core::net] *)

Definition Reader (A : Type) := string → option (A * string).

(** [char::to_digit] *)
Definition to_digit (radix : Z) (a : Ascii.ascii) : option Z :=
  let n := Z.of_N (Ascii.N_of_ascii a) in
  let d := if (48 <=? n) && (n <=? 57) then n - 48
           else if (97 <=? n) && (n <=? 122) then n - 87
           else if (65 <=? n) && (n <=? 90) then n - 55
           else 255 in
  if d <? radix then Some d else None.

(** The digit loop of [read_number]: the value and the number of digits read.
    More than [max_digits] digits or a value above [max] is a failure. *)
Fixpoint read_digits (radix max : Z) (max_digits : nat) (acc : Z) (count : nat)
    (s : string) : option (Z * nat * string) :=
  match s with
  | String a s' =>
      match to_digit radix a with
      | Some d =>
          let acc := acc * radix + d in
          if max <? acc then None
          else if Nat.ltb max_digits (S count) then None
          else read_digits radix max max_digits acc (S count) s'
      | None => Some (acc, count, s)
      end
  | EmptyString => Some (acc, count, s)
  end.

Definition read_number (radix max : Z) (max_digits : nat) (allow_zero_prefix : bool) : Reader Z :=
  λ s,
  let has_leading_zero := starts_with s "0" in
  match read_digits radix max max_digits 0 0 s with
  | Some (v, count, rest) =>
      if Nat.eqb count 0 then None
      else if negb allow_zero_prefix && has_leading_zero && Nat.ltb 1 count then None
      else Some (v, rest)
  | None => None
  end.

Definition read_given_char (c : Ascii.ascii) : Reader unit := λ s,
  match s with
  | String a s' => if Ascii.eqb a c then Some ((), s') else None
  | EmptyString => None
  end.

(** [read_separator]: the separator first, except before the first item. *)
Definition read_separator {A} (sep : Ascii.ascii) (index : nat) (inner : Reader A) : Reader A :=
  λ s,
  match index with
  | O => inner s
  | S _ => '(_, s) ← read_given_char sep s; inner s
  end.

Definition read_octet (i : nat) : Reader Z :=
  read_separator "." i (read_number 10 u8_max 3 false).

Definition read_ipv4_addr : Reader (list Z) := λ s,
  '(a, s) ← read_octet 0 s;
  '(b, s) ← read_octet 1 s;
  '(c, s) ← read_octet 2 s;
  '(d, s) ← read_octet 3 s;
  Some ([a; b; c; d], s).

(** [read_groups] on a slice of [limit] groups, from group [i] on: the groups
    read and whether the last two came from an embedded IPv4 address. *)
Fixpoint read_groups (left limit i : nat) (s : string) : list Z * bool * string :=
  match left with
  | O => ([], false, s)
  | S left' =>
      let ipv4 := if Nat.ltb i (limit - 1) then read_separator ":" i read_ipv4_addr s else None in
      match ipv4 with
      | Some (o, s') =>
          ([from_be_bytes (take 2 o); from_be_bytes (drop 2 o)], true, s')
      | None =>
          match read_separator ":" i (read_number 16 u16_max 4 true) s with
          | Some (g, s') =>
              let '(gs, v4, s'') := read_groups left' limit (S i) s' in (g :: gs, v4, s'')
          | None => ([], false, s)
          end
      end
  end.

(** The 128 bits of eight groups. *)
Definition of_groups (gs : list Z) : Z := foldl (λ acc g, acc * 65536 + g) 0 gs.

Definition read_ipv6_addr : Reader Z := λ s,
  let '(head, head_ipv4, s) := read_groups 8 8 0 s in
  if Nat.eqb (length head) 8 then Some (of_groups head, s)
  else if head_ipv4 then None
  else
    '(_, s) ← read_given_char ":" s;
    '(_, s) ← read_given_char ":" s;
    let limit := (8 - (length head + 1))%nat in
    let '(tail, _, s) := read_groups limit limit 0 s in
    Some (of_groups (head ++ replicate (8 - length head - length tail)%nat 0 ++ tail), s).

(** [str::parse::<IpAddr>] *)
Definition parse_ip (s : string) : option IpAddr :=
  let r := match read_ipv4_addr s with
           | Some (o, rest) => Some (V4 (from_be_bytes o), rest)
           | None => '(v, rest) ← read_ipv6_addr s; Some (V6 v, rest)
           end in
  match r with
  | Some (a, EmptyString) => Some a
  | _ => None
  end.

(** ** Printing addresses: [Display] *)

Definition hex_digit (d : Z) : string :=
  default "" (String.get (Z.to_nat d) "0123456789abcdef" ≫= λ a, Some (String a "")).

(** [{:x}] of a [u16]. *)
Definition hex16 (g : Z) : string :=
  if g <? 16 then hex_digit g
  else if g <? 256 then hex_digit (g `div` 16) +:+ hex_digit (g `mod` 16)
  else if g <? 4096 then
    hex_digit (g `div` 256) +:+ hex_digit ((g `div` 16) `mod` 16) +:+ hex_digit (g `mod` 16)
  else hex_digit (g `div` 4096) +:+ hex_digit ((g `div` 256) `mod` 16)
         +:+ hex_digit ((g `div` 16) `mod` 16) +:+ hex_digit (g `mod` 16).

Definition v4_to_string (bits : Z) : string := join "." (pretty <$> to_be_bytes 4 bits).

(** The eight groups of an IPv6 address. *)
Fixpoint to_groups (n : nat) (z : Z) : list Z :=
  match n with
  | O => []
  | S n' => to_groups n' (z `div` 65536) ++ [z `mod` 65536]
  end.

(** The first longest run of zero groups: its start and length. *)
Fixpoint longest_zeros (gs : list Z) (i : nat) (cur best : nat * nat) : nat * nat :=
  match gs with
  | [] => best
  | g :: gs' =>
      if g =? 0 then
        let cur := (if Nat.eqb cur.2 0 then i else cur.1, S cur.2)%nat in
        longest_zeros gs' (S i) cur (if Nat.ltb best.2 cur.2 then cur else best)
      else longest_zeros gs' (S i) (0, 0)%nat best
  end.

Definition v6_to_string (bits : Z) : string :=
  let gs := to_groups 8 bits in
  if bits `div` 4294967296 =? 65535 then "::ffff:" +:+ v4_to_string (bits `mod` 4294967296)
  else
    let '(start, len) := longest_zeros gs 0 (0, 0)%nat (0, 0)%nat in
    if Nat.ltb 1 len then
      join ":" (hex16 <$> take start gs) +:+ "::" +:+ join ":" (hex16 <$> drop (start + len) gs)
    else join ":" (hex16 <$> gs).

(** [IpAddr::to_string] *)
Definition ip_to_string (a : IpAddr) : string :=
  match a with
  | V4 bits => v4_to_string bits
  | V6 bits => v6_to_string bits
  end.

(** ** Lemmas *)

Lemma from_be_bytes_snoc bs b : from_be_bytes (bs ++ [b]) = from_be_bytes bs * 256 + b.
Proof. unfold from_be_bytes. by rewrite foldl_app. Qed.

Lemma length_to_be_bytes n z : length (to_be_bytes n z) = n.
Proof.
  revert z. induction n as [|n IH]; intros z; simpl; [done|].
  rewrite length_app, IH. simpl. lia.
Qed.

Lemma from_to_be_bytes n z : 0 ≤ z < 256 ^ Z.of_nat n → from_be_bytes (to_be_bytes n z) = z.
Proof.
  revert z. induction n as [|n IH]; intros z Hz.
  { simpl in *. change (256 ^ 0) with 1 in Hz. unfold from_be_bytes. simpl. lia. }
  simpl to_be_bytes. rewrite from_be_bytes_snoc, IH.
  - pose proof (Z.div_mod z 256). lia.
  - rewrite Nat2Z.inj_succ, Z.pow_succ_r in Hz by lia.
    split; [apply Z.div_pos; lia|]. apply Z.div_lt_upper_bound; lia.
Qed.

Lemma from_be_bytes_range bs :
  Forall (λ b, 0 ≤ b < 256) bs → 0 ≤ from_be_bytes bs < 256 ^ Z.of_nat (length bs).
Proof.
  induction bs as [|b bs IH] using rev_ind; [done|].
  intros [HF [Hb _]%Forall_cons]%Forall_app. specialize (IH HF).
  rewrite from_be_bytes_snoc, length_app. change (length [b]) with 1%nat.
  rewrite Nat2Z.inj_add, Z.pow_add_r by lia. change (256 ^ Z.of_nat 1) with 256.
  set (P := 256 ^ Z.of_nat (length bs)) in *. lia.
Qed.

Lemma read_digits_app radix max md s : ∀ acc count v c rest,
  read_digits radix max md acc count s = Some (v, c, "") →
  (∀ a r, rest = String a r → to_digit radix a = None) →
  read_digits radix max md acc count (s +:+ rest) = Some (v, c, rest).
Proof.
  induction s as [|a s IH]; intros acc count v c rest; simpl.
  - intros [= -> ->] Hr. destruct rest as [|a r]; [done|]. simpl. by rewrite (Hr _ _ eq_refl).
  - destruct (to_digit radix a); [|done].
    destruct (max <? _); [done|]. destruct (Nat.ltb md (S count)); [done|]. apply IH.
Qed.

(** A printed octet reads back, whatever non-digit follows it. *)
Definition octet_reads (b : Z) : bool :=
  match read_digits 10 u8_max 3 0 0 (pretty b) with
  | Some (v, c, EmptyString) =>
      (v =? b) && negb (Nat.eqb c 0) && negb (starts_with (pretty b) "0" && Nat.ltb 1 c)
  | _ => false
  end.

Lemma octet_reads_all b : 0 ≤ b < 256 → octet_reads b = true.
Proof.
  intros Hb. apply (all_from_spec octet_reads 256 0); [by vm_compute|]. lia.
Qed.

Lemma starts_with_zero_app s r : s ≠ "" → starts_with (s +:+ r) "0" = starts_with s "0".
Proof. destruct s as [|a s]; [done|]. intros _. unfold starts_with. simpl. by destruct s, r. Qed.

Lemma read_number_pretty b rest :
  0 ≤ b < 256 → (∀ a r, rest = String a r → to_digit 10 a = None) →
  read_number 10 u8_max 3 false (pretty b +:+ rest) = Some (b, rest).
Proof.
  intros Hb Hr. pose proof (octet_reads_all b Hb) as Ho. unfold octet_reads in Ho.
  destruct (read_digits 10 u8_max 3 0 0 (pretty b)) as [[[v c] [|]]|] eqn:E; try done.
  bool_to_prop. subst v. unfold read_number. rewrite (read_digits_app _ _ _ _ _ _ _ _ _ E Hr).
  assert (pretty b ≠ "") as Hne.
  { intros Hn. rewrite Hn in E. simpl in E. injection E as <- <-. done. }
  rewrite starts_with_zero_app by done. cbn [negb andb].
  match goal with H : Nat.eqb c 0 = false |- _ => rewrite H end.
  by match goal with H : _ && _ = false |- _ => rewrite H end.
Qed.

Lemma to_be_bytes_range n z : Forall (λ b, 0 ≤ b < 256) (to_be_bytes n z).
Proof.
  revert z. induction n as [|n IH]; intros z; simpl; [constructor|].
  apply Forall_app_2; [apply IH|]. constructor; [|constructor]. apply Z.mod_pos_bound. lia.
Qed.

(** IPv4 addresses print to text that parses back. *)
Lemma parse_ip_v4_to_string bits :
  0 ≤ bits < 4294967296 → parse_ip (ip_to_string (V4 bits)) = Some (V4 bits).
Proof.
  intros Hb. unfold parse_ip, ip_to_string, v4_to_string.
  pose proof (from_to_be_bytes 4 bits Hb) as Hf.
  pose proof (to_be_bytes_range 4 bits) as Hr. pose proof (length_to_be_bytes 4 bits) as Hl.
  destruct (to_be_bytes 4 bits) as [|a [|b [|c [|d [|]]]]]; try done.
  repeat match goal with H : Forall _ (_ :: _) |- _ => apply Forall_cons in H as [? ?] end.
  change (join "." (pretty <$> [a; b; c; d]))
    with (pretty a +:+ ("." +:+ (pretty b +:+ ("." +:+ (pretty c +:+ ("." +:+ pretty d)))))).
  assert (∀ r a' r', "." +:+ r = String a' r' → to_digit 10 a' = None) as Hdot.
  { intros r a' r' [= <- _]. done. }
  unfold read_ipv4_addr, read_octet, read_separator.
  do 3 (rewrite read_number_pretty by first [done|apply Hdot]; cbn).
  rewrite <- (str_app_nil_r (pretty d)). rewrite read_number_pretty by done. simpl. by rewrite Hf.
Qed.

Lemma visible_hex_digit d : visible (hex_digit d) = true.
Proof.
  unfold hex_digit. generalize (Z.to_nat d). intros n.
  do 16 (destruct n as [|n]; [done|]). done.
Qed.

Lemma visible_hex16 g : visible (hex16 g) = true.
Proof.
  unfold hex16. repeat case_match; rewrite ?visible_app, !visible_hex_digit; done.
Qed.

(** An address prints as visible text, so it is always a header value. *)
Lemma visible_ip_to_string a : visible (ip_to_string a) = true.
Proof.
  assert (∀ bits, visible (v4_to_string bits) = true) as H4.
  { intros bits. apply visible_join; [done|]. apply Forall_fmap.
    eapply Forall_impl; [apply to_be_bytes_range|]. intros b [Hb _]. apply visible_pretty. lia. }
  assert (∀ gs, visible (join ":" (hex16 <$> gs)) = true) as H6.
  { intros gs. apply visible_join; [done|]. apply Forall_fmap, Forall_true. intros. apply visible_hex16. }
  destruct a as [bits|bits]; [apply H4|]. unfold ip_to_string, v6_to_string.
  case_match; [by rewrite visible_app, H4|]. case_match. case_match; [|apply H6].
  by rewrite !visible_app, !H6.
Qed.

Example parse_ip_examples :
  parse_ip "192.168.1.1" = Some (V4 3232235777) ∧
  parse_ip "2001:db8::1" = Some (V6 42540766411282592856903984951653826561) ∧
  parse_ip "::" = Some (V6 0) ∧
  parse_ip "::ffff:10.0.0.1" = Some (V6 281470849515521) ∧
  parse_ip "1.2.3.256" = None ∧ parse_ip "01.2.3.4" = None ∧ parse_ip "1.2.3.4x" = None ∧
  parse_ip "1::2::3" = None ∧ parse_ip "localhost" = None.
Proof. vm_compute. done. Qed.

Example ip_to_string_examples :
  ip_to_string (V4 3232235777) = "192.168.1.1" ∧
  ip_to_string (V6 42540766411282592856903984951653826561) = "2001:db8::1" ∧
  ip_to_string (V6 0) = "::" ∧
  ip_to_string (V6 281470849515521) = "::ffff:10.0.0.1".
Proof. vm_compute. done. Qed.
