(* ===== verification/ConfigTypes.v ===== *)
(** * Configuration records

    The plain data types of [proxy-core/src/config.rs] that the components
    share: the routes and the settings of the health checker, the rate
    limiter, the circuit breaker, the cache and admission control. *)

From S2P Require Import Prelude F64.

Inductive LbStrategy := RoundRobinS | LeastConnectionsS | ConsistentHashS | WeightedRoundRobinS.

#[export] Instance LbStrategy_eq_dec : EqDecision LbStrategy.
Proof. solve_decision. Defined.

Record RouteConfig := {
  servers : list string;
  lb : LbStrategy;
  weights : option (list Z);
}.

#[export] Instance RouteConfig_eq_dec : EqDecision RouteConfig.
Proof. solve_decision. Defined.

Record HealthCheckConfig := {
  interval_secs : Z;
  timeout_secs : Z;
  hc_path : string;
}.

Record RateLimitConfig := {
  requests_per_second : f64;
  burst : Z;
}.

Record CircuitBreakerConfig := {
  cbc_failure_threshold : Z;
  cbc_cooldown_secs : Z;
  cbc_window_secs : Z;
}.

Record CacheConfig := {
  max_size_mb : Z;
  default_ttl_secs : Z;
}.

Record ReliabilityConfig := {
  max_inflight_requests : option Z;
  brownout_inflight_requests : option Z;
  retry_budget_per_request : Z;
}.
