(* ===== verification/ConfigSurfaces.v ===== *)
(** * Provider families and surfaces

    Model of the provider part of [proxy-core/src/config.rs]: the enums with
    their names, the surface catalog of a provider, the capabilities and
    protocols derived from it, the inference and validation of the provider
    family, and the provider record that caches the derived values. *)

From stdpp Require Import sorting.
From S2P Require Import Prelude RustStr.

Local Open Scope string_scope.
Local Open Scope list_scope.

(** ** Enums with names *)

(** A [match] on a string with literal arms. *)
Definition match_str {A} (arms : list (string * A)) (value : string) : option A :=
  snd <$> find_first (λ a, String.eqb a.1 value) arms.

(** An enum with [parse] and [as_str]. *)
Class Named (A : Type) := {
  enum_parse : string → option A;
  enum_str : A → string;
}.

(** The contract of the pair: the names are exactly what is accepted. *)
Class NamedOk (A : Type) `{Named A} :=
  parse_iff (s : string) (a : A) : enum_parse s = Some a ↔ s = enum_str a.

Inductive PreviewFeature :=
| ResponsesComposedStreaming
| ControlPlaneImport
| ProviderSurfaceTranslations.

#[export] Instance PreviewFeature_named : Named PreviewFeature := {|
  enum_parse := match_str [
    ("responses_composed_streaming", ResponsesComposedStreaming);
    ("control_plane_import", ControlPlaneImport);
    ("provider_surface_translations", ProviderSurfaceTranslations)];
  enum_str f := match f with
    | ResponsesComposedStreaming => "responses_composed_streaming"
    | ControlPlaneImport => "control_plane_import"
    | ProviderSurfaceTranslations => "provider_surface_translations"
    end;
|}.

Inductive PreviewFeatureEnforcement := HardGate | VisibilityOnly.

Definition enforcement_str (e : PreviewFeatureEnforcement) : string :=
  match e with HardGate => "hard_gate" | VisibilityOnly => "visibility_only" end.

Definition enforcement (f : PreviewFeature) : PreviewFeatureEnforcement :=
  match f with
  | ResponsesComposedStreaming | ControlPlaneImport => HardGate
  | ProviderSurfaceTranslations => VisibilityOnly
  end.

Definition all_features : list PreviewFeature :=
  [ResponsesComposedStreaming; ControlPlaneImport; ProviderSurfaceTranslations].

Inductive StabilityLevel := Stable | Preview | Experimental.

Definition stability_str (s : StabilityLevel) : string :=
  match s with Stable => "stable" | Preview => "preview" | Experimental => "experimental" end.

Inductive ProviderFamily := FOpenAi | FAnthropic | FGemini | FOpenRouter | FCustom.

#[export] Instance ProviderFamily_named : Named ProviderFamily := {|
  enum_parse := match_str [
    ("openai", FOpenAi); ("anthropic", FAnthropic); ("gemini", FGemini);
    ("openrouter", FOpenRouter); ("custom", FCustom)];
  enum_str f := match f with
    | FOpenAi => "openai" | FAnthropic => "anthropic" | FGemini => "gemini"
    | FOpenRouter => "openrouter" | FCustom => "custom"
    end;
|}.

Definition family_stability (f : ProviderFamily) : StabilityLevel :=
  match f with
  | FOpenAi => Stable
  | FAnthropic | FGemini | FOpenRouter => Preview
  | FCustom => Experimental
  end.

Inductive ProviderToolProtocol := ToolNone | ToolOpenAi | ToolAnthropic.

#[export] Instance ProviderToolProtocol_named : Named ProviderToolProtocol := {|
  enum_parse := match_str [("none", ToolNone); ("openai", ToolOpenAi); ("anthropic", ToolAnthropic)];
  enum_str p := match p with
    | ToolNone => "none" | ToolOpenAi => "openai" | ToolAnthropic => "anthropic" end;
|}.

Inductive ProviderImageProtocol := ImageNone | ImageOpenAi | ImageOpenRouterChat.

#[export] Instance ProviderImageProtocol_named : Named ProviderImageProtocol := {|
  enum_parse := match_str [("none", ImageNone); ("openai_images", ImageOpenAi);
                      ("openrouter_chat_images", ImageOpenRouterChat)];
  enum_str p := match p with
    | ImageNone => "none" | ImageOpenAi => "openai_images"
    | ImageOpenRouterChat => "openrouter_chat_images" end;
|}.

Inductive ProviderAudioProtocol := AudioNone | AudioOpenAi | AudioOpenRouterChat.

#[export] Instance ProviderAudioProtocol_named : Named ProviderAudioProtocol := {|
  enum_parse := match_str [("none", AudioNone); ("openai_audio", AudioOpenAi);
                      ("openrouter_chat_audio", AudioOpenRouterChat)];
  enum_str p := match p with
    | AudioNone => "none" | AudioOpenAi => "openai_audio"
    | AudioOpenRouterChat => "openrouter_chat_audio" end;
|}.

Inductive ProviderEmbeddingProtocol := EmbeddingNone | EmbeddingOpenAi | EmbeddingGemini.

#[export] Instance ProviderEmbeddingProtocol_named : Named ProviderEmbeddingProtocol := {|
  enum_parse := match_str [("none", EmbeddingNone); ("openai_embeddings", EmbeddingOpenAi);
                      ("gemini_embed_content", EmbeddingGemini)];
  enum_str p := match p with
    | EmbeddingNone => "none" | EmbeddingOpenAi => "openai_embeddings"
    | EmbeddingGemini => "gemini_embed_content" end;
|}.

Inductive ProviderDataCollectionMode := Allow | Deny.

#[export] Instance ProviderDataCollectionMode_named : Named ProviderDataCollectionMode := {|
  enum_parse := match_str [("allow", Allow); ("deny", Deny)];
  enum_str m := match m with Allow => "allow" | Deny => "deny" end;
|}.

Inductive ProviderExtraCapability :=
| ResponsesApi
| Reasoning
| StructuredOutputJsonMode
| StructuredOutputJsonSchema
| Files
| Batches
| ImageInput
| ImagesGenerations
| ImagesEdits
| ImagesVariations
| AudioInput
| AudioOutput
| AudioTranscription
| AudioTranslation
| Embeddings
| Realtime
| PromptCacheOpenAi
| PromptCacheAnthropic
| PromptCacheRequestControls.

#[export] Instance ProviderExtraCapability_eq_dec : EqDecision ProviderExtraCapability.
Proof. solve_decision. Defined.

#[export] Instance ProviderExtraCapability_named : Named ProviderExtraCapability := {|
  enum_parse := match_str [
    ("responses_api", ResponsesApi);
    ("reasoning", Reasoning);
    ("structured_output_json_mode", StructuredOutputJsonMode);
    ("structured_output_json_schema", StructuredOutputJsonSchema);
    ("files", Files);
    ("batches", Batches);
    ("image_input", ImageInput);
    ("images_generations", ImagesGenerations);
    ("images_edits", ImagesEdits);
    ("images_variations", ImagesVariations);
    ("audio_input", AudioInput);
    ("audio_output", AudioOutput);
    ("audio_transcription", AudioTranscription);
    ("audio_translation", AudioTranslation);
    ("embeddings", Embeddings);
    ("realtime", Realtime);
    ("prompt_cache_openai", PromptCacheOpenAi);
    ("prompt_cache_anthropic", PromptCacheAnthropic);
    ("prompt_cache_request_controls", PromptCacheRequestControls)];
  enum_str c := match c with
    | ResponsesApi => "responses_api"
    | Reasoning => "reasoning"
    | StructuredOutputJsonMode => "structured_output_json_mode"
    | StructuredOutputJsonSchema => "structured_output_json_schema"
    | Files => "files"
    | Batches => "batches"
    | ImageInput => "image_input"
    | ImagesGenerations => "images_generations"
    | ImagesEdits => "images_edits"
    | ImagesVariations => "images_variations"
    | AudioInput => "audio_input"
    | AudioOutput => "audio_output"
    | AudioTranscription => "audio_transcription"
    | AudioTranslation => "audio_translation"
    | Embeddings => "embeddings"
    | Realtime => "realtime"
    | PromptCacheOpenAi => "prompt_cache_openai"
    | PromptCacheAnthropic => "prompt_cache_anthropic"
    | PromptCacheRequestControls => "prompt_cache_request_controls"
    end;
|}.

(** ** Preview features: a [BTreeSet], kept in declaration order *)

Definition feature_rank (f : PreviewFeature) : nat :=
  match f with
  | ResponsesComposedStreaming => 0
  | ControlPlaneImport => 1
  | ProviderSurfaceTranslations => 2
  end.

Fixpoint btree_insert (f : PreviewFeature) (l : list PreviewFeature) : list PreviewFeature :=
  match l with
  | [] => [f]
  | g :: l' =>
      match Nat.compare (feature_rank f) (feature_rank g) with
      | Lt => f :: g :: l'
      | Eq => g :: l'
      | Gt => g :: btree_insert f l'
      end
  end.

Record PreviewFeatureSet := { features : list PreviewFeature }.

Definition feature_set_new (fs : list PreviewFeature) : PreviewFeatureSet :=
  {| features := foldl (λ l f, btree_insert f l) [] fs |}.

Definition contains_feature (s : PreviewFeatureSet) (f : PreviewFeature) : bool :=
  existsb (λ g, Nat.eqb (feature_rank f) (feature_rank g)) (features s).

Definition feature_names (s : PreviewFeatureSet) : list string := enum_str <$> features s.

Record PreviewFeatureStatus := {
  pfs_name : string;
  pfs_enabled : bool;
  pfs_enforcement : string;
}.

Definition statuses (s : PreviewFeatureSet) : list PreviewFeatureStatus :=
  (λ f, {| pfs_name := enum_str f; pfs_enabled := contains_feature s f;
           pfs_enforcement := enforcement_str (enforcement f) |}) <$> all_features.

(** ** Surfaces *)

Inductive ToolSurface := TsOpenAi | TsAnthropic.
Inductive ResponsesSurface := ResponsesOpenAiCompatible.
Inductive FileSurface := FileOpenAiCompatible.
Inductive BatchSurface := BatchOpenAiCompatible.
Inductive RealtimeSurface := RealtimeOpenAiCompatible.
Inductive PromptCacheProtocol := PcOpenAi | PcAnthropic.

Definition prompt_cache_str (p : PromptCacheProtocol) : string :=
  match p with PcOpenAi => "openai" | PcAnthropic => "anthropic" end.

Record PromptCacheSurface := {
  pc_protocol : PromptCacheProtocol;
  request_controls : bool;
}.

Inductive ImageSurfaceProtocol := IsOpenAiImages | IsOpenRouterChatImages.

Record ImageSurface := {
  im_protocol : ImageSurfaceProtocol;
  im_input : bool;
  generations : bool;
  edits : bool;
  variations : bool;
}.

Inductive AudioSurfaceProtocol := AsOpenAiAudio | AsOpenRouterChatAudio.

Record AudioSurface := {
  au_protocol : AudioSurfaceProtocol;
  au_input : bool;
  au_output : bool;
  transcription : bool;
  translation : bool;
}.

Inductive EmbeddingSurfaceProtocol := EsOpenAiEmbeddings | EsGeminiEmbedContent.

Record EmbeddingSurface := { em_protocol : EmbeddingSurfaceProtocol }.

Record ProviderSurfaceCatalog := {
  tools : option ToolSurface;
  responses : option ResponsesSurface;
  reasoning : bool;
  structured_output_json_mode : bool;
  structured_output_json_schema : bool;
  files : option FileSurface;
  batches : option BatchSurface;
  images : option ImageSurface;
  audio : option AudioSurface;
  embeddings : option EmbeddingSurface;
  realtime : option RealtimeSurface;
  prompt_cache : option PromptCacheSurface;
}.

Definition catalog_default : ProviderSurfaceCatalog := {|
  tools := None; responses := None; reasoning := false; structured_output_json_mode := false;
  structured_output_json_schema := false; files := None; batches := None; images := None;
  audio := None; embeddings := None; realtime := None; prompt_cache := None |}.

Definition is_none {A} (o : option A) : bool := negb (is_some o).

Definition catalog_is_empty (s : ProviderSurfaceCatalog) : bool :=
  is_none (tools s) && is_none (responses s) && negb (reasoning s)
  && negb (structured_output_json_mode s) && negb (structured_output_json_schema s)
  && is_none (files s) && is_none (batches s) && is_none (images s) && is_none (audio s)
  && is_none (embeddings s) && is_none (realtime s) && is_none (prompt_cache s).

(** A flag of an optional surface, false without the surface. *)
Definition flag {A} (o : option A) (f : A → bool) : bool := default false (f <$> o).

Definition has_surface (s : ProviderSurfaceCatalog) (c : ProviderExtraCapability) : bool :=
  match c with
  | ResponsesApi => is_some (responses s)
  | Reasoning => reasoning s
  | StructuredOutputJsonMode => structured_output_json_mode s
  | StructuredOutputJsonSchema => structured_output_json_schema s
  | Files => is_some (files s)
  | Batches => is_some (batches s)
  | ImageInput => flag (images s) im_input
  | ImagesGenerations => flag (images s) generations
  | ImagesEdits => flag (images s) edits
  | ImagesVariations => flag (images s) variations
  | AudioInput => flag (audio s) au_input
  | AudioOutput => flag (audio s) au_output
  | AudioTranscription => flag (audio s) transcription
  | AudioTranslation => flag (audio s) translation
  | Embeddings => is_some (embeddings s)
  | Realtime => is_some (realtime s)
  | PromptCacheOpenAi => match pc_protocol <$> prompt_cache s with Some PcOpenAi => true | _ => false end
  | PromptCacheAnthropic =>
      match pc_protocol <$> prompt_cache s with Some PcAnthropic => true | _ => false end
  | PromptCacheRequestControls => flag (prompt_cache s) request_controls
  end.

(** ** Capabilities *)

Record ProviderCapabilityConfig := {
  cap_responses_api : bool;
  cap_reasoning : bool;
  cap_structured_output_json_mode : bool;
  cap_structured_output_json_schema : bool;
  cap_files : bool;
  cap_batches : bool;
  cap_image_input : bool;
  cap_images_generations : bool;
  cap_images_edits : bool;
  cap_images_variations : bool;
  cap_audio_input : bool;
  cap_audio_output : bool;
  cap_audio_transcription : bool;
  cap_audio_translation : bool;
  cap_embeddings : bool;
  cap_realtime : bool;
  cap_prompt_cache_openai : bool;
  cap_prompt_cache_anthropic : bool;
  cap_prompt_cache_request_controls : bool;
}.

Definition capabilities_default : ProviderCapabilityConfig := {|
  cap_responses_api := false; cap_reasoning := false; cap_structured_output_json_mode := false;
  cap_structured_output_json_schema := false; cap_files := false; cap_batches := false;
  cap_image_input := false; cap_images_generations := false; cap_images_edits := false;
  cap_images_variations := false; cap_audio_input := false; cap_audio_output := false;
  cap_audio_transcription := false; cap_audio_translation := false; cap_embeddings := false;
  cap_realtime := false; cap_prompt_cache_openai := false; cap_prompt_cache_anthropic := false;
  cap_prompt_cache_request_controls := false |}.

(** [enable] sets the field of one capability; the others stay. *)
Definition enable (p : ProviderCapabilityConfig) (c : ProviderExtraCapability)
    : ProviderCapabilityConfig :=
  let set x old := bool_decide (c = x) || old in {|
  cap_responses_api := set ResponsesApi (cap_responses_api p);
  cap_reasoning := set Reasoning (cap_reasoning p);
  cap_structured_output_json_mode := set StructuredOutputJsonMode (cap_structured_output_json_mode p);
  cap_structured_output_json_schema :=
    set StructuredOutputJsonSchema (cap_structured_output_json_schema p);
  cap_files := set Files (cap_files p);
  cap_batches := set Batches (cap_batches p);
  cap_image_input := set ImageInput (cap_image_input p);
  cap_images_generations := set ImagesGenerations (cap_images_generations p);
  cap_images_edits := set ImagesEdits (cap_images_edits p);
  cap_images_variations := set ImagesVariations (cap_images_variations p);
  cap_audio_input := set AudioInput (cap_audio_input p);
  cap_audio_output := set AudioOutput (cap_audio_output p);
  cap_audio_transcription := set AudioTranscription (cap_audio_transcription p);
  cap_audio_translation := set AudioTranslation (cap_audio_translation p);
  cap_embeddings := set Embeddings (cap_embeddings p);
  cap_realtime := set Realtime (cap_realtime p);
  cap_prompt_cache_openai := set PromptCacheOpenAi (cap_prompt_cache_openai p);
  cap_prompt_cache_anthropic := set PromptCacheAnthropic (cap_prompt_cache_anthropic p);
  cap_prompt_cache_request_controls :=
    set PromptCacheRequestControls (cap_prompt_cache_request_controls p);
|}.

Definition supports (p : ProviderCapabilityConfig) (c : ProviderExtraCapability) : bool :=
  match c with
  | ResponsesApi => cap_responses_api p
  | Reasoning => cap_reasoning p
  | StructuredOutputJsonMode => cap_structured_output_json_mode p
  | StructuredOutputJsonSchema => cap_structured_output_json_schema p
  | Files => cap_files p
  | Batches => cap_batches p
  | ImageInput => cap_image_input p
  | ImagesGenerations => cap_images_generations p
  | ImagesEdits => cap_images_edits p
  | ImagesVariations => cap_images_variations p
  | AudioInput => cap_audio_input p
  | AudioOutput => cap_audio_output p
  | AudioTranscription => cap_audio_transcription p
  | AudioTranslation => cap_audio_translation p
  | Embeddings => cap_embeddings p
  | Realtime => cap_realtime p
  | PromptCacheOpenAi => cap_prompt_cache_openai p
  | PromptCacheAnthropic => cap_prompt_cache_anthropic p
  | PromptCacheRequestControls => cap_prompt_cache_request_controls p
  end.

(** The array both loops run over. *)
Definition all_capabilities : list ProviderExtraCapability :=
  [ResponsesApi; Reasoning; StructuredOutputJsonMode; StructuredOutputJsonSchema; Files; Batches;
   ImageInput; ImagesGenerations; ImagesEdits; ImagesVariations; AudioInput; AudioOutput;
   AudioTranscription; AudioTranslation; Embeddings; Realtime; PromptCacheOpenAi;
   PromptCacheAnthropic; PromptCacheRequestControls].

Definition derived_capabilities (s : ProviderSurfaceCatalog) : ProviderCapabilityConfig :=
  foldl (λ caps c, if has_surface s c then enable caps c else caps)
    capabilities_default all_capabilities.

Definition capability_config_names (p : ProviderCapabilityConfig) : list string :=
  foldl (λ names c, if supports p c then names ++ [enum_str c] else names) [] all_capabilities.

(** ** Protocols derived from the surfaces *)

Definition derived_tool_protocol (s : ProviderSurfaceCatalog) : ProviderToolProtocol :=
  match tools s with
  | Some TsOpenAi => ToolOpenAi
  | Some TsAnthropic => ToolAnthropic
  | None => ToolNone
  end.

(** [Option::filter] *)
Definition option_keep {A} (p : A → bool) (o : option A) : option A :=
  match o with Some a => if p a then Some a else None | None => None end.

Definition derived_image_protocol (s : ProviderSurfaceCatalog) : ProviderImageProtocol :=
  match im_protocol <$> option_keep (λ i, generations i || edits i || variations i) (images s) with
  | Some IsOpenAiImages => ImageOpenAi
  | Some IsOpenRouterChatImages => ImageOpenRouterChat
  | None => ImageNone
  end.

Definition derived_audio_protocol (s : ProviderSurfaceCatalog) : ProviderAudioProtocol :=
  match au_protocol <$> option_keep (λ a, au_output a || transcription a || translation a) (audio s) with
  | Some AsOpenAiAudio => AudioOpenAi
  | Some AsOpenRouterChatAudio => AudioOpenRouterChat
  | None => AudioNone
  end.

Definition derived_embedding_protocol (s : ProviderSurfaceCatalog) : ProviderEmbeddingProtocol :=
  match em_protocol <$> embeddings s with
  | Some EsOpenAiEmbeddings => EmbeddingOpenAi
  | Some EsGeminiEmbedContent => EmbeddingGemini
  | None => EmbeddingNone
  end.

(** ** Endpoints *)

Definition native_image (s : ProviderSurfaceCatalog) (f : ImageSurface → bool) : bool :=
  match images s with
  | Some i => match im_protocol i with IsOpenAiImages => f i | _ => false end
  | None => false
  end.

Definition native_audio (s : ProviderSurfaceCatalog) (f : AudioSurface → bool) : bool :=
  match audio s with
  | Some a => match au_protocol a with AsOpenAiAudio => f a | _ => false end
  | None => false
  end.

Definition supports_native_batch_endpoint (s : ProviderSurfaceCatalog) (endpoint : string) : bool :=
  default true (match_str [
    ("/v1/responses", is_some (responses s));
    ("/v1/files", is_some (files s));
    ("/v1/images/generations", native_image s generations);
    ("/v1/images/edits", native_image s edits);
    ("/v1/images/variations", native_image s variations);
    ("/v1/audio/speech", native_audio s au_output);
    ("/v1/audio/transcriptions", native_audio s transcription);
    ("/v1/audio/translations", native_audio s translation);
    ("/v1/embeddings", match embeddings s with
                       | Some e => match em_protocol e with EsOpenAiEmbeddings => true | _ => false end
                       | None => false
                       end)] endpoint).

Definition supports_file_surface (s : ProviderSurfaceCatalog) : bool := is_some (files s).
Definition supports_responses_surface (s : ProviderSurfaceCatalog) : bool := is_some (responses s).

Definition push_if (b : bool) (e : string) (l : list string) : list string :=
  if b then l ++ [e] else l.

Definition surface_endpoint_paths (s : ProviderSurfaceCatalog) : list string :=
  let l := push_if (is_some (responses s)) "/v1/responses" [] in
  let l := push_if (is_some (files s)) "/v1/files" l in
  let l := push_if (is_some (batches s)) "/v1/batches" l in
  let l := push_if (flag (images s) generations) "/v1/images/generations" l in
  let l := push_if (flag (images s) edits) "/v1/images/edits" l in
  let l := push_if (flag (images s) variations) "/v1/images/variations" l in
  let l := push_if (flag (audio s) au_output) "/v1/audio/speech" l in
  let l := push_if (flag (audio s) transcription) "/v1/audio/transcriptions" l in
  let l := push_if (flag (audio s) translation) "/v1/audio/translations" l in
  let l := push_if (is_some (embeddings s)) "/v1/embeddings" l in
  push_if (is_some (realtime s)) "/v1/realtime" l.

Inductive ManagedToolRequestShape := OpenAiChatCompletions | OpenAiResponses | AnthropicMessages.

Definition shape_str (m : ManagedToolRequestShape) : string :=
  match m with
  | OpenAiChatCompletions => "openai_chat_completions"
  | OpenAiResponses => "openai_responses"
  | AnthropicMessages => "anthropic_messages"
  end.

Definition managed_tool_request_shapes (s : ProviderSurfaceCatalog) : list ManagedToolRequestShape :=
  match tools s with
  | Some TsOpenAi =>
      if supports_responses_surface s then [OpenAiChatCompletions; OpenAiResponses]
      else [OpenAiChatCompletions]
  | Some TsAnthropic => [AnthropicMessages]
  | None => []
  end.

Definition managed_tool_request_shape_for_path (s : ProviderSurfaceCatalog) (path : string)
    : option ManagedToolRequestShape :=
  match tools s with
  | Some TsOpenAi =>
      if (String.eqb path "/v1/responses" || starts_with path "/v1/responses/")
         && supports_responses_surface s
      then Some OpenAiResponses else Some OpenAiChatCompletions
  | Some TsAnthropic => Some AnthropicMessages
  | None => None
  end.

(** ** Families *)

Inductive ProviderFamilyConfig :=
| PfOpenAi (surfaces : ProviderSurfaceCatalog)
| PfAnthropic (surfaces : ProviderSurfaceCatalog)
| PfGemini (surfaces : ProviderSurfaceCatalog)
| PfOpenRouter (surfaces : ProviderSurfaceCatalog)
| PfCustom (surfaces : ProviderSurfaceCatalog).

Definition family (c : ProviderFamilyConfig) : ProviderFamily :=
  match c with
  | PfOpenAi _ => FOpenAi
  | PfAnthropic _ => FAnthropic
  | PfGemini _ => FGemini
  | PfOpenRouter _ => FOpenRouter
  | PfCustom _ => FCustom
  end.

Definition surfaces (c : ProviderFamilyConfig) : ProviderSurfaceCatalog :=
  match c with
  | PfOpenAi s | PfAnthropic s | PfGemini s | PfOpenRouter s | PfCustom s => s
  end.

Definition provider_family_config (f : ProviderFamily) (s : ProviderSurfaceCatalog)
    : ProviderFamilyConfig :=
  match f with
  | FOpenAi => PfOpenAi s
  | FAnthropic => PfAnthropic s
  | FGemini => PfGemini s
  | FOpenRouter => PfOpenRouter s
  | FCustom => PfCustom s
  end.

Definition infer_provider_family (name : string) (s : ProviderSurfaceCatalog) : ProviderFamily :=
  match tools s with
  | Some TsAnthropic => FAnthropic
  | _ =>
      match em_protocol <$> embeddings s with
      | Some EsGeminiEmbedContent => FGemini
      | _ =>
          if match im_protocol <$> images s with Some IsOpenRouterChatImages => true | _ => false end
             || match au_protocol <$> audio s with Some AsOpenRouterChatAudio => true | _ => false end
          then FOpenRouter
          else
            match match_str [("openai", FOpenAi); ("anthropic", FAnthropic); ("gemini", FGemini);
                             ("openrouter", FOpenRouter)] name with
            | Some f => f
            | None =>
                if is_some (tools s) || is_some (responses s) || is_some (files s)
                   || is_some (batches s) || is_some (realtime s)
                   || match pc_protocol <$> prompt_cache s with Some PcOpenAi => true | _ => false end
                then FOpenAi else FCustom
            end
      end
  end.

Definition validate_provider_family (f : ProviderFamily) (s : ProviderSurfaceCatalog)
    (context : string) : result string () :=
  match f with
  | FOpenAi =>
      match tools s with
      | Some TsAnthropic =>
          Err (context +:+ ".surfaces.tools='anthropic' is invalid for family='openai'")
      | _ => Ok ()
      end
  | FAnthropic =>
      match tools s with
      | Some TsOpenAi =>
          Err (context +:+ ".surfaces.tools='openai' is invalid for family='anthropic'")
      | _ =>
          match pc_protocol <$> prompt_cache s with
          | Some PcOpenAi =>
              Err (context +:+
                ".surfaces.prompt_cache.protocol='openai' is invalid for family='anthropic'")
          | _ => Ok ()
          end
      end
  | FGemini =>
      match em_protocol <$> embeddings s with
      | Some EsOpenAiEmbeddings =>
          Err (context +:+
            ".surfaces.embeddings.protocol='openai_embeddings' is invalid for family='gemini'")
      | _ => Ok ()
      end
  | FOpenRouter =>
      if match im_protocol <$> images s with Some IsOpenAiImages => true | _ => false end
         || match au_protocol <$> audio s with Some AsOpenAiAudio => true | _ => false end
      then Err (context +:+
             " openrouter family must use openrouter_chat_* protocols for image/audio surfaces")
      else Ok ()
  | FCustom => Ok ()
  end.

Local Open Scope rust_scope.

Definition from_parts (f : ProviderFamily) (s : ProviderSurfaceCatalog)
    : result string ProviderFamilyConfig :=
  let? _ := validate_provider_family f s "provider" in
  Ok (provider_family_config f s).

Definition from_optional_parts (name : string) (f : option ProviderFamily)
    (s : ProviderSurfaceCatalog) : result string ProviderFamilyConfig :=
  from_parts (match f with Some f => f | None => infer_provider_family name s end) s.

(** ** The provider record *)

Record ProviderRoutingMetadataConfig := {
  data_collection : option ProviderDataCollectionMode;
  zdr : bool;
  distillable_text : bool;
  quantizations : list string;
  supported_parameter_families : list string;
}.

Definition routing_default : ProviderRoutingMetadataConfig :=
  {| data_collection := None; zdr := false; distillable_text := false; quantizations := [];
     supported_parameter_families := [] |}.

Record ProviderCommonConfig := {
  pcc_name : string;
  pcc_api_key : string;
  pcc_base_url : string;
  pcc_models : list string;
  pcc_api_key_header : string;
  pcc_timeout_secs : option Z;
  pcc_routing_metadata : ProviderRoutingMetadataConfig;
}.

Record ProviderKeyConfig := {
  pk_name : string;
  pk_api_key : string;
  pk_base_url : string;
  pk_models : list string;
  pk_api_key_header : string;
  pk_timeout_secs : option Z;
  pk_family : ProviderFamilyConfig;
  pk_tool_protocol : ProviderToolProtocol;
  pk_image_protocol : ProviderImageProtocol;
  pk_audio_protocol : ProviderAudioProtocol;
  pk_embedding_protocol : ProviderEmbeddingProtocol;
  pk_routing_metadata : ProviderRoutingMetadataConfig;
  pk_capabilities : ProviderCapabilityConfig;
}.

Definition provider_new (c : ProviderCommonConfig) (f : ProviderFamilyConfig) : ProviderKeyConfig :=
  let s := surfaces f in {|
  pk_name := pcc_name c;
  pk_api_key := pcc_api_key c;
  pk_base_url := pcc_base_url c;
  pk_models := pcc_models c;
  pk_api_key_header := pcc_api_key_header c;
  pk_timeout_secs := pcc_timeout_secs c;
  pk_family := f;
  pk_tool_protocol := derived_tool_protocol s;
  pk_image_protocol := derived_image_protocol s;
  pk_audio_protocol := derived_audio_protocol s;
  pk_embedding_protocol := derived_embedding_protocol s;
  pk_routing_metadata := pcc_routing_metadata c;
  pk_capabilities := derived_capabilities s;
|}.

Definition family_kind (p : ProviderKeyConfig) : ProviderFamily := family (pk_family p).
Definition provider_stability (p : ProviderKeyConfig) : StabilityLevel := family_stability (family_kind p).
Definition pk_surfaces (p : ProviderKeyConfig) : ProviderSurfaceCatalog := surfaces (pk_family p).
Definition supports_capability (p : ProviderKeyConfig) (c : ProviderExtraCapability) : bool :=
  has_surface (pk_surfaces p) c.
Definition supports_managed_tools (p : ProviderKeyConfig) : bool := is_some (tools (pk_surfaces p)).
Definition capability_names (p : ProviderKeyConfig) : list string :=
  capability_config_names (derived_capabilities (pk_surfaces p)).

Record ProviderCapabilityFlags := {
  supports_responses_api : bool;
  supports_reasoning : bool;
  supports_structured_output_json_mode : bool;
  supports_structured_output_json_schema : bool;
  supports_files : bool;
  supports_batches : bool;
  supports_image_input : bool;
  supports_images_generations : bool;
  supports_images_edits : bool;
  supports_images_variations : bool;
  supports_audio_input : bool;
  supports_audio_output : bool;
  supports_audio_transcription : bool;
  supports_audio_translation : bool;
  supports_embeddings : bool;
  supports_realtime : bool;
  supports_prompt_cache_openai : bool;
  supports_prompt_cache_anthropic : bool;
  supports_prompt_cache_request_controls : bool;
}.

Definition capability_flags (p : ProviderKeyConfig) : ProviderCapabilityFlags :=
  let has := has_surface (pk_surfaces p) in {|
  supports_responses_api := has ResponsesApi;
  supports_reasoning := has Reasoning;
  supports_structured_output_json_mode := has StructuredOutputJsonMode;
  supports_structured_output_json_schema := has StructuredOutputJsonSchema;
  supports_files := has Files;
  supports_batches := has Batches;
  supports_image_input := has ImageInput;
  supports_images_generations := has ImagesGenerations;
  supports_images_edits := has ImagesEdits;
  supports_images_variations := has ImagesVariations;
  supports_audio_input := has AudioInput;
  supports_audio_output := has AudioOutput;
  supports_audio_transcription := has AudioTranscription;
  supports_audio_translation := has AudioTranslation;
  supports_embeddings := has Embeddings;
  supports_realtime := has Realtime;
  supports_prompt_cache_openai := has PromptCacheOpenAi;
  supports_prompt_cache_anthropic := has PromptCacheAnthropic;
  supports_prompt_cache_request_controls := has PromptCacheRequestControls;
|}.

Record ProviderRuntimeSemantics := {
  rs_managed_tool_request_shapes : list string;
  rs_surface_endpoints : list string;
  rs_tool_protocol : string;
  rs_image_protocol : string;
  rs_audio_protocol : string;
  rs_embedding_protocol : string;
  rs_supports_managed_tools : bool;
  rs_capabilities : list string;
  rs_capability_flags : ProviderCapabilityFlags;
}.

Definition runtime_semantics (p : ProviderKeyConfig) : ProviderRuntimeSemantics :=
  let s := pk_surfaces p in {|
  rs_managed_tool_request_shapes := shape_str <$> managed_tool_request_shapes s;
  rs_surface_endpoints := surface_endpoint_paths s;
  rs_tool_protocol := enum_str (derived_tool_protocol s);
  rs_image_protocol := enum_str (derived_image_protocol s);
  rs_audio_protocol := enum_str (derived_audio_protocol s);
  rs_embedding_protocol := enum_str (derived_embedding_protocol s);
  rs_supports_managed_tools := is_some (tools s);
  rs_capabilities := capability_config_names (derived_capabilities s);
  rs_capability_flags := capability_flags p;
|}.

Record ProviderPromptCacheSemantics := {
  prompt_cache_protocol : string;
  supports_prompt_cache : bool;
  request_controls_supported : bool;
}.

Definition prompt_cache_semantics (p : ProviderKeyConfig) : ProviderPromptCacheSemantics :=
  match prompt_cache (pk_surfaces p) with
  | Some c => {| prompt_cache_protocol := prompt_cache_str (pc_protocol c);
                 supports_prompt_cache := true;
                 request_controls_supported := request_controls c |}
  | None =>
      match family_kind p with
      | FAnthropic => {| prompt_cache_protocol := prompt_cache_str PcAnthropic;
                         supports_prompt_cache := true; request_controls_supported := true |}
      | FOpenAi | FOpenRouter => {| prompt_cache_protocol := prompt_cache_str PcOpenAi;
                                    supports_prompt_cache := true;
                                    request_controls_supported := true |}
      | FGemini | FCustom => {| prompt_cache_protocol := "none"; supports_prompt_cache := false;
                                request_controls_supported := false |}
      end
  end.

Definition refresh_derived_semantics (p : ProviderKeyConfig) : ProviderKeyConfig :=
  let s := surfaces (pk_family p) in {|
  pk_name := pk_name p;
  pk_api_key := pk_api_key p;
  pk_base_url := pk_base_url p;
  pk_models := pk_models p;
  pk_api_key_header := pk_api_key_header p;
  pk_timeout_secs := pk_timeout_secs p;
  pk_family := pk_family p;
  pk_tool_protocol := derived_tool_protocol s;
  pk_image_protocol := derived_image_protocol s;
  pk_audio_protocol := derived_audio_protocol s;
  pk_embedding_protocol := derived_embedding_protocol s;
  pk_routing_metadata := pk_routing_metadata p;
  pk_capabilities := derived_capabilities s;
|}.

(** ** Lemmas *)

Lemma match_str_elem {A} (arms : list (string * A)) v a :
  match_str arms v = Some a → (v, a) ∈ arms.
Proof.
  unfold match_str. induction arms as [|[k x] arms IH]; simpl; [done|].
  destruct (String.eqb_spec k v) as [->|]; simpl.
  - intros [= ->]. left.
  - intros Hm. right. by apply IH.
Qed.

(** An enum's names are exactly what its [parse] accepts: by the list of arms
    one way, by evaluation the other. *)
Ltac solve_named :=
  let Hm := fresh in
  intros ? []; (split;
  [ intros Hm%match_str_elem;
    repeat first [ apply elem_of_cons in Hm as [Hm|Hm]; [by simplify_eq|] | by apply elem_of_nil in Hm ]
  | intros ->; reflexivity ]).

#[export] Instance PreviewFeature_ok : NamedOk PreviewFeature.
Proof. solve_named. Qed.
#[export] Instance ProviderFamily_ok : NamedOk ProviderFamily.
Proof. solve_named. Qed.
#[export] Instance ProviderToolProtocol_ok : NamedOk ProviderToolProtocol.
Proof. solve_named. Qed.
#[export] Instance ProviderImageProtocol_ok : NamedOk ProviderImageProtocol.
Proof. solve_named. Qed.
#[export] Instance ProviderAudioProtocol_ok : NamedOk ProviderAudioProtocol.
Proof. solve_named. Qed.
#[export] Instance ProviderEmbeddingProtocol_ok : NamedOk ProviderEmbeddingProtocol.
Proof. solve_named. Qed.
#[export] Instance ProviderDataCollectionMode_ok : NamedOk ProviderDataCollectionMode.
Proof. solve_named. Qed.
#[export] Instance ProviderExtraCapability_ok : NamedOk ProviderExtraCapability.
Proof. solve_named. Qed.

Lemma named_inj `{NamedOk A} (a b : A) : enum_str a = enum_str b → a = b.
Proof.
  intros E. assert (enum_parse (enum_str a) = Some b) as Hb by by apply parse_iff.
  rewrite (proj2 (parse_iff (enum_str a) a)) in Hb by done. by injection Hb.
Qed.

Lemma supports_enable p c d : supports (enable p c) d = bool_decide (c = d) || supports p d.
Proof. by destruct d. Qed.

Lemma supports_foldl s l p d :
  supports (foldl (λ caps c, if has_surface s c then enable caps c else caps) p l) d
  = supports p d || (bool_decide (d ∈ l) && has_surface s d).
Proof.
  revert p. induction l as [|c l IH]; intros p; simpl.
  - by rewrite orb_false_r.
  - rewrite IH.
    assert (bool_decide (d ∈ c :: l) = bool_decide (c = d) || bool_decide (d ∈ l)) as ->.
    { repeat case_bool_decide; simpl; set_solver. }
    destruct (has_surface s c) eqn:Ec; [rewrite supports_enable|];
      destruct (bool_decide_reflect (c = d)) as [->|]; rewrite ?Ec; btauto.
Qed.

Lemma all_capabilities_complete c : c ∈ all_capabilities.
Proof. by destruct c; vm_compute; repeat constructor. Qed.

Lemma supports_derived s c : supports (derived_capabilities s) c = has_surface s c.
Proof.
  unfold derived_capabilities. rewrite supports_foldl.
  rewrite bool_decide_eq_true_2 by apply all_capabilities_complete. by destruct c.
Qed.

Lemma names_foldl p l acc :
  foldl (λ names c, if supports p c then names ++ [enum_str c] else names) acc l
  = acc ++ (enum_str <$> filter (λ c, supports p c = true) l).
Proof.
  revert acc. induction l as [|c l IH]; intros acc; simpl; [by rewrite app_nil_r|].
  rewrite IH, filter_cons. destruct (supports p c) eqn:E; simpl; [|done].
  by rewrite <- app_assoc.
Qed.

Lemma push_if_elem b x e l : x ∈ push_if b e l ↔ (b = true ∧ x = e) ∨ x ∈ l.
Proof.
  unfold push_if. destruct b; rewrite ?elem_of_app, ?list_elem_of_singleton; naive_solver.
Qed.

Lemma btree_insert_elem f g l : g ∈ btree_insert f l ↔ g = f ∨ g ∈ l.
Proof.
  induction l as [|h l IH]; simpl; [set_solver|].
  destruct (Nat.compare_spec (feature_rank f) (feature_rank h)) as [E| |]; [|set_solver|set_solver].
  assert (f = h) as -> by by destruct f, h. set_solver.
Qed.

Definition features_sorted (l : list PreviewFeature) : Prop :=
  StronglySorted (λ f g, feature_rank f < feature_rank g) l.

Lemma btree_insert_sorted f l : features_sorted l → features_sorted (btree_insert f l).
Proof.
  unfold features_sorted. induction 1 as [|h l Hs IH Hh]; simpl; [by repeat constructor|].
  destruct (Nat.compare_spec (feature_rank f) (feature_rank h)) as [|Hlt|Hgt].
  - by constructor.
  - constructor; [by constructor|]. constructor; [done|]. eapply Forall_impl; [done|]. simpl. lia.
  - constructor; [done|]. apply Forall_forall. intros g [->|Hg]%btree_insert_elem; [done|].
    by eapply Forall_forall in Hh.
Qed.

Lemma feature_set_spec fs :
  features_sorted (features (feature_set_new fs)) ∧
  ∀ f, f ∈ features (feature_set_new fs) ↔ f ∈ fs.
Proof.
  unfold feature_set_new. simpl.
  induction fs as [|f fs [IH1 IH2]] using rev_ind; [split; [constructor|set_solver]|].
  rewrite foldl_snoc. split; [by apply btree_insert_sorted|].
  intros g. rewrite btree_insert_elem, IH2. set_solver.
Qed.

Lemma features_sorted_nodup l : features_sorted l → NoDup l.
Proof.
  induction 1 as [|f l _ IH HF]; constructor; [|done].
  intros Hin. eapply Forall_forall in HF; [|done]. lia.
Qed.

(** Sorted lists with the same elements are equal. *)
Lemma features_sorted_ext l k :
  features_sorted l → features_sorted k → (∀ f, f ∈ l ↔ f ∈ k) → l = k.
Proof.
  intros Hl Hk E. eapply StronglySorted_unique_strong; [|exact Hl|exact Hk|].
  - simpl. lia.
  - by apply NoDup_Permutation; [apply features_sorted_nodup..|].
Qed.

Lemma filter_features_sorted (P : PreviewFeature → Prop) `{∀ f, Decision (P f)} :
  features_sorted (filter P all_features).
Proof.
  unfold features_sorted, all_features. rewrite !filter_cons, filter_nil.
  repeat case_decide; repeat constructor.
Qed.

Lemma contains_feature_iff s f : contains_feature s f = true ↔ f ∈ features s.
Proof.
  unfold contains_feature. rewrite existsb_exists. split.
  - intros (g & Hg & E%Nat.eqb_eq). assert (f = g) as -> by by destruct f, g.
    by apply list_elem_of_In.
  - intros Hf. exists f. split; [by apply list_elem_of_In|]. by apply Nat.eqb_eq.
Qed.

(** The surfaces a family rejects. *)
Definition family_conflict (f : ProviderFamily) (s : ProviderSurfaceCatalog) : Prop :=
  match f with
  | FOpenAi => tools s = Some TsAnthropic
  | FAnthropic => tools s = Some TsOpenAi ∨ pc_protocol <$> prompt_cache s = Some PcOpenAi
  | FGemini => em_protocol <$> embeddings s = Some EsOpenAiEmbeddings
  | FOpenRouter => im_protocol <$> images s = Some IsOpenAiImages
                   ∨ au_protocol <$> audio s = Some AsOpenAiAudio
  | FCustom => False
  end.

Lemma validate_family_iff f s ctx :
  validate_provider_family f s ctx = Ok () ↔ ¬ family_conflict f s.
Proof.
  unfold validate_provider_family, family_conflict.
  destruct f; simpl; repeat case_match; simpl; naive_solver.
Qed.

Lemma from_parts_spec f s :
  from_parts f s = Ok (provider_family_config f s) ∨
  ∃ e, from_parts f s = Err e ∧ family_conflict f s.
Proof.
  unfold from_parts. destruct (validate_provider_family f s "provider") as [[]|e] eqn:E; simpl; [by left|].
  right. exists e. split; [done|]. unfold validate_provider_family, family_conflict in *.
  destruct f; simpl in *; repeat case_match; simpl in *; naive_solver.
Qed.

Lemma provider_family_config_inv f s :
  family (provider_family_config f s) = f ∧ surfaces (provider_family_config f s) = s.
Proof. by destruct f. Qed.

(** The cached protocols and capabilities are what the surfaces derive. *)
Definition provider_synced (p : ProviderKeyConfig) : Prop := refresh_derived_semantics p = p.

Lemma provider_new_synced c f : provider_synced (provider_new c f).
Proof. reflexivity. Qed.

#[export] Hint Rewrite @supports_derived : trp_rw.

(** ** Properties *)

(** every name the configuration accepts for a preview feature, a provider
    family, a protocol, a data-collection mode or a capability is the printed
    name of exactly one value: parsing and printing are inverse to each other. *)
Theorem config_names_roundtrip :
  (∀ s (f : PreviewFeature), enum_parse s = Some f ↔ s = enum_str f) ∧
  (∀ s (f : ProviderFamily), enum_parse s = Some f ↔ s = enum_str f) ∧
  (∀ s (p : ProviderToolProtocol), enum_parse s = Some p ↔ s = enum_str p) ∧
  (∀ s (p : ProviderImageProtocol), enum_parse s = Some p ↔ s = enum_str p) ∧
  (∀ s (p : ProviderAudioProtocol), enum_parse s = Some p ↔ s = enum_str p) ∧
  (∀ s (p : ProviderEmbeddingProtocol), enum_parse s = Some p ↔ s = enum_str p) ∧
  (∀ s (m : ProviderDataCollectionMode), enum_parse s = Some m ↔ s = enum_str m) ∧
  (∀ s (c : ProviderExtraCapability), enum_parse s = Some c ↔ s = enum_str c).
Proof. split_and!; apply parse_iff. Qed.

(** the capabilities of a provider are exactly its surfaces: the derived
    record supports a capability when the catalog has its surface, the list of
    names has the names of those capabilities, each once and in declaration
    order, and a name in the list parses back to a capability that is supported. *)
Theorem capabilities_mirror_surfaces p :
  (∀ c, supports (derived_capabilities (pk_surfaces p)) c = supports_capability p c) ∧
  capability_names p = enum_str <$> filter (λ c, supports_capability p c = true) all_capabilities ∧
  NoDup (capability_names p) ∧
  ∀ n, n ∈ capability_names p ↔ ∃ c, enum_parse n = Some c ∧ supports_capability p c = true.
Proof.
  assert (capability_names p
          = enum_str <$> filter (λ c, supports_capability p c = true) all_capabilities) as Hn.
  { unfold capability_names, capability_config_names. rewrite names_foldl. simpl. f_equal.
    apply list_filter_iff. intros c. by rewrite supports_derived. }
  split_and!; [intros c; apply supports_derived|done|..].
  - rewrite Hn. apply NoDup_fmap_2.
    + intros ?? E. by apply named_inj.
    + apply NoDup_filter. decide_closed.
  - intros n. rewrite Hn, list_elem_of_fmap. split.
    + intros (c & -> & [Hc _]%list_elem_of_filter). exists c. split; [by apply parse_iff|done].
    + intros (c & ->%parse_iff & Hc). exists c. split; [done|].
      apply list_elem_of_filter. split; [done|apply all_capabilities_complete].
Qed.

(** of the endpoints whose batch support depends on the provider, a
    provider takes a batch natively for those it lists whose surface speaks
    the OpenAI protocol; the translated surfaces are listed but not native. *)
Theorem native_batch_endpoints s e :
  e ∈ ["/v1/responses"; "/v1/files"; "/v1/images/generations"; "/v1/images/edits";
       "/v1/images/variations"; "/v1/audio/speech"; "/v1/audio/transcriptions";
       "/v1/audio/translations"; "/v1/embeddings"] →
  supports_native_batch_endpoint s e = true ↔
  e ∈ surface_endpoint_paths s ∧
  (starts_with e "/v1/images/" = true → im_protocol <$> images s = Some IsOpenAiImages) ∧
  (starts_with e "/v1/audio/" = true → au_protocol <$> audio s = Some AsOpenAiAudio) ∧
  (e = "/v1/embeddings" → em_protocol <$> embeddings s = Some EsOpenAiEmbeddings).
Proof.
  intros He. unfold surface_endpoint_paths. rewrite !push_if_elem, elem_of_nil.
  repeat (apply elem_of_cons in He as [->|He]); [..|by apply elem_of_nil in He];
    unfold supports_native_batch_endpoint, match_str; cbn -[native_image native_audio flag is_some];
    (split;
     [ intros Hs; split_and!; intros; simplify_eq;
       [repeat first [left; split; [|reflexivity] | right]|..]
     | intros (Hin & Him & Hau & Hem);
       repeat (destruct Hin as [[Hflag Heq]|Hin]; [try discriminate Heq|]); [|by destruct Hin] ]);
    unfold native_image, native_audio, flag, is_some in *; repeat case_match; simpl in *; first [done | congruence | specialize (Him eq_refl); congruence
      | specialize (Hau eq_refl); congruence | specialize (Hem eq_refl); congruence].
Qed.

Lemma native_batch_endpoints_witness :
  let s := {| tools := None; responses := None; reasoning := false;
              structured_output_json_mode := false; structured_output_json_schema := false;
              files := None; batches := None;
              images := Some {| im_protocol := IsOpenRouterChatImages; im_input := false;
                                generations := true; edits := false; variations := false |};
              audio := None; embeddings := None; realtime := None; prompt_cache := None |} in
  supports_native_batch_endpoint s "/v1/images/generations" = true ↔
  "/v1/images/generations" ∈ surface_endpoint_paths s ∧
  (starts_with "/v1/images/generations" "/v1/images/" = true →
     im_protocol <$> images s = Some IsOpenAiImages) ∧
  (starts_with "/v1/images/generations" "/v1/audio/" = true →
     au_protocol <$> audio s = Some AsOpenAiAudio) ∧
  ("/v1/images/generations" = "/v1/embeddings" →
     em_protocol <$> embeddings s = Some EsOpenAiEmbeddings).
Proof. intros s. apply (native_batch_endpoints s "/v1/images/generations"). decide_closed. Defined.

(** the family of a provider that is not named after one is inferred from
    its surfaces, and the inferred family accepts them unless they contradict
    each other: Anthropic tools with the OpenAI prompt cache, or (without
    Anthropic tools or Gemini embeddings) an OpenRouter image or audio surface
    next to an OpenAI one. *)
Theorem inferred_family_accepts name s :
  name ∉ ["openai"; "anthropic"; "gemini"; "openrouter"] →
  (∃ c, from_optional_parts name None s = Ok c ∧ surfaces c = s) ↔
  ¬ (tools s = Some TsAnthropic ∧ pc_protocol <$> prompt_cache s = Some PcOpenAi) ∧
  ¬ (tools s ≠ Some TsAnthropic ∧ em_protocol <$> embeddings s ≠ Some EsGeminiEmbedContent ∧
     ((im_protocol <$> images s = Some IsOpenRouterChatImages ∧ au_protocol <$> audio s = Some AsOpenAiAudio)
      ∨ (im_protocol <$> images s = Some IsOpenAiImages ∧ au_protocol <$> audio s = Some AsOpenRouterChatAudio))).
Proof.
  intros Hn.
  assert (∀ c, from_optional_parts name None s = Ok c ↔
    c = provider_family_config (infer_provider_family name s) s
    ∧ ¬ family_conflict (infer_provider_family name s) s) as Hf.
  { intros c. unfold from_optional_parts.
    destruct (from_parts_spec (infer_provider_family name s) s) as [E|(e & E & Hc)]; rewrite E.
    - unfold from_parts in E. destruct (validate_provider_family _ _ _) as [[]|] eqn:Ev; [|done].
      apply validate_family_iff in Ev. naive_solver.
    - naive_solver. }
  transitivity (¬ family_conflict (infer_provider_family name s) s).
  { split; [intros (c & [_ Hc]%Hf & _); done|]. intros Hc.
    eexists. split; [by apply Hf|]. by apply provider_family_config_inv. }
  clear Hf. unfold infer_provider_family, match_str. cbn [find_first fst].
  repeat match goal with
  | |- context [String.eqb ?k name] =>
      destruct (String.eqb_spec k name) as [<-|_]; [exfalso; apply Hn; decide_closed|]
  end.
  destruct s as [t r b1 b2 b3 f ba im au em rt pc]; simpl.
  destruct t as [[]|]; destruct em as [[[]]|]; destruct im as [[[]]|]; destruct au as [[[]]|];
    destruct pc as [[[]]|]; simpl;
    repeat case_match; simpl; intuition congruence.
Qed.

Lemma inferred_family_accepts_witness :
  let s := {| tools := Some TsAnthropic; responses := None; reasoning := false;
              structured_output_json_mode := false; structured_output_json_schema := false;
              files := None; batches := None; images := None; audio := None; embeddings := None;
              realtime := None;
              prompt_cache := Some {| pc_protocol := PcOpenAi; request_controls := true |} |} in
  ¬ ∃ c, from_optional_parts "mine" None s = Ok c ∧ surfaces c = s.
Proof.
  intros s Hc. apply (inferred_family_accepts "mine" s) in Hc; [|decide_closed].
  destruct Hc as [Hc _]. by apply Hc.
Defined.

(** a request with managed tools is always given a shape the provider
    advertises, and one is found whenever the provider has tools; under
    [/v1/responses] it is the Responses shape when it is advertised. *)
Theorem tool_shape_advertised p path :
  let s := pk_surfaces p in
  (supports_managed_tools p = true ↔ is_Some (managed_tool_request_shape_for_path s path)) ∧
  (∀ m, managed_tool_request_shape_for_path s path = Some m → m ∈ managed_tool_request_shapes s) ∧
  (starts_with path "/v1/responses/" = true → OpenAiResponses ∈ managed_tool_request_shapes s →
   managed_tool_request_shape_for_path s path = Some OpenAiResponses).
Proof.
  intros s. unfold supports_managed_tools. fold s.
  unfold managed_tool_request_shape_for_path, managed_tool_request_shapes, is_some.
  destruct (tools s) as [[]|]; simpl.
  - destruct (supports_responses_surface s); simpl; rewrite ?andb_true_r, ?andb_false_r.
    + destruct (String.eqb path "/v1/responses"); simpl;
        destruct (starts_with path "/v1/responses/"); simpl;
        (split_and!; [done|by intros ? [= <-]; repeat constructor|done]).
    + split_and!; [done|intros ? [= <-]; by constructor|].
      intros _ Hin. by apply list_elem_of_singleton in Hin.
  - split_and!; [done|intros ? [= <-]; by constructor|].
    intros _ Hin. by apply list_elem_of_singleton in Hin.
  - split_and!; [|done|]; [split; [done|by intros []]|]. intros _ Hin. by apply elem_of_nil in Hin.
Qed.

Lemma tool_shape_advertised_witness :
  let s := {| tools := Some TsOpenAi; responses := Some ResponsesOpenAiCompatible; reasoning := false;
              structured_output_json_mode := false; structured_output_json_schema := false;
              files := None; batches := None; images := None; audio := None; embeddings := None;
              realtime := None; prompt_cache := None |} in
  managed_tool_request_shape_for_path s "/v1/responses/abc" = Some OpenAiResponses.
Proof.
  intros s.
  set (p := provider_new {| pcc_name := "p"; pcc_api_key := ""; pcc_base_url := ""; pcc_models := [];
    pcc_api_key_header := ""; pcc_timeout_secs := None; pcc_routing_metadata := routing_default |} (PfOpenAi s)).
  apply (tool_shape_advertised p "/v1/responses/abc").
  - reflexivity.
  - by repeat constructor.
Defined.

(** the preview features of a configuration are a set: duplicates and the
    order they are written in do not matter, the names come out once each in
    declaration order, and a feature's status says whether it was given. *)
Theorem preview_features_are_a_set fs gs :
  (∀ f, f ∈ fs ↔ f ∈ gs) →
  feature_set_new fs = feature_set_new gs ∧
  feature_names (feature_set_new fs)
    = enum_str <$> filter (λ f, contains_feature (feature_set_new fs) f = true) all_features ∧
  ∀ st, st ∈ statuses (feature_set_new fs) → pfs_enabled st = true →
    ∃ f, f ∈ fs ∧ enum_parse (pfs_name st) = Some f.
Proof.
  intros Hfg. destruct (feature_set_spec fs) as [Sf Hf]. destruct (feature_set_spec gs) as [Sg Hg].
  split_and!.
  - assert (features (feature_set_new fs) = features (feature_set_new gs)) as E.
    { apply features_sorted_ext; [done..|]. intros f. by rewrite Hf, Hg. }
    destruct (feature_set_new fs), (feature_set_new gs). simpl in E. by rewrite E.
  - unfold feature_names. f_equal. apply features_sorted_ext; [done|apply filter_features_sorted|].
    intros f. rewrite list_elem_of_filter, contains_feature_iff.
    assert (f ∈ all_features) by (destruct f; repeat constructor). naive_solver.
  - intros st (f & -> & _)%list_elem_of_fmap Hen. simpl in *. exists f.
    split; [by apply contains_feature_iff, Hf in Hen|by destruct f].
Qed.

Lemma preview_features_are_a_set_witness :
  feature_set_new [ControlPlaneImport; ResponsesComposedStreaming; ControlPlaneImport]
  = feature_set_new [ResponsesComposedStreaming; ControlPlaneImport].
Proof. apply (preview_features_are_a_set _ _). intros []; split; intros; decide_closed || set_solver. Defined.
