(* ===== verification/CircuitBreaker.v ===== *)
(** * The circuit breaker

    Model of [proxy-core/src/circuit_breaker.rs]: a map from upstream to an
    entry that counts failures, and the three operations the proxy calls.
    The [DashMap] is a finite map; the per-entry [Mutex] makes each operation
    atomic on its entry, so an operation is a function of the breaker.  An
    operation reads the clock several times; [clk 0] is the reading of
    [or_insert_with], [clk 1] and [clk 2] the later ones. *)

From S2P Require Import Prelude.

Local Open Scope Z_scope.

(** ** Data *)

Inductive CircuitState := Closed | Open | HalfOpen.

#[export] Instance CircuitState_eq_dec : EqDecision CircuitState.
Proof. solve_decision. Defined.

Record CircuitBreakerEntry := {
  state : CircuitState;
  failure_count : Z;
  last_failure : option Instant;
  last_state_change : Instant;
  probe_in_flight : bool;
}.

Record CircuitBreaker := {
  circuits : gmap string CircuitBreakerEntry;
  failure_threshold : Z;
  cooldown : Duration;
  window : Duration;
}.

(** ** Operations *)

Definition new (failure_threshold cooldown_secs window_secs : Z) : CircuitBreaker := {|
  circuits := ∅;
  failure_threshold := failure_threshold;
  cooldown := from_secs cooldown_secs;
  window := from_secs window_secs;
|}.

(** The entry [or_insert_with] creates. *)
Definition fresh_entry (now : Instant) : CircuitBreakerEntry := {|
  state := Closed;
  failure_count := 0;
  last_failure := None;
  last_state_change := now;
  probe_in_flight := false;
|}.

(** [self.circuits.entry(upstream).or_insert_with(..)] *)
Definition entry_or_insert (cb : CircuitBreaker) (upstream : string) (now : Instant)
    : CircuitBreakerEntry :=
  default (fresh_entry now) (circuits cb !! upstream).

Definition set_entry (cb : CircuitBreaker) (upstream : string) (e : CircuitBreakerEntry)
    : CircuitBreaker := {|
  circuits := <[upstream := e]> (circuits cb);
  failure_threshold := failure_threshold cb;
  cooldown := cooldown cb;
  window := window cb;
|}.

(** The body of [is_allowed] under the entry's lock. *)
Definition entry_is_allowed (cooldown : Duration) (clk : Clock) (e : CircuitBreakerEntry)
    : CircuitBreakerEntry * bool :=
  match state e with
  | Closed => (e, true)
  | Open =>
      if cooldown <=? duration_since (clk 1%nat) (last_state_change e) then
        ({| state := HalfOpen;
            failure_count := failure_count e;
            last_failure := last_failure e;
            last_state_change := clk 2%nat;
            probe_in_flight := true |}, true)
      else (e, false)
  | HalfOpen =>
      if probe_in_flight e then (e, false)
      else
        ({| state := state e;
            failure_count := failure_count e;
            last_failure := last_failure e;
            last_state_change := last_state_change e;
            probe_in_flight := true |}, true)
  end.

Definition is_allowed (cb : CircuitBreaker) (upstream : string) (clk : Clock)
    : CircuitBreaker * bool :=
  let e := entry_or_insert cb upstream (clk 0%nat) in
  let '(e', b) := entry_is_allowed (cooldown cb) clk e in
  (set_entry cb upstream e', b).

Definition entry_record_success (clk : Clock) (e : CircuitBreakerEntry) : CircuitBreakerEntry :=
  match state e with
  | HalfOpen =>
      {| state := Closed;
         failure_count := 0;
         last_failure := None;
         last_state_change := clk 1%nat;
         probe_in_flight := false |}
  | _ => e
  end.

(** [record_success]: [get], so an unknown upstream gets no entry. *)
Definition record_success (cb : CircuitBreaker) (upstream : string) (clk : Clock)
    : CircuitBreaker :=
  match circuits cb !! upstream with
  | Some e => set_entry cb upstream (entry_record_success clk e)
  | None => cb
  end.

(** The body of [record_failure] under the entry's lock.  [failure_count] is a
    [u32]: the increment is written with its wrap-around. *)
Definition entry_record_failure (threshold : Z) (window : Duration) (clk : Clock)
    (e : CircuitBreakerEntry) : CircuitBreakerEntry :=
  match state e with
  | Closed =>
      let now := clk 1%nat in
      let count0 :=
        match last_failure e with
        | Some last => if window <? duration_since now last then 0 else failure_count e
        | None => failure_count e
        end in
      let count := wrap32 (count0 + 1) in
      if threshold <=? count then
        {| state := Open;
           failure_count := count;
           last_failure := Some now;
           last_state_change := now;
           probe_in_flight := probe_in_flight e |}
      else
        {| state := Closed;
           failure_count := count;
           last_failure := Some now;
           last_state_change := last_state_change e;
           probe_in_flight := probe_in_flight e |}
  | HalfOpen =>
      {| state := Open;
         failure_count := failure_count e;
         last_failure := last_failure e;
         last_state_change := clk 1%nat;
         probe_in_flight := false |}
  | Open => e
  end.

Definition record_failure (cb : CircuitBreaker) (upstream : string) (clk : Clock)
    : CircuitBreaker :=
  let e := entry_or_insert cb upstream (clk 0%nat) in
  set_entry cb upstream (entry_record_failure (failure_threshold cb) (window cb) clk e).

(** [CircuitBreaker::state] *)
Definition state_of (cb : CircuitBreaker) (upstream : string) : CircuitState :=
  match circuits cb !! upstream with
  | Some e => state e
  | None => Closed
  end.

(** ** The breaker as a transition system *)

Inductive cb_op :=
| OpIsAllowed (upstream : string) (clk : Clock)
| OpSuccess (upstream : string) (clk : Clock)
| OpFailure (upstream : string) (clk : Clock).

Definition op_upstream (o : cb_op) : string :=
  match o with OpIsAllowed u _ | OpSuccess u _ | OpFailure u _ => u end.

Definition apply_op (cb : CircuitBreaker) (o : cb_op) : CircuitBreaker :=
  match o with
  | OpIsAllowed u clk => (is_allowed cb u clk).1
  | OpSuccess u clk => record_success cb u clk
  | OpFailure u clk => record_failure cb u clk
  end.

Definition run_ops (cb : CircuitBreaker) (os : list cb_op) : CircuitBreaker :=
  foldl apply_op cb os.

(** The breakers a configuration [(t, c, w)] can reach. *)
Inductive reachable (t c w : Z) : CircuitBreaker → Prop :=
| reach_new : reachable t c w (new t c w)
| reach_op cb o : reachable t c w cb → reachable t c w (apply_op cb o).

(** Well-formed entries for a breaker of threshold [t]. *)
Record entry_wf (t : Z) (e : CircuitBreakerEntry) : Prop := {
  wf_count : 0 ≤ failure_count e ≤ Z.max 1 t;
  wf_closed : state e = Closed → failure_count e < Z.max 1 t;
  wf_probe : probe_in_flight e = true ↔ state e = HalfOpen;
}.

(** ** The abstract specification

    What the breaker promises for one upstream: in the closed phase it keeps
    the length of the current run of failures, a run being broken by a gap
    longer than the window; it opens when the run reaches the threshold. *)
Module Spec.

(** Length of the run of failures that ends a history of failure times, most
    recent first: successive failures at most [w] apart. *)
Fixpoint streak (w : Duration) (ts : list Instant) : Z :=
  match ts with
  | [] => 0
  | t :: ts' =>
      match ts' with
      | [] => 1
      | t' :: _ => if w <? duration_since t t' then 1 else streak w ts' + 1
      end
  end.

(** The circuit is open after a history iff some suffix of it has a run that
    reaches the threshold. *)
Fixpoint opened (thr : Z) (w : Duration) (ts : list Instant) : bool :=
  match ts with
  | [] => false
  | _ :: ts' => opened thr w ts' || (thr <=? streak w ts)
  end.

End Spec.

(** Recording a history of failures (most recent first) on a fresh entry. *)
Fixpoint record_history (threshold : Z) (window : Duration) (t0 : Instant) (ts : list Instant)
    : CircuitBreakerEntry :=
  match ts with
  | [] => fresh_entry t0
  | t :: ts' =>
      entry_record_failure threshold window (λ _, t) (record_history threshold window t0 ts')
  end.

(** ** Lemmas *)

Lemma lookup_set_entry_eq cb u e : circuits (set_entry cb u e) !! u = Some e.
Proof. apply lookup_insert_eq. Qed.

Lemma lookup_set_entry_ne cb u v e : u ≠ v → circuits (set_entry cb u e) !! v = circuits cb !! v.
Proof. apply lookup_insert_ne. Qed.

Lemma entry_is_allowed_allowed cd clk e :
  (entry_is_allowed cd clk e).2 = true ↔
  state e = Closed ∨
  (state e = Open ∧ cd ≤ duration_since (clk 1%nat) (last_state_change e)) ∨
  (state e = HalfOpen ∧ probe_in_flight e = false).
Proof.
  unfold entry_is_allowed. destruct (state e).
  - naive_solver.
  - destruct (Z.leb_spec cd (duration_since (clk 1%nat) (last_state_change e))); simpl.
    + naive_solver.
    + split; [done|]. intros [?|[[_ ?]|[? _]]]; [done|lia|done].
  - destruct (probe_in_flight e); naive_solver.
Qed.

Lemma fresh_entry_wf t now : entry_wf t (fresh_entry now).
Proof. split; simpl; [lia|lia|naive_solver]. Qed.

Lemma entry_is_allowed_wf t cd clk e :
  entry_wf t e → entry_wf t (entry_is_allowed cd clk e).1.
Proof.
  intros Hwf. pose proof Hwf as [Hc Hcl Hp]. unfold entry_is_allowed.
  destruct (state e) eqn:Hs; [done|case_match; [|done]|case_match; [done|]];
    split; simpl; naive_solver.
Qed.

Lemma entry_record_success_wf t clk e : entry_wf t e → entry_wf t (entry_record_success clk e).
Proof.
  intros Hwf. unfold entry_record_success.
  destruct (state e) eqn:Hs; [done|done|]. split; simpl; [lia|lia|naive_solver].
Qed.

(** The count the closed branch computes never wraps. *)
Lemma count_no_wrap t e :
  in_u32 t → entry_wf t e → state e = Closed →
  wrap32 (failure_count e + 1) = failure_count e + 1.
Proof.
  intros Ht [Hc Hcl _] Hs. apply wrap32_small. specialize (Hcl Hs).
  unfold in_u32, u32_max in *. lia.
Qed.

Lemma entry_record_failure_wf t w clk e :
  in_u32 t → entry_wf t e → entry_wf t (entry_record_failure t w clk e).
Proof.
  intros Ht Hwf. pose proof Hwf as [Hc Hcl Hp]. unfold entry_record_failure.
  destruct (state e) eqn:Hs; [|done|split; simpl; naive_solver].
  pose proof (count_no_wrap t e Ht Hwf Hs) as Hw.
  set (c0 := match last_failure e with
             | Some last => if w <? duration_since (clk 1%nat) last then 0 else failure_count e
             | None => failure_count e
             end).
  assert (c0 = 0 ∨ c0 = failure_count e) as Hc0.
  { subst c0. destruct (last_failure e); [case_match|]; auto. }
  assert (wrap32 (c0 + 1) = c0 + 1) as ->.
  { destruct Hc0 as [-> | ->]; [done|exact Hw]. }
  specialize (Hcl eq_refl).
  case_match eqn:Hthr; bool_to_prop; split; simpl; try naive_solver lia.
Qed.

Lemma entry_or_insert_wf t cb u now :
  map_Forall (λ _, entry_wf t) (circuits cb) → entry_wf t (entry_or_insert cb u now).
Proof.
  intros H. unfold entry_or_insert. destruct (circuits cb !! u) eqn:E; simpl.
  - by eapply H.
  - apply fresh_entry_wf.
Qed.

Lemma apply_op_params cb o :
  failure_threshold (apply_op cb o) = failure_threshold cb ∧
  cooldown (apply_op cb o) = cooldown cb ∧
  window (apply_op cb o) = window cb.
Proof.
  destruct o; simpl; unfold is_allowed, record_success, record_failure.
  - by case_match.
  - by case_match.
  - done.
Qed.

Lemma apply_op_wf t cb o :
  in_u32 t → failure_threshold cb = t →
  map_Forall (λ _, entry_wf t) (circuits cb) →
  map_Forall (λ _, entry_wf t) (circuits (apply_op cb o)).
Proof.
  intros Ht <- H. destruct o as [u clk|u clk|u clk]; simpl.
  - unfold is_allowed. pose proof (entry_or_insert_wf _ cb u (clk 0%nat) H) as He.
    pose proof (entry_is_allowed_wf _ (cooldown cb) clk _ He) as He'.
    destruct (entry_is_allowed _ _ _). by apply map_Forall_insert_2.
  - unfold record_success. destruct (circuits cb !! u) eqn:E; [|done].
    apply map_Forall_insert_2; [|done]. apply entry_record_success_wf. by eapply H.
  - unfold record_failure. apply map_Forall_insert_2; [|done].
    apply entry_record_failure_wf; [done|]. by apply entry_or_insert_wf.
Qed.

#[export] Hint Resolve fresh_entry_wf entry_is_allowed_wf entry_record_success_wf
  entry_record_failure_wf entry_or_insert_wf : trp.

Lemma reachable_inv t c w cb :
  in_u32 t → reachable t c w cb →
  failure_threshold cb = t ∧ cooldown cb = from_secs c ∧ window cb = from_secs w ∧
  map_Forall (λ _, entry_wf t) (circuits cb).
Proof.
  intros Ht. induction 1 as [|cb o _ (H1 & H2 & H3 & H4)].
  - by split_and!.
  - destruct (apply_op_params cb o) as (-> & -> & ->).
    split_and!; [done..|]. by apply apply_op_wf.
Qed.

Lemma apply_op_other cb o v :
  op_upstream o ≠ v → circuits (apply_op cb o) !! v = circuits cb !! v.
Proof.
  destruct o as [u clk|u clk|u clk]; simpl; intros Hne.
  - unfold is_allowed. case_match. by apply lookup_set_entry_ne.
  - unfold record_success. case_match; [|done]. by apply lookup_set_entry_ne.
  - unfold record_failure. by apply lookup_set_entry_ne.
Qed.

(** [is_allowed] does nothing to a half-open entry whose probe is in flight. *)
Lemma is_allowed_probing cb u clk e :
  circuits cb !! u = Some e → state e = HalfOpen → probe_in_flight e = true →
  is_allowed cb u clk = (set_entry cb u e, false).
Proof.
  intros He Hs Hp. unfold is_allowed, entry_or_insert. rewrite He. simpl.
  unfold entry_is_allowed. by rewrite Hs, Hp.
Qed.

Lemma streak_cons2 w t t' ts :
  Spec.streak w (t :: t' :: ts) =
  if w <? duration_since t t' then 1 else Spec.streak w (t' :: ts) + 1.
Proof. reflexivity. Qed.

Lemma streak_pos w ts : 0 ≤ Spec.streak w ts.
Proof.
  induction ts as [|t [|t' ts] IH]; [done|done|]. rewrite streak_cons2. case_match; lia.
Qed.

(** The closed entry after a history that has not opened the circuit holds the
    run length and the time of the last failure. *)
Lemma record_history_closed thr w t0 ts :
  in_u32 thr →
  let e := record_history thr w t0 ts in
  (Spec.opened thr w ts = false →
   state e = Closed ∧ failure_count e = Spec.streak w ts ∧ last_failure e = head ts) ∧
  (Spec.opened thr w ts = true → state e = Open).
Proof.
  intros Hthr. induction ts as [|t ts [IHc IHo]]; simpl.
  { split; [by repeat split|done]. }
  set (e := record_history thr w t0 ts) in *.
  destruct (Spec.opened thr w ts) eqn:Hop; simpl.
  { specialize (IHo eq_refl). split; [done|]. intros _.
    unfold entry_record_failure. by rewrite IHo. }
  destruct (IHc eq_refl) as (Hs & Hc & Hl). clear IHc IHo.
  set (count0 := match last_failure e with
                 | Some last => if w <? duration_since t last then 0 else failure_count e
                 | None => failure_count e
                 end).
  assert (count0 + 1 = Spec.streak w (t :: ts)) as Hcount.
  { subst count0. rewrite Hl, Hc. destruct ts as [|t' ts]; simpl; [done|].
    case_match; done. }
  assert (0 ≤ count0 < Z.max 1 thr) as Hrange.
  { subst count0. rewrite Hl, Hc. pose proof (streak_pos w ts) as Hp.
    destruct ts as [|t' ts]; simpl head; [simpl; lia|].
    change (Spec.opened thr w ts || (thr <=? Spec.streak w (t' :: ts)) = false) in Hop.
    apply orb_false_iff in Hop as [_ Hop]. bool_to_prop.
    change (0 ≤ (if w <? duration_since t t' then 0 else Spec.streak w (t' :: ts))
            < Z.max 1 thr).
    destruct (w <? duration_since t t'); lia. }
  assert (wrap32 (count0 + 1) = Spec.streak w (t :: ts)) as Hw.
  { rewrite wrap32_small, Hcount; [done|]. unfold in_u32, u32_max in *. lia. }
  unfold entry_record_failure. rewrite Hs. fold count0. rewrite Hw.
  change (match ts with
          | [] => 1
          | t' :: _ => if w <? duration_since t t' then 1 else Spec.streak w ts + 1
          end) with (Spec.streak w (t :: ts)).
  destruct (thr <=? Spec.streak w (t :: ts)); simpl; naive_solver.
Qed.

(** Operations on other upstreams, in any number, leave an entry alone. *)
Lemma run_ops_other cb os v :
  Forall (λ o, op_upstream o ≠ v) os → circuits (run_ops cb os) !! v = circuits cb !! v.
Proof.
  unfold run_ops. revert cb. induction os as [|o os IH]; intros cb; simpl; [done|].
  intros [Ho Hos]%Forall_cons. rewrite IH by done. by apply apply_op_other.
Qed.

Lemma run_ops_cooldown cb os : cooldown (run_ops cb os) = cooldown cb.
Proof.
  unfold run_ops. revert cb. induction os as [|o os IH]; intros cb; [done|].
  simpl. rewrite IH. apply apply_op_params.
Qed.

Definition not_outcome (u : string) (o : cb_op) : Prop :=
  match o with
  | OpIsAllowed _ _ => True
  | OpSuccess v _ | OpFailure v _ => v ≠ u
  end.

(** A half-open entry with its probe in flight survives any sequence of
    operations that records no outcome for its upstream. *)
Lemma probing_stable cb os u e :
  circuits cb !! u = Some e → state e = HalfOpen → probe_in_flight e = true →
  Forall (not_outcome u) os →
  circuits (run_ops cb os) !! u = Some e.
Proof.
  intros He Hs Hp. unfold run_ops. revert cb He.
  induction os as [|o os IH]; intros cb He; simpl; [done|].
  intros [Ho Hos]%Forall_cons. apply IH; [|done].
  destruct (decide (op_upstream o = u)) as [Heq|Hne]; [|by rewrite apply_op_other].
  destruct o as [v clk|v clk|v clk]; simpl in *; subst; [|done|done].
  erewrite is_allowed_probing by done. apply lookup_set_entry_eq.
Qed.

Lemma is_allowed_opens_probe cb u clk :
  state_of cb u = Open → (is_allowed cb u clk).2 = true →
  ∃ e, circuits (is_allowed cb u clk).1 !! u = Some e ∧
       state e = HalfOpen ∧ probe_in_flight e = true.
Proof.
  unfold state_of, is_allowed, entry_or_insert. intros Hs.
  destruct (circuits cb !! u) as [e|]; [|done]. simpl.
  unfold entry_is_allowed. rewrite Hs.
  destruct (cooldown cb <=? _); [|done]. intros _. simpl.
  rewrite lookup_insert_eq. eauto.
Qed.

(** ** Properties *)

(** in every reachable breaker the failure count stays within the
    threshold (at least 1), a closed entry can count one more failure without
    the [u32] wrapping, and the probe flag is set exactly in the half-open
    state. *)
Theorem breaker_invariant t c w cb u e :
  in_u32 t → reachable t c w cb → circuits cb !! u = Some e →
  (0 ≤ failure_count e ≤ Z.max 1 t) ∧
  (state e = Closed → wrap32 (failure_count e + 1) = failure_count e + 1) ∧
  (probe_in_flight e = true ↔ state e = HalfOpen).
Proof.
  intros Ht Hr He. destruct (reachable_inv _ _ _ _ Ht Hr) as (_ & _ & _ & Hwf).
  specialize (Hwf u e He). pose proof Hwf as [Hc _ Hp].
  split_and!; [lia|lia| |apply Hp..]. intros. by eapply count_no_wrap.
Qed.

Lemma breaker_invariant_witness :
  let cb := apply_op (new 1 10 60) (OpFailure "a" (λ _, 5)) in
  ∃ e, circuits cb !! "a"%string = Some e ∧ 0 ≤ failure_count e ≤ 1.
Proof.
  intros cb. eexists. split; [vm_compute; reflexivity|].
  refine (proj1 (breaker_invariant 1 10 60 cb "a" _ _ _ _)).
  - unfold in_u32, u32_max. lia.
  - apply reach_op, reach_new.
  - reflexivity.
Defined.

(** C7: recording a history of failures on a closed circuit opens it exactly
    when the abstract specification says so: some run of failures, each at
    most the window after the one before, has reached the threshold. *)
Theorem closed_phase_refines_spec thr w t0 ts :
  in_u32 thr →
  state (record_history thr w t0 ts) = if Spec.opened thr w ts then Open else Closed.
Proof.
  intros Hthr. destruct (record_history_closed thr w t0 ts Hthr) as [Hc Ho].
  destruct (Spec.opened thr w ts); [by apply Ho|by apply Hc].
Qed.

Lemma closed_phase_refines_spec_witness :
  state (record_history 2 10 0 [25; 20; 5]) = Open ∧
  state (record_history 2 10 0 [20; 5]) = Closed.
Proof.
  split.
  - rewrite (closed_phase_refines_spec 2 10 0 [25; 20; 5]); [reflexivity|].
    unfold in_u32, u32_max. lia.
  - reflexivity.
Defined.

(** once an open circuit has let a probe through, no further request is
    admitted for that upstream, whatever operations run, until an outcome is
    recorded for it. *)
Theorem half_open_admits_one_probe cb u clk os clk' :
  state_of cb u = Open →
  (is_allowed cb u clk).2 = true →
  Forall (not_outcome u) os →
  (is_allowed (run_ops (is_allowed cb u clk).1 os) u clk').2 = false.
Proof.
  intros Hs Hok Hos. destruct (is_allowed_opens_probe cb u clk Hs Hok) as (e & He & Hh & Hp).
  by erewrite is_allowed_probing by (try eapply probing_stable; done).
Qed.

Lemma half_open_admits_one_probe_witness :
  let cb := record_failure (new 1 10 60) "a" (λ _, 0) in
  let clk := λ _ : nat, from_secs 11 in
  (is_allowed (run_ops (is_allowed cb "a" clk).1
                 [OpFailure "b" clk; OpIsAllowed "a" clk]) "a" (λ _, from_secs 1000)).2 = false.
Proof.
  apply half_open_admits_one_probe; [reflexivity|reflexivity|].
  repeat constructor; done.
Defined.

(** an open circuit admits a request exactly when the cooldown has
    elapsed since it opened, and a refusal changes nothing. *)
Theorem open_blocks_until_cooldown cb u clk e :
  circuits cb !! u = Some e → state e = Open →
  ((is_allowed cb u clk).2 = true ↔
     cooldown cb ≤ duration_since (clk 1%nat) (last_state_change e)) ∧
  ((is_allowed cb u clk).2 = false → circuits (is_allowed cb u clk).1 = circuits cb).
Proof.
  intros He Hs. unfold is_allowed, entry_or_insert. rewrite He. simpl.
  unfold entry_is_allowed. rewrite Hs.
  destruct (Z.leb_spec (cooldown cb) (duration_since (clk 1%nat) (last_state_change e))); simpl.
  - split; [done|done].
  - split; [lia|]. intros _. by apply insert_id.
Qed.

Lemma open_blocks_until_cooldown_witness :
  let cb := record_failure (new 1 10 60) "a" (λ _, 0) in
  (is_allowed cb "a" (λ _, from_secs 9)).2 = false.
Proof.
  intros cb. apply not_true_is_false. intros H.
  destruct (open_blocks_until_cooldown cb "a" (λ _, from_secs 9)
              {| state := Open; failure_count := 1; last_failure := Some 0;
                 last_state_change := 0; probe_in_flight := false |}
              eq_refl eq_refl) as [Hiff _].
  apply Hiff in H. vm_compute in H. by apply H.
Defined.

(** the outcome of a probe decides the circuit: a success closes it with a
    clean count and the next request is admitted; a failure re-opens it and
    restarts the cooldown, so a request before the cooldown is refused. *)
Theorem probe_outcome_decides cb u e clk clk' :
  circuits cb !! u = Some e → state e = HalfOpen →
  (let cb1 := record_success cb u clk in
   state_of cb1 u = Closed ∧
   (∀ e1, circuits cb1 !! u = Some e1 → failure_count e1 = 0 ∧ last_failure e1 = None) ∧
   (is_allowed cb1 u clk').2 = true) ∧
  (let cb2 := record_failure cb u clk in
   state_of cb2 u = Open ∧
   (duration_since (clk' 1%nat) (clk 1%nat) < cooldown cb →
    (is_allowed cb2 u clk').2 = false)).
Proof.
  intros He Hs. unfold record_success, record_failure, state_of, is_allowed, entry_or_insert.
  rewrite He. cbn [from_option id]. unfold entry_record_success, entry_record_failure. rewrite Hs.
  rewrite !lookup_set_entry_eq. cbn. split.
  - split_and!; [done| |done]. intros e1. naive_solver.
  - split; [done|]. intros Hlt. rewrite (proj2 (Z.leb_gt _ _)) by done. done.
Qed.

Lemma probe_outcome_decides_witness :
  let cb := (is_allowed (record_failure (new 1 10 60) "a" (λ _, 0)) "a" (λ _, from_secs 11)).1 in
  (is_allowed (record_success cb "a" (λ _, from_secs 12)) "a" (λ _, from_secs 13)).2 = true ∧
  (is_allowed (record_failure cb "a" (λ _, from_secs 12)) "a" (λ _, from_secs 13)).2 = false.
Proof.
  intros cb.
  destruct (probe_outcome_decides cb "a"
              {| state := HalfOpen; failure_count := 1; last_failure := Some 0;
                 last_state_change := from_secs 11; probe_in_flight := true |}
              (λ _, from_secs 12) (λ _, from_secs 13) eq_refl eq_refl)
    as [(_ & _ & H1) (_ & H2)].
  split; [exact H1|]. apply H2. reflexivity.
Defined.

(** circuits are independent: operations on other upstreams never change
    the decision for an upstream that has an entry. *)
Theorem circuits_independent cb os u e clk :
  circuits cb !! u = Some e →
  Forall (λ o, op_upstream o ≠ u) os →
  (is_allowed (run_ops cb os) u clk).2 = (is_allowed cb u clk).2 ∧
  state_of (run_ops cb os) u = state_of cb u.
Proof.
  intros He Hos. pose proof (run_ops_other cb os u Hos) as Hl.
  pose proof (run_ops_cooldown cb os) as Hcd.
  unfold state_of, is_allowed, entry_or_insert. rewrite Hl, He, Hcd. cbn.
  by destruct (entry_is_allowed _ _ _).
Qed.

Lemma circuits_independent_witness :
  let cb := record_failure (new 1 10 60) "a" (λ _, 0) in
  state_of (run_ops cb [OpFailure "b" (λ _, 1); OpSuccess "c" (λ _, 2)]) "a" = Open.
Proof.
  intros cb.
  assert (Forall (λ o, op_upstream o ≠ "a"%string)
            [OpFailure "b" (λ _, 1); OpSuccess "c" (λ _, 2)]) as Hos.
  { repeat constructor; discriminate. }
  exact (proj2 (circuits_independent cb _ "a" _ (λ _, 0) eq_refl Hos)).
Defined.
