(* ===== verification/LoadBalancer.v ===== *)
(** * Load balancing

    Model of [proxy-core/src/load_balancer.rs].  The trait is the class
    [LoadBalancer]; the four strategies are its instances, and
    [Box<dyn LoadBalancer>] is the sum [DynLb].  A pick is a list position. *)

From S2P Require Import Prelude ConfigTypes.

Local Open Scope Z_scope.

(** ** The trait *)

Class LoadBalancer (T : Type) := {
  pick : T → list string → option string → T * nat;
  on_request_start : T → string → T;
  on_request_end : T → string → T;
}.

(** What a client may rely on, whatever the strategy: a pick from a non-empty
    list is a position of the list. *)
Class LoadBalancerOk (T : Type) `{LoadBalancer T} (wf : T → Prop) := {
  pick_bounds s servers key :
    wf s → servers ≠ [] → ((pick s servers key).2 < length servers)%nat;
  pick_wf s servers key : wf s → wf (pick s servers key).1;
  start_wf s server : wf s → wf (on_request_start s server);
  end_wf s server : wf s → wf (on_request_end s server);
}.

(** ** Round robin *)

Record RoundRobin := { rr_counter : Z }.

Definition rr_new : RoundRobin := {| rr_counter := 0 |}.

(** [AtomicUsize::fetch_add(1)] wraps around. *)
Definition fetch_add (c : Z) : Z * Z := (wrap64 (c + 1), c).

Definition rr_pick (s : RoundRobin) (servers : list string) (_ : option string)
    : RoundRobin * nat :=
  match servers with
  | [] => (s, 0%nat)
  | _ =>
      let '(c', c) := fetch_add (rr_counter s) in
      ({| rr_counter := c' |}, Z.to_nat (c `mod` Z.of_nat (length servers)))
  end.

#[export] Instance RoundRobin_lb : LoadBalancer RoundRobin := {
  pick := rr_pick;
  on_request_start s _ := s;
  on_request_end s _ := s;
}.

(** ** Least connections *)

Record LeastConnections := { connections : gmap string Z }.

Definition lc_new : LeastConnections := {| connections := ∅ |}.

(** The counter the code reads for a server: absent means 0. *)
Definition conn_count (s : LeastConnections) (server : string) : Z :=
  default 0 (connections s !! server).

(** The loop of [pick]: keeps the first position of a strictly smaller count. *)
Fixpoint lc_scan (s : LeastConnections) (i : nat) (servers : list string)
    (min_idx : nat) (min_count : Z) : nat :=
  match servers with
  | [] => min_idx
  | server :: rest =>
      let count := conn_count s server in
      if count <? min_count then lc_scan s (S i) rest i count
      else lc_scan s (S i) rest min_idx min_count
  end.

Definition lc_pick (s : LeastConnections) (servers : list string) (_ : option string)
    : LeastConnections * nat :=
  match servers with
  | [] => (s, 0%nat)
  | _ => (s, lc_scan s 0 servers 0 u32_max)
  end.

Definition lc_start (s : LeastConnections) (server : string) : LeastConnections :=
  {| connections := <[server := wrap32 (conn_count s server + 1)]> (connections s) |}.

Definition lc_end (s : LeastConnections) (server : string) : LeastConnections :=
  match connections s !! server with
  | Some c => {| connections := <[server := wrap32 (c - 1)]> (connections s) |}
  | None => s
  end.

#[export] Instance LeastConnections_lb : LoadBalancer LeastConnections := {
  pick := lc_pick;
  on_request_start := lc_start;
  on_request_end := lc_end;
}.

(** ** Hashing on a key *)

(** The 64-bit SipHash of a string: the [siphasher] crate, a parameter. *)
Class SipHasher := sip_hash : string → Z.

Inductive ConsistentHash := ConsistentHash_new.

Definition ch_pick `{SipHasher} (s : ConsistentHash) (servers : list string)
    (key : option string) : ConsistentHash * nat :=
  match servers with
  | [] => (s, 0%nat)
  | _ =>
      let key := default "default"%string key in
      (s, Z.to_nat (wrap64 (sip_hash key) `mod` Z.of_nat (length servers)))
  end.

#[export] Instance ConsistentHash_lb `{SipHasher} : LoadBalancer ConsistentHash := {
  pick := ch_pick;
  on_request_start s _ := s;
  on_request_end s _ := s;
}.

(** ** Weighted round robin *)

Record WeightedRoundRobin := { wrr_counter : Z; expanded : list nat }.

(** Position [i] is pushed [weights[i]] times. *)
Definition expand (weights : list Z) : list nat :=
  concat (imap (λ i w, replicate (Z.to_nat w) i) weights).

Definition wrr_new (weights : list Z) : WeightedRoundRobin := {|
  wrr_counter := 0;
  expanded := match expand weights with [] => [0%nat] | e => e end;
|}.

(** The modulo is by [self.expanded.len()], which [wrr_new] makes positive, and
    [self.expanded[idx]] is in range. *)
Definition wrr_pick (s : WeightedRoundRobin) (servers : list string) (_ : option string)
    : WeightedRoundRobin * nat :=
  match servers with
  | [] => (s, 0%nat)
  | _ =>
      let '(c', c) := fetch_add (wrr_counter s) in
      let idx := Z.to_nat (c `mod` Z.of_nat (length (expanded s))) in
      ({| wrr_counter := c'; expanded := expanded s |},
       (nth idx (expanded s) 0 `mod` length servers)%nat)
  end.

#[export] Instance WeightedRoundRobin_lb : LoadBalancer WeightedRoundRobin := {
  pick := wrr_pick;
  on_request_start s _ := s;
  on_request_end s _ := s;
}.

(** ** [Box<dyn LoadBalancer>] *)

Inductive DynLb :=
| DynRR (s : RoundRobin)
| DynLC (s : LeastConnections)
| DynCH (s : ConsistentHash)
| DynWRR (s : WeightedRoundRobin).

Definition create_load_balancer (strategy : LbStrategy) (weights : option (list Z)) : DynLb :=
  match strategy with
  | RoundRobinS => DynRR rr_new
  | LeastConnectionsS => DynLC lc_new
  | ConsistentHashS => DynCH ConsistentHash_new
  | WeightedRoundRobinS => DynWRR (wrr_new (default [1] weights))
  end.

Definition dyn_pick `{SipHasher} (d : DynLb) (servers : list string) (key : option string)
    : DynLb * nat :=
  match d with
  | DynRR s => let '(s', i) := pick s servers key in (DynRR s', i)
  | DynLC s => let '(s', i) := pick s servers key in (DynLC s', i)
  | DynCH s => let '(s', i) := pick s servers key in (DynCH s', i)
  | DynWRR s => let '(s', i) := pick s servers key in (DynWRR s', i)
  end.

Definition dyn_start `{SipHasher} (d : DynLb) (server : string) : DynLb :=
  match d with
  | DynRR s => DynRR (on_request_start s server)
  | DynLC s => DynLC (on_request_start s server)
  | DynCH s => DynCH (on_request_start s server)
  | DynWRR s => DynWRR (on_request_start s server)
  end.

Definition dyn_end `{SipHasher} (d : DynLb) (server : string) : DynLb :=
  match d with
  | DynRR s => DynRR (on_request_end s server)
  | DynLC s => DynLC (on_request_end s server)
  | DynCH s => DynCH (on_request_end s server)
  | DynWRR s => DynWRR (on_request_end s server)
  end.

#[export] Instance DynLb_lb `{SipHasher} : LoadBalancer DynLb := {
  pick := dyn_pick;
  on_request_start := dyn_start;
  on_request_end := dyn_end;
}.

(** [n] picks in a row from the same list. *)
Fixpoint picks `{LoadBalancer T} (n : nat) (s : T) (servers : list string)
    (key : option string) : list nat :=
  match n with
  | O => []
  | S n' => let '(s', i) := pick s servers key in i :: picks n' s' servers key
  end.

(** ** Bounds *)

Lemma Zmod_nat_bound c n : (0 < n)%nat → (Z.to_nat (c `mod` Z.of_nat n) < n)%nat.
Proof. intros Hn. pose proof (Z.mod_pos_bound c (Z.of_nat n)). lia. Qed.

Lemma length_pos_iff {A} (l : list A) : l ≠ [] ↔ (0 < length l)%nat.
Proof. destruct l; simpl; split; [done|lia|lia|done]. Qed.

#[export] Instance RoundRobin_ok : LoadBalancerOk RoundRobin (λ _, True).
Proof.
  split; [|done..]. intros s servers key _ Hne. simpl.
  destruct servers as [|x l]; [done|]. unfold rr_pick, fetch_add.
  apply Zmod_nat_bound. simpl. lia.
Qed.

Lemma lc_scan_bounds s servers i min_idx min_count :
  (min_idx < i + length servers)%nat →
  (lc_scan s i servers min_idx min_count < i + length servers)%nat.
Proof.
  revert i min_idx min_count. induction servers as [|x l IH]; intros i mi mc; simpl; [lia|].
  intros H. destruct (conn_count s x <? mc).
  - specialize (IH (S i) i (conn_count s x)). lia.
  - specialize (IH (S i) mi mc). lia.
Qed.

#[export] Instance LeastConnections_ok : LoadBalancerOk LeastConnections (λ _, True).
Proof.
  split; [|done..]. intros s servers key _ Hne. simpl.
  destruct servers as [|x l]; [done|]. apply (lc_scan_bounds s (x :: l) 0). simpl. lia.
Qed.

#[export] Instance ConsistentHash_ok `{SipHasher} : LoadBalancerOk ConsistentHash (λ _, True).
Proof.
  split; [|done..]. intros s servers key _ Hne. simpl.
  destruct servers as [|x l]; [done|]. apply Zmod_nat_bound. simpl. lia.
Qed.

#[export] Instance WeightedRoundRobin_ok :
  LoadBalancerOk WeightedRoundRobin (λ s, expanded s ≠ []).
Proof.
  split; [|by intros s [|x l] key|done..]. intros s servers key _ Hne. simpl.
  destruct servers as [|x l]; [done|]. apply Nat.mod_upper_bound. simpl. lia.
Qed.

Definition dyn_wf (d : DynLb) : Prop :=
  match d with DynWRR s => expanded s ≠ [] | _ => True end.

#[export] Instance DynLb_ok `{SipHasher} : LoadBalancerOk DynLb dyn_wf.
Proof.
  split.
  - intros [s|s|s|s] servers key Hwf Hne;
      [pose proof (pick_bounds (T:=RoundRobin) (wf:=λ _, True) s servers key I Hne) as Hb
      |pose proof (pick_bounds (T:=LeastConnections) (wf:=λ _, True) s servers key I Hne) as Hb
      |pose proof (pick_bounds (T:=ConsistentHash) (wf:=λ _, True) s servers key I Hne) as Hb
      |pose proof (pick_bounds (T:=WeightedRoundRobin) (wf:=λ s, expanded s ≠ [])
                     s servers key Hwf Hne) as Hb];
      simpl in *; by case_match.
  - intros [s|s|s|s] servers key Hwf; simpl in *; case_match eqn:E; [done..|].
    pose proof (pick_wf (T:=WeightedRoundRobin) (wf:=λ s, expanded s ≠ [])
                  s servers key Hwf) as Hb. simpl in Hb. by rewrite E in Hb.
  - by intros [s|s|s|s] server.
  - by intros [s|s|s|s] server.
Qed.

Lemma create_load_balancer_wf strategy ws : dyn_wf (create_load_balancer strategy ws).
Proof. destruct strategy; simpl; try done. by destruct (expand _). Qed.

#[export] Hint Resolve create_load_balancer_wf : trp.

(** ** Cycling through a list *)

(** [m] successive entries of [l] read cyclically from position [c]. *)
Definition cyc (l : list nat) (c : Z) (m : nat) : list nat :=
  (λ j, nth (Z.to_nat ((c + Z.of_nat j) `mod` Z.of_nat (length l))) l 0%nat) <$> seq 0 m.

Lemma rotate_indices c n :
  (0 < n)%nat →
  (λ j, Z.to_nat ((c + Z.of_nat j) `mod` Z.of_nat n)) <$> seq 0 n ≡ₚ seq 0 n.
Proof.
  intros Hn. apply submseteq_length_Permutation; [|by rewrite length_fmap].
  apply NoDup_submseteq.
  - apply NoDup_fmap_2_strong; [|apply NoDup_seq].
    intros i j Hi%elem_of_seq Hj%elem_of_seq Heq.
    pose proof (Z.mod_pos_bound (c + Z.of_nat i) (Z.of_nat n)).
    pose proof (Z.mod_pos_bound (c + Z.of_nat j) (Z.of_nat n)).
    assert ((c + Z.of_nat i) `mod` Z.of_nat n = (c + Z.of_nat j) `mod` Z.of_nat n) as Hmod by lia.
    rewrite (Z.div_mod (c + Z.of_nat i) (Z.of_nat n)) in Hmod by lia.
    pose proof (Z.div_mod (c + Z.of_nat i) (Z.of_nat n) ltac:(lia)).
    pose proof (Z.div_mod (c + Z.of_nat j) (Z.of_nat n) ltac:(lia)).
    assert ((c + Z.of_nat i) `div` Z.of_nat n = (c + Z.of_nat j) `div` Z.of_nat n) by nia.
    nia.
  - intros x (j & -> & Hj%elem_of_seq)%list_elem_of_fmap.
    apply elem_of_seq. pose proof (Zmod_nat_bound (c + Z.of_nat j) n Hn). lia.
Qed.

Lemma nth_seq_self (l : list nat) : (λ j, nth j l 0%nat) <$> seq 0 (length l) = l.
Proof.
  induction l as [|x l IH]; [done|]. simpl. f_equal.
  rewrite <- fmap_S_seq, <- list_fmap_compose. exact IH.
Qed.

Lemma cyc_once l c : l ≠ [] → cyc l c (length l) ≡ₚ l.
Proof.
  intros Hne%length_pos_iff. unfold cyc.
  pose proof (rotate_indices c (length l) Hne) as Hp.
  apply (fmap_Permutation (λ j, nth j l 0%nat)) in Hp.
  rewrite nth_seq_self, <- list_fmap_compose in Hp. exact Hp.
Qed.

Lemma cyc_add l c a b : cyc l c (a + b) = cyc l c a ++ cyc l (c + Z.of_nat a) b.
Proof.
  unfold cyc. rewrite seq_app, fmap_app. f_equal. simpl.
  rewrite <- (Nat.add_0_r a) at 1. rewrite <- fmap_add_seq, <- list_fmap_compose.
  apply list_fmap_ext. intros _ j _. simpl. do 3 f_equal. lia.
Qed.

(** A whole number of cycles contains every entry that many times. *)
Lemma cyc_count l c n x :
  l ≠ [] →
  count_occ Nat.eq_dec (cyc l c (n * length l)) x = (n * count_occ Nat.eq_dec l x)%nat.
Proof.
  intros Hne. revert c. induction n as [|n IH]; intros c; [done|].
  change (S n * length l)%nat with (length l + n * length l)%nat.
  rewrite cyc_add, count_occ_app, IH.
  rewrite (proj1 (Permutation_count_occ Nat.eq_dec _ _) (cyc_once l c Hne) x). lia.
Qed.

Lemma count_occ_seq k i : (i < k)%nat → count_occ Nat.eq_dec (seq 0 k) i = 1%nat.
Proof.
  intros Hi. apply NoDup_count_occ'; [apply NoDup_ListNoDup, NoDup_seq|].
  apply in_seq. lia.
Qed.

Lemma fetch_add_small c : 0 ≤ c → c + 1 ≤ u64_max → fetch_add c = (c + 1, c).
Proof. intros. unfold fetch_add. by rewrite wrap64_small by (unfold in_u64; lia). Qed.

Lemma rr_picks_cyc servers key n c :
  servers ≠ [] → 0 ≤ c → c + Z.of_nat n ≤ u64_max →
  picks n {| rr_counter := c |} servers key = cyc (seq 0 (length servers)) c n.
Proof.
  intros Hne. revert c. induction n as [|n IH]; intros c Hc Hb; [done|].
  change (S n) with (1 + n)%nat. rewrite cyc_add. unfold cyc at 1. simpl.
  rewrite length_seq, Z.add_0_r.
  assert (rr_pick {| rr_counter := c |} servers key =
          ({| rr_counter := c + 1 |}, Z.to_nat (c `mod` Z.of_nat (length servers)))) as ->.
  { destruct servers; [done|]. unfold rr_pick. simpl rr_counter.
    by rewrite fetch_add_small by lia. }
  rewrite IH by lia. f_equal.
  rewrite seq_nth; [done|]. apply Zmod_nat_bound. by apply length_pos_iff.
Qed.

Lemma wrr_picks_cyc servers key n c ex :
  servers ≠ [] → ex ≠ [] → 0 ≤ c → c + Z.of_nat n ≤ u64_max →
  Forall (λ i, (i < length servers)%nat) ex →
  picks n {| wrr_counter := c; expanded := ex |} servers key = cyc ex c n.
Proof.
  intros Hne Hex. revert c. induction n as [|n IH]; intros c Hc Hb HF; [done|].
  change (S n) with (1 + n)%nat. rewrite cyc_add. unfold cyc at 1. simpl.
  rewrite Z.add_0_r. set (k := Z.to_nat (c `mod` Z.of_nat (length ex))).
  assert (nth k ex 0 < length servers)%nat as Hk.
  { rewrite Forall_forall in HF. apply HF, list_elem_of_In, nth_In.
    apply Zmod_nat_bound. by apply length_pos_iff. }
  assert (wrr_pick {| wrr_counter := c; expanded := ex |} servers key =
          ({| wrr_counter := c + 1; expanded := ex |}, nth k ex 0%nat)) as ->.
  { destruct servers; [done|]. unfold wrr_pick. simpl wrr_counter.
    rewrite fetch_add_small by lia. simpl expanded. f_equal. by apply Nat.mod_small. }
  by rewrite IH by (done || lia).
Qed.

Lemma count_occ_replicate n x y :
  count_occ Nat.eq_dec (replicate n x) y = if decide (x = y) then n else 0%nat.
Proof.
  induction n as [|n IH]; simpl; [by case_decide|].
  destruct (Nat.eq_dec x y); rewrite IH; by case_decide.
Qed.

Lemma count_occ_expand_from k ws i :
  count_occ Nat.eq_dec (concat (imap (λ j w, replicate (Z.to_nat w) (k + j)%nat) ws)) (k + i)%nat =
  default 0%nat (Z.to_nat <$> ws !! i).
Proof.
  revert k i. induction ws as [|w ws IH]; intros k i; simpl; [done|].
  rewrite count_occ_app, count_occ_replicate.
  rewrite (imap_ext _ (λ j w, replicate (Z.to_nat w) (S k + j)%nat)) 
    by (intros; simpl; by rewrite Nat.add_succ_r).
  destruct i as [|i]; simpl.
  - rewrite decide_True by done. rewrite <- (Nat.add_0_r (Z.to_nat w)) at 2. f_equal.
    apply count_occ_not_In. intros (l & Hl & Hin)%in_concat.
    apply list_elem_of_In, elem_of_lookup_imap in Hl as (j & w' & -> & _).
    apply list_elem_of_In, elem_of_replicate in Hin as [? _]. lia.
  - rewrite decide_False by lia. simpl. replace (k + S i)%nat with (S k + i)%nat by lia.
    exact (IH (S k) i).
Qed.

Lemma count_occ_expand ws i :
  count_occ Nat.eq_dec (expand ws) i = default 0%nat (Z.to_nat <$> ws !! i).
Proof. apply (count_occ_expand_from 0). Qed.

Lemma expand_bounds ws : Forall (λ i, (i < length ws)%nat) (expand ws).
Proof.
  apply Forall_forall. intros i Hi. unfold expand in Hi.
  apply list_elem_of_In, in_concat in Hi as (l & Hl & Hin).
  apply list_elem_of_In, elem_of_lookup_imap in Hl as (j & w' & -> & Hj).
  apply list_elem_of_In, elem_of_replicate in Hin as [-> _]. by eapply lookup_lt_Some.
Qed.

(** ** Least connections: argmin and in-flight accounting *)

Lemma lc_scan_spec s servers pre i min_idx min_count x :
  i = length pre →
  (pre ++ servers) !! min_idx = Some x →
  min_count = conn_count s x →
  (∀ j y, pre !! j = Some y → min_count ≤ conn_count s y) →
  (∀ j y, pre !! j = Some y → (j < min_idx)%nat → min_count < conn_count s y) →
  (min_idx ≤ length pre)%nat →
  ∃ r, (pre ++ servers) !! lc_scan s i servers min_idx min_count = Some r ∧
    ∀ j y, (pre ++ servers) !! j = Some y →
      conn_count s r ≤ conn_count s y ∧
      ((j < lc_scan s i servers min_idx min_count)%nat → conn_count s r < conn_count s y).
Proof.
  revert pre i min_idx min_count x.
  induction servers as [|y l IH]; intros pre i mi mc x Hi Hx Hmc Hmin Hfst Hle; simpl.
  { exists x. split; [done|]. rewrite app_nil_r in *. intros j z Hz. subst mc. naive_solver. }
  replace (pre ++ y :: l) with ((pre ++ [y]) ++ l) in * by (by rewrite <- app_assoc).
  assert ((pre ++ [y]) !! i = Some y) as Hy.
  { subst i. by rewrite lookup_app_r, Nat.sub_diag by lia. }
  assert (∀ j z, (pre ++ [y]) !! j = Some z → (pre !! j = Some z) ∨ (j = i ∧ z = y)) as Hsplit.
  { intros j z Hz. apply lookup_app_Some in Hz as [?|[? Hz]]; [by left|right].
    apply list_lookup_singleton_Some in Hz. split; [lia|naive_solver]. }
  assert (length (pre ++ [y]) = S i) as Hlen by (rewrite length_app; simpl; lia).
  destruct (conn_count s y <? mc) eqn:Hlt; bool_to_prop.
  - apply (IH (pre ++ [y]) (S i) i _ y); [lia| |done| | |lia].
    + by rewrite lookup_app_l by lia.
    + intros j z [Hz|[-> ->]]%Hsplit; [|lia]. specialize (Hmin j z Hz). lia.
    + intros j z [Hz|[-> ->]]%Hsplit; [|lia]. specialize (Hmin j z Hz). lia.
  - apply (IH (pre ++ [y]) (S i) mi _ x); [lia|done|done| | |lia].
    + intros j z [Hz|[-> ->]]%Hsplit; [by eapply Hmin|lia].
    + intros j z [Hz|[-> ->]]%Hsplit; [by eapply Hfst|lia].
Qed.

(** The events a least-connections balancer sees, and the number of requests in
    flight for a server after a history of them. *)
Inductive lc_event := LcStart (server : string) | LcEnd (server : string).

Definition lc_apply (s : LeastConnections) (e : lc_event) : LeastConnections :=
  match e with LcStart x => on_request_start s x | LcEnd x => on_request_end s x end.

Definition lc_run (es : list lc_event) : LeastConnections := foldl lc_apply lc_new es.

Fixpoint inflight (x : string) (es : list lc_event) : Z :=
  match es with
  | [] => 0
  | LcStart y :: es' => (if decide (x = y) then 1 else 0) + inflight x es'
  | LcEnd y :: es' => (if decide (x = y) then -1 else 0) + inflight x es'
  end.

(** Every end has its start before it. *)
Definition bracketed (es : list lc_event) : Prop :=
  ∀ n x, 0 ≤ inflight x (take n es).

Lemma inflight_app x es es' : inflight x (es ++ es') = inflight x es + inflight x es'.
Proof. induction es as [|[y|y] es IH]; simpl; lia. Qed.

Lemma inflight_le x es : inflight x es ≤ Z.of_nat (length es).
Proof. induction es as [|[y|y] es IH]; simpl; [lia|case_decide; lia..]. Qed.

Lemma bracketed_prefix es e : bracketed (es ++ [e]) → bracketed es.
Proof.
  intros H n x. destruct (decide (n ≤ length es)%nat) as [Hn|Hn].
  - specialize (H n x). by rewrite take_app_le in H.
  - rewrite take_ge by lia. specialize (H (length es) x). by rewrite take_app_length in H.
Qed.

Lemma conn_count_lc_start s x y :
  conn_count (lc_start s x) y = if decide (y = x) then wrap32 (conn_count s x + 1) else conn_count s y.
Proof.
  unfold conn_count at 1, lc_start. simpl. rewrite lookup_insert.
  repeat case_decide; naive_solver.
Qed.

Lemma conn_count_lc_end s x y :
  0 < conn_count s x → conn_count s x ≤ u32_max →
  conn_count (lc_end s x) y = if decide (y = x) then conn_count s x - 1 else conn_count s y.
Proof.
  unfold conn_count, lc_end. intros Hpos Hmax.
  destruct (connections s !! x) as [c|] eqn:E; simpl in *; [|lia].
  rewrite lookup_insert. repeat case_decide; try naive_solver. simpl.
  apply wrap32_small. unfold in_u32. lia.
Qed.

Lemma conn_count_run es :
  bracketed es → Z.of_nat (length es) ≤ u32_max →
  ∀ x, conn_count (lc_run es) x = inflight x es.
Proof.
  unfold lc_run. induction es as [|e es IH] using rev_ind; [done|].
  intros Hb Hlen x. rewrite length_app in Hlen. simpl in Hlen.
  specialize (IH (bracketed_prefix _ _ Hb) ltac:(lia)).
  rewrite foldl_app, inflight_app. simpl.
  pose proof (λ y, Hb (length (es ++ [e])) y) as Hall. rewrite firstn_all in Hall.
  destruct e as [y|y]; simpl.
  - pose proof (Hb (length es) y) as Hy. rewrite take_app_length in Hy.
    pose proof (inflight_le y es).
    rewrite conn_count_lc_start, !IH. rewrite wrap32_small by (unfold in_u32; lia).
    case_decide; subst; lia.
  - specialize (Hall y). rewrite inflight_app in Hall. simpl in Hall.
    rewrite decide_True in Hall by done. pose proof (inflight_le y es).
    rewrite conn_count_lc_end by (rewrite IH; lia). rewrite !IH. case_decide; subst; lia.
Qed.

(** ** Properties *)

(** whatever the strategy and its configuration, a pick from a non-empty
    list is a valid position, after any number of earlier picks. *)
Theorem created_balancer_pick_in_bounds `{SipHasher} strategy ws n servers key i :
  servers ≠ [] →
  i ∈ picks n (create_load_balancer strategy ws) servers key →
  (i < length servers)%nat.
Proof.
  intros Hne. assert (dyn_wf (create_load_balancer strategy ws)) as Hwf by auto with trp.
  revert Hwf. generalize (create_load_balancer strategy ws) as d. intros d.
  revert d. induction n as [|n IH]; intros d Hwf; simpl; [set_solver|].
  pose proof (pick_bounds (T:=DynLb) d servers key Hwf Hne) as Hb.
  pose proof (pick_wf (T:=DynLb) d servers key Hwf) as Hw. simpl in Hb, Hw.
  destruct (dyn_pick d servers key) as [d' j]. simpl in *.
  intros [->|Hi]%elem_of_cons; [done|]. by eapply IH.
Qed.

Lemma created_balancer_pick_in_bounds_witness :
  let H : SipHasher := λ _, 12345 in
  ((picks 3 (create_load_balancer ConsistentHashS None) ["a"; "b"]%string (Some "k"%string))
     = [1; 1; 1]%nat) ∧ (1 < length ["a"; "b"]%string)%nat.
Proof.
  intros H. split; [reflexivity|].
  apply (@created_balancer_pick_in_bounds H ConsistentHashS None 3 ["a"; "b"]%string
           (Some "k"%string) 1%nat); [done|].
  change (1%nat ∈ [1; 1; 1]%nat). set_solver.
Defined.

(** round robin is fair: over any whole number of rounds each server is
    picked the same number of times, from any counter value short of the
    64-bit wrap. *)
Theorem round_robin_fair servers key c n i :
  servers ≠ [] → 0 ≤ c → c + Z.of_nat (n * length servers) ≤ u64_max →
  (i < length servers)%nat →
  count_occ Nat.eq_dec (picks (n * length servers) {| rr_counter := c |} servers key) i = n.
Proof.
  intros Hne Hc Hb Hi. rewrite rr_picks_cyc by done.
  assert (seq 0 (length servers) ≠ []) as Hs
    by (apply length_pos_iff; rewrite length_seq; by apply length_pos_iff).
  rewrite <- (length_seq (length servers) 0) at 2. rewrite cyc_count by done.
  rewrite count_occ_seq by done. lia.
Qed.

Lemma round_robin_fair_witness :
  count_occ Nat.eq_dec (picks 6 {| rr_counter := 7 |} ["a"; "b"; "c"]%string None) 2%nat = 2%nat.
Proof.
  apply (round_robin_fair ["a"; "b"; "c"]%string None 7 2%nat 2%nat);
    [done|lia|unfold u64_max; simpl; lia|simpl; lia].
Defined.

(** weighted round robin honours the weights: with one weight per server
    and at least one positive, a cycle gives each server exactly its weight. *)
Theorem weighted_round_robin_fair servers key ws n i :
  length ws = length servers → servers ≠ [] → expand ws ≠ [] →
  Z.of_nat (n * length (expand ws)) ≤ u64_max →
  count_occ Nat.eq_dec (picks (n * length (expand ws)) (wrr_new ws) servers key) i =
  (n * default 0 (Z.to_nat <$> ws !! i))%nat.
Proof.
  intros Hlen Hne Hex Hb. unfold wrr_new.
  assert ((match expand ws with [] => [0%nat] | e => e end) = expand ws) as ->
    by (by destruct (expand ws)).
  rewrite wrr_picks_cyc; try done.
  - rewrite cyc_count by done. by rewrite count_occ_expand.
  - rewrite <- Hlen. apply expand_bounds.
Qed.

Lemma weighted_round_robin_fair_witness :
  count_occ Nat.eq_dec (picks 8 (wrr_new [3; 1]) ["heavy"; "light"]%string None) 0%nat = 6%nat.
Proof.
  apply (weighted_round_robin_fair ["heavy"; "light"]%string None [3; 1] 2%nat 0%nat);
    [done|done|done|unfold u64_max; simpl; lia].
Defined.

(** least connections counts requests in flight: after any bracketed
    history of starts and ends, the pick is the first server with the fewest
    requests in flight. *)
Theorem least_connections_picks_least_loaded es servers key :
  bracketed es → Z.of_nat (length es) < u32_max → servers ≠ [] →
  ∃ x, servers !! (pick (lc_run es) servers key).2 = Some x ∧
    ∀ j y, servers !! j = Some y →
      inflight x es ≤ inflight y es ∧
      ((j < (pick (lc_run es) servers key).2)%nat → inflight x es < inflight y es).
Proof.
  intros Hb Hlen Hne. pose proof (conn_count_run es Hb ltac:(lia)) as Hcount.
  destruct servers as [|s0 l]; [done|].
  assert ((pick (lc_run es) (s0 :: l) key).2 =
          lc_scan (lc_run es) 1 l 0 (conn_count (lc_run es) s0)) as ->.
  { simpl. pose proof (inflight_le s0 es). rewrite (proj2 (Z.ltb_lt _ _)); [done|].
    rewrite Hcount. lia. }
  destruct (lc_scan_spec (lc_run es) l [s0] 1 0 (conn_count (lc_run es) s0) s0)
    as (r & Hr & Hall); [done|done|done| | |simpl; lia|].
  - intros j y Hy%list_lookup_singleton_Some. destruct Hy as [_ ->]. lia.
  - intros j y _ ?. lia.
  - exists r. split; [done|]. intros j y Hy. rewrite <- !Hcount. exact (Hall j y Hy).
Qed.

Definition lc_demo_history : list lc_event :=
  [LcStart "a"; LcStart "b"; LcStart "b"; LcEnd "a"]%string.

Lemma least_connections_picks_least_loaded_witness :
  ∃ x, ["b"; "a"; "c"]%string !! (pick (lc_run lc_demo_history) ["b"; "a"; "c"]%string None).2
         = Some x ∧ inflight x lc_demo_history ≤ 0.
Proof.
  destruct (least_connections_picks_least_loaded lc_demo_history ["b"; "a"; "c"]%string None)
    as (x & Hx & Hle).
  - intros n x. unfold lc_demo_history.
    do 5 (destruct n as [|n]; [simpl; repeat case_decide; simpl; lia|]).
    simpl. repeat case_decide; simpl; lia.
  - unfold u32_max. simpl. lia.
  - done.
  - exists x. split; [exact Hx|]. exact (proj1 (Hle 2%nat "c"%string eq_refl)).
Defined.

(** the weights are positions in the list passed to [pick], so when a
    server is filtered out the others get each other's share: with weights 1,
    1, 5 for a, b, c and a removed, b receives 6 requests of 7 and c one. *)
Theorem weights_shift_when_filtered :
  picks 7 (wrr_new [1; 1; 5]) ["b"; "c"]%string None = [0; 1; 0; 0; 0; 0; 0]%nat.
Proof. vm_compute. reflexivity. Qed.
