(* ===== verification/Toml.v ===== *)
(** * TOML values

    The [toml] crate's [Value] as an interface: the accessors the code calls.
    [toml_value] is a concrete type with those accessors, used to evaluate the
    configuration code on examples. *)

From S2P Require Import Prelude F64.

(** ** The interface *)

Class Toml := {
  tvalue : Type;
  toml_get : tvalue → string → option tvalue;
  as_table : tvalue → option (list (string * tvalue));
  as_array : tvalue → option (list tvalue);
  as_str : tvalue → option string;
  as_integer : tvalue → option Z;
  as_float : tvalue → option f64;
  as_bool : tvalue → option bool;
  empty_table : tvalue;
}.

(** [Table::get]: a table is a map, so the first entry of the key is the only one. *)
Definition table_get `{Toml} (t : list (string * tvalue)) (k : string) : option tvalue :=
  snd <$> find_first (λ e, String.eqb e.1 k) t.

(** ** A concrete type of values *)

Inductive toml_value :=
| TString (s : string)
| TInteger (z : Z)
| TFloat (f : f64)
| TBoolean (b : bool)
| TArray (l : list toml_value)
| TTable (t : list (string * toml_value)).

Definition toml_value_get (v : toml_value) (k : string) : option toml_value :=
  match v with
  | TTable t => snd <$> find_first (λ e : string * toml_value, String.eqb e.1 k) t
  | _ => None
  end.

#[export] Instance toml_value_Toml : Toml := {|
  tvalue := toml_value;
  toml_get := toml_value_get;
  as_table v := match v with TTable t => Some t | _ => None end;
  as_array v := match v with TArray l => Some l | _ => None end;
  as_str v := match v with TString s => Some s | _ => None end;
  as_integer v := match v with TInteger z => Some z | _ => None end;
  as_float v := match v with TFloat f => Some f | _ => None end;
  as_bool v := match v with TBoolean b => Some b | _ => None end;
  empty_table := TTable [];
|}.
