(* ===== verification/Json.v ===== *)
(** * JSON values

    The [Value] of the [serde_json] crate with the accessors the code calls.
    Reading and writing the text form is an interface, [SerdeJson]; its one law
    is that a string array survives being written and read.  [array_json] is a
    lawful instance that reads and writes string arrays, on which the
    properties are evaluated. *)

From S2P Require Import Prelude RustStr F64.

Local Open Scope string_scope.
Local Open Scope list_scope.

(** ** Values *)

Inductive number :=
| PosInt (n : Z)
| NegInt (n : Z)
| Float (f : f64).

(** An object has one entry per key, in the order of the keys. *)
Inductive json :=
| JNull
| JBool (b : bool)
| JNumber (n : number)
| JString (s : string)
| JArray (l : list json)
| JObject (fields : list (string * json)).

(** [Value::get] with a string index. *)
Definition json_get (v : json) (k : string) : option json :=
  match v with
  | JObject fields => snd <$> find_first (λ e : string * json, String.eqb e.1 k) fields
  | _ => None
  end.

Definition json_str (v : json) : option string :=
  match v with JString s => Some s | _ => None end.

Definition json_bool (v : json) : option bool :=
  match v with JBool b => Some b | _ => None end.

Definition json_array (v : json) : option (list json) :=
  match v with JArray l => Some l | _ => None end.

Definition json_object (v : json) : option (list (string * json)) :=
  match v with JObject fields => Some fields | _ => None end.

(** [Value::as_u64], [as_i64] and [as_f64]. *)
Definition json_u64 (v : json) : option Z :=
  match v with JNumber (PosInt n) => Some n | _ => None end.

Definition json_i64 (v : json) : option Z :=
  match v with
  | JNumber (PosInt n) => if (n <=? 9223372036854775807)%Z then Some n else None
  | JNumber (NegInt n) => Some n
  | _ => None
  end.

Definition json_f64 (v : json) : option f64 :=
  match v with
  | JNumber (PosInt n) | JNumber (NegInt n) => Some (f64_of_Z n)
  | JNumber (Float f) => Some f
  | _ => None
  end.

(** [map.insert(k, v)]: replaces the entry of [k] or adds it in order. *)
Fixpoint fields_insert (k : string) (v : json) (fields : list (string * json))
    : list (string * json) :=
  match fields with
  | [] => [(k, v)]
  | (k', v') :: rest =>
      if String.eqb k k' then (k, v) :: rest
      else if String.ltb k k' then (k, v) :: fields
      else (k', v') :: fields_insert k v rest
  end.

(** [json!({...})] with the entries of the literal. *)
Definition json_literal (entries : list (string * json)) : json :=
  JObject (foldl (λ fields e, fields_insert e.1 e.2 fields) [] entries).

Definition json_opt_str (o : option string) : json := from_option JString JNull o.

(** An [i64] as a value. *)
Definition json_of_Z (z : Z) : json := JNumber (if (0 <=? z)%Z then PosInt z else NegInt z).

Definition json_opt_Z (o : option Z) : json := from_option json_of_Z JNull o.

(** An [f64] as a value: what is not finite has no JSON form. *)
Definition json_of_f64 (f : f64) : json :=
  match f with
  | S754_nan | S754_infinity _ => JNull
  | _ => JNumber (Float f)
  end.

(** ** Text *)

Class SerdeJson := {
  json_from_str : string → option json;
  json_to_string : json → string;
}.

Section text.
Context `{SerdeJson}.

(** [serde_json::from_str::<Vec<String>>] *)
Definition strings_of_json (v : json) : option (list string) :=
  l ← json_array v;
  mapM json_str l.

Definition strings_from_str (text : string) : option (list string) :=
  v ← json_from_str text;
  strings_of_json v.

Definition strings_to_string (l : list string) : string := json_to_string (JArray (JString <$> l)).

End text.

Class SerdeJsonOk `{SerdeJson} :=
  strings_roundtrip (l : list string) :
    json_from_str (json_to_string (JArray (JString <$> l))) = Some (JArray (JString <$> l)).

(** ** Sets of strings stored as text

    [BTreeSet<String>] is an ordered list without repetition. *)

Definition set_insert (x : string) (l : list string) : list string :=
  if bool_decide (x ∈ l) then l else insert_by String.leb x l.

Definition set_of_list (l : list string) : list string := foldl (λ s x, set_insert x s) [] l.

(** ** An instance for arrays of strings *)

Definition quote_char : ascii := "034"%char.
Definition backslash : ascii := "\"%char.

Fixpoint escape (s : string) : string :=
  match s with
  | "" => String quote_char ""
  | String c s' =>
      if Ascii.eqb c quote_char || Ascii.eqb c backslash
      then String backslash (String c (escape s'))
      else String c (escape s')
  end.

(** Reads up to the closing quote: the text and what follows. *)
Fixpoint unescape (s : string) : option (string * string) :=
  match s with
  | "" => None
  | String c s' =>
      if Ascii.eqb c quote_char then Some ("", s')
      else if Ascii.eqb c backslash then
        match s' with
        | String c' s'' => '(t, rest) ← unescape s''; Some (String c' t, rest)
        | "" => None
        end
      else '(t, rest) ← unescape s'; Some (String c t, rest)
  end.

(** The rest of an array: each further element behind a comma and a quote. *)
Fixpoint read_tail (fuel : nat) (s : string) : option (list string) :=
  match fuel with
  | O => None
  | S fuel' =>
      if String.eqb s "]" then Some []
      else
        s' ← strip_prefix (String "," (String quote_char "")) s;
        '(t, rest) ← unescape s';
        cons t <$> read_tail fuel' rest
  end.

Fixpoint write_tail (l : list string) : string :=
  match l with
  | [] => "]"
  | x :: l' => String "," (String quote_char (escape x +:+ write_tail l'))
  end.

Definition read_array (s : string) : option (list string) :=
  s' ← strip_prefix "[" s;
  if String.eqb s' "]" then Some []
  else read_tail (S (String.length s')) (String "," s').

Definition write_array (l : list string) : string :=
  match l with
  | [] => "[]"
  | x :: l' => String "[" (String quote_char (escape x +:+ write_tail l'))
  end.

#[export] Instance array_json : SerdeJson := {|
  json_from_str s := (λ l, JArray (JString <$> l)) <$> read_array s;
  json_to_string v := from_option write_array "null" (strings_of_json v);
|}.

Lemma unescape_escape x rest : unescape (escape x +:+ rest) = Some (x, rest).
Proof.
  induction x as [|c x IH]; simpl; [done|].
  destruct (Ascii.eqb c quote_char) eqn:Eq; simpl.
  { by rewrite IH. }
  destruct (Ascii.eqb c backslash) eqn:Eb; simpl; [by rewrite IH|].
  rewrite Eq, Eb. by rewrite IH.
Qed.

Lemma read_write_tail l fuel :
  (String.length (write_tail l) ≤ fuel)%nat → read_tail fuel (write_tail l) = Some l.
Proof.
  revert fuel. induction l as [|x l IH]; intros [|fuel] Hf; simpl in *; try lia; [done|].
  rewrite str_length_app in Hf. rewrite unescape_escape. simpl. by rewrite IH by lia.
Qed.

Lemma read_write_array l : read_array (write_array l) = Some l.
Proof.
  destruct l as [|x l]; [done|]. unfold read_array, write_array.
  change (strip_prefix "[" (String "[" (String quote_char (escape x +:+ write_tail l))))
    with (Some (String quote_char (escape x +:+ write_tail l))). cbn [mbind option_bind].
  rewrite (proj2 (String.eqb_neq _ "]")) by done. apply (read_write_tail (x :: l)).
  simpl. lia.
Qed.

Lemma strings_of_json_strings l : strings_of_json (JArray (JString <$> l)) = Some l.
Proof.
  unfold strings_of_json. simpl. apply mapM_Some. rewrite Forall2_fmap_l. by apply Forall_Forall2_diag, Forall_true.
Qed.

#[export] Instance array_json_ok : SerdeJsonOk.
Proof.
  intros l. unfold json_from_str, json_to_string, array_json.
  rewrite strings_of_json_strings. simpl. by rewrite read_write_array.
Qed.

(** *** Lemmas on sets of strings *)

Lemma set_insert_elem x y l : y ∈ set_insert x l ↔ y = x ∨ y ∈ l.
Proof.
  unfold set_insert. case_bool_decide; [naive_solver|].
  rewrite insert_by_perm. apply elem_of_cons.
Qed.

Lemma set_of_list_elem y l : y ∈ set_of_list l ↔ y ∈ l.
Proof.
  unfold set_of_list. induction l as [|x l IH] using rev_ind; [done|].
  rewrite foldl_app. simpl. rewrite set_insert_elem, IH. set_solver.
Qed.
