(* ===== verification/Sql.v ===== *)
(** * SQL statements over tables

    The stores run their statements over a connection pool of the [sqlx] crate.
    A database is its tables, indexed by primary key, and the outcome of the
    statements to come; a statement is what it does to the tables and the rows
    or the count it answers.  A statement the database refuses changes
    nothing. *)

From S2P Require Import Prelude RecordSet RustStr.

Local Open Scope string_scope.
Local Open Scope list_scope.
Local Open Scope rust_scope.

Inductive StoreError :=
| Db (msg : string)
| Other (msg : string).

Section database.
Context {T : Type}.

(** [Some msg] in [db_faults] when the database refuses the next statement. *)
Record SqlDb := {
  db_tables : T;
  db_faults : list (option string);
}.

#[global] Instance SqlDb_set : Settable SqlDb := λ s,
  {| db_tables := db_tables s; db_faults := db_faults s |}.

(** Runs one statement: its effect on the tables and its rows or its count. *)
Definition execute {A} (s : SqlDb) (stmt : T → T * A) : SqlDb * result StoreError A :=
  match db_faults s with
  | Some msg :: fs => (s <| db_faults := fs |>, Err (Db msg))
  | fs =>
      let '(t, a) := stmt (db_tables s) in
      (s <| db_tables := t |> <| db_faults := tail fs |>, Ok a)
  end.

Lemma execute_cases {A} (s s' : SqlDb) (stmt : T → T * A) r :
  execute s stmt = (s', r) →
  match r with
  | Ok a => db_tables s' = (stmt (db_tables s)).1 ∧ a = (stmt (db_tables s)).2
  | Err _ => db_tables s' = db_tables s
  end.
Proof.
  unfold execute. destruct (stmt (db_tables s)) as [t a].
  destruct (db_faults s) as [|[m|] fs]; intros [= <- <-]; done.
Qed.

(** A query leaves the tables alone and answers the rows it asked for. *)
Lemma execute_select {A} (s s' : SqlDb) (q : T → A) r :
  execute s (λ t, (t, q t)) = (s', r) →
  db_tables s' = db_tables s ∧ ∀ l, r = Ok l → l = q (db_tables s).
Proof. intros E. apply execute_cases in E. destruct r; [naive_solver|done]. Qed.

Lemma execute_write (s s' : SqlDb) (w : T → T) r :
  execute s (λ t, (w t, ())) = (s', r) →
  db_tables s' = match r with Ok _ => w (db_tables s) | Err _ => db_tables s end.
Proof. intros E. apply execute_cases in E. destruct r; naive_solver. Qed.

End database.
Arguments SqlDb T : clear implicits.

(** ** Rows *)

Lemma filter_all {A} (l : list A) : filter (λ _, true = true) l = l.
Proof. induction l as [|x l IH]; [done|]. rewrite filter_cons_True by done. by rewrite IH. Qed.

Lemma filter_ext {A} (P Q : A → Prop) `{∀ x, Decision (P x)} `{∀ x, Decision (Q x)} (l : list A) :
  (∀ x, P x ↔ Q x) → filter P l = filter Q l.
Proof. intros HPQ. induction l as [|x l IH]; [done|]. rewrite !filter_cons, IH. by rewrite (decide_ext _ _ _ _ (HPQ x)). Qed.

Section rows.
Context `{Countable K} {A : Type}.

Definition rows (m : gmap K A) : list A := (map_to_list m).*2.

(** [SELECT ... WHERE want ORDER BY key] *)
Definition select (key : A → string) (want : A → bool) (m : gmap K A) : list A :=
  sort_by (λ x y, String.leb (key x) (key y)) (filter (λ x, want x = true) (rows m)).

(** [result.rows_affected() > 0] of a delete by primary key. *)
Definition affected (k : K) (m : gmap K A) : bool := bool_decide (is_Some (m !! k)).

Lemma select_perm (key : A → string) want (m : gmap K A) :
  select key want m ≡ₚ filter (λ x, want x = true) (rows m).
Proof. apply sort_by_perm. Qed.

Lemma rows_insert_new (m : gmap K A) k x :
  m !! k = None → rows (<[k := x]> m) ≡ₚ x :: rows m.
Proof. intros Hk. unfold rows. by rewrite map_to_list_insert. Qed.

Lemma rows_delete (m : gmap K A) k x :
  m !! k = Some x → rows m ≡ₚ x :: rows (delete k m).
Proof. intros Hk. unfold rows. by rewrite <-(map_to_list_delete m k x). Qed.

Lemma elem_of_rows (m : gmap K A) x : x ∈ rows m ↔ ∃ k, m !! k = Some x.
Proof.
  unfold rows. rewrite list_elem_of_fmap. split.
  - intros ([k y] & -> & Hk%elem_of_map_to_list). by exists k.
  - intros [k Hk]. exists (k, x). by rewrite elem_of_map_to_list.
Qed.

(** *** Rows filed under their key *)

Definition filed (key : A → K) (m : gmap K A) : Prop := map_Forall (λ k x, key x = k) m.

Lemma elem_of_rows_filed key m x : filed key m → x ∈ rows m ↔ m !! key x = Some x.
Proof.
  intros Hm. rewrite elem_of_rows. split; [|by eauto]. intros [k Hk]. by rewrite (Hm k x Hk).
Qed.

Lemma rows_NoDup key m : filed key m → NoDup (key <$> rows m).
Proof.
  intros Hm. assert (key <$> rows m = (map_to_list m).*1) as ->; [|apply NoDup_fst_map_to_list].
  unfold rows. assert (∀ l : list (K * A), Forall (λ p, key p.2 = p.1) l → key <$> l.*2 = l.*1) as Hl.
  { induction l as [|[k x] l IH]; intros Hf; [done|]. apply Forall_cons in Hf as [Hx Hf].
    by apply (f_equal2 cons); [|apply IH]. }
  apply Hl, Forall_forall. intros [k x] Hk%elem_of_map_to_list. by apply Hm.
Qed.

Lemma insert_rows_lookup (key : A → K) l (m0 : gmap K A) k x : NoDup (key <$> l) →
  foldl (λ m r, <[key r := r]> m) m0 l !! k = Some x ↔
  x ∈ l ∧ key x = k ∨ m0 !! k = Some x ∧ ∀ y, y ∈ l → key y ≠ k.
Proof.
  revert m0. induction l as [|r l IH]; intros m0; simpl; [set_solver|].
  rewrite NoDup_cons, list_elem_of_fmap. intros [Hr Hnd]. rewrite IH by done.
  destruct (decide (key r = k)) as [<-|Hne].
  - rewrite lookup_insert_eq. set_solver.
  - rewrite lookup_insert_ne by done. set_solver.
Qed.

(** Reading every row into a map gives the table. *)
Lemma insert_all_rows key (m : gmap K A) l : filed key m → l ≡ₚ rows m →
  foldl (λ m r, <[key r := r]> m) (∅ : gmap K A) l = m.
Proof.
  intros Hm Hp. apply map_eq. intros k. apply option_eq. intros x.
  rewrite insert_rows_lookup by (rewrite Hp; by apply rows_NoDup). rewrite lookup_empty, Hp.
  rewrite elem_of_rows_filed by done. split; [by intros [[Hx <-]|[? _]]|].
  intros Hx. left. by rewrite (Hm k x Hx).
Qed.

End rows.
