(* ===== verification/AuthStore.v ===== *)
(** * Store of the authentication service

    Model of [proxy-auth/src/store]: the four kinds of records, the trait
    [AuthStore] as an interface with its contract, and the SQLite
    implementation, whose statements are interpreted over tables indexed by
    their primary keys.  Every statement may fail; a failed statement changes
    nothing. *)

From S2P Require Import Prelude RecordSet RustStr Sql.

Local Open Scope string_scope.
Local Open Scope list_scope.
Local Open Scope rust_scope.

(** ** Records *)

Record ProjectRecord := {
  pr_project_id : string;
  pr_name : string;
  pr_description : option string;
  pr_active : bool;
  pr_created_at : string;
}.

Record PrincipalRecord := {
  pn_principal_id : string;
  pn_name : string;
  pn_active : bool;
  pn_created_at : string;
}.

Record TokenRecord := {
  tk_token_hash : string;
  tk_principal_id : string;
  tk_name : string;
  tk_active : bool;
  tk_created_at : string;
}.

Record RoleBindingRecord := {
  rb_binding_id : string;
  rb_principal_id : string;
  rb_role : string;
  rb_project_id : option string;
  rb_created_at : string;
}.

#[export] Instance RoleBindingRecord_eq_dec : EqDecision RoleBindingRecord.
Proof. solve_decision. Defined.

(** ** The trait *)

(** An operation reads and changes the store and answers or fails. *)
Class AuthStore (St : Type) := {
  get_all_projects : St → St * result StoreError (list ProjectRecord);
  upsert_project : St → ProjectRecord → St * result StoreError ();
  delete_project : St → string → St * result StoreError bool;
  get_all_principals : St → St * result StoreError (list PrincipalRecord);
  upsert_principal : St → PrincipalRecord → St * result StoreError ();
  delete_principal : St → string → St * result StoreError bool;
  get_all_tokens : St → option string → St * result StoreError (list TokenRecord);
  upsert_token : St → TokenRecord → St * result StoreError ();
  delete_token : St → string → St * result StoreError bool;
  get_role_bindings :
    St → option string → option string → St * result StoreError (list RoleBindingRecord);
  upsert_role_binding : St → RoleBindingRecord → St * result StoreError ();
  delete_role_binding : St → string → St * result StoreError bool;
}.

(** What a store holds: one row per primary key. *)
Record AuthTables := {
  auth_projects : gmap string ProjectRecord;
  auth_principals : gmap string PrincipalRecord;
  auth_tokens : gmap string TokenRecord;
  auth_role_bindings : gmap string RoleBindingRecord;
}.

#[export] Instance AuthTables_set : Settable AuthTables := λ t,
  {| auth_projects := auth_projects t; auth_principals := auth_principals t;
     auth_tokens := auth_tokens t; auth_role_bindings := auth_role_bindings t |}.

(** Optional equality conditions of a query. *)
Definition matches_opt (want : option string) (have : option string) : bool :=
  match want with Some w => bool_decide (have = Some w) | None => true end.

(** The contract the service relies on.  [tables] is what the store holds. *)
Class AuthStoreOk (St : Type) `{AuthStore St} := {
  tables : St → AuthTables;
  query_projects st st' r : get_all_projects st = (st', r) →
    tables st' = tables st ∧ ∀ l, r = Ok l → l ≡ₚ rows (auth_projects (tables st));
  query_principals st st' r : get_all_principals st = (st', r) →
    tables st' = tables st ∧ ∀ l, r = Ok l → l ≡ₚ rows (auth_principals (tables st));
  query_tokens st p st' r : get_all_tokens st p = (st', r) →
    tables st' = tables st ∧ ∀ l, r = Ok l →
      l ≡ₚ filter (λ t, matches_opt p (Some (tk_principal_id t)) = true)
             (rows (auth_tokens (tables st)));
  query_bindings st p q st' r : get_role_bindings st p q = (st', r) →
    tables st' = tables st ∧ ∀ l, r = Ok l →
      l ≡ₚ filter (λ b, matches_opt p (Some (rb_principal_id b)) = true ∧
                        matches_opt q (rb_project_id b) = true)
             (rows (auth_role_bindings (tables st)));
  write_project st p st' r : upsert_project st p = (st', r) →
    tables st' = match r with
      | Ok _ => tables st <| auth_projects := <[pr_project_id p := p]> (auth_projects (tables st)) |>
      | Err _ => tables st
      end;
  write_principal st p st' r : upsert_principal st p = (st', r) →
    tables st' = match r with
      | Ok _ => tables st <| auth_principals := <[pn_principal_id p := p]> (auth_principals (tables st)) |>
      | Err _ => tables st
      end;
  write_token st t st' r : upsert_token st t = (st', r) →
    tables st' = match r with
      | Ok _ => tables st <| auth_tokens := <[tk_token_hash t := t]> (auth_tokens (tables st)) |>
      | Err _ => tables st
      end;
  write_binding st b st' r : upsert_role_binding st b = (st', r) →
    tables st' = match r with
      | Ok _ => tables st <| auth_role_bindings := <[rb_binding_id b := b]> (auth_role_bindings (tables st)) |>
      | Err _ => tables st
      end;
  remove_project st k st' r : delete_project st k = (st', r) →
    match r with
    | Ok found => tables st' = tables st <| auth_projects := delete k (auth_projects (tables st)) |> ∧
                  found = bool_decide (is_Some (auth_projects (tables st) !! k))
    | Err _ => tables st' = tables st
    end;
  remove_principal st k st' r : delete_principal st k = (st', r) →
    match r with
    | Ok found => tables st' = tables st <| auth_principals := delete k (auth_principals (tables st)) |> ∧
                  found = bool_decide (is_Some (auth_principals (tables st) !! k))
    | Err _ => tables st' = tables st
    end;
  remove_token st k st' r : delete_token st k = (st', r) →
    match r with
    | Ok found => tables st' = tables st <| auth_tokens := delete k (auth_tokens (tables st)) |> ∧
                  found = bool_decide (is_Some (auth_tokens (tables st) !! k))
    | Err _ => tables st' = tables st
    end;
  remove_role_binding st k st' r : delete_role_binding st k = (st', r) →
    match r with
    | Ok found => tables st' = tables st <| auth_role_bindings := delete k (auth_role_bindings (tables st)) |> ∧
                  found = bool_decide (is_Some (auth_role_bindings (tables st) !! k))
    | Err _ => tables st' = tables st
    end;
}.

(** ** The SQLite implementation *)

Definition SqliteStore : Type := SqlDb AuthTables.

Definition sqlite_get_all_projects (s : SqliteStore) :=
  execute s (λ t, (t, select pr_project_id (λ _, true) (auth_projects t))).

Definition sqlite_upsert_project (s : SqliteStore) (r : ProjectRecord) :=
  execute s (λ t, (t <| auth_projects := <[pr_project_id r := r]> (auth_projects t) |>, ())).

Definition sqlite_delete_project (s : SqliteStore) (k : string) :=
  execute s (λ t, (t <| auth_projects := delete k (auth_projects t) |>, affected k (auth_projects t))).

Definition sqlite_get_all_principals (s : SqliteStore) :=
  execute s (λ t, (t, select pn_principal_id (λ _, true) (auth_principals t))).

Definition sqlite_upsert_principal (s : SqliteStore) (r : PrincipalRecord) :=
  execute s (λ t, (t <| auth_principals := <[pn_principal_id r := r]> (auth_principals t) |>, ())).

Definition sqlite_delete_principal (s : SqliteStore) (k : string) :=
  execute s (λ t, (t <| auth_principals := delete k (auth_principals t) |>,
                   affected k (auth_principals t))).

(** The [WHERE] clause is there when an argument is. *)
Definition sqlite_get_all_tokens (s : SqliteStore) (principal_id : option string) :=
  execute s (λ t, (t, select tk_token_hash
    (λ r, matches_opt principal_id (Some (tk_principal_id r))) (auth_tokens t))).

Definition sqlite_upsert_token (s : SqliteStore) (r : TokenRecord) :=
  execute s (λ t, (t <| auth_tokens := <[tk_token_hash r := r]> (auth_tokens t) |>, ())).

Definition sqlite_delete_token (s : SqliteStore) (k : string) :=
  execute s (λ t, (t <| auth_tokens := delete k (auth_tokens t) |>, affected k (auth_tokens t))).

Definition sqlite_get_role_bindings (s : SqliteStore) (principal_id project_id : option string) :=
  execute s (λ t, (t, select rb_binding_id
    (λ b, matches_opt principal_id (Some (rb_principal_id b))
          && matches_opt project_id (rb_project_id b)) (auth_role_bindings t))).

Definition sqlite_upsert_role_binding (s : SqliteStore) (r : RoleBindingRecord) :=
  execute s (λ t, (t <| auth_role_bindings := <[rb_binding_id r := r]> (auth_role_bindings t) |>, ())).

Definition sqlite_delete_role_binding (s : SqliteStore) (k : string) :=
  execute s (λ t, (t <| auth_role_bindings := delete k (auth_role_bindings t) |>,
                   affected k (auth_role_bindings t))).

#[export] Instance SqliteStore_AuthStore : AuthStore SqliteStore := {|
  get_all_projects := sqlite_get_all_projects;
  upsert_project := sqlite_upsert_project;
  delete_project := sqlite_delete_project;
  get_all_principals := sqlite_get_all_principals;
  upsert_principal := sqlite_upsert_principal;
  delete_principal := sqlite_delete_principal;
  get_all_tokens := sqlite_get_all_tokens;
  upsert_token := sqlite_upsert_token;
  delete_token := sqlite_delete_token;
  get_role_bindings := sqlite_get_role_bindings;
  upsert_role_binding := sqlite_upsert_role_binding;
  delete_role_binding := sqlite_delete_role_binding;
|}.

(** ** The implementation meets the contract *)

#[export] Instance SqliteStore_ok : AuthStoreOk SqliteStore.
Proof.
  refine {| tables := db_tables (T := AuthTables) |}; intros.
  1-4: match goal with E : _ = _ |- _ => apply execute_select in E; destruct E as [HE1 HE2] end;
    split; [exact HE1|]; intros l ->; rewrite (HE2 l eq_refl), select_perm.
  - by rewrite filter_all.
  - by rewrite filter_all.
  - done.
  - erewrite filter_ext; [reflexivity|]. intros b. by rewrite andb_true_iff.
  - by eapply execute_write.
  - by eapply execute_write.
  - by eapply execute_write.
  - by eapply execute_write.
  - apply execute_cases in H. by destruct r.
  - apply execute_cases in H. by destruct r.
  - apply execute_cases in H. by destruct r.
  - apply execute_cases in H. by destruct r.
Defined.
