(* ===== verification/Auth.v ===== *)
(** * The authentication service

    Model of [proxy-auth/src/service.rs]: roles and permissions, the contexts
    that authentication yields, the service with its caches over a store, and
    the authoriser.  The store is the interface of [AuthStore.v]; the token
    digest (SHA-256 in hexadecimal), the random bytes and the clock are
    parameters. *)

From S2P Require Import Prelude RecordSet StateResult RustStr ConfigSurfaces Sql AuthStore.

Local Open Scope string_scope.
Local Open Scope list_scope.
Local Open Scope rust_scope.

(** ** Roles and permissions *)

Inductive Role :=
| InstanceAdmin
| ProjectAdmin
| ProjectOperator
| ProjectViewer
| ProjectRuntime.

#[export] Instance Role_eq_dec : EqDecision Role.
Proof. solve_decision. Defined.

Definition role_all : list Role :=
  [InstanceAdmin; ProjectAdmin; ProjectOperator; ProjectViewer; ProjectRuntime].

Definition role_as_str (r : Role) : string :=
  match r with
  | InstanceAdmin => "instance_admin"
  | ProjectAdmin => "project_admin"
  | ProjectOperator => "project_operator"
  | ProjectViewer => "project_viewer"
  | ProjectRuntime => "project_runtime"
  end.

Definition role_parse (value : string) : option Role :=
  match_str [("instance_admin", InstanceAdmin); ("project_admin", ProjectAdmin);
             ("project_operator", ProjectOperator); ("project_viewer", ProjectViewer);
             ("project_runtime", ProjectRuntime)] value.

Inductive Permission :=
| ViewStatus | ViewProjects | ManageProjects | ViewPrincipals | ManagePrincipals
| ViewRoleBindings | ManageRoleBindings | ViewRuntimeKeys | ManageRuntimeKeys
| ViewProjectPolicy | ManageProjectPolicy | ViewRoutingRules | ManageRoutingRules
| ViewUsage | ManageUsage | ViewLogs | ViewProviders | ManageProviders
| ViewRateLimiter | ViewModelCosts | ManageModelCosts | InvokeInference.

#[export] Instance Permission_eq_dec : EqDecision Permission.
Proof. solve_decision. Defined.

Definition permission_all : list Permission :=
  [ViewStatus; ViewProjects; ManageProjects; ViewPrincipals; ManagePrincipals;
   ViewRoleBindings; ManageRoleBindings; ViewRuntimeKeys; ManageRuntimeKeys;
   ViewProjectPolicy; ManageProjectPolicy; ViewRoutingRules; ManageRoutingRules;
   ViewUsage; ManageUsage; ViewLogs; ViewProviders; ManageProviders;
   ViewRateLimiter; ViewModelCosts; ManageModelCosts; InvokeInference].

Definition permission_as_str (p : Permission) : string :=
  match p with
  | ViewStatus => "view_status"
  | ViewProjects => "view_projects"
  | ManageProjects => "manage_projects"
  | ViewPrincipals => "view_principals"
  | ManagePrincipals => "manage_principals"
  | ViewRoleBindings => "view_role_bindings"
  | ManageRoleBindings => "manage_role_bindings"
  | ViewRuntimeKeys => "view_runtime_keys"
  | ManageRuntimeKeys => "manage_runtime_keys"
  | ViewProjectPolicy => "view_project_policy"
  | ManageProjectPolicy => "manage_project_policy"
  | ViewRoutingRules => "view_routing_rules"
  | ManageRoutingRules => "manage_routing_rules"
  | ViewUsage => "view_usage"
  | ManageUsage => "manage_usage"
  | ViewLogs => "view_logs"
  | ViewProviders => "view_providers"
  | ManageProviders => "manage_providers"
  | ViewRateLimiter => "view_rate_limiter"
  | ViewModelCosts => "view_model_costs"
  | ManageModelCosts => "manage_model_costs"
  | InvokeInference => "invoke_inference"
  end.

Definition role_allows (r : Role) (p : Permission) : bool :=
  match r with
  | InstanceAdmin => true
  | ProjectAdmin =>
      match p with
      | ViewStatus | ViewProjects | ViewPrincipals | ViewRoleBindings | ManagePrincipals
      | ManageRoleBindings | ViewRuntimeKeys | ManageRuntimeKeys | ViewProjectPolicy
      | ManageProjectPolicy | ViewRoutingRules | ManageRoutingRules | ViewUsage | ManageUsage
      | ViewLogs | ViewProviders | ManageProviders | ViewRateLimiter | ViewModelCosts
      | ManageModelCosts => true
      | _ => false
      end
  | ProjectOperator =>
      match p with
      | ViewStatus | ViewProjects | ViewRuntimeKeys | ManageRuntimeKeys | ViewProjectPolicy
      | ManageProjectPolicy | ViewRoutingRules | ManageRoutingRules | ViewUsage | ManageUsage
      | ViewLogs | ViewProviders | ManageProviders | ViewRateLimiter | ViewModelCosts => true
      | _ => false
      end
  | ProjectViewer =>
      match p with
      | ViewStatus | ViewProjects | ViewRuntimeKeys | ViewProjectPolicy | ViewRoutingRules
      | ViewUsage | ViewLogs | ViewProviders | ViewRateLimiter | ViewModelCosts => true
      | _ => false
      end
  | ProjectRuntime => bool_decide (p = InvokeInference)
  end.

Definition role_permissions (r : Role) : list Permission :=
  filter (λ p, role_allows r p = true) permission_all.

(** ** Contexts *)

Definition ProjectId := string.
Definition PrincipalId := string.

Inductive AuthSource := Bootstrap | ControlPlaneToken | RuntimeKey.

Record RoleAssignment := {
  ra_role : Role;
  ra_project_id : option ProjectId;
}.

#[export] Instance RoleAssignment_eq_dec : EqDecision RoleAssignment.
Proof. solve_decision. Defined.

Record AuthContext := {
  ac_principal_id : PrincipalId;
  ac_source : AuthSource;
  ac_assignments : list RoleAssignment;
}.

(** [AuthContext::runtime] *)
Definition auth_context_runtime (project_id runtime_key_id : string) : AuthContext :=
  {| ac_principal_id := runtime_key_id;
     ac_source := RuntimeKey;
     ac_assignments := [{| ra_role := ProjectRuntime; ra_project_id := Some project_id |}] |}.

Definition resolved_project (ctx : AuthContext) : option ProjectId :=
  head (omap ra_project_id (ac_assignments ctx)).

(** The permissions that a project-scoped role does not have without a project. *)
Definition instance_only (p : Permission) : bool :=
  match p with
  | ManageProjects | ManagePrincipals | ManageRoleBindings => true
  | _ => false
  end.

(** The body of the loop of [is_allowed], for one assignment. *)
Definition assignment_allows (p : Permission) (project_id : option ProjectId) (a : RoleAssignment)
    : bool :=
  if bool_decide (ra_role a = InstanceAdmin) then true
  else
    match project_id with
    | Some target =>
        if bool_decide (ra_project_id a ≠ Some target) then false else role_allows (ra_role a) p
    | None =>
        if bool_decide (is_Some (ra_project_id a)) && instance_only p then false
        else role_allows (ra_role a) p
    end.

(** [Authorizer::is_allowed] *)
Definition is_allowed (ctx : AuthContext) (p : Permission) (project_id : option ProjectId) : bool :=
  existsb (assignment_allows p project_id) (ac_assignments ctx).

(** ** Identifiers *)

(** The digest [hex(sha256(token))]. *)
Class TokenDigest := hash_token : string → string.

(** [hex::encode] *)
Definition hex_nibble (d : Z) : ascii :=
  default "0"%char (String.get (Z.to_nat d) "0123456789abcdef").

Definition hex_encode (bytes : list Z) : string :=
  foldr (λ b s, String (hex_nibble (b `div` 16)) (String (hex_nibble (b `mod` 16)) s)) "" bytes.

Definition generate_id (prefix : string) (random_bytes : list Z) : string :=
  prefix +:+ "-" +:+ hex_encode random_bytes.

Definition generate_plaintext_token (random_bytes : list Z) : string :=
  "sk-ctrl-" +:+ hex_encode random_bytes.

(** The seconds since the epoch; [None] when the clock is before it. *)
Definition current_timestamp_string (now : option Z) : string :=
  match now with Some secs => pretty secs | None => "0" end.

(** ** The service *)

Section service.
Context {St : Type} `{AuthStore St} `{TokenDigest}.

Record AuthService := {
  store : option St;
  bootstrap_token : option string;
  projects : gmap string ProjectRecord;
  principals : gmap string PrincipalRecord;
  tokens : gmap string TokenRecord;
  bindings : gmap string (list RoleBindingRecord);
}.

#[global] Instance AuthService_set : Settable AuthService := λ s,
  {| store := store s; bootstrap_token := bootstrap_token s; projects := projects s;
     principals := principals s; tokens := tokens s; bindings := bindings s |}.

Definition auth_new (store : option St) (bootstrap_token : option string) : AuthService :=
  {| store := store; bootstrap_token := bootstrap_token;
     projects := ∅; principals := ∅; tokens := ∅; bindings := ∅ |}.

Notation Op A := (ST AuthService StoreError A).

(** [if let Some(store) = &self.store { store.op(...).await? }] *)
Definition with_store {A} (op : ST St StoreError A) : Op (option A) := λ s,
  match store s with
  | Some st => let '(st', r) := op st in (s <| store := Some st' |>, result_map Some r)
  | None => (s, Ok None)
  end.

Definition cache_project (r : ProjectRecord) : Op () :=
  st_modify (λ s, s <| projects := <[pr_project_id r := r]> (projects s) |>).

Definition cache_principal (r : PrincipalRecord) : Op () :=
  st_modify (λ s, s <| principals := <[pn_principal_id r := r]> (principals s) |>).

Definition cache_token (r : TokenRecord) : Op () :=
  st_modify (λ s, s <| tokens := <[tk_token_hash r := r]> (tokens s) |>).

(** [self.bindings.entry(principal).or_default().push(binding)] *)
Definition cache_binding (b : RoleBindingRecord) : Op () :=
  st_modify (λ s, s <| bindings :=
    <[rb_principal_id b := default [] (bindings s !! rb_principal_id b) ++ [b]]> (bindings s) |>).

(** One query of the reload; the caches are filled from its rows. *)
Definition reload_rows {A} (query : ST St StoreError (list A)) (cache : A → Op ()) : Op () :=
  rows ← with_store query;
  st_for (default [] rows) cache.

Definition clear_caches : Op () :=
  st_modify (λ s, s <| projects := ∅ |> <| principals := ∅ |> <| tokens := ∅ |> <| bindings := ∅ |>).

Definition auth_load_from_store : Op () :=
  s ← st_get;
  match store s with
  | None => mret ()
  | Some _ =>
      _ ← clear_caches;
      _ ← reload_rows get_all_projects cache_project;
      _ ← reload_rows get_all_principals cache_principal;
      _ ← reload_rows (λ st, get_all_tokens st None) cache_token;
      reload_rows (λ st, get_role_bindings st None None) cache_binding
  end.

Definition new_project (project_id name : string) (description : option string) (now : option Z)
    : ProjectRecord :=
  {| pr_project_id := project_id; pr_name := name; pr_description := description;
     pr_active := true; pr_created_at := current_timestamp_string now |}.

Definition auth_upsert_project (record : ProjectRecord) : Op () :=
  _ ← with_store (λ st, upsert_project st record);
  cache_project record.

Definition auth_ensure_project (project_id name : string) (description : option string)
    (now : option Z) : Op () :=
  s ← st_get;
  if bool_decide (is_Some (projects s !! project_id)) then mret ()
  else auth_upsert_project (new_project project_id name description now).

Definition auth_create_project (project_id name : string) (description : option string)
    (now : option Z) : Op ProjectRecord :=
  let record := new_project project_id name description now in
  _ ← auth_upsert_project record;
  mret record.

(** With a store its answer is returned, without one the cache's. *)
Definition auth_delete_project (project_id : string) : Op bool :=
  s ← st_get;
  deleted ← with_store (λ st, delete_project st project_id);
  _ ← st_modify (λ s, s <| projects := delete project_id (projects s) |>);
  mret (default (bool_decide (is_Some (projects s !! project_id))) deleted).

Definition auth_upsert_principal (record : PrincipalRecord) : Op () :=
  _ ← with_store (λ st, upsert_principal st record);
  cache_principal record.

Definition auth_create_principal (name : string) (random_bytes : list Z) (now : option Z)
    : Op PrincipalRecord :=
  let record := {| pn_principal_id := generate_id "prn" random_bytes; pn_name := name;
                   pn_active := true; pn_created_at := current_timestamp_string now |} in
  _ ← auth_upsert_principal record;
  mret record.

Definition auth_delete_principal (principal_id : string) : Op bool :=
  s ← st_get;
  deleted ← with_store (λ st, delete_principal st principal_id);
  _ ← st_modify (λ s, s <| principals := delete principal_id (principals s) |>
                        <| bindings := delete principal_id (bindings s) |>);
  mret (default (bool_decide (is_Some (principals s !! principal_id))) deleted).

Definition auth_create_token (principal_id name : string) (random_bytes : list Z) (now : option Z)
    : Op (string * TokenRecord) :=
  let plaintext := generate_plaintext_token random_bytes in
  let record := {| tk_token_hash := hash_token plaintext; tk_principal_id := principal_id;
                   tk_name := name; tk_active := true;
                   tk_created_at := current_timestamp_string now |} in
  _ ← with_store (λ st, upsert_token st record);
  _ ← cache_token record;
  mret (plaintext, record).

Definition auth_delete_token (token_hash : string) : Op bool :=
  s ← st_get;
  deleted ← with_store (λ st, delete_token st token_hash);
  _ ← st_modify (λ s, s <| tokens := delete token_hash (tokens s) |>);
  mret (default (bool_decide (is_Some (tokens s !! token_hash))) deleted).

Definition auth_create_role_binding (principal_id : string) (role : Role)
    (project_id : option string) (random_bytes : list Z) (now : option Z) : Op RoleBindingRecord :=
  let record := {| rb_binding_id := generate_id "rb" random_bytes; rb_principal_id := principal_id;
                   rb_role := role_as_str role; rb_project_id := project_id;
                   rb_created_at := current_timestamp_string now |} in
  _ ← with_store (λ st, upsert_role_binding st record);
  _ ← cache_binding record;
  mret record.

(** Drops the binding from the first principal that has it. *)
Fixpoint remove_binding_in (binding_id : string) (keys : list string)
    (m : gmap string (list RoleBindingRecord)) : gmap string (list RoleBindingRecord) * bool :=
  match keys with
  | [] => (m, false)
  | key :: keys' =>
      match m !! key with
      | Some entry =>
          let kept := filter (λ b, rb_binding_id b ≠ binding_id) entry in
          if bool_decide (length kept ≠ length entry) then (<[key := kept]> m, true)
          else remove_binding_in binding_id keys' (<[key := kept]> m)
      | None => remove_binding_in binding_id keys' m
      end
  end.

Definition remove_binding (binding_id : string) : Op bool := λ s,
  let '(m, found) := remove_binding_in binding_id ((map_to_list (bindings s)).*1) (bindings s) in
  (s <| bindings := m |>, Ok found).

Definition auth_delete_role_binding (binding_id : string) : Op bool :=
  s ← st_get;
  match store s with
  | Some _ =>
      deleted ← with_store (λ st, delete_role_binding st binding_id);
      if default false deleted then
        _ ← remove_binding binding_id; mret true
      else mret false
  | None => remove_binding binding_id
  end.

(** *** Reading *)

Definition list_projects (s : AuthService) : list ProjectRecord := rows (projects s).

Definition list_principals (s : AuthService) : list PrincipalRecord := rows (principals s).

Definition get_principal (s : AuthService) (principal_id : string) : option PrincipalRecord :=
  principals s !! principal_id.

Definition list_tokens (s : AuthService) (principal_id : option string) : list TokenRecord :=
  filter (λ t, matches_opt principal_id (Some (tk_principal_id t)) = true) (rows (tokens s)).

Definition list_role_bindings (s : AuthService) (principal_id project_id : option string)
    : list RoleBindingRecord :=
  mjoin ((λ e : string * list RoleBindingRecord,
           if matches_opt principal_id (Some e.1)
           then filter (λ b, matches_opt project_id (rb_project_id b) = true) e.2
           else []) <$> map_to_list (bindings s)).

Definition accessible_projects (s : AuthService) (ctx : AuthContext) : list ProjectId :=
  if existsb (λ a, bool_decide (ra_role a = InstanceAdmin)) (ac_assignments ctx)
  then (map_to_list (projects s)).*1
  else foldl (λ ps a,
         match ra_project_id a with
         | Some p => if bool_decide (p ∈ ps) then ps else ps ++ [p]
         | None => ps
         end) [] (ac_assignments ctx).

(** A binding whose role is unknown gives nothing. *)
Definition binding_assignment (b : RoleBindingRecord) : option RoleAssignment :=
  role ← role_parse (rb_role b);
  Some {| ra_role := role; ra_project_id := rb_project_id b |}.

Definition assignments_for_principal (s : AuthService) (principal_id : string)
    : list RoleAssignment :=
  filter_map binding_assignment (default [] (bindings s !! principal_id)).

Definition build_auth_context (s : AuthService) (principal_id : string) : option AuthContext :=
  principal ← principals s !! principal_id;
  if pn_active principal then
    Some {| ac_principal_id := pn_principal_id principal;
            ac_source := ControlPlaneToken;
            ac_assignments := assignments_for_principal s principal_id |}
  else None.

Definition requires_auth (s : AuthService) : bool :=
  bool_decide (is_Some (bootstrap_token s)) || bool_decide (tokens s ≠ ∅).

Definition has_admin_access_path (s : AuthService) : bool :=
  bool_decide (is_Some (bootstrap_token s))
  || existsb (λ t,
       tk_active t &&
       match principals s !! tk_principal_id t with
       | Some p =>
           pn_active p &&
           existsb (λ b, bool_decide (rb_project_id b = None)
                         && String.eqb (rb_role b) (role_as_str InstanceAdmin))
             (default [] (bindings s !! tk_principal_id t))
       | None => false
       end) (rows (tokens s)).

Definition bootstrap_context : AuthContext :=
  {| ac_principal_id := "bootstrap-admin";
     ac_source := Bootstrap;
     ac_assignments := [{| ra_role := InstanceAdmin; ra_project_id := None |}] |}.

(** [Authenticator::authenticate_bearer] *)
Definition authenticate_bearer (s : AuthService) (token : string) : option AuthContext :=
  if bool_decide (bootstrap_token s = Some token) then Some bootstrap_context
  else
    token_record ← tokens s !! hash_token token;
    if negb (tk_active token_record) then None
    else
      principal ← principals s !! tk_principal_id token_record;
      if negb (pn_active principal) then None
      else
        match assignments_for_principal s (tk_principal_id token_record) with
        | [] => None
        | assignments =>
            Some {| ac_principal_id := pn_principal_id principal;
                    ac_source := ControlPlaneToken;
                    ac_assignments := assignments |}
        end.

End service.
Arguments AuthService St : clear implicits.
