(* ===== verification/Router.v ===== *)
(** * Routing

    Model of [proxy-core/src/router.rs]: path normalisation, first-match
    lookup over an ordered list of glob patterns, and the loader that orders
    the patterns by decreasing length.  The [glob] crate is the class
    [GlobPattern]. *)

From S2P Require Import Prelude RustStr ConfigTypes Toml.

Local Open Scope string_scope.
Local Open Scope list_scope.

(** ** Glob patterns *)

Class GlobPattern := {
  Pattern : Type;
  pattern_new : string → result string Pattern;
  pattern_as_str : Pattern → string;
  pattern_matches : Pattern → string → bool;
}.

(** [Pattern::as_str] "Access the original glob pattern". *)
Class GlobPatternOk `{GlobPattern} :=
  pattern_as_str_new s p : pattern_new s = Ok p → pattern_as_str p = s.

(** ** Path normalisation *)

(** One step of the loop over the segments; [segs] is the vector, its last
    element at the end. *)
Definition normalize_step (segs : list string) (seg : string) : list string :=
  if (String.eqb seg "" || String.eqb seg ".")%bool then segs
  else if String.eqb seg ".." then removelast segs
  else segs ++ [seg].

Definition normalize_segments (path : string) : list string :=
  foldl normalize_step [] (split "/" path).

Definition normalize_path (path : string) : string :=
  "/" +:+ join "/" (normalize_segments path).

(** ** The router *)

Section router.
Context `{GlobPattern}.

Record Router := { routes : list (Pattern * RouteConfig) }.

Definition router_new (rs : list (Pattern * RouteConfig)) : Router := {| routes := rs |}.

Definition get_route_config (r : Router) (path : string) : option RouteConfig :=
  let normalized := normalize_path path in
  snd <$> find_first (λ e, pattern_matches e.1 normalized) (routes r).

Definition get_servers (r : Router) (path : string) : option (list string) :=
  let normalized := normalize_path path in
  (λ e, servers e.2) <$> find_first (λ e, pattern_matches e.1 normalized) (routes r).

(** [RouteResolver for ReloadableRouter]: the router currently in the cell. *)
Record ReloadableRouter := { inner : Router }.

Definition resolve_route_config (r : ReloadableRouter) (path : string) : option RouteConfig :=
  get_route_config (inner r) path.

Definition pattern_len (e : Pattern * RouteConfig) : nat :=
  String.length (pattern_as_str e.1).

(** The comparison of [routes.sort_by]: longer patterns first. *)
Definition longer_first (a b : Pattern * RouteConfig) : bool :=
  Nat.leb (pattern_len b) (pattern_len a).

Context `{Toml}.

(** One entry of the [paths] table in the array-only format. *)
Definition load_route (path : string) (v : tvalue) : result string (option (Pattern * RouteConfig)) :=
  match as_array v with
  | Some servers_array =>
      result_map (λ p, Some (p, {| servers := filter_map as_str servers_array;
                                   lb := RoundRobinS;
                                   weights := None |}))
        (pattern_new path)
  | None => Ok None
  end.

(** [Router::load_from_file] on the parsed file. *)
Definition load_from_toml (parsed : tvalue) : result string Router :=
  let entries := default [] (toml_get parsed "paths" ≫= as_table) in
  result_map (λ rs, {| routes := sort_by longer_first (filter_map id rs) |})
    (collect_results ((λ e, load_route e.1 e.2) <$> entries)).

End router.

(** ** Lemmas on normalisation *)

(** The segments that survive normalisation. *)
Definition clean_seg (s : string) : Prop :=
  s ≠ "" ∧ s ≠ "." ∧ s ≠ ".." ∧ no_char "/" s = true.

Lemma normalize_step_clean segs seg :
  no_char "/" seg = true → Forall clean_seg segs → Forall clean_seg (normalize_step segs seg).
Proof.
  intros Hs HF. unfold normalize_step.
  repeat case_match; bool_to_prop; try done.
  - destruct segs as [|x l] using rev_ind; [done|]. rewrite removelast_last.
    by apply Forall_app in HF as [? _].
  - apply Forall_app. split; [done|]. constructor; [|done]. by split_and!.
Qed.

Lemma normalize_segments_clean path : Forall clean_seg (normalize_segments path).
Proof.
  unfold normalize_segments. pose proof (split_no_char "/" path) as HF.
  assert (Forall clean_seg []) as Hacc by done.
  revert Hacc. generalize (@nil string) as acc. revert HF.
  induction (split "/" path) as [|x l IH]; intros HF acc Hacc; simpl; [done|].
  apply Forall_cons in HF as [Hx HF]. apply IH; [done|]. by apply normalize_step_clean.
Qed.

(** Clean segments are pushed one after the other. *)
Lemma foldl_normalize_clean acc segs :
  Forall clean_seg segs → foldl normalize_step acc segs = acc ++ segs.
Proof.
  revert acc. induction segs as [|x l IH]; intros acc; simpl; [by rewrite app_nil_r|].
  intros [(H1 & H2 & H3 & _) HF]%Forall_cons.
  apply String.eqb_neq in H1, H2, H3.
  unfold normalize_step at 2. rewrite H1, H2, H3. simpl.
  rewrite IH by done. by rewrite <- app_assoc.
Qed.

Lemma normalize_segments_join segs :
  Forall clean_seg segs → normalize_segments ("/" +:+ join "/" segs) = segs.
Proof.
  intros HF. unfold normalize_segments. simpl. destruct segs as [|x l]; [done|].
  rewrite split_join; [|done|].
  - by rewrite foldl_normalize_clean.
  - eapply Forall_impl; [exact HF|]. by intros s (_ & _ & _ & ?).
Qed.

Lemma normalize_path_idem path : normalize_path (normalize_path path) = normalize_path path.
Proof.
  unfold normalize_path at 1. unfold normalize_path at 1.
  rewrite normalize_segments_join; [done|apply normalize_segments_clean].
Qed.

(** The order the loaders sort by. *)
Definition routes_sorted `{GlobPattern} (rs : list (Pattern * RouteConfig)) : Prop :=
  StronglySorted (λ a b, longer_first a b = true) rs.

Lemma sort_by_longer_first `{GlobPattern} rs : routes_sorted (sort_by longer_first rs).
Proof.
  apply sort_by_StronglySorted; unfold longer_first; intros;
    rewrite ?Nat.leb_le, ?Nat.leb_gt in *; lia.
Qed.

(** On sorted routes the first match is a longest match. *)
Lemma sorted_routes_longest `{GlobPattern} r path rc :
  routes_sorted (routes r) → get_route_config r path = Some rc →
  ∃ p, (p, rc) ∈ routes r ∧ pattern_matches p (normalize_path path) = true ∧
    ∀ q rc', (q, rc') ∈ routes r → pattern_matches q (normalize_path path) = true →
      (String.length (pattern_as_str q) ≤ String.length (pattern_as_str p))%nat.
Proof.
  intros HS ([p rc'] & (l1 & l2 & Hr & Hm & HF)%find_first_Some & ->)%fmap_Some.
  exists p. unfold routes_sorted in HS. rewrite Hr in *. split_and!; [set_solver|done|].
  intros q rc'' Hin Hq. apply elem_of_app in Hin as [Hin|Hin].
  { rewrite Forall_forall in HF. specialize (HF _ Hin). simpl in HF. congruence. }
  apply elem_of_cons in Hin as [[= -> ->]|Hin]; [done|].
  assert (StronglySorted (λ a b, longer_first a b = true) ((p, rc') :: l2)) as HS2.
  { clear -HS. induction l1 as [|x l1 IH]; [done|]. apply IH. by inversion HS. }
  apply StronglySorted_inv in HS2 as [_ HF2]. rewrite Forall_forall in HF2.
  specialize (HF2 _ Hin). by apply Nat.leb_le in HF2.
Qed.

#[export] Hint Resolve normalize_segments_clean sort_by_longer_first : trp.
#[export] Hint Rewrite normalize_path_idem : trp_rw.

(** ** Properties *)

(** a normalised path is a slash followed by slash-separated segments none
    of which is empty, [.] or [..], and normalising again changes nothing. *)
Theorem normalize_path_canonical path :
  (∃ segs, normalize_path path = "/" +:+ join "/" segs ∧
     Forall (λ s, s ≠ "" ∧ s ≠ "." ∧ s ≠ ".." ∧ no_char "/" s = true) segs) ∧
  normalize_path (normalize_path path) = normalize_path path.
Proof.
  split; [|apply normalize_path_idem].
  exists (normalize_segments path). split; [done|]. apply normalize_segments_clean.
Qed.

(** [..] cancels the segment before it, so a detour into a directory and
    back is invisible to routing: [p/s/../q] and [p/q] normalise alike. *)
Theorem normalize_path_parent_cancels p s q :
  s ≠ "" → s ≠ "." → s ≠ ".." → no_char "/" s = true →
  normalize_path (p +:+ "/" +:+ s +:+ "/../" +:+ q) = normalize_path (p +:+ "/" +:+ q).
Proof.
  intros H1 H2 H3 Hs. unfold normalize_path. do 2 f_equal. unfold normalize_segments.
  change (p +:+ "/" +:+ s +:+ "/../" +:+ q)
    with (p +:+ String "/" (s +:+ String "/" (".." +:+ String "/" q))).
  change (p +:+ "/" +:+ q) with (p +:+ String "/" q).
  rewrite !split_app, !foldl_app. rewrite (split_single "/" s Hs).
  apply String.eqb_neq in H1, H2, H3.
  simpl. unfold normalize_step at 2 3. rewrite H1, H2, H3. simpl.
  by rewrite removelast_last.
Qed.

Lemma normalize_path_parent_cancels_witness :
  normalize_path "/api/../admin/panel" = normalize_path "/admin/panel".
Proof.
  apply (normalize_path_parent_cancels "" "api" "admin/panel"); done.
Defined.

(** routing takes the first pattern in order that matches the normalised
    path, returns nothing when none does, and [get_servers] reads the same
    route. *)
Theorem get_route_config_first_match `{GlobPattern} (r : Router) path :
  (∀ rc, get_route_config r path = Some rc ↔
     ∃ l1 p l2, routes r = l1 ++ (p, rc) :: l2 ∧
       pattern_matches p (normalize_path path) = true ∧
       Forall (λ e, pattern_matches e.1 (normalize_path path) = false) l1) ∧
  (get_route_config r path = None ↔
     Forall (λ e, pattern_matches e.1 (normalize_path path) = false) (routes r)) ∧
  get_servers r path = servers <$> get_route_config r path.
Proof.
  unfold get_route_config, get_servers. split_and!.
  - intros rc. rewrite fmap_Some. split.
    + intros ([p rc'] & (l1 & l2 & Hr & Hm & HF)%find_first_Some & ->). eauto 10.
    + intros (l1 & p & l2 & Hr & Hm & HF). exists (p, rc). split; [|done].
      apply find_first_Some. eauto 10.
  - rewrite fmap_None, find_first_None. done.
  - by destruct (find_first _ _).
Qed.

(** two spellings of a path that normalise alike always take the same
    route, so traversal sequences cannot reach a route the normalised path
    does not have. *)
Theorem routing_respects_normalization `{GlobPattern} (r : Router) p q :
  normalize_path p = normalize_path q →
  get_route_config r p = get_route_config r q ∧
  get_route_config r (normalize_path p) = get_route_config r p.
Proof.
  intros Hpq. unfold get_route_config. by rewrite normalize_path_idem, Hpq.
Qed.

(** Glob patterns that are literal prefixes, to evaluate the router. *)
Definition prefix_glob : GlobPattern := {|
  Pattern := string;
  pattern_new s := Ok s;
  pattern_as_str s := s;
  pattern_matches p s := starts_with s p;
|}.

Lemma routing_respects_normalization_witness :
  let rc := {| servers := ["admin:80"]; lb := RoundRobinS; weights := None |} in
  let r := @router_new prefix_glob [("/admin", rc)] in
  @get_route_config prefix_glob r "/api/../admin/panel" = Some rc.
Proof.
  intros rc r.
  rewrite (proj1 (@routing_respects_normalization prefix_glob r
                    "/api/../admin/panel" "/admin/panel" eq_refl)).
  reflexivity.
Defined.

(** a loaded router is longest-match: the pattern of the route it returns
    is at least as long as every loaded pattern that matches the path. *)
Theorem loaded_router_longest_match `{GlobPattern} `{Toml} parsed r path rc :
  load_from_toml parsed = Ok r →
  get_route_config r path = Some rc →
  ∃ p, (p, rc) ∈ routes r ∧ pattern_matches p (normalize_path path) = true ∧
    ∀ q rc', (q, rc') ∈ routes r → pattern_matches q (normalize_path path) = true →
      (String.length (pattern_as_str q) ≤ String.length (pattern_as_str p))%nat.
Proof.
  intros Hload. unfold load_from_toml in Hload. inv_ok. subst r.
  apply sorted_routes_longest, sort_by_longer_first.
Qed.

Lemma loaded_router_longest_match_witness :
  let doc := TTable [("paths", TTable [("/", TArray [TString "root:80"]);
                                       ("/api/", TArray [TString "api:80"])])] in
  ∃ r, @load_from_toml prefix_glob toml_value_Toml doc = Ok r ∧
    ∃ p, (p, {| servers := ["api:80"]; lb := RoundRobinS; weights := None |})
           ∈ @routes prefix_glob r.
Proof.
  intros doc. eexists. split; [reflexivity|].
  destruct (@loaded_router_longest_match prefix_glob toml_value_Toml doc _ "/api/x" _ eq_refl eq_refl)
    as (p & Hin & _).
  exists p. exact Hin.
Defined.
