(* ===== verification/Config.v ===== *)
(** * The configuration file

    Model of [Config::parse] and [Config::validate] in
    [proxy-core/src/config.rs], over the [toml] crate's values ([Toml]), the
    [glob] crate's patterns ([GlobPattern]), the TOML reader and the process
    environment, which are parameters.  Settings are read in the order of the
    code, so the first error it reports is the first error here. *)

From S2P Require Import Prelude RustStr F64 ConfigTypes ConfigSurfaces Toml Router.

Local Open Scope string_scope.
Local Open Scope list_scope.
Local Open Scope rust_scope.

(** ** Numbers and environment variables *)

Definition parse_u16 (value : Z) (field : string) : result string Z :=
  if ((0 <=? value) && (value <=? u16_max))%Z then Ok value
  else Err (field +:+ " must be in range 0..=65535, got " +:+ pretty value).

Definition parse_u64 (value : Z) (field : string) : result string Z :=
  if ((0 <=? value) && (value <=? u64_max))%Z then Ok value
  else Err (field +:+ " must be >= 0, got " +:+ pretty value).

Definition parse_u32 (value : Z) (field : string) : result string Z :=
  if ((0 <=? value) && (value <=? u32_max))%Z then Ok value
  else Err (field +:+ " must be >= 0, got " +:+ pretty value).

Definition resolve_env (env : string → option string) (value : string) : result string string :=
  match strip_prefix "$" value with
  | Some var_name => ok_or (env var_name) ("environment variable " +:+ var_name +:+ " not set")
  | None => Ok value
  end.

Section config.
Context `{GlobPattern} `{Toml}.

(** ** Records *)

Record PluginConfig := {
  plugin_name : string;
  plugin_enabled : bool;
  plugin_config : tvalue;
}.

Record ModelAliasConfig := {
  alias : string;
  model : string;
}.

Record Config := {
  cfg_port : Z;
  cfg_routes : list (Pattern * RouteConfig);
  cfg_health_check : option HealthCheckConfig;
  cfg_tls_cert : option string;
  cfg_tls_key : option string;
  cfg_tls_auto : bool;
  cfg_metrics_port : option Z;
  cfg_management_api_port : option Z;
  cfg_management_api_token : option string;
  cfg_allow_direct_provider_keys : bool;
  cfg_store_url : option string;
  cfg_max_request_body_bytes : Z;
  cfg_header_read_timeout_secs : Z;
  cfg_upstream_timeout_secs : Z;
  cfg_rate_limit : option RateLimitConfig;
  cfg_compression_enabled : bool;
  cfg_circuit_breaker : option CircuitBreakerConfig;
  cfg_cache : option CacheConfig;
  cfg_reliability : ReliabilityConfig;
  cfg_preview_features : PreviewFeatureSet;
  cfg_proxy_protocol : bool;
  cfg_plugins : list PluginConfig;
  cfg_providers : list ProviderKeyConfig;
  cfg_model_aliases : list ModelAliasConfig;
  cfg_opentelemetry_enabled : bool;
}.

(** ** Accessors: a missing field and one of another type read the same *)

Definition int_at (v : tvalue) (k : string) : option Z := toml_get v k ≫= as_integer.
Definition str_at (v : tvalue) (k : string) : option string := toml_get v k ≫= as_str.
Definition bool_at (v : tvalue) (k : string) : option bool := toml_get v k ≫= as_bool.

(** ** Routes *)

Definition parse_lb (s : string) : LbStrategy :=
  default RoundRobinS (match_str [
    ("least-connections", LeastConnectionsS);
    ("consistent-hash", ConsistentHashS);
    ("weighted-round-robin", WeightedRoundRobinS)] s).

Definition parse_weights (path : string) (arr : list tvalue) : result string (list Z) :=
  collect_results ((λ e : nat * tvalue,
    let field := "paths." +:+ path +:+ ".weights[" +:+ pretty e.1 +:+ "]" in
    let? raw := ok_or (as_integer e.2) (field +:+ " must be an integer") in
    parse_u32 raw field) <$> enumerate arr).

(** One entry of [paths]; [None] is an entry that is skipped. *)
Definition parse_route (path : string) (value : tvalue)
    : result string (option (Pattern * RouteConfig)) :=
  let? rc :=
    match as_array value with
    | Some servers_array =>
        Ok (Some {| servers := filter_map as_str servers_array; lb := RoundRobinS; weights := None |})
    | None =>
        match as_table value with
        | Some table =>
            let srvs := default [] (filter_map as_str <$> (table_get table "servers" ≫= as_array)) in
            let l := default RoundRobinS (parse_lb <$> (table_get table "lb" ≫= as_str)) in
            let? w := match table_get table "weights" ≫= as_array with
                      | Some arr => result_map Some (parse_weights path arr)
                      | None => Ok None
                      end in
            Ok (Some {| servers := srvs; lb := l; weights := w |})
        | None => Ok None
        end
    end in
  match rc with
  | None => Ok None
  | Some rc => result_map (λ p, Some (p, rc)) (pattern_new path)
  end.

Definition parse_routes (parsed : tvalue) : result string (list (Pattern * RouteConfig)) :=
  let entries := default [] (toml_get parsed "paths" ≫= as_table) in
  result_map (λ rs, sort_by longer_first (filter_map id rs))
    (collect_results ((λ e, parse_route e.1 e.2) <$> entries)).

(** ** Sections *)

Definition parse_health_check (parsed : tvalue) : result string (option HealthCheckConfig) :=
  match toml_get parsed "health_check" with
  | None => Ok None
  | Some hc =>
      let? i := parse_u64 (default 10%Z (int_at hc "interval_secs")) "health_check.interval_secs" in
      let? t := parse_u64 (default 5%Z (int_at hc "timeout_secs")) "health_check.timeout_secs" in
      Ok (Some {| interval_secs := i; timeout_secs := t;
                  hc_path := default "/health" (str_at hc "path") |})
  end.

Definition parse_rate_limit (parsed : tvalue) : result string (option RateLimitConfig) :=
  match toml_get parsed "rate_limit" with
  | None => Ok None
  | Some rl =>
      let rps := toml_get rl "requests_per_second" ≫= λ v,
        match as_float v with
        | Some f => Some f
        | None => f64_of_Z <$> as_integer v
        end in
      let? b := parse_u32 (default 50%Z (int_at rl "burst")) "rate_limit.burst" in
      Ok (Some {| requests_per_second := default (f64_of_Z 100) rps; burst := b |})
  end.

Definition parse_circuit_breaker (parsed : tvalue) : result string (option CircuitBreakerConfig) :=
  match toml_get parsed "circuit_breaker" with
  | None => Ok None
  | Some cb =>
      let? t := parse_u32 (default 5%Z (int_at cb "failure_threshold"))
                  "circuit_breaker.failure_threshold" in
      let? c := parse_u64 (default 30%Z (int_at cb "cooldown_secs")) "circuit_breaker.cooldown_secs" in
      let? w := parse_u64 (default 60%Z (int_at cb "window_secs")) "circuit_breaker.window_secs" in
      Ok (Some {| cbc_failure_threshold := t; cbc_cooldown_secs := c; cbc_window_secs := w |})
  end.

Definition parse_cache (parsed : tvalue) : result string (option CacheConfig) :=
  match toml_get parsed "cache" with
  | None => Ok None
  | Some c =>
      let? m := parse_u64 (default 256%Z (int_at c "max_size_mb")) "cache.max_size_mb" in
      let? t := parse_u64 (default 300%Z (int_at c "default_ttl_secs")) "cache.default_ttl_secs" in
      Ok (Some {| max_size_mb := m; default_ttl_secs := t |})
  end.

Definition parse_reliability (parsed : tvalue) : result string ReliabilityConfig :=
  match toml_get parsed "reliability" with
  | Some section =>
      let? m := transpose ((λ v, parse_u32 v "reliability.max_inflight_requests")
                             <$> int_at section "max_inflight_requests") in
      let? b := transpose ((λ v, parse_u32 v "reliability.brownout_inflight_requests")
                             <$> int_at section "brownout_inflight_requests") in
      let? r := parse_u32 (default 2%Z (int_at section "retry_budget_per_request"))
                  "reliability.retry_budget_per_request" in
      Ok {| max_inflight_requests := m; brownout_inflight_requests := b;
            retry_budget_per_request := r |}
  | None =>
      Ok {| max_inflight_requests := None; brownout_inflight_requests := None;
            retry_budget_per_request := 2 |}
  end.

Definition parse_preview_features (parsed : tvalue) : result string PreviewFeatureSet :=
  match toml_get parsed "preview_features" with
  | None => Ok (feature_set_new [])
  | Some values =>
      let? array := ok_or (as_array values) "preview_features must be an array of strings" in
      let one (e : nat * tvalue) :=
        let field := "preview_features[" +:+ pretty e.1 +:+ "]" in
        let? raw := ok_or (as_str e.2) (field +:+ " must be a string") in
        ok_or (enum_parse (A:=PreviewFeature) raw) (field +:+ " has unknown feature '" +:+ raw +:+ "'") in
      result_map feature_set_new (collect_results (one <$> enumerate array))
  end.

Definition parse_plugin (entry : tvalue) : option PluginConfig :=
  n ← str_at entry "name";
  Some {| plugin_name := n; plugin_enabled := default true (bool_at entry "enabled");
          plugin_config := default empty_table (toml_get entry "config") |}.

Definition parse_plugins (parsed : tvalue) : list PluginConfig :=
  default [] (filter_map parse_plugin <$> (toml_get parsed "plugins" ≫= as_array)).

Definition parse_model_aliases (parsed : tvalue) : list ModelAliasConfig :=
  default [] (filter_map (λ e : string * tvalue, m ← as_str e.2; Some {| alias := e.1; model := m |})
                <$> (toml_get parsed "model_aliases" ≫= as_table)).

(** ** Providers *)

Definition table_bool (table : list (string * tvalue)) (field context : string) : result string (option bool) :=
  transpose ((λ v, ok_or (as_bool v) (context +:+ "." +:+ field +:+ " must be a boolean"))
               <$> table_get table field).

Definition parse_bool_field (table : list (string * tvalue)) (field context : string)
    : result string bool :=
  result_map (default false) (table_bool table field context).

(** A protocol read from a string field; a field of another type is absent. *)
Definition parse_protocol {A} (surfaces : list (string * tvalue)) (field : string)
    (arms : list (string * A)) (err : string) : result string (option A) :=
  transpose ((λ value, ok_or (match_str arms value) err) <$> (table_get surfaces field ≫= as_str)).

(** The table of one surface and its required protocol. *)
Definition surface_protocol {A} (value : tvalue) (context : string) (arms : list (string * A))
    (names : string) : result string (list (string * tvalue) * A) :=
  let? table := ok_or (as_table value) (context +:+ " must be a table") in
  let? protocol := ok_or (table_get table "protocol" ≫= as_str) (context +:+ ".protocol is required") in
  let? p := ok_or (match_str arms protocol) (context +:+ ".protocol must be one of: " +:+ names) in
  Ok (table, p).

Definition parse_images (ctx : string) (value : tvalue) : result string ImageSurface :=
  let ctx := ctx +:+ ".images" in
  let? tp := surface_protocol value ctx
    [("openai_images", IsOpenAiImages); ("openrouter_chat_images", IsOpenRouterChatImages)]
    "openai_images, openrouter_chat_images" in
  let? i := parse_bool_field tp.1 "input" ctx in
  let? g := parse_bool_field tp.1 "generations" ctx in
  let? e := parse_bool_field tp.1 "edits" ctx in
  let? v := parse_bool_field tp.1 "variations" ctx in
  Ok {| im_protocol := tp.2; im_input := i; generations := g; edits := e; variations := v |}.

Definition parse_audio (ctx : string) (value : tvalue) : result string AudioSurface :=
  let ctx := ctx +:+ ".audio" in
  let? tp := surface_protocol value ctx
    [("openai_audio", AsOpenAiAudio); ("openrouter_chat_audio", AsOpenRouterChatAudio)]
    "openai_audio, openrouter_chat_audio" in
  let? i := parse_bool_field tp.1 "input" ctx in
  let? o := parse_bool_field tp.1 "output" ctx in
  let? tc := parse_bool_field tp.1 "transcription" ctx in
  let? tl := parse_bool_field tp.1 "translation" ctx in
  Ok {| au_protocol := tp.2; au_input := i; au_output := o; transcription := tc; translation := tl |}.

Definition parse_embeddings (ctx : string) (value : tvalue) : result string EmbeddingSurface :=
  let? tp := surface_protocol value (ctx +:+ ".embeddings")
    [("openai_embeddings", EsOpenAiEmbeddings); ("gemini_embed_content", EsGeminiEmbedContent)]
    "openai_embeddings, gemini_embed_content" in
  Ok {| em_protocol := tp.2 |}.

Definition parse_prompt_cache (ctx : string) (value : tvalue) : result string PromptCacheSurface :=
  let ctx := ctx +:+ ".prompt_cache" in
  let? tp := surface_protocol value ctx [("openai", PcOpenAi); ("anthropic", PcAnthropic)]
    "openai, anthropic" in
  let? r := parse_bool_field tp.1 "request_controls" ctx in
  Ok {| pc_protocol := tp.2; request_controls := r |}.

Definition provider_at (idx : nat) : string := "providers[" +:+ pretty idx +:+ "]".

Definition parse_provider_surface_catalog (entry : tvalue) (idx : nat)
    : result string (option ProviderSurfaceCatalog) :=
  match toml_get entry "surfaces" with
  | None => Ok None
  | Some v =>
      let ctx := provider_at idx +:+ ".surfaces" in
      let? sf := ok_or (as_table v) (ctx +:+ " must be a table") in
      let compatible {A} (field : string) (a : A) :=
        parse_protocol sf field [("openai_compatible", a)]
          (ctx +:+ "." +:+ field +:+ " must be 'openai_compatible'") in
      let? t := parse_protocol sf "tools" [("openai", TsOpenAi); ("anthropic", TsAnthropic)]
                  (ctx +:+ ".tools must be one of: openai, anthropic") in
      let? r := compatible "responses" ResponsesOpenAiCompatible in
      let? f := compatible "files" FileOpenAiCompatible in
      let? b := compatible "batches" BatchOpenAiCompatible in
      let? rt := compatible "realtime" RealtimeOpenAiCompatible in
      let? im := transpose (parse_images ctx <$> table_get sf "images") in
      let? au := transpose (parse_audio ctx <$> table_get sf "audio") in
      let? em := transpose (parse_embeddings ctx <$> table_get sf "embeddings") in
      let? pc := transpose (parse_prompt_cache ctx <$> table_get sf "prompt_cache") in
      let? rs := parse_bool_field sf "reasoning" ctx in
      let? jm := parse_bool_field sf "structured_output_json_mode" ctx in
      let? js := parse_bool_field sf "structured_output_json_schema" ctx in
      Ok (Some {| tools := t; responses := r; reasoning := rs; structured_output_json_mode := jm;
                  structured_output_json_schema := js; files := f; batches := b; images := im;
                  audio := au; embeddings := em; realtime := rt; prompt_cache := pc |})
  end.

Definition has_legacy_provider_semantics (entry : tvalue) : bool :=
  existsb (λ field, is_some (toml_get entry field))
    ["tool_protocol"; "image_protocol"; "audio_protocol"; "embedding_protocol"; "capabilities"].

Definition parse_strings (metadata : list (string * tvalue)) (field context : string)
    : result string (list string) :=
  result_map (default []) (transpose ((λ v,
    let? arr := ok_or (as_array v) (context +:+ "." +:+ field +:+ " must be an array of strings") in
    collect_results ((λ e, ok_or (as_str e) (context +:+ "." +:+ field +:+ " entries must be strings"))
                       <$> arr)) <$> table_get metadata field)).

Definition parse_routing_metadata (entry : tvalue) (idx : nat)
    : result string ProviderRoutingMetadataConfig :=
  match toml_get entry "routing_metadata" with
  | None => Ok routing_default
  | Some v =>
      let ctx := provider_at idx +:+ ".routing_metadata" in
      let? metadata := ok_or (as_table v) (ctx +:+ " must be a table") in
      let? dc := transpose ((λ v,
        let? raw := ok_or (as_str v) (ctx +:+ ".data_collection must be a string") in
        ok_or (enum_parse (A:=ProviderDataCollectionMode) raw)
          (ctx +:+ ".data_collection must be one of: allow, deny"))
        <$> table_get metadata "data_collection") in
      let? z := parse_bool_field metadata "zdr" ctx in
      let? d := parse_bool_field metadata "distillable_text" ctx in
      let? q := parse_strings metadata "quantizations" ctx in
      let? f := parse_strings metadata "supported_parameter_families" ctx in
      Ok {| data_collection := dc; zdr := z; distillable_text := d; quantizations := q;
            supported_parameter_families := f |}
  end.

Definition parse_provider (env : string → option string) (idx : nat) (entry : tvalue)
    : result string ProviderKeyConfig :=
  let ctx := provider_at idx in
  let? n := ok_or (str_at entry "name") (ctx +:+ ".name is required") in
  let? raw_key := ok_or (str_at entry "api_key") (ctx +:+ ".api_key is required") in
  let? key := match resolve_env env raw_key with
              | Ok k => Ok k
              | Err e => Err (ctx +:+ ".api_key could not be resolved: " +:+ e)
              end in
  let? url := ok_or (str_at entry "base_url") (ctx +:+ ".base_url is required") in
  let models := default [] (filter_map as_str <$> (toml_get entry "models" ≫= as_array)) in
  let header := default "authorization" (str_at entry "api_key_header") in
  let timeout := wrap64 <$> int_at entry "timeout_secs" in
  let? meta := parse_routing_metadata entry idx in
  if has_legacy_provider_semantics entry then
    Err (ctx +:+ " legacy protocol/capability fields are no longer supported; use family + surfaces")
  else
    let? sf := result_map (default catalog_default) (parse_provider_surface_catalog entry idx) in
    let? fam := transpose ((λ v, ok_or (enum_parse (A:=ProviderFamily) v)
        (ctx +:+ ".family must be one of: openai, anthropic, gemini, openrouter, custom"))
        <$> str_at entry "family") in
    let fam := match fam with Some f => f | None => infer_provider_family n sf end in
    let? _ := validate_provider_family fam sf ctx in
    Ok (provider_new
          {| pcc_name := n; pcc_api_key := key; pcc_base_url := url; pcc_models := models;
             pcc_api_key_header := header; pcc_timeout_secs := timeout;
             pcc_routing_metadata := meta |}
          (provider_family_config fam sf)).

Definition parse_providers (env : string → option string) (parsed : tvalue)
    : result string (list ProviderKeyConfig) :=
  match toml_get parsed "providers" ≫= as_array with
  | Some arr => collect_results ((λ e, parse_provider env e.1 e.2) <$> enumerate arr)
  | None => Ok []
  end.

(** ** The whole file *)

Definition parse_config (env : string → option string) (parsed : tvalue) : result string Config :=
  let? raw_port := ok_or (int_at parsed "port") "Port not found in configuration file." in
  let? port := parse_u16 raw_port "port" in
  let? rts := parse_routes parsed in
  let? hc := parse_health_check parsed in
  let? mp := transpose ((λ v, parse_u16 v "metrics_port") <$> int_at parsed "metrics_port") in
  let? ap := transpose ((λ v, parse_u16 v "management_api_port")
                          <$> int_at parsed "management_api_port") in
  let? tok := transpose (resolve_env env <$> str_at parsed "management_api_token") in
  let? body := parse_u64 (default (10 * 1024 * 1024)%Z (int_at parsed "max_request_body_bytes"))
                 "max_request_body_bytes" in
  let? hrt := parse_u64 (default 30%Z (int_at parsed "header_read_timeout_secs"))
                "header_read_timeout_secs" in
  let? ut := parse_u64 (default 600%Z (int_at parsed "upstream_timeout_secs"))
               "upstream_timeout_secs" in
  let? rl := parse_rate_limit parsed in
  let? cb := parse_circuit_breaker parsed in
  let? ca := parse_cache parsed in
  let? rel := parse_reliability parsed in
  let? pf := parse_preview_features parsed in
  let? pr := parse_providers env parsed in
  Ok {| cfg_port := port;
        cfg_routes := rts;
        cfg_health_check := hc;
        cfg_tls_cert := str_at parsed "tls_cert";
        cfg_tls_key := str_at parsed "tls_key";
        cfg_tls_auto := default false (bool_at parsed "tls");
        cfg_metrics_port := mp;
        cfg_management_api_port := ap;
        cfg_management_api_token := tok;
        cfg_allow_direct_provider_keys := default false (bool_at parsed "allow_direct_provider_keys");
        cfg_store_url := str_at parsed "store_url";
        cfg_max_request_body_bytes := body;
        cfg_header_read_timeout_secs := hrt;
        cfg_upstream_timeout_secs := ut;
        cfg_rate_limit := rl;
        cfg_compression_enabled := default true (bool_at parsed "compression_enabled");
        cfg_circuit_breaker := cb;
        cfg_cache := ca;
        cfg_reliability := rel;
        cfg_preview_features := pf;
        cfg_proxy_protocol := default false (bool_at parsed "proxy_protocol");
        cfg_plugins := parse_plugins parsed;
        cfg_providers := pr;
        cfg_model_aliases := parse_model_aliases parsed;
        cfg_opentelemetry_enabled := default false (bool_at parsed "opentelemetry_enabled") |}.

(** [Config::parse] and [Config::load_from_file], with the TOML reader and the
    file system as parameters. *)
Definition config_parse (from_str : string → result string tvalue) (env : string → option string)
    (content : string) : result string Config :=
  let? parsed := from_str content in
  parse_config env parsed.

Definition load_from_file (read_to_string : string → result string string)
    (from_str : string → result string tvalue) (env : string → option string) (file_path : string)
    : result string Config :=
  let? content := read_to_string file_path in
  config_parse from_str env content.

(** ** Validation *)

(** [errors.push(..)] under a condition. *)
Definition error_if (b : bool) (e : string) : list string := if b then [e] else [].

Definition route_errors (e : Pattern * RouteConfig) : list string :=
  let p := pattern_as_str e.1 in
  let route := e.2 in
  error_if (Nat.eqb (length (servers route)) 0) ("route '" +:+ p +:+ "': servers must not be empty")
  ++ mjoin ((λ x : nat * string,
       error_if (String.eqb x.2 "")
         ("route '" +:+ p +:+ "': server[" +:+ pretty x.1 +:+ "] must not be empty"))
       <$> enumerate (servers route))
  ++ match weights route with
     | Some w =>
         error_if (negb (Nat.eqb (length w) (length (servers route))))
           ("route '" +:+ p +:+ "': weights count (" +:+ pretty (length w)
            +:+ ") must match servers count (" +:+ pretty (length (servers route)) +:+ ")")
     | None => []
     end.

Definition config_errors (c : Config) : list string :=
  error_if (cfg_port c =? 0)%Z "port must not be 0"
  ++ match cfg_metrics_port c with
     | Some mp =>
         error_if (mp =? 0)%Z "metrics_port must not be 0"
         ++ error_if (mp =? cfg_port c)%Z "metrics_port must differ from port"
     | None => []
     end
  ++ match cfg_management_api_port c with
     | Some ap =>
         error_if (ap =? 0)%Z "management_api_port must not be 0"
         ++ error_if (ap =? cfg_port c)%Z "management_api_port must differ from port"
         ++ error_if (match cfg_metrics_port c with Some mp => (mp =? ap)%Z | None => false end)
              "management_api_port must differ from metrics_port"
     | None => []
     end
  ++ error_if (match cfg_management_api_token c with
               | Some t => is_blank t
               | None => false
               end) "management_api_token must not be empty when provided"
  ++ error_if (Nat.eqb (length (cfg_routes c)) 0) "at least one route must be defined in [paths]"
  ++ mjoin (route_errors <$> cfg_routes c)
  ++ match cfg_rate_limit c with
     | Some rl =>
         error_if (f_le (requests_per_second rl) f_zero) "rate_limit.requests_per_second must be > 0"
         ++ error_if (burst rl =? 0)%Z "rate_limit.burst must be > 0"
     | None => []
     end
  ++ match cfg_circuit_breaker c with
     | Some cb => error_if (cbc_failure_threshold cb =? 0)%Z "circuit_breaker.failure_threshold must be > 0"
     | None => []
     end
  ++ match cfg_cache c with
     | Some ca => error_if (max_size_mb ca =? 0)%Z "cache.max_size_mb must be > 0"
     | None => []
     end
  ++ match max_inflight_requests (cfg_reliability c) with
     | Some max => error_if (max =? 0)%Z "reliability.max_inflight_requests must be > 0"
     | None => []
     end
  ++ match brownout_inflight_requests (cfg_reliability c) with
     | Some brownout =>
         error_if (brownout =? 0)%Z "reliability.brownout_inflight_requests must be > 0"
         ++ match max_inflight_requests (cfg_reliability c) with
            | Some max =>
                error_if (max <? brownout)%Z
                  "reliability.brownout_inflight_requests must be <= reliability.max_inflight_requests"
            | None => []
            end
     | None => []
     end
  ++ match cfg_health_check c with
     | Some hc => error_if (interval_secs hc =? 0)%Z "health_check.interval_secs must be > 0"
     | None => []
     end
  ++ error_if (cfg_max_request_body_bytes c =? 0)%Z "max_request_body_bytes must be > 0".

Definition validate (c : Config) : result (list string) () :=
  match config_errors c with
  | [] => Ok ()
  | es => Err es
  end.

End config.

(** ** Lemmas *)

Lemma parse_u16_ok v f z : parse_u16 v f = Ok z → z = v ∧ (0 ≤ z ≤ u16_max)%Z.
Proof. unfold parse_u16. intros. case_match; [|done]. bool_to_prop. simplify_eq. lia. Qed.

Lemma parse_u32_ok v f z : parse_u32 v f = Ok z → z = v ∧ in_u32 z.
Proof. unfold parse_u32, in_u32. intros. case_match; [|done]. bool_to_prop. simplify_eq. lia. Qed.

Lemma parse_u64_ok v f z : parse_u64 v f = Ok z → z = v ∧ in_u64 z.
Proof. unfold parse_u64, in_u64. intros. case_match; [|done]. bool_to_prop. simplify_eq. lia. Qed.

(** A checked setting that may be absent. *)
Lemma transpose_ok {X A B} (f : A → result X B) o b :
  transpose (f <$> o) = Ok (Some b) → ∃ a, o = Some a ∧ f a = Ok b.
Proof. destruct o as [a|]; simpl; [|done]. destruct (f a) eqn:Ef; [|done]. naive_solver. Qed.

Lemma opt_u16_ok o f p : transpose ((λ v, parse_u16 v f) <$> o) = Ok (Some p) → (0 ≤ p ≤ u16_max)%Z.
Proof. by intros (a & _ & [_ ?]%parse_u16_ok)%transpose_ok. Qed.

Lemma opt_u32_ok o f p : transpose ((λ v, parse_u32 v f) <$> o) = Ok (Some p) → in_u32 p.
Proof. by intros (a & _ & [_ ?]%parse_u32_ok)%transpose_ok. Qed.

Lemma collect_results_Forall {X A B} (f : A → result X B) l r (P : B → Prop) :
  (∀ a b, f a = Ok b → P b) → collect_results (f <$> l) = Ok r → Forall P r.
Proof.
  intros Hf Hc%collect_results_ok. apply Forall_forall. intros b Hb.
  assert (Ok b ∈ f <$> l) as (a & Ha & _)%list_elem_of_fmap.
  { rewrite Hc. by apply list_elem_of_fmap_2. }
  by eapply Hf.
Qed.

Lemma error_if_nil b e : error_if b e = [] ↔ b = false.
Proof. by destruct b. Qed.

Lemma mjoin_nil {A} (ls : list (list A)) : mjoin ls = [] ↔ Forall (λ l, l = []) ls.
Proof.
  induction ls as [|l ls IH]; simpl; [done|]. rewrite Forall_cons, <- IH.
  split; [apply app_eq_nil|]. by intros [-> ->].
Qed.

#[export] Hint Rewrite @error_if_nil @mjoin_nil : trp_rw.

Section props.
Context `{GlobPattern} `{Toml}.

Lemma parse_weights_ok path arr ws : parse_weights path arr = Ok ws → Forall in_u32 ws.
Proof.
  apply collect_results_Forall. intros [i v] z Hz. simpl in Hz. inv_ok. by eapply parse_u32_ok.
Qed.

Definition route_wf (e : Pattern * RouteConfig) : Prop :=
  ∀ ws, weights e.2 = Some ws → Forall in_u32 ws.

Lemma parse_route_ok path v r : parse_route path v = Ok r → ∀ e, r = Some e → route_wf e.
Proof.
  unfold parse_route. intros (rc & Hrc & Hp)%result_bind_ok e ->. destruct rc as [rc|]; [|done].
  inv_ok. simplify_eq. unfold route_wf. simpl.
  destruct (as_array v); [by simplify_eq|]. destruct (as_table v) as [t|]; [|done]. inv_ok. simplify_eq/=.
  case_match; inv_ok; simplify_eq; [|done]. intros ws [= <-]. by eapply parse_weights_ok.
Qed.

Lemma parse_routes_ok v rs : parse_routes v = Ok rs → routes_sorted rs ∧ Forall route_wf rs.
Proof.
  unfold parse_routes. intros. inv_ok. subst. split; [auto with trp|].
  rewrite sort_by_perm. apply Forall_forall. intros e (o & Ho & He)%list_elem_of_omap.
  eapply collect_results_Forall in E; [|intros [k w] b Hb; exact (parse_route_ok _ _ _ Hb)].
  rewrite Forall_forall in E. by apply (E _ Ho e He).
Qed.

(** What a parsed provider is: its family accepts its surfaces, and the cached
    fields agree with them. *)
Definition provider_wf (p : ProviderKeyConfig) : Prop :=
  provider_synced p ∧ ¬ family_conflict (family_kind p) (pk_surfaces p) ∧
  ∀ t, pk_timeout_secs p = Some t → in_u64 t.

Lemma provider_new_wf c f sf ctx u :
  validate_provider_family f sf ctx = Ok u → (∀ t, pcc_timeout_secs c = Some t → in_u64 t) →
  provider_wf (provider_new c (provider_family_config f sf)).
Proof.
  destruct u. intros Hv%validate_family_iff Ht. unfold provider_wf, family_kind, pk_surfaces.
  cbn [pk_family provider_new]. destruct (provider_family_config_inv f sf) as [-> ->].
  split_and!; [apply provider_new_synced|done|done].
Qed.

Lemma parse_provider_ok env i v p : parse_provider env i v = Ok p → provider_wf p.
Proof.
  unfold parse_provider. intros. inv_ok. case_match; [done|]. inv_ok. subst.
  eapply provider_new_wf; [eassumption|]. cbn. intros t.
  destruct (int_at v "timeout_secs"); [|done]. intros [= <-]. apply wrap64_range.
Qed.

Lemma parse_provider_inv env i v p : parse_provider env i v = Ok p →
  ∃ raw, str_at v "name" = Some (pk_name p) ∧ str_at v "api_key" = Some raw ∧
    resolve_env env raw = Ok (pk_api_key p) ∧
    (∀ f, str_at v "family" = Some f → f = enum_str (family_kind p)) ∧
    has_legacy_provider_semantics v = false.
Proof.
  unfold parse_provider. intros. inv_ok. case_match; [done|]. inv_ok. subst.
  eexists. split_and!; [reflexivity|reflexivity| | |reflexivity].
  - cbn [pk_api_key provider_new pcc_api_key].
    match goal with E : match resolve_env _ _ with _ => _ end = Ok _ |- _ =>
      destruct (resolve_env _ _); [by simplify_eq|done] end.
  - intros f Hf. unfold family_kind. cbn [pk_family provider_new].
    rewrite (proj1 (provider_family_config_inv _ _)).
    match goal with E : transpose _ = Ok ?o |- _ => rewrite Hf in E; cbn in E; clear -E; rename E into Ho end.
    destruct (ok_or _ _) eqn:Ef in Ho; simplify_eq. inv_ok. subst. by apply parse_iff.
Qed.

(** Every number is in the range of its machine type, the routes are sorted,
    the features are a set and the providers are consistent. *)
Record config_wf (c : Config) : Prop := {
  wf_port : (0 ≤ cfg_port c ≤ u16_max)%Z;
  wf_metrics_port p : cfg_metrics_port c = Some p → (0 ≤ p ≤ u16_max)%Z;
  wf_api_port p : cfg_management_api_port c = Some p → (0 ≤ p ≤ u16_max)%Z;
  wf_sizes : in_u64 (cfg_max_request_body_bytes c) ∧ in_u64 (cfg_header_read_timeout_secs c)
             ∧ in_u64 (cfg_upstream_timeout_secs c);
  wf_health h : cfg_health_check c = Some h → in_u64 (interval_secs h) ∧ in_u64 (timeout_secs h);
  wf_rate r : cfg_rate_limit c = Some r → in_u32 (burst r);
  wf_breaker b : cfg_circuit_breaker c = Some b →
    in_u32 (cbc_failure_threshold b) ∧ in_u64 (cbc_cooldown_secs b) ∧ in_u64 (cbc_window_secs b);
  wf_cache k : cfg_cache c = Some k → in_u64 (max_size_mb k) ∧ in_u64 (default_ttl_secs k);
  wf_max m : max_inflight_requests (cfg_reliability c) = Some m → in_u32 m;
  wf_brownout b : brownout_inflight_requests (cfg_reliability c) = Some b → in_u32 b;
  wf_budget : in_u32 (retry_budget_per_request (cfg_reliability c));
  wf_sorted : routes_sorted (cfg_routes c);
  wf_weights : Forall route_wf (cfg_routes c);
  wf_features : features_sorted (features (cfg_preview_features c));
  wf_providers : Forall provider_wf (cfg_providers c);
}.

(** The ranges that follow from the checked conversions in a hypothesis. *)
Ltac inv_numbers :=
  repeat match goal with
  | E : parse_u16 _ _ = Ok _ |- _ => apply parse_u16_ok in E as [? ?]
  | E : parse_u32 _ _ = Ok _ |- _ => apply parse_u32_ok in E as [? ?]
  | E : parse_u64 _ _ = Ok _ |- _ => apply parse_u64_ok in E as [? ?]
  end.

Lemma parse_health_check_ok v h : parse_health_check v = Ok (Some h) →
  in_u64 (interval_secs h) ∧ in_u64 (timeout_secs h).
Proof. unfold parse_health_check. intros. case_match; inv_ok; [|done]. inv_numbers. by simplify_eq/=. Qed.

Lemma parse_rate_limit_ok v r : parse_rate_limit v = Ok (Some r) → in_u32 (burst r).
Proof. unfold parse_rate_limit. intros. case_match; inv_ok; [|done]. inv_numbers. by simplify_eq/=. Qed.

Lemma parse_circuit_breaker_ok v b : parse_circuit_breaker v = Ok (Some b) →
  in_u32 (cbc_failure_threshold b) ∧ in_u64 (cbc_cooldown_secs b) ∧ in_u64 (cbc_window_secs b).
Proof. unfold parse_circuit_breaker. intros. case_match; inv_ok; [|done]. inv_numbers. by simplify_eq/=. Qed.

Lemma parse_cache_ok v k : parse_cache v = Ok (Some k) →
  in_u64 (max_size_mb k) ∧ in_u64 (default_ttl_secs k).
Proof. unfold parse_cache. intros. case_match; inv_ok; [|done]. inv_numbers. by simplify_eq/=. Qed.

Lemma parse_reliability_ok v r : parse_reliability v = Ok r →
  (∀ m, max_inflight_requests r = Some m → in_u32 m) ∧
  (∀ b, brownout_inflight_requests r = Some b → in_u32 b) ∧
  in_u32 (retry_budget_per_request r).
Proof.
  unfold parse_reliability. intros. case_match; inv_ok; subst; simpl.
  - inv_numbers. split_and!; [..|done]; intros; subst; eauto using opt_u32_ok.
  - split_and!; [done..|]. unfold in_u32, u32_max. lia.
Qed.

Lemma parse_preview_features_ok v s : parse_preview_features v = Ok s → features_sorted (features s).
Proof.
  unfold parse_preview_features. intros. case_match; inv_ok; subst; apply feature_set_spec.
Qed.

Lemma parse_providers_ok env v ps : parse_providers env v = Ok ps → Forall provider_wf ps.
Proof.
  unfold parse_providers. intros. case_match; [|by simplify_eq].
  eapply collect_results_Forall; [|done]. intros [i w] p. apply parse_provider_ok.
Qed.

Lemma parse_config_wf env v c : parse_config env v = Ok c → config_wf c.
Proof.
  unfold parse_config. intros. inv_ok.
  match goal with E : parse_routes _ = Ok _ |- _ => apply parse_routes_ok in E as [? ?] end.
  match goal with E : parse_reliability _ = Ok _ |- _ => apply parse_reliability_ok in E as (? & ? & ?) end.
  inv_numbers. subst c.
  split; simpl; try done; intros; simplify_eq;
    eauto using opt_u16_ok, parse_health_check_ok, parse_rate_limit_ok, parse_circuit_breaker_ok,
      parse_cache_ok, parse_preview_features_ok, parse_providers_ok.
Qed.

(** ** The numbers of the file

    Every integer of a configuration, provider timeouts apart, is the one that the
    file has in its place, or the default. *)

Record reliability_read (section : option tvalue) (r : ReliabilityConfig) : Prop := {
  rr_max : max_inflight_requests r = section ≫= (λ t, int_at t "max_inflight_requests");
  rr_brownout : brownout_inflight_requests r = section ≫= (λ t, int_at t "brownout_inflight_requests");
  rr_budget : retry_budget_per_request r = default 2%Z (section ≫= (λ t, int_at t "retry_budget_per_request"));
}.

(** The weights of a route are the integers of its list. *)
Definition weights_read (entries : list (string * tvalue)) (e : Pattern * RouteConfig) : Prop :=
  ∀ ws, weights e.2 = Some ws →
  ∃ path value table arr, (path, value) ∈ entries ∧ pattern_new path = Ok e.1 ∧
    as_table value = Some table ∧ table_get table "weights" ≫= as_array = Some arr ∧
    as_integer <$> arr = Some <$> ws.

Record numbers_read (v : tvalue) (c : Config) : Prop := {
  nr_port : int_at v "port" = Some (cfg_port c);
  nr_metrics_port : cfg_metrics_port c = int_at v "metrics_port";
  nr_api_port : cfg_management_api_port c = int_at v "management_api_port";
  nr_body : cfg_max_request_body_bytes c = default (10 * 1024 * 1024)%Z (int_at v "max_request_body_bytes");
  nr_header : cfg_header_read_timeout_secs c = default 30%Z (int_at v "header_read_timeout_secs");
  nr_upstream : cfg_upstream_timeout_secs c = default 600%Z (int_at v "upstream_timeout_secs");
  nr_health h : cfg_health_check c = Some h → ∃ t, toml_get v "health_check" = Some t ∧
    interval_secs h = default 10%Z (int_at t "interval_secs") ∧
    timeout_secs h = default 5%Z (int_at t "timeout_secs");
  nr_rate r : cfg_rate_limit c = Some r → ∃ t, toml_get v "rate_limit" = Some t ∧
    burst r = default 50%Z (int_at t "burst");
  nr_breaker b : cfg_circuit_breaker c = Some b → ∃ t, toml_get v "circuit_breaker" = Some t ∧
    cbc_failure_threshold b = default 5%Z (int_at t "failure_threshold") ∧
    cbc_cooldown_secs b = default 30%Z (int_at t "cooldown_secs") ∧
    cbc_window_secs b = default 60%Z (int_at t "window_secs");
  nr_cache k : cfg_cache c = Some k → ∃ t, toml_get v "cache" = Some t ∧
    max_size_mb k = default 256%Z (int_at t "max_size_mb") ∧
    default_ttl_secs k = default 300%Z (int_at t "default_ttl_secs");
  nr_reliability : reliability_read (toml_get v "reliability") (cfg_reliability c);
  nr_weights : Forall (weights_read (default [] (toml_get v "paths" ≫= as_table))) (cfg_routes c);
}.

Lemma opt_number_read (f : Z → result string Z) o r :
  (∀ v z, f v = Ok z → z = v) → transpose (f <$> o) = Ok r → r = o.
Proof.
  intros Hf. destruct o as [v|]; simpl; [|congruence]. destruct (f v) eqn:E; [|done]. intros [= <-]. by rewrite (Hf _ _ E).
Qed.

Lemma opt_u16_read o f r : transpose ((λ v, parse_u16 v f) <$> o) = Ok r → r = o.
Proof. apply opt_number_read. by intros v z []%parse_u16_ok. Qed.

Lemma u32_read f v z : parse_u32 v f = Ok z → z = v.
Proof. by intros []%parse_u32_ok. Qed.

Lemma parse_health_check_read v h : parse_health_check v = Ok (Some h) → ∃ t, toml_get v "health_check" = Some t ∧
  interval_secs h = default 10%Z (int_at t "interval_secs") ∧ timeout_secs h = default 5%Z (int_at t "timeout_secs").
Proof. unfold parse_health_check. intros. case_match; inv_ok; [|done]. inv_numbers. simplify_eq/=. eauto. Qed.

Lemma parse_rate_limit_read v r : parse_rate_limit v = Ok (Some r) → ∃ t, toml_get v "rate_limit" = Some t ∧
  burst r = default 50%Z (int_at t "burst").
Proof. unfold parse_rate_limit. intros. case_match; inv_ok; [|done]. inv_numbers. simplify_eq/=. eauto. Qed.

Lemma parse_circuit_breaker_read v b : parse_circuit_breaker v = Ok (Some b) → ∃ t, toml_get v "circuit_breaker" = Some t ∧
  cbc_failure_threshold b = default 5%Z (int_at t "failure_threshold") ∧
  cbc_cooldown_secs b = default 30%Z (int_at t "cooldown_secs") ∧ cbc_window_secs b = default 60%Z (int_at t "window_secs").
Proof. unfold parse_circuit_breaker. intros. case_match; inv_ok; [|done]. inv_numbers. simplify_eq/=. eauto. Qed.

Lemma parse_cache_read v k : parse_cache v = Ok (Some k) → ∃ t, toml_get v "cache" = Some t ∧
  max_size_mb k = default 256%Z (int_at t "max_size_mb") ∧ default_ttl_secs k = default 300%Z (int_at t "default_ttl_secs").
Proof. unfold parse_cache. intros. case_match; inv_ok; [|done]. inv_numbers. simplify_eq/=. eauto. Qed.

Lemma parse_weights_read path arr ws : parse_weights path arr = Ok ws → as_integer <$> arr = Some <$> ws.
Proof.
  unfold parse_weights. intros E%collect_results_ok. apply list_eq. intros i.
  apply (f_equal (lookup i)) in E. unfold enumerate in E. rewrite !list_lookup_fmap, list_lookup_imap in E.
  rewrite !list_lookup_fmap. destruct (arr !! i) as [v|], (ws !! i) as [z|]; try done. cbn in E |- *.
  apply (inj Some) in E. inv_ok. inv_numbers. subst. destruct (as_integer v); [|done]. simpl in *. congruence.
Qed.

Lemma parse_route_read path value e : parse_route path value = Ok (Some e) → weights_read [(path, value)] e.
Proof.
  unfold parse_route. intros (rc & Hrc & Hp)%result_bind_ok ws Hws. destruct rc as [rc|]; [|done].
  inv_ok. simplify_eq/=. destruct (as_array value); [by simplify_eq|].
  destruct (as_table value) as [t|] eqn:Et; [|done]. inv_ok. simplify_eq/=.
  destruct (table_get t "weights" ≫= as_array) as [arr|] eqn:Ea; inv_ok; simplify_eq.
  exists path, value, t, arr. split_and!; [by left|done..|by eapply parse_weights_read].
Qed.

Lemma parse_routes_read v rs : parse_routes v = Ok rs →
  Forall (weights_read (default [] (toml_get v "paths" ≫= as_table))) rs.
Proof.
  unfold parse_routes. set (entries := default [] _). intros. inv_ok. subst. rewrite sort_by_perm. apply Forall_forall. intros e (o & Ho & He)%list_elem_of_omap. simpl in He. subst o.
  apply collect_results_ok in E. assert (Ok (Some e) ∈ (λ e, parse_route e.1 e.2) <$> entries) as Hin
    by (rewrite E; by apply list_elem_of_fmap_2).
  apply list_elem_of_fmap in Hin as ([path value] & Ep & Hin). symmetry in Ep. apply parse_route_read in Ep.
  intros ws Hws. destruct (Ep ws Hws) as (p' & v' & t & arr & [= -> ->]%list_elem_of_singleton & Hrest).
  by exists path, value, t, arr.
Qed.

Lemma parse_reliability_read v r : parse_reliability v = Ok r →
  reliability_read (toml_get v "reliability") r.
Proof.
  unfold parse_reliability. destruct (toml_get v "reliability") as [t|]; simpl.
  - intros. inv_ok. subst. inv_numbers. split; simpl; [by eapply opt_number_read; [apply u32_read|]..|done].
  - by intros [= <-].
Qed.

Lemma parse_config_read env v c : parse_config env v = Ok c → numbers_read v c.
Proof.
  unfold parse_config. intros. inv_ok.
  match goal with E : parse_routes _ = Ok _ |- _ => apply parse_routes_read in E end.
  match goal with E : parse_reliability _ = Ok _ |- _ => apply parse_reliability_read in E end.
  inv_numbers. subst c.
  split; simpl; try done; intros; simplify_eq;
    eauto using opt_u16_read, parse_health_check_read, parse_rate_limit_read, parse_circuit_breaker_read, parse_cache_read.
Qed.

(** ** What a valid configuration is *)

Definition route_valid (rc : RouteConfig) : Prop :=
  servers rc ≠ [] ∧ Forall (λ s, s ≠ "") (servers rc) ∧
  ∀ ws, weights rc = Some ws → length ws = length (servers rc).

Record config_valid (c : Config) : Prop := {
  valid_port : cfg_port c ≠ 0%Z;
  valid_metrics_port p : cfg_metrics_port c = Some p → p ≠ 0%Z ∧ p ≠ cfg_port c;
  valid_api_port p : cfg_management_api_port c = Some p →
    p ≠ 0%Z ∧ p ≠ cfg_port c ∧ cfg_metrics_port c ≠ Some p;
  valid_token t : cfg_management_api_token c = Some t → is_blank t = false;
  valid_routes : cfg_routes c ≠ [] ∧ Forall (λ e, route_valid e.2) (cfg_routes c);
  valid_rate r : cfg_rate_limit c = Some r →
    f_le (requests_per_second r) f_zero = false ∧ burst r ≠ 0%Z;
  valid_breaker b : cfg_circuit_breaker c = Some b → cbc_failure_threshold b ≠ 0%Z;
  valid_cache k : cfg_cache c = Some k → max_size_mb k ≠ 0%Z;
  valid_max m : max_inflight_requests (cfg_reliability c) = Some m → m ≠ 0%Z;
  valid_brownout b : brownout_inflight_requests (cfg_reliability c) = Some b →
    b ≠ 0%Z ∧ ∀ m, max_inflight_requests (cfg_reliability c) = Some m → (b ≤ m)%Z;
  valid_health h : cfg_health_check c = Some h → interval_secs h ≠ 0%Z;
  valid_body : cfg_max_request_body_bytes c ≠ 0%Z;
}.

Lemma route_errors_nil e : route_errors e = [] ↔ route_valid e.2.
Proof.
  unfold route_errors, route_valid. rewrite !app_nil, error_if_nil, mjoin_nil, Nat.eqb_neq.
  assert (Forall (λ l : list string, l = [])
      ((λ x : nat * string, error_if (String.eqb x.2 "")
          ("route '" +:+ pattern_as_str e.1 +:+ "': server[" +:+ pretty x.1 +:+ "] must not be empty"))
        <$> enumerate (servers e.2)) ↔ Forall (λ s, s ≠ "") (servers e.2)) as ->.
  { rewrite Forall_fmap. unfold enumerate. rewrite !Forall_lookup. setoid_rewrite list_lookup_imap_Some.
    split.
    - intros Hf i s Hs. specialize (Hf i (i, s)). simpl in Hf. rewrite error_if_nil in Hf.
      apply String.eqb_neq, Hf. eauto.
    - intros Hf i x (s & Hs & ->). simpl. apply error_if_nil, String.eqb_neq. by eapply Hf. }
  destruct (servers e.2) eqn:Es; simpl; [by split; [intros [? _]|intros [? _]]|].
  destruct (weights e.2) as [ws|]; rewrite ?error_if_nil; [|naive_solver].
  rewrite negb_false_iff, Nat.eqb_eq. naive_solver.
Qed.

(** The checks of an optional section. *)
Lemma opt_errors_nil {A} (o : option A) (f : A → list string) (P : A → Prop) :
  (∀ a, f a = [] ↔ P a) → match o with Some a => f a | None => [] end = [] ↔ ∀ a, o = Some a → P a.
Proof. intros Hf. destruct o as [a|]; [rewrite Hf|]; naive_solver. Qed.

Lemma config_errors_nil c : config_errors c = [] ↔ config_valid c.
Proof.
  unfold config_errors. rewrite !app_nil, !error_if_nil, mjoin_nil, Forall_fmap.
  rewrite (Forall_iff _ _ (λ e, route_valid e.2)) by (intros; apply route_errors_nil).
  rewrite !Z.eqb_neq, Nat.eqb_neq, length_zero_iff_nil.
  rewrite (opt_errors_nil (cfg_metrics_port c) _ (λ p, p ≠ 0%Z ∧ p ≠ cfg_port c))
    by (intros; by rewrite app_nil, !error_if_nil, !Z.eqb_neq).
  rewrite (opt_errors_nil (cfg_management_api_port c) _
             (λ p, p ≠ 0%Z ∧ p ≠ cfg_port c ∧ cfg_metrics_port c ≠ Some p)); cycle 1.
  { intros p. rewrite !app_nil, !error_if_nil, !Z.eqb_neq.
    destruct (cfg_metrics_port c); [rewrite Z.eqb_neq|]; naive_solver. }
  rewrite (opt_errors_nil (cfg_rate_limit c) _
             (λ r, f_le (requests_per_second r) f_zero = false ∧ burst r ≠ 0%Z))
    by (intros; by rewrite app_nil, !error_if_nil, Z.eqb_neq).
  rewrite (opt_errors_nil (cfg_circuit_breaker c) _ (λ b, cbc_failure_threshold b ≠ 0%Z))
    by (intros; by rewrite error_if_nil, Z.eqb_neq).
  rewrite (opt_errors_nil (cfg_cache c) _ (λ k, max_size_mb k ≠ 0%Z)) by (intros; by rewrite error_if_nil, Z.eqb_neq).
  rewrite (opt_errors_nil (max_inflight_requests (cfg_reliability c)) _ (λ m, m ≠ 0%Z))
    by (intros; by rewrite error_if_nil, Z.eqb_neq).
  rewrite (opt_errors_nil (brownout_inflight_requests (cfg_reliability c)) _ (λ b, b ≠ 0%Z ∧
             ∀ m, max_inflight_requests (cfg_reliability c) = Some m → (b ≤ m)%Z)); cycle 1.
  { intros b. rewrite app_nil, error_if_nil, Z.eqb_neq.
    rewrite (opt_errors_nil _ _ (λ m, (b ≤ m)%Z)) by (intros; by rewrite error_if_nil, Z.ltb_ge). done. }
  rewrite (opt_errors_nil (cfg_health_check c) _ (λ h, interval_secs h ≠ 0%Z))
    by (intros; by rewrite error_if_nil, Z.eqb_neq).
  assert ((match cfg_management_api_token c with Some t => is_blank t | None => false end = false)
          ↔ ∀ t, cfg_management_api_token c = Some t → is_blank t = false) as ->
    by (destruct (cfg_management_api_token c); naive_solver).
  split; [intros (?&?&?&?&?&?&?&?&?&?&?&?&?); by split|intros []; naive_solver].
Qed.

Lemma validate_valid c u : validate c = Ok u → config_valid c.
Proof.
  unfold validate. intros Hv. apply config_errors_nil. by destruct (config_errors c).
Qed.

End props.

(** ** Properties *)

Module ConfigDemo.

#[export] Existing Instance prefix_glob.

Definition env (v : string) : option string := if String.eqb v "KEY" then Some "sk-1" else None.

Definition doc : toml_value := TTable [
  ("port", TInteger 8080);
  ("paths", TTable [("/", TArray [TString "root:80"]);
                    ("/api/", TTable [("servers", TArray [TString "a:80"; TString "b:80"]);
                                      ("lb", TString "weighted-round-robin");
                                      ("weights", TArray [TInteger 3; TInteger 1])])]);
  ("reliability", TTable [("max_inflight_requests", TInteger 100);
                          ("brownout_inflight_requests", TInteger 80)]);
  ("providers", TArray [TTable [("name", TString "mine"); ("api_key", TString "$KEY");
                                ("base_url", TString "https://x"); ("timeout_secs", TInteger (-1))]])].

(** A reader that returns the document whatever the text. *)
Definition reader (v : toml_value) (content : string) : result string toml_value := Ok v.

Definition config_of (v : toml_value) : result string Config := config_parse (reader v) env "".

End ConfigDemo.
Import (hints) ConfigDemo.

(** C40: a configuration that parses says what the file says, within the types: every
    integer setting, provider timeouts apart, is the integer the file has in its
    place, or the default when it has no integer there, and lies in the range of its
    machine type, so that nothing is truncated or wrapped; the routes are ordered
    longest pattern first, the preview features are a set, and every provider's
    family accepts its surfaces and its cached protocols and capabilities are the
    ones its surfaces derive. *)
Theorem parsed_config_wf `{GlobPattern} `{Toml} from_str env content c :
  config_parse from_str env content = Ok c →
  ∃ parsed, from_str content = Ok parsed ∧ numbers_read parsed c ∧ config_wf c.
Proof.
  unfold config_parse. intros (parsed & Hs & Hp)%result_bind_ok. exists parsed. split; [done|].
  split; [by eapply parse_config_read|by eapply parse_config_wf].
Qed.

Lemma parsed_config_wf_witness :
  ∃ c, ConfigDemo.config_of ConfigDemo.doc = Ok c ∧ numbers_read ConfigDemo.doc c ∧ config_wf c.
Proof.
  eexists. split; [vm_compute; reflexivity|].
  match goal with |- numbers_read _ ?c ∧ _ =>
    destruct (@parsed_config_wf prefix_glob toml_value_Toml (ConfigDemo.reader ConfigDemo.doc) ConfigDemo.env "" c)
      as (parsed & Hs & Hn & Hw) end; [vm_compute; reflexivity|].
  injection Hs as <-. split; [exact Hn|exact Hw].
Defined.

(** validation is exact: it accepts a configuration if and only if it is
    valid, field by field, and otherwise reports at least one error. *)
Theorem validate_exact `{GlobPattern} `{Toml} c :
  (validate c = Ok () ↔ config_valid c) ∧
  (∀ es, validate c = Err es → es ≠ [] ∧ ¬ config_valid c).
Proof.
  pose proof (config_errors_nil c) as [Hc Hv]. unfold validate.
  destruct (config_errors c) as [|e l].
  - split; [split; [intros _; by apply Hc|done]|done].
  - assert (¬ config_valid c) by (intros Hx; discriminate (Hv Hx)).
    split; [by split|]. by intros es [= <-].
Qed.

(** the router built from a parsed configuration is longest-match, and the
    route it gives a request of a validated configuration has a server to send
    it to, with one weight per server if it has weights. *)
Theorem config_routes_usable `{GlobPattern} `{Toml} from_str env content c path rc :
  config_parse from_str env content = Ok c → validate c = Ok () →
  get_route_config (router_new (cfg_routes c)) path = Some rc →
  servers rc ≠ [] ∧ "" ∉ servers rc ∧
  (∀ ws, weights rc = Some ws → length ws = length (servers rc) ∧ Forall in_u32 ws) ∧
  ∃ p, (p, rc) ∈ cfg_routes c ∧ pattern_matches p (normalize_path path) = true ∧
    ∀ q rc', (q, rc') ∈ cfg_routes c → pattern_matches q (normalize_path path) = true →
      (String.length (pattern_as_str q) ≤ String.length (pattern_as_str p))%nat.
Proof.
  intros Hp Hv Hr. unfold config_parse in Hp. inv_ok. apply parse_config_wf in Hp.
  pose proof (validate_valid _ _ Hv) as Hval.
  destruct (sorted_routes_longest (router_new (cfg_routes c)) _ _ (wf_sorted _ Hp) Hr) as (p & Hin & Hm).
  destruct (valid_routes _ Hval) as [_ HF]. rewrite Forall_forall in HF.
  destruct (HF _ Hin) as (Hne & Hempty & Hw). simpl in *.
  pose proof (wf_weights _ Hp) as HW. rewrite Forall_forall in HW.
  split_and!; [done| | |by exists p].
  - intros H0'. rewrite Forall_forall in Hempty. by apply (Hempty _ H0').
  - intros ws Hws. split; [by apply Hw|]. by apply (HW _ Hin).
Qed.

Lemma config_routes_usable_witness :
  let rc := {| servers := ["a:80"; "b:80"]; lb := WeightedRoundRobinS; weights := Some [3; 1]%Z |} in
  ∃ c, ConfigDemo.config_of ConfigDemo.doc = Ok c ∧
    get_route_config (router_new (cfg_routes c)) "/x/../api/y" = Some rc ∧ servers rc ≠ [].
Proof.
  intros rc. eexists. split; [vm_compute; reflexivity|]. split; [vm_compute; reflexivity|].
  apply (@config_routes_usable prefix_glob toml_value_Toml (ConfigDemo.reader ConfigDemo.doc) ConfigDemo.env ""
           _ "/x/../api/y" rc ltac:(vm_compute; reflexivity)); vm_compute; reflexivity.
Defined.

(** the providers of a parsed configuration are the entries of the file, in
    order: the name is kept, the key is the entry's, or the value of the
    environment variable it names (an unset variable rejects the file), an
    explicit family is the provider's family, and no entry uses the legacy
    fields. *)
Theorem providers_follow_entries `{GlobPattern} `{Toml} from_str env content parsed arr c i entry :
  from_str content = Ok parsed → toml_get parsed "providers" ≫= as_array = Some arr →
  config_parse from_str env content = Ok c → arr !! i = Some entry →
  ∃ p raw, cfg_providers c !! i = Some p ∧ str_at entry "name" = Some (pk_name p) ∧
    str_at entry "api_key" = Some raw ∧ resolve_env env raw = Ok (pk_api_key p) ∧
    (∀ f, str_at entry "family" = Some f → f = enum_str (family_kind p)) ∧
    has_legacy_provider_semantics entry = false.
Proof.
  intros Hs Harr Hp Hi. unfold config_parse in Hp. rewrite Hs in Hp. simpl in Hp.
  assert (parse_providers env parsed = Ok (cfg_providers c)) as Hps.
  { unfold parse_config in Hp. inv_ok. by subst c. }
  unfold parse_providers in Hps. rewrite Harr in Hps. apply collect_results_ok in Hps.
  assert (((λ e, parse_provider env e.1 e.2) <$> enumerate arr) !! i = Some (parse_provider env i entry)) as Hl.
  { unfold enumerate. rewrite list_lookup_fmap, list_lookup_imap, Hi. done. }
  rewrite Hps, list_lookup_fmap in Hl. apply fmap_Some in Hl as (p & Hpi & Hpar).
  exists p. apply parse_provider_inv in Hpar as (raw & ? & ? & ? & ? & ?). by exists raw.
Qed.

Lemma providers_follow_entries_witness :
  ∃ c p, ConfigDemo.config_of ConfigDemo.doc = Ok c ∧ cfg_providers c !! 0%nat = Some p ∧
    pk_name p = "mine".
Proof.
  eexists.
  destruct (@providers_follow_entries prefix_glob toml_value_Toml (ConfigDemo.reader ConfigDemo.doc)
    ConfigDemo.env "" ConfigDemo.doc _ _ 0 _ ltac:(reflexivity) ltac:(vm_compute; reflexivity)
    ltac:(vm_compute; reflexivity) ltac:(vm_compute; reflexivity)) as (p & raw & Hp & Hn & _).
  exists p. split; [vm_compute; reflexivity|]. split; [exact Hp|]. vm_compute in Hn. by injection Hn.
Defined.

(** the timeout of a provider is the one number that is not range-checked:
    a negative [timeout_secs] is accepted and wraps to a timeout of more than
    500 billion years, while every other negative duration rejects the file. *)
Theorem negative_provider_timeout_wraps :
  (∃ c p, ConfigDemo.config_of ConfigDemo.doc = Ok c ∧ validate c = Ok () ∧
     cfg_providers c = [p] ∧ pk_timeout_secs p = Some 18446744073709551615%Z) ∧
  ∃ e, ConfigDemo.config_of (TTable [("port", TInteger 8080); ("upstream_timeout_secs", TInteger (-1))])
       = Err e.
Proof. split; [|by eexists]. do 2 eexists. by split_and!; vm_compute. Qed.

(** [requests_per_second = nan] passes validation, because the check is
    that the rate is not at most zero. *)
Theorem nan_rate_is_valid :
  let doc := TTable [("port", TInteger 8080); ("paths", TTable [("/", TArray [TString "a:80"])]);
                     ("rate_limit", TTable [("requests_per_second", TFloat SpecFloat.S754_nan)])] in
  ∃ c r, ConfigDemo.config_of doc = Ok c ∧ validate c = Ok () ∧
    cfg_rate_limit c = Some r ∧ is_nan (requests_per_second r) = true.
Proof. do 2 eexists. by split_and!; vm_compute. Qed.
