(* ===== verification/RateLimit.v ===== *)
(** * Rate limiting

    Model of [proxy-core/src/rate_limit.rs]: token buckets keyed by [K], in
    binary64 arithmetic, and the per-address limiter built on them. *)

From S2P Require Import Prelude F64 Net.

Local Open Scope Z_scope.

(** ** A token bucket *)

Record TokenBucket := {
  tokens : f64;
  last_refill : Instant;
  rate : f64;
  max_burst : f64;
}.

Definition bucket_new (rate burst : f64) (now : Instant) : TokenBucket := {|
  tokens := burst;
  last_refill := now;
  rate := rate;
  max_burst := burst;
|}.

(** The refill both operations start with. *)
Definition refill (b : TokenBucket) (now : Instant) : TokenBucket :=
  let elapsed := as_secs_f64 (duration_since now (last_refill b)) in
  {| tokens := f64_min (f64_add (tokens b) (f64_mul elapsed (rate b))) (max_burst b);
     last_refill := now;
     rate := rate b;
     max_burst := max_burst b |}.

Definition bucket_try_consume (b : TokenBucket) (count : f64) (now : Instant)
    : TokenBucket * bool :=
  let b := refill b now in
  if f_le count (tokens b) then
    ({| tokens := f64_sub (tokens b) count;
        last_refill := last_refill b;
        rate := rate b;
        max_burst := max_burst b |}, true)
  else (b, false).

Definition peek_remaining (b : TokenBucket) (now : Instant) : TokenBucket * f64 :=
  let b := refill b now in (b, tokens b).

(** ** Buckets by key *)

Section buckets.
Context {K : Type} `{Countable K}.

Record TokenBucketMap := {
  buckets : gmap K TokenBucket;
  map_rate : f64;
  map_burst : f64;
}.

Definition map_new (rate_per_second burst : f64) : TokenBucketMap :=
  {| buckets := ∅; map_rate := rate_per_second; map_burst := burst |}.

Definition set_buckets (m : TokenBucketMap) (bs : gmap K TokenBucket) : TokenBucketMap :=
  {| buckets := bs; map_rate := map_rate m; map_burst := map_burst m |}.

(** [clk 0] is the reading of [TokenBucket::new], [clk 1] the one of the refill. *)
Definition try_consume (m : TokenBucketMap) (key : K) (count : f64) (clk : Clock)
    : TokenBucketMap * bool :=
  let b := default (bucket_new (map_rate m) (map_burst m) (clk 0%nat)) (buckets m !! key) in
  let '(b', ok) := bucket_try_consume b count (clk 1%nat) in
  (set_buckets m (<[key := b']> (buckets m)), ok).

Definition f64_one : f64 := f64_of_Z 1.

Definition check (m : TokenBucketMap) (key : K) (clk : Clock) : TokenBucketMap * bool :=
  try_consume m key f64_one clk.

(** Keeps the buckets refilled within the last five minutes. *)
Definition cleanup (m : TokenBucketMap) (now : Instant) : TokenBucketMap :=
  let cutoff := now - from_secs 300 in
  set_buckets m (filter (λ e, cutoff < last_refill e.2) (buckets m)).

Definition remaining_for_key (m : TokenBucketMap) (key : K) (now : Instant)
    : TokenBucketMap * option f64 :=
  match buckets m !! key with
  | Some b =>
      let '(b', t) := peek_remaining b now in
      (set_buckets m (<[key := b']> (buckets m)), Some t)
  | None => (m, None)
  end.

Definition len (m : TokenBucketMap) : nat := size (buckets m).
Definition is_empty (m : TokenBucketMap) : bool := (len m =? 0)%nat.

(** The operations as a transition system. *)
Inductive rl_op :=
| OpConsume (key : K) (count : f64) (clk : Clock)
| OpCleanup (now : Instant)
| OpRemaining (key : K) (now : Instant).

Definition rl_apply (m : TokenBucketMap) (o : rl_op) : TokenBucketMap :=
  match o with
  | OpConsume k c clk => (try_consume m k c clk).1
  | OpCleanup now => cleanup m now
  | OpRemaining k now => (remaining_for_key m k now).1
  end.

(** Every bucket carries the limiter's own rate and burst. *)
Definition map_wf (m : TokenBucketMap) : Prop :=
  map_Forall (λ _ b, rate b = map_rate m ∧ max_burst b = map_burst m) (buckets m).

End buckets.
Arguments TokenBucketMap K {_ _}.
Arguments rl_op K : clear implicits.

(** ** The per-address limiter *)

Record RateLimiter := { rl_inner : TokenBucketMap IpAddr }.

Definition limiter_new (requests_per_second : f64) (burst : Z) : RateLimiter :=
  {| rl_inner := map_new requests_per_second (f64_of_Z burst) |}.

Definition limiter_check (l : RateLimiter) (a : IpAddr) (clk : Clock) : RateLimiter * bool :=
  let '(m, ok) := check (rl_inner l) a clk in ({| rl_inner := m |}, ok).

Definition limiter_cleanup (l : RateLimiter) (now : Instant) : RateLimiter :=
  {| rl_inner := cleanup (rl_inner l) now |}.

(** ** Lemmas *)

Lemma refill_params b now : rate (refill b now) = rate b ∧ max_burst (refill b now) = max_burst b.
Proof. done. Qed.

Lemma refill_capped b now :
  is_nan (max_burst b) = false → f_le (tokens (refill b now)) (max_burst b) = true.
Proof. intros H. apply f64_min_le. exact H. Qed.

Lemma bucket_try_consume_params b c now :
  rate (bucket_try_consume b c now).1 = rate b ∧
  max_burst (bucket_try_consume b c now).1 = max_burst b.
Proof. unfold bucket_try_consume. by case_match. Qed.

Lemma rl_apply_params `{Countable K} (m : TokenBucketMap K) o :
  map_rate (rl_apply m o) = map_rate m ∧ map_burst (rl_apply m o) = map_burst m.
Proof.
  destruct o; simpl; unfold try_consume, remaining_for_key; [by case_match|done|].
  by repeat case_match.
Qed.

Lemma rl_apply_wf `{Countable K} (m : TokenBucketMap K) o : map_wf m → map_wf (rl_apply m o).
Proof.
  intros Hwf. destruct o as [k c clk|now|k now]; simpl.
  - unfold try_consume. set (b := default _ _).
    assert (rate b = map_rate m ∧ max_burst b = map_burst m) as Hb.
    { subst b. destruct (buckets m !! k) eqn:E; [by eapply Hwf|done]. }
    pose proof (bucket_try_consume_params b c (clk 1%nat)) as Hp.
    destruct (bucket_try_consume _ _ _) as [b' ok]. simpl in *.
    apply map_Forall_insert_2; [|done]. simpl. by destruct Hp as [-> ->].
  - unfold cleanup. intros k b [Hb _]%map_lookup_filter_Some. by eapply Hwf.
  - unfold remaining_for_key. destruct (buckets m !! k) eqn:E; [|done]. simpl.
    apply map_Forall_insert_2; [|done]. exact (Hwf _ _ E).
Qed.

Lemma rl_run_inv `{Countable K} (m : TokenBucketMap K) os :
  map_wf m →
  let m' := foldl rl_apply m os in
  map_wf m' ∧ map_rate m' = map_rate m ∧ map_burst m' = map_burst m.
Proof.
  intros Hwf. revert m Hwf. induction os as [|o os IH]; intros m Hwf; simpl; [done|].
  destruct (IH _ (rl_apply_wf m o Hwf)) as (H1 & -> & ->).
  destruct (rl_apply_params m o) as [-> ->]. done.
Qed.

Lemma map_new_wf `{Countable K} r b : map_wf (K:=K) (map_new r b).
Proof. apply map_Forall_empty. Qed.

#[export] Hint Resolve map_new_wf rl_apply_wf refill_capped : trp.

(** The bucket a consume sees carries the limiter's parameters. *)
Lemma consumed_bucket_params `{Countable K} (m : TokenBucketMap K) key now :
  map_wf m →
  let b := default (bucket_new (map_rate m) (map_burst m) now) (buckets m !! key) in
  rate b = map_rate m ∧ max_burst b = map_burst m.
Proof. intros Hwf. simpl. destruct (buckets m !! key) eqn:E; [by eapply Hwf|done]. Qed.

Lemma try_consume_ok `{Countable K} (m : TokenBucketMap K) key count clk :
  (try_consume m key count clk).2 =
  f_le count (tokens (refill (default (bucket_new (map_rate m) (map_burst m) (clk 0%nat))
                                (buckets m !! key)) (clk 1%nat))).
Proof. unfold try_consume, bucket_try_consume. by destruct (f_le _ _). Qed.

(** The level a consume sees is at most the limiter's burst. *)
Lemma consumed_level_capped `{Countable K} (m : TokenBucketMap K) key (clk : Clock) :
  map_wf m → is_nan (map_burst m) = false →
  f_le (tokens (refill (default (bucket_new (map_rate m) (map_burst m) (clk 0%nat))
                         (buckets m !! key)) (clk 1%nat))) (map_burst m) = true.
Proof.
  intros Hwf Hn. destruct (consumed_bucket_params m key (clk 0%nat) Hwf) as [_ Hmb].
  rewrite <- Hmb at 2. apply refill_capped. by rewrite Hmb.
Qed.

Lemma SFmul_nan_r x : f64_mul x S754_nan = S754_nan.
Proof. by destruct x. Qed.

Lemma SFadd_nan_r x : f64_add x S754_nan = S754_nan.
Proof. by destruct x. Qed.

(** ** Properties *)

(** a request is admitted exactly when the refilled level covers its cost;
    the refilled level never exceeds the burst; a refused request leaves the
    level untouched and an admitted one pays its cost. *)
Theorem bucket_decision b count now :
  is_nan (max_burst b) = false →
  let level := tokens (refill b now) in
  f_le level (max_burst b) = true ∧
  ((bucket_try_consume b count now).2 = true ↔ f_le count level = true) ∧
  tokens (bucket_try_consume b count now).1 =
    if f_le count level then f64_sub level count else level.
Proof.
  intros Hb level. split; [by apply refill_capped|].
  unfold bucket_try_consume. fold level. by destruct (f_le count level).
Qed.

Lemma bucket_decision_witness :
  let b := bucket_new (f64_of_Z 10) (f64_of_Z 3) 0 in
  f_le (tokens (refill b (from_secs 5))) (f64_of_Z 3) = true ∧
  (bucket_try_consume b (f64_of_Z 4) (from_secs 5)).2 = false.
Proof.
  intros b.
  destruct (bucket_decision b (f64_of_Z 4) (from_secs 5) eq_refl) as (H1 & H2 & _).
  split; [exact H1|]. apply not_true_is_false. intros H%H2. vm_compute in H. discriminate H.
Defined.

(** a limiter with burst 0 refuses every request of positive cost, after
    any sequence of operations and however long the wait. *)
Theorem zero_burst_rejects_all `{Countable K} (r : f64) (os : list (rl_op K)) key count clk :
  f_lt f_zero count = true →
  (try_consume (foldl rl_apply (map_new r f_zero) os) key count clk).2 = false.
Proof.
  intros Hc. destruct (rl_run_inv (map_new r f_zero) os (map_new_wf r f_zero))
    as (Hwf & _ & Hb). rewrite try_consume_ok.
  apply f_le_zero_pos; [|done]. simpl in Hb.
  pose proof (consumed_level_capped _ key clk Hwf) as Hcap. rewrite Hb in Hcap |- *.
  by apply Hcap.
Qed.

Lemma zero_burst_rejects_all_witness :
  (limiter_check (limiter_new (f64_of_Z 1000) 0) (V4 1) (λ _, from_secs 10)).2 = false.
Proof.
  exact (zero_burst_rejects_all (K:=IpAddr) (f64_of_Z 1000) [] (V4 1) f64_one
           (λ _, from_secs 10) eq_refl).
Defined.

(** a limiter whose rate is NaN never limits: every refill resets the
    level to the full burst, so every request of cost at most the burst is
    admitted. *)
Theorem nan_rate_admits_all `{Countable K} (burst : f64) (os : list (rl_op K)) key count clk :
  is_nan burst = false → f_le count burst = true →
  (try_consume (foldl rl_apply (map_new S754_nan burst) os) key count clk).2 = true.
Proof.
  intros Hn Hc. destruct (rl_run_inv (map_new S754_nan burst) os (map_new_wf _ _))
    as (Hwf & Hr & Hb). rewrite try_consume_ok.
  destruct (consumed_bucket_params _ key (clk 0%nat) Hwf) as [Hr' Hb'].
  unfold refill. simpl tokens. rewrite Hr', Hb', Hr, Hb. simpl.
  rewrite SFmul_nan_r, SFadd_nan_r. unfold f64_min. done.
Qed.

Lemma nan_rate_admits_all_witness :
  (limiter_check (limiter_new S754_nan 5) (V4 1) (λ _, 0)).2 = true.
Proof.
  exact (nan_rate_admits_all (K:=IpAddr) (f64_of_Z 5) [] (V4 1) f64_one (λ _, 0) eq_refl eq_refl).
Defined.

(** buckets are independent: consuming for one key changes neither the
    level nor the decision for another. *)
Theorem buckets_independent `{Countable K} (m : TokenBucketMap K) k k' count clk count' clk' :
  k ≠ k' →
  buckets (try_consume m k count clk).1 !! k' = buckets m !! k' ∧
  (try_consume (try_consume m k count clk).1 k' count' clk').2 = (try_consume m k' count' clk').2.
Proof.
  intros Hne.
  assert (buckets (try_consume m k count clk).1 !! k' = buckets m !! k') as Hb.
  { unfold try_consume. case_match. simpl. by apply lookup_insert_ne. }
  split; [done|]. rewrite !try_consume_ok, Hb.
  destruct (rl_apply_params m (OpConsume k count clk)) as [Hr Hbu]. simpl in Hr, Hbu.
  by rewrite Hr, Hbu.
Qed.

Lemma buckets_independent_witness :
  let m := map_new (K:=IpAddr) (f64_of_Z 1) (f64_of_Z 1) in
  (check (check m (V4 1) (λ _, 0)).1 (V4 2) (λ _, 0)).2 = true.
Proof.
  intros m. unfold check at 1 2.
  rewrite (proj2 (buckets_independent m (V4 1) (V4 2) f64_one (λ _, 0) f64_one (λ _, 0)
                    ltac:(discriminate))).
  vm_compute. reflexivity.
Defined.

(** [cleanup] keeps exactly the buckets refilled in the last 300 seconds,
    unchanged. *)
Theorem cleanup_keeps_recent `{Countable K} (m : TokenBucketMap K) now k b :
  buckets (cleanup m now) !! k = Some b ↔
  buckets m !! k = Some b ∧ now - from_secs 300 < last_refill b.
Proof. unfold cleanup. simpl. by rewrite map_lookup_filter_Some. Qed.

(** [cleanup] is not neutral for slow rates: at one token per 1000
    seconds and a burst of 1, a client that was just served is refused 301
    seconds later, but admitted if a cleanup ran in between, because its
    bucket was dropped and starts full again. *)
Theorem cleanup_resets_slow_buckets :
  let rate := f64_div (f64_of_Z 1) (f64_of_Z 1000) in
  let l0 := limiter_new rate 1 in
  let a := V4 2130706433 in
  let l1 := (limiter_check l0 a (λ _, 0)).1 in
  let later := λ _ : nat, from_secs 301 in
  (limiter_check l0 a (λ _, 0)).2 = true ∧
  (limiter_check l1 a later).2 = false ∧
  (limiter_check (limiter_cleanup l1 (from_secs 301)) a later).2 = true.
Proof. vm_compute. done. Qed.
