(* ===== verification/ProxyProtocol.v ===== *)
(** * PROXY protocol

    Model of [proxy-core/src/proxy_protocol.rs]: the reader of PROXY protocol
    v1 and v2 headers.  A TCP stream is the list of bytes the peer sends before
    it closes; a read that the stream cannot satisfy is an error. *)

From S2P Require Import Prelude RustStr Utf8 Net.

Local Open Scope string_scope.
Local Open Scope list_scope.
Local Open Scope Z_scope.

Notation bytes := (list Z).

Definition byte_ok (b : Z) : Prop := 0 ≤ b < 256.

Inductive PpError :=
| UnexpectedEof
| InvalidHeader
| NoCrlf
| Utf8Error
| V1Format
| AddrParseError
| PortParseError
| V2TooShort
| V2Version
| V2Incomplete
| V2Ipv4Short
| V2Ipv6Short
| V2Family (family : Z).

(** ** The stream reader: a state and error monad *)

Definition Rd (A : Type) := bytes → result PpError A * bytes.

Definition rd_ret {A} (r : result PpError A) : Rd A := λ s, (r, s).

Definition rd_bind {A B} (m : Rd A) (k : A → Rd B) : Rd B := λ s,
  match m s with
  | (Ok a, s') => k a s'
  | (Err e, s') => (Err e, s')
  end.

Notation "'let*' x ':=' m 'in' k" := (rd_bind m (λ x, k))
  (at level 10, x name, m at level 100, k at level 200) : rust_scope.
Local Open Scope rust_scope.

(** [AsyncReadExt::read_exact] of a buffer of [n] bytes. *)
Definition read_exact (n : nat) : Rd bytes := λ s,
  if Nat.leb n (length s) then (Ok (take n s), drop n s) else (Err UnexpectedEof, []).

(** ** Bytes and text *)

(** [str::from_utf8]: the well-formed byte sequences of Unicode. *)
Definition cont (b : Z) : bool := (128 <=? b) && (b <=? 191).

Definition between (lo hi b : Z) : bool := (lo <=? b) && (b <=? hi).

Fixpoint utf8_valid (l : bytes) : bool :=
  match l with
  | [] => true
  | b :: l1 =>
      if b <? 128 then utf8_valid l1
      else match l1 with
      | [] => false
      | c1 :: l2 =>
          if between 194 223 b then cont c1 && utf8_valid l2
          else match l2 with
          | [] => false
          | c2 :: l3 =>
              if b =? 224 then between 160 191 c1 && cont c2 && utf8_valid l3
              else if b =? 237 then between 128 159 c1 && cont c2 && utf8_valid l3
              else if between 225 239 b then cont c1 && cont c2 && utf8_valid l3
              else match l3 with
              | [] => false
              | c3 :: l4 =>
                  let first := if b =? 240 then between 144 191 c1
                               else if b =? 244 then between 128 143 c1
                               else between 241 243 b && cont c1 in
                  first && cont c2 && cont c3 && utf8_valid l4
              end
          end
      end
  end.

Fixpoint string_of_bytes (l : bytes) : string :=
  match l with
  | [] => ""
  | b :: l' => String (Ascii.ascii_of_N (Z.to_N b)) (string_of_bytes l')
  end.

Definition from_utf8 (l : bytes) : option string :=
  if utf8_valid l then Some (string_of_bytes l) else None.

Definition crlf : bytes := [13; 10].

Definition crlf_str : string := string_of_bytes crlf.

(** [slice::ends_with] *)
Definition bytes_ends_with (l suf : bytes) : bool :=
  Nat.leb (length suf) (length l) && bool_decide (drop (length l - length suf)%nat l = suf).

(** ** The parsers *)

(** A slice index [buf[i]]; the theorems show every index used is in range. *)
Definition at_ (buf : bytes) (i : nat) : Z := default 0 (buf !! i).

(** The address of a v1 header line (without its CRLF). *)
Definition parse_v1_line (header_line : string) : result PpError SocketAddr :=
  let parts := split " " header_line in
  match parts with
  | p0 :: _ :: p2 :: _ :: p4 :: _ :: _ =>
      if negb (String.eqb p0 "PROXY") then Err V1Format
      else
        let? src_ip := ok_or (parse_ip p2) AddrParseError in
        let? src_port := ok_or (parse_uint u16_max p4) PortParseError in
        Ok {| ip := src_ip; port := src_port |}
  | _ => Err V1Format
  end.

Definition parse_v1 (buf : bytes) : result PpError (SocketAddr * bytes) :=
  let? header_str := ok_or (from_utf8 buf) Utf8Error in
  let? end_ := ok_or (str_find crlf_str header_str) NoCrlf in
  let header_line := String.substring 0 end_ header_str in
  let remaining := drop (end_ + 2)%nat buf in
  let? addr := parse_v1_line header_line in
  Ok (addr, remaining).

Definition parse_v2 (buf : bytes) : result PpError (SocketAddr * bytes) :=
  if Nat.ltb (length buf) 16 then Err V2TooShort
  else
    let ver_cmd := at_ buf 12 in
    let family := at_ buf 13 in
    let len := Z.to_nat (from_be_bytes [at_ buf 14; at_ buf 15]) in
    if negb (Z.land ver_cmd 240 =? 32) then Err V2Version
    else
      let header_len := (16 + len)%nat in
      if Nat.ltb (length buf) header_len then Err V2Incomplete
      else
        let remaining := drop header_len buf in
        if family =? 17 then
          if Nat.ltb len 12 then Err V2Ipv4Short
          else
            let src_ip := from_be_bytes [at_ buf 16; at_ buf 17; at_ buf 18; at_ buf 19] in
            let src_port := from_be_bytes [at_ buf 24; at_ buf 25] in
            Ok ({| ip := V4 src_ip; port := src_port |}, remaining)
        else if family =? 33 then
          if Nat.ltb len 36 then Err V2Ipv6Short
          else
            let src_ip := from_be_bytes (take 16 (drop 16 buf)) in
            let src_port := from_be_bytes [at_ buf 48; at_ buf 49] in
            Ok ({| ip := V6 src_ip; port := src_port |}, remaining)
        else Err (V2Family family).

Definition v2_sig : bytes := [13; 10; 13; 10; 0; 13; 10; 81; 85; 73; 84; 10].

Definition proxy_tag : bytes := [80; 82; 79; 88; 89; 32].

(** The byte-at-a-time loop: [n] is what is left of the 107 bytes. *)
Fixpoint read_line (n : nat) (header : bytes) : Rd bytes :=
  match n with
  | O => rd_ret (Ok header)
  | S n' =>
      if bytes_ends_with header crlf then rd_ret (Ok header)
      else let* byte := read_exact 1 in read_line n' (header ++ byte)
  end.

Definition parse_proxy_protocol : Rd (SocketAddr * bytes) :=
  let* prefix := read_exact 12 in
  if bool_decide (prefix = v2_sig) then
    let* header_rest := read_exact 4 in
    let payload_len := Z.to_nat (from_be_bytes [at_ header_rest 2; at_ header_rest 3]) in
    let* payload := read_exact payload_len in
    let full := prefix ++ header_rest ++ payload in
    rd_ret (parse_v2 full)
  else if negb (bool_decide (take 6 prefix = proxy_tag)) then rd_ret (Err InvalidHeader)
  else
    let* header := read_line (107 - 12) prefix in
    if negb (bytes_ends_with header crlf) then rd_ret (Err NoCrlf)
    else rd_ret (parse_v1 header).

(** ** Senders, as the PROXY protocol specification describes them *)

(** A v2 header for a TCP connection: signature, version and command, family,
    length, addresses, ports, then TLVs the receiver ignores. *)
Definition encode_v2 (cmd : Z) (src dst : SocketAddr) (tlvs : bytes) : bytes :=
  let '(family, body) :=
    match ip src, ip dst with
    | V4 s, V4 d => (17, to_be_bytes 4 s ++ to_be_bytes 4 d)
    | V6 s, V6 d => (33, to_be_bytes 16 s ++ to_be_bytes 16 d)
    | _, _ => (0, [])
    end in
  let payload := body ++ to_be_bytes 2 (port src) ++ to_be_bytes 2 (port dst) ++ tlvs in
  v2_sig ++ [32 + cmd; family] ++ to_be_bytes 2 (Z.of_nat (length payload)) ++ payload.

Definition encode_v1_line (proto src dst sport dport : string) : string :=
  join " " ["PROXY"; proto; src; dst; sport; dport].

(** ** Lemmas: reading *)

(** [m] consumes a prefix of the stream and its result depends on that prefix
    alone. *)
Definition framed {A} (m : Rd A) : Prop :=
  ∀ s a rest, m s = (Ok a, rest) →
  ∃ hdr, s = hdr ++ rest ∧ ∀ rest', m (hdr ++ rest') = (Ok a, rest').

Lemma framed_ret {A} (r : result PpError A) : framed (rd_ret r).
Proof. intros s a rest [= -> ->]. by exists []. Qed.

Lemma framed_bind {A B} (m : Rd A) (k : A → Rd B) :
  framed m → (∀ a, framed (k a)) → framed (rd_bind m k).
Proof.
  intros Hm Hk s b rest. unfold rd_bind. destruct (m s) as [[a|e] s1] eqn:E; [|done].
  intros E2. destruct (Hm _ _ _ E) as (h1 & -> & H1).
  destruct (Hk _ _ _ _ E2) as (h2 & -> & H2).
  exists (h1 ++ h2). split; [by rewrite app_assoc|].
  intros rest'. by rewrite <- app_assoc, H1, H2.
Qed.

Lemma read_exact_app n l rest : length l = n → read_exact n (l ++ rest) = (Ok l, rest).
Proof.
  intros <-. unfold read_exact. rewrite length_app, (proj2 (Nat.leb_le _ _)) by lia.
  by rewrite take_app_length, drop_app_length.
Qed.

Lemma framed_read_exact n : framed (read_exact n).
Proof.
  intros s a rest. unfold read_exact. destruct (Nat.leb n (length s)) eqn:E; [|done].
  intros [= <- <-]. exists (take n s). apply Nat.leb_le in E.
  split; [by rewrite take_drop|]. intros rest'. apply read_exact_app.
  rewrite length_take. lia.
Qed.

Lemma framed_if {A} (b : bool) (m1 m2 : Rd A) :
  framed m1 → framed m2 → framed (if b then m1 else m2).
Proof. by destruct b. Qed.

Lemma framed_read_line n header : framed (read_line n header).
Proof.
  revert header. induction n as [|n IH]; intros header; simpl; [apply framed_ret|].
  apply framed_if; [apply framed_ret|]. apply framed_bind; [apply framed_read_exact|auto].
Qed.

#[export] Hint Resolve framed_ret framed_bind framed_read_exact framed_if framed_read_line : trp.

Lemma framed_parse : framed parse_proxy_protocol.
Proof. unfold parse_proxy_protocol. eauto 20 with trp. Qed.

Lemma rd_bind_ok {A B} (m : Rd A) (k : A → Rd B) s b rest :
  rd_bind m k s = (Ok b, rest) ↔ ∃ a s', m s = (Ok a, s') ∧ k a s' = (Ok b, rest).
Proof.
  unfold rd_bind. destruct (m s) as [[a|e] s'] eqn:E; split; try naive_solver.
Qed.

Lemma rd_bind_step {A B} (m : Rd A) (k : A → Rd B) s a s' :
  m s = (Ok a, s') → rd_bind m k s = k a s'.
Proof. unfold rd_bind. by intros ->. Qed.

Lemma read_exact_ok n s l rest :
  read_exact n s = (Ok l, rest) → s = l ++ rest ∧ length l = n.
Proof.
  unfold read_exact. destruct (Nat.leb n (length s)) eqn:E; [|done].
  apply Nat.leb_le in E. intros [= <- <-]. rewrite take_drop, length_take. split; [done|lia].
Qed.

(** ** Lemmas: text *)

Lemma byte_ascii b : byte_ok b → Z.of_N (Ascii.N_of_ascii (Ascii.ascii_of_N (Z.to_N b))) = b.
Proof.
  unfold byte_ok. intros Hb. rewrite Ascii.N_ascii_embedding by lia. lia.
Qed.

Lemma bytes_of_cons a s : bytes_of (String a s) = Z.of_N (Ascii.N_of_ascii a) :: bytes_of s.
Proof. done. Qed.

Lemma string_of_bytes_of s : string_of_bytes (bytes_of s) = s.
Proof.
  induction s as [|a s IH]; [done|]. rewrite bytes_of_cons. simpl.
  by rewrite N2Z.id, Ascii.ascii_N_embedding, IH.
Qed.

Lemma length_bytes_of s : length (bytes_of s) = String.length s.
Proof. induction s as [|a s IH]; [done|]. rewrite bytes_of_cons. simpl. by rewrite IH. Qed.

Lemma bytes_of_app a b : bytes_of (a +:+ b) = bytes_of a ++ bytes_of b.
Proof.
  induction a as [|x a IH]; [done|]. change (String x a +:+ b) with (String x (a +:+ b)).
  by rewrite !bytes_of_cons, IH.
Qed.

Lemma string_of_bytes_app a b : string_of_bytes (a ++ b) = string_of_bytes a +:+ string_of_bytes b.
Proof. induction a as [|x a IH]; simpl; [done|]. by rewrite IH. Qed.

Lemma length_string_of_bytes l : String.length (string_of_bytes l) = length l.
Proof. induction l as [|x l IH]; simpl; [done|]. by rewrite IH. Qed.

Lemma visible_bytes s : visible s = true → Forall (λ b, 9 ≤ b < 128 ∧ b ≠ 13) (bytes_of s).
Proof.
  unfold visible. induction (bytes_of s) as [|b l IH]; simpl; [constructor|].
  intros [Hb Hl]%andb_true_iff. constructor; [|auto].
  unfold visible_byte in Hb. lia.
Qed.

Lemma utf8_valid_ascii l : Forall (λ b, b < 128) l → utf8_valid l = true.
Proof.
  induction 1 as [|b l Hb _ IH]; simpl; [done|]. by rewrite (proj2 (Z.ltb_lt _ _) Hb).
Qed.

Lemma bytes_ends_with_spec l suf : bytes_ends_with l suf = true ↔ ∃ l', l = l' ++ suf.
Proof.
  unfold bytes_ends_with. rewrite andb_true_iff, Nat.leb_le, bool_decide_eq_true. split.
  - intros [Hl Hd]. exists (take (length l - length suf) l). by rewrite <- Hd at 2; rewrite take_drop.
  - intros (l' & ->). rewrite length_app. split; [lia|].
    replace (length l' + length suf - length suf)%nat with (length l') by lia.
    by rewrite drop_app_length.
Qed.

(** A CR-free body leaves only the CRLF at the end. *)
Lemma crlf_only_at_end b d x t :
  13 ∉ b → d ++ crlf ++ x :: t = b ++ crlf → False.
Proof.
  intros Hb Heq. unfold crlf in Heq.
  assert (length (d ++ [13; 10] ++ x :: t) = length (b ++ [13; 10])) as Hlen by congruence.
  rewrite !length_app in Hlen. simpl in Hlen. apply Hb.
  assert ((b ++ [13; 10]) !! length d = Some 13) as Hl.
  { by rewrite <- Heq, lookup_app_r, Nat.sub_diag by lia. }
  rewrite lookup_app_l in Hl by lia. by eapply list_elem_of_lookup_2.
Qed.

Lemma read_line_to_crlf b todo : ∀ done n rest,
  13 ∉ b → done ++ todo = b ++ crlf → (length todo ≤ n)%nat →
  read_line n done (todo ++ rest) = (Ok (b ++ crlf), rest).
Proof.
  induction todo as [|x todo IH]; intros dn n rest Hb Heq Hn.
  - rewrite app_nil_r in Heq. subst dn.
    assert (bytes_ends_with (b ++ crlf) crlf = true) as E by (apply bytes_ends_with_spec; eauto).
    destruct n; simpl; [done|]. by rewrite E.
  - destruct n as [|n]; simpl in Hn; [lia|]. simpl.
    destruct (bytes_ends_with dn crlf) eqn:E.
    { apply bytes_ends_with_spec in E as (d & ->). exfalso.
      rewrite <- app_assoc in Heq. by eapply crlf_only_at_end. }
    change (x :: todo ++ rest) with ([x] ++ todo ++ rest).
    erewrite rd_bind_step by by apply read_exact_app.
    apply IH; [done| |lia]. by rewrite <- app_assoc.
Qed.

Lemma str_find_crlf b :
  Forall byte_ok b → 13 ∉ b → str_find crlf_str (string_of_bytes (b ++ crlf)) = Some (length b).
Proof.
  induction 1 as [|x b Hx _ IH]; intros Hb; [done|].
  apply not_elem_of_cons in Hb as [Hx13 Hb]. cbn [app string_of_bytes str_find].
  destruct (starts_with _ crlf_str) eqn:E; [|by rewrite IH].
  apply starts_with_spec in E as (r & Ha). injection Ha as Ha _.
  apply (f_equal (λ a, Z.of_N (Ascii.N_of_ascii a))) in Ha.
  rewrite byte_ascii in Ha by done. by vm_compute in Ha.
Qed.

Lemma substring_app_length a b : String.substring 0 (String.length a) (a +:+ b) = a.
Proof. induction a as [|x a IH]; simpl; [by destruct b|]. by rewrite IH. Qed.

Lemma visible_no_cr s : visible s = true → 13 ∉ bytes_of s ∧ Forall byte_ok (bytes_of s) ∧
  utf8_valid (bytes_of s ++ crlf) = true.
Proof.
  intros Hv%visible_bytes. split_and!.
  - intros Hin. rewrite Forall_forall in Hv. by destruct (Hv _ Hin).
  - eapply Forall_impl; [done|]. unfold byte_ok. simpl. lia.
  - apply utf8_valid_ascii, Forall_app_2; [|by repeat constructor].
    eapply Forall_impl; [done|]. simpl. lia.
Qed.

Lemma parse_v1_crlf line :
  visible line = true →
  parse_v1 (bytes_of line ++ crlf) = result_map (λ a, (a, [])) (parse_v1_line line).
Proof.
  intros (Hcr & Hok & Hutf)%visible_no_cr. unfold parse_v1, from_utf8. rewrite Hutf. simpl.
  rewrite str_find_crlf by done. simpl.
  rewrite string_of_bytes_app, string_of_bytes_of, length_bytes_of, substring_app_length.
  rewrite drop_ge; [|rewrite length_app, length_bytes_of; simpl; lia].
  by destruct (parse_v1_line line).
Qed.

(** A whole v1 header, whatever follows it. *)
Lemma parse_v1_header line rest :
  visible line = true → starts_with line "PROXY " = true →
  (10 ≤ String.length line ≤ 105)%nat →
  parse_proxy_protocol (bytes_of line ++ crlf ++ rest) =
    (result_map (λ a, (a, [])) (parse_v1_line line), rest).
Proof.
  intros Hv [r Hp]%starts_with_spec Hlen.
  destruct (visible_no_cr _ Hv) as (Hcr & _ & _).
  pose proof (length_bytes_of line) as Hlb.
  set (w := bytes_of line ++ crlf).
  assert (length w = String.length line + 2)%nat as Hw.
  { subst w. rewrite length_app, Hlb. done. }
  rewrite app_assoc. fold w. rewrite <- (take_drop 12 w), <- app_assoc.
  unfold parse_proxy_protocol.
  erewrite rd_bind_step by (apply read_exact_app; rewrite length_take; lia).
  assert (take 6 (take 12 w) = proxy_tag) as Htag.
  { subst w. rewrite Hp, bytes_of_app, <- app_assoc. rewrite take_take. done. }
  rewrite bool_decide_eq_false_2; [|by intros E; rewrite E in Htag].
  rewrite bool_decide_eq_true_2 by done. cbn [negb].
  erewrite rd_bind_step
    by (apply (read_line_to_crlf (bytes_of line)); [done|by rewrite take_drop|rewrite length_drop; lia]).
  rewrite (proj2 (bytes_ends_with_spec _ _)) by eauto. simpl. unfold rd_ret.
  by rewrite parse_v1_crlf.
Qed.

(** ** Lemmas: what a successful parse has read *)

Lemma bytes_of_string_of l : Forall byte_ok l → bytes_of (string_of_bytes l) = l.
Proof.
  induction 1 as [|b l Hb _ IH]; [done|]. simpl. by rewrite bytes_of_cons, byte_ascii, IH.
Qed.

Lemma join_length sep l :
  (length l ≤ S (String.length (join (String sep "") l)) ∧
   ∀ x, head l = Some x → String.length x + length l ≤ S (String.length (join (String sep "") l)))%nat.
Proof.
  induction l as [|x l [IH _]]; [simpl; split; [lia|done]|].
  destruct l as [|y l]; [simpl; split; [lia|naive_solver lia]|].
  change (join (String sep "") (x :: y :: l)) with (x +:+ String sep (join (String sep "") (y :: l))).
  rewrite str_length_app. cbn [String.length length] in *.
  split; [lia|]. intros ? [= <-]. lia.
Qed.

(** A header line that parses has at least the five spaces and the tag. *)
Lemma parse_v1_line_length line a : parse_v1_line line = Ok a → (10 ≤ String.length line)%nat.
Proof.
  unfold parse_v1_line. intros H. pose proof (join_length " " (split " " line)) as [_ Hj].
  rewrite join_split in Hj.
  destruct (split " " line) as [|p0 [|? [|? [|? [|? [|? ?]]]]]]; try done.
  specialize (Hj _ eq_refl). simpl in Hj.
  destruct (String.eqb p0 "PROXY") eqn:E; [|done]. bool_to_prop. subst p0. simpl in Hj. lia.
Qed.

Lemma read_line_extends n : ∀ h s h' rest,
  read_line n h s = (Ok h', rest) → ∃ t, h' = h ++ t.
Proof.
  induction n as [|n IH]; intros h s h' rest; simpl.
  { intros [= -> _]. exists []. by rewrite app_nil_r. }
  case_match; [intros [= -> _]; exists []; by rewrite app_nil_r|].
  intros (c & s' & _ & H')%rd_bind_ok. destruct (IH _ _ _ _ H') as (t & ->).
  exists (c ++ t). by rewrite app_assoc.
Qed.

Lemma read_line_result n : ∀ h s h' rest,
  read_line n h s = (Ok h', rest) →
  (length h' ≤ length h + n)%nat ∧ s = drop (length h) h' ++ rest ∧
  ∀ d x t, h' = d ++ x :: t → (length h ≤ length d)%nat → bytes_ends_with d crlf = false.
Proof.
  assert (∀ (h d t : bytes) x, h = d ++ x :: t → (length h ≤ length d)%nat → False) as Habs.
  { intros h d t x -> Hl. rewrite length_app in Hl. simpl in Hl. lia. }
  induction n as [|n IH]; intros h s h' rest; simpl.
  { intros [= -> ->]. rewrite drop_all. split_and!; [lia|done|]. intros. by exfalso; eapply Habs. }
  destruct (bytes_ends_with h crlf) eqn:E.
  { intros [= -> ->]. rewrite drop_all. split_and!; [lia|done|]. intros. by exfalso; eapply Habs. }
  intros (b & s' & [-> Hlb]%read_exact_ok & H)%rd_bind_ok.
  destruct b as [|b [|]]; try done.
  destruct (IH _ _ _ _ H) as (Hl & -> & Hne). rewrite length_app in *. simpl in *.
  destruct (read_line_extends _ _ _ _ _ H) as (t & ->). rewrite <- app_assoc in *. simpl in *.
  split_and!; [lia| |].
  - rewrite drop_app_length. rewrite <- drop_drop, drop_app_length. done.
  - intros d x u Hd Hle.
    destruct (decide (length d = length h)) as [Hdh|].
    + destruct (app_inj_1 h d (b :: t) (x :: u)) as [-> _]; [done|by rewrite Hd|done].
    + eapply Hne; [by apply Hd|lia].
Qed.

Lemma parse_v1_no_remaining h' a rem :
  Forall byte_ok h' → parse_v1 h' = Ok (a, rem) →
  (∀ d x t, h' = d ++ x :: t → (12 ≤ length d)%nat → bytes_ends_with d crlf = false) →
  rem = [].
Proof.
  intros Hok Hp Hne. unfold parse_v1, from_utf8 in Hp.
  destruct (utf8_valid h'); [|done]. simpl in Hp.
  destruct (str_find crlf_str (string_of_bytes h')) as [n|] eqn:Hf; [|done]. simpl in Hp.
  apply str_find_Some in Hf as (u & v & Hs & Hn & _).
  destruct (parse_v1_line _) as [a'|] eqn:Hl; [|done]. simpl in Hp. injection Hp as <- <-.
  rewrite Hs, <- Hn, substring_app_length in Hl. apply parse_v1_line_length in Hl.
  apply (f_equal bytes_of) in Hs. rewrite bytes_of_string_of, !bytes_of_app in Hs by done.
  change (bytes_of crlf_str) with crlf in Hs. subst h'. pose proof (length_bytes_of u) as Hu.
  destruct (bytes_of v) as [|x t] eqn:Hv.
  { apply drop_ge. rewrite !length_app. simpl. lia. }
  exfalso. rewrite app_assoc in Hne.
  specialize (Hne _ _ _ eq_refl). rewrite length_app in Hne. simpl in Hne.
  rewrite (proj2 (bytes_ends_with_spec _ _)) in Hne by eauto. lia.
Qed.

Lemma parse_v2_no_remaining buf a rem :
  length buf = (16 + Z.to_nat (from_be_bytes [at_ buf 14; at_ buf 15]))%nat →
  parse_v2 buf = Ok (a, rem) → rem = [].
Proof.
  intros Hl. unfold parse_v2. intros H.
  assert (drop (16 + Z.to_nat (from_be_bytes [at_ buf 14; at_ buf 15])) buf = []) as Hd
    by (apply drop_ge; lia).
  rewrite Hd in H. repeat (case_match; try done); by injection H.
Qed.

Lemma from_be_bytes_2_le a b : byte_ok a → byte_ok b → 0 ≤ from_be_bytes [a; b] ≤ u16_max.
Proof. unfold byte_ok, from_be_bytes, u16_max. simpl. lia. Qed.

(** How much a successful run read, and that it kept nothing back. *)
Lemma parse_ok_consumed s a rem rest :
  Forall byte_ok s → parse_proxy_protocol s = (Ok (a, rem), rest) →
  rem = [] ∧ Z.of_nat (length s) ≤ 65551 + Z.of_nat (length rest).
Proof.
  intros Hs (pre & s1 & [-> Hpre]%read_exact_ok & H)%rd_bind_ok.
  apply Forall_app in Hs as [Hpre_ok Hs1].
  case_match eqn:Hsig.
  - apply rd_bind_ok in H as (hr & s2 & [-> Hhr]%read_exact_ok & H).
    apply rd_bind_ok in H as (pl & s3 & [-> Hpl]%read_exact_ok & H).
    injection H as H ->. apply Forall_app in Hs1 as [Hhr_ok _].
    destruct hr as [|h0 [|h1 [|h2 [|h3 [|]]]]]; try done.
    do 3 (apply Forall_cons in Hhr_ok as [? Hhr_ok]). apply Forall_cons in Hhr_ok as [? _].
    assert (0 ≤ from_be_bytes [h2; h3] ≤ u16_max) as Hrange by by apply from_be_bytes_2_le.
    change (at_ [h0; h1; h2; h3] 2) with h2 in *. change (at_ [h0; h1; h2; h3] 3) with h3 in *.
    split.
    + apply (parse_v2_no_remaining _ _ _) in H; [done|].
      assert (∀ i, (12 ≤ i < 16)%nat →
        at_ (pre ++ [h0; h1; h2; h3] ++ pl) i = at_ [h0; h1; h2; h3] (i - 12)) as Hat.
      { intros i Hi. unfold at_. rewrite lookup_app_r by lia. rewrite lookup_app_l by (simpl; lia).
        by rewrite Hpre. }
      rewrite !Hat by lia. rewrite !length_app, Hpre, Hpl. simpl. done.
    + rewrite !length_app, Hpre, Hpl. simpl. unfold u16_max in Hrange. lia.
  - case_match; [done|].
    apply rd_bind_ok in H as (h' & s2 & Hrl & H).
    destruct (read_line_extends _ _ _ _ _ Hrl) as (t & ->).
    destruct (read_line_result _ _ _ _ _ Hrl) as (Hlen & -> & Hne).
    rewrite drop_app_length in *. rewrite length_app in Hlen. rewrite !length_app, Hpre in *.
    case_match; [done|]. injection H as H ->. split; [|lia].
    apply Forall_app in Hs1 as [Ht _].
    eapply parse_v1_no_remaining; [|done|done]. by apply Forall_app_2.
Qed.

Definition addr_ok (a : SocketAddr) : Prop :=
  0 ≤ port a < 65536 ∧
  match ip a with
  | V4 b => 0 ≤ b < 4294967296
  | V6 b => 0 ≤ b < 340282366920938463463374607431768211456
  end.

Definition same_family (a b : SocketAddr) : Prop :=
  match ip a, ip b with
  | V4 _, V4 _ | V6 _, V6 _ => True
  | _, _ => False
  end.

(** What a v2 header promises: the source address of the payload, by family. *)
Definition v2_source (family : Z) (payload : bytes) : result PpError SocketAddr :=
  if family =? 17 then
    if Z.of_nat (length payload) <? 12 then Err V2Ipv4Short
    else Ok {| ip := V4 (from_be_bytes (take 4 payload));
               port := from_be_bytes (take 2 (drop 8 payload)) |}
  else if family =? 33 then
    if Z.of_nat (length payload) <? 36 then Err V2Ipv6Short
    else Ok {| ip := V6 (from_be_bytes (take 16 payload));
               port := from_be_bytes (take 2 (drop 32 payload)) |}
  else Err (V2Family family).

Lemma take_2_at i (l : bytes) :
  (i + 2 ≤ length l)%nat → take 2 (drop i l) = [at_ l i; at_ l (S i)].
Proof.
  revert l. induction i as [|i IH]; intros [|x l]; simpl; intros Hl; try lia.
  - destruct l; simpl in *; [lia|done].
  - rewrite IH by lia. done.
Qed.

Lemma take_4_at (l : bytes) :
  (4 ≤ length l)%nat → take 4 l = [at_ l 0; at_ l 1; at_ l 2; at_ l 3].
Proof. destruct l as [|a [|b [|c [|d l]]]]; simpl; try lia. done. Qed.

(** [parse_v2] on a header whose length field is right. *)
Lemma parse_v2_buffer b0 b1 h2 h3 payload :
  length payload = Z.to_nat (from_be_bytes [h2; h3]) → Z.land b0 240 = 32 →
  parse_v2 (v2_sig ++ [b0; b1; h2; h3] ++ payload) =
    result_map (λ a, (a, [])) (v2_source b1 payload).
Proof.
  intros Hl Hb0. unfold parse_v2.
  assert (∀ i, at_ (v2_sig ++ [b0; b1; h2; h3] ++ payload) (16 + i) = at_ payload i) as Hat by done.
  pose proof (Hat 0%nat) as H0. pose proof (Hat 1%nat) as H1. pose proof (Hat 2%nat) as H2.
  pose proof (Hat 3%nat) as H3. pose proof (Hat 8%nat) as H8. pose proof (Hat 9%nat) as H9.
  pose proof (Hat 32%nat) as H32. pose proof (Hat 33%nat) as H33. simpl Nat.add in H0, H1, H2, H3, H8, H9, H32, H33.
  set (buf := v2_sig ++ [b0; b1; h2; h3] ++ payload) in *.
  assert (length buf = 16 + length payload)%nat as Hlen by done.
  change (at_ buf 12) with b0. change (at_ buf 13) with b1.
  change (at_ buf 14) with h2. change (at_ buf 15) with h3.
  change (drop 16 buf) with payload.
  rewrite Hb0, <- Hl, Hlen, H0, H1, H2, H3, H8, H9, H32, H33. change (32 =? 32) with true.
  rewrite (proj2 (Nat.ltb_ge (16 + length payload) 16)) by lia.
  rewrite (proj2 (Nat.ltb_ge (16 + length payload) (16 + length payload))) by lia. cbn [negb].
  rewrite (drop_ge buf) by lia. unfold v2_source.
  destruct (b1 =? 17), (b1 =? 33); try done.
  all: match goal with |- context [Nat.ltb _ ?k] => destruct (Nat.ltb_spec (length payload) k) end.
  all: first [rewrite (proj2 (Z.ltb_lt _ _)) by lia; done | rewrite (proj2 (Z.ltb_ge _ _)) by lia].
  all: rewrite take_2_at by lia; try rewrite take_4_at by lia; done.
Qed.

(** Reading a v2 header off the front of a stream. *)
Lemma parse_v2_stream b0 b1 payload rest :
  Z.land b0 240 = 32 → Z.of_nat (length payload) ≤ 65535 →
  parse_proxy_protocol
    (v2_sig ++ [b0; b1] ++ to_be_bytes 2 (Z.of_nat (length payload)) ++ payload ++ rest) =
  (result_map (λ a, (a, [])) (v2_source b1 payload), rest).
Proof.
  intros Hb0 Hl. set (n := Z.of_nat (length payload)) in *.
  assert (from_be_bytes (to_be_bytes 2 n) = n) as Hn.
  { apply from_to_be_bytes. change (256 ^ Z.of_nat 2) with 65536. lia. }
  change (to_be_bytes 2 n) with [(n `div` 256) `mod` 256; n `mod` 256] in *.
  set (h2 := (n `div` 256) `mod` 256) in *. set (h3 := n `mod` 256) in *.
  assert (length payload = Z.to_nat (from_be_bytes [h2; h3])) as Hpl by (rewrite Hn; lia).
  change (v2_sig ++ [b0; b1] ++ [h2; h3] ++ payload ++ rest)
    with (v2_sig ++ [b0; b1; h2; h3] ++ payload ++ rest).
  unfold parse_proxy_protocol.
  erewrite rd_bind_step by by apply read_exact_app.
  rewrite bool_decide_eq_true_2 by done.
  erewrite rd_bind_step by by apply (read_exact_app 4).
  erewrite rd_bind_step by by apply read_exact_app.
  unfold rd_ret. f_equal. by apply parse_v2_buffer.
Qed.

Lemma land_240_cmd cmd : 0 ≤ cmd < 16 → Z.land (32 + cmd) 240 = 32.
Proof.
  intros H. apply Z.eqb_eq.
  apply (all_from_spec (λ c, Z.land (32 + c) 240 =? 32) 16 0); [by vm_compute|lia].
Qed.

(** Text a v1 field can carry: visible and without spaces. *)
Definition field_ok (s : string) : bool := visible s && no_char " " s.

Lemma octet_field b : 0 ≤ b < 256 →
  field_ok (pretty b) = true ∧ (String.length (pretty b) ≤ 3)%nat.
Proof.
  intros Hb. destruct (pretty_text 3 b) as (H1 & H2 & H3); [|lia|].
  { change (10 ^ Z.of_nat 3) with 1000. lia. }
  unfold field_ok. by rewrite H1, H2.
Qed.

Lemma port_field p : 0 ≤ p < 65536 →
  field_ok (pretty p) = true ∧ (String.length (pretty p) ≤ 5)%nat.
Proof.
  intros Hp. destruct (pretty_text 5 p) as (H1 & H2 & H3); [|lia|].
  { change (10 ^ Z.of_nat 5) with 100000. lia. }
  unfold field_ok. by rewrite H1, H2.
Qed.

Lemma field_ok_app a b : field_ok (a +:+ b) = field_ok a && field_ok b.
Proof. unfold field_ok. rewrite visible_app, no_char_app. btauto. Qed.

Lemma v4_field bits :
  field_ok (v4_to_string bits) = true ∧ (String.length (v4_to_string bits) ≤ 15)%nat.
Proof.
  unfold v4_to_string.
  pose proof (to_be_bytes_range 4 bits) as Hr. pose proof (length_to_be_bytes 4 bits) as Hl.
  destruct (to_be_bytes 4 bits) as [|a [|b [|c [|d [|]]]]]; try done.
  repeat match goal with H : Forall _ (_ :: _) |- _ => apply Forall_cons in H as [?%octet_field ?] end.
  change (join "." (pretty <$> [a; b; c; d]))
    with (pretty a +:+ "." +:+ pretty b +:+ "." +:+ pretty c +:+ "." +:+ pretty d).
  rewrite !field_ok_app, !str_length_app. destruct_and!. split; [|simpl String.length; lia].
  by repeat match goal with H : field_ok _ = true |- _ => rewrite H end.
Qed.

(** A line of six fields is read by its third and fifth. *)
Lemma parse_v1_fields proto src dst sport dport a p :
  Forall (λ x, field_ok x = true) [proto; src; dst; sport; dport] →
  parse_ip src = Some a → parse_uint u16_max sport = Some p →
  parse_v1_line (encode_v1_line proto src dst sport dport) = Ok {| ip := a; port := p |} ∧
  visible (encode_v1_line proto src dst sport dport) = true.
Proof.
  intros HF Ha Hp. unfold parse_v1_line, encode_v1_line.
  rewrite split_join; [|done|].
  - simpl. rewrite Ha. simpl. rewrite Hp. simpl. split; [done|].
    repeat match goal with H : Forall _ (_ :: _) |- _ =>
      apply Forall_cons in H as [[? ?]%andb_true_iff H] end.
    repeat match goal with |- context [String ?c ?r] =>
      lazymatch r with "" => fail | _ => change (String c r) with (String c "" +:+ r) end end.
    by autorewrite with trp_rw; repeat match goal with H : visible _ = true |- _ => rewrite H end.
  - constructor; [done|]. eapply Forall_impl; [exact HF|]. by intros x [_ H]%andb_true_iff.
Qed.

Lemma no_cr_no_crlf w : 13 ∉ w → bytes_ends_with w crlf = false.
Proof.
  intros Hw. apply not_true_is_false. intros (l & ->)%bytes_ends_with_spec.
  apply Hw. unfold crlf. set_solver.
Qed.

(** Without a CR the loop fills its buffer. *)
Lemma read_line_no_crlf n : ∀ h t rest,
  13 ∉ h ++ t → length t = n → read_line n h (t ++ rest) = (Ok (h ++ t), rest).
Proof.
  induction n as [|n IH]; intros h t rest Hcr Hl.
  - destruct t; [|done]. by rewrite app_nil_r.
  - destruct t as [|x t]; [done|]. cbn [read_line].
    rewrite no_cr_no_crlf by set_solver.
    change ((x :: t) ++ rest) with ([x] ++ (t ++ rest)).
    erewrite rd_bind_step by by apply read_exact_app.
    rewrite IH; [by rewrite <- app_assoc|by rewrite <- app_assoc|by injection Hl].
Qed.

(** ** Properties *)

(** reading a header never eats into the request behind it.  When a
    header is accepted, at most 65551 bytes were taken from the stream, the
    read-ahead buffer that is returned is empty, and any other bytes behind
    the same header leave the result unchanged. *)
Theorem header_read_is_exact s a rem rest :
  Forall byte_ok s → parse_proxy_protocol s = (Ok (a, rem), rest) →
  rem = [] ∧
  ∃ hdr, s = hdr ++ rest ∧ Z.of_nat (length hdr) ≤ 65551 ∧
    ∀ rest', parse_proxy_protocol (hdr ++ rest') = (Ok (a, []), rest').
Proof.
  intros Hs H. destruct (parse_ok_consumed _ _ _ _ Hs H) as [-> Hlen].
  split; [done|]. destruct (framed_parse _ _ _ H) as (hdr & -> & Hf).
  exists hdr. rewrite length_app in Hlen. split_and!; [done|lia|done].
Qed.

(** a PROXY v2 header for any IPv4 or IPv6 connection, with any command
    nibble and any TLVs that fit, is decoded to the sender's address and
    exactly the header is consumed. *)
Theorem v2_roundtrip cmd src dst tlvs rest :
  0 ≤ cmd < 16 → addr_ok src → same_family src dst → Z.of_nat (length tlvs) ≤ 65499 →
  parse_proxy_protocol (encode_v2 cmd src dst tlvs ++ rest) = (Ok (src, []), rest).
Proof.
  intros Hcmd [Hport Hip] Hfam Htlv. unfold encode_v2, same_family in *.
  destruct src as [[s|s] sp], dst as [[d|d] dp]; simpl in Hport, Hip, Hfam; try done;
    cbn [ip port]; cbv zeta iota;
    match goal with |- context [length ?p] => set (pl := p) end; rewrite <- !app_assoc;
    (rewrite parse_v2_stream;
      [|by apply land_240_cmd|subst pl; rewrite !length_app, !length_to_be_bytes; lia]);
    subst pl; rewrite <- !app_assoc;
    f_equal; unfold v2_source; simpl Z.eqb; cbv iota.
  all: rewrite (proj2 (Z.ltb_ge _ _)) by (rewrite !length_app, !length_to_be_bytes; lia).
  all: cbn [result_map]; do 3 f_equal; [f_equal|].
  all: rewrite ?take_app_length' by (by rewrite ?length_to_be_bytes);
       try by apply from_to_be_bytes.
  all: do 2 (rewrite drop_app_ge by (rewrite length_to_be_bytes; lia); rewrite length_to_be_bytes).
  all: change (8 - 4 - 4)%nat with 0%nat; change (32 - 16 - 16)%nat with 0%nat.
  all: rewrite drop_0, take_app_length' by done; by apply from_to_be_bytes.
Qed.

Lemma v2_roundtrip_witness :
  let src := {| ip := V4 3232235777; port := 56324 |} in
  let dst := {| ip := V4 167772161; port := 443 |} in
  parse_proxy_protocol (encode_v2 1 src dst [3; 0; 0] ++ [71; 69; 84]) = (Ok (src, []), [71; 69; 84]).
Proof. intros src dst. apply (v2_roundtrip 1 src dst [3; 0; 0] [71; 69; 84]); simpl; try lia; done. Defined.

(** a PROXY v1 header for an IPv4 client, with any text without spaces as
    destination, is decoded to the client's address, and the stream is left
    exactly behind its CRLF. *)
Theorem v1_roundtrip bits p proto dst dport rest :
  0 ≤ bits < 4294967296 → 0 ≤ p < 65536 →
  Forall (λ x, field_ok x = true) [proto; dst; dport] →
  (String.length proto + String.length dst + String.length dport ≤ 75)%nat →
  parse_proxy_protocol
    (bytes_of (encode_v1_line proto (ip_to_string (V4 bits)) dst (pretty p) dport) ++ crlf ++ rest)
  = (Ok ({| ip := V4 bits; port := p |}, []), rest).
Proof.
  intros Hb Hp HF Hlen.
  destruct (v4_field bits) as [Hf4 Hl4]. destruct (port_field p Hp) as [Hfp Hlp].
  repeat match goal with H : Forall _ (_ :: _) |- _ => apply Forall_cons in H as [? H] end.
  destruct (parse_v1_fields proto (ip_to_string (V4 bits)) dst (pretty p) dport (V4 bits) p)
    as [Hparse Hvis].
  { by repeat constructor. } { by apply parse_ip_v4_to_string. } { apply parse_uint_pretty. unfold u16_max. lia. }
  rewrite parse_v1_header; [by rewrite Hparse|done| |].
  - apply starts_with_spec. by eexists.
  - unfold encode_v1_line. do 12 (simpl; rewrite ?str_length_app). unfold ip_to_string. lia.
Qed.

Lemma v1_roundtrip_witness :
  parse_proxy_protocol
    (bytes_of (encode_v1_line "TCP4" (ip_to_string (V4 3232235777)) "10.0.0.1" (pretty 56324) "443")
     ++ crlf ++ [71; 69; 84]) = (Ok ({| ip := V4 3232235777; port := 56324 |}, []), [71; 69; 84]).
Proof.
  apply (v1_roundtrip 3232235777 56324 "TCP4" "10.0.0.1" "443" [71; 69; 84]);
    [lia|lia|by repeat constructor|simpl; lia].
Defined.

Lemma header_read_is_exact_witness :
  let line := bytes_of "PROXY TCP4 192.168.1.1 10.0.0.1 56324 443" ++ crlf in
  ∃ hdr, line ++ [71; 69; 84] = hdr ++ [71; 69; 84] ∧ Z.of_nat (length hdr) ≤ 65551 ∧
    ∀ rest', parse_proxy_protocol (hdr ++ rest') =
      (Ok ({| ip := V4 3232235777; port := 56324 |}, []), rest').
Proof.
  intros line.
  destruct (header_read_is_exact (line ++ [71; 69; 84]) {| ip := V4 3232235777; port := 56324 |} []
    [71; 69; 84]) as [_ H].
  - apply Forall_app_2; [|repeat constructor; unfold byte_ok; lia].
    assert (forallb (λ b, (0 <=? b) && (b <? 256)) line = true) as Hb by (vm_compute; reflexivity).
    apply List.Forall_forall. intros b Hin. apply forallb_forall with (x := b) in Hb; [|done].
    unfold byte_ok. lia.
  - vm_compute. reflexivity.
  - exact H.
Defined.

(** a v1 header is at most 107 bytes: without a CRLF in the first 107 bytes
    the connection is refused after exactly 107 bytes have been read, and a
    stream that starts with neither signature is refused after 12. *)
Theorem overlong_and_foreign_headers_refused :
  (∀ w rest, length w = 107%nat → take 6 w = proxy_tag → 13 ∉ w →
     parse_proxy_protocol (w ++ rest) = (Err NoCrlf, rest)) ∧
  (∀ w rest, length w = 12%nat → w ≠ v2_sig → take 6 w ≠ proxy_tag →
     parse_proxy_protocol (w ++ rest) = (Err InvalidHeader, rest)) ∧
  (∀ w, (length w < 12)%nat → parse_proxy_protocol w = (Err UnexpectedEof, [])).
Proof.
  split_and!.
  - intros w rest Hw Htag Hcr. rewrite <- (take_drop 12 w), <- app_assoc.
    unfold parse_proxy_protocol.
    erewrite rd_bind_step by (apply read_exact_app; rewrite length_take; lia).
    assert (take 6 (take 12 w) = proxy_tag) as Htag' by (rewrite take_take; done).
    rewrite bool_decide_eq_false_2 by (intros E; rewrite E in Htag'; done).
    rewrite bool_decide_eq_true_2 by done. cbn [negb].
    erewrite rd_bind_step
      by (apply (read_line_no_crlf 95); [by rewrite take_drop|by rewrite length_drop, Hw]).
    rewrite take_drop, no_cr_no_crlf by done. done.
  - intros w rest Hw Hsig Htag. unfold parse_proxy_protocol.
    erewrite rd_bind_step by by apply read_exact_app.
    rewrite bool_decide_eq_false_2 by done. rewrite bool_decide_eq_false_2; [done|].
    done.
  - intros w Hw. unfold parse_proxy_protocol, rd_bind, read_exact.
    by rewrite (proj2 (Nat.leb_gt _ _)) by lia.
Qed.

Lemma overlong_and_foreign_headers_refused_witness :
  parse_proxy_protocol (bytes_of "GET / HTTP/1" ++ bytes_of ".1") = (Err InvalidHeader, bytes_of ".1").
Proof.
  apply overlong_and_foreign_headers_refused; vm_compute; [reflexivity|discriminate|discriminate].
Defined.
