(* ===== verification/Http.v ===== *)
(** * HTTP messages

    The types of the [http], [hyper] and [http-body-util] crates that the data
    plane manipulates.  Header maps, header values and URIs are interfaces: a
    class of operations and a class of the documented laws the proofs use,
    with one lawful instance to evaluate the model on.  A body is the sequence
    of frames that reading it yields. *)

From S2P Require Import Prelude RustStr.

Local Open Scope string_scope.
Local Open Scope list_scope.

(** ** Methods, versions, statuses *)

Definition Method := string.
Definition GET : Method := "GET".
Definition HEAD : Method := "HEAD".
Definition OPTIONS : Method := "OPTIONS".
Definition PUT : Method := "PUT".
Definition DELETE : Method := "DELETE".
Definition POST : Method := "POST".

Inductive Version := HTTP_09 | HTTP_10 | HTTP_11 | HTTP_2 | HTTP_3.

#[export] Instance Version_eq_dec : EqDecision Version.
Proof. solve_decision. Defined.

Definition StatusCode := Z.

Definition is_success (s : StatusCode) : bool := (200 <=? s)%Z && (s <? 300)%Z.
Definition is_server_error (s : StatusCode) : bool := (500 <=? s)%Z && (s <? 600)%Z.

(** [StatusCode::as_u16().to_string()] *)
Definition status_str (s : StatusCode) : string := pretty s.

(** ** Headers: the interface of [http::HeaderMap]

    Names are the lower-case text of a [HeaderName]. *)

Class Http := {
  HeaderValue : Type;
  hv_to_str : HeaderValue → option string;
  hv_from_str : string → option HeaderValue;
  hv_from_static : string → HeaderValue;
  HeaderMap : Type;
  hm_new : HeaderMap;
  get_all : string → HeaderMap → list HeaderValue;
  hm_insert : string → HeaderValue → HeaderMap → HeaderMap;
  hm_append : string → HeaderValue → HeaderMap → HeaderMap;
  hm_remove : string → HeaderMap → HeaderMap;
  header_name_ok : string → bool;
  Uri : Type;
  parse_uri : string → option Uri;
  uri_path : Uri → string;
  path_and_query : Uri → option string;
  authority : Uri → option string;
  uri_host : Uri → option string;
  scheme_str : Uri → option string;
  port_u16 : Uri → option Z;
}.

(** The documented behaviour of the operations.  [to_str] succeeds exactly on
    visible ASCII; [from_str] accepts visible ASCII and keeps the text;
    [insert] replaces every value of the name, [append] adds one behind them,
    [remove] drops them all. *)
Class HttpOk `{Http} := {
  hv_to_str_visible v s : hv_to_str v = Some s → visible s = true;
  hv_from_str_visible s : visible s = true → is_Some (hv_from_str s);
  hv_to_from_str s v : visible s = true → hv_from_str s = Some v → hv_to_str v = Some s;
  hv_to_static s : visible s = true → hv_to_str (hv_from_static s) = Some s;
  get_all_new n : get_all n hm_new = [];
  get_all_insert_eq n v m : get_all n (hm_insert n v m) = [v];
  get_all_insert_ne n n' v m : n ≠ n' → get_all n' (hm_insert n v m) = get_all n' m;
  get_all_append_eq n v m : get_all n (hm_append n v m) = get_all n m ++ [v];
  get_all_append_ne n n' v m : n ≠ n' → get_all n' (hm_append n v m) = get_all n' m;
  get_all_remove_eq n m : get_all n (hm_remove n m) = [];
  get_all_remove_ne n n' m : n ≠ n' → get_all n' (hm_remove n m) = get_all n' m;
}.

Section headers.
Context `{Http}.

(** [HeaderMap::get] *)
Definition hm_get (n : string) (m : HeaderMap) : option HeaderValue := head (get_all n m).

(** [HeaderMap::contains_key] *)
Definition contains_key (n : string) (m : HeaderMap) : bool :=
  match get_all n m with [] => false | _ => true end.

(** [headers.get(n).and_then(|v| v.to_str().ok())] *)
Definition get_str (n : string) (m : HeaderMap) : option string := hm_get n m ≫= hv_to_str.

(** Removing a list of names, in order. *)
Definition remove_all (ns : list string) (m : HeaderMap) : HeaderMap :=
  foldl (λ m n, hm_remove n m) m ns.

End headers.

(** ** Bodies *)

Inductive BodyFrame :=
| Data (b : string)
| Trailers
| ReadError.

Definition Body := list BodyFrame.

(** [Full::new(b)]: one data frame, none when empty. *)
Definition full_body (b : string) : Body :=
  match b with EmptyString => [] | _ => [Data b] end.

(** [body.collect().await] then [to_bytes()]: nothing when a frame fails. *)
Fixpoint collect (body : Body) : option string :=
  match body with
  | [] => Some ""
  | Data b :: r => String.append b <$> collect r
  | Trailers :: r => collect r
  | ReadError :: _ => None
  end.

(** ** Requests and responses *)

Section messages.
Context `{Http}.

Record Response := {
  status : StatusCode;
  resp_headers : HeaderMap;
  resp_body : Body;
}.

Record Request := {
  req_method : Method;
  req_uri : Uri;
  req_version : Version;
  req_headers : HeaderMap;
  req_body : Body;
}.

Definition with_headers (r : Response) (h : HeaderMap) : Response :=
  {| status := status r; resp_headers := h; resp_body := resp_body r |}.

End messages.

(** ** Lemmas *)

Lemma collect_full_body b : collect (full_body b) = Some b.
Proof. destruct b; [done|]. simpl. by rewrite str_app_nil_r. Qed.

#[export] Hint Rewrite collect_full_body : trp_rw.

Section lemmas.
Context `{HO : HttpOk}.

Lemma hm_get_insert_eq n v m : hm_get n (hm_insert n v m) = Some v.
Proof. unfold hm_get. by rewrite get_all_insert_eq. Qed.

Lemma hm_get_insert_ne n n' v m : n ≠ n' → hm_get n' (hm_insert n v m) = hm_get n' m.
Proof. intros. unfold hm_get. by rewrite get_all_insert_ne. Qed.

Lemma hm_get_remove_eq n m : hm_get n (hm_remove n m) = None.
Proof. unfold hm_get. by rewrite get_all_remove_eq. Qed.

Lemma hm_get_remove_ne n n' m : n ≠ n' → hm_get n' (hm_remove n m) = hm_get n' m.
Proof. intros. unfold hm_get. by rewrite get_all_remove_ne. Qed.

Lemma hm_get_append_ne n n' v m : n ≠ n' → hm_get n' (hm_append n v m) = hm_get n' m.
Proof. intros. unfold hm_get. by rewrite get_all_append_ne. Qed.

Lemma contains_key_get n m : contains_key n m = false ↔ hm_get n m = None.
Proof. unfold contains_key, hm_get. by destruct (get_all n m). Qed.

Lemma get_all_remove_all ns m n :
  get_all n (remove_all ns m) = if decide (n ∈ ns) then [] else get_all n m.
Proof.
  unfold remove_all. induction ns as [|x ns IH] using rev_ind; [done|].
  rewrite foldl_app. simpl. destruct (decide (x = n)) as [->|Hne].
  - rewrite get_all_remove_eq. by rewrite decide_True by set_solver.
  - rewrite get_all_remove_ne, IH by done.
    by rewrite (decide_ext (n ∈ ns ++ [x]) (n ∈ ns)) by set_solver.
Qed.

End lemmas.

#[export] Hint Rewrite @hm_get_insert_eq @hm_get_remove_eq @get_all_insert_eq
  @get_all_remove_eq @get_all_append_eq using typeclasses eauto : trp_rw.

(** ** An instance: header maps as association lists *)

Definition list_path (u : string) : string := default "" (head (split "?" u)).

#[export] Instance list_http : Http := {|
  HeaderValue := string;
  hv_to_str v := if visible v then Some v else None;
  hv_from_str s := if visible s then Some s else None;
  hv_from_static s := s;
  HeaderMap := list (string * string);
  hm_new := [];
  get_all n m := (filter (λ e, e.1 = n) m).*2;
  hm_insert n v m := filter (λ e, e.1 ≠ n) m ++ [(n, v)];
  hm_append n v m := m ++ [(n, v)];
  hm_remove n m := filter (λ e, e.1 ≠ n) m;
  header_name_ok n := negb (contains n " ");
  Uri := string;
  parse_uri s := Some s;
  uri_path := list_path;
  path_and_query u := Some u;
  authority u := Some u;
  uri_host u := head (split ":" u);
  scheme_str u := None;
  port_u16 u := None;
|}.

Lemma filter_filter_ne (n n' : string) (m : list (string * string)) :
  n ≠ n' → filter (λ e, e.1 = n') (filter (λ e, e.1 ≠ n) m) = filter (λ e, e.1 = n') m.
Proof.
  intros Hne. induction m as [|[k v] m IH]; [done|].
  rewrite !filter_cons. simpl.
  repeat case_decide; simplify_eq/=; rewrite ?filter_cons; simpl; repeat case_decide;
    simplify_eq/=; congruence.
Qed.

Lemma filter_filter_eq (n : string) (m : list (string * string)) :
  filter (λ e, e.1 = n) (filter (λ e, e.1 ≠ n) m) = [].
Proof.
  induction m as [|[k v] m IH]; [done|].
  rewrite filter_cons. simpl. case_decide; [|done].
  rewrite filter_cons. simpl. by rewrite decide_False.
Qed.

#[export] Instance list_http_ok : @HttpOk list_http.
Proof.
  split; simpl; intros.
  - destruct (visible v) eqn:E; congruence.
  - by rewrite H.
  - rewrite H in H0. injection H0 as <-. by rewrite H.
  - by rewrite H.
  - done.
  - rewrite filter_app, filter_filter_eq. simpl. rewrite filter_cons. simpl.
    by rewrite decide_True.
  - rewrite filter_app, filter_filter_ne by done. rewrite filter_cons. simpl.
    rewrite decide_False by done. by rewrite app_nil_r.
  - rewrite filter_app, fmap_app, filter_cons. simpl. by rewrite decide_True.
  - rewrite filter_app, filter_cons. simpl. rewrite decide_False by done. by rewrite app_nil_r.
  - by rewrite filter_filter_eq.
  - by rewrite filter_filter_ne.
Qed.
