(* ===== verification/Metrics.v ===== *)
(** * Metrics

    Model of [proxy-core/src/metrics.rs]: the counters and gauges the data
    plane updates.  A counter vector maps label values to counts, a gauge
    vector maps label values to levels, a histogram vector maps label values
    to the observations made; a label that was never touched is absent. *)

From S2P Require Import Prelude F64.

Local Open Scope Z_scope.

Record Metrics := {
  requests_total : gmap (string * string) Z;
  request_duration_seconds : gmap string (list f64);
  active_connections : Z;
  upstream_healthy : gmap string Z;
  retry_attempts_total : gmap (string * string) Z;
  retry_exhaustions_total : gmap (string * string) Z;
  admission_rejections_total : Z;
  brownout_active_gauge : Z;
  brownout_activations_total : Z;
}.

Definition metrics_new : Metrics := {|
  requests_total := ∅;
  request_duration_seconds := ∅;
  active_connections := 0;
  upstream_healthy := ∅;
  retry_attempts_total := ∅;
  retry_exhaustions_total := ∅;
  admission_rejections_total := 0;
  brownout_active_gauge := 0;
  brownout_activations_total := 0;
|}.

(** [with_label_values(..).inc()]: creates the child at zero on first use. *)
Definition inc_label `{Countable K} (k : K) (m : gmap K Z) : gmap K Z :=
  <[k := wrap64 (default 0 (m !! k) + 1)]> m.

Definition with_upstream_healthy (f : gmap string Z → gmap string Z) (m : Metrics) : Metrics := {|
  requests_total := requests_total m;
  request_duration_seconds := request_duration_seconds m;
  active_connections := active_connections m;
  upstream_healthy := f (upstream_healthy m);
  retry_attempts_total := retry_attempts_total m;
  retry_exhaustions_total := retry_exhaustions_total m;
  admission_rejections_total := admission_rejections_total m;
  brownout_active_gauge := brownout_active_gauge m;
  brownout_activations_total := brownout_activations_total m;
|}.

(** [requests_total] and [request_duration_seconds] of a finished request. *)
Definition record_request (method status : string) (duration : f64) (m : Metrics) : Metrics := {|
  requests_total := inc_label (status, method) (requests_total m);
  request_duration_seconds :=
    <[method := default [] (request_duration_seconds m !! method) ++ [duration]]>
      (request_duration_seconds m);
  active_connections := active_connections m;
  upstream_healthy := upstream_healthy m;
  retry_attempts_total := retry_attempts_total m;
  retry_exhaustions_total := retry_exhaustions_total m;
  admission_rejections_total := admission_rejections_total m;
  brownout_active_gauge := brownout_active_gauge m;
  brownout_activations_total := brownout_activations_total m;
|}.

Definition record_retry_attempt (mode reason : string) (m : Metrics) : Metrics := {|
  requests_total := requests_total m;
  request_duration_seconds := request_duration_seconds m;
  active_connections := active_connections m;
  upstream_healthy := upstream_healthy m;
  retry_attempts_total := inc_label (mode, reason) (retry_attempts_total m);
  retry_exhaustions_total := retry_exhaustions_total m;
  admission_rejections_total := admission_rejections_total m;
  brownout_active_gauge := brownout_active_gauge m;
  brownout_activations_total := brownout_activations_total m;
|}.

Definition record_retry_exhaustion (mode reason : string) (m : Metrics) : Metrics := {|
  requests_total := requests_total m;
  request_duration_seconds := request_duration_seconds m;
  active_connections := active_connections m;
  upstream_healthy := upstream_healthy m;
  retry_attempts_total := retry_attempts_total m;
  retry_exhaustions_total := inc_label (mode, reason) (retry_exhaustions_total m);
  admission_rejections_total := admission_rejections_total m;
  brownout_active_gauge := brownout_active_gauge m;
  brownout_activations_total := brownout_activations_total m;
|}.

Definition record_admission_rejection (m : Metrics) : Metrics := {|
  requests_total := requests_total m;
  request_duration_seconds := request_duration_seconds m;
  active_connections := active_connections m;
  upstream_healthy := upstream_healthy m;
  retry_attempts_total := retry_attempts_total m;
  retry_exhaustions_total := retry_exhaustions_total m;
  admission_rejections_total := wrap64 (admission_rejections_total m + 1);
  brownout_active_gauge := brownout_active_gauge m;
  brownout_activations_total := brownout_activations_total m;
|}.

Definition set_brownout_active (active : bool) (m : Metrics) : Metrics := {|
  requests_total := requests_total m;
  request_duration_seconds := request_duration_seconds m;
  active_connections := active_connections m;
  upstream_healthy := upstream_healthy m;
  retry_attempts_total := retry_attempts_total m;
  retry_exhaustions_total := retry_exhaustions_total m;
  admission_rejections_total := admission_rejections_total m;
  brownout_active_gauge := if active then 1 else 0;
  brownout_activations_total := brownout_activations_total m;
|}.

Definition record_brownout_activation (m : Metrics) : Metrics := {|
  requests_total := requests_total m;
  request_duration_seconds := request_duration_seconds m;
  active_connections := active_connections m;
  upstream_healthy := upstream_healthy m;
  retry_attempts_total := retry_attempts_total m;
  retry_exhaustions_total := retry_exhaustions_total m;
  admission_rejections_total := admission_rejections_total m;
  brownout_active_gauge := brownout_active_gauge m;
  brownout_activations_total := wrap64 (brownout_activations_total m + 1);
|}.
