(* ===== verification/Health.v ===== *)
(** * Health checking

    Model of [proxy-core/src/health.rs]: the sets of tracked and healthy
    upstreams, their gauges, the reloadable target list and the checking
    round.  The HTTP client is a parameter: the answer to a probe of a URI
    within the timeout is a status code, or nothing when the URI is malformed,
    the request fails or the timeout expires. *)

From S2P Require Import Prelude RustStr Http Metrics.

Local Open Scope string_scope.
Local Open Scope list_scope.

Record HealthState := {
  tracked : gset string;
  healthy : gset string;
  metrics : option Metrics;
}.

Definition health_new (upstreams : list string) : HealthState :=
  let set := list_to_set upstreams in
  {| tracked := set; healthy := set; metrics := None |}.

Definition set_gauge (u : string) (v : Z) (m : Metrics) : Metrics :=
  with_upstream_healthy <[u := v]> m.

Definition remove_gauge (u : string) (m : Metrics) : Metrics :=
  with_upstream_healthy (delete u) m.

Definition with_metrics (s : HealthState) (m : Metrics) : HealthState := {|
  tracked := tracked s;
  healthy := healthy s;
  metrics := Some (set_fold (λ u m, set_gauge u 1 m) m (healthy s));
|}.

Definition is_healthy (s : HealthState) (u : string) : bool := bool_decide (u ∈ healthy s).

Definition mark_healthy (s : HealthState) (u : string) : HealthState := {|
  tracked := {[u]} ∪ tracked s;
  healthy := {[u]} ∪ healthy s;
  metrics := set_gauge u 1 <$> metrics s;
|}.

Definition mark_unhealthy (s : HealthState) (u : string) : HealthState := {|
  tracked := tracked s;
  healthy := healthy s ∖ {[u]};
  metrics := set_gauge u 0 <$> metrics s;
|}.

Definition sync_upstreams (s : HealthState) (upstreams : list string) : HealthState :=
  let desired : gset string := list_to_set upstreams in
  let removed := filter (λ u, u ∉ desired) (tracked s) in
  let added := filter (λ u, u ∉ tracked s) desired in
  {| tracked := desired;
     healthy := filter (λ u, u ∈ desired) (healthy s) ∪ added;
     metrics :=
       (λ m, set_fold (λ u m, set_gauge u 1 m) (set_fold remove_gauge m removed) added) <$> metrics s |}.

Record HealthCheckTargets := { upstreams : list string }.

Definition targets_new (l : list string) : HealthCheckTargets := {| upstreams := l |}.
Definition snapshot (t : HealthCheckTargets) : list string := upstreams t.
Definition replace (t : HealthCheckTargets) (l : list string) : HealthCheckTargets :=
  {| upstreams := l |}.

Definition upstream_health_uri (upstream path : string) : string :=
  if contains upstream "://" then upstream +:+ path else "http://" +:+ upstream +:+ path.

Section checker.
(** The answer to a probe of a URI at a point of the round. *)
Variable client : nat → string → option Z.

Definition check_upstream (t : nat) (upstream path : string) : bool :=
  match client t (upstream_health_uri upstream path) with
  | Some status => is_success status
  | None => false
  end.

(** One probe and the mark it leaves. *)
Definition check_one (path : string) (s : HealthState) (e : nat * string) : HealthState :=
  if check_upstream e.1 e.2 path then mark_healthy s e.2 else mark_unhealthy s e.2.

(** One round of the checking task, between two sleeps. *)
Definition check_round (path : string) (s : HealthState) (targets : HealthCheckTargets) : HealthState :=
  let ups := snapshot targets in
  foldl (check_one path) (sync_upstreams s ups) (enumerate ups).

End checker.

(** The operations that the checking task and a reload perform, in any order. *)
Inductive health_op :=
| OpMarkHealthy (u : string)
| OpMarkUnhealthy (u : string)
| OpSync (l : list string).

Definition health_apply (s : HealthState) (o : health_op) : HealthState :=
  match o with
  | OpMarkHealthy u => mark_healthy s u
  | OpMarkUnhealthy u => mark_unhealthy s u
  | OpSync l => sync_upstreams s l
  end.

(** ** Lemmas *)

Definition health_wf (s : HealthState) : Prop := healthy s ⊆ tracked s.

Lemma health_new_wf l : health_wf (health_new l).
Proof. unfold health_wf. done. Qed.

(** Membership after a synchronisation: what stays keeps its status, what is
    new starts healthy. *)
Lemma elem_of_sync_tracked s l u : u ∈ tracked (sync_upstreams s l) ↔ u ∈ l.
Proof. simpl. apply elem_of_list_to_set. Qed.

Lemma elem_of_sync_healthy s l u :
  u ∈ healthy (sync_upstreams s l) ↔ u ∈ l ∧ (u ∈ healthy s ∨ u ∉ tracked s).
Proof. simpl. rewrite elem_of_union, !elem_of_filter, !elem_of_list_to_set. tauto. Qed.

Lemma health_apply_wf s o : health_wf s → health_wf (health_apply s o).
Proof.
  unfold health_wf. destruct o as [u|u|l]; cbn [health_apply]; [set_solver|set_solver|].
  intros _ x. rewrite elem_of_sync_healthy, elem_of_sync_tracked. tauto.
Qed.

#[export] Hint Resolve health_new_wf health_apply_wf : trp.

Lemma health_run_wf s os : health_wf s → health_wf (foldl health_apply s os).
Proof. revert s. induction os as [|o os IH]; intros s; simpl; eauto with trp. Qed.

(** Folding gauge writes over a set. *)
Lemma set_gauges_lookup (X : gset string) m u :
  upstream_healthy (set_fold (λ u m, set_gauge u 1 m) m X) !! u =
  if bool_decide (u ∈ X) then Some 1%Z else upstream_healthy m !! u.
Proof.
  revert X. apply (set_fold_ind_L (λ r X,
    upstream_healthy r !! u = if bool_decide (u ∈ X) then Some 1%Z else upstream_healthy m !! u)).
  { by rewrite bool_decide_eq_false_2 by set_solver. }
  intros x X r Hx IH. simpl. destruct (decide (x = u)) as [->|Hne].
  - rewrite lookup_insert_eq. by rewrite bool_decide_eq_true_2 by set_solver.
  - rewrite lookup_insert_ne, IH by done.
    by rewrite (bool_decide_ext (u ∈ {[x]} ∪ X) (u ∈ X)) by set_solver.
Qed.

Lemma remove_gauges_lookup (X : gset string) m u :
  upstream_healthy (set_fold remove_gauge m X) !! u =
  if bool_decide (u ∈ X) then None else upstream_healthy m !! u.
Proof.
  revert X. apply (set_fold_ind_L (λ r X,
    upstream_healthy r !! u = if bool_decide (u ∈ X) then None else upstream_healthy m !! u)).
  { by rewrite bool_decide_eq_false_2 by set_solver. }
  intros x X r Hx IH. simpl. destruct (decide (x = u)) as [->|Hne].
  - rewrite lookup_delete_eq. by rewrite bool_decide_eq_true_2 by set_solver.
  - rewrite lookup_delete_ne, IH by done.
    by rewrite (bool_decide_ext (u ∈ {[x]} ∪ X) (u ∈ X)) by set_solver.
Qed.

(** What the gauge of an upstream should show. *)
Definition gauge_of (s : HealthState) (u : string) : option Z :=
  if bool_decide (u ∈ tracked s) then Some (if bool_decide (u ∈ healthy s) then 1%Z else 0%Z) else None.

Definition gauges_ok (s : HealthState) : Prop :=
  ∀ m, metrics s = Some m → ∀ u, upstream_healthy m !! u = gauge_of s u.

Ltac decide_sets :=
  repeat match goal with
  | |- context [bool_decide ?P] => destruct (bool_decide_reflect P)
  | H : context [bool_decide ?P] |- _ => destruct (bool_decide_reflect P)
  end; try done; try set_solver.

Lemma gauges_ok_apply s o :
  health_wf s → (∀ u, o = OpMarkUnhealthy u → u ∈ tracked s) →
  gauges_ok s → gauges_ok (health_apply s o).
Proof.
  intros Hwf Hu Hok m' Hm' v. unfold gauges_ok, gauge_of, health_wf in *.
  destruct o as [u|u|l]; simpl in *;
    destruct (metrics s) as [m|]; try done; injection Hm' as <-; specialize (Hok _ eq_refl v).
  - simpl. destruct (decide (u = v)) as [->|Hne].
    + rewrite lookup_insert_eq. decide_sets.
    + rewrite lookup_insert_ne, Hok by done. decide_sets.
  - specialize (Hu _ eq_refl). simpl. destruct (decide (u = v)) as [->|Hne].
    + rewrite lookup_insert_eq. decide_sets.
    + rewrite lookup_insert_ne, Hok by done. decide_sets.
  - rewrite set_gauges_lookup, remove_gauges_lookup, Hok.
    pose proof (elem_of_sync_healthy s l v) as Hh. simpl in Hh.
    pose proof (Hwf v) as Hv.
    repeat match goal with |- context [bool_decide ?P] => destruct (bool_decide_reflect P) end;
      rewrite ?elem_of_filter, ?elem_of_list_to_set, ?elem_of_union in *; try done; exfalso; tauto.
Qed.

Lemma check_one_tracked client path s e : e.2 ∈ tracked s → tracked (check_one client path s e) = tracked s.
Proof. unfold check_one. intros H. case_match; simpl; [set_solver|done]. Qed.

Lemma check_one_healthy client path s e u :
  u ∈ healthy (check_one client path s e) ↔
  if decide (u = e.2) then check_upstream client e.1 e.2 path = true else u ∈ healthy s.
Proof. unfold check_one. case_match; simpl; case_decide; set_solver. Qed.

Lemma check_all_healthy client path es s u :
  NoDup es.*2 →
  u ∈ healthy (foldl (check_one client path) s es) ↔
    (∃ t, (t, u) ∈ es ∧ check_upstream client t u path = true) ∨ (u ∉ es.*2 ∧ u ∈ healthy s).
Proof.
  revert s. induction es as [|[t x] es IH]; intros s; cbn [foldl fmap list_fmap]; [set_solver|].
  intros [Hx Hnd]%NoDup_cons. rewrite IH by done. rewrite check_one_healthy. simpl.
  destruct (decide (u = x)) as [->|Hne].
  - split.
    + intros [(t' & Hin & H)|[_ H]]; [left; exists t'; set_solver|left; exists t; set_solver].
    + intros [(t' & Hin & H)|[Hin _]]; [|set_solver].
      apply elem_of_cons in Hin as [[= ->]|Hin]; [by right|].
      exfalso. apply Hx. apply list_elem_of_fmap. by exists (t', x).
  - set_solver.
Qed.

Lemma check_all_tracked client path es s :
  Forall (λ e, e.2 ∈ tracked s) es → tracked (foldl (check_one client path) s es) = tracked s.
Proof.
  revert s. induction es as [|e es IH]; intros s HF; simpl; [done|].
  apply Forall_cons in HF as [He HF]. rewrite IH by by rewrite check_one_tracked.
  by apply check_one_tracked.
Qed.

Lemma enumerate_snd {A} (l : list A) : (enumerate l).*2 = l.
Proof.
  unfold enumerate. rewrite fmap_imap. apply list_eq. intros i.
  rewrite list_lookup_imap. by destruct (l !! i).
Qed.

Lemma elem_of_enumerate {A} (l : list A) i x : (i, x) ∈ enumerate l ↔ l !! i = Some x.
Proof.
  unfold enumerate. rewrite elem_of_lookup_imap. split.
  - intros (j & y & [= -> ->] & H). done.
  - intros H. by exists i, x.
Qed.

(** ** Properties *)

(** only tracked upstreams are ever healthy, whatever the interleaving of
    marks and reloads after start-up. *)
Theorem healthy_subset_tracked l os u :
  is_healthy (foldl health_apply (health_new l) os) u = true →
  u ∈ tracked (foldl health_apply (health_new l) os).
Proof.
  unfold is_healthy. rewrite bool_decide_eq_true. apply health_run_wf, health_new_wf.
Qed.

Lemma healthy_subset_tracked_witness :
  "b" ∈ tracked (foldl health_apply (health_new ["a"]) [OpSync ["b"]; OpMarkUnhealthy "a"]).
Proof. apply healthy_subset_tracked. vm_compute. reflexivity. Defined.

(** a reload keeps the status of every upstream that stays, starts new
    upstreams healthy and forgets the ones that left. *)
Theorem sync_keeps_status s l u :
  health_wf s →
  let s' := sync_upstreams s l in
  (u ∈ l → u ∈ tracked s → is_healthy s' u = is_healthy s u) ∧
  (u ∈ l → u ∉ tracked s → is_healthy s' u = true) ∧
  (u ∉ l → is_healthy s' u = false ∧ u ∉ tracked s').
Proof.
  intros Hwf s'. unfold is_healthy, s'. split_and!; intros Hl.
  - intros Ht. apply bool_decide_ext. rewrite elem_of_sync_healthy. tauto.
  - intros Ht. rewrite bool_decide_eq_true, elem_of_sync_healthy. tauto.
  - rewrite bool_decide_eq_false, elem_of_sync_healthy, elem_of_sync_tracked. tauto.
Qed.

Lemma sync_keeps_status_witness :
  let s := mark_unhealthy (health_new ["a"; "b"]) "a" in
  let s' := sync_upstreams s ["a"; "c"] in
  is_healthy s' "a" = false ∧ is_healthy s' "c" = true ∧ is_healthy s' "b" = false.
Proof.
  intros s s'. assert (health_wf s) as Hwf.
  { apply (health_apply_wf _ (OpMarkUnhealthy "a")), health_new_wf. }
  split_and!.
  - etransitivity; [refine (proj1 (sync_keeps_status s ["a"; "c"] "a" Hwf) _ _)|vm_compute; reflexivity].
    + decide_closed.
    + decide_closed.
  - refine (proj1 (proj2 (sync_keeps_status s ["a"; "c"] "c" Hwf)) _ _); decide_closed.
  - refine (proj1 (proj2 (proj2 (sync_keeps_status s ["a"; "c"] "b" Hwf)) _)). decide_closed.
Defined.

(** after a checking round an upstream is healthy exactly when it is a
    target and its probe answered with a 2xx status in time. *)
Theorem round_decides_health client path s l u :
  NoDup l →
  let s' := check_round client path s (targets_new l) in
  (is_healthy s' u = true ↔
     ∃ i, l !! i = Some u ∧ check_upstream client i u path = true) ∧
  tracked s' = list_to_set l.
Proof.
  intros Hnd s'. unfold s', check_round, snapshot, targets_new, is_healthy. simpl upstreams. split.
  - rewrite bool_decide_eq_true, check_all_healthy by by rewrite enumerate_snd.
    rewrite enumerate_snd, elem_of_sync_healthy.
    setoid_rewrite elem_of_enumerate. naive_solver.
  - rewrite check_all_tracked; [done|].
    apply Forall_forall. intros [i x] Hin%elem_of_enumerate.
    apply elem_of_sync_tracked. by eapply list_elem_of_lookup_2.
Qed.

Lemma round_decides_health_witness :
  let client := λ (_ : nat) uri, if String.eqb uri "http://a:80/hz" then Some 204%Z else Some 503%Z in
  is_healthy (check_round client "/hz" (health_new []) (targets_new ["a:80"; "b:80"])) "a:80" = true.
Proof.
  intros client. apply (round_decides_health client "/hz" (health_new []) ["a:80"; "b:80"] "a:80").
  - decide_closed.
  - exists 0. split; [reflexivity|vm_compute; reflexivity].
Defined.

(** while the checker only marks tracked upstreams down, the exported gauge
    of every upstream shows its state: 1 when healthy, 0 when tracked and
    down, no sample otherwise. *)
Theorem gauges_show_health l m os :
  upstream_healthy m = ∅ →
  (∀ os1 u os2, os = os1 ++ OpMarkUnhealthy u :: os2 →
     u ∈ tracked (foldl health_apply (with_metrics (health_new l) m) os1)) →
  gauges_ok (foldl health_apply (with_metrics (health_new l) m) os).
Proof.
  intros Hm. induction os as [|o os IH] using rev_ind; intros Hos.
  - intros m' [= <-] u. rewrite set_gauges_lookup, Hm, lookup_empty. unfold gauge_of. simpl.
    decide_sets.
  - rewrite foldl_snoc. apply gauges_ok_apply.
    + apply health_run_wf. exact (health_new_wf l).
    + intros u ->. apply (Hos os u []). done.
    + apply IH. intros os1 u os2 ->. apply (Hos os1 u (os2 ++ [o])).
      by rewrite <- app_assoc.
Qed.

Lemma gauges_show_health_witness :
  gauges_ok (foldl health_apply (with_metrics (health_new ["a"]) metrics_new) [OpSync ["b"]]).
Proof.
  apply (gauges_show_health ["a"] metrics_new [OpSync ["b"]]); [reflexivity|].
  intros [|o [|o2 os1]] u os2; discriminate.
Defined.

(** a probe that finishes after a reload removed its upstream leaves a
    gauge sample that no later reload deletes: the upstream is no longer
    tracked, so it is never again among the removed ones. *)
Theorem late_probe_leaves_stale_gauge m :
  let s0 := with_metrics (health_new ["a"; "b"]) m in
  let s1 := mark_unhealthy (sync_upstreams s0 ["b"]) "a" in
  ∀ l, "a" ∉ l →
  ∃ m', metrics (sync_upstreams s1 l) = Some m' ∧ upstream_healthy m' !! "a" = Some 0%Z ∧
        "a" ∉ tracked (sync_upstreams s1 l).
Proof.
  intros s0 s1 l Hl. eexists. split; [reflexivity|]. split.
  - rewrite set_gauges_lookup, remove_gauges_lookup.
    rewrite !bool_decide_eq_false_2.
    + simpl. by rewrite lookup_insert_eq.
    + rewrite elem_of_filter. simpl. rewrite elem_of_list_to_set. set_solver.
    + rewrite elem_of_filter, elem_of_list_to_set. tauto.
  - by rewrite elem_of_sync_tracked.
Qed.

Lemma late_probe_leaves_stale_gauge_witness :
  let s0 := with_metrics (health_new ["a"; "b"]) metrics_new in
  let s1 := mark_unhealthy (sync_upstreams s0 ["b"]) "a" in
  ∃ m', metrics (sync_upstreams s1 ["b"]) = Some m' ∧ upstream_healthy m' !! "a" = Some 0%Z ∧
        "a" ∉ tracked (sync_upstreams s1 ["b"]).
Proof. apply (late_probe_leaves_stale_gauge metrics_new). decide_closed. Defined.

