(* ===== verification/Cache.v ===== *)
(** * Response cache

    Model of [proxy-core/src/cache.rs].  The [lru] crate's [LruCache] is an
    interface whose laws describe the iteration order (most recently used
    first) after each operation; every method of [ResponseCache] runs under
    its mutex, so each is one atomic step.  [clk] gives the successive clock
    readings a lookup makes while it checks entries for expiry. *)

From S2P Require Import Prelude RustStr Http.

Local Open Scope string_scope.
Local Open Scope list_scope.

(** ** The interface of [lru::LruCache] with string keys *)

Section assoc.
Context {V : Type}.

Definition assoc (k : string) (l : list (string * V)) : option V :=
  snd <$> find_first (λ e, String.eqb e.1 k) l.

Definition remove_key (k : string) (l : list (string * V)) : list (string * V) :=
  filter (λ e, e.1 ≠ k) l.

End assoc.

Class Lru := {
  LruCache : Type → Type;
  lru_new : ∀ {V}, nat → LruCache V;
  lru_cap : ∀ {V}, LruCache V → nat;
  lru_iter : ∀ {V}, LruCache V → list (string * V);
  lru_get : ∀ {V}, LruCache V → string → LruCache V * option V;
  lru_pop : ∀ {V}, LruCache V → string → LruCache V;
  lru_put : ∀ {V}, LruCache V → string → V → LruCache V;
}.

Class LruOk `{Lru} := {
  lru_iter_new V n : lru_iter (lru_new (V:=V) n) = [];
  lru_cap_new V n : lru_cap (lru_new (V:=V) n) = n;
  lru_get_val V (c : LruCache V) k : (lru_get c k).2 = assoc k (lru_iter c);
  lru_get_iter V (c : LruCache V) k :
    lru_iter (lru_get c k).1 =
      match assoc k (lru_iter c) with
      | Some v => (k, v) :: remove_key k (lru_iter c)
      | None => lru_iter c
      end;
  lru_get_cap V (c : LruCache V) k : lru_cap (lru_get c k).1 = lru_cap c;
  lru_pop_iter V (c : LruCache V) k : lru_iter (lru_pop c k) = remove_key k (lru_iter c);
  lru_pop_cap V (c : LruCache V) k : lru_cap (lru_pop c k) = lru_cap c;
  lru_put_iter V (c : LruCache V) k v :
    lru_iter (lru_put c k v) = take (lru_cap c) ((k, v) :: remove_key k (lru_iter c));
  lru_put_cap V (c : LruCache V) k v : lru_cap (lru_put c k v) = lru_cap c;
}.

(** ** The cache *)

Definition VARY : string := "vary".
Definition CACHE_CONTROL : string := "cache-control".

Fixpoint parse_max_age_parts (prefix : string) (parts : list string) : option Z :=
  match parts with
  | [] => None
  | part :: parts' =>
      match strip_prefix prefix (trim part) with
      | Some rest => parse_uint u64_max (trim rest)
      | None => parse_max_age_parts prefix parts'
      end
  end.

Definition parse_max_age (cc directive : string) : option Z :=
  parse_max_age_parts (directive +:+ "=") (split "," cc).

Section cache.
Context `{Http} `{Lru}.

Record CachedResponse := {
  c_status : StatusCode;
  c_headers : HeaderMap;
  c_body : string;
  created : Instant;
  ttl : Duration;
}.

Definition is_expired (e : CachedResponse) (now : Instant) : bool :=
  (ttl e <? duration_since now (created e))%Z.

Record ResponseCache := {
  cache : LruCache CachedResponse;
  default_ttl : Duration;
  max_entry_size : Z;
}.

Definition set_cache (rc : ResponseCache) (c : LruCache CachedResponse) : ResponseCache :=
  {| cache := c; default_ttl := default_ttl rc; max_entry_size := max_entry_size rc |}.

Definition cache_new (max_size_mb default_ttl_secs : Z) : ResponseCache :=
  let max_entries := Z.max (wrap64 (max_size_mb * 1024 * 1024) `div` 10240) 100 in
  {| cache := lru_new (Z.to_nat max_entries);
     default_ttl := from_secs default_ttl_secs;
     max_entry_size := (wrap64 (max_size_mb * 1024 * 1024) `div` 10)%Z |}.

Definition base_key (method : Method) (path : string) : string := method +:+ ":" +:+ path.

(** The loop over the names of a [Vary] header, [key] being the key so far. *)
Fixpoint vary_key (request_headers : HeaderMap) (key : string) (names : list string) : string :=
  match names with
  | [] => key
  | header_name :: names' =>
      let name := to_lowercase (trim header_name) in
      if String.eqb name "*" then key +:+ ":*:uncacheable"
      else
        let val := default "" (get_str name request_headers) in
        vary_key request_headers (key +:+ ":" +:+ name +:+ "=" +:+ val) names'
  end.

Definition cache_key (method : Method) (path : string) (vary_headers request_headers : HeaderMap)
    : string :=
  let key := base_key method path in
  match get_str VARY vary_headers with
  | Some vary_str => vary_key request_headers key (split "," vary_str)
  | None => key
  end.

Definition is_cacheable_request (method : Method) (headers : HeaderMap) : bool :=
  if negb (String.eqb method GET || String.eqb method HEAD) then false
  else match get_str CACHE_CONTROL headers with
       | Some cc => negb (contains cc "no-store" || contains cc "no-cache")
       | None => true
       end.

Definition is_cacheable_response (st : StatusCode) (headers : HeaderMap) : bool :=
  if negb (is_success st) then false
  else match get_str CACHE_CONTROL headers with
       | Some cc => negb (contains cc "no-store" || contains cc "private")
       | None => true
       end.

Definition parse_ttl (rc : ResponseCache) (headers : HeaderMap) : Duration :=
  match get_str CACHE_CONTROL headers with
  | Some cc =>
      match parse_max_age cc "s-maxage" with
      | Some secs => from_secs secs
      | None =>
          match parse_max_age cc "max-age" with
          | Some secs => from_secs secs
          | None => default_ttl rc
          end
      end
  | None => default_ttl rc
  end.

Definition hit (e : CachedResponse) : StatusCode * HeaderMap * string :=
  (c_status e, c_headers e, c_body e).

Definition cache_get (rc : ResponseCache) (key : string) (now : Instant)
    : ResponseCache * option (StatusCode * HeaderMap * string) :=
  let '(c, r) := lru_get (cache rc) key in
  match r with
  | Some e => if is_expired e now then (set_cache rc (lru_pop c key), None)
              else (set_cache rc c, Some (hit e))
  | None => (set_cache rc c, None)
  end.

(** The scan for a variant: the expired keys met, and the first key that the
    request would itself be stored under.  [i] counts the entries passed. *)
Fixpoint scan (method : Method) (path : string) (request_headers : HeaderMap) (clk : Clock)
    (i : nat) (entries : list (string * CachedResponse)) : list string * option string :=
  match entries with
  | [] => ([], None)
  | (key, e) :: entries' =>
      if negb (String.eqb key (base_key method path))
         && negb (starts_with key (base_key method path +:+ ":"))
      then scan method path request_headers clk (S i) entries'
      else if is_expired e (clk i) then
        let '(expired, m) := scan method path request_headers clk (S i) entries' in
        (key :: expired, m)
      else if String.eqb (cache_key method path (c_headers e) request_headers) key
      then ([], Some key)
      else scan method path request_headers clk (S i) entries'
  end.

Definition get_for_request (rc : ResponseCache) (method : Method) (path : string)
    (request_headers : HeaderMap) (clk : Clock)
    : ResponseCache * option (StatusCode * HeaderMap * string) :=
  let bk := base_key method path in
  let '(c, r) := lru_get (cache rc) bk in
  let search (c : LruCache CachedResponse) :=
    let '(expired, matching) := scan method path request_headers clk 1 (lru_iter c) in
    let c := foldl lru_pop c expired in
    match matching with
    | None => (set_cache rc c, None)
    | Some k =>
        let '(c, r) := lru_get c k in
        (set_cache rc c, hit <$> r)
    end in
  match r with
  | Some e => if is_expired e (clk 0) then search (lru_pop c bk)
              else (set_cache rc c, Some (hit e))
  | None => search c
  end.

Definition cache_put (rc : ResponseCache) (key : string) (st : StatusCode) (headers : HeaderMap)
    (body : string) (now : Instant) : ResponseCache :=
  if negb (is_cacheable_response st headers) then rc
  else if (max_entry_size rc <? Z.of_nat (String.length body))%Z then rc
  else
    let e := {| c_status := st; c_headers := headers; c_body := body; created := now;
                ttl := parse_ttl rc headers |} in
    set_cache rc (lru_put (cache rc) key e).

End cache.

(** ** An instance: a list with a capacity *)

#[export] Instance list_lru : Lru := {|
  LruCache V := (nat * list (string * V))%type;
  lru_new V n := (n, []);
  lru_cap V c := c.1;
  lru_iter V c := c.2;
  lru_get V c k :=
    match assoc k c.2 with
    | Some v => ((c.1, (k, v) :: remove_key k c.2), Some v)
    | None => (c, None)
    end;
  lru_pop V c k := (c.1, remove_key k c.2);
  lru_put V c k v := (c.1, take c.1 ((k, v) :: remove_key k c.2));
|}.

#[export] Instance list_lru_ok : @LruOk list_lru.
Proof. split; intros; simpl; try done; by destruct (assoc k c.2). Qed.

(** ** Lemmas *)

Section assoc_lemmas.
Context {V : Type}.
Implicit Types l : list (string * V).

Lemma assoc_elem_of k v l : assoc k l = Some v → (k, v) ∈ l.
Proof.
  unfold assoc. intros ([k' v'] & [Hin Hk]%find_first_In & ->)%fmap_Some.
  simpl in Hk. bool_to_prop. by subst.
Qed.

Lemma assoc_None k l : assoc k l = None ↔ k ∉ l.*1.
Proof.
  unfold assoc. rewrite fmap_None, find_first_None, Forall_forall.
  rewrite list_elem_of_fmap. setoid_rewrite String.eqb_neq. naive_solver.
Qed.

Lemma assoc_cons_eq k v l : assoc k ((k, v) :: l) = Some v.
Proof. unfold assoc. simpl. by rewrite String.eqb_refl. Qed.

Lemma assoc_nodup k v l : NoDup l.*1 → (k, v) ∈ l → assoc k l = Some v.
Proof.
  induction l as [|[k' v'] l IH]; [set_solver|].
  cbn [fmap list_fmap fst]. intros [Hk Hnd]%NoDup_cons [[= -> ->]|Hin]%elem_of_cons.
  { apply assoc_cons_eq. }
  unfold assoc in *. simpl. destruct (String.eqb k' k) eqn:E; [|by apply IH].
  bool_to_prop. subst. exfalso. apply Hk. apply list_elem_of_fmap. by exists (k, v).
Qed.

Lemma elem_of_remove_key k e l : e ∈ remove_key k l ↔ e.1 ≠ k ∧ e ∈ l.
Proof. unfold remove_key. by rewrite list_elem_of_filter. Qed.

Lemma remove_key_nodup k l : NoDup l.*1 → NoDup (remove_key k l).*1.
Proof.
  unfold remove_key. induction l as [|[k' v] l IH]; [done|].
  cbn [fmap list_fmap fst]. intros [Hk Hnd]%NoDup_cons. rewrite filter_cons. case_decide; [|auto].
  cbn [fmap list_fmap fst]. constructor; [|auto].
  intros (e & -> & He)%list_elem_of_fmap. apply Hk, list_elem_of_fmap. exists e.
  apply list_elem_of_filter in He. naive_solver.
Qed.

Lemma promote_nodup k v l : NoDup l.*1 → NoDup ((k, v) :: remove_key k l).*1.
Proof.
  intros Hnd. cbn [fmap list_fmap fst]. constructor; [|by apply remove_key_nodup].
  intros (e & -> & He%elem_of_remove_key)%list_elem_of_fmap. naive_solver.
Qed.

Lemma take_nodup n l : NoDup l.*1 → NoDup (take n l).*1.
Proof.
  intros Hnd. rewrite <- (take_drop n l), fmap_app in Hnd.
  by apply NoDup_app in Hnd as [? _].
Qed.

End assoc_lemmas.

#[export] Hint Resolve remove_key_nodup promote_nodup take_nodup : trp.

Section scan_lemmas.
Context `{Http}.

(** A key that [scan] returns belongs to a fresh entry the request selects. *)
Lemma scan_match m p rh clk : ∀ entries i ex k,
  scan m p rh clk i entries = (ex, Some k) →
  ∃ l1 e l2, entries = l1 ++ (k, e) :: l2 ∧
    is_expired e (clk (i + length l1)) = false ∧ cache_key m p (c_headers e) rh = k ∧
    (∀ x, x ∈ ex → x ∈ l1.*1).
Proof.
  induction entries as [|[key e] entries IH]; intros i ex k; cbn [scan]; [done|].
  assert (∀ ex', scan m p rh clk (S i) entries = (ex', Some k) → ∃ l1 e0 l2,
    (key, e) :: entries = (key, e) :: l1 ++ (k, e0) :: l2 ∧
    is_expired e0 (clk (i + length ((key, e) :: l1))) = false ∧
    cache_key m p (c_headers e0) rh = k ∧ (∀ x, x ∈ ex' → x ∈ l1.*1)) as Hrec.
  { intros ex' Hs. destruct (IH _ _ _ Hs) as (l1 & e0 & l2 & -> & He & Hk & Hex).
    exists l1, e0, l2. split_and!; try done.
    cbn [length]. by replace (i + S (length l1)) with (S i + length l1) by lia. }
  case_match; [|case_match eqn:Hexp; [|case_match eqn:Hkey]].
  - intros (l1 & e0 & l2 & -> & Hr)%Hrec. exists ((key, e) :: l1), e0, l2. set_solver.
  - destruct (scan m p rh clk (S i) entries) as [ex' m'] eqn:Hs. intros [= <- ->].
    destruct (Hrec _ eq_refl) as (l1 & e0 & l2 & -> & Hr). exists ((key, e) :: l1), e0, l2.
    set_solver.
  - intros [= <- <-]. bool_to_prop. exists [], e, entries. rewrite Nat.add_0_r. set_solver.
  - intros (l1 & e0 & l2 & -> & Hr)%Hrec. exists ((key, e) :: l1), e0, l2. set_solver.
Qed.

End scan_lemmas.

Section lemmas.
Context `{Http} `{LO : LruOk}.

(** Keys are distinct and there is room for an entry. *)
Definition lru_wf {V} (c : LruCache V) : Prop := NoDup (lru_iter c).*1 ∧ (1 ≤ lru_cap c)%nat.

Definition cache_wf (rc : ResponseCache) : Prop := lru_wf (cache rc).

Lemma lru_get_wf {V} (c : LruCache V) k : lru_wf c → lru_wf (lru_get c k).1.
Proof.
  intros [Hnd Hcap]. split; [|by rewrite lru_get_cap].
  rewrite lru_get_iter. case_match; eauto with trp.
Qed.

Lemma lru_pop_wf {V} (c : LruCache V) k : lru_wf c → lru_wf (lru_pop c k).
Proof.
  intros [Hnd Hcap]. split; [|by rewrite lru_pop_cap]. rewrite lru_pop_iter. eauto with trp.
Qed.

Lemma lru_put_wf {V} (c : LruCache V) k v : lru_wf c → lru_wf (lru_put c k v).
Proof.
  intros [Hnd Hcap]. split; [|by rewrite lru_put_cap]. rewrite lru_put_iter. eauto with trp.
Qed.

Lemma lru_pops_wf {V} ks (c : LruCache V) : lru_wf c → lru_wf (foldl lru_pop c ks).
Proof. revert c. induction ks as [|k ks IH]; intros c Hc; simpl; eauto using lru_pop_wf. Qed.

Lemma elem_of_lru_get {V} (c : LruCache V) k e :
  e ∈ lru_iter (lru_get c k).1 → e ∈ lru_iter c.
Proof.
  rewrite lru_get_iter. case_match eqn:E; [|done].
  apply assoc_elem_of in E. rewrite elem_of_cons, elem_of_remove_key. naive_solver.
Qed.

Lemma elem_of_lru_pops {V} ks (c : LruCache V) e :
  e ∈ lru_iter (foldl lru_pop c ks) ↔ e ∈ lru_iter c ∧ e.1 ∉ ks.
Proof.
  revert c. induction ks as [|k ks IH]; intros c; simpl; [set_solver|].
  rewrite IH, lru_pop_iter, elem_of_remove_key, not_elem_of_cons. tauto.
Qed.

Lemma get_for_request_wf rc m p rh clk :
  cache_wf rc → cache_wf (get_for_request rc m p rh clk).1.
Proof.
  unfold cache_wf, get_for_request. intros Hwf.
  pose proof (lru_get_wf (cache rc) (base_key m p) Hwf) as Hg.
  destruct (lru_get (cache rc) (base_key m p)) as [c r]. simpl in Hg.
  assert (∀ c', lru_wf c' → lru_wf (cache
    (let '(expired, matching) := scan m p rh clk 1 (lru_iter c') in
     let c := foldl lru_pop c' expired in
     match matching with
     | None => (set_cache rc c, None)
     | Some k => let '(c, r) := lru_get c k in (set_cache rc c, hit <$> r)
     end).1)) as Hs.
  { intros c' Hc'. destruct (scan m p rh clk 1 (lru_iter c')) as [ex [k|]]; simpl;
      [|by apply lru_pops_wf].
    pose proof (lru_get_wf (foldl lru_pop c' ex) k (lru_pops_wf _ _ Hc')) as Hg'.
    by destruct (lru_get (foldl lru_pop c' ex) k). }
  destruct r as [e|]; [|by apply Hs].
  destruct (is_expired e (clk 0)); [|done]. apply Hs. by apply lru_pop_wf.
Qed.

Lemma cache_get_wf rc key now : cache_wf rc → cache_wf (cache_get rc key now).1.
Proof.
  unfold cache_wf, cache_get. intros Hwf. pose proof (lru_get_wf (cache rc) key Hwf) as Hg.
  destruct (lru_get (cache rc) key) as [c [e|]]; [|done]. simpl in *.
  destruct (is_expired e now); [by apply lru_pop_wf|done].
Qed.

Lemma cache_put_wf rc key st h b now : cache_wf rc → cache_wf (cache_put rc key st h b now).
Proof.
  unfold cache_wf, cache_put. intros Hwf. do 2 (case_match; [done|]). by apply lru_put_wf.
Qed.

Lemma cache_new_wf mb secs : cache_wf (cache_new mb secs).
Proof.
  unfold cache_wf, lru_wf, cache_new. simpl. rewrite lru_iter_new, lru_cap_new.
  split; [constructor|]. lia.
Qed.

End lemmas.

(** *** Keys *)

Section keys.
Context `{Http}.

(** What the [Vary] names append to the key. *)
Fixpoint vary_suffix (rh : HeaderMap) (names : list string) : string :=
  match names with
  | [] => ""
  | n :: names' =>
      let name := to_lowercase (trim n) in
      if String.eqb name "*" then ":*:uncacheable"
      else ":" +:+ name +:+ "=" +:+ default "" (get_str name rh) +:+ vary_suffix rh names'
  end.

Lemma vary_key_suffix rh names key : vary_key rh key names = key +:+ vary_suffix rh names.
Proof.
  revert key. induction names as [|n names IH]; intros key; cbn [vary_key vary_suffix].
  { by rewrite str_app_nil_r. }
  case_match; [done|]. rewrite IH. by rewrite !str_app_assoc.
Qed.

Definition key_suffix (h rh : HeaderMap) : string :=
  match get_str VARY h with
  | Some v => vary_suffix rh (split "," v)
  | None => ""
  end.

Lemma cache_key_suffix m p h rh : cache_key m p h rh = base_key m p +:+ key_suffix h rh.
Proof.
  unfold cache_key, key_suffix. case_match; [apply vary_key_suffix|by rewrite str_app_nil_r].
Qed.

(** Empty, or starting with the separator. *)
Definition sep_or_empty (s : string) : Prop := s = "" ∨ ∃ r, s = String ":" r.

Lemma vary_suffix_sep rh names : sep_or_empty (vary_suffix rh names).
Proof.
  destruct names as [|n names]; [by left|]. cbn [vary_suffix]. right.
  case_match; eexists; reflexivity.
Qed.

Lemma key_suffix_sep h rh : sep_or_empty (key_suffix h rh).
Proof. unfold key_suffix. case_match; [apply vary_suffix_sep|by left]. Qed.

Lemma key_suffix_nonempty h rh : key_suffix h rh = "" → get_str VARY h = None.
Proof.
  unfold key_suffix. case_match eqn:E; [|done].
  pose proof (split_not_nil "," s). destruct (split "," s) as [|n ns]; [done|].
  cbn [vary_suffix]. by case_match.
Qed.

(** A colon-free piece ends where the separator starts. *)
Lemma sep_unique a b r r' :
  no_char ":" a = true → no_char ":" b = true → sep_or_empty r → sep_or_empty r' →
  a +:+ r = b +:+ r' → a = b ∧ r = r'.
Proof.
  revert b. induction a as [|x a IH]; intros [|y b] Ha Hb Hr Hr' Heq; simpl in *.
  - done.
  - destruct Hr as [->|[t ->]]; [done|]. injection Heq as <- _. done.
  - destruct Hr' as [->|[t ->]]; [done|]. injection Heq as -> _. done.
  - injection Heq as -> Heq. apply andb_true_iff in Ha as [_ Ha]. apply andb_true_iff in Hb as [_ Hb].
    destruct (IH b Ha Hb Hr Hr' Heq) as [-> ->]. done.
Qed.

Lemma base_key_inj m p m' p' r r' :
  Forall (λ s, no_char ":" s = true) [m; p; m'; p'] → sep_or_empty r → sep_or_empty r' →
  base_key m p +:+ r = base_key m' p' +:+ r' → m = m' ∧ p = p' ∧ r = r'.
Proof.
  unfold base_key. intros HF Hr Hr' Heq.
  repeat match goal with H : Forall _ (_ :: _) |- _ => apply Forall_cons in H as [? H] end.
  rewrite !str_app_assoc in Heq.
  destruct (sep_unique m m' (":" +:+ p +:+ r) (":" +:+ p' +:+ r')) as [-> Heq']; try done.
  { right. by eexists. } { right. by eexists. }
  apply str_app_inj_l in Heq'. by destruct (sep_unique p p' r r') as [-> ->].
Qed.

(** The value of a request for a name a response varies on. *)
Definition vary_value (rh : HeaderMap) (n : string) : string :=
  default "" (get_str (to_lowercase (trim n)) rh).

Definition varies_on (h : HeaderMap) : list string :=
  match get_str VARY h with Some v => split "," v | None => [] end.

Lemma vary_suffix_agree rh rh' names :
  Forall (λ n, to_lowercase (trim n) ≠ "*") names →
  Forall (λ n, no_char ":" (vary_value rh n) = true ∧ no_char ":" (vary_value rh' n) = true) names →
  vary_suffix rh names = vary_suffix rh' names →
  Forall (λ n, vary_value rh n = vary_value rh' n) names.
Proof.
  induction names as [|n names IH]; [constructor|].
  intros [Hs Hss]%Forall_cons [[Hc Hc'] Hcs]%Forall_cons. cbn [vary_suffix].
  rewrite (proj2 (String.eqb_neq _ _) Hs). intros Heq.
  do 3 apply str_app_inj_l in Heq.
  destruct (sep_unique (vary_value rh n) (vary_value rh' n) (vary_suffix rh names)
              (vary_suffix rh' names)) as [Hv Hr]; auto using vary_suffix_sep.
Qed.

Lemma cache_key_prefix m p h rh :
  cache_key m p h rh = base_key m p ∨
  starts_with (cache_key m p h rh) (base_key m p +:+ ":") = true.
Proof.
  rewrite cache_key_suffix. destruct (key_suffix_sep h rh) as [->|[r ->]].
  - left. by rewrite str_app_nil_r.
  - right. apply starts_with_spec. exists r. by rewrite str_app_assoc.
Qed.

End keys.

(** *** Histories *)

Section history.
Context `{Http} `{LO : LruOk}.

Inductive cache_op :=
| CPut (m : Method) (p : string) (st : StatusCode) (h rh : HeaderMap) (b : string) (now : Instant)
| CGet (key : string) (now : Instant)
| CGetForRequest (m : Method) (p : string) (rh : HeaderMap) (clk : Clock).

Definition cache_apply (rc : ResponseCache) (o : cache_op) : ResponseCache :=
  match o with
  | CPut m p st h rh b now => cache_put rc (cache_key m p h rh) st h b now
  | CGet key now => (cache_get rc key now).1
  | CGetForRequest m p rh clk => (get_for_request rc m p rh clk).1
  end.

(** An entry and the write it came from. *)
Definition stored_by (o : cache_op) (dttl : Duration) (k : string) (e : CachedResponse) : Prop :=
  match o with
  | CPut m p st h rh b now =>
      k = cache_key m p h rh ∧ is_cacheable_response st h = true ∧
      c_status e = st ∧ c_headers e = h ∧ c_body e = b ∧ created e = now ∧
      ttl e = parse_ttl {| cache := lru_new 0; default_ttl := dttl; max_entry_size := 0 |} h
  | _ => False
  end.

Lemma get_for_request_entries rc m p rh clk ke :
  ke ∈ lru_iter (cache (get_for_request rc m p rh clk).1) → ke ∈ lru_iter (cache rc).
Proof.
  unfold get_for_request. pose proof (elem_of_lru_get (cache rc) (base_key m p) ke) as Hg.
  destruct (lru_get (cache rc) (base_key m p)) as [c r]. simpl in Hg.
  assert (∀ c', (ke ∈ lru_iter c' → ke ∈ lru_iter (cache rc)) → ke ∈ lru_iter (cache
    (let '(expired, matching) := scan m p rh clk 1 (lru_iter c') in
     let c := foldl lru_pop c' expired in
     match matching with
     | None => (set_cache rc c, None)
     | Some k => let '(c, r) := lru_get c k in (set_cache rc c, hit <$> r)
     end).1) → ke ∈ lru_iter (cache rc)) as Hs.
  { intros c' Hc'. destruct (scan m p rh clk 1 (lru_iter c')) as [ex [k|]]; simpl.
    - pose proof (elem_of_lru_get (foldl lru_pop c' ex) k ke) as Hg'.
      destruct (lru_get (foldl lru_pop c' ex) k) as [c2 r2]. simpl in *.
      intros Hin%Hg'%elem_of_lru_pops. tauto.
    - intros Hin%elem_of_lru_pops. tauto. }
  destruct r as [e|]; [|by apply Hs].
  destruct (is_expired e (clk 0)); [|done]. apply Hs.
  rewrite lru_pop_iter, elem_of_remove_key. tauto.
Qed.

Lemma cache_get_entries rc key now ke :
  ke ∈ lru_iter (cache (cache_get rc key now).1) → ke ∈ lru_iter (cache rc).
Proof.
  unfold cache_get. pose proof (elem_of_lru_get (cache rc) key ke) as Hg.
  destruct (lru_get (cache rc) key) as [c [e|]]; [|done]. simpl in *.
  destruct (is_expired e now); [|done]. simpl.
  rewrite lru_pop_iter, elem_of_remove_key. tauto.
Qed.

Lemma cache_put_entries rc key st h b now ke :
  ke ∈ lru_iter (cache (cache_put rc key st h b now)) →
  ke ∈ lru_iter (cache rc) ∨
  (is_cacheable_response st h = true ∧
   ke = (key, {| c_status := st; c_headers := h; c_body := b; created := now; ttl := parse_ttl rc h |})).
Proof.
  unfold cache_put. destruct (is_cacheable_response st h); [|by left]. simpl.
  case_match; [by left|]. simpl. rewrite lru_put_iter. intros Hin.
  apply elem_of_take in Hin as (i & Hi & _). apply list_elem_of_lookup_2 in Hi.
  rewrite elem_of_cons, elem_of_remove_key in Hi. naive_solver.
Qed.

Lemma cache_apply_ttl rc o : default_ttl (cache_apply rc o) = default_ttl rc.
Proof.
  destruct o; simpl; unfold cache_put, cache_get, get_for_request; repeat case_match; done.
Qed.

Lemma cache_apply_wf rc o : cache_wf rc → cache_wf (cache_apply rc o).
Proof. destruct o; simpl; auto using cache_put_wf, cache_get_wf, get_for_request_wf. Qed.

(** Every entry of a cache was put there by some write of its history. *)
Lemma cache_run_entries mb secs os :
  let rc := foldl cache_apply (cache_new mb secs) os in
  cache_wf rc ∧ default_ttl rc = from_secs secs ∧
  ∀ k e, (k, e) ∈ lru_iter (cache rc) → ∃ o, o ∈ os ∧ stored_by o (from_secs secs) k e.
Proof.
  induction os as [|o os (Hwf & Hd & IH)] using rev_ind; cbn zeta.
  { simpl. split_and!; [apply cache_new_wf|done|]. rewrite lru_iter_new. set_solver. }
  rewrite foldl_snoc. set (rc := foldl cache_apply (cache_new mb secs) os) in *.
  split_and!; [by apply cache_apply_wf|by rewrite cache_apply_ttl|].
  intros k e Hin.
  assert ((k, e) ∈ lru_iter (cache rc) ∨ stored_by o (from_secs secs) k e) as [Hold|Hnew].
  { destruct o as [m p st h rh b now|key now|m p rh clk]; simpl in Hin.
    - apply cache_put_entries in Hin as [|[Hc [= -> ->]]]; [by left|right].
      simpl. split_and!; try done. unfold parse_ttl. simpl. by rewrite Hd.
    - left. by eapply cache_get_entries.
    - left. by eapply get_for_request_entries. }
  - destruct (IH _ _ Hold) as (o' & Ho' & Hs). exists o'. set_solver.
  - exists o. set_solver.
Qed.

(** A lookup that hits returns a fresh entry of the cache, chosen by key. *)
Lemma get_for_request_hit rc m p rh clk r :
  cache_wf rc → (get_for_request rc m p rh clk).2 = Some r →
  ∃ k e i, (k, e) ∈ lru_iter (cache rc) ∧ r = hit e ∧ is_expired e (clk i) = false ∧
    (k = base_key m p ∨ k = cache_key m p (c_headers e) rh).
Proof.
  unfold get_for_request, cache_wf. intros Hwf.
  pose proof (lru_get_wf (cache rc) (base_key m p) Hwf) as Hg.
  pose proof (elem_of_lru_get (cache rc) (base_key m p)) as Hin.
  pose proof (lru_get_val _ (cache rc) (base_key m p)) as Hval.
  destruct (lru_get (cache rc) (base_key m p)) as [c r0]. simpl in *.
  assert (∀ c', lru_wf c' → (∀ ke, ke ∈ lru_iter c' → ke ∈ lru_iter (cache rc)) →
    (let '(expired, matching) := scan m p rh clk 1 (lru_iter c') in
     let c := foldl lru_pop c' expired in
     match matching with
     | None => (set_cache rc c, None)
     | Some k => let '(c, r) := lru_get c k in (set_cache rc c, hit <$> r)
     end).2 = Some r →
    ∃ k e i, (k, e) ∈ lru_iter (cache rc) ∧ r = hit e ∧ is_expired e (clk i) = false ∧
    (k = base_key m p ∨ k = cache_key m p (c_headers e) rh)) as Hs.
  { intros c' Hc' Hsub. destruct (scan m p rh clk 1 (lru_iter c')) as [ex [k|]] eqn:Hscan; [|done].
    cbv beta iota zeta.
    apply scan_match in Hscan as (l1 & e & l2 & Hl & Hexp & Hk & Hex).
    destruct Hc' as [Hnd Hcap].
    assert ((k, e) ∈ lru_iter (foldl lru_pop c' ex)) as Hke.
    { apply elem_of_lru_pops. rewrite Hl. split; [set_solver|]. intros Hx%Hex.
      rewrite Hl, fmap_app in Hnd. apply NoDup_app in Hnd as (_ & Hd & _).
      apply (Hd _ Hx). cbn. set_solver. }
    pose proof (lru_get_val _ (foldl lru_pop c' ex) k) as Hv.
    rewrite (assoc_nodup _ e) in Hv; [|by apply lru_pops_wf|done].
    destruct (lru_get (foldl lru_pop c' ex) k) as [c2 r2]. simpl in *. subst r2.
    intros Hr. injection Hr as Hr. exists k, e, (1 + length l1). split_and!; [|by rewrite <- Hr|done|by right].
    apply Hsub. rewrite Hl. set_solver. }
  destruct r0 as [e|]; [|by apply Hs].
  destruct (is_expired e (clk 0)) eqn:Hexp.
  - apply Hs; [by apply lru_pop_wf|]. intros ke. rewrite lru_pop_iter, elem_of_remove_key.
    intros [_ ?]. by apply Hin.
  - simpl. intros Hr. injection Hr as Hr. symmetry in Hval. apply assoc_elem_of in Hval.
    exists (base_key m p), e, 0%nat. eauto 6.
Qed.

End history.

(** ** Properties *)

(** C39: what a cached response may be served to.  In any history of writes and
    lookups whose methods and paths contain no colon, a hit returns exactly
    the status, headers and body that some earlier write stored for the same
    method and path, not older than its time to live; and, unless its [Vary] header
    says [*] or a compared value contains a colon, that write came from a request
    that agrees with this one on every header the response's first [Vary] line
    names, each compared by its first value, a value that is not readable as text
    counting as empty.  (Further [Vary] lines and further values of a header are not
    looked at.) *)
Theorem cache_isolation `{Http} `{LO : LruOk} mb secs os m p rh clk st h b :
  Forall (λ o, match o with
               | CPut m' p' _ _ _ _ _ => no_char ":" m' && no_char ":" p' = true
               | _ => True
               end) os →
  no_char ":" m && no_char ":" p = true →
  (get_for_request (foldl cache_apply (cache_new mb secs) os) m p rh clk).2 = Some (st, h, b) →
  ∃ rh' now i,
    CPut m p st h rh' b now ∈ os ∧ is_cacheable_response st h = true ∧
    (duration_since (clk i) now ≤ parse_ttl (cache_new mb secs) h)%Z ∧
    (Forall (λ n, to_lowercase (trim n) ≠ "*") (varies_on h) →
     Forall (λ n, no_char ":" (vary_value rh n) = true ∧ no_char ":" (vary_value rh' n) = true)
       (varies_on h) →
     Forall (λ n, vary_value rh n = vary_value rh' n) (varies_on h)).
Proof.
  intros Hos [Hm Hp]%andb_true_iff Hget.
  destruct (cache_run_entries mb secs os) as (Hwf & _ & Hent).
  destruct (get_for_request_hit _ _ _ _ _ _ Hwf Hget) as (k & e & i & Hin & [= -> -> ->] & Hexp & Hk).
  destruct (Hent _ _ Hin) as (o & Ho & Hs).
  destruct o as [m' p' st' h' rh' b' now|key now|m' p' rh' clk']; try done. simpl in Hs.
  destruct Hs as (Hkey & Hc & <- & <- & <- & <- & Httl).
  rewrite Forall_forall in Hos. pose proof (Hos _ Ho) as Hcol. simpl in Hcol.
  apply andb_true_iff in Hcol as [Hm' Hp'].
  assert (∃ s, base_key m p +:+ s = k ∧ sep_or_empty s ∧
    (s = key_suffix (c_headers e) rh ∨ s = "")) as (s & Hsk & Hsep & Hs).
  { destruct Hk as [->| ->].
    - exists "". rewrite str_app_nil_r. split_and!; [done|by left|by right].
    - rewrite cache_key_suffix. exists (key_suffix (c_headers e) rh).
      split_and!; [done|apply key_suffix_sep|by left]. }
  rewrite Hkey, cache_key_suffix in Hsk.
  apply base_key_inj in Hsk as (-> & -> & Hsuf); [|by repeat constructor|done|apply key_suffix_sep].
  exists rh', (created e), i. split_and!; [done|done| |].
  { unfold is_expired in Hexp. bool_to_prop. rewrite Httl in Hexp.
    unfold parse_ttl in *. simpl in *. done. }
  unfold varies_on, key_suffix in *. intros Hstar Hcolon.
  destruct (get_str VARY (c_headers e)) as [v|] eqn:Hv; [|constructor].
  apply vary_suffix_agree; [done|done|]. destruct Hs as [Hs|Hs]; rewrite Hs in Hsuf; [done|].
  exfalso. symmetry in Hsuf.
  assert (key_suffix (c_headers e) rh' = "") as Hks by (unfold key_suffix; by rewrite Hv).
  apply key_suffix_nonempty in Hks. congruence.
Qed.

Lemma cache_isolation_witness :
  let h : @HeaderMap list_http := [("vary", "Accept"); ("cache-control", "max-age=60")] in
  let rh : @HeaderMap list_http := [("accept", "text/html")] in
  ∃ rh' now (i : nat),
    CPut GET "/a" 200%Z h rh' "hi" now ∈
      [CPut GET "/a" 200%Z h rh "hi" 0%Z] ∧
    is_cacheable_response 200%Z h = true ∧
    (duration_since (from_secs 30) now ≤ from_secs 60)%Z ∧
    (Forall (λ n, to_lowercase (trim n) ≠ "*") (varies_on h) →
     Forall (λ n, no_char ":" (vary_value rh n) = true ∧ no_char ":" (vary_value rh' n) = true)
       (varies_on h) →
     Forall (λ n, vary_value rh n = vary_value rh' n) (varies_on h)).
Proof.
  intros h rh.
  apply (cache_isolation (H0:=list_lru) 1 300 [CPut GET "/a" 200%Z h rh "hi" 0%Z] GET "/a" rh
           (λ _, from_secs 30) 200%Z h "hi").
  - repeat constructor.
  - reflexivity.
  - vm_compute. reflexivity.
Defined.

(** what is stored is found again.  A cacheable response that fits is
    served, unchanged, to a request with the same method, path and headers
    until its time to live is over, unless a response without [Vary] is
    already stored for the path. *)
Theorem put_then_get `{Http} `{LO : LruOk} rc m p rh st h b now clk :
  cache_wf rc → is_cacheable_response st h = true →
  (Z.of_nat (String.length b) ≤ max_entry_size rc)%Z →
  (cache_key m p h rh = base_key m p ∨ assoc (base_key m p) (lru_iter (cache rc)) = None) →
  (∀ i, duration_since (clk i) now ≤ parse_ttl rc h)%Z →
  (get_for_request (cache_put rc (cache_key m p h rh) st h b now) m p rh clk).2 = Some (st, h, b).
Proof.
  intros [Hnd Hcap] Hc Hsize Hbase Hfresh. unfold cache_put. rewrite Hc. cbn [negb].
  rewrite (proj2 (Z.ltb_ge _ _) Hsize). unfold get_for_request.
  set (k := cache_key m p h rh) in *.
  set (e := {| c_status := st |}).
  assert (∀ i, is_expired e (clk i) = false) as Hexp.
  { intros i. apply Z.ltb_ge. simpl. apply Hfresh. }
  set (c := lru_put (cache rc) k e).
  assert (∃ l, lru_iter c = (k, e) :: l ∧ (k ≠ base_key m p → base_key m p ∉ ((k, e) :: l).*1))
    as (l & Hl & Hnb).
  { unfold c. rewrite lru_put_iter. destruct (lru_cap (cache rc)) as [|n]; [lia|]. simpl.
    eexists. split; [done|]. intros Hne. destruct Hbase as [|Hb]; [done|].
    apply assoc_None in Hb. rewrite not_elem_of_cons. split; [done|].
    intros (x & Hx & Hin)%list_elem_of_fmap. apply Hb, list_elem_of_fmap. exists x. split; [done|].
    apply elem_of_take in Hin as (i & Hi & _). apply list_elem_of_lookup_2 in Hi.
    by apply elem_of_remove_key in Hi as [_ ?]. }
  cbn [cache set_cache]. fold c.
  pose proof (lru_get_val _ c (base_key m p)) as Hval.
  pose proof (lru_get_iter _ c (base_key m p)) as Hit.
  destruct (decide (k = base_key m p)) as [Hkb|Hkb].
  - rewrite Hl, <- Hkb, assoc_cons_eq in Hval. rewrite <- Hkb.
    destruct (lru_get c k) as [c1 r1]. simpl in *. subst r1. by rewrite Hexp.
  - rewrite Hl, (proj2 (assoc_None _ _)) in Hval by auto.
    rewrite Hl, (proj2 (assoc_None _ _)) in Hit by auto.
    destruct (lru_get c (base_key m p)) as [c1 r1]. simpl in Hval, Hit. subst r1. cbn iota zeta beta.
    rewrite Hit. cbn [scan]. change (c_headers e) with h. fold k. rewrite String.eqb_refl, Hexp.
    destruct (cache_key_prefix m p h rh) as [|Hpre]; [done|]. fold k in Hpre.
    rewrite Hpre, andb_false_r. simpl.
    pose proof (lru_get_val _ c1 k) as Hv. rewrite Hit, assoc_cons_eq in Hv.
    by destruct (lru_get c1 k) as [c2 r2]; simpl in *; subst r2.
Qed.

Lemma put_then_get_witness :
  let h : @HeaderMap list_http := [("vary", "Accept"); ("cache-control", "max-age=60")] in
  let rh : @HeaderMap list_http := [("accept", "text/html")] in
  let rc := cache_new (H0:=list_lru) 1 300 in
  (get_for_request (cache_put rc (cache_key GET "/a" h rh) 200%Z h "hi" 0%Z) GET "/a" rh
     (λ _, from_secs 60)).2 = Some (200%Z, h, "hi").
Proof.
  intros h rh rc.
  apply (put_then_get rc GET "/a" rh 200%Z h "hi" 0%Z (λ _, from_secs 60)).
  - apply cache_new_wf.
  - reflexivity.
  - vm_compute. discriminate.
  - right. reflexivity.
  - intros i. vm_compute. discriminate.
Defined.

(** responses that must not be shared never enter the cache: an error
    status, a [no-store] or [private] response and an oversized body leave it
    unchanged. *)
Theorem uncacheable_not_stored `{Http} `{Lru} rc key st h b now :
  is_success st = false ∨
  (∃ cc, get_str CACHE_CONTROL h = Some cc ∧
     (contains cc "no-store" = true ∨ contains cc "private" = true)) ∨
  (max_entry_size rc < Z.of_nat (String.length b))%Z →
  cache_put rc key st h b now = rc.
Proof.
  unfold cache_put, is_cacheable_response.
  intros [Hs|[(cc & Hcc & Hd)|Hsz]].
  - by rewrite Hs.
  - rewrite Hcc. destruct (is_success st); [|done]. simpl.
    destruct Hd as [Hd|Hd]; rewrite Hd, ?orb_true_r; done.
  - apply Z.ltb_lt in Hsz. rewrite Hsz. by case_match.
Qed.

Lemma uncacheable_not_stored_witness :
  let rc := cache_new (H0:=list_lru) 1 300 in
  let h : @HeaderMap list_http := [("cache-control", "private, max-age=60")] in
  cache_put rc "GET:/a" 200%Z h "hi" 0%Z = rc.
Proof.
  intros rc h. apply (uncacheable_not_stored rc "GET:/a" 200%Z h "hi" 0%Z).
  right. left. exists "private, max-age=60". split; [vm_compute; reflexivity|].
  right. vm_compute. reflexivity.
Defined.

(** a response with [Vary: *] is stored and served.  Its key carries the
    "uncacheable" marker, but the lookup computes the same key from the stored
    headers, so any later request for the path gets it, whatever its headers. *)
Theorem vary_star_is_served :
  let h : @HeaderMap list_http := [("vary", "*")] in
  let alice : @HeaderMap list_http := [("authorization", "alice")] in
  let bob : @HeaderMap list_http := [("authorization", "bob")] in
  let rc := cache_new (H0:=list_lru) 1 300 in
  (get_for_request (cache_put rc (cache_key GET "/me" h alice) 200%Z h "alice's data" 0%Z)
     GET "/me" bob (λ _, 0%Z)).2 = Some (200%Z, h, "alice's data").
Proof. vm_compute. reflexivity. Qed.

(** only the first [Vary] line counts: a response that varies on [Accept] by a second
    line is served to a request with another [Accept]. *)
Theorem second_vary_line_is_ignored :
  let h : @HeaderMap list_http := [("vary", "Accept-Encoding"); ("vary", "Accept")] in
  let html : @HeaderMap list_http := [("accept", "text/html")] in
  let json : @HeaderMap list_http := [("accept", "application/json")] in
  let rc := cache_new (H0:=list_lru) 1 300 in
  (get_for_request (cache_put rc (cache_key GET "/a" h html) 200%Z h "<p>" 0%Z)
     GET "/a" json (λ _, 0%Z)).2 = Some (200%Z, h, "<p>").
Proof. vm_compute. reflexivity. Qed.

(** keys of different requests can collide when a path contains a colon: a
    response stored for one path is served for another. *)
Theorem cache_keys_collide :
  let h : @HeaderMap list_http := [("vary", "foo")] in
  let r1 : @HeaderMap list_http := [("foo", "1:foo=z")] in
  let r2 : @HeaderMap list_http := [("foo", "z")] in
  let rc := cache_new (H0:=list_lru) 1 300 in
  (get_for_request (cache_put rc (cache_key GET "/a" h r1) 200%Z h "for /a" 0%Z)
     GET "/a:foo=1" r2 (λ _, 0%Z)).2 = Some (200%Z, h, "for /a").
Proof. vm_compute. reflexivity. Qed.
