(* ===== verification/Compression.v ===== *)
(** * Response compression

    Model of [proxy-core/src/compression.rs].  The gzip, brotli and zstd
    encoders are a parameter: the encoded bytes of a body, or nothing when the
    encoder fails. *)

From S2P Require Import Prelude RustStr F64 Http Cache.

Local Open Scope string_scope.
Local Open Scope list_scope.

Definition CONTENT_ENCODING : string := "content-encoding".
Definition CONTENT_LENGTH : string := "content-length".
Definition CONTENT_TYPE : string := "content-type".

Definition SKIP_TYPES : list string :=
  ["application/grpc"; "image/png"; "image/jpeg"; "image/gif"; "image/webp"; "application/zip";
   "application/gzip"; "application/x-bzip2"; "application/zstd"; "video/"; "audio/"].

Definition MIN_COMPRESS_SIZE : nat := 256.

Inductive Encoding := Brotli | Zstd | Gzip.

#[export] Instance Encoding_eq_dec : EqDecision Encoding.
Proof. solve_decision. Defined.

Definition rank (e : Encoding) : Z :=
  match e with Brotli => 3 | Zstd => 2 | Gzip => 1 end.

Definition f32_one : f32 := binary_normalize f32_prec f32_emax 1 0 false.

(** The [q] parameter of a token: the last one wins, an invalid one is 0. *)
Definition q_of (params : list string) : f32 :=
  foldl (λ q param,
    match strip_prefix "q=" (trim param) with
    | Some raw_q => default f_zero (parse_f32 raw_q)
    | None => q
    end) f32_one params.

Definition encoding_of (name : string) : option Encoding :=
  if String.eqb name "br" then Some Brotli
  else if String.eqb name "zstd" then Some Zstd
  else if String.eqb name "gzip" then Some Gzip
  else if String.eqb name "*" then Some Brotli
  else None.

(** What one token of the header contributes: an encoding and its weight. *)
Definition token_offer (token : string) : option (Encoding * f32) :=
  match split ";" (trim token) with
  | [] => None
  | first :: params =>
      let encoding_name := to_lowercase (trim first) in
      if String.eqb encoding_name "" then None
      else
        let q := q_of params in
        if f_le q f_zero then None
        else (λ e, (e, q)) <$> encoding_of encoding_name
  end.

(** One turn of the loop over the tokens. *)
Definition better (best : option (Encoding * f32)) (offer : Encoding * f32)
    : option (Encoding * f32) :=
  let '(encoding, q) := offer in
  match best with
  | None => Some (encoding, q)
  | Some (current, current_q) =>
      if f_lt current_q q || (f_eq q current_q && (rank current <? rank encoding)%Z)
      then Some (encoding, q) else best
  end.

Definition consider (best : option (Encoding * f32)) (token : string) : option (Encoding * f32) :=
  match token_offer token with
  | Some offer => better best offer
  | None => best
  end.

Definition encoding_str (e : Encoding) : string :=
  match e with Brotli => "br" | Zstd => "zstd" | Gzip => "gzip" end.

Section compression.
Context `{Http}.

Definition negotiate_encoding (accept_encoding : option HeaderValue) : option Encoding :=
  match accept_encoding ≫= hv_to_str with
  | Some val => fst <$> foldl consider None (split "," val)
  | None => None
  end.

Definition should_skip_compression (headers : HeaderMap) : bool :=
  if contains_key CONTENT_ENCODING headers then true
  else match get_str CONTENT_TYPE headers with
       | Some ct => existsb (starts_with (to_lowercase ct)) SKIP_TYPES
       | None => false
       end.

(** Whether a [Vary] value already names accept-encoding. *)
Definition varies_on_encoding (vary : string) : bool :=
  existsb (λ token, eq_ignore_ascii_case (trim token) "accept-encoding") (split "," vary).

Definition ensure_vary_accept_encoding (headers : HeaderMap) : HeaderMap :=
  let already_varies := default false (varies_on_encoding <$> get_str VARY headers) in
  if already_varies then headers
  else match get_str VARY headers with
       | Some existing =>
           match hv_from_str (existing +:+ ", Accept-Encoding") with
           | Some updated => hm_insert VARY updated headers
           | None => headers
           end
       | None => hm_insert VARY (hv_from_static "Accept-Encoding") headers
       end.

(** [read_to_end] on the encoder of the body. *)
Variable compress : Encoding → string → option string.

Definition maybe_compress_response (accept_encoding : option HeaderValue) (resp : Response)
    : Response :=
  match negotiate_encoding accept_encoding with
  | None => resp
  | Some encoding =>
      if should_skip_compression (resp_headers resp) then resp
      else
        let with_body b h := {| status := status resp; resp_headers := h; resp_body := full_body b |} in
        match collect (resp_body resp) with
        | None => with_body "" (resp_headers resp)
        | Some body_bytes =>
            if Nat.ltb (String.length body_bytes) MIN_COMPRESS_SIZE
            then with_body body_bytes (resp_headers resp)
            else match compress encoding body_bytes with
                 | Some data =>
                     let h := hm_remove CONTENT_LENGTH (resp_headers resp) in
                     let h := hm_insert CONTENT_ENCODING (hv_from_static (encoding_str encoding)) h in
                     let h := ensure_vary_accept_encoding h in
                     with_body data h
                 | None => with_body body_bytes (resp_headers resp)
                 end
        end
  end.

End compression.

(** ** Lemmas *)

(** An offer is at least as good as another: higher weight, or the same weight
    and no lower rank. *)
Definition at_least (a b : Encoding * f32) : Prop :=
  f_le b.2 a.2 = true ∧ (f_le a.2 b.2 = true → (rank b.1 ≤ rank a.1)%Z).

Lemma at_least_refl a : is_nan a.2 = false → at_least a a.
Proof. intros. split; [by apply f_le_refl|lia]. Qed.

Lemma at_least_trans a b c : at_least a b → at_least b c → at_least a c.
Proof.
  intros [H1 H2] [H3 H4]. split; [by eapply f_le_trans|]. intros Hac.
  assert (f_le b.2 c.2 = true) by by eapply f_le_trans.
  assert (f_le a.2 b.2 = true) by by eapply f_le_trans.
  specialize (H2 ltac:(done)). specialize (H4 ltac:(done)). lia.
Qed.

(** One comparison keeps the better of the two offers. *)
Lemma better_spec cur offer :
  is_nan cur.2 = false → is_nan offer.2 = false →
  ∃ r, better (Some cur) offer = Some r ∧ (r = cur ∨ r = offer) ∧
       at_least r cur ∧ at_least r offer.
Proof.
  destruct cur as [c cq], offer as [e q]. simpl. intros Hc Ho.
  destruct (f_lt cq q) eqn:Hlt; simpl.
  { exists (e, q). split_and!; auto; [|by apply at_least_refl].
    split; simpl; [by apply f_lt_le|]. intros Hle%f_le_not_lt. congruence. }
  assert (f_le q cq = true) as Hle by by apply f_not_lt_le.
  destruct (f_eq q cq) eqn:Heq; simpl.
  - apply f_eq_le in Heq as [_ Hle']. destruct (rank c <? rank e)%Z eqn:Hr; bool_to_prop.
    + exists (e, q). split_and!; auto; [|by apply at_least_refl]. split; simpl; [done|lia].
    + exists (c, cq). split_and!; auto; [by apply at_least_refl|]. split; simpl; [done|lia].
  - exists (c, cq). split_and!; auto; [by apply at_least_refl|]. split; simpl; [done|].
    intros Hle'. exfalso. revert Heq Hle Hle'. unfold f_eq, f_le, SFeqb, SFleb.
    rewrite (SFcompare_antisym q cq). by destruct (SFcompare q cq) as [[]|].
Qed.

Definition offers (tokens : list string) : list (Encoding * f32) := filter_map token_offer tokens.

Lemma consider_offers tokens best :
  foldl consider best tokens = foldl better best (offers tokens).
Proof.
  revert best. unfold offers, filter_map, consider.
  induction tokens as [|t tokens IH]; intros best; simpl; [done|].
  destruct (token_offer t) eqn:E; simpl; by rewrite IH.
Qed.

Lemma better_max (l : list (Encoding * f32)) : ∀ cur : Encoding * f32,
  is_nan cur.2 = false → Forall (λ o : Encoding * f32, is_nan o.2 = false) l →
  ∃ r, foldl better (Some cur) l = Some r ∧ r ∈ cur :: l ∧ Forall (at_least r) (cur :: l) ∧
       is_nan r.2 = false.
Proof.
  induction l as [|o l IH]; intros cur Hc HF; cbn [foldl].
  { exists cur. split_and!; [done|set_solver| |done]. constructor; [by apply at_least_refl|constructor]. }
  apply Forall_cons in HF as [Ho HF].
  destruct (better_spec cur o Hc Ho) as (r & Hr & Hin & Hac & Hao). rewrite Hr.
  destruct (IH r) as (r' & Hr' & Hin' & HF' & Hn); [by destruct Hin as [->| ->]|done|].
  exists r'. apply Forall_cons in HF' as [Hrr HF']. split_and!; [done| | |done].
  - destruct Hin as [->| ->]; set_solver.
  - constructor; [by eapply at_least_trans|]. constructor; [by eapply at_least_trans|done].
Qed.

Section header_lemmas.
Context `{HO : HttpOk}.

Lemma get_str_insert_eq n v m : get_str n (hm_insert n v m) = hv_to_str v.
Proof. unfold get_str. by rewrite hm_get_insert_eq. Qed.

Lemma get_str_insert_ne n n' v m : n ≠ n' → get_str n' (hm_insert n v m) = get_str n' m.
Proof. intros. unfold get_str. by rewrite hm_get_insert_ne. Qed.

Lemma get_str_remove_ne n n' m : n ≠ n' → get_str n' (hm_remove n m) = get_str n' m.
Proof. intros. unfold get_str. by rewrite hm_get_remove_ne. Qed.

Lemma get_str_visible n m s : get_str n m = Some s → visible s = true.
Proof. unfold get_str. intros (v & _ & Hv)%bind_Some. by eapply hv_to_str_visible. Qed.

Lemma varies_on_encoding_app existing :
  varies_on_encoding (existing +:+ ", Accept-Encoding") = true.
Proof.
  unfold varies_on_encoding.
  change (", Accept-Encoding") with (String "," " Accept-Encoding").
  rewrite split_app, existsb_app. by rewrite orb_true_iff; right.
Qed.

(** Afterwards the response varies on accept-encoding. *)
Lemma ensure_vary_spec h :
  ∃ v, get_str VARY (ensure_vary_accept_encoding h) = Some v ∧ varies_on_encoding v = true.
Proof.
  unfold ensure_vary_accept_encoding. destruct (get_str VARY h) as [v|] eqn:Hv; simpl.
  - destruct (varies_on_encoding v) eqn:Hd; [by exists v|].
    assert (visible (v +:+ ", Accept-Encoding") = true) as Hvis.
    { rewrite visible_app. by rewrite (get_str_visible _ _ _ Hv). }
    destruct (hv_from_str_visible _ Hvis) as [u Hu]. rewrite Hu, get_str_insert_eq.
    exists (v +:+ ", Accept-Encoding"). split; [by apply hv_to_from_str|].
    apply varies_on_encoding_app.
  - rewrite get_str_insert_eq, hv_to_static by done. by eexists.
Qed.

Lemma ensure_vary_other h n :
  n ≠ VARY → get_all n (ensure_vary_accept_encoding h) = get_all n h.
Proof.
  intros Hn. unfold ensure_vary_accept_encoding.
  repeat case_match; try done; by apply get_all_insert_ne.
Qed.

End header_lemmas.

Lemma maybe_compress_status `{Http} compress ae resp :
  status (maybe_compress_response compress ae resp) = status resp.
Proof. unfold maybe_compress_response. by repeat case_match. Qed.

Lemma maybe_compress_collect `{Http} compress ae resp :
  is_Some (collect (resp_body resp)) →
  is_Some (collect (resp_body (maybe_compress_response compress ae resp))).
Proof.
  intros [b Hb]. unfold maybe_compress_response. rewrite Hb.
  repeat case_match; simpl; rewrite ?collect_full_body; eauto.
Qed.

(** A response whose payload and headers are kept. *)
Ltac pass_through :=
  simpl; split_and!; [done|intros; done|left; rewrite ?collect_full_body; done].

(** ** Properties *)

(** content negotiation picks the best acceptable encoding.  When no weight
    is NaN, the result is one of the encodings the header offers with a
    positive weight, no other offer has a higher weight, and among equal
    weights none is preferred; there is no result exactly when nothing usable
    is offered. *)
Theorem negotiation_is_optimal `{Http} v val :
  hv_to_str v = Some val →
  Forall (λ o, is_nan o.2 = false) (offers (split "," val)) →
  match negotiate_encoding (Some v) with
  | None => offers (split "," val) = []
  | Some e => ∃ q, (e, q) ∈ offers (split "," val) ∧ Forall (at_least (e, q)) (offers (split "," val))
  end.
Proof.
  intros Hv HF. unfold negotiate_encoding. simpl. rewrite Hv, consider_offers.
  destruct (offers (split "," val)) as [|o l] eqn:E; [done|].
  apply Forall_cons in HF as [Ho HF].
  assert (foldl better None (o :: l) = foldl better (Some o) l) as -> by by destruct o.
  destruct (better_max l o Ho HF) as ([e q] & -> & Hin & Hall & _). simpl. eauto.
Qed.

Lemma negotiation_is_optimal_witness :
  let val := "gzip;q=0.8, zstd;q=0.8, br;q=0.5" in
  ∃ q, (Zstd, q) ∈ offers (split "," val) ∧ Forall (at_least (Zstd, q)) (offers (split "," val)).
Proof.
  intros val.
  exact (negotiation_is_optimal (H:=list_http) val val eq_refl ltac:(vm_compute; repeat constructor)).
Defined.

(** compression is transparent to the client.  For a body that arrives
    whole, the status is unchanged and the payload, decoded as the response's
    own Content-Encoding says when the proxy added one, is the upstream's; a
    compressed response carries no Content-Length and varies on
    Accept-Encoding, and an already encoded one passes untouched. *)
Theorem compression_transparent `{HO : HttpOk} compress decode ae resp b :
  (∀ e x y, compress e x = Some y → decode e y = x) →
  collect (resp_body resp) = Some b →
  let r := maybe_compress_response compress ae resp in
  status r = status resp ∧
  (contains_key CONTENT_ENCODING (resp_headers resp) = true → r = resp) ∧
  ((collect (resp_body r) = Some b ∧ resp_headers r = resp_headers resp) ∨
   ∃ e data v, negotiate_encoding ae = Some e ∧ collect (resp_body r) = Some data ∧
     decode e data = b ∧
     get_str CONTENT_ENCODING (resp_headers r) = Some (encoding_str e) ∧
     contains_key CONTENT_LENGTH (resp_headers r) = false ∧
     get_str VARY (resp_headers r) = Some v ∧ varies_on_encoding v = true).
Proof.
  intros Hdec Hb r. unfold r, maybe_compress_response. clear r.
  destruct (negotiate_encoding ae) as [e|] eqn:Hn; [|pass_through].
  unfold should_skip_compression.
  destruct (contains_key CONTENT_ENCODING (resp_headers resp)) eqn:Hce; [pass_through|].
  match goal with |- context [if ?c then resp else _] => destruct c end; [pass_through|].
  rewrite Hb. destruct (Nat.ltb _ _); [pass_through|].
  destruct (compress e b) as [data|] eqn:Hc; [|pass_through].
  simpl. split_and!; [done|done|]. right.
  set (h1 := hm_insert CONTENT_ENCODING _ _).
  destruct (ensure_vary_spec h1) as (v & Hv & Hva).
  exists e, data, v. rewrite collect_full_body. split_and!; eauto.
  - unfold get_str, hm_get. rewrite ensure_vary_other by done. unfold h1.
    rewrite get_all_insert_eq. simpl. apply hv_to_static. by destruct e.
  - unfold contains_key. rewrite ensure_vary_other by done. unfold h1.
    rewrite get_all_insert_ne, get_all_remove_eq by done. done.
Qed.

Lemma compression_transparent_witness :
  let resp : @Response list_http :=
    {| status := 200%Z; resp_headers := [("content-length", "2")]; resp_body := [Data "ok"] |} in
  status (maybe_compress_response (H:=list_http) (λ _ x, Some x) (Some "gzip") resp) = 200%Z.
Proof.
  intros resp.
  apply (compression_transparent (H:=list_http) (λ _ x, Some x) (λ _ y, y) (Some "gzip") resp "ok"); [|reflexivity].
  intros e x y [= ->]. reflexivity.
Defined.

(** a [*] token stands for brotli even when the client refused it: with
    [br;q=0, *] the response is compressed with brotli. *)
Theorem star_overrides_refused_brotli :
  negotiate_encoding (H:=list_http) (Some "br;q=0, *") = Some Brotli ∧
  negotiate_encoding (H:=list_http) (Some "br;q=0, gzip") = Some Gzip.
Proof. vm_compute. done. Qed.

(** an upstream body that breaks off is turned into a complete, empty
    response with the upstream's status, for every client that accepts a
    known encoding. *)
Theorem broken_body_becomes_empty `{Http} compress ae resp e :
  negotiate_encoding ae = Some e → should_skip_compression (resp_headers resp) = false →
  collect (resp_body resp) = None →
  maybe_compress_response compress ae resp =
    {| status := status resp; resp_headers := resp_headers resp; resp_body := [] |}.
Proof. intros Hn Hs Hc. unfold maybe_compress_response. by rewrite Hn, Hs, Hc. Qed.

Lemma broken_body_becomes_empty_witness :
  let resp : @Response list_http :=
    {| status := 200%Z; resp_headers := [("content-length", "9")]; resp_body := [Data "half"; ReadError] |} in
  maybe_compress_response (H:=list_http) (λ _ x, Some x) (Some "gzip") resp =
    {| status := 200%Z; resp_headers := [("content-length", "9")]; resp_body := [] |}.
Proof.
  intros resp. exact (broken_body_becomes_empty (H:=list_http) (λ _ x, Some x) (Some "gzip") resp Gzip
    eq_refl eq_refl eq_refl).
Defined.
