(* ===== verification/Runtime.v ===== *)
(** * Probe and reliability state

    Model of [proxy-core/src/runtime.rs]: the readiness snapshot behind the
    probe endpoints and the reliability snapshot derived from the in-flight
    counter. *)

From S2P Require Import Prelude.

Local Open Scope string_scope.
Local Open Scope list_scope.

Record ProbeSnapshot := {
  ready : bool;
  draining : bool;
  reason : option string;
}.

(** [ProbeState::new], the default snapshot. *)
Definition probe_new : ProbeSnapshot :=
  {| ready := false; draining := false; reason := Some "starting" |}.

Definition mark_ready (s : ProbeSnapshot) : ProbeSnapshot :=
  {| ready := true; draining := false; reason := None |}.

Definition mark_not_ready (s : ProbeSnapshot) (r : string) : ProbeSnapshot :=
  {| ready := false; draining := false; reason := Some r |}.

Definition mark_draining (s : ProbeSnapshot) (r : string) : ProbeSnapshot :=
  {| ready := false; draining := true; reason := Some r |}.

Record RuntimeReliabilitySnapshot := {
  snap_inflight_requests : Z;
  snap_max_inflight_requests : option Z;
  snap_brownout_active : bool;
  snap_brownout_threshold : option Z;
  snap_draining : bool;
}.

Definition reliability_snapshot (inflight : Z) (max_inflight brownout : option Z)
    (probe : ProbeSnapshot) : RuntimeReliabilitySnapshot := {|
  snap_inflight_requests := inflight;
  snap_max_inflight_requests := max_inflight;
  snap_brownout_active := match brownout with Some limit => (limit <=? inflight)%Z | None => false end;
  snap_brownout_threshold := brownout;
  snap_draining := draining probe;
|}.

Inductive probe_op :=
| PMarkReady
| PMarkNotReady (r : string)
| PMarkDraining (r : string).

Definition probe_apply (s : ProbeSnapshot) (o : probe_op) : ProbeSnapshot :=
  match o with
  | PMarkReady => mark_ready s
  | PMarkNotReady r => mark_not_ready s r
  | PMarkDraining r => mark_draining s r
  end.

(** A ready process is not draining, and it is ready exactly when it reports no
    reason. *)
Definition probe_wf (s : ProbeSnapshot) : Prop :=
  (ready s = true → draining s = false) ∧ (ready s = true ↔ reason s = None).

Lemma probe_run_wf os : probe_wf (foldl probe_apply probe_new os).
Proof.
  induction os as [|o os IH] using rev_ind; [done|]. rewrite foldl_snoc. by destruct o.
Qed.

#[export] Hint Resolve probe_run_wf : trp.
