(* ===== verification/Plugin.v ===== *)
(** * Plugins

    Model of [proxy-core/src/plugin.rs]: the request context, the hooks and
    their chain, the registry and the retry budget shared by the clones of a
    request's context.  A plugin is a record of hooks over its own private
    state, which the chain threads through; the budget is an atomic counter,
    modelled both as the function one caller computes and as the steps that
    concurrent callers interleave. *)

From S2P Require Import Prelude RustStr Net Http Toml Auth.

Local Open Scope string_scope.
Local Open Scope list_scope.

(** ** Request context *)

(** Types that plugins and the connection layer bring along: what a connection
    carries, the state of the plugins, and the values of their own types that
    they keep in the extensions of a request. *)
Class PluginTypes := {
  ConnExtensions : Type;
  PluginState : Type;
  PluginExt : Type;
  plugin_ext_new : PluginExt;
}.

Record BrownoutMode := {
  disable_prompt_cache : bool;
  disable_semantic_cache : bool;
  disable_semantic_safety : bool;
  disable_managed_tools : bool;
}.

Definition brownout_active (b : BrownoutMode) : bool :=
  disable_prompt_cache b || disable_semantic_cache b
  || disable_semantic_safety b || disable_managed_tools b.

(** ** The retry budget *)

(** One caller's view: the counter before, the counter after, the answer. *)
Definition try_consume_attempt (remaining : Z) : Z * bool :=
  if (remaining =? 0)%Z then (remaining, false) else ((remaining - 1)%Z, true).

(** A caller inside the compare-and-swap loop. *)
Inductive caller :=
| Start
| Looping (current : Z)
| Returned (got : bool).

(** One atomic action of one caller on the shared counter. *)
Inductive caller_step : Z → caller → Z → caller → Prop :=
| step_load mem : caller_step mem Start mem (Looping mem)
| step_exhausted mem : caller_step mem (Looping 0) mem (Returned false)
| step_cas_ok mem : mem ≠ 0%Z → caller_step mem (Looping mem) (mem - 1)%Z (Returned true)
| step_cas_fail mem current : current ≠ 0%Z → caller_step mem (Looping current) mem (Looping mem).

(** Any caller may take the next step. *)
Inductive budget_step : Z * list caller → Z * list caller → Prop :=
| budget_step_at mem mem' cs i c c' :
    cs !! i = Some c → caller_step mem c mem' c' → budget_step (mem, cs) (mem', <[i := c']> cs).

Definition granted (c : caller) : bool :=
  match c with Returned true => true | _ => false end.

Definition refused (c : caller) : bool :=
  match c with Returned false => true | _ => false end.

Definition grants (cs : list caller) : nat := length (filter (λ c, granted c = true) cs).

Inductive ProxyError :=
| Timeout
| ConnectError (e : string)
| UpstreamError (e : string)
| ServerError (s : StatusCode)
| UpstreamStatus (s : StatusCode).

Section plugins.
Context `{Http} `{PluginTypes}.

Record ProviderCandidate := {
  pc_upstream : string;
  pc_headers : HeaderMap;
}.

(** The typed extension map: the types the data plane reads and writes, and
    those of the plugins. *)
Record Extensions := {
  ext_retry_budget : option Z;
  ext_brownout : option BrownoutMode;
  ext_candidates : option (list ProviderCandidate);
  ext_timeout : option Duration;
  ext_plugins : PluginExt;
}.

Definition ext_new : Extensions :=
  {| ext_retry_budget := None; ext_brownout := None; ext_candidates := None; ext_timeout := None;
     ext_plugins := plugin_ext_new |}.

Record RequestContext := {
  ctx_peer_addr : option SocketAddr;
  ctx_method : Method;
  ctx_uri : Uri;
  ctx_version : Version;
  ctx_headers : HeaderMap;
  ctx_body : option string;
  ctx_route : option string;
  ctx_selected_upstream : option string;
  ctx_auth : option AuthContext;
  ctx_connection : ConnExtensions;
  ctx_extensions : Extensions;
}.

Record ResponseContext := {
  rc_status : StatusCode;
  rc_headers : HeaderMap;
  rc_upstream : string;
  rc_duration : Duration;
}.

Inductive Action :=
| Continue
| Respond (r : Response).

(** A plugin, by its request-level hooks. *)
Record Plugin := {
  name : string;
  on_request : PluginState → RequestContext → PluginState * RequestContext * Action;
  on_upstream_select :
    PluginState → RequestContext → list string → PluginState * RequestContext * list string * Action;
  on_response :
    PluginState → RequestContext → ResponseContext →
    PluginState * RequestContext * ResponseContext * Action;
  transform_response :
    PluginState → RequestContext → Response → PluginState * RequestContext * Response;
  on_error : PluginState → RequestContext → ProxyError → PluginState * RequestContext * Action;
  wrap_response_body : PluginState → RequestContext → ResponseContext → Body → Body;
}.

(** The default hooks: every one passes. *)
Definition default_plugin (n : string) : Plugin := {|
  name := n;
  on_request ps ctx := (ps, ctx, Continue);
  on_upstream_select ps ctx servers := (ps, ctx, servers, Continue);
  on_response ps ctx rc := (ps, ctx, rc, Continue);
  transform_response ps ctx r := (ps, ctx, r);
  on_error ps ctx e := (ps, ctx, Continue);
  wrap_response_body ps ctx rc b := b;
|}.

Definition PluginChain := list Plugin.

(** The loop every short-circuiting hook runs: in registration order, until a
    plugin responds.  [S] is what the hook may change. *)
Fixpoint run_chain {S} (hook : Plugin → S → S * Action) (ps : PluginChain) (s : S) : S * Action :=
  match ps with
  | [] => (s, Continue)
  | p :: ps' =>
      let '(s, a) := hook p s in
      match a with
      | Continue => run_chain hook ps' s
      | Respond r => (s, Respond r)
      end
  end.

Definition run_on_request (ps : PluginChain) : PluginState * RequestContext →
    (PluginState * RequestContext) * Action :=
  run_chain (λ p s, on_request p s.1 s.2) ps.

Definition run_on_upstream_select (ps : PluginChain) : PluginState * RequestContext * list string →
    (PluginState * RequestContext * list string) * Action :=
  run_chain (λ p s, on_upstream_select p s.1.1 s.1.2 s.2) ps.

Definition run_on_response (ps : PluginChain) : PluginState * RequestContext * ResponseContext →
    (PluginState * RequestContext * ResponseContext) * Action :=
  run_chain (λ p s, on_response p s.1.1 s.1.2 s.2) ps.

Definition run_on_error (ps : PluginChain) (e : ProxyError) : PluginState * RequestContext →
    (PluginState * RequestContext) * Action :=
  run_chain (λ p s, on_error p s.1 s.2 e) ps.

Definition run_transform_response (ps : PluginChain) (st : PluginState) (ctx : RequestContext)
    (resp : Response) : PluginState * RequestContext * Response :=
  foldl (λ s p, transform_response p s.1.1 s.1.2 s.2) (st, ctx, resp) ps.

Definition run_wrap_response_body (ps : PluginChain) (st : PluginState) (ctx : RequestContext)
    (resp : ResponseContext) (body : Body) : Body :=
  foldl (λ b p, wrap_response_body p st ctx resp b) body ps.

(** ** The registry *)

Section registry.
Context {Value E : Type}.

Definition PluginFactory := Value → result E Plugin.

Definition PluginRegistry := list (string * PluginFactory).

Definition registry_new : PluginRegistry := [].

Definition register (r : PluginRegistry) (n : string) (f : PluginFactory) : PluginRegistry :=
  r ++ [(n, f)].

(** [unknown n] is the error for a name nobody registered. *)
Fixpoint create (unknown : string → E) (r : PluginRegistry) (n : string) (config : Value)
    : result E Plugin :=
  match r with
  | [] => Err (unknown n)
  | (n', factory) :: r' =>
      if String.eqb n' n then factory config else create unknown r' n config
  end.

End registry.

End plugins.

(** ** Lemmas *)

Lemma grants_insert cs i c c' :
  cs !! i = Some c →
  grants (<[i := c']> cs) + (if granted c then 1 else 0) = grants cs + (if granted c' then 1 else 0).
Proof.
  unfold grants. revert i. induction cs as [|x cs IH]; intros [|i] Hi; simpl in *; try done.
  - injection Hi as ->. rewrite !filter_cons. destruct (granted c) eqn:E1, (granted c') eqn:E2;
      repeat case_decide; try done; simpl; lia.
  - specialize (IH i Hi). rewrite !filter_cons. destruct (granted x) eqn:E; case_decide; try done; simpl; lia.
Qed.

(** The counter and the grants add up; a refusal happens only at zero; what a
    caller remembers is at least the counter. *)
Definition budget_inv (n : Z) (s : Z * list caller) : Prop :=
  (s.1 + Z.of_nat (grants s.2) = n)%Z ∧ (0 ≤ s.1)%Z ∧
  Forall (λ c, match c with
               | Returned false => s.1 = 0%Z
               | Looping cur => (s.1 ≤ cur)%Z
               | _ => True
               end) s.2.

Lemma budget_inv_step n s s' : budget_inv n s → budget_step s s' → budget_inv n s'.
Proof.
  intros (Hsum & Hnn & HF) Hstep. destruct Hstep as [mem mem' cs i c c' Hi Hc].
  unfold budget_inv in *. simpl in *.
  pose proof (grants_insert cs i c c' Hi) as Hg.
  assert (Hle : (mem' ≤ mem)%Z) by (destruct Hc; lia).
  pose proof (Forall_lookup_1 _ _ _ _ HF Hi) as Hci.
  split_and!.
  - destruct Hc; simpl in *; lia.
  - destruct Hc; simpl in *; lia.
  - apply Forall_insert.
    + eapply Forall_impl; [exact HF|]. intros x. destruct x as [|cur|[]]; try done; [lia|].
      intros Hm0. destruct Hc; lia.
    + destruct Hc; simpl in *; try done; lia.
Qed.

Lemma budget_inv_run n s s' : budget_inv n s → rtc budget_step s s' → budget_inv n s'.
Proof. intros Hi Hr. induction Hr; eauto using budget_inv_step. Qed.

Lemma budget_inv_start n k : (0 ≤ n)%Z → budget_inv n (n, replicate k Start).
Proof.
  intros Hn. unfold budget_inv. simpl. split_and!; [|done|by apply Forall_replicate].
  assert (grants (replicate k Start) = 0%nat) as ->; [|simpl; lia].
  unfold grants. induction k as [|k IH]; [done|]. simpl. rewrite filter_cons.
  by case_decide.
Qed.

Lemma run_chain_continue `{Http} `{PluginTypes} {S} (hook : Plugin → S → S * Action) ps s s' :
  run_chain hook ps s = (s', Continue) →
  s' = foldl (λ s p, (hook p s).1) s ps.
Proof.
  revert s. induction ps as [|p ps IH]; intros s; simpl; [naive_solver|].
  destruct (hook p s) as [s1 []]; [|done]. apply IH.
Qed.

(** A finished caller got an answer. *)
Definition returned (c : caller) : bool := granted c || refused c.

Lemma grants_all_returned cs :
  forallb returned cs = true → existsb refused cs = false → grants cs = length cs.
Proof.
  unfold grants. induction cs as [|c cs IH]; simpl; [done|].
  intros [Hc Hcs]%andb_true_iff [Hr Hrs]%orb_false_iff. rewrite filter_cons.
  destruct c as [| |[]]; try done. rewrite decide_True by done. simpl. by rewrite IH.
Qed.

Lemma grants_le_length cs : (grants cs ≤ length cs)%nat.
Proof. unfold grants. apply length_filter. Qed.

(** ** Properties *)

(** the retry budget is exact under concurrency.  Whatever the interleaving
    of the compare-and-swap loops of [k] callers, spurious failures included,
    no more attempts are granted than the budget holds, the counter is always
    what is left, a caller is refused only when nothing is left, and once
    every caller has its answer exactly the smaller of [k] and the budget got
    one. *)
Theorem retry_budget_exact n k mem cs :
  (0 ≤ n)%Z → rtc budget_step (n, replicate k Start) (mem, cs) →
  mem = (n - Z.of_nat (grants cs))%Z ∧ (0 ≤ mem)%Z ∧
  (∀ c, c ∈ cs → refused c = true → mem = 0%Z) ∧
  (forallb returned cs = true → Z.of_nat (grants cs) = Z.min (Z.of_nat k) n).
Proof.
  intros Hn Hrun.
  pose proof (budget_inv_run _ _ _ (budget_inv_start n k Hn) Hrun) as (Hsum & Hnn & HF).
  assert (length cs = k) as Hlen.
  { remember (n, replicate k Start) as s0. remember (mem, cs) as s1.
    assert (length s1.2 = length s0.2) as Hl; [|subst; simpl in Hl; by rewrite Hl, length_replicate].
    clear -Hrun. induction Hrun as [|s s' s'' Hs _ IH]; [done|]. rewrite IH.
    destruct Hs. simpl. by rewrite length_insert. }
  simpl in *. assert (∀ c, c ∈ cs → refused c = true → mem = 0%Z) as Href.
  { intros c Hc Hr. rewrite Forall_forall in HF. specialize (HF _ Hc). by destruct c as [| |[]]. }
  split_and!; [lia|done|done|]. intros Hall. pose proof (grants_le_length cs).
  destruct (existsb refused cs) eqn:E.
  - apply existsb_exists in E as (c & Hc%list_elem_of_In & Hr). specialize (Href c Hc Hr). lia.
  - pose proof (grants_all_returned cs Hall E). lia.
Qed.

Lemma retry_budget_exact_witness :
  let s1 := (1%Z, [Looping 1; Start]) in
  ∃ mem cs, rtc budget_step (1%Z, replicate 2 Start) (mem, cs) ∧ forallb returned cs = true ∧
    Z.of_nat (grants cs) = Z.min (Z.of_nat 2) 1.
Proof.
  intros s1.
  assert (rtc budget_step (1%Z, replicate 2 Start) (0%Z, [Returned true; Returned false])) as Hrun.
  { eapply rtc_l; [apply (budget_step_at 1 1 _ 0 Start (Looping 1)); [reflexivity|constructor]|]. cbn.
    eapply rtc_l; [apply (budget_step_at 1 1 _ 1 Start (Looping 1)); [reflexivity|constructor]|]. cbn.
    eapply rtc_l; [apply (budget_step_at 1 0 _ 0 (Looping 1) (Returned true));
      [reflexivity|apply (step_cas_ok 1); lia]|]. cbn.
    eapply rtc_l; [apply (budget_step_at 0 0 _ 1 (Looping 1) (Looping 0));
      [reflexivity|apply step_cas_fail; lia]|]. cbn.
    eapply rtc_l; [apply (budget_step_at 0 0 _ 1 (Looping 0) (Returned false));
      [reflexivity|apply step_exhausted]|]. cbn. apply rtc_refl. }
  exists 0%Z, [Returned true; Returned false]. split; [exact Hrun|]. split; [reflexivity|].
  apply (retry_budget_exact 1 2 0 [Returned true; Returned false] ltac:(lia) Hrun). reflexivity.
Defined.

(** a chain runs its plugins in registration order and stops at the first
    that responds: the plugins before it have all run and continued, and the
    ones after it never run. *)
Theorem chain_stops_at_first_response `{Http} `{PluginTypes} {S} (hook : Plugin → S → S * Action)
    ps s s' r :
  run_chain hook ps s = (s', Respond r) ↔
  ∃ before p after s1,
    ps = before ++ p :: after ∧ run_chain hook before s = (s1, Continue) ∧
    hook p s1 = (s', Respond r).
Proof.
  revert s. induction ps as [|q ps IH]; intros s; simpl.
  - split; [done|]. intros (before & ? & ? & ? & Heq & _). by destruct before.
  - destruct (hook q s) as [s2 [|r2]] eqn:Hq.
    + rewrite IH. split.
      * intros (before & p & after & s1 & -> & Hb & Hp).
        exists (q :: before), p, after, s1. simpl. by rewrite Hq.
      * intros ([|q' before] & p' & after & s1 & Heq & Hb & Hp); injection Heq as <- ->; simpl in *.
        { injection Hb as <-. congruence. }
        rewrite Hq in Hb. eauto 8.
    + split.
      * intros [= <- <-]. exists [], q, ps, s. done.
      * intros ([|q' before] & p' & after & s1 & Heq & Hb & Hp); injection Heq as <- ->; simpl in *.
        { injection Hb as <-. congruence. }
        by rewrite Hq in Hb.
Qed.
