(* ===== verification/Middleware.v ===== *)
(** * Middleware

    Model of [proxy-core/src/middleware.rs] (and the Alt-Svc helper of
    [http3.rs]): the checks the request handler runs before it talks to an
    upstream.  A check that rejects returns the response; the metrics are
    threaded as an optional registry. *)

From S2P Require Import Prelude RustStr F64 Net Http Metrics RateLimit CircuitBreaker Cache Compression.

Local Open Scope string_scope.
Local Open Scope list_scope.

Section middleware.
Context `{Http} `{Lru}.

Definition error_response (st : StatusCode) (msg : string) : Response :=
  {| status := st; resp_headers := hm_new; resp_body := full_body msg |}.

(** The line feed that ends the fixed messages. *)
Definition nl : string := String (Ascii.ascii_of_nat 10) "".

Definition TOO_MANY_REQUESTS : StatusCode := 429%Z.
Definition PAYLOAD_TOO_LARGE : StatusCode := 413%Z.

(** Increments [requests_total] for a status without observing a duration. *)
Definition count_request (st method : string) (m : Metrics) : Metrics := {|
  requests_total := inc_label (st, method) (requests_total m);
  request_duration_seconds := request_duration_seconds m;
  active_connections := active_connections m;
  upstream_healthy := upstream_healthy m;
  retry_attempts_total := retry_attempts_total m;
  retry_exhaustions_total := retry_exhaustions_total m;
  admission_rejections_total := admission_rejections_total m;
  brownout_active_gauge := brownout_active_gauge m;
  brownout_activations_total := brownout_activations_total m;
|}.

Definition check_rate_limit (limiter : RateLimiter) (peer_addr : option SocketAddr)
    (metrics : option Metrics) (method : Method) (clk : Clock)
    : RateLimiter * option Metrics * option Response :=
  match peer_addr with
  | None => (limiter, metrics, None)
  | Some addr =>
      let '(limiter, ok) := limiter_check limiter (ip addr) clk in
      if (ok : bool) then (limiter, metrics, None)
      else (limiter, count_request "429" method <$> metrics,
            Some (error_response TOO_MANY_REQUESTS ("429 Too Many Requests" +:+ nl)))
  end.

Definition check_body_limit (headers : HeaderMap) (max_bytes : Z) : option Response :=
  match hm_get CONTENT_LENGTH headers with
  | None => None
  | Some cl =>
      match parse_uint u64_max (default "0" (hv_to_str cl)) with
      | None => None
      | Some size =>
          if (max_bytes <? size)%Z
          then Some (error_response PAYLOAD_TOO_LARGE ("413 Payload Too Large" +:+ nl))
          else None
      end
  end.

Definition via_header_value (version : Version) : HeaderValue :=
  match version with
  | HTTP_2 => hv_from_static "2.0 tiny-reverse-proxy"
  | _ => hv_from_static "1.1 tiny-reverse-proxy"
  end.

Definition check_cache (rc : ResponseCache) (method : Method) (path : string) (headers : HeaderMap)
    (version : Version) (clk : Clock) : ResponseCache * option Response :=
  if negb (is_cacheable_request method headers) then (rc, None)
  else
    let '(rc, r) := get_for_request rc method path headers clk in
    match r with
    | None => (rc, None)
    | Some (st, h, b) =>
        let h := hm_insert "x-cache" (hv_from_static "HIT") h in
        let h := hm_append "via" (via_header_value version) h in
        (rc, Some {| status := st; resp_headers := h; resp_body := full_body b |})
    end.

(** Every candidate is asked, in order, so the breaker's state is threaded. *)
Definition filter_by_circuit_breaker (cb : CircuitBreaker) (clk : Clock) (servers : list string)
    : CircuitBreaker * list string :=
  filter_st (λ cb s, is_allowed cb s clk) cb servers.

Definition record_metrics (metrics : Metrics) (method : Method) (st : string)
    (start now : Instant) : Metrics :=
  record_request method st (as_secs_f64 (duration_since now start)) metrics.

Definition add_alt_svc_header (headers : HeaderMap) (port : Z) : HeaderMap :=
  let q := String (Ascii.ascii_of_nat 34) "" in
  match hv_from_str ("h3=" +:+ q +:+ ":" +:+ pretty port +:+ q +:+ "; ma=86400") with
  | Some v => hm_insert "alt-svc" v headers
  | None => headers
  end.

Definition add_alt_svc (headers : HeaderMap) (h3_port : option Z) : HeaderMap :=
  match h3_port with
  | Some port => add_alt_svc_header headers port
  | None => headers
  end.

End middleware.

(** ** Lemmas *)

Lemma filter_cb_state cb clk servers :
  (filter_by_circuit_breaker cb clk servers).1 =
  run_ops cb ((λ s, OpIsAllowed s clk) <$> servers).
Proof.
  unfold filter_by_circuit_breaker, run_ops. revert cb.
  induction servers as [|s servers IH]; intros cb; [done|].
  cbn [filter_st fmap list_fmap foldl]. rewrite <- IH. simpl.
  destruct (is_allowed cb s clk) as [cb1 ok]. simpl. by destruct (filter_st _ cb1 servers).
Qed.

Lemma filter_cb_app cb clk l1 l2 :
  (filter_by_circuit_breaker cb clk (l1 ++ l2)).2 =
  (filter_by_circuit_breaker cb clk l1).2 ++
  (filter_by_circuit_breaker (filter_by_circuit_breaker cb clk l1).1 clk l2).2.
Proof.
  unfold filter_by_circuit_breaker. revert cb.
  induction l1 as [|s l1 IH]; intros cb; [done|]. simpl.
  destruct (is_allowed cb s clk) as [cb1 ok]. specialize (IH cb1).
  destruct (filter_st _ cb1 (l1 ++ l2)) as [x r]. destruct (filter_st _ cb1 l1) as [y r1].
  simpl in *. subst r. by destruct ok.
Qed.

Lemma filter_cb_subset cb clk servers u :
  u ∈ (filter_by_circuit_breaker cb clk servers).2 → u ∈ servers.
Proof.
  intros Hu. eapply elem_of_sublist; [exact Hu|]. apply filter_st_snd_sublist.
Qed.

(** A server that is asked for the first time gets the breaker's answer. *)
Lemma is_allowed_other_ops cb clk l u :
  u ∉ l → (is_allowed (run_ops cb ((λ s, OpIsAllowed s clk) <$> l)) u clk).2 = (is_allowed cb u clk).2.
Proof.
  intros Hu. assert (Forall (λ o, op_upstream o ≠ u) ((λ s, OpIsAllowed s clk) <$> l)) as HF.
  { apply Forall_fmap, Forall_forall. intros s Hs. simpl. by intros ->. }
  pose proof (run_ops_other cb _ u HF) as Hl. unfold is_allowed, entry_or_insert. rewrite Hl.
  rewrite run_ops_cooldown. by destruct (entry_is_allowed _ _ _).
Qed.

Lemma filter_cb_cons cb clk u l :
  (filter_by_circuit_breaker cb clk (u :: l)).2 =
  (if (is_allowed cb u clk).2 then [u] else []) ++
  (filter_by_circuit_breaker (is_allowed cb u clk).1 clk l).2.
Proof.
  unfold filter_by_circuit_breaker. simpl. destruct (is_allowed cb u clk) as [cb1 ok]. simpl.
  destruct (filter_st _ cb1 l). by destruct ok.
Qed.

(** A probing circuit refuses, wherever the server stands in the list. *)
Lemma filter_cb_probing cb clk l u e :
  circuits cb !! u = Some e → state e = HalfOpen → probe_in_flight e = true →
  u ∉ (filter_by_circuit_breaker cb clk l).2.
Proof.
  intros He Hs Hp. revert cb He. induction l as [|x l IH]; intros cb He; [set_solver|].
  rewrite filter_cb_cons, not_elem_of_app. split.
  - destruct (decide (x = u)) as [->|]; [|case_match; set_solver].
    by erewrite is_allowed_probing by done; simpl; set_solver.
  - apply IH. pose proof (probing_stable cb [OpIsAllowed x clk] u e He Hs Hp) as Hst.
    apply Hst. by repeat constructor.
Qed.

(** ** Properties *)

(** with distinct servers, the breaker filter keeps exactly the servers the
    breaker admits, in their order. *)
Theorem breaker_filter_keeps_admitted cb clk servers :
  NoDup servers →
  (filter_by_circuit_breaker cb clk servers).2 =
  filter (λ u, (is_allowed cb u clk).2 = true) servers.
Proof.
  intros Hnd. induction servers as [|u l IH] using rev_ind; [done|].
  apply NoDup_app in Hnd as (Hl & Hu & _).
  rewrite filter_cb_app, IH by done. rewrite filter_app. f_equal.
  rewrite filter_cb_state, filter_cb_cons. simpl. rewrite app_nil_r.
  rewrite is_allowed_other_ops by set_solver.
  rewrite filter_cons. simpl. by destruct (is_allowed cb u clk).2.
Qed.

Lemma breaker_filter_keeps_admitted_witness :
  let cb := record_failure (new 1 10 60) "a" (λ _, 0%Z) in
  (filter_by_circuit_breaker cb (λ _, from_secs 1) ["a"; "b"]).2 = ["b"].
Proof.
  intros cb. rewrite (breaker_filter_keeps_admitted cb (λ _, from_secs 1) ["a"; "b"]).
  - vm_compute. reflexivity.
  - decide_closed.
Defined.

(** filtering takes the single half-open probe of every server it looks at,
    the ones that will not be picked included: a server whose circuit has
    cooled down is offered once, and as long as no outcome is recorded for it
    (it was not picked, or its request timed out) it is never offered again,
    however much time passes. *)
Theorem filter_strands_unselected_probe cb clk servers u e os clk' servers' :
  circuits cb !! u = Some e → state e = Open →
  (cooldown cb ≤ duration_since (clk 1%nat) (last_state_change e))%Z →
  u ∈ servers → Forall (not_outcome u) os →
  let cb1 := (filter_by_circuit_breaker cb clk servers).1 in
  u ∈ (filter_by_circuit_breaker cb clk servers).2 ∧
  u ∉ (filter_by_circuit_breaker (run_ops cb1 os) clk' servers').2.
Proof.
  intros He Hs Hcool Hin Hos cb1.
  apply list_elem_of_split_l in Hin as (l1 & l2 & -> & Hnot).
  assert (is_allowed cb u clk = (set_entry cb u {| state := HalfOpen; failure_count := failure_count e;
    last_failure := last_failure e; last_state_change := clk 2%nat; probe_in_flight := true |}, true)) as Hall.
  { unfold is_allowed, entry_or_insert. rewrite He. simpl. unfold entry_is_allowed.
    rewrite Hs, (proj2 (Z.leb_le _ _)) by done. done. }
  set (ops1 := (λ s, OpIsAllowed s clk) <$> l1).
  assert (circuits (run_ops cb ops1) !! u = Some e) as He1.
  { rewrite run_ops_other; [done|]. apply Forall_fmap, Forall_forall. intros s Hs'. simpl. by intros ->. }
  assert ((is_allowed (run_ops cb ops1) u clk).2 = true) as Hall1.
  { unfold ops1. by rewrite is_allowed_other_ops, Hall. }
  split.
  - rewrite filter_cb_app, filter_cb_state, filter_cb_cons. fold ops1. rewrite Hall1. set_solver.
  - destruct (is_allowed_opens_probe (run_ops cb ops1) u clk) as (e' & He' & Hh & Hp); [|done|].
    { unfold state_of. by rewrite He1. }
    eapply filter_cb_probing; [|exact Hh|exact Hp]. apply probing_stable; [|done|done|done].
    subst cb1. rewrite filter_cb_state, fmap_app. unfold run_ops. rewrite foldl_app.
    cbn [fmap list_fmap foldl]. fold (run_ops cb ops1).
    change (circuits (run_ops (is_allowed (run_ops cb ops1) u clk).1 ((λ s, OpIsAllowed s clk) <$> l2)) !! u
            = Some e').
    apply probing_stable; [done|done|done|]. apply Forall_fmap, Forall_true. done.
Qed.

Lemma filter_strands_unselected_probe_witness :
  let cb := record_failure (record_failure (new 1 10 60) "a" (λ _, 0%Z)) "b" (λ _, 0%Z) in
  let later := λ _ : nat, from_secs 11 in
  let cb1 := (filter_by_circuit_breaker cb later ["a"; "b"]).1 in
  let cb2 := run_ops cb1 [OpSuccess "a" later] in
  "b" ∈ (filter_by_circuit_breaker cb later ["a"; "b"]).2 ∧
  "b" ∉ (filter_by_circuit_breaker cb2 (λ _, from_secs 100000) ["a"; "b"]).2.
Proof.
  intros cb later cb1 cb2.
  apply (filter_strands_unselected_probe cb later ["a"; "b"] "b"
           {| state := Open; failure_count := 1; last_failure := Some 0%Z;
              last_state_change := 0%Z; probe_in_flight := false |}
           [OpSuccess "a" later] (λ _, from_secs 100000) ["a"; "b"]).
  - vm_compute. reflexivity.
  - reflexivity.
  - vm_compute. discriminate.
  - decide_closed.
  - repeat constructor. discriminate.
Defined.

(** a declared length above the limit is refused with 413, and only that: a
    missing, unreadable or unparsable Content-Length passes the check. *)
Theorem body_limit_decision `{Http} h max_bytes :
  check_body_limit h max_bytes =
    match hm_get CONTENT_LENGTH h ≫= (λ v, parse_uint u64_max (default "0" (hv_to_str v))) with
    | Some n => if decide (max_bytes < n)%Z
                then Some (error_response 413%Z ("413 Payload Too Large" +:+ nl)) else None
    | None => None
    end.
Proof.
  unfold check_body_limit. destruct (hm_get CONTENT_LENGTH h); simpl; [|done].
  case_match; [|done]. destruct (Z.ltb_spec max_bytes z); case_decide; try done; lia.
Qed.

(** a cache hit replays the stored response: the stored status and body,
    marked [x-cache: HIT], with this hop's [via] behind the stored ones and
    every other header as stored; requests that forbid caching never hit. *)
Theorem cache_hit_replays `{HO : HttpOk} `{Lru} rc m p h v clk r :
  (check_cache rc m p h v clk).2 = Some r →
  is_cacheable_request m h = true ∧
  ∃ st sh b, (get_for_request rc m p h clk).2 = Some (st, sh, b) ∧
    status r = st ∧ collect (resp_body r) = Some b ∧
    get_str "x-cache" (resp_headers r) = Some "HIT" ∧
    get_all "via" (resp_headers r) = get_all "via" sh ++ [via_header_value v] ∧
    ∀ n, n ≠ "x-cache" → n ≠ "via" → get_all n (resp_headers r) = get_all n sh.
Proof.
  unfold check_cache. destruct (is_cacheable_request m h); [|done]. simpl.
  destruct (get_for_request rc m p h clk) as [rc' [[[st sh] b]|]]; [|done]. simpl.
  intros [= <-]. split; [done|]. exists st, sh, b. simpl. split_and!; try done.
  - apply collect_full_body.
  - unfold get_str. rewrite hm_get_append_ne, hm_get_insert_eq by done. simpl. by apply hv_to_static.
  - by rewrite get_all_append_eq, get_all_insert_ne.
  - intros n Hx Hv. by rewrite get_all_append_ne, get_all_insert_ne.
Qed.

Lemma cache_hit_replays_witness :
  let rc := cache_put (H:=list_http) (H0:=list_lru) (cache_new 1 300) "GET:/a" 200%Z [] "hi" 0%Z in
  match (check_cache (H:=list_http) rc GET "/a" [] HTTP_11 (λ _, 0%Z)).2 with
  | Some r => collect (resp_body r) = Some "hi"
  | None => False
  end.
Proof.
  intros rc.
  destruct (check_cache (H:=list_http) rc GET "/a" [] HTTP_11 (λ _, 0%Z)).2 as [r|] eqn:E.
  - destruct (cache_hit_replays (H:=list_http) rc GET "/a" [] HTTP_11 (λ _, 0%Z) r E)
      as (_ & st & sh & b & Hg & _ & Hb & _).
    rewrite Hb. vm_compute in Hg. injection Hg as _ _ <-. reflexivity.
  - vm_compute in E. discriminate E.
Defined.
