(* ===== verification/ProxyHeaders.v ===== *)
(** * The proxy handler: headers, retries, addresses, bodies

    Model of the free functions of [proxy-core/src/handlers/proxy.rs]: the
    hop-by-hop and forwarding headers, the classification of answers for
    retries and their metrics, the upstream URI and host, the WebSocket
    detection and target, and the size-limited body reader. *)

From S2P Require Import Prelude RustStr Net Http ConfigTypes Cache Compression Plugin Middleware.

Local Open Scope string_scope.
Local Open Scope list_scope.

Definition HOST : string := "host".

Definition HOP_BY_HOP_HEADERS : list string :=
  ["connection"; "keep-alive"; "te"; "transfer-encoding"; "upgrade"; "proxy-authorization";
   "proxy-connection"].

(** ** Retries *)

Definition is_idempotent (m : Method) : bool :=
  String.eqb m GET || String.eqb m HEAD || String.eqb m OPTIONS || String.eqb m PUT
  || String.eqb m DELETE.

Definition BAD_GATEWAY : StatusCode := 502%Z.
Definition SERVICE_UNAVAILABLE : StatusCode := 503%Z.
Definition GATEWAY_TIMEOUT : StatusCode := 504%Z.

Definition is_retryable_status (s : StatusCode) : bool :=
  (s =? BAD_GATEWAY)%Z || (s =? SERVICE_UNAVAILABLE)%Z.

Definition is_provider_retryable_status (s : StatusCode) : bool :=
  (s =? TOO_MANY_REQUESTS)%Z || is_server_error s.

Inductive RetryMetricMode := Core | Provider.

Definition mode_str (m : RetryMetricMode) : string :=
  match m with Core => "core" | Provider => "provider" end.

Inductive RetryMetricReason :=
| RTimeout | ConnectionError | Status429 | Status5xx | MalformedUpstream | NonRetryable.

Definition reason_str (r : RetryMetricReason) : string :=
  match r with
  | RTimeout => "timeout"
  | ConnectionError => "connection_error"
  | Status429 => "429"
  | Status5xx => "5xx"
  | MalformedUpstream => "malformed_upstream"
  | NonRetryable => "non_retryable"
  end.

Definition retry_metric_mode (has_provider_routing : bool) : RetryMetricMode :=
  if has_provider_routing then Provider else Core.

Definition retry_metric_reason_for_status (s : StatusCode) (has_provider_routing : bool)
    : RetryMetricReason :=
  if has_provider_routing && (s =? TOO_MANY_REQUESTS)%Z then Status429
  else if is_server_error s || (s =? BAD_GATEWAY)%Z || (s =? SERVICE_UNAVAILABLE)%Z then Status5xx
  else NonRetryable.

Definition status_error (s : StatusCode) (has_provider_routing : bool) : option ProxyError :=
  if is_server_error s || (has_provider_routing && (s =? TOO_MANY_REQUESTS)%Z)
  then Some (UpstreamStatus s) else None.

(** ** Upstream addresses *)

Definition upstream_uri (upstream path_and_query : string) : string :=
  if contains upstream "://" then upstream +:+ path_and_query
  else if ends_with upstream ":443" then "https://" +:+ upstream +:+ path_and_query
  else "http://" +:+ upstream +:+ path_and_query.

Definition upstream_host (upstream : string) : string :=
  match str_find "://" upstream with
  | Some i => str_drop (i + 3) upstream
  | None => upstream
  end.

(** [{:?}] of the strategy. *)
Definition lb_debug (s : LbStrategy) : string :=
  match s with
  | RoundRobinS => "RoundRobin"
  | LeastConnectionsS => "LeastConnections"
  | ConsistentHashS => "ConsistentHash"
  | WeightedRoundRobinS => "WeightedRoundRobin"
  end.

Definition route_lb_cache_key (route : RouteConfig) : string :=
  lb_debug (lb route) +:+ "|" +:+ join "," (servers route) +:+ "|" +:+
  match weights route with
  | Some ws => join "," (pretty <$> ws)
  | None => ""
  end.

(** ** Bodies *)

Inductive CollectBodyError := TooLarge | Read.

(** The frame loop: [buffered] is what has been kept so far. *)
Fixpoint collect_frames (limit : Z) (buffered : string) (body : Body) : result CollectBodyError string :=
  match body with
  | [] => Ok buffered
  | ReadError :: _ => Err Read
  | Trailers :: body' => collect_frames limit buffered body'
  | Data d :: body' =>
      if (limit <? Z.min (Z.of_nat (String.length buffered) + Z.of_nat (String.length d)) usize_max)%Z
      then Err TooLarge
      else collect_frames limit (buffered +:+ d) body'
  end.

Definition collect_body_with_limit (body : Body) (max_bytes : Z) : result CollectBodyError string :=
  collect_frames (Z.min max_bytes usize_max) "" body.

Section headers.
Context `{Http}.

(** ** Hop-by-hop headers *)

(** The header names a [Connection] value lists. *)
Definition connection_tokens (v : HeaderValue) : list string :=
  filter_map (λ token,
    let token := to_lowercase (trim token) in
    if String.eqb token "" then None
    else if header_name_ok token then Some token else None)
  (split "," (default "" (hv_to_str v))).

Definition strip_hop_by_hop_headers (headers : HeaderMap) : HeaderMap :=
  let custom_tokens := concat (connection_tokens <$> get_all "connection" headers) in
  let headers := remove_all HOP_BY_HOP_HEADERS headers in
  remove_all custom_tokens headers.

Definition strip_hop_by_hop_if_needed (headers : HeaderMap) (version : Version) : HeaderMap :=
  if decide (version = HTTP_2) then
    let keep_te :=
      default false ((λ v, eq_ignore_ascii_case v "trailers") <$> get_str "te" headers) in
    let headers := hm_remove "connection" headers in
    let headers := hm_remove "keep-alive" headers in
    let headers := if keep_te then headers else hm_remove "te" headers in
    let headers := hm_remove "transfer-encoding" headers in
    let headers := hm_remove "upgrade" headers in
    let headers := hm_remove "proxy-authorization" headers in
    hm_remove "proxy-connection" headers
  else strip_hop_by_hop_headers headers.

Definition strip_hop_by_hop_headers_for_upgrade (headers : HeaderMap) : HeaderMap :=
  foldl (λ h n, if String.eqb n "connection" || String.eqb n "upgrade" then h else hm_remove n h)
    headers HOP_BY_HOP_HEADERS.

(** ** Forwarding headers *)

(** The text of the new X-Forwarded-For value. *)
Definition xff_text (headers : HeaderMap) (client_ip : string) : string :=
  match hm_get "x-forwarded-for" headers with
  | Some existing => default "" (hv_to_str existing) +:+ ", " +:+ client_ip
  | None => client_ip
  end.

(** [None] is the panic of [unwrap] on a value that is not a header value. *)
Definition add_forwarding_headers (headers : HeaderMap) (peer_addr : SocketAddr)
    (original_host : option string) (is_tls : bool) : option HeaderMap :=
  let client_ip := ip_to_string (ip peer_addr) in
  xff ← hv_from_str (xff_text headers client_ip);
  let headers := hm_insert "x-forwarded-for" xff headers in
  let headers := hm_insert "x-forwarded-proto"
                   (hv_from_static (if is_tls then "https" else "http")) headers in
  Some (match original_host with
        | Some host =>
            match hv_from_str host with
            | Some val => hm_insert "x-forwarded-host" val headers
            | None => headers
            end
        | None => headers
        end).

(** ** WebSockets *)

Definition is_websocket_upgrade (headers : HeaderMap) : bool :=
  let has_upgrade_connection :=
    existsb (λ v, existsb (λ token, eq_ignore_ascii_case (trim token) "upgrade")
                    (split "," (default "" (hv_to_str v))))
      (get_all "connection" headers) in
  let has_websocket_upgrade :=
    default false ((λ v, eq_ignore_ascii_case v "websocket") <$> get_str "upgrade" headers) in
  has_upgrade_connection && has_websocket_upgrade.

Record WebSocketUpstreamTarget := {
  connect_addr : string;
  host_header : string;
  server_name : string;
  use_tls : bool;
}.

Inductive WsTargetError := InvalidUri | MissingAuthority | MissingHost.

Definition parse_websocket_upstream_target (upstream : string)
    : result WsTargetError WebSocketUpstreamTarget :=
  let upstream_uri :=
    if contains upstream "://" then upstream
    else if ends_with upstream ":443" then "https://" +:+ upstream
    else "http://" +:+ upstream in
  (let? uri := ok_or (parse_uri upstream_uri) InvalidUri in
   let? auth := ok_or (authority uri) MissingAuthority in
   let? server := ok_or (uri_host uri) MissingHost in
   let tls := match scheme_str uri with
              | Some s => String.eqb s "https" || String.eqb s "wss"
              | None => false
              end in
   let default_port := if tls then "443" else "80" in
   let addr := match port_u16 uri with
               | Some _ => auth
               | None => auth +:+ ":" +:+ default_port
               end in
   Ok {| connect_addr := addr; host_header := auth; server_name := server; use_tls := tls |})%rust.

End headers.

(** ** Lemmas *)

Lemma collect_frames_spec limit buffered body r :
  collect_frames limit buffered body = Ok r →
  ∃ rest, collect body = Some rest ∧ r = buffered +:+ rest.
Proof.
  revert buffered. induction body as [|[d| |] body IH]; intros buffered; simpl.
  - intros [= <-]. exists "". by rewrite str_app_nil_r.
  - case_match; [done|]. intros (rest & -> & ->)%IH. exists (d +:+ rest).
    by rewrite str_app_assoc.
  - apply IH.
  - done.
Qed.

Lemma collect_frames_small limit buffered body b :
  collect body = Some b → (limit ≤ usize_max)%Z →
  (Z.of_nat (String.length buffered) + Z.of_nat (String.length b) ≤ limit)%Z →
  collect_frames limit buffered body = Ok (buffered +:+ b).
Proof.
  intros Hc Hl. revert buffered b Hc. induction body as [|[d| |] body IH]; intros buffered b; simpl.
  - intros [= <-] _. by rewrite str_app_nil_r.
  - intros (b' & Hb' & ->)%fmap_Some. rewrite str_length_app. intros Hs.
    rewrite (proj2 (Z.ltb_ge _ _)) by lia. rewrite (IH _ b' Hb'), str_app_assoc; [done|].
    rewrite str_length_app. lia.
  - apply IH.
  - done.
Qed.

Lemma collect_frames_bounded limit buffered body r :
  (Z.of_nat (String.length buffered) ≤ limit)%Z → (limit < usize_max)%Z →
  collect_frames limit buffered body = Ok r → (Z.of_nat (String.length r) ≤ limit)%Z.
Proof.
  revert buffered. induction body as [|[d| |] body IH]; intros buffered Hb Hl; simpl.
  - naive_solver.
  - case_match eqn:E; [done|]. bool_to_prop. apply IH; [|done]. rewrite str_length_app. lia.
  - by apply IH.
  - done.
Qed.

(** Printed weight lists are distinct. *)
Lemma weights_text_inj (ws ws' : list Z) :
  Forall (λ w, (0 ≤ w)%Z) ws → Forall (λ w, (0 ≤ w)%Z) ws' →
  join "," (pretty <$> ws) = join "," (pretty <$> ws') → ws = ws'.
Proof.
  assert (∀ ws : list Z, Forall (λ w, (0 ≤ w)%Z) ws → Forall (λ s, no_char "," s = true) (pretty <$> ws)) as Hc.
  { intros l HF. apply Forall_fmap. eapply Forall_impl; [exact HF|]. intros w Hw. by apply no_char_pretty. }
  assert (∀ (w : Z) l, (0 ≤ w)%Z → join "," (pretty <$> w :: l) ≠ "") as Hne.
  { intros w l Hw. destruct l; [by apply pretty_nonempty|].
    cbn [fmap list_fmap join]. pose proof (pretty_nonempty w Hw). by destruct (pretty w). }
  intros HF HF' Heq. destruct ws as [|w ws], ws' as [|w' ws']; [done| | |].
  - apply Forall_cons in HF' as [Hw' _]. by destruct (Hne w' ws' Hw').
  - apply Forall_cons in HF as [Hw _]. by destruct (Hne w ws Hw).
  - apply (join_inj ",") in Heq; [|done|done|auto|auto]. by apply (inj (fmap pretty)) in Heq.
Qed.

Section header_lemmas.
Context `{HO : HttpOk}.

(** The names that stripping removes from an HTTP/1 request. *)
Definition stripped_names (h : HeaderMap) : list string :=
  HOP_BY_HOP_HEADERS ++ concat (connection_tokens <$> get_all "connection" h).

Lemma strip_hop_by_hop_spec h n :
  get_all n (strip_hop_by_hop_headers h) =
  if decide (n ∈ stripped_names h) then [] else get_all n h.
Proof.
  unfold strip_hop_by_hop_headers, stripped_names. rewrite !get_all_remove_all.
  repeat case_decide; set_solver.
Qed.

Lemma xff_visible h a : visible (xff_text h (ip_to_string a)) = true.
Proof.
  unfold xff_text. case_match; [|apply visible_ip_to_string].
  rewrite !visible_app, visible_ip_to_string, andb_true_r.
  destruct (hv_to_str h0) as [s|] eqn:E; [|done].
  simpl. by rewrite (hv_to_str_visible _ _ E).
Qed.

(** A hop-by-hop name is gone after stripping, TE on HTTP/2 apart. *)
Lemma strip_removes_hop h version n :
  n ∈ HOP_BY_HOP_HEADERS → n = "te" ∧ version = HTTP_2 ∨
  get_all n (strip_hop_by_hop_if_needed h version) = [].
Proof.
  intros Hn. unfold strip_hop_by_hop_if_needed. destruct (decide (version = HTTP_2)) as [->|].
  - destruct (decide (n = "te")) as [->|Hte]; [by left|right].
    assert (∀ m x, get_all n (hm_remove x m) = if decide (n = x) then [] else get_all n m) as Hr.
    { intros m x. case_decide as Hx; [subst; apply get_all_remove_eq|by apply get_all_remove_ne]. }
    unfold HOP_BY_HOP_HEADERS in Hn. repeat rewrite elem_of_cons in Hn.
    destruct_or! Hn; subst; try done; [..|set_solver];
      destruct (default false _); rewrite !Hr; by repeat case_decide.
  - right. rewrite strip_hop_by_hop_spec. rewrite decide_True; [done|].
    unfold stripped_names. set_solver.
Qed.

Lemma add_forwarding_other h peer host is_tls h' n :
  add_forwarding_headers h peer host is_tls = Some h' →
  n ∉ ["x-forwarded-for"; "x-forwarded-proto"; "x-forwarded-host"] → get_all n h' = get_all n h.
Proof.
  unfold add_forwarding_headers. intros (xff & _ & [= <-])%bind_Some Hn.
  repeat case_match; rewrite !get_all_insert_ne; set_solver.
Qed.

End header_lemmas.

(** ** Properties *)

(** an HTTP/1 request forwarded upstream carries none of the hop-by-hop
    headers and none of the headers its Connection header lists; every other
    header keeps all its values.  An HTTP/2 request loses the fixed list only,
    and keeps TE exactly when it is "trailers". *)
Theorem hop_by_hop_stripped `{HO : HttpOk} h version n :
  let h' := strip_hop_by_hop_if_needed h version in
  get_all n h' =
    if decide (version = HTTP_2) then
      if decide (n = "te") then
        match get_str "te" h with
        | Some v => if eq_ignore_ascii_case v "trailers" then get_all n h else []
        | None => []
        end
      else if decide (n ∈ HOP_BY_HOP_HEADERS) then [] else get_all n h
    else if decide (n ∈ stripped_names h) then [] else get_all n h.
Proof.
  intros h'. unfold h', strip_hop_by_hop_if_needed.
  destruct (decide (version = HTTP_2)) as [->|]; [|apply strip_hop_by_hop_spec].
  assert (∀ m x, get_all n (hm_remove x m) = if decide (n = x) then [] else get_all n m) as Hr.
  { intros m x. case_decide as Hx; [subst; apply get_all_remove_eq|by apply get_all_remove_ne]. }
  destruct (decide (n = "te")) as [->|Hte].
  - rewrite !Hr. repeat (rewrite decide_False by done).
    destruct (get_str "te" h) as [v|]; simpl.
    + destruct (eq_ignore_ascii_case v "trailers"); rewrite ?Hr; by repeat case_decide.
    + rewrite Hr. by case_decide.
  - destruct (default false _); rewrite !Hr; repeat case_decide; subst; try done;
      unfold HOP_BY_HOP_HEADERS in *; set_solver.
Qed.

Lemma hop_by_hop_stripped_witness :
  let h := [("host", "a"); ("connection", "close, x-private"); ("x-private", "1"); ("x-public", "2")] in
  get_all (Http:=list_http) "x-private" (strip_hop_by_hop_if_needed (H:=list_http) h HTTP_11) = [] ∧
  get_all (Http:=list_http) "x-public" (strip_hop_by_hop_if_needed (H:=list_http) h HTTP_11) = ["2"].
Proof.
  intros h. split.
  - rewrite (hop_by_hop_stripped (HO:=list_http_ok) h HTTP_11 "x-private"). vm_compute. reflexivity.
  - rewrite (hop_by_hop_stripped (HO:=list_http_ok) h HTTP_11 "x-public"). vm_compute. reflexivity.
Defined.

(** adding the forwarding headers never panics, for any client headers and
    address: the new X-Forwarded-For is always a legal value.  It is the first
    existing value followed by the client address, the scheme and the original
    host are set, and nothing else changes. *)
Theorem forwarding_headers_added `{HO : HttpOk} h peer host tls :
  (∀ x, host = Some x → visible x = true) →
  ∃ h', add_forwarding_headers h peer host tls = Some h' ∧
    get_str "x-forwarded-for" h' = Some (xff_text h (ip_to_string (ip peer))) ∧
    get_str "x-forwarded-proto" h' = Some (if tls then "https" else "http") ∧
    (∀ x, host = Some x → get_str "x-forwarded-host" h' = Some x) ∧
    ∀ n, n ∉ ["x-forwarded-for"; "x-forwarded-proto"; "x-forwarded-host"] → get_all n h' = get_all n h.
Proof.
  intros Hhost. unfold add_forwarding_headers.
  pose proof (xff_visible h (ip peer)) as Hvis.
  destruct (hv_from_str_visible _ Hvis) as [xff Hx]. rewrite Hx. simpl.
  eexists. split; [done|]. destruct host as [x|].
  - specialize (Hhost x eq_refl). destruct (hv_from_str_visible _ Hhost) as [v Hv]. rewrite Hv.
    split_and!.
    + rewrite !get_str_insert_ne, get_str_insert_eq by done. by apply hv_to_from_str.
    + rewrite get_str_insert_ne, get_str_insert_eq by done. apply hv_to_static. by destruct tls.
    + intros ? [= <-]. rewrite get_str_insert_eq. by apply hv_to_from_str.
    + intros n Hn. by rewrite !get_all_insert_ne by set_solver.
  - split_and!.
    + rewrite get_str_insert_ne, get_str_insert_eq by done. by apply hv_to_from_str.
    + rewrite get_str_insert_eq. apply hv_to_static. by destruct tls.
    + done.
    + intros n Hn. rewrite !get_all_insert_ne by set_solver. done.
Qed.

Lemma forwarding_headers_added_witness :
  ∃ h', add_forwarding_headers (H:=list_http) [("x-forwarded-for", "9.9.9.9")]
          {| ip := V4 2130706433; port := 1234 |} (Some "example.com") true = Some h' ∧
        get_str "x-forwarded-for" h' = Some "9.9.9.9, 127.0.0.1".
Proof.
  destruct (forwarding_headers_added (H:=list_http) [("x-forwarded-for", "9.9.9.9")]
    {| ip := V4 2130706433; port := 1234 |} (Some "example.com") true)
    as (h' & Hh & Hx & _); [|].
  - intros x [= <-]. vm_compute. reflexivity.
  - exists h'. split; [exact Hh|]. rewrite Hx. vm_compute. reflexivity.
Defined.

(** only the first X-Forwarded-For line survives: when a client sends the
    list in two header lines, the second is dropped, not appended to. *)
Theorem second_xff_line_dropped :
  let h : @HeaderMap list_http := [("x-forwarded-for", "1.1.1.1"); ("x-forwarded-for", "2.2.2.2")] in
  get_all "x-forwarded-for" <$>
    add_forwarding_headers h {| ip := V4 2130706433; port := 1 |} None false
  = Some ["1.1.1.1, 127.0.0.1"].
Proof. vm_compute. reflexivity. Qed.

(** the size-limited reader accepts a body exactly when it arrives whole and
    fits the limit, and then returns all of it. *)
Theorem body_reader_exact body max b :
  (0 ≤ max < usize_max)%Z →
  collect_body_with_limit body max = Ok b ↔
  collect body = Some b ∧ (Z.of_nat (String.length b) ≤ max)%Z.
Proof.
  intros Hmax. unfold collect_body_with_limit. rewrite Z.min_l by lia. split.
  - intros Hc. destruct (collect_frames_spec _ _ _ _ Hc) as (r & Hr & ->). simpl in *.
    split; [done|]. eapply (collect_frames_bounded max "" body r); [simpl; lia|lia|done].
  - intros [Hc Hl]. rewrite (collect_frames_small max "" body b); [done|done|lia|simpl; lia].
Qed.

Lemma body_reader_exact_witness :
  collect_body_with_limit [Data "ab"; Trailers; Data "c"] 3 = Ok "abc".
Proof.
  apply (body_reader_exact [Data "ab"; Trailers; Data "c"] 3 "abc").
  - unfold usize_max, u64_max. lia.
  - split; [reflexivity|simpl; lia].
Defined.

(** load balancers are not shared by accident: routes whose server names
    contain neither a comma nor a bar get the same balancer only when they
    have the same strategy, servers and weights. *)
Theorem route_lb_key_injective r1 r2 :
  servers r1 ≠ [] → servers r2 ≠ [] →
  Forall (λ s, no_char "," s && no_char "|" s = true) (servers r1 ++ servers r2) →
  Forall (λ w, (0 ≤ w)%Z) (default [] (weights r1) ++ default [] (weights r2)) →
  route_lb_cache_key r1 = route_lb_cache_key r2 →
  lb r1 = lb r2 ∧ servers r1 = servers r2 ∧
  default [] (weights r1) = default [] (weights r2).
Proof.
  intros Hn1 Hn2 [HF1 HF2]%Forall_app [HW1 HW2]%Forall_app Hk.
  assert (∀ l : list string, Forall (λ s, no_char "," s && no_char "|" s = true) l →
    Forall (λ s, no_char "," s = true) l ∧ Forall (λ s, no_char "|" s = true) l) as Hsplit.
  { intros l. induction 1 as [|x l [? ?]%andb_true_iff ? [? ?]]; split; constructor; auto. }
  destruct (Hsplit _ HF1) as [Hc1 Hb1]. destruct (Hsplit _ HF2) as [Hc2 Hb2].
  assert (∀ ws, Forall (λ w, (0 ≤ w)%Z) ws →
    Forall (λ s, no_char "," s = true) (pretty <$> ws) ∧ no_char "|" (join "," (pretty <$> ws)) = true) as Hw.
  { intros ws HW. split; [|apply no_char_join; [done|]]; apply Forall_fmap;
      (eapply Forall_impl; [exact HW|]; intros w Hw; by apply no_char_pretty). }
  set (wtext := λ r, match weights r with Some ws => join "," (pretty <$> ws) | None => "" end).
  assert (∀ r, wtext r = join "," (pretty <$> default [] (weights r))) as Hwt.
  { intros r. unfold wtext. by destruct (weights r). }
  assert (∀ r, route_lb_cache_key r =
    join "|" [lb_debug (lb r); join "," (servers r); wtext r]) as Hkey by done.
  rewrite !Hkey in Hk. apply (join_inj "|") in Hk; [|done|done| |].
  - injection Hk as Hlb Hs Hwe. split_and!.
    + by destruct (lb r1), (lb r2).
    + by apply (join_inj ",").
    + rewrite !Hwt in Hwe. by apply weights_text_inj.
  - rewrite Hwt. repeat constructor; [by destruct (lb r1)|by apply no_char_join|by apply Hw].
  - rewrite Hwt. repeat constructor; [by destruct (lb r2)|by apply no_char_join|by apply Hw].
Qed.

Lemma route_lb_key_injective_witness :
  let r := {| servers := ["a:1"; "b:2"]; lb := WeightedRoundRobinS; weights := Some [3; 1]%Z |} in
  lb r = lb r ∧ servers r = servers r ∧ default [] (weights r) = default [] (weights r).
Proof.
  intros r. apply (route_lb_key_injective r r); [discriminate|discriminate| | |reflexivity].
  - repeat constructor.
  - repeat constructor; simpl; lia.
Defined.
