(* ===== verification/Proxy.v ===== *)
(** * The proxy handler

    Model of [ProxyService] in [proxy-core/src/handlers/proxy.rs]: the whole
    request handler, in the phases its code has, in a state and early-return
    monad over the state all requests share.  The upstream client, the TLS and
    TCP layer of WebSockets, the JSON printer of the probe bodies, the
    compressors and the clock are an environment [Env]; [interfere] is what
    other requests do to the shared state while this one awaits an upstream.
    [Panic] stands for an index out of range or a failed [unwrap]. *)

From S2P Require Import Prelude RustStr Net Http ConfigTypes F64 Metrics Health RateLimit.
From S2P Require Import CircuitBreaker LoadBalancer Cache Compression Runtime Plugin Middleware.
From S2P Require Import ProxyHeaders.

Local Open Scope string_scope.
Local Open Scope list_scope.

Section proxy.
Context `{Http} `{Lru} `{PluginTypes} `{SipHasher}.

(** ** State *)

(** The settings of a service: its non-shared fields. *)
Record ProxyService := {
  router : string → option RouteConfig;
  peer_addr : option SocketAddr;
  tls : bool;
  compression_enabled : bool;
  max_request_body_bytes : Z;
  upstream_timeout : Duration;
  h3_port : option Z;
  svc_max_inflight : option Z;
  svc_brownout_inflight : option Z;
  svc_retry_budget : Z;
  plugins : option PluginChain;
  connection_extensions : ConnExtensions;
}.

(** What the clones of a service share. *)
Record Shared := {
  counter : Z;
  health_state : option HealthState;
  rate_limiter : option RateLimiter;
  sh_metrics : option Metrics;
  circuit_breaker : option CircuitBreaker;
  sh_cache : option ResponseCache;
  inflight_requests : option Z;
  probe_state : option ProbeSnapshot;
  load_balancers : gmap string DynLb;
  plugin_state : PluginState;
}.

(** The outcome of one upstream request under its timeout. *)
Inductive UpstreamResult :=
| Answered (r : Response)
| Failed (e : string)
| TimedOut.

(** The outcome of connecting and sending a WebSocket upgrade. *)
Inductive WsResult :=
| WsConnectError
| WsTlsError
| WsHandshakeError
| WsRequestError
| WsTimeout
| WsAnswered (r : Response).

Record Env := {
  time : nat → Clock;
  client : nat → Duration → Request → UpstreamResult;
  interfere : nat → Shared → Shared;
  compressor : Encoding → string → option string;
  probe_json : string → option string → string;
  tls_name_ok : string → bool;
  ws_connect : WebSocketUpstreamTarget → Request → WsResult;
}.

(** The reading of the clock at a point of the handler. *)
Definition now_at (env : Env) (t : nat) : Instant := time env t 0.

(** ** The handler's monad *)

Inductive Exit :=
| Early (r : Response)
| Panic.

Definition M (A : Type) := Shared → Shared * result Exit A.

Definition mret {A} (a : A) : M A := λ s, (s, Ok a).

Definition mbind_ {A B} (m : M A) (k : A → M B) : M B := λ s,
  match m s with
  | (s', Ok a) => k a s'
  | (s', Err e) => (s', Err e)
  end.

Definition early {A} (r : Response) : M A := λ s, (s, Err (Early r)).
Definition panic {A} : M A := λ s, (s, Err Panic).
Definition modify (f : Shared → Shared) : M () := λ s, (f s, Ok ()).
Definition gets {A} (f : Shared → A) : M A := λ s, (s, Ok (f s)).

Local Notation "'let!' x ':=' m 'in' k" := (mbind_ m (λ x, k))
  (at level 10, x pattern, m at level 100, k at level 200).

Definition set_counter (v : Z) (s : Shared) : Shared := {|
  counter := v; health_state := health_state s; rate_limiter := rate_limiter s;
  sh_metrics := sh_metrics s; circuit_breaker := circuit_breaker s; sh_cache := sh_cache s;
  inflight_requests := inflight_requests s; probe_state := probe_state s;
  load_balancers := load_balancers s; plugin_state := plugin_state s |}.

Definition set_limiter (v : option RateLimiter) (s : Shared) : Shared := {|
  counter := counter s; health_state := health_state s; rate_limiter := v;
  sh_metrics := sh_metrics s; circuit_breaker := circuit_breaker s; sh_cache := sh_cache s;
  inflight_requests := inflight_requests s; probe_state := probe_state s;
  load_balancers := load_balancers s; plugin_state := plugin_state s |}.

Definition set_metrics (v : option Metrics) (s : Shared) : Shared := {|
  counter := counter s; health_state := health_state s; rate_limiter := rate_limiter s;
  sh_metrics := v; circuit_breaker := circuit_breaker s; sh_cache := sh_cache s;
  inflight_requests := inflight_requests s; probe_state := probe_state s;
  load_balancers := load_balancers s; plugin_state := plugin_state s |}.

Definition set_breaker (v : option CircuitBreaker) (s : Shared) : Shared := {|
  counter := counter s; health_state := health_state s; rate_limiter := rate_limiter s;
  sh_metrics := sh_metrics s; circuit_breaker := v; sh_cache := sh_cache s;
  inflight_requests := inflight_requests s; probe_state := probe_state s;
  load_balancers := load_balancers s; plugin_state := plugin_state s |}.

Definition set_sh_cache (v : option ResponseCache) (s : Shared) : Shared := {|
  counter := counter s; health_state := health_state s; rate_limiter := rate_limiter s;
  sh_metrics := sh_metrics s; circuit_breaker := circuit_breaker s; sh_cache := v;
  inflight_requests := inflight_requests s; probe_state := probe_state s;
  load_balancers := load_balancers s; plugin_state := plugin_state s |}.

Definition set_inflight (v : option Z) (s : Shared) : Shared := {|
  counter := counter s; health_state := health_state s; rate_limiter := rate_limiter s;
  sh_metrics := sh_metrics s; circuit_breaker := circuit_breaker s; sh_cache := sh_cache s;
  inflight_requests := v; probe_state := probe_state s;
  load_balancers := load_balancers s; plugin_state := plugin_state s |}.

Definition set_lbs (v : gmap string DynLb) (s : Shared) : Shared := {|
  counter := counter s; health_state := health_state s; rate_limiter := rate_limiter s;
  sh_metrics := sh_metrics s; circuit_breaker := circuit_breaker s; sh_cache := sh_cache s;
  inflight_requests := inflight_requests s; probe_state := probe_state s;
  load_balancers := v; plugin_state := plugin_state s |}.

Definition set_plugin_state (v : PluginState) (s : Shared) : Shared := {|
  counter := counter s; health_state := health_state s; rate_limiter := rate_limiter s;
  sh_metrics := sh_metrics s; circuit_breaker := circuit_breaker s; sh_cache := sh_cache s;
  inflight_requests := inflight_requests s; probe_state := probe_state s;
  load_balancers := load_balancers s; plugin_state := v |}.

(** ** Metrics of the service *)

Definition upd_metrics (f : Metrics → Metrics) : M () :=
  modify (λ s, set_metrics (f <$> sh_metrics s) s).

(** [self.record_metrics] *)
Definition svc_record_metrics (env : Env) (method : Method) (st : string) (t : nat) : M () :=
  upd_metrics (λ m, record_metrics m method st (now_at env 0) (now_at env t)).

Definition svc_record_retry_attempt (mode : RetryMetricMode) (r : RetryMetricReason) : M () :=
  upd_metrics (record_retry_attempt (mode_str mode) (reason_str r)).

Definition svc_record_retry_exhaustion (mode : RetryMetricMode) (r : RetryMetricReason) : M () :=
  upd_metrics (record_retry_exhaustion (mode_str mode) (reason_str r)).

(** Record a request metric and return an error response. *)
Definition fail_with {A} (env : Env) (method : Method) (code : StatusCode) (msg : string) (t : nat) : M A :=
  let! _ := svc_record_metrics env method (status_str code) t in
  early (error_response code (msg +:+ nl)).

Definition bad_gateway {A} env method t : M A := fail_with env method BAD_GATEWAY "502 Bad Gateway" t.

(** ** Probe endpoints *)

Definition probe_response (env : Env) (st : StatusCode) (state : string) (reason : option string)
    : Response := {|
  status := st;
  resp_headers := hm_insert "content-type" (hv_from_static "application/json") hm_new;
  resp_body := full_body (probe_json env state reason);
|}.

Definition probe_endpoints (env : Env) (req : Request) : M () :=
  let path := uri_path (req_uri req) in
  if String.eqb (req_method req) GET && String.eqb path "/_trp/livez" then
    early (probe_response env 200%Z "live" None)
  else if String.eqb (req_method req) GET && String.eqb path "/_trp/readyz" then
    let! p := gets probe_state in
    let snapshot := default probe_new p in
    let st := if ready snapshot then 200%Z else SERVICE_UNAVAILABLE in
    let state := if ready snapshot then "ready"
                 else if draining snapshot then "draining" else "starting" in
    early (probe_response env st state (reason snapshot))
  else mret ().

(** ** Admission: the in-flight counter, brownout and the hard limit *)

Definition enter_inflight (svc : ProxyService) : M (option Z) :=
  let! c := gets inflight_requests in
  match c with
  | None => mret None
  | Some previous =>
      let! _ := modify (set_inflight (Some (wrap64 (previous + 1)))) in
      let current := (previous + 1)%Z in
      let! _ :=
        match svc_brownout_inflight svc with
        | Some limit =>
            if (limit <=? current)%Z then
              let! _ := upd_metrics (set_brownout_active true) in
              if (previous <? limit)%Z then upd_metrics record_brownout_activation else mret ()
            else mret ()
        | None => mret ()
        end in
      mret (Some current)
  end.

(** [InFlightRequestGuard::drop] *)
Definition leave_inflight (svc : ProxyService) (s : Shared) : Shared :=
  match inflight_requests s with
  | None => s
  | Some previous =>
      let s := set_inflight (Some (wrap64 (previous - 1))) s in
      match svc_brownout_inflight svc with
      | Some threshold =>
          let remaining := Z.max 0 (previous - 1) in
          if (threshold <=? previous)%Z && (remaining <? threshold)%Z
          then set_metrics (set_brownout_active false <$> sh_metrics s) s else s
      | None => s
      end
  end.

Definition check_admission (env : Env) (svc : ProxyService) (method : Method) (inflight_now : option Z)
    : M () :=
  match inflight_now, svc_max_inflight svc with
  | Some current, Some limit =>
      if (limit <? current)%Z then
        let! _ := upd_metrics record_admission_rejection in
        fail_with env method SERVICE_UNAVAILABLE "503 Service Unavailable" 4
      else mret ()
  | _, _ => mret ()
  end.

(** ** Rate limit, body limit, buffering *)

Definition check_limits (env : Env) (svc : ProxyService) (req : Request) : M () :=
  let! rl := gets rate_limiter in
  let! _ :=
    match rl with
    | None => mret ()
    | Some limiter =>
        let! m := gets sh_metrics in
        let '(limiter, m, r) :=
          check_rate_limit limiter (peer_addr svc) m (req_method req) (time env 1) in
        let! _ := modify (λ s, set_limiter (Some limiter) (set_metrics m s)) in
        match r with Some resp => early resp | None => mret () end
    end in
  match check_body_limit (req_headers req) (max_request_body_bytes svc) with
  | Some resp => early resp
  | None => mret ()
  end.

Definition collect_or_fail (env : Env) (svc : ProxyService) (method : Method) (body : Body) : M string :=
  match collect_body_with_limit body (max_request_body_bytes svc) with
  | Ok b => mret b
  | Err TooLarge => fail_with env method PAYLOAD_TOO_LARGE "413 Payload Too Large" 4
  | Err Read => bad_gateway env method 4
  end.

Definition has_plugins (svc : ProxyService) : bool :=
  match plugins svc with Some (_ :: _) => true | _ => false end.

Definition set_req_body (req : Request) (b : Body) : Request :=
  {| req_method := req_method req; req_uri := req_uri req; req_version := req_version req;
     req_headers := req_headers req; req_body := b |}.

Definition buffer_body (env : Env) (svc : ProxyService) (req : Request) : M (Request * option string) :=
  let should_buffer_for_limit := negb (contains_key CONTENT_LENGTH (req_headers req)) in
  if has_plugins svc || should_buffer_for_limit then
    let! collected := collect_or_fail env svc (req_method req) (req_body req) in
    mret (set_req_body req (full_body collected),
          if has_plugins svc then Some collected else None)
  else mret (req, None).

(** ** Plugin hooks *)

Definition all_disabled : BrownoutMode :=
  {| disable_prompt_cache := true; disable_semantic_cache := true;
     disable_semantic_safety := true; disable_managed_tools := true |}.

Definition initial_ctx (svc : ProxyService) (req : Request) (plugin_body : option string)
    (inflight_now : option Z) : RequestContext := {|
  ctx_peer_addr := peer_addr svc;
  ctx_method := req_method req;
  ctx_uri := req_uri req;
  ctx_version := req_version req;
  ctx_headers := req_headers req;
  ctx_body := plugin_body;
  ctx_route := None;
  ctx_selected_upstream := None;
  ctx_auth := None;
  ctx_connection := connection_extensions svc;
  ctx_extensions := {|
    ext_retry_budget := Some (svc_retry_budget svc);
    ext_brownout :=
      match inflight_now, svc_brownout_inflight svc with
      | Some current, Some limit => if (limit <=? current)%Z then Some all_disabled else None
      | _, _ => None
      end;
    ext_candidates := None;
    ext_timeout := None;
    ext_plugins := plugin_ext_new;
  |};
|}.

Definition set_ctx_route (r : string) (c : RequestContext) : RequestContext := {|
  ctx_peer_addr := ctx_peer_addr c; ctx_method := ctx_method c; ctx_uri := ctx_uri c;
  ctx_version := ctx_version c; ctx_headers := ctx_headers c; ctx_body := ctx_body c;
  ctx_route := Some r; ctx_selected_upstream := ctx_selected_upstream c; ctx_auth := ctx_auth c;
  ctx_connection := ctx_connection c; ctx_extensions := ctx_extensions c |}.

Definition set_ctx_upstream (u : string) (c : RequestContext) : RequestContext := {|
  ctx_peer_addr := ctx_peer_addr c; ctx_method := ctx_method c; ctx_uri := ctx_uri c;
  ctx_version := ctx_version c; ctx_headers := ctx_headers c; ctx_body := ctx_body c;
  ctx_route := ctx_route c; ctx_selected_upstream := Some u; ctx_auth := ctx_auth c;
  ctx_connection := ctx_connection c; ctx_extensions := ctx_extensions c |}.

Definition set_ctx_body (b : option string) (c : RequestContext) : RequestContext := {|
  ctx_peer_addr := ctx_peer_addr c; ctx_method := ctx_method c; ctx_uri := ctx_uri c;
  ctx_version := ctx_version c; ctx_headers := ctx_headers c; ctx_body := b;
  ctx_route := ctx_route c; ctx_selected_upstream := ctx_selected_upstream c; ctx_auth := ctx_auth c;
  ctx_connection := ctx_connection c; ctx_extensions := ctx_extensions c |}.

Definition set_ctx_ext (e : Extensions) (c : RequestContext) : RequestContext := {|
  ctx_peer_addr := ctx_peer_addr c; ctx_method := ctx_method c; ctx_uri := ctx_uri c;
  ctx_version := ctx_version c; ctx_headers := ctx_headers c; ctx_body := ctx_body c;
  ctx_route := ctx_route c; ctx_selected_upstream := ctx_selected_upstream c; ctx_auth := ctx_auth c;
  ctx_connection := ctx_connection c; ctx_extensions := e |}.

(** A plugin's answer: respond at once or go on. *)
Definition respond_or {A} (a : Action) (v : A) : M A :=
  match a with Respond r => early r | Continue => mret v end.

Definition hook_request (svc : ProxyService) (ctx : RequestContext) : M RequestContext :=
  match plugins svc with
  | None => mret ctx
  | Some ps =>
      let! st := gets plugin_state in
      let '((st, ctx), a) := run_on_request ps (st, ctx) in
      let! _ := modify (set_plugin_state st) in
      respond_or a ctx
  end.

Definition hook_select (svc : ProxyService) (ctx : RequestContext) (servers : list string)
    : M (RequestContext * list string) :=
  match plugins svc with
  | None => mret (ctx, servers)
  | Some ps =>
      let! st := gets plugin_state in
      let '((st, ctx, servers), a) := run_on_upstream_select ps (st, ctx, servers) in
      let! _ := modify (set_plugin_state st) in
      respond_or a (ctx, servers)
  end.

Definition hook_error (svc : ProxyService) (ctx : RequestContext) (e : ProxyError) : M RequestContext :=
  match plugins svc with
  | None => mret ctx
  | Some ps =>
      let! st := gets plugin_state in
      let '((st, ctx), a) := run_on_error ps e (st, ctx) in
      let! _ := modify (set_plugin_state st) in
      respond_or a ctx
  end.

Definition hook_transform (svc : ProxyService) (ctx : RequestContext) (resp : Response)
    : M (RequestContext * Response) :=
  match plugins svc with
  | None => mret (ctx, resp)
  | Some ps =>
      let! st := gets plugin_state in
      let '(st, ctx, resp) := run_transform_response ps st ctx resp in
      let! _ := modify (set_plugin_state st) in
      mret (ctx, resp)
  end.

Definition response_ctx (env : Env) (resp : Response) (upstream : string) (t : nat) : ResponseContext :=
  {| rc_status := status resp; rc_headers := resp_headers resp; rc_upstream := upstream;
     rc_duration := duration_since (now_at env t) (now_at env 0) |}.

Definition hook_response (env : Env) (svc : ProxyService) (ctx : RequestContext) (resp : Response)
    (upstream : string) (t : nat) : M RequestContext :=
  match plugins svc with
  | None => mret ctx
  | Some ps =>
      let! st := gets plugin_state in
      let '((st, ctx, _), a) :=
        run_on_response ps (st, ctx, response_ctx env resp upstream t) in
      let! _ := modify (set_plugin_state st) in
      respond_or a ctx
  end.

Definition hook_wrap (env : Env) (svc : ProxyService) (ctx : RequestContext) (resp : Response)
    (upstream : string) (t : nat) : M Response :=
  match plugins svc with
  | None => mret resp
  | Some ps =>
      let! st := gets plugin_state in
      mret {| status := status resp; resp_headers := resp_headers resp;
              resp_body := run_wrap_response_body ps st ctx (response_ctx env resp upstream t)
                             (resp_body resp) |}
  end.

(** ** Routing, cache, upstream selection *)

Definition route_lookup (env : Env) (svc : ProxyService) (method : Method) (path : string)
    : M RouteConfig :=
  match router svc path with
  | Some rc => mret rc
  | None => fail_with env method 404%Z "404 Not Found" 4
  end.

Definition serve_from_cache (env : Env) (svc : ProxyService) (req : Request) (cache_key_path : string)
    : M () :=
  let! c := gets sh_cache in
  match c with
  | None => mret ()
  | Some rc =>
      let '(rc, r) := check_cache rc (req_method req) cache_key_path (req_headers req)
                        (req_version req) (time env 2) in
      let! _ := modify (set_sh_cache (Some rc)) in
      match r with
      | None => mret ()
      | Some resp =>
          let resp := with_headers resp (add_alt_svc (resp_headers resp) (h3_port svc)) in
          let! _ := svc_record_metrics env (req_method req) (status_str (status resp)) 4 in
          early resp
      end
  end.

(** The servers of a route that are healthy and whose circuit admits a request. *)
Definition available_servers (env : Env) (route : RouteConfig) : M (list string) :=
  let! hs := gets health_state in
  let healthy_servers :=
    match hs with
    | Some hs => filter (λ s, is_healthy hs s = true) (servers route)
    | None => servers route
    end in
  let! cb := gets circuit_breaker in
  match cb with
  | None => mret healthy_servers
  | Some cb =>
      let '(cb, kept) := filter_by_circuit_breaker cb (time env 3) healthy_servers in
      let! _ := modify (set_breaker (Some cb)) in
      mret kept
  end.

(** [self.load_balancers.entry(key).or_insert_with(..)] *)
Definition get_balancer (route : RouteConfig) : M string :=
  let key := route_lb_cache_key route in
  let! lbs := gets load_balancers in
  let! _ :=
    match lbs !! key with
    | Some _ => mret ()
    | None => modify (set_lbs (<[key := create_load_balancer (lb route) (weights route)]> lbs))
    end in
  mret key.

(** An update of the balancer behind a key that is present. *)
Definition upd_balancer (key : string) (f : DynLb → DynLb) : M () :=
  modify (λ s, set_lbs (alter f key (load_balancers s)) s).

Inductive UpstreamSelection :=
| SelCandidates (cs : list ProviderCandidate)
| SelServers (servers : list string) (start_idx : nat).

Definition pick_start (svc : ProxyService) (route : RouteConfig) (key : string) (srvs : list string)
    : M nat :=
  match lb route with
  | RoundRobinS =>
      let! c := gets counter in
      let! _ := modify (set_counter (wrap64 (c + 1))) in
      mret (Z.to_nat (c `mod` Z.of_nat (length srvs)))
  | _ =>
      let lb_key := (λ a, ip_to_string (ip a)) <$> peer_addr svc in
      let! lbs := gets load_balancers in
      match lbs !! key with
      | None => panic
      | Some d =>
          let '(d, i) := pick d srvs lb_key in
          let! _ := modify (set_lbs (<[key := d]> lbs)) in
          mret i
      end
  end.

Definition take_candidates (ctx : RequestContext) : RequestContext * option (list ProviderCandidate) :=
  let e := ctx_extensions ctx in
  (set_ctx_ext {| ext_retry_budget := ext_retry_budget e; ext_brownout := ext_brownout e;
                  ext_candidates := None; ext_timeout := ext_timeout e;
                  ext_plugins := ext_plugins e |} ctx,
   ext_candidates e).

Definition select_upstreams (env : Env) (svc : ProxyService) (method : Method) (path : string)
    (route : RouteConfig) (ctx : RequestContext) : M (RequestContext * string * UpstreamSelection) :=
  let! healthy_servers := available_servers env route in
  let ctx := set_ctx_route path ctx in
  let! (ctx, healthy_servers) := hook_select svc ctx healthy_servers in
  let! key := get_balancer route in
  let '(ctx, candidates) := take_candidates ctx in
  let route_servers := match ctx_selected_upstream ctx with
                       | Some forced => [forced]
                       | None => healthy_servers
                       end in
  match candidates with
  | Some (c :: cs) => mret (ctx, key, SelCandidates (c :: cs))
  | _ =>
      match route_servers with
      | [] => fail_with env method SERVICE_UNAVAILABLE "503 Service Unavailable" 4
      | _ =>
          let! start_idx := pick_start svc route key route_servers in
          mret (ctx, key, SelServers route_servers start_idx)
      end
  end.

(** ** The request that goes upstream *)

(** What the attempts of one request share. *)
Record Outgoing := {
  o_method : Method;
  o_path : string;
  o_version : Version;
  o_accept : option HeaderValue;
  o_cache_path : string;
  o_headers : HeaderMap;
  o_upstream_method : Method;
  o_upstream_pq : string;
  o_original_pq : string;
  o_lb : string;
  o_timeout : Duration;
}.

Definition prepare_headers (svc : ProxyService) (version : Version) (headers : HeaderMap)
    : M HeaderMap :=
  let original_host := get_str HOST headers in
  let headers := strip_hop_by_hop_if_needed headers version in
  let! headers :=
    match peer_addr svc with
    | None => mret headers
    | Some a =>
        match add_forwarding_headers headers a original_host (tls svc) with
        | Some h => mret h
        | None => panic
        end
    end in
  mret (hm_append "via" (via_header_value version) headers).

Definition natural_max_attempts (method : Method) (sel : UpstreamSelection) : nat :=
  match sel with
  | SelCandidates cs => length cs
  | SelServers srvs _ =>
      if is_idempotent method && Nat.ltb 1 (length srvs) then Nat.min 3 (length srvs) else 1
  end.

Definition uses_candidates (sel : UpstreamSelection) : bool :=
  match sel with SelCandidates _ => true | SelServers _ _ => false end.

(** The upstream and the headers of an attempt; [None] is an index out of range. *)
Definition attempt_target (o : Outgoing) (sel : UpstreamSelection) (attempt : nat)
    : option (string * HeaderMap) :=
  match sel with
  | SelCandidates cs => (λ c, (pc_upstream c, pc_headers c)) <$> cs !! attempt
  | SelServers srvs start_idx =>
      (λ u, (u, o_headers o)) <$> srvs !! ((start_idx + attempt) mod length srvs)%nat
  end.

(** The target of the single attempt: the picked server, by its index. *)
Definition single_target (o : Outgoing) (sel : UpstreamSelection) : option (string * HeaderMap) :=
  match sel with
  | SelCandidates cs => (λ c, (pc_upstream c, pc_headers c)) <$> cs !! 0
  | SelServers srvs start_idx => (λ u, (u, o_headers o)) <$> srvs !! start_idx
  end.

(** Sending one request: the balancer is told before and after,
    and other requests run while this one waits. *)
Definition send_upstream (env : Env) (o : Outgoing) (attempt : nat) (upstream : string) (req : Request)
    : M UpstreamResult :=
  let! _ := upd_balancer (o_lb o) (λ d, on_request_start d upstream) in
  let! _ := modify (interfere env attempt) in
  let! _ := upd_balancer (o_lb o) (λ d, on_request_end d upstream) in
  mret (client env attempt (o_timeout o) req).

(** The upstream request, or nothing when the host or the URI is malformed. *)
Definition build_request (method : Method) (upstream pq : string) (headers : HeaderMap) (body : Body)
    : option Request :=
  host_value ← hv_from_str (upstream_host upstream);
  uri ← parse_uri (upstream_uri upstream pq);
  Some {| req_method := method; req_uri := uri; req_version := HTTP_11;
          req_headers := hm_insert HOST host_value headers; req_body := body |}.

Definition breaker_success (env : Env) (t : nat) (upstream : string) : M () :=
  modify (λ s, set_breaker ((λ cb, record_success cb upstream (time env t)) <$> circuit_breaker s) s).

Definition breaker_failure (env : Env) (t : nat) (upstream : string) : M () :=
  modify (λ s, set_breaker ((λ cb, record_failure cb upstream (time env t)) <$> circuit_breaker s) s).

(** ** The response *)

Definition finalize_response (env : Env) (svc : ProxyService) (o : Outgoing) (resp : Response) (t : nat)
    : M Response :=
  let h := hm_append "via" (via_header_value (o_version o)) (resp_headers resp) in
  let h := hm_insert "x-cache" (hv_from_static "MISS") h in
  let h := add_alt_svc h (h3_port svc) in
  let! _ := svc_record_metrics env (o_method o) (status_str (status resp)) t in
  let resp := with_headers resp h in
  mret (if compression_enabled svc then maybe_compress_response (compressor env) (o_accept o) resp
        else resp).

Definition maybe_cache_response (env : Env) (o : Outgoing) (resp : Response) (t : nat) : M Response :=
  let! c := gets sh_cache in
  match c with
  | None => mret resp
  | Some rc =>
      if String.eqb (o_method o) GET || String.eqb (o_method o) HEAD then
        let key := cache_key (o_method o) (o_cache_path o) (resp_headers resp) (o_headers o) in
        match collect (resp_body resp) with
        | None => mret (error_response BAD_GATEWAY ("502 Bad Gateway" +:+ nl))
        | Some b =>
            let! _ := modify (set_sh_cache
              (Some (cache_put rc key (status resp) (resp_headers resp) b (now_at env t)))) in
            mret {| status := status resp; resp_headers := resp_headers resp; resp_body := full_body b |}
        end
      else mret resp
  end.

(** From an accepted answer to the client's response. *)
Definition deliver (env : Env) (svc : ProxyService) (o : Outgoing) (ctx : RequestContext)
    (upstream : string) (resp : Response) (t : nat) : M Response :=
  let! resp := finalize_response env svc o resp t in
  let! (ctx, resp) := hook_transform svc ctx resp in
  let! ctx := hook_response env svc ctx resp upstream t in
  let! resp := hook_wrap env svc ctx resp upstream t in
  maybe_cache_response env o resp t.

(** ** Attempts *)

Inductive Turn :=
| Finished (r : Response)
| RetryNext (reason : RetryMetricReason) (resp : option Response).

Definition malformed {A} (env : Env) (o : Outgoing) (sel : UpstreamSelection) : M A :=
  let! _ := svc_record_retry_exhaustion (retry_metric_mode (uses_candidates sel)) MalformedUpstream in
  bad_gateway env (o_method o) 4.

(** The exhaustion metric of an answer that is not retried. *)
Definition note_exhaustion (sel : UpstreamSelection) (st : StatusCode) (should_retry : bool) : M () :=
  let mode := retry_metric_mode (uses_candidates sel) in
  if should_retry then
    svc_record_retry_exhaustion mode (retry_metric_reason_for_status st (uses_candidates sel))
  else if uses_candidates sel && negb (is_success st) then svc_record_retry_exhaustion mode NonRetryable
  else match status_error st (uses_candidates sel) with
       | Some _ => svc_record_retry_exhaustion mode NonRetryable
       | None => mret ()
       end.

Definition notify_status (svc : ProxyService) (sel : UpstreamSelection) (ctx : RequestContext)
    (st : StatusCode) : M RequestContext :=
  match status_error st (uses_candidates sel) with
  | Some e => hook_error svc ctx e
  | None => mret ctx
  end.

(** An answer in the retry loop. *)
Definition on_answer (env : Env) (svc : ProxyService) (o : Outgoing) (sel : UpstreamSelection)
    (max attempt : nat) (ctx : RequestContext) (upstream : string) (resp : Response) (t : nat)
    : M (RequestContext * Turn) :=
  let st := status resp in
  let! ctx := notify_status svc sel ctx st in
  let should_retry := if uses_candidates sel then is_provider_retryable_status st
                      else is_retryable_status st in
  let retry_reason := retry_metric_reason_for_status st (uses_candidates sel) in
  if should_retry && Nat.ltb (attempt + 1) max then
    let! _ := match status_error st (uses_candidates sel) with
              | Some _ => breaker_failure env t upstream
              | None => mret ()
              end in
    mret (ctx, RetryNext retry_reason (Some resp))
  else
    let! _ := note_exhaustion sel st should_retry in
    let! _ := if is_success st then breaker_success env t upstream else mret () in
    let! r := deliver env svc o ctx upstream resp t in
    mret (ctx, Finished r).

Definition on_failure (env : Env) (svc : ProxyService) (o : Outgoing) (sel : UpstreamSelection)
    (max attempt : nat) (ctx : RequestContext) (upstream e : string) (t : nat)
    : M (RequestContext * Turn) :=
  let! _ := breaker_failure env t upstream in
  let! ctx := hook_error svc ctx (UpstreamError e) in
  if Nat.ltb (attempt + 1) max then mret (ctx, RetryNext ConnectionError None)
  else
    let! _ := svc_record_retry_exhaustion (retry_metric_mode (uses_candidates sel)) ConnectionError in
    bad_gateway env (o_method o) t.

Definition on_timeout (env : Env) (svc : ProxyService) (o : Outgoing) (sel : UpstreamSelection)
    (max attempt : nat) (ctx : RequestContext) (t : nat) : M (RequestContext * Turn) :=
  let! ctx := hook_error svc ctx Timeout in
  if uses_candidates sel && Nat.ltb (attempt + 1) max then mret (ctx, RetryNext RTimeout None)
  else
    let! _ := svc_record_retry_exhaustion (retry_metric_mode (uses_candidates sel)) RTimeout in
    fail_with env (o_method o) GATEWAY_TIMEOUT "504 Gateway Timeout" t.

(** The clock points of an attempt. *)
Definition attempt_time (attempt : nat) : nat := (10 + attempt)%nat.

(** One turn of the retry loop, from choosing the upstream to its outcome. *)
Definition attempt_turn (env : Env) (svc : ProxyService) (o : Outgoing) (sel : UpstreamSelection)
    (buffered_body : string) (max attempt : nat) (ctx : RequestContext) : M (RequestContext * Turn) :=
  match attempt_target o sel attempt with
  | None => panic
  | Some (upstream, headers) =>
      let ctx := set_ctx_upstream upstream ctx in
      match build_request (o_upstream_method o) upstream (o_upstream_pq o) headers
              (full_body buffered_body) with
      | None => malformed env o sel
      | Some req =>
          let! result := send_upstream env o attempt upstream req in
          match result with
          | Answered resp =>
              on_answer env svc o sel max attempt ctx upstream resp (attempt_time attempt)
          | Failed e => on_failure env svc o sel max attempt ctx upstream e (attempt_time attempt)
          | TimedOut => on_timeout env svc o sel max attempt ctx (attempt_time attempt)
          end
      end
  end.

(** [budget.try_consume_attempt()] on the context's budget, if it is there. *)
Definition consume_budget (ctx : RequestContext) : RequestContext * bool :=
  let e := ctx_extensions ctx in
  match ext_retry_budget e with
  | None => (ctx, false)
  | Some n =>
      let '(n, ok) := try_consume_attempt n in
      (set_ctx_ext {| ext_retry_budget := Some n; ext_brownout := ext_brownout e;
                      ext_candidates := ext_candidates e; ext_timeout := ext_timeout e;
                  ext_plugins := ext_plugins e |} ctx, ok)
  end.

(** After the loop: the last retryable answer, or a 502. *)
Definition retries_exhausted (env : Env) (svc : ProxyService) (o : Outgoing) (last : option Response)
    : M Response :=
  match last with
  | Some resp =>
      let h := hm_append "via" (via_header_value (o_version o)) (resp_headers resp) in
      let h := add_alt_svc h (h3_port svc) in
      let! _ := svc_record_metrics env (o_method o) (status_str (status resp)) 4 in
      mret (with_headers resp h)
  | None => bad_gateway env (o_method o) 4
  end.

(** The retry loop; [left] attempts remain of [max]. *)
Fixpoint attempts (env : Env) (svc : ProxyService) (o : Outgoing) (sel : UpstreamSelection)
    (buffered_body : string) (max left attempt : nat) (ctx : RequestContext)
    (last_reason : option RetryMetricReason) (last : option Response) : M Response :=
  let mode := retry_metric_mode (uses_candidates sel) in
  match left with
  | O => retries_exhausted env svc o last
  | S left' =>
      let '(ctx, ok) := if Nat.ltb 0 attempt then consume_budget ctx else (ctx, true) in
      if negb ok then
        let! _ := match last_reason with
                  | Some r => svc_record_retry_exhaustion mode r
                  | None => mret ()
                  end in
        retries_exhausted env svc o last
      else
        let! _ := if Nat.ltb 0 attempt
                  then match last_reason with
                       | Some r => svc_record_retry_attempt mode r
                       | None => mret ()
                       end
                  else mret () in
        let! (ctx, turn) := attempt_turn env svc o sel buffered_body max attempt ctx in
        match turn with
        | Finished r => mret r
        | RetryNext reason resp =>
            attempts env svc o sel buffered_body max left' (S attempt) ctx (Some reason)
              (match resp with Some r => Some r | None => last end)
        end
  end.

(** The single attempt, which streams the body. *)
Definition single_attempt (env : Env) (svc : ProxyService) (o : Outgoing) (sel : UpstreamSelection)
    (req_method : Method) (body : Body) (ctx : RequestContext) : M Response :=
  let mode := retry_metric_mode (uses_candidates sel) in
  match single_target o sel with
  | None => panic
  | Some (upstream, headers) =>
      let ctx := set_ctx_upstream upstream ctx in
      match build_request req_method upstream (o_original_pq o) headers body with
      | None => malformed env o sel
      | Some req =>
          let! result := send_upstream env o 0 upstream req in
          let t := attempt_time 0 in
          match result with
          | Answered resp =>
              let st := status resp in
              let! ctx := notify_status svc sel ctx st in
              let! _ :=
                if is_success st then breaker_success env t upstream
                else match status_error st (uses_candidates sel) with
                     | Some _ =>
                         let! _ := svc_record_retry_exhaustion mode
                           (retry_metric_reason_for_status st (uses_candidates sel)) in
                         breaker_failure env t upstream
                     | None =>
                         if uses_candidates sel && negb (is_success st)
                         then svc_record_retry_exhaustion mode NonRetryable else mret ()
                     end in
              deliver env svc o ctx upstream resp t
          | Failed e =>
              let! _ := breaker_failure env t upstream in
              let! ctx := hook_error svc ctx (UpstreamError e) in
              let! _ := svc_record_retry_exhaustion mode ConnectionError in
              bad_gateway env (o_method o) t
          | TimedOut =>
              let! ctx := hook_error svc ctx Timeout in
              let! _ := svc_record_retry_exhaustion mode RTimeout in
              fail_with env (o_method o) GATEWAY_TIMEOUT "504 Gateway Timeout" t
          end
      end
  end.

(** ** The handler *)

(** Everything behind admission control. *)
Definition handle_admitted (env : Env) (svc : ProxyService) (req : Request) (inflight_now : option Z)
    : M Response :=
  let method := req_method req in
  let path := uri_path (req_uri req) in
  let cache_key_path := default path (path_and_query (req_uri req)) in
  let accept_encoding := hm_get "accept-encoding" (req_headers req) in
  let! _ := check_admission env svc method inflight_now in
  let! _ := check_limits env svc req in
  let! (req, plugin_body) := buffer_body env svc req in
  let! ctx := hook_request svc (initial_ctx svc req plugin_body inflight_now) in
  let upstream_pq := default cache_key_path (path_and_query (ctx_uri ctx)) in
  let upstream_method := ctx_method ctx in
  let effective_timeout := default (upstream_timeout svc) (ext_timeout (ctx_extensions ctx)) in
  let! route := route_lookup env svc method path in
  let! _ := serve_from_cache env svc req cache_key_path in
  let! (ctx, key, sel) := select_upstreams env svc method path route ctx in
  let headers := if has_plugins svc then ctx_headers ctx else req_headers req in
  let body := match ctx_body ctx with Some b => full_body b | None => req_body req end in
  let ctx := set_ctx_body None ctx in
  let! headers := prepare_headers svc (req_version req) headers in
  let o := {| o_method := method; o_path := path; o_version := req_version req;
              o_accept := accept_encoding; o_cache_path := cache_key_path; o_headers := headers;
              o_upstream_method := upstream_method; o_upstream_pq := upstream_pq;
              o_original_pq := default "/" (path_and_query (req_uri req)); o_lb := key;
              o_timeout := effective_timeout |} in
  let max := natural_max_attempts method sel in
  if uses_candidates sel || Nat.ltb 1 max then
    let! buffered := collect_or_fail env svc method body in
    attempts env svc o sel buffered max max 0 ctx None None
  else single_attempt env svc o sel (req_method req) body ctx.

(** An early return is the response; only a panic has none. *)
Definition response_of (r : result Exit Response) : option Response :=
  match r with
  | Ok resp => Some resp
  | Err (Early resp) => Some resp
  | Err Panic => None
  end.

(** [handle_boxed]: the probes first, then the request under its in-flight
    guard, which is released on every way out. *)
Definition handle_boxed (env : Env) (svc : ProxyService) (req : Request) (s : Shared)
    : Shared * option Response :=
  match probe_endpoints env req s with
  | (s, Err e) => (s, response_of (Err e))
  | (s, Ok _) =>
      match enter_inflight svc s with
      | (s, Err e) => (s, response_of (Err e))
      | (s, Ok inflight_now) =>
          let '(s, r) := handle_admitted env svc req inflight_now s in
          (leave_inflight svc s, response_of r)
      end
  end.

(** ** WebSockets *)

Definition SWITCHING_PROTOCOLS : StatusCode := 101%Z.

(** [handle_websocket_upgrade]; [None] is the panic of the forwarding headers. *)
Definition handle_websocket_upgrade (env : Env) (req : Request) (upstream : string)
    (peer : option SocketAddr) (is_tls : bool) : option Response :=
  let bad := error_response BAD_GATEWAY ("502 Bad Gateway" +:+ nl) in
  let original_host := get_str HOST (req_headers req) in
  let headers := strip_hop_by_hop_headers_for_upgrade (req_headers req) in
  headers ← match peer with
            | None => Some headers
            | Some a => add_forwarding_headers headers a original_host is_tls
            end;
  let headers := hm_append "via" (via_header_value HTTP_11) headers in
  let pq := default "/" (path_and_query (req_uri req)) in
  Some
  (match parse_websocket_upstream_target upstream with
   | Err _ => bad
   | Ok target =>
       match hv_from_str (host_header target), parse_uri pq with
       | Some host_value, Some uri =>
           let up := {| req_method := req_method req; req_uri := uri; req_version := HTTP_11;
                        req_headers := hm_insert HOST host_value headers; req_body := req_body req |} in
           match ws_connect env target up with
           | WsConnectError => bad
           | outcome =>
               if use_tls target && negb (bool_decide (is_Some (parse_ip (server_name target))))
                  && negb (tls_name_ok env (server_name target))
               then bad
               else match outcome with
                    | WsTimeout => error_response GATEWAY_TIMEOUT ("504 Gateway Timeout" +:+ nl)
                    | WsAnswered resp =>
                        with_headers resp
                          (hm_append "via" (via_header_value HTTP_11) (resp_headers resp))
                    | _ => bad
                    end
           end
       | _, _ => bad
       end
   end).

Definition handle_websocket (env : Env) (svc : ProxyService) (req : Request) : M Response :=
  let method := req_method req in
  let path := uri_path (req_uri req) in
  match router svc path with
  | None => early (error_response 404%Z ("404 Not Found" +:+ nl))
  | Some route =>
      let! healthy_servers := available_servers env route in
      match healthy_servers with
      | [] => early (error_response SERVICE_UNAVAILABLE ("503 Service Unavailable" +:+ nl))
      | _ =>
          let! c := gets counter in
          let! _ := modify (set_counter (wrap64 (c + 1))) in
          match healthy_servers !! Z.to_nat (c `mod` Z.of_nat (length healthy_servers)) with
          | None => panic
          | Some upstream =>
              match handle_websocket_upgrade env req upstream (peer_addr svc) (tls svc) with
              | None => panic
              | Some resp =>
                  let! _ := svc_record_metrics env method (status_str (status resp)) 4 in
                  mret resp
              end
          end
      end
  end.

(** [handle]: WebSocket upgrades first. *)
Definition handle (env : Env) (svc : ProxyService) (req : Request) (s : Shared)
    : Shared * option Response :=
  if is_websocket_upgrade (req_headers req) then
    let '(s, r) := handle_websocket env svc req s in (s, response_of r)
  else handle_boxed env svc req s.

End proxy.
