(* ===== verification/ProxyProps.v ===== *)
(** * Properties of the proxy handler

    The handler always produces a response and gives its in-flight slot back;
    admission bounds the requests in service; retries are bounded, go to
    distinct servers and reach a working one; what is sent upstream is
    sanitised; and the behaviours of the whole handler that its parts lead to. *)

From S2P Require Import Prelude RustStr Net Http ConfigTypes F64 Metrics Health RateLimit.
From S2P Require Import CircuitBreaker LoadBalancer Cache Compression Runtime Plugin Middleware.
From S2P Require Import ProxyHeaders Proxy.

Local Open Scope string_scope.
Local Open Scope list_scope.

(** ** Invariants of the shared state *)

Section invariants.
Context `{HO : HttpOk} `{Lru} `{PluginTypes} `{SipHasher}.

(** A predicate on the shared state that the handler's own updates, and the
    interference of an environment, preserve. *)
Record handler_inv (env : Env) (I : Shared → Prop) : Prop := {
  hi_counter v s : I s → I (set_counter v s);
  hi_limiter v s : I s → I (set_limiter v s);
  hi_metrics v s : I s → I (set_metrics v s);
  hi_breaker v s : I s → I (set_breaker v s);
  hi_cache v s : I s → I (set_sh_cache v s);
  hi_plugin v s : I s → I (set_plugin_state v s);
  hi_lbs f s : I s →
    (map_Forall (λ _ d, dyn_wf d) (load_balancers s) → map_Forall (λ _ d, dyn_wf d) f) →
    I (set_lbs f s);
  hi_wf s : I s → map_Forall (λ _ d, dyn_wf d) (load_balancers s);
  hi_interfere i s : I s → I (interfere env i s);
}.

(** [m] keeps the invariant, does not panic, and its result satisfies [Q]. *)
Definition ok {A} (I : Shared → Prop) (m : M A) (Q : A → Prop) : Prop :=
  ∀ s, I s → I (m s).1 ∧
    match (m s).2 with
    | Ok a => Q a
    | Err (Early _) => True
    | Err Panic => False
    end.

Context (env : Env) (I : Shared → Prop) (HI : handler_inv env I).

Lemma ok_ret {A} (a : A) (Q : A → Prop) : Q a → ok I (mret a) Q.
Proof. by intros HQ s Hs. Qed.

Lemma ok_early {A} r (Q : A → Prop) : ok I (early r) Q.
Proof. by intros s Hs. Qed.

Lemma ok_gets {A} (f : Shared → A) (Q : A → Prop) : (∀ s, I s → Q (f s)) → ok I (gets f) Q.
Proof. intros HQ s Hs. simpl. auto. Qed.

Lemma ok_modify f (Q : () → Prop) : (∀ s, I s → I (f s)) → Q () → ok I (modify f) Q.
Proof. intros Hf HQ s Hs. simpl. auto. Qed.

Lemma ok_bind {A B} (m : M A) (k : A → M B) Q R :
  ok I m Q → (∀ a, Q a → ok I (k a) R) → ok I (mbind_ m k) R.
Proof.
  intros Hm Hk s Hs. unfold mbind_. destruct (Hm s Hs) as [Hi Hr].
  destruct (m s) as [s' [a|e]]; simpl in *; [by apply Hk|]. done.
Qed.

Lemma ok_weaken {A} (m : M A) (Q R : A → Prop) : ok I m Q → (∀ a, Q a → R a) → ok I m R.
Proof.
  intros Hm HQR s Hs. destruct (Hm s Hs) as [Hi Hr]. split; [done|].
  by destruct (m s).2 as [a|[|]]; auto.
Qed.

Notation okT m := (ok I m (λ _, True)).

(** Steps through binds, matches and the basic actions. *)
Ltac ok_step :=
  match goal with
  | |- ok _ (mbind_ _ _) _ => apply (ok_bind _ _ (λ _, True)); [|intros ? _]
  | |- ok _ (mret _) _ => by apply ok_ret
  | |- ok _ (early _) _ => apply ok_early
  | |- ok _ (gets _) _ => by apply ok_gets
  | |- ok _ (respond_or ?a _) _ => destruct a; simpl
  | |- ok _ (match ?x with _ => _ end) _ => destruct x eqn:?
  | |- ok _ (let '(_, _) := ?x in _) _ => destruct x eqn:?
  end.

Lemma ok_upd_metrics f : okT (upd_metrics f).
Proof. apply ok_modify; [|done]. intros. by apply (hi_metrics _ _ HI). Qed.

Lemma ok_set_breaker f : okT (modify (λ s, set_breaker (f s) s)).
Proof. apply ok_modify; [|done]. intros. by apply (hi_breaker _ _ HI). Qed.

Lemma ok_set_plugin v : okT (modify (set_plugin_state v)).
Proof. apply ok_modify; [|done]. intros. by apply (hi_plugin _ _ HI). Qed.

Lemma ok_set_cache v : okT (modify (set_sh_cache v)).
Proof. apply ok_modify; [|done]. intros. by apply (hi_cache _ _ HI). Qed.

Lemma ok_upd_balancer key f :
  (∀ d, dyn_wf d → dyn_wf (f d)) → okT (upd_balancer key f).
Proof.
  intros Hf. apply ok_modify; [|done]. intros s Hs. apply (hi_lbs _ _ HI); [done|].
  intros Hwf k d. destruct (decide (k = key)) as [->|Hne].
  - rewrite lookup_alter_eq. intros (d' & Hd' & ->)%fmap_Some. apply Hf. by eapply Hwf.
  - rewrite lookup_alter_ne by done. apply Hwf.
Qed.

Lemma ok_fail {A} env' method code msg t (Q : A → Prop) : ok I (fail_with env' method code msg t) Q.
Proof.
  unfold fail_with, svc_record_metrics. eapply ok_bind; [apply ok_upd_metrics|]. intros. apply ok_early.
Qed.

Hint Resolve ok_upd_metrics ok_set_breaker ok_set_plugin ok_set_cache ok_fail : core.

Ltac ok_auto := repeat (first [progress eauto | ok_step]).

Lemma ok_check_admission svc method n : okT (check_admission env svc method n).
Proof. unfold check_admission. ok_auto. Qed.

Lemma ok_check_limits svc req : okT (check_limits env svc req).
Proof.
  unfold check_limits. ok_auto. apply ok_modify; [|done]. intros.
  apply (hi_limiter _ _ HI). by apply (hi_metrics _ _ HI).
Qed.

Lemma ok_collect svc method body : okT (collect_or_fail env svc method body).
Proof. unfold collect_or_fail, bad_gateway. ok_auto. Qed.

Hint Resolve ok_check_admission ok_check_limits ok_collect : core.

Lemma ok_buffer_body svc req : okT (buffer_body env svc req).
Proof. unfold buffer_body. ok_auto. Qed.

Lemma ok_hook_request svc ctx : okT (hook_request svc ctx).
Proof. unfold hook_request. ok_auto. Qed.

Lemma ok_hook_select svc ctx l : okT (hook_select svc ctx l).
Proof. unfold hook_select. ok_auto. Qed.

Lemma ok_hook_error svc ctx e : okT (hook_error svc ctx e).
Proof. unfold hook_error. ok_auto. Qed.

Lemma ok_hook_transform svc ctx r : okT (hook_transform svc ctx r).
Proof. unfold hook_transform. ok_auto. Qed.

Lemma ok_hook_response svc ctx r u t : okT (hook_response env svc ctx r u t).
Proof. unfold hook_response. ok_auto. Qed.

Lemma ok_hook_wrap svc ctx r u t : okT (hook_wrap env svc ctx r u t).
Proof. unfold hook_wrap. ok_auto. Qed.

Lemma ok_route svc method path : okT (route_lookup env svc method path).
Proof. unfold route_lookup. ok_auto. Qed.

Lemma ok_serve_from_cache svc req p : okT (serve_from_cache env svc req p).
Proof. unfold serve_from_cache, svc_record_metrics. ok_auto. Qed.

Lemma ok_available route : okT (available_servers env route).
Proof. unfold available_servers. ok_auto. Qed.

Hint Resolve ok_buffer_body ok_hook_request ok_hook_select ok_hook_error ok_hook_transform
  ok_hook_response ok_hook_wrap ok_route ok_serve_from_cache ok_available : core.

(** A selection whose indices are in range. *)
Definition sel_ok (sel : UpstreamSelection) : Prop :=
  match sel with
  | SelCandidates cs => cs ≠ []
  | SelServers srvs start_idx => (start_idx < length srvs)%nat
  end.

Lemma mbind_ok {A B} (m : M A) (k : A → M B) s s' a : m s = (s', Ok a) → mbind_ m k s = k a s'.
Proof. unfold mbind_. by intros ->. Qed.

(** The balancer is there when it is asked, ... *)
Lemma get_balancer_spec route s :
  I s → ∃ s1 d, get_balancer route s = (s1, Ok (route_lb_cache_key route)) ∧ I s1 ∧
    load_balancers s1 !! route_lb_cache_key route = Some d ∧ dyn_wf d.
Proof.
  intros Hs. unfold get_balancer, mbind_, gets.
  destruct (load_balancers s !! route_lb_cache_key route) as [d|] eqn:E; simpl.
  - exists s, d. split_and!; try done. by eapply (hi_wf _ _ HI).
  - eexists _, _. split; [done|]. split; [|split; [apply lookup_insert_eq|apply create_load_balancer_wf]].
    apply (hi_lbs _ _ HI); [done|]. intros Hwf.
    apply map_Forall_insert_2; [apply create_load_balancer_wf|done].
Qed.

(** ... and its pick is in range. *)
Lemma pick_start_spec svc route key srvs s d :
  I s → srvs ≠ [] → load_balancers s !! key = Some d → dyn_wf d →
  ∃ s1 i, pick_start svc route key srvs s = (s1, Ok i) ∧ I s1 ∧ (i < length srvs)%nat.
Proof.
  intros Hs Hne Hd Hdw. unfold pick_start.
  pose proof (pick_bounds (T:=DynLb) d srvs ((λ a, ip_to_string (ip a)) <$> peer_addr svc) Hdw Hne) as Hb.
  pose proof (pick_wf (T:=DynLb) d srvs ((λ a, ip_to_string (ip a)) <$> peer_addr svc) Hdw) as Hpw.
  destruct (lb route); unfold mbind_, gets, modify, mret; simpl.
  { eexists _, _. split; [done|]. split; [by apply (hi_counter _ _ HI)|].
    by apply Zmod_nat_bound, length_pos_iff. }
  all: rewrite Hd; simpl in *; destruct (dyn_pick d srvs _) as [d' i]; simpl in *.
  all: eexists _, _; split; [done|]; split; [|done].
  all: apply (hi_lbs _ _ HI); [done|]; intros Hwf; by apply map_Forall_insert_2.
Qed.

Lemma ok_pick svc route srvs {B} (k : string → nat → M B) R :
  srvs ≠ [] → (∀ key i, (i < length srvs)%nat → ok I (k key i) R) →
  ok I (mbind_ (get_balancer route) (λ key, mbind_ (pick_start svc route key srvs) (k key))) R.
Proof.
  intros Hne Hk s Hs.
  destruct (get_balancer_spec route s Hs) as (s1 & d & Hg & Hs1 & Hd & Hdw).
  rewrite (mbind_ok _ _ _ _ _ Hg).
  destruct (pick_start_spec svc route _ srvs s1 d Hs1 Hne Hd Hdw) as (s2 & i & Hp & Hs2 & Hi).
  rewrite (mbind_ok _ _ _ _ _ Hp). by apply Hk.
Qed.

Lemma ok_select svc method path route ctx :
  ok I (select_upstreams env svc method path route ctx) (λ r, sel_ok r.2).
Proof.
  unfold select_upstreams. ok_step; [done|]. ok_step; [done|]. destruct a0 as [ctx' hs].
  assert (ok I (get_balancer route) (λ _, True)) as Hgb.
  { intros s Hs. by destruct (get_balancer_spec route s Hs) as (s1 & d & -> & Hs1 & _). }
  set (ctx2 := (take_candidates ctx').1).
  destruct (ext_candidates (ctx_extensions ctx')) as [[|c cs]|] eqn:Hc; simpl; rewrite ?Hc.
  2: { apply (ok_bind _ _ (λ _, True)); [done|]. intros key _. by apply ok_ret. }
  all: destruct (match ctx_selected_upstream ctx' with Some f => [f] | None => hs end) as [|x l] eqn:Hl;
    [apply (ok_bind _ _ (λ _, True)); [done|]; intros; apply ok_fail|].
  all: apply (ok_pick svc route (x :: l)
         (λ key i, mret (set_ctx_ext _ ctx', key, SelServers (x :: l) i))); [done|].
  all: intros key i Hi; by apply ok_ret.
Qed.

Lemma ok_prepare svc v h : okT (prepare_headers svc v h).
Proof.
  unfold prepare_headers. ok_step; [|by apply ok_ret].
  destruct (peer_addr svc) as [a|]; [|by apply ok_ret].
  assert (∀ h' host, is_Some (add_forwarding_headers h' a host (tls svc))) as Hf.
  { intros h' host. unfold add_forwarding_headers.
    destruct (hv_from_str_visible _ (xff_visible h' (ip a))) as [xff ->]. by eexists. }
  destruct (Hf (strip_hop_by_hop_if_needed h v) (get_str HOST h)) as [h' ->]. by apply ok_ret.
Qed.

Lemma ok_send o attempt u req : okT (send_upstream env o attempt u req).
Proof.
  unfold send_upstream.
  apply (ok_bind _ _ (λ _, True)); [apply ok_upd_balancer; intros d Hd;
    by apply (start_wf (T:=DynLb) (wf:=dyn_wf))|intros _ _].
  apply (ok_bind _ _ (λ _, True)); [apply ok_modify; [|done]; intros s Hs;
    by apply (hi_interfere _ _ HI)|intros _ _].
  apply (ok_bind _ _ (λ _, True)); [apply ok_upd_balancer; intros d Hd;
    by apply (end_wf (T:=DynLb) (wf:=dyn_wf))|intros _ _].
  by apply ok_ret.
Qed.

Lemma ok_breaker_success t u : okT (breaker_success env t u).
Proof. apply ok_set_breaker. Qed.

Lemma ok_breaker_failure t u : okT (breaker_failure env t u).
Proof. apply ok_set_breaker. Qed.

Lemma ok_maybe_cache o r t : okT (maybe_cache_response env o r t).
Proof. unfold maybe_cache_response. ok_auto. Qed.

Lemma ok_deliver svc o ctx u r t : okT (deliver env svc o ctx u r t).
Proof.
  unfold deliver, finalize_response, svc_record_metrics.
  repeat first [apply ok_maybe_cache | progress eauto | ok_step].
Qed.

Hint Resolve ok_prepare ok_send ok_breaker_success ok_breaker_failure ok_deliver : core.

Lemma ok_exhausted svc o last : okT (retries_exhausted env svc o last).
Proof. unfold retries_exhausted, svc_record_metrics, bad_gateway. ok_auto. Qed.

Lemma ok_note_exhaustion sel st b : okT (note_exhaustion sel st b).
Proof. unfold note_exhaustion, svc_record_retry_exhaustion. ok_auto. Qed.

Lemma ok_notify svc sel ctx st : okT (notify_status svc sel ctx st).
Proof. unfold notify_status. ok_auto. Qed.

Lemma ok_malformed {A} o sel : ok I (malformed env o sel) (λ _ : A, True).
Proof. unfold malformed, svc_record_retry_exhaustion, bad_gateway. ok_auto. Qed.

Hint Resolve ok_exhausted ok_note_exhaustion ok_notify ok_malformed : core.

Lemma ok_outcomes svc o sel max attempt ctx u r e t :
  okT (on_answer env svc o sel max attempt ctx u r t) ∧
  okT (on_failure env svc o sel max attempt ctx u e t) ∧
  okT (on_timeout env svc o sel max attempt ctx t).
Proof.
  unfold on_answer, on_failure, on_timeout, svc_record_retry_exhaustion, bad_gateway.
  split_and!; ok_auto.
Qed.

Lemma attempt_target_Some o sel attempt :
  sel_ok sel → (attempt < match sel with SelCandidates cs => length cs | SelServers srvs _ => S attempt end)%nat →
  is_Some (attempt_target o sel attempt).
Proof.
  destruct sel as [cs|srvs st]; simpl; intros Hs Ha.
  - apply fmap_is_Some, lookup_lt_is_Some. lia.
  - apply fmap_is_Some, lookup_lt_is_Some. apply Nat.mod_upper_bound. lia.
Qed.

Lemma ok_attempt_turn svc o sel b max attempt ctx :
  is_Some (attempt_target o sel attempt) →
  okT (attempt_turn env svc o sel b max attempt ctx).
Proof.
  intros [[u h] Ht]. unfold attempt_turn. rewrite Ht. simpl.
  destruct (build_request _ _ _ _ _) as [req|]; [|done]. ok_step; [done|].
  pose proof (λ r e, ok_outcomes svc o sel max attempt (set_ctx_upstream u ctx) u r e
                (attempt_time attempt)) as Ho.
  destruct a as [r|e|].
  - apply (Ho r "").
  - apply (Ho (error_response 0%Z "") e).
  - apply (Ho (error_response 0%Z "") "").
Qed.

(** The selection is in range for every attempt the loop makes. *)
Definition attempts_in_range (sel : UpstreamSelection) (n : nat) : Prop :=
  sel_ok sel ∧ match sel with SelCandidates cs => (n ≤ length cs)%nat | SelServers _ _ => True end.

Lemma ok_attempts svc o sel b max : ∀ left attempt ctx lr last,
  attempts_in_range sel (attempt + left) →
  okT (attempts env svc o sel b max left attempt ctx lr last).
Proof.
  induction left as [|left IH]; intros attempt ctx lr last Hr; cbn [attempts]; [done|].
  destruct (if Nat.ltb 0 attempt then consume_budget ctx else (ctx, true)) as [ctx' good].
  destruct good; cbn [negb].
  - ok_step; [unfold svc_record_retry_attempt; ok_auto|].
    ok_step.
    { apply ok_attempt_turn, attempt_target_Some; [apply Hr|].
      destruct Hr as [_ Hr]. destruct sel; simpl in *; lia. }
    destruct a0 as [ctx'' [r|reason r]]; [by apply ok_ret|]. apply IH.
    destruct Hr as [Hs Hr]. split; [done|]. destruct sel; [lia|done].
  - unfold svc_record_retry_exhaustion. ok_auto.
Qed.

Lemma ok_single svc o sel m b ctx : sel_ok sel → okT (single_attempt env svc o sel m b ctx).
Proof.
  intros Hs. unfold single_attempt, svc_record_retry_exhaustion, bad_gateway.
  assert (is_Some (single_target o sel)) as [[u h] ->].
  { destruct sel as [[|c cs]|srvs st]; simpl in *; [done|by eexists|].
    by apply fmap_is_Some, lookup_lt_is_Some. }
  ok_auto.
Qed.

Lemma ok_handle_admitted svc req n : okT (handle_admitted env svc req n).
Proof.
  unfold handle_admitted.
  do 2 (ok_step; [done|]). ok_step; [done|]. destruct a1 as [req' pb].
  ok_step; [done|]. ok_step; [done|]. ok_step; [done|].
  eapply ok_bind; [apply ok_select|]. intros [[ctx key] sel] Hsel. simpl in Hsel.
  ok_step; [done|]. destruct (uses_candidates sel || _) eqn:Hu.
  - ok_step; [done|]. apply ok_attempts. split; [done|]. by destruct sel.
  - by apply ok_single.
Qed.

Lemma ws_upgrade_Some req u peer is_tls : is_Some (handle_websocket_upgrade env req u peer is_tls).
Proof.
  unfold handle_websocket_upgrade. destruct peer as [a|]; [|by eexists].
  unfold add_forwarding_headers.
  destruct (hv_from_str_visible _ (xff_visible (strip_hop_by_hop_headers_for_upgrade (req_headers req)) (ip a)))
    as [xff ->]. by eexists.
Qed.

Lemma ok_websocket svc req : okT (handle_websocket env svc req).
Proof.
  unfold handle_websocket, svc_record_metrics.
  destruct (router svc _) as [route|]; [|apply ok_early].
  ok_step; [done|]. destruct a as [|x l]; [apply ok_early|].
  ok_step; [by apply ok_gets|]. ok_step.
  { apply ok_modify; [|done]. intros. by apply (hi_counter _ _ HI). }
  destruct (lookup_lt_is_Some_2 (x :: l) (Z.to_nat (a `mod` Z.of_nat (length (x :: l))))) as [u ->].
  { apply Zmod_nat_bound. simpl. lia. }
  destruct (ws_upgrade_Some req u (peer_addr svc) (tls svc)) as [resp ->]. ok_auto.
Qed.

End invariants.

(** ** The handler's own invariants *)

Section handler.
Context `{HO : HttpOk} `{Lru} `{PluginTypes} `{SipHasher}.

(** Every balancer in the map is well formed. *)
Definition shared_wf (s : Shared) : Prop := map_Forall (λ _ d, dyn_wf d) (load_balancers s).

Definition env_ok (env : Env) : Prop := ∀ i s, shared_wf s → shared_wf (interfere env i s).

Lemma shared_wf_inv env : env_ok env → handler_inv env shared_wf.
Proof.
  intros He. split; try done.
  intros f s Hw Hf. by apply Hf.
Qed.

Lemma inflight_inv env c :
  env_ok env → (∀ i s, inflight_requests (interfere env i s) = inflight_requests s) →
  handler_inv env (λ s, shared_wf s ∧ inflight_requests s = c).
Proof.
  intros He Hi. split; try (by intros v s [? ?]).
  - intros f s [Hw Hc] Hf. split; [by apply Hf|done].
  - intros s [? _]. done.
  - intros i s [Hw Hc]. split; [by apply He|by rewrite Hi].
Qed.

Lemma probe_endpoints_spec env req s :
  ∃ r, probe_endpoints env req s = (s, r) ∧ r ≠ Err Panic.
Proof.
  unfold probe_endpoints, mbind_, gets, early, mret. repeat case_match; simplify_eq; eauto.
Qed.

Lemma enter_inflight_spec svc s :
  ∃ s1, enter_inflight svc s =
    (s1, Ok ((λ n, n + 1)%Z <$> inflight_requests s)) ∧
    inflight_requests s1 = (λ n, wrap64 (n + 1)) <$> inflight_requests s ∧
    load_balancers s1 = load_balancers s ∧ health_state s1 = health_state s.
Proof.
  unfold enter_inflight, mbind_, gets, modify, upd_metrics, modify, mret.
  destruct (inflight_requests s) as [n|] eqn:E; [|by eexists].
  destruct (svc_brownout_inflight svc) as [limit|]; [|by eexists].
  destruct (limit <=? n + 1)%Z; [|by eexists]. destruct (n <? limit)%Z; by eexists.
Qed.

Lemma leave_inflight_inflight svc s :
  inflight_requests (leave_inflight svc s) = (λ n, wrap64 (n - 1)) <$> inflight_requests s.
Proof.
  unfold leave_inflight. destruct (inflight_requests s) as [n|] eqn:E; [|done].
  by repeat case_match.
Qed.

Lemma wrap64_succ_pred n : in_u64 n → wrap64 (wrap64 (n + 1) - 1) = n.
Proof.
  unfold in_u64, u64_max, wrap64. intros Hn. rewrite Zminus_mod_idemp_l.
  replace (n + 1 - 1)%Z with n by lia. apply Z.mod_small. lia.
Qed.

Lemma ok_no_panic {A} I (m : M A) s : ok I m (λ _, True) → I s → (m s).2 ≠ Err Panic ∧ I (m s).1.
Proof. intros Hm Hs. destruct (Hm s Hs) as [Hi Hr]. split; [|done]. by destruct (m s).2 as [|[]]. Qed.

Lemma response_of_Some (r : result Exit Response) : r ≠ Err Panic → is_Some (response_of r).
Proof. destruct r as [|[]]; [by eexists|by eexists|done]. Qed.

Lemma leave_inflight_wf svc s : shared_wf s → shared_wf (leave_inflight svc s).
Proof. unfold leave_inflight. by repeat case_match. Qed.

Lemma ok_handle_boxed env svc req s :
  env_ok env → shared_wf s →
  is_Some (handle_boxed env svc req s).2 ∧ shared_wf (handle_boxed env svc req s).1.
Proof.
  intros He Hs. unfold handle_boxed.
  destruct (probe_endpoints_spec env req s) as (r & -> & Hr).
  destruct r as [[]|[e|]]; [|by split; [eexists|]|done].
  destruct (enter_inflight_spec svc s) as (s1 & -> & _ & Hlb & Hhs).
  assert (shared_wf s1) as Hs1 by (unfold shared_wf; by rewrite Hlb).
  destruct (ok_no_panic shared_wf (handle_admitted env svc req ((λ n, n + 1)%Z <$> inflight_requests s)) s1)
    as [Hnp Hs2]; [by apply ok_handle_admitted, shared_wf_inv|done|].
  destruct (handle_admitted _ _ _ _ s1) as [s2 r]. simpl in *.
  split; [by apply (response_of_Some r)|by apply leave_inflight_wf].
Qed.

Lemma leave_inflight_health svc s : health_state (leave_inflight svc s) = health_state s.
Proof. unfold leave_inflight. by repeat case_match. Qed.

(** A request leaves the health state as the others leave it. *)
Lemma handle_health env svc req s :
  env_ok env → (∀ i s, health_state (interfere env i s) = health_state s) → shared_wf s →
  health_state (handle env svc req s).1 = health_state s.
Proof.
  intros He Hi Hs. set (J := λ x, shared_wf x ∧ health_state x = health_state s).
  assert (handler_inv env J) as HJ.
  { split; unfold J; try (by intros v x [? ?]).
    - intros f x [Hw Hc] Hf. split; [by apply Hf|done].
    - intros x [? _]. done.
    - intros i x [Hw Hc]. split; [by apply He|by rewrite Hi]. }
  unfold handle. destruct (is_websocket_upgrade _).
  - destruct (ok_websocket env J HJ svc req s) as [[_ Hx] _]; [done|].
    by destruct (handle_websocket env svc req s).
  - unfold handle_boxed. destruct (probe_endpoints_spec env req s) as (r & -> & _).
    destruct r as [[]|]; [|done].
    destruct (enter_inflight_spec svc s) as (s1 & -> & _ & Hlb & Hhs).
    destruct (ok_handle_admitted env J HJ svc req ((λ n, n + 1)%Z <$> inflight_requests s) s1)
      as [[_ Hx] _]; [split; [unfold shared_wf; by rewrite Hlb|done]|].
    destruct (handle_admitted _ _ _ _ s1) as [s2 r]. simpl in *. by rewrite leave_inflight_health.
Qed.

(** ** Admission as a transition system *)

(** Requests that hold a slot, each with whether it passed the hard limit.
    Other parts of the state may change at any time. *)
Inductive adm_step (env : Env) (svc : ProxyService) : Shared * list bool → Shared * list bool → Prop :=
| adm_enter s act s1 cur r method s2 :
    (Z.of_nat (length act) < u64_max)%Z →
    enter_inflight svc s = (s1, Ok cur) → check_admission env svc method cur s1 = (s2, r) →
    adm_step env svc (s, act) (s2, (match r with Ok _ => true | Err _ => false end) :: act)
| adm_leave s act1 b act2 :
    adm_step env svc (s, act1 ++ b :: act2) (leave_inflight svc s, act1 ++ act2)
| adm_other s act s' :
    inflight_requests s' = inflight_requests s → adm_step env svc (s, act) (s', act).

Definition admitted (act : list bool) : Z := Z.of_nat (length (filter (λ b : bool, b = true) act)).

Lemma admitted_le act : (admitted act ≤ Z.of_nat (length act))%Z.
Proof. unfold admitted. pose proof (length_filter (λ b : bool, b = true) act). lia. Qed.

Lemma admitted_remove act1 b act2 : (admitted (act1 ++ act2) ≤ admitted (act1 ++ b :: act2))%Z.
Proof.
  unfold admitted. rewrite !filter_app, filter_cons, !length_app. case_decide; simpl; lia.
Qed.

Definition adm_inv (limit : Z) (x : Shared * list bool) : Prop :=
  inflight_requests x.1 = Some (Z.of_nat (length x.2)) ∧
  (Z.of_nat (length x.2) ≤ u64_max)%Z ∧ (admitted x.2 ≤ limit)%Z.

Lemma check_admission_spec env svc method n limit s s2 r :
  svc_max_inflight svc = Some limit → check_admission env svc method (Some n) s = (s2, r) →
  inflight_requests s2 = inflight_requests s ∧
  match r with Ok _ => (n ≤ limit)%Z | Err _ => (limit < n)%Z end.
Proof.
  unfold check_admission. intros ->. destruct (Z.ltb_spec limit n).
  - intros [= <- <-]. done.
  - intros [= <- <-]. done.
Qed.

Lemma adm_inv_step env svc limit x y :
  svc_max_inflight svc = Some limit → adm_inv limit x → adm_step env svc x y → adm_inv limit y.
Proof.
  intros Hl (Hc & Hu & Ha) Hstep.
  destruct Hstep as [s act s1 cur r method s2 Hroom He Hadm|s act1 b act2|s act s' Hs]; simpl in *.
  - destruct (enter_inflight_spec svc s) as (s1' & He' & Hi & _). rewrite Hc in He', Hi. simpl in *.
    rewrite He in He'. injection He' as <- ->.
    apply (check_admission_spec _ _ _ _ limit) in Hadm as [Hi2 Hr]; [|done].
    unfold adm_inv. simpl. rewrite Hi2, Hi. rewrite wrap64_small by (unfold in_u64, u64_max in *; lia).
    split_and!; [f_equal; lia|lia|]. pose proof (admitted_le act). unfold admitted in *.
    rewrite filter_cons. destruct r; case_decide; try done; simpl; lia.
  - unfold adm_inv. simpl. rewrite leave_inflight_inflight, Hc. simpl.
    rewrite length_app in *. simpl in *.
    rewrite wrap64_small by (unfold in_u64, u64_max in *; lia).
    pose proof (admitted_remove act1 b act2). rewrite length_app.
    split_and!; [f_equal; lia|lia|lia].
  - unfold adm_inv. simpl. by rewrite Hs.
Qed.

End handler.

(** ** What the handler asks of the upstream client *)

Section calls.
Context `{HO : HttpOk} `{Lru} `{PluginTypes} `{SipHasher}.

(** The same environment with another upstream client. *)
Definition with_client (env : Env) (c : nat → Duration → Request → UpstreamResult) : Env :=
  {| time := time env; client := c; interfere := interfere env; compressor := compressor env;
     probe_json := probe_json env; tls_name_ok := tls_name_ok env; ws_connect := ws_connect env |}.

Lemma mbind_ext {A B} (m m' : M A) (k k' : A → M B) s :
  m s = m' s → (∀ a s', m s = (s', Ok a) → k a s' = k' a s') → mbind_ m k s = mbind_ m' k' s.
Proof. unfold mbind_. intros <- Hk. destruct (m s) as [s' [a|e]]; [by apply Hk|done]. Qed.

Lemma mbind_step {A B} (m : M A) (k : A → M B) s s' a : m s = (s', Ok a) → mbind_ m k s = k a s'.
Proof. unfold mbind_. by intros ->. Qed.

Lemma mbind_inv {A B} (m : M A) (k : A → M B) s s' b :
  mbind_ m k s = (s', Ok b) → ∃ a s1, m s = (s1, Ok a) ∧ k a s1 = (s', Ok b).
Proof. unfold mbind_. destruct (m s) as [s1 [a|e]]; [eauto|done]. Qed.

Context (env : Env) (c : nat → Duration → Request → UpstreamResult) (svc : ProxyService).
Context (Hpl : plugins svc = None).

Lemma attempt_turn_ext o sel b max attempt ctx s :
  (∀ u h req, attempt_target o sel attempt = Some (u, h) →
     build_request (o_upstream_method o) u (o_upstream_pq o) h (full_body b) = Some req →
     client env attempt (o_timeout o) req = c attempt (o_timeout o) req) →
  attempt_turn env svc o sel b max attempt ctx s =
  attempt_turn (with_client env c) svc o sel b max attempt ctx s.
Proof.
  intros Hc. unfold attempt_turn.
  destruct (attempt_target o sel attempt) as [[u h]|]; [|done].
  destruct (build_request _ _ _ _ _) as [req|] eqn:Hb; [|done].
  apply mbind_ext; [|done]. unfold send_upstream. by rewrite (Hc u h req eq_refl Hb).
Qed.

Lemma notify_no_plugins sel ctx st : notify_status svc sel ctx st = mret ctx.
Proof. unfold notify_status, hook_error. rewrite Hpl. by destruct (status_error _ _). Qed.

(** Without plugins a turn leaves the context's extensions alone. *)
Lemma attempt_turn_ctx e o sel b max attempt ctx s s' ctx' turn :
  attempt_turn e svc o sel b max attempt ctx s = (s', Ok (ctx', turn)) →
  ctx_extensions ctx' = ctx_extensions ctx.
Proof.
  unfold attempt_turn. destruct (attempt_target o sel attempt) as [[u h]|]; [|done].
  destruct (build_request _ _ _ _ _) as [req|]; [|done].
  intros (res & s1 & _ & Hk)%mbind_inv.
  destruct res as [r|err|];
    unfold on_answer, on_failure, on_timeout, bad_gateway, fail_with in Hk;
    rewrite ?notify_no_plugins in Hk; unfold hook_error in Hk; rewrite ?Hpl in Hk;
    repeat (apply mbind_inv in Hk as (? & ? & ? & Hk) || (case_match; simplify_eq/=));
    unfold mret, early in *; by simplify_eq/=.
Qed.

(** How many more attempts a budget of [n] pays for. *)
Definition paid (attempt : nat) (n : Z) : Z := if Nat.eqb attempt 0 then (n + 1)%Z else n.

Lemma attempts_ext o sel b max : ∀ left attempt ctx lr last s n,
  ext_retry_budget (ctx_extensions ctx) = Some n → (0 ≤ n)%Z →
  (∀ i u h req, (attempt ≤ i < attempt + left)%nat → (Z.of_nat (i - attempt) < paid attempt n)%Z →
     attempt_target o sel i = Some (u, h) →
     build_request (o_upstream_method o) u (o_upstream_pq o) h (full_body b) = Some req →
     client env i (o_timeout o) req = c i (o_timeout o) req) →
  attempts env svc o sel b max left attempt ctx lr last s =
  attempts (with_client env c) svc o sel b max left attempt ctx lr last s.
Proof.
  induction left as [|left IH]; intros attempt ctx lr last s n Hn H0n Hc; cbn [attempts]; [done|].
  assert (∀ ctx' n', ext_retry_budget (ctx_extensions ctx') = Some n' → (0 ≤ n')%Z →
    (0 < paid attempt n)%Z → (n' + 1 ≤ paid attempt n)%Z → ∀ s,
    mbind_ (attempt_turn env svc o sel b max attempt ctx') (λ '(ctx, turn),
      match turn with
      | Finished r => mret r
      | RetryNext reason resp => attempts env svc o sel b max left (S attempt) ctx (Some reason)
          (match resp with Some r => Some r | None => last end)
      end) s =
    mbind_ (attempt_turn (with_client env c) svc o sel b max attempt ctx') (λ '(ctx, turn),
      match turn with
      | Finished r => mret r
      | RetryNext reason resp => attempts (with_client env c) svc o sel b max left (S attempt) ctx
          (Some reason) (match resp with Some r => Some r | None => last end)
      end) s) as Hstep.
  { intros ctx' n' Hn' H0n' Hpos Hle s0. apply mbind_ext.
    - apply attempt_turn_ext. intros u h req Ht Hb. eapply Hc; [lia| |done|done].
      rewrite Nat.sub_diag. done.
    - intros [ctx'' turn] s1 Hs1. apply attempt_turn_ctx in Hs1. destruct turn as [r|reason resp]; [done|].
      apply (IH _ _ _ _ _ n'); [by rewrite Hs1|done|].
      intros i u h req Hi Hlt. apply Hc; [lia|]. unfold paid in Hlt at 1. simpl in Hlt. lia. }
  destruct (Nat.ltb 0 attempt) eqn:Ha.
  - assert (paid attempt n = n) as Hp by (unfold paid; destruct attempt; [done|done]).
    unfold consume_budget. rewrite Hn. unfold try_consume_attempt.
    destruct (n =? 0)%Z eqn:Hz; simpl; [done|]. apply mbind_ext; [done|]. intros _ s1 _.
    apply Z.eqb_neq in Hz. apply (Hstep _ (n - 1)%Z); [done|lia|lia|lia].
  - assert (paid attempt n = n + 1)%Z as Hp by (by destruct attempt).
    simpl. apply mbind_ext; [done|]. intros _ s1 _. apply (Hstep ctx n); [done|done|lia|lia].
Qed.

Lemma single_ext o sel m b ctx s :
  (∀ u h req, single_target o sel = Some (u, h) →
     build_request m u (o_original_pq o) h b = Some req →
     client env 0 (o_timeout o) req = c 0 (o_timeout o) req) →
  single_attempt env svc o sel m b ctx s = single_attempt (with_client env c) svc o sel m b ctx s.
Proof.
  intros Hc. unfold single_attempt.
  destruct (single_target o sel) as [[u h]|]; [|done].
  destruct (build_request _ _ _ _ _) as [req|] eqn:Hb; [|done].
  apply mbind_ext; [|done]. unfold send_upstream. by rewrite (Hc u h req eq_refl Hb).
Qed.

(** The servers a selection may use: configured and, if checked, healthy. *)
Lemma available_spec e route s s' l :
  available_servers e route s = (s', Ok l) →
  ∀ u, u ∈ l → u ∈ servers route ∧ (∀ hs, health_state s = Some hs → is_healthy hs u = true).
Proof.
  unfold available_servers, mbind_, gets, modify, mret. simpl.
  set (hl := match health_state s with Some _ => _ | None => _ end).
  assert (∀ u, u ∈ hl → u ∈ servers route ∧ (∀ hs, health_state s = Some hs → is_healthy hs u = true)) as Hhl.
  { subst hl. destruct (health_state s) as [hs|]; [|naive_solver].
    intros u [Hu Hin]%list_elem_of_filter. naive_solver. }
  destruct (circuit_breaker s) as [cb|]; simpl.
  - destruct (filter_by_circuit_breaker cb (time e 3) hl) as [cb' kept] eqn:E.
    intros [= _ <-] u Hu. apply Hhl. eapply filter_cb_subset. by rewrite E.
  - by intros [= _ <-].
Qed.

Lemma select_no_plugins e method path route ctx s s' ctx' key sel :
  ctx_selected_upstream ctx = None → ext_candidates (ctx_extensions ctx) = None →
  select_upstreams e svc method path route ctx s = (s', Ok (ctx', key, sel)) →
  ∃ srvs i, sel = SelServers srvs i ∧
    (∀ u, u ∈ srvs → u ∈ servers route ∧ (∀ hs, health_state s = Some hs → is_healthy hs u = true)) ∧
    ext_retry_budget (ctx_extensions ctx') = ext_retry_budget (ctx_extensions ctx) ∧
    ctx_body ctx' = ctx_body ctx.
Proof.
  intros Hsel Hcand (l & s1 & Hav & Hk)%mbind_inv.
  pose proof (available_spec _ _ _ _ _ Hav) as Hl. unfold hook_select in Hk. rewrite Hpl in Hk.
  apply mbind_inv in Hk as ([ctx1 l1] & s2 & [= <- <- <-] & Hk).
  apply mbind_inv in Hk as (k & s3 & _ & Hk). simpl in Hk. rewrite Hsel, Hcand in Hk.
  destruct l as [|x l]; [unfold fail_with in Hk; by apply mbind_inv in Hk as (? & ? & _ & ?)|].
  apply mbind_inv in Hk as (i & s4 & _ & [= <- <- <- <-]).
  exists (x :: l), i. done.
Qed.

(** What a request that goes upstream looks like. *)
Definition outgoing_ok (s : Shared) (req r : Request) : Prop :=
  ∃ route u v pq,
    router svc (uri_path (req_uri req)) = Some route ∧ u ∈ servers route ∧
    (∀ hs, health_state s = Some hs → is_healthy hs u = true) ∧
    req_method r = req_method req ∧
    parse_uri (upstream_uri u pq) = Some (req_uri r) ∧
    (∀ pq0, path_and_query (req_uri req) = Some pq0 → pq = pq0) ∧
    hv_from_str (upstream_host u) = Some v ∧ get_all HOST (req_headers r) = [v] ∧
    last (get_all "via" (req_headers r)) = Some (via_header_value (req_version req)) ∧
    ∀ n, n ∈ HOP_BY_HOP_HEADERS →
      n = "te" ∧ req_version req = HTTP_2 ∨ get_all n (req_headers r) = [].

Lemma prepare_spec v h s s' h' :
  prepare_headers svc v h s = (s', Ok h') →
  last (get_all "via" h') = Some (via_header_value v) ∧
  ∀ n, n ∈ HOP_BY_HOP_HEADERS → n = "te" ∧ v = HTTP_2 ∨ get_all n h' = [].
Proof.
  intros (h1 & s1 & Hh1 & [= _ <-])%mbind_inv. rewrite get_all_append_eq, last_snoc. split; [done|].
  intros n Hn. rewrite get_all_append_ne by (intros <-; unfold HOP_BY_HOP_HEADERS in Hn; set_solver).
  destruct (strip_removes_hop h v n Hn) as [|Hs]; [by left|right].
  destruct (peer_addr svc) as [a|]; [|by injection Hh1 as _ <-].
  destruct (add_forwarding_headers _ _ _ _) as [h2|] eqn:Hf; [|done]. injection Hh1 as _ <-.
  rewrite (add_forwarding_other _ _ _ _ _ n Hf); [done|].
  unfold HOP_BY_HOP_HEADERS in Hn. set_solver.
Qed.

Lemma build_outgoing s req route u m pq h b r :
  router svc (uri_path (req_uri req)) = Some route → u ∈ servers route →
  (∀ hs, health_state s = Some hs → is_healthy hs u = true) →
  m = req_method req → (∀ pq0, path_and_query (req_uri req) = Some pq0 → pq = pq0) →
  last (get_all "via" h) = Some (via_header_value (req_version req)) →
  (∀ n, n ∈ HOP_BY_HOP_HEADERS → n = "te" ∧ req_version req = HTTP_2 ∨ get_all n h = []) →
  build_request m u pq h b = Some r → outgoing_ok s req r.
Proof.
  intros Hr Hu Hh -> Hpq Hvia Hhop (v & Hv & (uri & Huri & [= <-])%bind_Some)%bind_Some.
  exists route, u, v, pq. simpl. split_and!; try done.
  - apply get_all_insert_eq.
  - by rewrite get_all_insert_ne.
  - intros n Hn. destruct (Hhop n Hn) as [|Hg]; [by left|right].
    rewrite get_all_insert_ne; [done|]. intros <-. unfold HOP_BY_HOP_HEADERS in Hn. set_solver.
Qed.

(** The most attempts a request can make. *)
Definition call_bound (req : Request) : Z :=
  if is_idempotent (req_method req) then Z.min 3 (1 + svc_retry_budget svc) else 1.

(** The phases before selection leave the health state alone. *)
Definition no_interfere (e : Env) : Env :=
  {| time := time e; client := client e; interfere := λ _ s, s; compressor := compressor e;
     probe_json := probe_json e; tls_name_ok := tls_name_ok e; ws_connect := ws_connect e |}.

Lemma health_inv e hs :
  handler_inv (no_interfere e) (λ s, shared_wf s ∧ health_state s = hs).
Proof.
  split; try (by intros v s [? ?]).
  - intros f s [Hw Hc] Hf. split; [by apply Hf|done].
  - intros s [? _]. done.
Qed.

Lemma call_bound_pos req : (0 ≤ svc_retry_budget svc)%Z → (0 < call_bound req)%Z.
Proof. unfold call_bound. case_match; lia. Qed.

(** A phase that keeps an invariant hands it to what follows. *)
Lemma mbind_ext_inv {A B} I (m m' : M A) (k k' : A → M B) s :
  m s = m' s → ok I m (λ _, True) → I s →
  (∀ a s', m s = (s', Ok a) → I s' → k a s' = k' a s') → mbind_ m k s = mbind_ m' k' s.
Proof.
  intros Hm Hok Hs Hk. apply mbind_ext; [done|]. intros a s' Ha. apply Hk; [done|].
  destruct (Hok s Hs) as [Hi _]. by rewrite Ha in Hi.
Qed.

(** Two environments that answer the legal calls of a request alike cannot be
    told apart by it. *)
Lemma handle_admitted_ext req n s :
  shared_wf s → (0 ≤ svc_retry_budget svc)%Z →
  (∀ i d r, (Z.of_nat i < call_bound req)%Z → outgoing_ok s req r → client env i d r = c i d r) →
  handle_admitted env svc req n s = handle_admitted (with_client env c) svc req n s.
Proof.
  intros Hwf Hb Hc. unfold handle_admitted.
  set (I := λ s0, shared_wf s0 ∧ health_state s0 = health_state s).
  pose proof (health_inv env (health_state s)) as HI.
  apply (mbind_ext_inv I); [done|exact (ok_check_admission (no_interfere env) I HI svc _ n)|done|].
  intros _ s1 _ Hs1.
  apply (mbind_ext_inv I); [done|exact (ok_check_limits (no_interfere env) I HI svc req)|done|].
  intros _ s2 _ Hs2.
  apply (mbind_ext_inv I); [done|exact (ok_buffer_body (no_interfere env) I HI svc req)|done|].
  intros [req' pb] s3 Hbuf Hs3.
  assert (req_method req' = req_method req ∧ req_uri req' = req_uri req ∧
          req_version req' = req_version req) as (Hm & Hu & Hv).
  { unfold buffer_body in Hbuf. case_match; [|by injection Hbuf as _ <- _].
    apply mbind_inv in Hbuf as (? & ? & _ & [= _ <- _]). done. }
  unfold hook_request. rewrite Hpl.
  apply (mbind_ext_inv I); [done|by apply (ok_ret (no_interfere env) I HI)|done|].
  intros ctx s4 [= <- <-] _.
  apply (mbind_ext_inv I); [done|exact (ok_route (no_interfere env) I HI svc _ _)|done|].
  intros route s5 Hroute Hs5.
  assert (router svc (uri_path (req_uri req)) = Some route) as Hr.
  { unfold route_lookup in Hroute. destruct (router svc _); [by injection Hroute as _ ->|].
    unfold fail_with in Hroute. by apply mbind_inv in Hroute as (? & ? & _ & ?). }
  apply (mbind_ext_inv I); [done|exact (ok_serve_from_cache (no_interfere env) I HI svc req' _)|done|].
  intros _ s6 _ [_ Hs6].
  apply mbind_ext; [done|]. intros [[ctx key] sel] s7 Hsel.
  apply select_no_plugins in Hsel as (srvs & i & -> & Hsrvs & Hbud & Hbody); [|done|done].
  rewrite Hs6 in Hsrvs. apply mbind_ext; [done|]. intros h s8 Hprep.
  apply prepare_spec in Hprep as [Hvia Hhop]. rewrite Hv in Hvia, Hhop.
  set (o := {| o_method := _ |}).
  assert (∀ u h' m pq b r, (m = req_method req' ∨ m = req_method req) →
    (∀ pq0, path_and_query (req_uri req) = Some pq0 → pq = pq0) → h' = h → u ∈ srvs →
    build_request m u pq h' b = Some r → outgoing_ok s req r) as Hout.
  { intros u h' m pq b r Hm' Hpq -> [Hus Huh]%Hsrvs. apply (build_outgoing s req route); try done.
    destruct Hm' as [->| ->]; done. }
  assert (∀ pq0, path_and_query (req_uri req) = Some pq0 → o_upstream_pq o = pq0) as Hpq.
  { intros pq0 Hq. simpl. rewrite Hu, Hq. done. }
  change (uses_candidates (SelServers srvs i)) with false. rewrite orb_false_l.
  destruct (Nat.ltb 1 (natural_max_attempts (req_method req) (SelServers srvs i))) eqn:Hmax.
  - apply mbind_ext; [done|]. intros b s9 _.
    apply (attempts_ext _ _ _ _ _ _ _ _ _ _ (svc_retry_budget svc)); [exact Hbud|done|].
    intros j u h' r Hj Hpaid Ht Hbr. apply Hc.
    + unfold natural_max_attempts in Hmax, Hj. unfold call_bound. unfold paid in Hpaid.
      destruct (is_idempotent (req_method req)); cbn [andb Nat.eqb] in *; [|done].
      destruct (Nat.ltb 1 (length srvs)); [|done]. lia.
    + simpl in Ht. apply fmap_Some in Ht as (u' & Hu' & [= <- ->]).
      eapply Hout; [| | |by eapply list_elem_of_lookup_2|exact Hbr]; [by left|done|done].
  - apply single_ext. intros u h' r Ht Hbr. apply Hc; [by apply call_bound_pos|].
    simpl in Ht. apply fmap_Some in Ht as (u' & Hu' & [= <- ->]).
    eapply Hout; [| | |by eapply list_elem_of_lookup_2|exact Hbr]; [by left| |done].
    intros pq0 Hq. simpl. by rewrite Hu, Hq.
Qed.

Lemma handle_boxed_ext req s :
  shared_wf s → (0 ≤ svc_retry_budget svc)%Z →
  (∀ i d r, (Z.of_nat i < call_bound req)%Z → outgoing_ok s req r → client env i d r = c i d r) →
  handle_boxed env svc req s = handle_boxed (with_client env c) svc req s.
Proof.
  intros Hwf Hb Hc. unfold handle_boxed.
  change (probe_endpoints (with_client env c) req s) with (probe_endpoints env req s).
  destruct (probe_endpoints_spec env req s) as (r & -> & _). destruct r as [[]|e]; [|done].
  destruct (enter_inflight_spec svc s) as (s1 & -> & _ & Hlb & Hhs).
  rewrite handle_admitted_ext; [done| |done|].
  - unfold shared_wf. by rewrite Hlb.
  - intros i d r Hi Hr. apply Hc; [done|]. unfold outgoing_ok in *. by rewrite Hhs in Hr.
Qed.

(** Without plugins, a complete answer is delivered with its own status. *)
Lemma deliver_status o ctx u resp t s :
  is_Some (collect (resp_body resp)) →
  ∃ s' r, deliver env svc o ctx u resp t s = (s', Ok r) ∧ status r = status resp.
Proof.
  intros Hc. unfold deliver, finalize_response, hook_transform, hook_response, hook_wrap. rewrite Hpl.
  unfold svc_record_metrics, upd_metrics, modify, mbind_, mret. simpl.
  set (r1 := with_headers resp _).
  set (r2 := if compression_enabled svc then maybe_compress_response (compressor env) (o_accept o) r1 else r1).
  assert (status r2 = status resp ∧ is_Some (collect (resp_body r2))) as [Hst [b Hb]].
  { subst r2. destruct (compression_enabled svc); [|done].
    by rewrite maybe_compress_status; split; [|apply maybe_compress_collect]. }
  unfold maybe_cache_response, mbind_, gets, modify, mret. simpl. rewrite Hb.
  destruct (sh_cache s); simpl; [|eauto]. destruct (_ || _); simpl; eauto.
Qed.

(** The outcomes a route retries. *)
Definition retryable (res : UpstreamResult) : bool :=
  match res with
  | Answered r => is_retryable_status (status r)
  | Failed _ => true
  | TimedOut => false
  end.

Lemma send_result o a u req s :
  ∃ s', send_upstream env o a u req s = (s', Ok (client env a (o_timeout o) req)).
Proof. by eexists. Qed.

(** A turn on a retryable outcome, when attempts remain, moves on. *)
Lemma turn_retries o srvs st b max a ctx s u h req :
  attempt_target o (SelServers srvs st) a = Some (u, h) →
  build_request (o_upstream_method o) u (o_upstream_pq o) h (full_body b) = Some req →
  retryable (client env a (o_timeout o) req) = true → (a + 1 < max)%nat →
  ∃ s' ctx' reason resp,
    attempt_turn env svc o (SelServers srvs st) b max a ctx s = (s', Ok (ctx', RetryNext reason resp)) ∧
    ctx_extensions ctx' = ctx_extensions ctx.
Proof.
  intros Ht Hb Hr Hmax. unfold attempt_turn. rewrite Ht, Hb.
  destruct (send_result o a u req s) as [s1 Hs1]. rewrite (mbind_step _ _ _ _ _ Hs1).
  apply Nat.ltb_lt in Hmax.
  destruct (client env a (o_timeout o) req) as [resp|e|]; simpl in Hr; [| |done].
  - unfold on_answer. rewrite notify_no_plugins, (mbind_step (mret _) _ s1 s1 _ eq_refl).
    cbn [uses_candidates]. rewrite Hr, Hmax. cbn [andb].
    destruct (status_error _ _); eexists _, _, _, _; split; done.
  - unfold on_failure, hook_error. rewrite Hpl.
    rewrite (mbind_step (breaker_failure env (attempt_time a) u) _ s1 _ () eq_refl).
    rewrite (mbind_step (mret _) _ _ _ _ eq_refl). rewrite Hmax. eexists _, _, _, _. split; done.
Qed.

(** A turn on a successful answer finishes with its status. *)
Lemma turn_succeeds o srvs st b max a ctx s u h req resp :
  attempt_target o (SelServers srvs st) a = Some (u, h) →
  build_request (o_upstream_method o) u (o_upstream_pq o) h (full_body b) = Some req →
  client env a (o_timeout o) req = Answered resp → is_success (status resp) = true →
  is_Some (collect (resp_body resp)) →
  ∃ s' ctx' r,
    attempt_turn env svc o (SelServers srvs st) b max a ctx s = (s', Ok (ctx', Finished r)) ∧
    status r = status resp.
Proof.
  intros Ht Hb Hr Hok Hc. unfold attempt_turn. rewrite Ht, Hb.
  destruct (send_result o a u req s) as [s1 Hs1]. rewrite (mbind_step _ _ _ _ _ Hs1), Hr.
  unfold on_answer. rewrite notify_no_plugins, (mbind_step (mret _) _ s1 s1 _ eq_refl).
  assert (is_retryable_status (status resp) = false) as Hnr.
  { unfold is_success in Hok. unfold is_retryable_status, BAD_GATEWAY, SERVICE_UNAVAILABLE. lia. }
  cbn [uses_candidates]. rewrite Hnr, Hok. cbn [andb].
  assert (∃ s2, note_exhaustion (SelServers srvs st) (status resp) false s1 = (s2, Ok ())) as [s2 Hs2].
  { unfold note_exhaustion. simpl. destruct (status_error _ _); by eexists. }
  rewrite (mbind_step _ _ _ _ _ Hs2).
  rewrite (mbind_step (breaker_success env (attempt_time a) u) _ s2 _ () eq_refl).
  match goal with |- context [mbind_ (deliver _ _ _ _ _ _ _) _ ?s3] =>
    destruct (deliver_status o (set_ctx_upstream u ctx) u resp (attempt_time a) s3 Hc) as (s4 & r & Hd & Hst) end.
  rewrite (mbind_step _ _ _ _ _ Hd). unfold mret. eauto.
Qed.

(** The budget pays for the attempt it is asked for. *)
Lemma budget_pays ctx a n :
  ext_retry_budget (ctx_extensions ctx) = Some n → (0 < paid a n)%Z →
  ∃ ctx1 n1, (if Nat.ltb 0 a then consume_budget ctx else (ctx, true)) = (ctx1, true) ∧
    ext_retry_budget (ctx_extensions ctx1) = Some n1 ∧ (paid a n ≤ n1 + 1)%Z.
Proof.
  intros Hn Hp. unfold paid in *. destruct a as [|a]; simpl in *.
  - exists ctx, n. split_and!; [done|done|lia].
  - unfold consume_budget. rewrite Hn. unfold try_consume_attempt.
    rewrite (proj2 (Z.eqb_neq n 0)) by lia. eexists _, _. split; [done|]. simpl. split; [done|lia].
Qed.

Lemma note_retry_ok sel a lr s :
  ∃ s1, (if Nat.ltb 0 a
         then match lr with
              | Some r => svc_record_retry_attempt (retry_metric_mode (uses_candidates sel)) r
              | None => mret ()
              end
         else mret ()) s = (s1, Ok ()).
Proof. destruct (Nat.ltb 0 a); [destruct lr|]; by eexists. Qed.

Lemma attempts_reach o srvs st b max k resp (reqs : nat → string * HeaderMap * Request) :
  (∀ j, (j ≤ k)%nat →
     attempt_target o (SelServers srvs st) j = Some (reqs j).1 ∧
     build_request (o_upstream_method o) (reqs j).1.1 (o_upstream_pq o) (reqs j).1.2 (full_body b)
       = Some (reqs j).2) →
  (∀ j, (j < k)%nat → retryable (client env j (o_timeout o) (reqs j).2) = true) →
  client env k (o_timeout o) (reqs k).2 = Answered resp →
  is_success (status resp) = true → is_Some (collect (resp_body resp)) → (k < max)%nat →
  ∀ m a left ctx lr last s n,
    (a + m = k)%nat → (a + left = max)%nat →
    ext_retry_budget (ctx_extensions ctx) = Some n → (Z.of_nat m < paid a n)%Z →
    ∃ s' r, attempts env svc o (SelServers srvs st) b max left a ctx lr last s = (s', Ok r) ∧
      status r = status resp.
Proof.
  intros Hreq Hretry Hans Hok Hc Hkmax. induction m as [|m IH]; intros a left ctx lr last s n Hk Hleft Hn Hpaid;
    (destruct left as [|left]; [lia|]); cbn [attempts];
    destruct (Hreq a ltac:(lia)) as [Ht Hb]; destruct (reqs a) as [[u h] req] eqn:Ereq; simpl in Ht, Hb.
  all: destruct (budget_pays ctx a n Hn ltac:(lia)) as (ctx1 & n1 & Hcons & Hn1 & Hle).
  all: rewrite Hcons; cbn [negb].
  all: destruct (note_retry_ok (SelServers srvs st) a lr s) as [s1 Hs1]; rewrite (mbind_step _ _ _ _ _ Hs1).
  - assert (a = k) as -> by lia. rewrite Ereq in Hans. simpl in Hans.
    destruct (turn_succeeds o srvs st b max k ctx1 s1 u h req resp Ht Hb Hans Hok Hc)
      as (s2 & ctx2 & r & Hturn & Hst). rewrite (mbind_step _ _ _ _ _ Hturn). unfold mret. eauto.
  - pose proof (Hretry a ltac:(lia)) as Hr. rewrite Ereq in Hr. simpl in Hr.
    destruct (turn_retries o srvs st b max a ctx1 s1 u h req Ht Hb Hr ltac:(lia))
      as (s2 & ctx2 & reason & lresp & Hturn & Hext).
    rewrite (mbind_step _ _ _ _ _ Hturn). apply (IH _ _ _ _ _ _ n1); [lia|lia|by rewrite Hext|].
    unfold paid. simpl. lia.
Qed.

End calls.

(** ** A small instance of the model *)

Module Demo.

#[export] Instance demo_types : PluginTypes :=
  {| ConnExtensions := (); PluginState := (); PluginExt := (); plugin_ext_new := () |}.

#[export] Instance demo_hash : SipHasher := λ s, Z.of_nat (String.length s).

Definition svc_for (srvs : list string) : ProxyService := {|
  router _ := Some {| servers := srvs; lb := RoundRobinS; weights := None |};
  peer_addr := Some {| ip := V4 2130706433; port := 4000 |};
  tls := false;
  compression_enabled := true;
  max_request_body_bytes := 1048576;
  upstream_timeout := from_secs 600;
  h3_port := None;
  svc_max_inflight := Some 2%Z;
  svc_brownout_inflight := Some 1%Z;
  svc_retry_budget := 2;
  plugins := None;
  connection_extensions := ();
|}.

Definition shared0 : @Shared list_http list_lru demo_types := {|
  counter := 0;
  health_state := None;
  rate_limiter := None;
  sh_metrics := Some metrics_new;
  circuit_breaker := None;
  sh_cache := None;
  inflight_requests := Some 0%Z;
  probe_state := None;
  load_balancers := ∅;
  plugin_state := ();
|}.

Definition env_of (client : nat → Duration → @Request list_http → @UpstreamResult list_http)
    : @Env list_http list_lru demo_types := {|
  time _ _ := 0%Z;
  client := client;
  interfere _ s := s;
  compressor _ b := Some b;
  probe_json state _ := state;
  tls_name_ok _ := true;
  ws_connect _ _ := WsConnectError;
|}.

Definition request (m : Method) (uri : string) (h : list (string * string)) : @Request list_http :=
  {| req_method := m; req_uri := uri; req_version := HTTP_11; req_headers := h; req_body := [] |}.

Definition answer (st : StatusCode) (h : list (string * string)) (b : Body) : @UpstreamResult list_http :=
  Answered {| status := st; resp_headers := h; resp_body := b |}.

(** One more request enters. *)
Definition enter (env : @Env list_http list_lru demo_types) (svc : ProxyService)
    (x : Shared * list bool) : Shared * list bool :=
  match enter_inflight svc x.1 with
  | (s1, Ok cur) =>
      let '(s2, r) := check_admission env svc GET cur s1 in
      (s2, (match r with Ok _ => true | Err _ => false end) :: x.2)
  | (s1, Err _) => (s1, x.2)
  end.

Lemma enter_step env svc x :
  (Z.of_nat (length x.2) < u64_max)%Z → adm_step env svc x (enter env svc x).
Proof.
  intros Hl. destruct x as [s act]. unfold enter. simpl in *.
  destruct (enter_inflight_spec svc s) as (s1 & E & _). rewrite E.
  destruct (check_admission env svc GET _ s1) as [s2 r] eqn:E2. by eapply adm_enter.
Qed.

End Demo.
Import (hints) Demo.

(** ** Properties *)

(** C1: every request gets a response.  Whatever the client sends, the plugins
    do, the upstreams answer and other requests change meanwhile, the handler
    terminates without a panic: every index it uses is in range and every
    header it unwraps is legal. *)
Theorem handle_always_responds `{HO : HttpOk} `{Lru} `{PluginTypes} `{SipHasher} env svc req s :
  env_ok env → shared_wf s →
  is_Some (handle env svc req s).2 ∧ shared_wf (handle env svc req s).1.
Proof.
  intros He Hs. unfold handle. destruct (is_websocket_upgrade _); [|by apply ok_handle_boxed].
  destruct (ok_no_panic shared_wf (handle_websocket env svc req) s) as [Hr Hw];
    [by apply ok_websocket, shared_wf_inv|done|].
  destruct (handle_websocket env svc req s) as [s' r]. split; [by apply (response_of_Some r)|done].
Qed.

Lemma handle_always_responds_witness :
  is_Some (handle (Demo.env_of (λ _ _ _, TimedOut)) (Demo.svc_for ["a:80"; "b:80"])
             (Demo.request GET "/x" []) Demo.shared0).2.
Proof.
  apply (handle_always_responds (Demo.env_of (λ _ _ _, TimedOut)) (Demo.svc_for ["a:80"; "b:80"])
    (Demo.request GET "/x" []) Demo.shared0).
  - intros i s Hs. exact Hs.
  - apply map_Forall_empty.
Defined.

(** the in-flight slot is given back on every way out of the handler, early
    returns included: the counter ends where it started. *)
Theorem inflight_slot_returned `{HO : HttpOk} `{Lru} `{PluginTypes} `{SipHasher} env svc req s n :
  env_ok env → (∀ i s, inflight_requests (interfere env i s) = inflight_requests s) →
  shared_wf s → inflight_requests s = Some n → in_u64 n →
  inflight_requests (handle_boxed env svc req s).1 = Some n.
Proof.
  intros He Hi Hs Hn Hr. unfold handle_boxed.
  destruct (probe_endpoints_spec env req s) as (r & -> & _). destruct r as [[]|e]; [|done].
  destruct (enter_inflight_spec svc s) as (s1 & -> & Hi1 & Hlb & Hhs). rewrite Hn in *. simpl in *.
  set (I := λ s : Shared, shared_wf s ∧ inflight_requests s = Some (wrap64 (n + 1))).
  destruct (ok_no_panic I (handle_admitted env svc req (Some (n + 1)%Z)) s1) as [_ [_ Hc]].
  { apply ok_handle_admitted. by apply inflight_inv. }
  { split; [|done]. unfold shared_wf. by rewrite Hlb. }
  destruct (handle_admitted _ _ _ _ s1) as [s2 r2]. simpl in *.
  rewrite leave_inflight_inflight, Hc. simpl. f_equal. by apply wrap64_succ_pred.
Qed.

Lemma inflight_slot_returned_witness :
  inflight_requests (handle_boxed (Demo.env_of (λ _ _ _, TimedOut)) (Demo.svc_for ["a:80"])
    (Demo.request GET "/x" []) Demo.shared0).1 = Some 0%Z.
Proof.
  apply (inflight_slot_returned (Demo.env_of (λ _ _ _, TimedOut)) (Demo.svc_for ["a:80"])
    (Demo.request GET "/x" []) Demo.shared0 0).
  - intros i s Hs. exact Hs.
  - intros i s. reflexivity.
  - apply map_Forall_empty.
  - reflexivity.
  - unfold in_u64, u64_max. lia.
Defined.

(** C37: the hard limit holds under concurrency.  However requests enter and
    leave, the number of requests in service that passed admission never
    exceeds the configured limit, and the counter is the number of requests
    holding a slot. *)
Theorem admission_limit_holds `{HO : HttpOk} `{Lru} `{PluginTypes} `{SipHasher} env svc limit s s' act :
  svc_max_inflight svc = Some limit → (0 ≤ limit)%Z → inflight_requests s = Some 0%Z →
  rtc (adm_step env svc) (s, []) (s', act) →
  (admitted act ≤ limit)%Z ∧ inflight_requests s' = Some (Z.of_nat (length act)).
Proof.
  intros Hl Hpos Hs Hrun. assert (adm_inv limit (s', act)) as (Hc & _ & Ha); [|done].
  assert (adm_inv limit (s, [])) as Hinv by (unfold adm_inv, u64_max; simpl; by rewrite Hs).
  remember (s, []) as x. remember (s', act) as y. clear -Hl Hinv Hrun HO.
  induction Hrun; eauto using adm_inv_step.
Qed.

Lemma admission_limit_holds_witness :
  let svc := Demo.svc_for ["a:80"] in
  let env := Demo.env_of (λ _ _ _, TimedOut) in
  let x := Demo.enter env svc (Demo.enter env svc (Demo.enter env svc (Demo.shared0, []))) in
  x.2 = [false; true; true] ∧ (admitted x.2 ≤ 2)%Z.
Proof.
  intros svc env x. split; [vm_compute; reflexivity|].
  apply (admission_limit_holds env svc 2 Demo.shared0 x.1 x.2); [reflexivity|lia|reflexivity|].
  rewrite <- (surjective_pairing x).
  do 3 (eapply rtc_r; [|apply Demo.enter_step; vm_compute; reflexivity]).
  apply rtc_refl.
Defined.

(** C10: retries are bounded.  Without plugins, a request makes at most three
    attempts, at most one more than its retry budget, and a single one when
    its method is not idempotent: a client that answers those attempts the
    same way gets the same response and leaves the same state, whatever it
    would answer later ones. *)
Theorem upstream_calls_bounded `{HO : HttpOk} `{Lru} `{PluginTypes} `{SipHasher} env c svc req s :
  plugins svc = None → shared_wf s → (0 ≤ svc_retry_budget svc)%Z →
  (∀ i d r,
     (Z.of_nat i < if is_idempotent (req_method req) then Z.min 3 (1 + svc_retry_budget svc) else 1)%Z →
     client env i d r = c i d r) →
  handle_boxed env svc req s = handle_boxed (with_client env c) svc req s.
Proof. intros Hpl Hwf Hb Hc. apply handle_boxed_ext; auto. Qed.

Lemma upstream_calls_bounded_witness :
  let fail := λ (_ : nat) (_ : Duration) (_ : @Request list_http), Failed "refused" in
  let later_ok := λ (i : nat) (_ : Duration) (_ : @Request list_http),
    if Nat.leb 3 i then Demo.answer 200%Z [] [] else Failed "refused" in
  handle_boxed (Demo.env_of fail) (Demo.svc_for ["a"; "b"; "c"; "d"]) (Demo.request GET "/x" []) Demo.shared0
  = handle_boxed (with_client (Demo.env_of fail) later_ok) (Demo.svc_for ["a"; "b"; "c"; "d"])
      (Demo.request GET "/x" []) Demo.shared0.
Proof.
  intros fail later_ok.
  apply (upstream_calls_bounded (Demo.env_of fail) later_ok (Demo.svc_for ["a"; "b"; "c"; "d"])
           (Demo.request GET "/x" []) Demo.shared0).
  - reflexivity.
  - apply map_Forall_empty.
  - simpl. lia.
  - intros i d r Hi. simpl in Hi. destruct i as [|[|[|i]]]; [reflexivity..|lia].
Defined.

(** C2: everything sent upstream is sanitised.  Without plugins, each request
    the client sees has the original method and path, goes to a server that is
    configured for the route and, when health is tracked, was healthy when it
    was selected, carries that server as its only Host and this proxy as the
    last Via, and none of the hop-by-hop headers (TE on HTTP/2 apart): a client
    that differs only on other requests is never noticed. *)
Theorem upstream_requests_sanitised `{HO : HttpOk} `{Lru} `{PluginTypes} `{SipHasher} env c svc req s :
  plugins svc = None → shared_wf s → (0 ≤ svc_retry_budget svc)%Z →
  (∀ i d r, outgoing_ok svc s req r → client env i d r = c i d r) →
  handle_boxed env svc req s = handle_boxed (with_client env c) svc req s.
Proof. intros Hpl Hwf Hb Hc. apply handle_boxed_ext; auto. Qed.

Lemma upstream_requests_sanitised_witness :
  let ok_client := λ (_ : nat) (_ : Duration) (_ : @Request list_http), Demo.answer 200%Z [] [] in
  let picky := λ (_ : nat) (_ : Duration) (r : @Request list_http),
    if bool_decide (get_all "connection" (req_headers r) = []) then Demo.answer 200%Z [] [] else TimedOut in
  handle_boxed (Demo.env_of ok_client) (Demo.svc_for ["a"])
    (Demo.request GET "/x" [("connection", "close")]) Demo.shared0
  = handle_boxed (with_client (Demo.env_of ok_client) picky) (Demo.svc_for ["a"])
      (Demo.request GET "/x" [("connection", "close")]) Demo.shared0.
Proof.
  intros ok_client picky.
  apply (upstream_requests_sanitised (Demo.env_of ok_client) picky (Demo.svc_for ["a"])
           (Demo.request GET "/x" [("connection", "close")]) Demo.shared0).
  - reflexivity.
  - apply map_Forall_empty.
  - simpl. lia.
  - intros i d r (route & u & v & pq & _ & _ & _ & _ & _ & _ & _ & _ & _ & Hhop).
    unfold picky. simpl. rewrite bool_decide_eq_true_2; [reflexivity|].
    destruct (Hhop "connection") as [[Hn _]|Hn]; [left|discriminate Hn|exact Hn].
Defined.

(** a retry never goes back to a server that was already tried: the
    attempts of a request use different servers. *)
Theorem retry_targets_distinct `{Http} `{PluginTypes} o srvs st method i j :
  NoDup srvs → (st < length srvs)%nat →
  (i < j < natural_max_attempts method (SelServers srvs st))%nat →
  ∃ u v, fst <$> attempt_target o (SelServers srvs st) i = Some u ∧
         fst <$> attempt_target o (SelServers srvs st) j = Some v ∧ u ≠ v.
Proof.
  intros Hnd Hst Hij.
  assert (j < length srvs)%nat as Hj.
  { unfold natural_max_attempts in Hij. destruct (is_idempotent method && _); lia. }
  assert (∀ a, is_Some (srvs !! ((st + a) mod length srvs)%nat)) as Hl.
  { intros a. apply lookup_lt_is_Some, Nat.mod_upper_bound. lia. }
  destruct (Hl i) as [u Hu]. destruct (Hl j) as [v Hv]. exists u, v. simpl. rewrite Hu, Hv.
  split_and!; [done|done|]. intros ->.
  assert ((st + i) mod length srvs = (st + j) mod length srvs)%nat as Heq
    by (by eapply NoDup_lookup).
  pose proof (Nat.div_mod_eq (st + i) (length srvs)) as Ei.
  pose proof (Nat.div_mod_eq (st + j) (length srvs)) as Ej.
  destruct (Nat.le_gt_cases ((st + j) / length srvs) ((st + i) / length srvs)); nia.
Qed.

Lemma retry_targets_distinct_witness :
  let o : @Outgoing list_http := {| o_method := GET; o_path := "/"; o_version := HTTP_11;
    o_accept := None; o_cache_path := "/"; o_headers := []; o_upstream_method := GET;
    o_upstream_pq := "/"; o_original_pq := "/"; o_lb := ""; o_timeout := 0%Z |} in
  ∃ u v, fst <$> attempt_target o (SelServers ["a"; "b"; "c"] 2) 0 = Some u ∧
         fst <$> attempt_target o (SelServers ["a"; "b"; "c"] 2) 2 = Some v ∧ u ≠ v.
Proof.
  intros o. apply (retry_targets_distinct o ["a"; "b"; "c"] 2 GET 0 2).
  - decide_closed.
  - simpl. lia.
  - vm_compute. lia.
Defined.

(** C9: retries reach a working server.  Take the retry loop of a service without
    plugins on a request whose body is buffered, where a request can be built for
    each server.  If sending to the first [k] servers of the rotation fails (a
    time-out is not retried) or they answer 502 or 503, and the next one answers
    with success and a body that can be read to its end, the loop gives a response
    with that server's status, provided it has more than [k] attempts and the retry
    budget of the request covers [k] retries. *)
Theorem retries_reach_working_server `{HO : HttpOk} `{Lru} `{PluginTypes} `{SipHasher}
    env svc o srvs st b max k n resp ctx s (reqs : nat → string * HeaderMap * Request) :
  plugins svc = None →
  (∀ j, (j ≤ k)%nat →
     attempt_target o (SelServers srvs st) j = Some (reqs j).1 ∧
     build_request (o_upstream_method o) (reqs j).1.1 (o_upstream_pq o) (reqs j).1.2 (full_body b)
       = Some (reqs j).2) →
  (∀ j, (j < k)%nat → retryable (client env j (o_timeout o) (reqs j).2) = true) →
  client env k (o_timeout o) (reqs k).2 = Answered resp →
  is_success (status resp) = true → is_Some (collect (resp_body resp)) →
  (k < max)%nat → ext_retry_budget (ctx_extensions ctx) = Some n → (Z.of_nat k ≤ n)%Z →
  ∃ s' r, attempts env svc o (SelServers srvs st) b max max 0 ctx None None s = (s', Ok r) ∧
    status r = status resp.
Proof.
  intros Hpl Hreq Hretry Hans Hok Hc Hk Hn Hle.
  eapply (attempts_reach env env.(client) svc Hpl o srvs st b max k resp reqs); try done.
  unfold paid. simpl. lia.
Qed.

Lemma retries_reach_working_server_witness :
  let o : @Outgoing list_http := {| o_method := GET; o_path := "/"; o_version := HTTP_11;
    o_accept := None; o_cache_path := "/"; o_headers := []; o_upstream_method := GET;
    o_upstream_pq := "/"; o_original_pq := "/"; o_lb := ""; o_timeout := 0%Z |} in
  let env := Demo.env_of (λ i _ _, if Nat.eqb i 0 then Failed "refused"
                                   else Demo.answer 200%Z [] [Data "ok"]) in
  let svc := Demo.svc_for ["a"; "b"] in
  let ctx := initial_ctx svc (Demo.request GET "/" []) None None in
  ∃ s' r, attempts env svc o (SelServers ["a"; "b"] 0) "" 2 2 0 ctx None None Demo.shared0 = (s', Ok r) ∧
    status r = 200%Z.
Proof.
  intros o env svc ctx.
  set (reqs := λ j : nat, let u := if Nat.eqb j 0 then "a" else "b" in
    (u, [], Demo.request GET (upstream_uri u "/") [("host", u)])
    : string * @HeaderMap list_http * @Request list_http).
  set (resp := @Build_Response list_http 200%Z [] [Data "ok"]).
  apply (retries_reach_working_server env svc o ["a"; "b"] 0 "" 2 1 2 resp ctx Demo.shared0 reqs).
  - reflexivity.
  - intros [|[|j]] Hj; [split; reflexivity|split; reflexivity|lia].
  - intros [|j] Hj; [reflexivity|lia].
  - reflexivity.
  - reflexivity.
  - exists "ok". reflexivity.
  - lia.
  - reflexivity.
  - simpl. lia.
Defined.
