(* ===== verification/Server.v ===== *)
(** * The server process

    Model of [tiny-reverse-proxy/src/main.rs]: how a validated configuration
    becomes the shared components, how every accepted connection gets its
    [ProxyService] (the builder of [handlers/proxy.rs]), the reload on SIGHUP,
    and the connection tracker behind the graceful shutdown.  Sockets, TLS and
    signals are events from outside; what they decide (whether TLS and HTTP/3
    came up) is an argument. *)

From S2P Require Import Prelude RustStr Net Http ConfigTypes F64 ConfigSurfaces Toml Router.
From S2P Require Import Config Metrics Health RateLimit CircuitBreaker LoadBalancer Cache.
From S2P Require Import Compression Runtime Plugin Middleware ProxyHeaders Proxy ProxyProps.
Import (hints) Demo.

Local Open Scope string_scope.
Local Open Scope list_scope.

(** ** Equality of settings *)

#[export] Instance HealthCheckConfig_eq_dec : EqDecision HealthCheckConfig.
Proof. solve_decision. Defined.
#[export] Instance CircuitBreakerConfig_eq_dec : EqDecision CircuitBreakerConfig.
Proof. solve_decision. Defined.
#[export] Instance CacheConfig_eq_dec : EqDecision CacheConfig.
Proof. solve_decision. Defined.
#[export] Instance ModelAliasConfig_eq_dec : EqDecision ModelAliasConfig.
Proof. solve_decision. Defined.

(** The derived equality of a float field is IEEE equality. *)
Definition rate_limit_eqb (a b : option RateLimitConfig) : bool :=
  match a, b with
  | Some a, Some b => f_eq (requests_per_second a) (requests_per_second b) && (burst a =? burst b)%Z
  | None, None => true
  | _, _ => false
  end.

Fixpoint list_eqb {A} (eqb : A → A → bool) (l k : list A) : bool :=
  match l, k with
  | [], [] => true
  | x :: l, y :: k => eqb x y && list_eqb eqb l k
  | _, _ => false
  end.

Section server.
Context `{Http} `{Lru} `{PluginTypes} `{SipHasher} `{GlobPattern} `{Toml}.

(** ** Building a service

    A service is its settings and the shared state it holds handles to. *)

Definition Service : Type := ProxyService * Shared.

(** [ProxyService::new]: everything off, and a map of balancers of its own. *)
Definition service_new (resolve : string → option RouteConfig) (counter : Z)
    (no_extensions : ConnExtensions) (ps : PluginState) : Service :=
  ({| router := resolve; peer_addr := None; tls := false; compression_enabled := true;
      max_request_body_bytes := 10 * 1024 * 1024; upstream_timeout := from_secs 600; h3_port := None;
      svc_max_inflight := None; svc_brownout_inflight := None; svc_retry_budget := 2;
      plugins := None; connection_extensions := no_extensions |},
   {| counter := counter; health_state := None; rate_limiter := None; sh_metrics := None;
      circuit_breaker := None; sh_cache := None; inflight_requests := None; probe_state := None;
      load_balancers := ∅; plugin_state := ps |}).

(** The settings that are plain values, all at once or from the reliability section. *)
Definition set_settings (peer : SocketAddr) (is_tls compression : bool) (max_body timeout_secs : Z)
    (v : ProxyService) : ProxyService := {|
  router := router v; peer_addr := Some peer; tls := is_tls; compression_enabled := compression;
  max_request_body_bytes := max_body; upstream_timeout := from_secs timeout_secs; h3_port := h3_port v;
  svc_max_inflight := svc_max_inflight v; svc_brownout_inflight := svc_brownout_inflight v;
  svc_retry_budget := svc_retry_budget v; plugins := plugins v;
  connection_extensions := connection_extensions v |}.

Definition with_reliability_config (r : ReliabilityConfig) (v : ProxyService) : ProxyService := {|
  router := router v; peer_addr := peer_addr v; tls := tls v;
  compression_enabled := compression_enabled v; max_request_body_bytes := max_request_body_bytes v;
  upstream_timeout := upstream_timeout v; h3_port := h3_port v;
  svc_max_inflight := max_inflight_requests r; svc_brownout_inflight := brownout_inflight_requests r;
  svc_retry_budget := retry_budget_per_request r; plugins := plugins v;
  connection_extensions := connection_extensions v |}.

Definition with_h3_and_plugins (port : option Z) (chain : option PluginChain) (ext : ConnExtensions)
    (v : ProxyService) : ProxyService := {|
  router := router v; peer_addr := peer_addr v; tls := tls v;
  compression_enabled := compression_enabled v; max_request_body_bytes := max_request_body_bytes v;
  upstream_timeout := upstream_timeout v; h3_port := port; svc_max_inflight := svc_max_inflight v;
  svc_brownout_inflight := svc_brownout_inflight v; svc_retry_budget := svc_retry_budget v;
  plugins := chain; connection_extensions := ext |}.

(** [with_admission_counter], [with_probe_state], [with_health_state] and the
    other handles: the process-wide state. *)
Definition with_handles (g : Shared) (s : Shared) : Shared := {|
  counter := counter g; health_state := health_state g; rate_limiter := rate_limiter g;
  sh_metrics := sh_metrics g; circuit_breaker := circuit_breaker g; sh_cache := sh_cache g;
  inflight_requests := inflight_requests g; probe_state := probe_state g;
  load_balancers := load_balancers s; plugin_state := plugin_state g |}.

(** ** The process *)

(** The settings [start_server] captures for its accept loops. *)
Record Settings := {
  st_compression_enabled : bool;
  st_max_request_body_bytes : Z;
  st_upstream_timeout_secs : Z;
  st_header_read_timeout : Duration;
  st_proxy_protocol : bool;
  st_h3_port : option Z;
  st_reliability : ReliabilityConfig;
  st_is_tls : bool;
  st_plugins : option PluginChain;
}.

(** [srv_global] is what all connections share; its [load_balancers] is unused. *)
Record Server := {
  srv_config : Config;
  srv_router : Router;
  srv_targets : option HealthCheckTargets;
  srv_global : Shared;
  srv_settings : Settings;
}.

Definition build_router (c : Config) : Router := router_new (cfg_routes c).

(** The set of all upstreams; the order a [HashSet] is listed in is arbitrary. *)
Definition collect_upstreams (c : Config) : list string :=
  elements (list_to_set (mjoin ((λ e, servers e.2) <$> cfg_routes c)) : gset string).

(** [build_plugin_chain] of a build without the gateway feature. *)
Definition build_plugin_chain (registry : PluginRegistry (Value:=tvalue) (E:=string)) (c : Config)
    : option PluginChain :=
  let enabled := filter (λ p, plugin_enabled p = true) (cfg_plugins c) in
  let unknown n := "unknown plugin: " +:+ n in
  match filter_map (λ p, result_ok (create unknown registry (plugin_name p) (plugin_config p))) enabled with
  | [] => None
  | chain => Some chain
  end.

(** [start_server] up to the accept loops, for a configuration that loaded and
    validated; [None] is the exit of an invalid one. *)
Definition start (c : Config) (is_tls quic_up : bool) (chain : option PluginChain) (ps : PluginState)
    : option Server :=
  match validate c with
  | Err _ => None
  | Ok _ =>
      let all_upstreams := collect_upstreams c in
      let m := (λ _ : Z, metrics_new) <$> cfg_metrics_port c in
      let health := (λ _ : HealthCheckConfig, match m with
                       | Some m => with_metrics (health_new all_upstreams) m
                       | None => health_new all_upstreams
                       end) <$> cfg_health_check c in
      Some {|
        srv_config := c;
        srv_router := build_router c;
        srv_targets := (λ _ : HealthCheckConfig, targets_new all_upstreams) <$> cfg_health_check c;
        srv_global := {|
          counter := 0;
          health_state := health;
          rate_limiter := (λ rl, limiter_new (requests_per_second rl) (burst rl)) <$> cfg_rate_limit c;
          sh_metrics := m;
          circuit_breaker := (λ cb, new (cbc_failure_threshold cb) (cbc_cooldown_secs cb)
                                      (cbc_window_secs cb)) <$> cfg_circuit_breaker c;
          sh_cache := (λ k, cache_new (max_size_mb k) (default_ttl_secs k)) <$> cfg_cache c;
          inflight_requests := Some 0%Z;
          probe_state := Some (mark_ready probe_new);
          load_balancers := ∅;
          plugin_state := ps |};
        srv_settings := {|
          st_compression_enabled := cfg_compression_enabled c;
          st_max_request_body_bytes := cfg_max_request_body_bytes c;
          st_upstream_timeout_secs := cfg_upstream_timeout_secs c;
          st_header_read_timeout := from_secs (cfg_header_read_timeout_secs c);
          st_proxy_protocol := cfg_proxy_protocol c;
          st_h3_port := if is_tls && quic_up then Some (cfg_port c) else None;
          st_reliability := cfg_reliability c;
          st_is_tls := is_tls;
          st_plugins := chain |} |}
  end.

(** The service of one accepted connection, in the order of [accept_loop]. *)
Definition accept_service (srv : Server) (peer : SocketAddr) (ext : ConnExtensions) : Service :=
  let st := srv_settings srv in
  let '(v, s) := service_new (resolve_route_config {| inner := srv_router srv |})
                   (counter (srv_global srv)) ext (plugin_state (srv_global srv)) in
  let v := with_reliability_config (st_reliability st) v in
  let v := set_settings peer (st_is_tls st) (st_compression_enabled st) (st_max_request_body_bytes st)
             (st_upstream_timeout_secs st) v in
  (with_h3_and_plugins (st_h3_port st) (st_plugins st) ext v, with_handles (srv_global srv) s).

(** A connection keeps the balancers of its service. *)
Record Conn := {
  conn_peer : SocketAddr;
  conn_ext : ConnExtensions;
  conn_lbs : gmap string DynLb;
}.

Definition accept (srv : Server) (peer : SocketAddr) (ext : ConnExtensions) : Conn :=
  {| conn_peer := peer; conn_ext := ext;
     conn_lbs := load_balancers (accept_service srv peer ext).2 |}.

Definition with_global (g : Shared) (srv : Server) : Server := {|
  srv_config := srv_config srv; srv_router := srv_router srv; srv_targets := srv_targets srv;
  srv_global := set_lbs ∅ g; srv_settings := srv_settings srv |}.

(** One request on a connection: the routes are those of the moment
    ([ReloadableRouter]), the balancers those of the connection. *)
Definition serve (env : Env) (srv : Server) (conn : Conn) (req : Request)
    : Server * Conn * option Response :=
  let '(v, s) := accept_service srv (conn_peer conn) (conn_ext conn) in
  let '(s', r) := handle env v req (set_lbs (conn_lbs conn) s) in
  (with_global s' srv,
   {| conn_peer := conn_peer conn; conn_ext := conn_ext conn; conn_lbs := load_balancers s' |}, r).

(** ** Reload *)

Variable tvalue_eqb : tvalue → tvalue → bool.
Variable provider_eqb : ProviderKeyConfig → ProviderKeyConfig → bool.

Definition plugin_eqb (a b : PluginConfig) : bool :=
  String.eqb (plugin_name a) (plugin_name b) && Bool.eqb (plugin_enabled a) (plugin_enabled b)
  && tvalue_eqb (plugin_config a) (plugin_config b).

Definition changed_if (b : bool) (n : string) : list string := if b then [n] else [].

Definition non_reloadable_changes (old new : Config) : list string :=
  changed_if (negb (cfg_port old =? cfg_port new)%Z) "port"
  ++ changed_if (negb (bool_decide (cfg_health_check old = cfg_health_check new))) "health_check"
  ++ changed_if (negb (bool_decide (cfg_tls_cert old = cfg_tls_cert new))
                 || negb (bool_decide (cfg_tls_key old = cfg_tls_key new))
                 || negb (Bool.eqb (cfg_tls_auto old) (cfg_tls_auto new))) "tls"
  ++ changed_if (negb (bool_decide (cfg_metrics_port old = cfg_metrics_port new))) "metrics_port"
  ++ changed_if (negb (bool_decide (cfg_management_api_port old = cfg_management_api_port new))
                 || negb (bool_decide (cfg_management_api_token old = cfg_management_api_token new)))
       "management_api"
  ++ changed_if (negb (bool_decide (cfg_store_url old = cfg_store_url new))) "store_url"
  ++ changed_if (negb (cfg_max_request_body_bytes old =? cfg_max_request_body_bytes new)%Z)
       "max_request_body_bytes"
  ++ changed_if (negb (cfg_header_read_timeout_secs old =? cfg_header_read_timeout_secs new)%Z)
       "header_read_timeout_secs"
  ++ changed_if (negb (cfg_upstream_timeout_secs old =? cfg_upstream_timeout_secs new)%Z)
       "upstream_timeout_secs"
  ++ changed_if (negb (rate_limit_eqb (cfg_rate_limit old) (cfg_rate_limit new))) "rate_limit"
  ++ changed_if (negb (Bool.eqb (cfg_compression_enabled old) (cfg_compression_enabled new)))
       "compression_enabled"
  ++ changed_if (negb (bool_decide (cfg_circuit_breaker old = cfg_circuit_breaker new)))
       "circuit_breaker"
  ++ changed_if (negb (bool_decide (cfg_cache old = cfg_cache new))) "cache"
  ++ changed_if (negb (Bool.eqb (cfg_proxy_protocol old) (cfg_proxy_protocol new))) "proxy_protocol"
  ++ changed_if (negb (list_eqb plugin_eqb (cfg_plugins old) (cfg_plugins new))) "plugins"
  ++ changed_if (negb (list_eqb provider_eqb (cfg_providers old) (cfg_providers new))) "providers"
  ++ changed_if (negb (bool_decide (cfg_model_aliases old = cfg_model_aliases new))) "model_aliases".

Definition set_health (h : option HealthState) (s : Shared) : Shared := {|
  counter := counter s; health_state := h; rate_limiter := rate_limiter s;
  sh_metrics := sh_metrics s; circuit_breaker := circuit_breaker s; sh_cache := sh_cache s;
  inflight_requests := inflight_requests s; probe_state := probe_state s;
  load_balancers := load_balancers s; plugin_state := plugin_state s |}.

Definition apply_route_reload (srv : Server) (new_router : Router) (new_upstreams : list string)
    : Server := {|
  srv_config := srv_config srv;
  srv_router := new_router;
  srv_targets := (λ t, replace t new_upstreams) <$> srv_targets srv;
  srv_global := set_health ((λ h, sync_upstreams h new_upstreams) <$> health_state (srv_global srv))
                  (srv_global srv);
  srv_settings := srv_settings srv |}.

Definition set_config (c : Config) (srv : Server) : Server := {|
  srv_config := c; srv_router := srv_router srv; srv_targets := srv_targets srv;
  srv_global := srv_global srv; srv_settings := srv_settings srv |}.

(** One SIGHUP: what the file loads to, and the settings it warns about. *)
Definition reload (srv : Server) (loaded : result string Config) : Server * list string :=
  match loaded with
  | Err _ => (srv, [])
  | Ok new_config =>
      match validate new_config with
      | Err _ => (srv, [])
      | Ok _ =>
          let warned := non_reloadable_changes (srv_config srv) new_config in
          (set_config new_config
             (apply_route_reload srv (build_router new_config) (collect_upstreams new_config)), warned)
      end
  end.

End server.

(** ** The connection tracker

    [ConnectionTracker] under any interleaving of its operations.  A decrement
    is an atomic subtraction, and then a notification when it took the last
    connection; the waiter makes its [Notified] future first, then loads the
    counter.  [notify_waiters] reaches every future that exists. *)

Inductive waiter :=
| Idle                     (* not in the loop, or before [notified()] *)
| Registered (hit : bool)  (* future made, counter not yet read; hit: notified since *)
| Waiting (hit : bool)     (* saw a positive counter, awaiting the future *)
| Drained.

Record Tracker := {
  active : Z;
  notifying : nat;  (* decrements that took the last connection and have not notified yet *)
  drain : waiter;
}.

Definition tracker_new : Tracker := {| active := 0; notifying := 0; drain := Idle |}.

Definition hit_waiter (w : waiter) : waiter :=
  match w with
  | Registered _ => Registered true
  | Waiting _ => Waiting true
  | w => w
  end.

Inductive tracker_step : Tracker → Tracker → Prop :=
| ts_increment t :
    tracker_step t {| active := active t + 1; notifying := notifying t; drain := drain t |}
| ts_decrement t :
    (0 < active t)%Z →
    tracker_step t {| active := active t - 1;
                      notifying := if (active t =? 1)%Z then S (notifying t) else notifying t;
                      drain := drain t |}
| ts_notify t n :
    notifying t = S n →
    tracker_step t {| active := active t; notifying := n; drain := hit_waiter (drain t) |}
| ts_register t :
    drain t = Idle →
    tracker_step t {| active := active t; notifying := notifying t; drain := Registered false |}
| ts_load t hit :
    drain t = Registered hit →
    tracker_step t {| active := active t; notifying := notifying t;
                      drain := if (active t =? 0)%Z then Drained else Waiting hit |}
| ts_wake t :
    drain t = Waiting true →
    tracker_step t {| active := active t; notifying := notifying t; drain := Idle |}.

(** ** Lemmas *)

Section props.
Context `{HO : HttpOk} `{Lru} `{PluginTypes} `{SipHasher} `{GlobPattern} `{Toml}.
Definition upd_health (f : HealthState → HealthState) (srv : Server) : Server :=
  with_global (set_health (f <$> health_state (srv_global srv)) (srv_global srv)) srv.

Definition upstream_of (c : Config) (u : string) : Prop :=
  ∃ e, e ∈ cfg_routes c ∧ u ∈ servers e.2.

Lemma elem_of_collect_upstreams c u : u ∈ collect_upstreams c ↔ upstream_of c u.
Proof.
  unfold collect_upstreams, upstream_of. rewrite elem_of_elements, elem_of_list_to_set, list_elem_of_join.
  setoid_rewrite list_elem_of_fmap. naive_solver.
Qed.

(** The configuration is valid, the router and the targets are its routes, and
    all its upstreams are tracked. *)
Record in_step (st : Settings) (srv : Server) : Prop := {
  is_valid : config_valid (srv_config srv);
  is_router : srv_router srv = build_router (srv_config srv);
  is_targets t : srv_targets srv = Some t → snapshot t = collect_upstreams (srv_config srv);
  is_tracked h u : health_state (srv_global srv) = Some h → upstream_of (srv_config srv) u → u ∈ tracked h;
  is_settings : srv_settings srv = st;
}.

Lemma start_in_step c is_tls quic chain ps srv :
  start c is_tls quic chain ps = Some srv → in_step (srv_settings srv) srv.
Proof.
  unfold start. destruct (validate c) eqn:Hv; [|done]. intros [= <-]. split; simpl; [|done|..|done].
  - by eapply validate_valid.
  - destruct (cfg_health_check c); naive_solver.
  - intros h u Hh Hu. destruct (cfg_health_check c); [|done]. simpl in Hh.
    apply elem_of_collect_upstreams in Hu.
    destruct (cfg_metrics_port c); simplify_eq/=; by apply elem_of_list_to_set.
Qed.

Lemma serve_health env srv conn req :
  env_ok env → (∀ i s, health_state (interfere env i s) = health_state s) →
  map_Forall (λ _ d, dyn_wf d) (conn_lbs conn) →
  health_state (srv_global (serve env srv conn req).1.1) = health_state (srv_global srv).
Proof.
  intros He Hi Hl. unfold serve.
  destruct (accept_service srv _ _) as [v s] eqn:Ea.
  assert (health_state s = health_state (srv_global srv)) as Hs
    by (unfold accept_service in Ea; simpl in Ea; by simplify_eq/=).
  pose proof (handle_health env v req (set_lbs (conn_lbs conn) s) He Hi Hl) as Hh.
  destruct (handle env v req _) as [s' r]. simpl in *. by rewrite Hh, Hs.
Qed.

Variable tvalue_eqb : tvalue → tvalue → bool.
Variable provider_eqb : ProviderKeyConfig → ProviderKeyConfig → bool.

(** What can happen to a running server: a request on some connection, a
    SIGHUP, and the marks and rounds of the health checker, whose probes may
    be of upstreams that have been removed since.  A round reads the targets and
    applies them to the health state in one step here; [fine_step] below takes the
    two locks one after the other, so that a reload can come in between. *)
Inductive server_step : Server → Server → Prop :=
| ss_serve srv env conn req :
    env_ok env → (∀ i s, health_state (interfere env i s) = health_state s) →
    map_Forall (λ _ d, dyn_wf d) (conn_lbs conn) →
    server_step srv (serve env srv conn req).1.1
| ss_reload srv loaded : server_step srv (reload tvalue_eqb provider_eqb srv loaded).1
| ss_mark_healthy srv u : server_step srv (upd_health (λ h, mark_healthy h u) srv)
| ss_mark_unhealthy srv u : server_step srv (upd_health (λ h, mark_unhealthy h u) srv)
| ss_round srv t :
    srv_targets srv = Some t →
    server_step srv (upd_health (λ h, sync_upstreams h (snapshot t)) srv).

Lemma server_step_in_step st srv srv' : server_step srv srv' → in_step st srv → in_step st srv'.
Proof.
  intros [srv0 env conn req He Hi Hl|srv0 loaded|srv0 u|srv0 u|srv0 t Ht] [Hv Hr Htg Hh Hst].
  - pose proof (serve_health env srv0 conn req He Hi Hl) as Hhs. revert Hhs. unfold serve.
    destruct (accept_service srv0 _ _) as [v s]. destruct (handle env v req _) as [s' r]. simpl.
    intros Hhs. split; simpl; try done. intros h u. rewrite Hhs. apply Hh.
  - unfold reload. destruct loaded as [c|]; [|done]. destruct (validate c) eqn:Ev; [|done].
    split; simpl; [by eapply validate_valid|done|..|done].
    + destruct (srv_targets srv0); naive_solver.
    + intros h u (h0 & _ & ->)%fmap_Some Hu. apply elem_of_sync_tracked. by apply elem_of_collect_upstreams.
  - split; simpl; try done. intros h x (h0 & Hh0 & ->)%fmap_Some Hx. simpl. specialize (Hh _ _ Hh0 Hx). set_solver.
  - split; simpl; try done. intros h x (h0 & Hh0 & ->)%fmap_Some Hx. simpl. by eapply Hh.
  - split; simpl; try done. intros h x (h0 & Hh0 & ->)%fmap_Some Hx.
    apply elem_of_sync_tracked. rewrite (Htg _ Ht). by apply elem_of_collect_upstreams.
Qed.

Lemma server_steps_in_step st srv srv' : rtc server_step srv srv' → in_step st srv → in_step st srv'.
Proof. induction 1; [done|]. intros. eauto using server_step_in_step. Qed.

(** The same with the round of the checker in its two halves: the list it has read
    and not applied yet is beside the server. *)
Inductive fine_step : Server * option (list string) → Server * option (list string) → Prop :=
| fs_step srv srv' pending : server_step srv srv' → fine_step (srv, pending) (srv', pending)
| fs_snapshot srv t pending :
    srv_targets srv = Some t → fine_step (srv, pending) (srv, Some (snapshot t))
| fs_sync srv l : fine_step (srv, Some l) (upd_health (λ h, sync_upstreams h l) srv, None).

(** Everything but the tracking of the upstreams. *)
Record configured (st : Settings) (srv : Server) : Prop := {
  cf_valid : config_valid (srv_config srv);
  cf_router : srv_router srv = build_router (srv_config srv);
  cf_targets t : srv_targets srv = Some t → snapshot t = collect_upstreams (srv_config srv);
  cf_settings : srv_settings srv = st;
}.

Lemma server_step_configured st srv srv' : server_step srv srv' → configured st srv → configured st srv'.
Proof.
  intros [srv0 env conn req He Hi Hl|srv0 loaded|srv0 u|srv0 u|srv0 t Ht] [Hv Hr Htg Hst]; try (by split).
  - unfold serve. destruct (accept_service srv0 _ _) as [v s]. by destruct (handle env v req _) as [s' r].
  - unfold reload. destruct loaded as [c|]; [|done]. destruct (validate c) eqn:Ev; [|done].
    split; simpl; [by eapply validate_valid|done|..|done]. destruct (srv_targets srv0); naive_solver.
Qed.

Lemma fine_step_configured st x y : fine_step x y → configured st x.1 → configured st y.1.
Proof. intros [srv srv' p Hs|srv t p Ht|srv l] Hc; [by eapply server_step_configured|done|by destruct Hc]. Qed.

Lemma fine_steps_configured st x y : rtc fine_step x y → configured st x.1 → configured st y.1.
Proof. induction 1; [done|]. eauto using fine_step_configured. Qed.

End props.

(** The tracker's invariant: a waiter that has not been reached saw a
    connection which is still there, or whose departure is about to be
    announced. *)
Definition tracker_inv (t : Tracker) : Prop :=
  (0 ≤ active t)%Z ∧
  match drain t with
  | Waiting false => (0 < active t)%Z ∨ (0 < notifying t)%nat
  | _ => True
  end.

Lemma tracker_step_inv t t' : tracker_step t t' → tracker_inv t → tracker_inv t'.
Proof.
  intros [t0|t0 Hp|t0 n Hn|t0 Hd|t0 hit Hd|t0 Hd] [Ha Hw]; unfold tracker_inv; cbn [active notifying drain].
  - split; [lia|]. destruct (drain t0) as [|[]|[]|]; try done. lia.
  - split; [lia|]. destruct (drain t0) as [|[]|[]|]; try done.
    destruct (Z.eqb_spec (active t0) 1); lia.
  - split; [done|]. by destruct (drain t0) as [|[]|[]|].
  - done.
  - split; [done|]. destruct (Z.eqb_spec (active t0) 0); [done|]. destruct hit; [done|]. lia.
  - done.
Qed.

Lemma tracker_steps_inv t t' : rtc tracker_step t t' → tracker_inv t → tracker_inv t'.
Proof. induction 1; [done|]. intros. eauto using tracker_step_inv. Qed.

(** ** Properties *)

(** C38: a running server stays consistent with its configuration.  After any
    sequence of requests, health marks and rounds, and reloads, good or bad,
    each one step (no reload between the moment a round of the health checker
    reads its targets and the moment it applies them), the configuration in force
    is valid, the router is built from it, the health checker's targets are its
    upstreams, and every server a path can be routed to is tracked by the health
    state; the settings of the accept loops are still the ones of the start. *)
Theorem server_stays_in_step `{HO : HttpOk} `{Lru} `{PluginTypes} `{SipHasher} `{GlobPattern} `{Toml}
    veq peq c is_tls quic chain ps srv0 srv :
  start c is_tls quic chain ps = Some srv0 → rtc (server_step veq peq) srv0 srv →
  config_valid (srv_config srv) ∧ srv_router srv = build_router (srv_config srv) ∧
  (∀ t, srv_targets srv = Some t → snapshot t = collect_upstreams (srv_config srv)) ∧
  (∀ h path rc u, health_state (srv_global srv) = Some h →
     get_route_config (srv_router srv) path = Some rc → u ∈ servers rc → u ∈ tracked h) ∧
  srv_settings srv = srv_settings srv0.
Proof.
  intros Hs%start_in_step Hr.
  destruct (server_steps_in_step veq peq _ _ _ Hr Hs) as [Hv Hro Ht Hh Hst].
  split_and!; try done. intros h path rc u Hhs Hrc Hu. eapply Hh; [done|].
  rewrite Hro in Hrc. apply fmap_Some in Hrc as ([p rc'] & Hf & ->).
  apply find_first_In in Hf as [Hin _]. by exists (p, rc').
Qed.

(** A reload may come between the two halves of a round: the configuration, the
    router and the targets then still belong together, and the next round that is
    not cut tracks every server a path can be routed to. *)
Theorem next_round_tracks_routes `{HO : HttpOk} `{Lru} `{PluginTypes} `{SipHasher} `{GlobPattern} `{Toml}
    veq peq c is_tls quic chain ps srv0 srv pending t :
  start c is_tls quic chain ps = Some srv0 → rtc (fine_step veq peq) (srv0, None) (srv, pending) →
  srv_targets srv = Some t →
  let srv' := upd_health (λ h, sync_upstreams h (snapshot t)) srv in
  config_valid (srv_config srv') ∧ srv_router srv' = build_router (srv_config srv') ∧
  snapshot t = collect_upstreams (srv_config srv') ∧ srv_settings srv' = srv_settings srv0 ∧
  ∀ h path rc u, health_state (srv_global srv') = Some h →
    get_route_config (srv_router srv') path = Some rc → u ∈ servers rc → u ∈ tracked h.
Proof.
  intros Hs%start_in_step Hr Ht srv'. assert (configured (srv_settings srv0) srv0) as Hc by (destruct Hs; by split).
  destruct (fine_steps_configured veq peq _ _ _ Hr Hc) as [Hv Hro Htg Hst]. simpl in Hv, Hro, Htg, Hst.
  split_and!; [done|done|by apply Htg|done|]. intros h path rc u Hh Hrc Hu.
  simpl in Hh. apply fmap_Some in Hh as (h0 & _ & ->). apply elem_of_sync_tracked. rewrite (Htg _ Ht).
  apply elem_of_collect_upstreams. simpl in Hrc. rewrite Hro in Hrc. apply fmap_Some in Hrc as ([p rc'] & Hf & ->).
  apply find_first_In in Hf as [Hin _]. by exists (p, rc').
Qed.

Module ServerDemo.

#[export] Existing Instance prefix_glob.

Definition doc (srvs : list string) (lbn : string) (timeout max_inflight : Z) : toml_value := TTable [
  ("port", TInteger 8080);
  ("paths", TTable [("/", TTable [("servers", TArray (TString <$> srvs)); ("lb", TString lbn)])]);
  ("health_check", TTable []);
  ("upstream_timeout_secs", TInteger timeout);
  ("reliability", TTable [("max_inflight_requests", TInteger max_inflight)])].

Definition config (d : toml_value) : result string Config := ConfigDemo.config_of d.

Definition started (d : toml_value) : option (@Server list_http list_lru Demo.demo_types _ _) :=
  match config d with Ok c => start c false false None () | Err _ => None end.

(** The value of an option that has one. *)
Definition the {A} (o : option A) : is_some o = true → A :=
  match o with Some a => λ _, a | None => λ H, False_rect _ (diff_false_true H) end.

Definition never_eqb {A} (a b : A) : bool := false.

Definition reload_to (srv : @Server list_http list_lru Demo.demo_types prefix_glob toml_value_Toml)
    (d : toml_value) : Server * list string :=
  reload never_eqb never_eqb srv (config d).

Definition peer : SocketAddr := {| ip := V4 2130706433; port := 4000 |}.

(** Metrics on, a limit of one and brownout from one request on. *)
Definition tight : toml_value := TTable [
  ("port", TInteger 8080); ("metrics_port", TInteger 9090);
  ("paths", TTable [("/", TArray [TString "a"])]);
  ("reliability", TTable [("max_inflight_requests", TInteger 1);
                          ("brownout_inflight_requests", TInteger 1)])].

(** Answers with the address it was asked for. *)
Definition echo : @Env list_http list_lru Demo.demo_types :=
  Demo.env_of (λ _ _ r, Demo.answer 200%Z [] [Data (req_uri r)]).

Definition get : @Request list_http := Demo.request GET "/x" [].

End ServerDemo.

Lemma server_stays_in_step_witness :
  let d := ServerDemo.doc ["a"] "" 600 10 in
  match ServerDemo.started d with
  | Some srv0 => config_valid (srv_config (ServerDemo.reload_to srv0 (ServerDemo.doc ["b"] "" 600 10)).1)
  | None => False
  end.
Proof.
  intros d. assert (is_some (ServerDemo.started d) = true) as Hsome by (vm_compute; reflexivity).
  destruct (ServerDemo.started d) as [srv0|] eqn:Es; [clear Hsome|discriminate Hsome].
  unfold ServerDemo.started in Es. destruct (ServerDemo.config d) as [c|]; [|discriminate Es].
  apply (server_stays_in_step (HO:=list_http_ok) (H0:=list_lru) (H1:=Demo.demo_types) (H3:=prefix_glob)
    (H4:=toml_value_Toml) ServerDemo.never_eqb ServerDemo.never_eqb c false false None () srv0 _ Es).
  apply rtc_once, ss_reload.
Defined.

(** a reload in the middle of a round loses the new servers: the checker then applies
    the list it read before, and the server the new configuration routes to is
    neither tracked nor healthy until the next round. *)
Theorem reload_within_round_loses_upstreams :
  let srv0 := ServerDemo.the (ServerDemo.started (ServerDemo.doc ["a"] "" 600 10)) eq_refl in
  let read := from_option snapshot [] (srv_targets srv0) in
  let srv1 := (ServerDemo.reload_to srv0 (ServerDemo.doc ["b"] "" 600 10)).1 in
  let srv2 := upd_health (λ h, sync_upstreams h read) srv1 in
  let healthy srv u := from_option (λ h, is_healthy h u) true (health_state (srv_global srv)) in
  (servers <$> get_route_config (srv_router srv2) "/x") = Some ["b"] ∧
  healthy srv1 "b" = true ∧ healthy srv2 "b" = false.
Proof. vm_compute. by split_and!. Qed.

(** the graceful shutdown cannot miss the last connection.  In any
    interleaving of connections opening and closing with the drain loop, a
    drain that is still waiting without having been notified has a live
    connection to wait for, or a closing one that is about to notify it; and
    when it reports that all connections are gone, none was active. *)
Theorem drain_never_misses_zero t :
  rtc tracker_step tracker_new t →
  (drain t = Waiting false → (0 < active t)%Z ∨ (0 < notifying t)%nat) ∧
  (∀ t', tracker_step t t' → drain t ≠ Drained → drain t' = Drained → active t' = 0%Z).
Proof.
  intros Ht. assert (tracker_inv t) as [Ha Hw] by (eapply tracker_steps_inv; [done|by split]). split.
  - intros Hd. by rewrite Hd in Hw.
  - intros t' Hst Hn Hd. destruct Hst; simpl in *; try congruence.
    + destruct (drain t); simpl in *; congruence.
    + by destruct (Z.eqb_spec (active t) 0).
Qed.

Lemma drain_never_misses_zero_witness :
  let t := {| active := 0; notifying := 1; drain := Waiting false |} in
  (0 < active t)%Z ∨ (0 < notifying t)%nat.
Proof.
  intros t. apply (drain_never_misses_zero t); [|reflexivity].
  eapply rtc_l; [apply (ts_increment tracker_new)|].
  eapply rtc_l; [apply ts_register; reflexivity|].
  eapply rtc_l; [apply (ts_load _ false); reflexivity|].
  eapply rtc_l; [apply ts_decrement; simpl; lia|]. apply rtc_refl.
Defined.

(** brownout comes first.  On a server whose configuration validated, a
    request the hard limit refuses has already turned the brownout gauge on,
    whenever a brownout threshold and metrics are configured: shedding load
    never precedes degrading it. *)
Theorem refusal_implies_brownout `{HO : HttpOk} `{Lru} `{PluginTypes} `{SipHasher} `{GlobPattern} `{Toml}
    c is_tls quic chain ps srv peer ext env method limit s s1 s2 cur e m :
  start c is_tls quic chain ps = Some srv →
  let svc := (accept_service srv peer ext).1 in
  svc_brownout_inflight svc = Some limit → sh_metrics s = Some m →
  enter_inflight svc s = (s1, Ok cur) → check_admission env svc method cur s1 = (s2, Err e) →
  brownout_active_gauge <$> sh_metrics s2 = Some 1%Z.
Proof.
  intros Hs svc Hb Hm Hen Had.
  assert (∀ mx, svc_max_inflight svc = Some mx → (limit ≤ mx)%Z) as Hle.
  { intros mx Hmx. unfold start in Hs. destruct (validate c) eqn:Hv; [|done]. simplify_eq/=.
    by apply (valid_brownout _ (validate_valid _ _ Hv) limit Hb). }
  unfold check_admission in Had. destruct cur as [cur|]; [|done].
  destruct (svc_max_inflight svc) as [mx|]; [|done].
  destruct (Z.ltb_spec mx cur) as [Hlt|]; [|done].
  assert (brownout_active_gauge <$> sh_metrics s1 = Some 1%Z) as H1s.
  { unfold enter_inflight, mbind_, gets, modify, upd_metrics, modify, mret in Hen.
    destruct (inflight_requests s) as [n|]; [|by simplify_eq]. rewrite Hb in Hen.
    destruct (Z.leb_spec limit (n + 1)) as [|Hgt].
    - destruct (n <? limit)%Z; simplify_eq/=; by rewrite Hm.
    - simplify_eq/=. specialize (Hle mx eq_refl). lia. }
  destruct (sh_metrics s1) as [m1|] eqn:Em1; [|done]. simpl in H1s.
  unfold fail_with, mbind_, svc_record_metrics, upd_metrics, modify, early in Had. simplify_eq/=.
  rewrite Em1. simpl. by f_equal.
Qed.

Lemma refusal_implies_brownout_witness :
  let c := ServerDemo.the (result_ok (ServerDemo.config ServerDemo.tight)) eq_refl in
  let srv := ServerDemo.the (start (H:=list_http) (H0:=list_lru) (H1:=Demo.demo_types) c
               false false None ()) eq_refl in
  let svc := (accept_service srv ServerDemo.peer ()).1 in
  let s1 := (enter_inflight svc (set_inflight (Some 1%Z) (srv_global srv))).1 in
  brownout_active_gauge <$> sh_metrics (check_admission ServerDemo.echo svc GET (Some 2%Z) s1).1
    = Some 1%Z.
Proof.
  intros c srv svc s1.
  apply (refusal_implies_brownout (HO:=list_http_ok) (H0:=list_lru) (H1:=Demo.demo_types) (H3:=prefix_glob)
    (H4:=toml_value_Toml) c false false None () srv ServerDemo.peer () ServerDemo.echo GET 1%Z
    (set_inflight (Some 1%Z) (srv_global srv)) s1 _ (Some 2%Z)
    (Early (error_response SERVICE_UNAVAILABLE ("503 Service Unavailable" +:+ nl))) metrics_new);
    vm_compute; reflexivity.
Defined.

(** balancers are not shared between connections, although [ProxyService]
    keeps them behind a shared map: every accepted connection starts with
    fresh ones.  Two requests on one connection alternate between the two
    servers of a weighted route; the same two requests on two connections both
    go to the first server. *)
Theorem balancers_restart_per_connection :
  let d := TTable [("port", TInteger 8080);
                   ("paths", TTable [("/", TTable [("servers", TArray [TString "a"; TString "b"]);
                      ("lb", TString "weighted-round-robin"); ("weights", TArray [TInteger 1; TInteger 1])])])] in
  let c := ServerDemo.the (result_ok (ServerDemo.config d)) eq_refl in
  let srv := ServerDemo.the (start (H:=list_http) (H0:=list_lru) (H1:=Demo.demo_types) c
               false false None ()) eq_refl in
  let conn s := accept s ServerDemo.peer () in
  let body (r : option (@Response list_http)) := resp_body <$> r in
  let '(s1, c1, r1) := serve ServerDemo.echo srv (conn srv) ServerDemo.get in
  let '(_, _, r2) := serve ServerDemo.echo s1 c1 ServerDemo.get in
  let '(_, _, r2') := serve ServerDemo.echo s1 (conn s1) ServerDemo.get in
  body r1 = Some [Data "http://a/x"] ∧ body r2 = Some [Data "http://b/x"] ∧
  body r2' = Some [Data "http://a/x"].
Proof. vm_compute. auto. Qed.

(** a reload does not tell everything it ignores.  A changed upstream
    timeout is warned about by the first reload and by no later one, although
    the running timeout is still the old one; a changed in-flight limit is
    neither applied nor warned about at all. *)
Theorem reload_warnings_incomplete :
  let c := ServerDemo.the (result_ok (ServerDemo.config (ServerDemo.doc ["a"] "" 600 10))) eq_refl in
  let srv := ServerDemo.the (start (H:=list_http) (H0:=list_lru) (H1:=Demo.demo_types) c
               false false None ()) eq_refl in
  let '(srv1, w1) := ServerDemo.reload_to srv (ServerDemo.doc ["a"] "" 5 10) in
  let '(srv2, w2) := ServerDemo.reload_to srv1 (ServerDemo.doc ["a"] "" 5 10) in
  let '(srv3, w3) := ServerDemo.reload_to srv2 (ServerDemo.doc ["a"] "" 5 99) in
  w1 = ["upstream_timeout_secs"] ∧ w2 = [] ∧ w3 = [] ∧
  st_upstream_timeout_secs (srv_settings srv3) = 600%Z ∧
  max_inflight_requests (st_reliability (srv_settings srv3)) = Some 10%Z ∧
  max_inflight_requests (cfg_reliability (srv_config srv3)) = Some 99%Z.
Proof. vm_compute. auto 10. Qed.
