(* ===== verification/ProxyFindings.v ===== *)
(** * Scenarios of the proxy handler

    Whole requests, run through [handle_boxed] on a small instance of the
    model: what one request leaves behind in the shared breaker or cache and
    what the next one sees.  Each theorem is a closed computation, or one with
    a clock left open. *)

From S2P Require Import Prelude RustStr Net Http ConfigTypes F64 Metrics Health RateLimit.
From S2P Require Import CircuitBreaker LoadBalancer Cache Compression Runtime Plugin Middleware.
From S2P Require Import ProxyHeaders Proxy ProxyProps.
Import (hints) Demo.

Local Open Scope string_scope.
Local Open Scope list_scope.

Module Scenario.

(** The demo environment with the clock stopped at [now]. *)
Definition env_at (now : Instant)
    (client : nat → Duration → @Request list_http → @UpstreamResult list_http)
    : @Env list_http list_lru Demo.demo_types := {|
  time _ _ := now; client := client; interfere _ s := s; compressor _ b := Some b;
  probe_json state _ := state; tls_name_ok _ := true; ws_connect _ _ := WsConnectError |}.

Definition status_of (r : option (@Response list_http)) : option Z := status <$> r.

Definition header_of (n : string) (r : option (@Response list_http)) : option (list string) :=
  (λ r, get_all n (resp_headers r)) <$> r.

Definition body_of (r : option (@Response list_http)) : option Body := resp_body <$> r.

Definition always (a : @UpstreamResult list_http)
    : nat → Duration → @Request list_http → @UpstreamResult list_http := λ _ _ _, a.

Definition with_cache (s : @Shared list_http list_lru Demo.demo_types) :=
  set_sh_cache (Some (cache_new 1 60)) s.

(** A plugin that rewrites the path of every request. *)
Definition rewriter : @Plugin list_http Demo.demo_types := {|
  name := "rewriter";
  on_request ps ctx :=
    (ps, {| ctx_peer_addr := ctx_peer_addr ctx; ctx_method := ctx_method ctx;
            ctx_uri := ("/rewritten" : @Uri list_http);
            ctx_version := ctx_version ctx; ctx_headers := ctx_headers ctx; ctx_body := ctx_body ctx;
            ctx_route := ctx_route ctx; ctx_selected_upstream := ctx_selected_upstream ctx;
            ctx_auth := ctx_auth ctx; ctx_connection := ctx_connection ctx;
            ctx_extensions := ctx_extensions ctx |}, Continue);
  on_upstream_select ps ctx servers := (ps, ctx, servers, Continue);
  on_response ps ctx rc := (ps, ctx, rc, Continue);
  transform_response ps ctx r := (ps, ctx, r);
  on_error ps ctx e := (ps, ctx, Continue);
  wrap_response_body ps ctx rc b := b |}.

Definition with_plugins (ps : @PluginChain list_http Demo.demo_types) (svc : ProxyService) : ProxyService := {|
  router := router svc; peer_addr := peer_addr svc; tls := tls svc;
  compression_enabled := compression_enabled svc; max_request_body_bytes := max_request_body_bytes svc;
  upstream_timeout := upstream_timeout svc; h3_port := h3_port svc;
  svc_max_inflight := svc_max_inflight svc; svc_brownout_inflight := svc_brownout_inflight svc;
  svc_retry_budget := svc_retry_budget svc; plugins := Some ps;
  connection_extensions := connection_extensions svc |}.

(** A client that answers with the URI it was asked for. *)
Definition echo : nat → Duration → @Request list_http → @UpstreamResult list_http :=
  λ _ _ r, Demo.answer 200%Z [] [Data (req_uri r)].

End Scenario.
Import Scenario.

(** a timed-out probe locks its server out for good.  The circuit of the
    only server opened and cooled down; the next request is its half-open
    probe and times out, which records no outcome: from then on, at any later
    time, the proxy answers 503 although the server would answer 200. *)
Theorem timed_out_probe_locks_server_out (now : Instant) :
  let s := set_breaker (Some (record_failure (new 1 10 60) "a" (λ _, 0%Z))) Demo.shared0 in
  let req := Demo.request GET "/x" [] in
  let r1 := handle_boxed (env_at (from_secs 11) (always TimedOut)) (Demo.svc_for ["a"]) req s in
  let r2 := handle_boxed (env_at now (always (Demo.answer 200%Z [] []))) (Demo.svc_for ["a"]) req r1.1 in
  status_of r1.2 = Some 504%Z ∧ status_of r2.2 = Some 503%Z.
Proof. intros s req r1 r2. split; vm_compute; reflexivity. Qed.

(** a response to a request that says [no-store] is stored all the same,
    and the next request without it is answered from the cache. *)
Theorem no_store_request_is_stored :
  let env := env_at 0%Z (always (Demo.answer 200%Z [] [Data "private"])) in
  let down := env_at 1%Z (always (Failed "refused")) in
  let svc := Demo.svc_for ["a"] in
  let r1 := handle_boxed env svc (Demo.request GET "/x" [("cache-control", "no-store")])
              (with_cache Demo.shared0) in
  let r2 := handle_boxed down svc (Demo.request GET "/x" []) r1.1 in
  status_of r1.2 = Some 200%Z ∧ status_of r2.2 = Some 200%Z ∧
  body_of r2.2 = Some [Data "private"] ∧ header_of "x-cache" r2.2 = Some ["HIT"].
Proof. vm_compute. auto. Qed.

(** a body that breaks off becomes an empty success, and the cache keeps
    it.  To a client that accepts gzip, an upstream answer whose body fails
    midway is delivered as a complete, empty 200; the empty answer is then
    served to everyone as a cache hit, while without compression the same
    answer is a 502 and nothing is stored. *)
Theorem broken_body_is_cached_empty :
  let env := env_at 0%Z (always (Demo.answer 200%Z [] [Data "half"; ReadError])) in
  let up := env_at 1%Z (always (Demo.answer 200%Z [] [Data "whole"])) in
  let svc := Demo.svc_for ["a"] in
  let r1 := handle_boxed env svc (Demo.request GET "/x" [("accept-encoding", "gzip")])
              (with_cache Demo.shared0) in
  let r2 := handle_boxed up svc (Demo.request GET "/x" []) r1.1 in
  let q1 := handle_boxed env svc (Demo.request GET "/x" []) (with_cache Demo.shared0) in
  let q2 := handle_boxed up svc (Demo.request GET "/x" []) q1.1 in
  status_of r1.2 = Some 200%Z ∧ body_of r1.2 = Some [] ∧
  status_of r2.2 = Some 200%Z ∧ body_of r2.2 = Some [] ∧ header_of "x-cache" r2.2 = Some ["HIT"] ∧
  status_of q1.2 = Some 502%Z ∧ body_of q2.2 = Some [Data "whole"].
Proof. vm_compute. auto 10. Qed.

(** a path rewritten by a plugin is used by the retry loop and ignored by
    the single attempt: the same request and plugin reach [/rewritten] when the
    route has two servers and the original path when it has one. *)
Theorem rewritten_path_needs_two_servers :
  let env := env_at 0%Z echo in
  let run srvs := handle_boxed env (with_plugins [rewriter] (Demo.svc_for srvs))
                    (Demo.request GET "/original" []) Demo.shared0 in
  body_of (run ["a"]).2 = Some [Data "http://a/original"] ∧
  body_of (run ["a"; "b"]).2 = Some [Data "http://a/rewritten"].
Proof. vm_compute. auto. Qed.
