(* ===== verification/AuthProps.v ===== *)
(** * The authentication service: properties

    The service of [Auth.v] as a transition system over any store that meets
    the contract of [AuthStore.v], restarts included; its caches stay in step
    with the store; and what that means for bearers of tokens. *)

From S2P Require Import Prelude RecordSet StateResult RustStr ConfigSurfaces Sql AuthStore Auth.

Local Open Scope string_scope.
Local Open Scope list_scope.
Local Open Scope rust_scope.

(** ** Decisions *)

Section decisions.
Context {St : Type} `{TokenDigest}.

(** The decision a bearer of [token] gets. *)
Definition access (s : AuthService St) (token : string) (p : Permission)
    (project : option ProjectId) : bool :=
  match authenticate_bearer s token with
  | Some ctx => is_allowed ctx p project
  | None => false
  end.

Lemma authenticate_cases (s : AuthService St) token ctx :
  authenticate_bearer s token = Some ctx ↔
  (bootstrap_token s = Some token ∧ ctx = bootstrap_context) ∨
  (bootstrap_token s ≠ Some token ∧ ∃ t p,
     tokens s !! hash_token token = Some t ∧ tk_active t = true ∧
     principals s !! tk_principal_id t = Some p ∧ pn_active p = true ∧
     assignments_for_principal s (tk_principal_id t) ≠ [] ∧
     ctx = {| ac_principal_id := pn_principal_id p; ac_source := ControlPlaneToken;
              ac_assignments := assignments_for_principal s (tk_principal_id t) |}).
Proof.
  unfold authenticate_bearer. case_bool_decide as Hb; [split; [intros [= <-]; by left|by intros [[_ ->]|[? _]]]|].
  split.
  - intros E. right. split; [done|].
    destruct (tokens s !! _) as [t|]; simpl in E; [|done]. destruct (tk_active t) eqn:Et; simpl in E; [|done].
    destruct (principals s !! _) as [p|] eqn:Ep; simpl in E; [|done]. destruct (pn_active p) eqn:Epa; simpl in E; [|done].
    destruct (assignments_for_principal _ _) eqn:Ea; [done|]. injection E as <-.
    exists t, p. by rewrite Ea.
  - intros [[? _]|(_ & t & p & -> & Ht & Hp & Hpa & Ha & ->)]; [done|]. simpl. rewrite Ht. simpl.
    rewrite Hp. simpl. rewrite Hpa. simpl. by destruct (assignments_for_principal _ _).
Qed.

Lemma assignment_allows_spec p project a :
  assignment_allows p project a = true ↔
  ra_role a = InstanceAdmin ∨
  (role_allows (ra_role a) p = true ∧
   match project with
   | Some q => ra_project_id a = Some q
   | None => instance_only p = true → ra_project_id a = None
   end).
Proof.
  unfold assignment_allows. case_bool_decide as Hi; [by split; [left|]|].
  destruct project as [q|].
  - case_bool_decide as Hq; [naive_solver|]. split; [|by intros [?|[? _]]].
    intros Ha. right. split; [done|]. by destruct (decide (ra_project_id a = Some q)).
  - case_bool_decide as Hs; simpl; [destruct (instance_only p) eqn:Ep|].
    + split; [done|]. intros [?|[_ Hn]]; [done|]. rewrite (Hn eq_refl) in Hs. by destruct Hs.
    + naive_solver.
    + split; [intros Ha; right; split; [done|]|by intros [?|[? _]]].
      intros _. by destruct (ra_project_id a); [destruct Hs|].
Qed.

(** C5: access is scoped.  A bearer may use a permission in a project exactly
    when it presents the bootstrap token, or an active token of an active
    principal one of whose bindings names a known role that is the instance
    administrator's or belongs to that project and has the permission.  Without a
    project, the three administrative permissions need a binding without one. *)
Theorem access_exact (s : AuthService St) token p project :
  access s token p project = true ↔
  bootstrap_token s = Some token ∨
  ∃ t pn b role,
    tokens s !! hash_token token = Some t ∧ tk_active t = true ∧
    principals s !! tk_principal_id t = Some pn ∧ pn_active pn = true ∧
    b ∈ default [] (bindings s !! tk_principal_id t) ∧ role_parse (rb_role b) = Some role ∧
    (role = InstanceAdmin ∨
     (role_allows role p = true ∧
      match project with
      | Some q => rb_project_id b = Some q
      | None => instance_only p = true → rb_project_id b = None
      end)).
Proof.
  unfold access. split.
  - destruct (authenticate_bearer s token) as [ctx|] eqn:E; [|done].
    apply authenticate_cases in E as [[Hb _]|(_ & t & pn & Ht & Hta & Hp & Hpa & _ & ->)]; [by left|].
    unfold is_allowed. simpl. intros (a & Hin & Ha)%existsb_exists. right.
    apply list_elem_of_In in Hin. unfold assignments_for_principal, filter_map in Hin.
    apply list_elem_of_omap in Hin as (b & Hb & Hba). unfold binding_assignment in Hba.
    destruct (role_parse (rb_role b)) as [role|] eqn:Er; [|done]. simpl in Hba. injection Hba as <-.
    apply assignment_allows_spec in Ha. by exists t, pn, b, role.
  - intros [Hb|(t & pn & b & role & Ht & Hta & Hp & Hpa & Hb & Hr & Hok)].
    + unfold authenticate_bearer. by rewrite bool_decide_eq_true_2.
    + assert (Hin : {| ra_role := role; ra_project_id := rb_project_id b |}
                    ∈ assignments_for_principal s (tk_principal_id t)).
      { unfold assignments_for_principal, filter_map. apply list_elem_of_omap. exists b.
        split; [done|]. unfold binding_assignment. by rewrite Hr. }
      destruct (authenticate_bearer s token) as [ctx|] eqn:E.
      * apply authenticate_cases in E as [[_ ->]|(_ & t' & pn' & Ht' & _ & Hp' & _ & _ & ->)]; [done|].
        rewrite Ht in Ht'. injection Ht' as <-. unfold is_allowed. simpl. apply existsb_exists.
        eexists. split; [by apply list_elem_of_In|]. by apply assignment_allows_spec.
      * unfold authenticate_bearer in E. case_bool_decide; [done|]. rewrite Ht in E. simpl in E.
        rewrite Hta in E. simpl in E. rewrite Hp in E. simpl in E. rewrite Hpa in E. simpl in E.
        destruct (assignments_for_principal _ _); [by apply elem_of_nil in Hin|done].
Qed.

End decisions.

(** ** Running a service *)

Section running.
Context {St : Type} `{AuthStoreOk St} `{TokenDigest}.

(** The operations that change a service. *)
Inductive auth_op :=
| OpEnsureProject (project_id name : string) (description : option string) (now : option Z)
| OpCreateProject (project_id name : string) (description : option string) (now : option Z)
| OpUpsertProject (record : ProjectRecord)
| OpDeleteProject (project_id : string)
| OpCreatePrincipal (name : string) (random_bytes : list Z) (now : option Z)
| OpUpsertPrincipal (record : PrincipalRecord)
| OpDeletePrincipal (principal_id : string)
| OpCreateToken (principal_id name : string) (random_bytes : list Z) (now : option Z)
| OpDeleteToken (token_hash : string)
| OpCreateRoleBinding (principal_id : string) (role : Role) (project_id : option string)
    (random_bytes : list Z) (now : option Z)
| OpDeleteRoleBinding (binding_id : string).

Definition auth_apply (s : AuthService St) (o : auth_op) : AuthService St :=
  match o with
  | OpEnsureProject p n d t => (auth_ensure_project p n d t s).1
  | OpCreateProject p n d t => (auth_create_project p n d t s).1
  | OpUpsertProject r => (auth_upsert_project r s).1
  | OpDeleteProject p => (auth_delete_project p s).1
  | OpCreatePrincipal n b t => (auth_create_principal n b t s).1
  | OpUpsertPrincipal r => (auth_upsert_principal r s).1
  | OpDeletePrincipal p => (auth_delete_principal p s).1
  | OpCreateToken p n b t => (auth_create_token p n b t s).1
  | OpDeleteToken h => (auth_delete_token h s).1
  | OpCreateRoleBinding p r q b t => (auth_create_role_binding p r q b t s).1
  | OpDeleteRoleBinding b => (auth_delete_role_binding b s).1
  end.

(** The process starts over the same store. *)
Definition auth_restart (s : AuthService St) : AuthService St * result StoreError () :=
  auth_load_from_store (auth_new (store s) (bootstrap_token s)).

(** What the service's store holds; empty without one. *)
Definition no_tables : AuthTables :=
  {| auth_projects := ∅; auth_principals := ∅; auth_tokens := ∅; auth_role_bindings := ∅ |}.

Definition stored (s : AuthService St) : AuthTables := from_option tables no_tables (store s).

Definition bindings_of (p : string) (bs : list RoleBindingRecord) : list RoleBindingRecord :=
  filter (λ b, rb_principal_id b = p) bs.

Definition stored_bindings (s : AuthService St) (p : string) : list RoleBindingRecord :=
  bindings_of p (rows (auth_role_bindings (stored s))).

Definition cached_bindings (s : AuthService St) (p : string) : list RoleBindingRecord :=
  default [] (bindings s !! p).

(** Random identifiers do not repeat: a new binding's is not in use, and a
    principal that is introduced has no bindings yet. *)
Definition op_fresh (s : AuthService St) (o : auth_op) : Prop :=
  match o with
  | OpCreatePrincipal _ b _ =>
      is_Some (principals s !! generate_id "prn" b) ∨ stored_bindings s (generate_id "prn" b) = []
  | OpUpsertPrincipal r =>
      is_Some (principals s !! pn_principal_id r) ∨ stored_bindings s (pn_principal_id r) = []
  | OpCreateRoleBinding _ _ _ b _ => auth_role_bindings (stored s) !! generate_id "rb" b = None
  | _ => True
  end.

(** One step of a service whose callers only use the operations [may]. *)
Inductive auth_step (may : auth_op → Prop) : AuthService St → AuthService St → Prop :=
| auth_step_op s o : may o → op_fresh s o → auth_step may s (auth_apply s o)
| auth_step_restart s s' : auth_restart s = (s', Ok ()) → auth_step may s s'.

Definition any_op (_ : auth_op) : Prop := True.

(** The operations that do not issue the token with digest [h]. *)
Definition not_issuing (h : string) (o : auth_op) : Prop :=
  match o with
  | OpCreateToken _ _ b _ => hash_token (generate_plaintext_token b) ≠ h
  | _ => True
  end.

(** The operations that do not introduce the principal [p]. *)
Definition not_introducing (p : string) (o : auth_op) : Prop :=
  match o with
  | OpCreatePrincipal _ b _ => generate_id "prn" b ≠ p
  | OpUpsertPrincipal r => pn_principal_id r ≠ p
  | _ => True
  end.

(** A row sits under its own key. *)
Definition tables_wf (t : AuthTables) : Prop :=
  map_Forall (λ k r, pr_project_id r = k) (auth_projects t) ∧
  map_Forall (λ k r, pn_principal_id r = k) (auth_principals t) ∧
  map_Forall (λ k r, tk_token_hash r = k) (auth_tokens t) ∧
  map_Forall (λ k r, rb_binding_id r = k) (auth_role_bindings t).

(** The caches mirror the store; the bindings of a deleted principal stay
    behind in the store, those of a live one agree up to order. *)
Definition in_sync (s : AuthService St) : Prop :=
  is_Some (store s) ∧ tables_wf (stored s) ∧
  projects s = auth_projects (stored s) ∧
  principals s = auth_principals (stored s) ∧
  tokens s = auth_tokens (stored s) ∧
  ∀ p, cached_bindings s p ⊆+ stored_bindings s p ∧
       (is_Some (principals s !! p) → cached_bindings s p ≡ₚ stored_bindings s p).

(** *** Reloading gives back what the store holds *)

Lemma foldl_insert_lookup {A} (key : A → string) (m acc : gmap string A) l k :
  Forall (λ r, m !! key r = Some r) l →
  foldl (λ acc r, <[key r := r]> acc) acc l !! k
  = if decide (k ∈ key <$> l) then m !! k else acc !! k.
Proof.
  induction l as [|r l IH] using rev_ind; intros HF; [done|].
  rewrite foldl_app, fmap_app. simpl. apply Forall_app in HF as [HF1 HF2].
  apply Forall_cons_1 in HF2 as [HF2 _]. destruct (decide (key r = k)) as [<-|Hne].
  - rewrite lookup_insert_eq, decide_True; [done|]. set_solver.
  - rewrite lookup_insert_ne, IH by done.
    by rewrite (decide_ext (k ∈ (key <$> l) ++ [key r]) (k ∈ key <$> l)) by set_solver.
Qed.

Lemma foldl_insert_rows {A} (key : A → string) (m : gmap string A) l :
  map_Forall (λ k r, key r = k) m → l ≡ₚ rows m →
  foldl (λ acc r, <[key r := r]> acc) ∅ l = m.
Proof.
  intros Hkey Hl.
  assert (Hin : ∀ r, r ∈ l ↔ m !! key r = Some r).
  { intros r. rewrite Hl. unfold rows. rewrite list_elem_of_fmap. split.
    - intros ([k r'] & -> & Hkr%elem_of_map_to_list). simpl. by rewrite (Hkey _ _ Hkr).
    - intros Hr. exists (key r, r). by rewrite elem_of_map_to_list. }
  apply map_eq. intros k. rewrite (foldl_insert_lookup key m).
  2:{ apply Forall_forall. intros r. by rewrite Hin. }
  case_decide as Hk; [done|]. rewrite lookup_empty. symmetry.
  destruct (m !! k) as [r|] eqn:E; [|done]. exfalso. apply Hk.
  rewrite list_elem_of_fmap. exists r. rewrite Hin. by rewrite (Hkey _ _ E).
Qed.

(** The loop that fills a cache with [ins]. *)
Lemma st_for_modify {A} (f : A → AuthService St → AuthService St) l s :
  st_for (E := StoreError) l (λ a, st_modify (f a)) s = (foldl (λ s a, f a s) s l, Ok ()).
Proof. revert s. induction l as [|a l IH]; intros s; [done|]. simpl. unfold mbind, ST_bind. simpl. apply IH. Qed.

Lemma foldl_cache_binding (l : list RoleBindingRecord) (s : AuthService St) p :
  let s' := foldl (λ s b, s <| bindings :=
      <[rb_principal_id b := default [] (bindings s !! rb_principal_id b) ++ [b]]> (bindings s) |>) s l in
  cached_bindings s' p = cached_bindings s p ++ bindings_of p l.
Proof.
  simpl. revert s. induction l as [|b l IH]; intros s; simpl; [by rewrite app_nil_r|].
  rewrite IH. unfold cached_bindings. simpl. unfold bindings_of. rewrite filter_cons.
  destruct (decide (rb_principal_id b = p)) as [<-|Hne].
  - rewrite lookup_insert_eq. simpl. by rewrite <-app_assoc.
  - by rewrite lookup_insert_ne.
Qed.


(** A loop that only changes one cache. *)
Ltac fold_one_cache l :=
  induction l as [|? l IH]; intros s; [by destruct s|]; simpl; by rewrite IH.

Lemma foldl_projects l : ∀ s : AuthService St,
  foldl (λ s r, s <| projects := <[pr_project_id r := r]> (projects s) |>) s l
  = s <| projects := foldl (λ m r, <[pr_project_id r := r]> m) (projects s) l |>.
Proof. fold_one_cache l. Qed.

Lemma foldl_principals l : ∀ s : AuthService St,
  foldl (λ s r, s <| principals := <[pn_principal_id r := r]> (principals s) |>) s l
  = s <| principals := foldl (λ m r, <[pn_principal_id r := r]> m) (principals s) l |>.
Proof. fold_one_cache l. Qed.

Lemma foldl_tokens l : ∀ s : AuthService St,
  foldl (λ s r, s <| tokens := <[tk_token_hash r := r]> (tokens s) |>) s l
  = s <| tokens := foldl (λ m r, <[tk_token_hash r := r]> m) (tokens s) l |>.
Proof. fold_one_cache l. Qed.

Lemma foldl_bindings l : ∀ s : AuthService St,
  foldl (λ s b, s <| bindings :=
    <[rb_principal_id b := default [] (bindings s !! rb_principal_id b) ++ [b]]> (bindings s) |>) s l
  = s <| bindings := foldl (λ m b,
      <[rb_principal_id b := default [] (m !! rb_principal_id b) ++ [b]]> m) (bindings s) l |>.
Proof. fold_one_cache l. Qed.

(** One query of the reload. *)
Lemma reload_rows_ok {A} (q : ST St StoreError (list A)) f (s s' : AuthService St) :
  reload_rows q (λ a, st_modify (f a)) s = (s', Ok ()) → is_Some (store s) →
  ∃ st st' l, store s = Some st ∧ q st = (st', Ok l) ∧
    s' = foldl (λ s a, f a s) (s <| store := Some st' |>) l.
Proof.
  intros E [st Hst]. unfold reload_rows in E. apply ST_bind_ok in E as (s1 & rows & E1 & E2).
  unfold with_store in E1. rewrite Hst in E1. destruct (q st) as [st' [l|e]] eqn:Eq; [|done].
  simpl in E1. injection E1 as <- <-. simpl in E2. rewrite st_for_modify in E2.
  injection E2 as <-. by exists st, st', l.
Qed.

Lemma filter_matches_none {A} (f : A → option string) (l : list A) :
  filter (λ x, matches_opt None (f x) = true) l = l.
Proof. apply filter_all. Qed.

(** After a reload the caches hold exactly what the store holds. *)
Lemma load_in_sync (s s' : AuthService St) :
  auth_load_from_store s = (s', Ok ()) → is_Some (store s) → tables_wf (stored s) →
  in_sync s' ∧ stored s' = stored s ∧ bootstrap_token s' = bootstrap_token s ∧
  ∀ p, cached_bindings s' p ≡ₚ stored_bindings s' p.
Proof.
  intros E [st0 Hst0] (Hw1 & Hw2 & Hw3 & Hw4). unfold auth_load_from_store in E.
  unfold mbind at 1, ST_bind at 1 in E. simpl in E. rewrite Hst0 in E.
  apply ST_bind_ok in E as (s1 & [] & [= <-] & E).
  apply ST_bind_ok in E as (s2 & [] & E1 & E).
  apply ST_bind_ok in E as (s3 & [] & E2 & E).
  apply ST_bind_ok in E as (s4 & [] & E3 & E4).
  apply reload_rows_ok in E1 as (st & st1 & l1 & Hs1 & Q1 & ->); [|by rewrite Hst0].
  simpl in Hs1. rewrite Hst0 in Hs1. injection Hs1 as <-.
  cbv beta in E2. rewrite foldl_projects in E2.
  apply reload_rows_ok in E2 as (? & st2 & l2 & [= <-] & Q2 & ->); [|done].
  cbv beta in E3. rewrite foldl_principals in E3.
  apply reload_rows_ok in E3 as (? & st3 & l3 & [= <-] & Q3 & ->); [|done].
  cbv beta in E4. rewrite foldl_tokens in E4.
  apply reload_rows_ok in E4 as (? & st4 & l4 & [= <-] & Q4 & ->); [|done].
  apply query_projects in Q1 as [T1 P1]. apply query_principals in Q2 as [T2 P2].
  apply query_tokens in Q3 as [T3 P3]. apply query_bindings in Q4 as [T4 P4].
  specialize (P1 _ eq_refl). specialize (P2 _ eq_refl). specialize (P3 _ eq_refl).
  specialize (P4 _ eq_refl). rewrite filter_matches_none in P3.
  assert (P4' : l4 ≡ₚ rows (auth_role_bindings (tables st3))).
  { rewrite P4. erewrite (filter_ext _ (λ _, true = true)); [by rewrite filter_all|]. done. }
  clear P4. unfold stored in *. rewrite Hst0 in *. simpl in *.
  assert (Hb : ∀ p, cached_bindings (foldl (λ s b, s <| bindings :=
      <[rb_principal_id b := default [] (bindings s !! rb_principal_id b) ++ [b]]> (bindings s) |>)
      {| store := Some st4; bootstrap_token := bootstrap_token s;
         projects := foldl (λ m a, <[pr_project_id a := a]> m) ∅ l1;
         principals := foldl (λ m a, <[pn_principal_id a := a]> m) ∅ l2;
         tokens := foldl (λ m a, <[tk_token_hash a := a]> m) ∅ l3; bindings := ∅ |} l4) p
      ≡ₚ bindings_of p (rows (auth_role_bindings (tables st4)))).
  { intros p. rewrite foldl_cache_binding. unfold cached_bindings at 1. simpl.
    unfold bindings_of. by rewrite P4', T4. }
  simpl in Hb. rewrite foldl_bindings in Hb |- *. simpl in *.
  unfold in_sync, stored_bindings, stored. simpl. rewrite T4, T3, T2, T1 in *.
  split_and!; try done.
  - by apply foldl_insert_rows.
  - by apply foldl_insert_rows.
  - by apply foldl_insert_rows.
  - intros p. split; [by rewrite Hb|]. intros _. apply Hb.
Qed.

(** *** Every operation keeps the caches in step with the store *)

Lemma with_store_cases {A} (op : ST St StoreError A) (s : AuthService St) :
  is_Some (store s) →
  ∃ st st' r, store s = Some st ∧ op st = (st', r) ∧
    with_store op s = (s <| store := Some st' |>, result_map Some r).
Proof.
  intros [st Hst]. unfold with_store. rewrite Hst. destruct (op st) as [st' r] eqn:E.
  by exists st, st', r.
Qed.

(** Opens an operation on a service that has a store. *)
Ltac run_store Hst :=
  match goal with
  | |- context [with_store ?op ?s] =>
      let st := fresh "st" in let st' := fresh "st'" in let r := fresh "r" in
      let E1 := fresh "Est" in let E2 := fresh "Eop" in let E3 := fresh "Ews" in
      destruct (with_store_cases op s Hst) as (st & st' & r & E1 & E2 & E3); rewrite ?E3
  end.

Lemma auth_upsert_project_sync r (s : AuthService St) :
  in_sync s → in_sync (auth_upsert_project r s).1.
Proof.
  intros (Hst & (W1 & W2 & W3 & W4) & HP & HN & HT & HB). unfold auth_upsert_project, mbind, ST_bind.
  run_store Hst. apply write_project in Eop. destruct r0 as [[]|e]; simpl;
    unfold in_sync, tables_wf, stored_bindings, stored in *; rewrite Est in *; simpl in *; rewrite Eop;
    split_and!; try done; simpl.
  - by apply map_Forall_insert_2.
  - by rewrite HP.
Qed.

Lemma auth_delete_project_sync k (s : AuthService St) :
  in_sync s → in_sync (auth_delete_project k s).1.
Proof.
  intros (Hst & (W1 & W2 & W3 & W4) & HP & HN & HT & HB).
  unfold auth_delete_project, mbind, ST_bind. simpl.
  run_store Hst. apply remove_project in Eop. destruct r as [b|e]; simpl;
    unfold in_sync, tables_wf, stored_bindings, stored in *; rewrite Est in *; simpl in *;
    [destruct Eop as [Eop _]|]; rewrite Eop; split_and!; try done; simpl.
  - by apply map_Forall_delete.
  - by rewrite HP.
Qed.

Lemma auth_create_token_sync p n b t (s : AuthService St) :
  in_sync s → in_sync (auth_create_token p n b t s).1.
Proof.
  intros (Hst & (W1 & W2 & W3 & W4) & HP & HN & HT & HB). unfold auth_create_token, mbind, ST_bind.
  run_store Hst. apply write_token in Eop. destruct r as [[]|e]; simpl;
    unfold in_sync, tables_wf, stored_bindings, stored in *; rewrite Est in *; simpl in *; rewrite Eop;
    split_and!; try done; simpl.
  - by apply map_Forall_insert_2.
  - by rewrite HT.
Qed.

Lemma auth_delete_token_sync k (s : AuthService St) :
  in_sync s → in_sync (auth_delete_token k s).1.
Proof.
  intros (Hst & (W1 & W2 & W3 & W4) & HP & HN & HT & HB).
  unfold auth_delete_token, mbind, ST_bind. simpl.
  run_store Hst. apply remove_token in Eop. destruct r as [b|e]; simpl;
    unfold in_sync, tables_wf, stored_bindings, stored in *; rewrite Est in *; simpl in *;
    [destruct Eop as [Eop _]|]; rewrite Eop; split_and!; try done; simpl.
  - by apply map_Forall_delete.
  - by rewrite HT.
Qed.

(** A principal that is introduced has no bindings that could come back. *)
Lemma auth_upsert_principal_sync r (s : AuthService St) :
  in_sync s →
  is_Some (principals s !! pn_principal_id r) ∨ stored_bindings s (pn_principal_id r) = [] →
  in_sync (auth_upsert_principal r s).1.
Proof.
  intros (Hst & (W1 & W2 & W3 & W4) & HP & HN & HT & HB) Hfresh.
  unfold auth_upsert_principal, mbind, ST_bind.
  run_store Hst. apply write_principal in Eop. destruct r0 as [[]|e]; simpl;
    unfold in_sync, tables_wf, stored_bindings, cached_bindings, stored in *; rewrite Est in *; simpl in *; rewrite Eop;
    split_and!; try done; simpl.
  - by apply map_Forall_insert_2.
  - by rewrite HN.
  - intros p. destruct (HB p) as [HB1 HB2]. split; [done|]. intros Hp.
    destruct (decide (pn_principal_id r = p)) as [<-|Hne].
    + destruct Hfresh as [Hin|Hnil]; [by apply HB2|]. rewrite Hnil in HB1 |- *.
      apply submseteq_nil_r in HB1. by rewrite HB1.
    + rewrite lookup_insert_ne in Hp by done. by apply HB2.
Qed.

Lemma auth_delete_principal_sync k (s : AuthService St) :
  in_sync s → in_sync (auth_delete_principal k s).1.
Proof.
  intros (Hst & (W1 & W2 & W3 & W4) & HP & HN & HT & HB).
  unfold auth_delete_principal, mbind, ST_bind. simpl.
  run_store Hst. apply remove_principal in Eop. destruct r as [b|e]; simpl;
    unfold in_sync, tables_wf, stored_bindings, cached_bindings, stored in *; rewrite Est in *; simpl in *;
    [destruct Eop as [Eop _]|]; rewrite Eop; split_and!; try done; simpl.
  - by apply map_Forall_delete.
  - by rewrite HN.
  - intros p. destruct (HB p) as [HB1 HB2]. destruct (decide (k = p)) as [<-|Hne].
    + rewrite !lookup_delete_eq. simpl. split; [apply submseteq_nil_l|]. by intros [? ?].
    + by rewrite !lookup_delete_ne.
Qed.

Lemma auth_create_role_binding_sync p role q b t (s : AuthService St) :
  in_sync s → auth_role_bindings (stored s) !! generate_id "rb" b = None →
  in_sync (auth_create_role_binding p role q b t s).1.
Proof.
  intros (Hst & (W1 & W2 & W3 & W4) & HP & HN & HT & HB) Hfresh.
  unfold auth_create_role_binding, mbind, ST_bind.
  run_store Hst. apply write_binding in Eop. destruct r as [[]|e]; simpl;
    unfold in_sync, tables_wf, stored_bindings, cached_bindings, stored in *; rewrite Est in *; simpl in *; rewrite Eop;
    split_and!; try done; simpl.
  - by apply map_Forall_insert_2.
  - intros p'. destruct (HB p') as [HB1 HB2]. unfold bindings_of.
    rewrite rows_insert_new by done. rewrite filter_cons. simpl.
    destruct (decide (p = p')) as [<-|Hne].
    + rewrite lookup_insert_eq. simpl. split.
      * rewrite (Permutation_app_comm _ [_]). by apply submseteq_skip.
      * intros Hp. rewrite (Permutation_app_comm _ [_]). simpl. by rewrite (HB2 Hp).
    + by rewrite lookup_insert_ne.
Qed.

Lemma submseteq_filter {A} (P : A → Prop) `{∀ x, Decision (P x)} (l k : list A) :
  l ⊆+ k → filter P l ⊆+ filter P k.
Proof.
  intros [k' Hk]%submseteq_Permutation. rewrite Hk, filter_app. apply submseteq_inserts_r.
  done.
Qed.

Lemma filter_length_id {A} (P : A → Prop) `{∀ x, Decision (P x)} (l : list A) :
  length (filter P l) = length l → filter P l = l.
Proof.
  induction l as [|x l IH]; [done|]. rewrite filter_cons. case_decide; simpl.
  - intros [= E]. by rewrite IH.
  - pose proof (length_filter P l). lia.
Qed.

(** When only one principal has the binding, exactly that binding goes. *)
Lemma remove_binding_in_spec bid keys : ∀ m : gmap string (list RoleBindingRecord),
  (∀ p p' l l' b b', m !! p = Some l → m !! p' = Some l' → b ∈ l → b' ∈ l' →
     rb_binding_id b = bid → rb_binding_id b' = bid → p = p') →
  (∀ p l b, m !! p = Some l → b ∈ l → rb_binding_id b = bid → p ∈ keys) →
  ∀ p, default [] ((remove_binding_in bid keys m).1 !! p)
       = filter (λ b, rb_binding_id b ≠ bid) (default [] (m !! p)).
Proof.
  induction keys as [|key keys IH]; intros m Huniq Hkeys p; simpl.
  - destruct (m !! p) as [l|] eqn:El; simpl; [|done]. symmetry. apply filter_true_id.
    intros b Hb Hid. specialize (Hkeys _ _ _ El Hb Hid). by apply elem_of_nil in Hkeys.
  - destruct (m !! key) as [entry|] eqn:Ek.
    2:{ apply IH; [done|]. intros p' l b Hl Hb Hid. specialize (Hkeys _ _ _ Hl Hb Hid).
        apply elem_of_cons in Hkeys as [->|]; [congruence|done]. }
    case_bool_decide as Hlen; simpl.
    + destruct (decide (key = p)) as [<-|Hne]; [by rewrite lookup_insert_eq, Ek|].
      rewrite lookup_insert_ne by done. destruct (m !! p) as [l|] eqn:El; simpl; [|done].
      symmetry. apply filter_true_id. intros b Hb Hid. apply Hne.
      destruct (decide (Exists (λ b, rb_binding_id b = bid) entry)) as [He|He].
      * apply Exists_exists in He as (b' & Hb' & Hid').
        by apply (Huniq key p entry l b' b).
      * destruct Hlen. f_equal. apply filter_true_id. intros b' Hb' Hid'. apply He.
        apply Exists_exists. eauto.
    + assert (Heq : filter (λ b, rb_binding_id b ≠ bid) entry = entry).
      { apply filter_length_id. by destruct (decide (length (filter (λ b, rb_binding_id b ≠ bid) entry) = length entry)). }
      rewrite Heq, (insert_id m key entry) by done. apply IH; [done|].
      intros p' l b Hl Hb Hid. specialize (Hkeys _ _ _ Hl Hb Hid).
      apply elem_of_cons in Hkeys as [->|]; [|done]. exfalso.
      rewrite Ek in Hl. injection Hl as <-. rewrite <-Heq in Hb. by apply list_elem_of_filter in Hb as [? _].
Qed.

(** A cached binding is the row of its identifier. *)
Lemma cached_is_stored (s : AuthService St) p b :
  in_sync s → b ∈ cached_bindings s p →
  rb_principal_id b = p ∧ auth_role_bindings (stored s) !! rb_binding_id b = Some b.
Proof.
  intros (_ & (_ & _ & _ & W4) & _ & _ & _ & HB) Hb. destruct (HB p) as [HB1 _].
  apply (elem_of_submseteq _ _ _ Hb), list_elem_of_filter in HB1 as [Hp Hrow].
  apply elem_of_rows in Hrow as [k Hk]. split; [done|]. by rewrite (W4 _ _ Hk).
Qed.

Lemma bindings_of_delete (t : AuthTables) bid x p :
  map_Forall (λ k r, rb_binding_id r = k) (auth_role_bindings t) →
  auth_role_bindings t !! bid = Some x →
  bindings_of p (rows (delete bid (auth_role_bindings t)))
  ≡ₚ filter (λ b, rb_binding_id b ≠ bid) (bindings_of p (rows (auth_role_bindings t))).
Proof.
  intros Hwf Hx. unfold bindings_of. rewrite (rows_delete _ _ _ Hx), (filter_cons _ x).
  assert (Hid : filter (λ b, rb_binding_id b ≠ bid)
      (filter (λ b, rb_principal_id b = p) (rows (delete bid (auth_role_bindings t))))
      = filter (λ b, rb_principal_id b = p) (rows (delete bid (auth_role_bindings t)))).
  { apply filter_true_id. intros b [_ Hb]%list_elem_of_filter.
    apply elem_of_rows in Hb as [k [Hne Hk]%lookup_delete_Some]. rewrite (Hwf _ _ Hk). done. }
  case_decide; [|by rewrite Hid]. rewrite filter_cons_False, Hid; [done|].
  rewrite (Hwf _ _ Hx). intros Hne. by apply Hne.
Qed.

Lemma auth_delete_role_binding_sync bid (s : AuthService St) :
  in_sync s → in_sync (auth_delete_role_binding bid s).1.
Proof.
  intros Hs. pose proof (cached_is_stored s) as Hcs.
  destruct Hs as (Hst & (W1 & W2 & W3 & W4) & HP & HN & HT & HB).
  assert (Hcached : ∀ p, cached_bindings (remove_binding bid s).1 p
                         = filter (λ b, rb_binding_id b ≠ bid) (cached_bindings s p)).
  { intros p. unfold remove_binding, cached_bindings.
    pose proof (remove_binding_in_spec bid ((map_to_list (bindings s)).*1) (bindings s)) as Hspec.
    destruct (remove_binding_in _ _ _) as [m found]. simpl in *. apply Hspec.
    - intros p1 p2 l l' b b' Hl Hl' Hb Hb' Hid Hid'.
      destruct (Hcs p1 b) as [<- R1]; [done|unfold cached_bindings; by rewrite Hl|].
      destruct (Hcs p2 b') as [<- R2]; [done|unfold cached_bindings; by rewrite Hl'|].
      congruence.
    - intros p1 l b Hl _ _. apply list_elem_of_fmap. exists (p1, l).
      by rewrite elem_of_map_to_list. }
  unfold auth_delete_role_binding, mbind, ST_bind. simpl. destruct (store s) as [st0|] eqn:Es; [|by destruct Hst].
  rewrite <-Es in Hst. run_store Hst. rewrite Es in Est. injection Est as <-.
  apply remove_role_binding in Eop.
  destruct r as [b|e]; simpl.
  2:{ unfold in_sync, tables_wf, stored_bindings, cached_bindings, stored in *. rewrite Es in *. simpl in *.
      by rewrite Eop. }
  destruct Eop as [Eop ->]. destruct (auth_role_bindings (tables st0) !! bid) as [x|] eqn:Ex; simpl.
  - unfold remove_binding in *. simpl in *.
    destruct (remove_binding_in _ _ _) as [m found] eqn:Er.
    unfold in_sync, tables_wf, stored_bindings, stored in *. rewrite Es in *. simpl in *.
    rewrite Eop. simpl. split_and!; try done.
    + by apply map_Forall_delete.
    + intros p. unfold cached_bindings in *. simpl in *.
      rewrite Hcached, (bindings_of_delete _ _ _ _ W4 Ex). destruct (HB p) as [HB1 HB2].
      split; [by apply submseteq_filter|]. intros Hp. by rewrite (HB2 Hp).
  - unfold in_sync, tables_wf, stored_bindings, cached_bindings, stored in *. rewrite Es in *. simpl in *.
    rewrite Eop. simpl. by rewrite (delete_id _ _ Ex).
Qed.

Lemma auth_apply_sync (s : AuthService St) o :
  in_sync s → op_fresh s o → in_sync (auth_apply s o).
Proof.
  intros Hs Hf. destruct o; simpl in *.
  - unfold auth_ensure_project, mbind, ST_bind. simpl. case_bool_decide; [done|].
    by apply auth_upsert_project_sync.
  - pose proof (auth_upsert_project_sync (new_project project_id name description now) s Hs) as Hu.
    unfold auth_create_project, mbind at 1, ST_bind at 1.
    by destruct (auth_upsert_project _ s) as [s1 []].
  - by apply auth_upsert_project_sync.
  - by apply auth_delete_project_sync.
  - unfold auth_create_principal, mbind at 1, ST_bind at 1.
    match goal with |- context [auth_upsert_principal ?r s] =>
      pose proof (auth_upsert_principal_sync r s Hs Hf) as Hu end.
    by destruct (auth_upsert_principal _ s) as [s1 []].
  - by apply auth_upsert_principal_sync.
  - by apply auth_delete_principal_sync.
  - by apply auth_create_token_sync.
  - by apply auth_delete_token_sync.
  - by apply auth_create_role_binding_sync.
  - by apply auth_delete_role_binding_sync.
Qed.

Lemma auth_step_sync may (s s' : AuthService St) : in_sync s → auth_step may s s' → in_sync s'.
Proof.
  intros Hs Hstep. revert Hs. destruct Hstep as [s o _ Hf|s s1 Hr]; intros Hs;
    [by apply auth_apply_sync|].
  destruct Hs as (Hst & Hwf & _).
  by apply load_in_sync in Hr as (? & _); [..|destruct s].
Qed.

Lemma auth_run_sync may (s s' : AuthService St) : in_sync s → rtc (auth_step may) s s' → in_sync s'.
Proof. intros Hs Hr. induction Hr; eauto using auth_step_sync. Qed.

Lemma existsb_perm {A} (f : A → bool) l k : l ≡ₚ k → existsb f l = existsb f k.
Proof.
  intros Hp. induction Hp as [|x l k _ IH|x y l|l k m _ IH1 _ IH2]; simpl;
    [done|by rewrite IH|by rewrite !orb_assoc, (orb_comm (f x))|by rewrite IH1].
Qed.

Lemma is_allowed_perm ctx ctx' p q :
  ac_assignments ctx ≡ₚ ac_assignments ctx' → is_allowed ctx p q = is_allowed ctx' p q.
Proof. apply existsb_perm. Qed.

(** The decision depends on the bindings of live principals up to order only. *)
Lemma access_ext (s s' : AuthService St) :
  bootstrap_token s = bootstrap_token s' → tokens s = tokens s' → principals s = principals s' →
  (∀ p, is_Some (principals s !! p) → cached_bindings s p ≡ₚ cached_bindings s' p) →
  ∀ token p q, access s token p q = access s' token p q.
Proof.
  intros Hb Ht Hp Hbs token p q. unfold access, authenticate_bearer. rewrite <-Hb, <-Ht, <-Hp.
  case_bool_decide; [done|]. destruct (tokens s !! _) as [t|]; simpl; [|done].
  destruct (tk_active t); simpl; [|done].
  destruct (principals s !! tk_principal_id t) as [pn|] eqn:Epn; simpl; [|done].
  destruct (pn_active pn); simpl; [|done].
  assert (Ha : assignments_for_principal s (tk_principal_id t)
               ≡ₚ assignments_for_principal s' (tk_principal_id t)).
  { unfold assignments_for_principal, filter_map. apply omap_Permutation. by apply Hbs. }
  destruct (assignments_for_principal s _) as [|a l].
  - apply Permutation_nil_l in Ha. by rewrite <-Ha.
  - destruct (assignments_for_principal s' _) as [|a' l'].
    + by apply Permutation_nil_r in Ha.
    + by apply is_allowed_perm.
Qed.

(** What an operation cannot do: change the bootstrap token, bring up a token
    it does not issue, or a principal it does not introduce. *)
Definition no_more_than (o : auth_op) (s s' : AuthService St) : Prop :=
  bootstrap_token s' = bootstrap_token s ∧
  (∀ h, not_issuing h o → tokens s !! h = None → tokens s' !! h = None) ∧
  (∀ p, not_introducing p o → principals s !! p = None → principals s' !! p = None).

Lemma with_store_shape {A} (op : ST St StoreError A) (s : AuthService St) :
  ∃ st r, with_store op s = (s <| store := st |>, r).
Proof.
  unfold with_store. destruct (store s) as [st|] eqn:E.
  - destruct (op st) as [st' r]. by eexists _, _.
  - exists None, (Ok None). destruct s; simpl in *. by subst.
Qed.

Ltac bounded_effect :=
  unfold mbind, ST_bind; simpl;
  match goal with |- context [with_store ?op ?s] =>
    let st := fresh in let r := fresh in let E := fresh in
    destruct (with_store_shape op s) as (st & r & E); rewrite ?E; destruct r; simpl
  end;
  unfold no_more_than; simpl; split_and!; try done;
  intros; rewrite ?lookup_insert_ne by done; try done; by apply lookup_delete_None; right.

Lemma auth_apply_effect (s : AuthService St) o : no_more_than o s (auth_apply s o).
Proof.
  destruct o; simpl.
  - unfold auth_ensure_project, auth_upsert_project, mbind at 1, ST_bind at 1. simpl.
    case_bool_decide; [done|]. bounded_effect.
  - unfold auth_create_project, auth_upsert_project. bounded_effect.
  - unfold auth_upsert_project. bounded_effect.
  - unfold auth_delete_project. bounded_effect.
  - unfold auth_create_principal, auth_upsert_principal. bounded_effect.
  - unfold auth_upsert_principal. bounded_effect.
  - unfold auth_delete_principal. bounded_effect.
  - unfold auth_create_token. bounded_effect.
  - unfold auth_delete_token. bounded_effect.
  - unfold auth_create_role_binding. bounded_effect.
  - unfold auth_delete_role_binding, remove_binding, mbind, ST_bind. simpl.
    destruct (store s) as [st|]; [|by destruct (remove_binding_in _ _ _)].
    destruct (with_store_shape (λ st, delete_role_binding st binding_id) s) as (st' & [[[]|]|] & ->);
      simpl; try done.
    by destruct (remove_binding_in _ _ _).
Qed.

(** A restart brings back what the store holds, and no more. *)
Lemma auth_restart_effect (s s' : AuthService St) :
  in_sync s → auth_restart s = (s', Ok ()) →
  bootstrap_token s' = bootstrap_token s ∧ tokens s' = tokens s ∧ principals s' = principals s.
Proof.
  intros (Hst & Hwf & _ & HN & HT & _) Hr.
  apply load_in_sync in Hr as ((_ & _ & _ & HN' & HT' & _) & Est & Hb & _); [|done|done].
  rewrite HT', HN', HT, HN, Est. by unfold stored.
Qed.

Lemma auth_run_inv may (Q : AuthService St → Prop) (s s' : AuthService St) :
  in_sync s → Q s → (∀ s o, may o → Q s → Q (auth_apply s o)) →
  (∀ s s', Q s → bootstrap_token s' = bootstrap_token s → tokens s' = tokens s →
           principals s' = principals s → Q s') →
  rtc (auth_step may) s s' → Q s'.
Proof.
  intros Hs HQ Hop Hre Hr. induction Hr as [|s s1 s2 Hstep _ IH]; [done|].
  apply IH; [by eapply auth_step_sync|]. revert Hs HQ.
  destruct Hstep as [s o Hmay Hf|s s1 Hr]; intros Hs HQ; [by apply Hop|].
  apply auth_restart_effect in Hr as (? & ? & ?); [|done]. by eapply Hre.
Qed.

(** A service that started over a store and ran. *)
Definition running (may : auth_op → Prop) (s : AuthService St) : Prop :=
  ∃ st boot s0, tables_wf (tables st) ∧
    auth_load_from_store (auth_new (Some st) boot) = (s0, Ok ()) ∧ rtc (auth_step may) s0 s.

Lemma running_sync may (s : AuthService St) : running may s → in_sync s.
Proof.
  intros (st & boot & s0 & Hwf & Hl & Hr). apply load_in_sync in Hl as (Hs & _); [|done|done].
  by eapply auth_run_sync.
Qed.

(** ** Properties *)

(** a restart changes no decision.  Whatever was done to the service
    before, and whichever of its store's statements failed, a service started
    anew over the store gives every bearer the same answer to every question. *)
Theorem restart_preserves_access (s s' : AuthService St) :
  running any_op s → auth_restart s = (s', Ok ()) →
  ∀ token p project, access s' token p project = access s token p project.
Proof.
  intros Hs%running_sync Hr. destruct (auth_restart_effect _ _ Hs Hr) as (Hb & Ht & Hp).
  destruct Hs as (Hst & Hwf & _ & _ & _ & HB).
  apply load_in_sync in Hr as (_ & Est & _ & HB'); [|done|done].
  apply access_ext; [done..|]. intros p Hsome. rewrite HB'. unfold stored_bindings. rewrite Est.
  rewrite Hp in Hsome. symmetry. by apply HB.
Qed.

(** a revoked token is dead for good.  Once its deletion was acknowledged,
    no bearer of it is authenticated again, whatever else is done and however
    often the service restarts, until that very token is issued anew. *)
Theorem revoked_token_stays_dead (s s1 s2 : AuthService St) token b :
  running any_op s → auth_delete_token (hash_token token) s = (s1, Ok b) →
  rtc (auth_step (not_issuing (hash_token token))) s1 s2 → bootstrap_token s ≠ Some token →
  authenticate_bearer s2 token = None.
Proof.
  intros Hs%running_sync Hd Hr Hboot. set (h := hash_token token) in *.
  assert (s1 = auth_apply s (OpDeleteToken h)) as -> by (simpl; by rewrite Hd).
  assert (Hgone : tokens (auth_apply s (OpDeleteToken h)) !! h = None).
  { simpl. revert Hd. unfold auth_delete_token, mbind, ST_bind. simpl.
    destruct (with_store _ s) as [s' [d|e]]; simpl; [|done]. intros _. apply lookup_delete_eq. }
  destruct (auth_apply_effect s (OpDeleteToken h)) as (Hb & _ & _).
  assert (tokens s2 !! h = None ∧ bootstrap_token s2 ≠ Some token) as [Ht Hb2].
  { apply (auth_run_inv (not_issuing h) (λ s, tokens s !! h = None ∧ bootstrap_token s ≠ Some token)
      (auth_apply s (OpDeleteToken h))); [by apply auth_apply_sync|..|exact Hr].
    - split; [exact Hgone|by rewrite Hb].
    - intros s' o Hmay [? ?]. destruct (auth_apply_effect s' o) as (-> & HT & _). split; [by apply HT|done].
    - by intros s' s'' [? ?] -> -> _. }
  unfold authenticate_bearer. rewrite bool_decide_eq_false_2 by done. fold h. by rewrite Ht.
Qed.

(** a deleted principal is locked out.  None of its tokens authenticates
    again, whatever else is done and however often the service restarts,
    until that principal is introduced anew. *)
Theorem deleted_principal_locked_out (s s1 s2 : AuthService St) p b :
  running any_op s → auth_delete_principal p s = (s1, Ok b) →
  rtc (auth_step (not_introducing p)) s1 s2 →
  ∀ token ctx, authenticate_bearer s2 token = Some ctx →
    ac_source ctx = Bootstrap ∨ ac_principal_id ctx ≠ p.
Proof.
  intros Hs%running_sync Hd Hr token ctx Ha.
  assert (s1 = auth_apply s (OpDeletePrincipal p)) as -> by (simpl; by rewrite Hd).
  assert (Hgone : principals (auth_apply s (OpDeletePrincipal p)) !! p = None).
  { simpl. revert Hd. unfold auth_delete_principal, mbind, ST_bind. simpl.
    destruct (with_store _ s) as [s' [d|e]]; simpl; [|done]. intros _. apply lookup_delete_eq. }
  assert (Hs1 : in_sync (auth_apply s (OpDeletePrincipal p))) by (by apply auth_apply_sync).
  assert (principals s2 !! p = None) as Hp.
  { apply (auth_run_inv (not_introducing p) (λ s, principals s !! p = None)
      (auth_apply s (OpDeletePrincipal p))); [exact Hs1|exact Hgone|..|exact Hr].
    - intros s' o Hmay ?. destruct (auth_apply_effect s' o) as (_ & _ & HP). by apply HP.
    - by intros s' s'' ? _ _ ->. }
  apply authenticate_cases in Ha as [[_ ->]|(_ & t & pn & _ & _ & Hpn & _ & _ & ->)]; [by left|].
  right. simpl. intros Heq. apply auth_run_sync in Hr as (_ & (_ & W2 & _) & _ & HN & _); [|done].
  rewrite HN in Hpn, Hp. rewrite <-(W2 _ _ Hpn), Heq in Hpn. congruence.
Qed.

End running.
Arguments auth_op : clear implicits.

(** The roles are ordered: each one of viewer, operator, administrator and
    instance administrator may do what the one before may, and the runtime role
    may do nothing but invoke inference, which no project role but it may. *)
Theorem roles_are_ordered (p : Permission) :
  (role_allows ProjectViewer p = true → role_allows ProjectOperator p = true) ∧
  (role_allows ProjectOperator p = true → role_allows ProjectAdmin p = true) ∧
  (role_allows ProjectAdmin p = true → role_allows InstanceAdmin p = true ∧ role_allows ProjectRuntime p = false).
Proof. by destruct p. Qed.

#[export] Instance Role_named : Named Role := {| enum_parse := role_parse; enum_str := role_as_str |}.

#[export] Instance Role_ok : NamedOk Role.
Proof. solve_named. Qed.

(** ** A service to evaluate on *)

#[export] Instance demo_digest : TokenDigest := λ t, "digest of " +:+ t.

Definition demo_token : TokenRecord :=
  {| tk_token_hash := hash_token "secret"; tk_principal_id := "prn-1"; tk_name := "laptop";
     tk_active := true; tk_created_at := "0" |}.

Definition demo_principal : PrincipalRecord :=
  {| pn_principal_id := "prn-1"; pn_name := "alice"; pn_active := true; pn_created_at := "0" |}.

Definition demo_binding : RoleBindingRecord :=
  {| rb_binding_id := "rb-1"; rb_principal_id := "prn-1"; rb_role := "project_admin";
     rb_project_id := Some "red"; rb_created_at := "0" |}.

Definition demo_tables : AuthTables :=
  {| auth_projects := ∅; auth_principals := {["prn-1" := demo_principal]};
     auth_tokens := {[hash_token "secret" := demo_token]};
     auth_role_bindings := {["rb-1" := demo_binding]} |}.

Definition demo_store : SqliteStore := {| db_tables := demo_tables; db_faults := [] |}.

Definition demo_service : AuthService SqliteStore :=
  (auth_load_from_store (auth_new (Some demo_store) (Some "root"))).1.

Lemma demo_running may : running may demo_service.
Proof.
  exists demo_store, (Some "root"), demo_service. split_and!.
  - unfold tables_wf. simpl. split_and!; [done|by apply map_Forall_singleton..].
  - vm_compute. reflexivity.
  - reflexivity.
Qed.

Lemma restart_preserves_access_witness :
  access (auth_restart demo_service).1 "secret" ViewLogs (Some "red")
  = access demo_service "secret" ViewLogs (Some "red").
Proof.
  apply (restart_preserves_access demo_service (auth_restart demo_service).1);
    [apply demo_running|vm_compute; reflexivity].
Defined.

Lemma revoked_token_stays_dead_witness :
  authenticate_bearer (auth_restart (auth_delete_token (hash_token "secret") demo_service).1).1 "secret" = None.
Proof.
  apply (revoked_token_stays_dead demo_service (auth_delete_token (hash_token "secret") demo_service).1
           _ "secret" true); [apply demo_running|vm_compute; reflexivity| |vm_compute; discriminate].
  apply rtc_once, auth_step_restart. vm_compute. reflexivity.
Defined.

Lemma deleted_principal_locked_out_witness :
  authenticate_bearer (auth_restart (auth_delete_principal "prn-1" demo_service).1).1 "root" = Some bootstrap_context ∧
  (ac_source bootstrap_context = Bootstrap ∨ ac_principal_id bootstrap_context ≠ "prn-1").
Proof.
  split; [vm_compute; reflexivity|].
  apply (deleted_principal_locked_out demo_service (auth_delete_principal "prn-1" demo_service).1
    (auth_restart (auth_delete_principal "prn-1" demo_service).1).1 "prn-1" true) with (token := "root");
    [apply demo_running|vm_compute; reflexivity| |vm_compute; reflexivity].
  apply rtc_once, auth_step_restart. vm_compute. reflexivity.
Defined.

(** Deleting a principal leaves its bindings in the store.  When a principal of
    the same identifier is introduced again, it has none of them, until the
    service restarts: then it has them all. *)
Theorem deleted_bindings_return :
  let s := auth_apply (auth_apply demo_service (OpDeletePrincipal "prn-1"))
             (OpUpsertPrincipal demo_principal) in
  access s "secret" ManageProviders (Some "red") = false ∧
  access (auth_restart s).1 "secret" ManageProviders (Some "red") = true.
Proof. vm_compute. split; reflexivity. Qed.
