(* ===== verification/Management.v ===== *)
(** * The management API: access control

    Model of the parts of [plugin-llm-gateway/src/management_server.rs] and
    [api.rs] that decide who may do what: reading requests, authentication,
    permission checks, the routing table of [handle_request_with_auth], and the
    handlers that administer projects, principals, roles and tokens.  What the
    other endpoints do once they are reached is a parameter of the dispatcher;
    the session endpoints are in [SessionApi.v]. *)

From S2P Require Import Prelude RecordSet StateResult RustStr Json Sql AuthStore Auth ProxyProtocol.

Local Open Scope string_scope.
Local Open Scope list_scope.
Local Open Scope rust_scope.

(** ** Responses *)

Record ApiResponse := {
  api_status : Z;
  api_body : string;
}.

Definition json_response (status : Z) (body : string) : ApiResponse :=
  {| api_status := status; api_body := body |}.

(** A quoted string, as the [format!] templates write it: without escapes. *)
Definition dq (s : string) : string := String quote_char (s +:+ String quote_char "").

(** [{"k":v,...}] *)
Definition object_text (fields : list (string * string)) : string :=
  "{" +:+ join "," ((λ f : string * string, dq f.1 +:+ ":" +:+ f.2) <$> fields) +:+ "}".

Definition error_body (message : string) : string := object_text [("error", dq message)].

Definition unauthorized : ApiResponse := json_response 401 (error_body "unauthorized").
Definition forbidden : ApiResponse := json_response 403 (error_body "forbidden").
Definition not_found : ApiResponse := json_response 404 (error_body "not found").
Definition method_not_allowed : ApiResponse := json_response 405 (error_body "method not allowed").
Definition bad_request (message : string) : ApiResponse := json_response 400 (error_body message).

Definition bool_text (b : bool) : string := if b then "true" else "false".
Definition opt_text (o : option string) : string := from_option dq "null" o.

(** [StoreError] as [Display] writes it. *)
Definition store_error_text (e : StoreError) : string :=
  match e with
  | Db msg => "database error: " +:+ msg
  | Other msg => "store error: " +:+ msg
  end.

(** ** Requests *)

Record ApiRequest := {
  rq_method : string;
  rq_path : string;
  rq_query : option string;
  rq_authorization : option string;
  rq_body : option string;
}.

(** [str::strip_suffix] *)
Fixpoint strip_suffix (suf s : string) : option string :=
  if String.eqb s suf then Some ""
  else
    match s with
    | "" => None
    | String a s' => String a <$> strip_suffix suf s'
    end.

(** The first non-empty value of the key. *)
Definition extract_query_param (query key : string) : option string :=
  head (omap (λ pair,
    '(k, v) ← split_once "=" pair;
    if String.eqb k key && negb (String.eqb v "") then Some v else None) (split "&" query)).

(** The body as text; a body that cannot be read or is not UTF-8 is refused. *)
Definition read_body_string (req : ApiRequest) : result ApiResponse string :=
  match rq_body req with
  | None => Err (bad_request "failed to read body")
  | Some b => ok_or (from_utf8 (bytes_of b)) (bad_request "body is not valid UTF-8")
  end.

Definition extract_bearer_token (req : ApiRequest) : option string :=
  v ← rq_authorization req;
  strip_prefix "Bearer " v.

Section json_fields.
Context `{SerdeJson}.

Definition extract_json_string (text key : string) : option string :=
  v ← json_from_str text;
  field ← json_get v key;
  json_str field.

End json_fields.

(** ** Endpoints *)

Inductive Endpoint :=
| Status | ToolRuntimeStatus | PromptCacheStatus | SemanticCacheStatus
| CostUsage | CostUsageByModel | CostModels | DeleteAllUsage | RateLimiterStatus
| Providers | CreateProvider | ProviderHealth | FailedProviders | ClearAllFailed
| CreateKey | ListKeys | RequestLogs | SessionsList
| ListProjects | CreateProject | ListPrincipals | CreatePrincipal
| ListRoles | ListRoleBindings | CreateRoleBinding | ListTokens
| GetKey (hash_prefix : string) | UpdateKey (hash_prefix : string) | DeleteKey (hash_prefix : string)
| DeleteUsage (key : string)
| PutModelCost (model : string) | DeleteModelCost (model : string)
| ClearFailedProvider (provider : string)
| GetProvider (provider : string) | PutProvider (provider : string)
| PatchProvider (provider : string) | DeleteProvider (provider : string)
| ControlPlaneExport | ControlPlaneValidate | ControlPlaneImport
| McpSubroutes (server_path : string) | ProjectSubroutes (tail : string)
| SessionSubroutes (session_path : string) | PrincipalSubroutes (tail : string)
| DeleteToken (token_hash : string) | DeleteRoleBinding (binding_id : string)
| NotFound | MethodNotAllowed.

#[export] Instance Endpoint_eq_dec : EqDecision Endpoint.
Proof. solve_decision. Defined.

(** The arms of the match on method and path. *)
Definition fixed_routes : list (string * string * Endpoint) :=
  [("GET", "/api/v1/status", Status);
   ("GET", "/api/v1/tool-runtime/status", ToolRuntimeStatus);
   ("GET", "/api/v1/prompt-cache/status", PromptCacheStatus);
   ("GET", "/api/v1/semantic-cache/status", SemanticCacheStatus);
   ("GET", "/api/v1/cost/usage", CostUsage);
   ("GET", "/api/v1/cost/usage/by-model", CostUsageByModel);
   ("GET", "/api/v1/cost/models", CostModels);
   ("DELETE", "/api/v1/cost/usage", DeleteAllUsage);
   ("GET", "/api/v1/rate-limiter/status", RateLimiterStatus);
   ("GET", "/api/v1/providers", Providers);
   ("POST", "/api/v1/providers", CreateProvider);
   ("GET", "/api/v1/providers/health", ProviderHealth);
   ("GET", "/api/v1/providers/failed", FailedProviders);
   ("DELETE", "/api/v1/providers/failed", ClearAllFailed);
   ("POST", "/api/v1/keys", CreateKey);
   ("GET", "/api/v1/keys", ListKeys);
   ("GET", "/api/v1/logs", RequestLogs);
   ("GET", "/api/v1/sessions", SessionsList);
   ("GET", "/api/v1/projects", ListProjects);
   ("POST", "/api/v1/projects", CreateProject);
   ("GET", "/api/v1/principals", ListPrincipals);
   ("POST", "/api/v1/principals", CreatePrincipal);
   ("GET", "/api/v1/roles", ListRoles);
   ("GET", "/api/v1/role-bindings", ListRoleBindings);
   ("POST", "/api/v1/role-bindings", CreateRoleBinding);
   ("GET", "/api/v1/tokens", ListTokens)].

(** A route with a parameter that must not be empty, by method. *)
Definition by_method (param method : string) (arms : list (string * (string → Endpoint))) : Endpoint :=
  if String.eqb param "" then NotFound
  else
    match find_first (λ a : string * (string → Endpoint), String.eqb a.1 method) arms with
    | Some (_, ep) => ep param
    | None => MethodNotAllowed
    end.

Definition param_route (method path : string) : Endpoint :=
  match strip_prefix "/api/v1/keys/" path with
  | Some h => by_method h method [("GET", GetKey); ("PATCH", UpdateKey); ("DELETE", DeleteKey)]
  | None =>
  match strip_prefix "/api/v1/cost/usage/" path with
  | Some key => by_method key method [("DELETE", DeleteUsage)]
  | None =>
  match strip_prefix "/api/v1/cost/models/" path with
  | Some model => by_method model method [("PUT", PutModelCost); ("DELETE", DeleteModelCost)]
  | None =>
  match strip_prefix "/api/v1/providers/failed/" path with
  | Some provider => by_method provider method [("DELETE", ClearFailedProvider)]
  | None =>
  match strip_prefix "/api/v1/providers/" path with
  | Some provider =>
      by_method provider method
        [("GET", GetProvider); ("PUT", PutProvider); ("PATCH", PatchProvider); ("DELETE", DeleteProvider)]
  | None =>
  if String.eqb path "/api/v1/control-plane/export" && String.eqb method "GET" then ControlPlaneExport
  else if String.eqb path "/api/v1/control-plane/validate" && String.eqb method "POST" then ControlPlaneValidate
  else if String.eqb path "/api/v1/control-plane/import" && String.eqb method "PUT" then ControlPlaneImport
  else
  match strip_prefix "/api/v1/tool-runtime/mcp/" path with
  | Some server_path => McpSubroutes server_path
  | None =>
  match strip_prefix "/api/v1/projects/" path with
  | Some tail => ProjectSubroutes tail
  | None =>
  match strip_prefix "/api/v1/sessions/" path with
  | Some session_path => SessionSubroutes session_path
  | None =>
  match strip_prefix "/api/v1/principals/" path with
  | Some tail => PrincipalSubroutes tail
  | None =>
  match strip_prefix "/api/v1/tokens/" path with
  | Some h => DeleteToken h
  | None =>
  match strip_prefix "/api/v1/role-bindings/" path with
  | Some b => DeleteRoleBinding b
  | None => NotFound
  end end end end end end end end end end end.

Definition route (method path : string) : Endpoint :=
  match find_first (λ r : string * string * Endpoint,
          String.eqb r.1.1 method && String.eqb r.1.2 path) fixed_routes with
  | Some (_, ep) => ep
  | None => param_route method path
  end.

(** The permission the dispatcher itself checks, without a project. *)
Definition guard_of (ep : Endpoint) : option Permission :=
  match ep with
  | Status | ToolRuntimeStatus | PromptCacheStatus | SemanticCacheStatus => Some ViewStatus
  | CostUsage | CostUsageByModel => Some ViewUsage
  | CostModels => Some ViewModelCosts
  | DeleteAllUsage | DeleteUsage _ => Some ManageUsage
  | RateLimiterStatus => Some ViewRateLimiter
  | Providers | ProviderHealth | FailedProviders | GetProvider _ => Some ViewProviders
  | CreateProvider | ClearAllFailed | ClearFailedProvider _ | PutProvider _ | PatchProvider _
  | DeleteProvider _ => Some ManageProviders
  | PutModelCost _ | DeleteModelCost _ => Some ManageModelCosts
  | ControlPlaneExport => Some ViewProjects
  | ControlPlaneValidate | ControlPlaneImport => Some ManageProjects
  | _ => None
  end.

(** ** The API object *)

Section api.
Context {St GSt : Type} `{AuthStore St} `{TokenDigest} `{SerdeJson}.

(** The gateway behind the API, by the parts access control works on; [GSt] is
    the store of the gateway. *)
Record LlmGatewayApi := {
  auth_service : option (AuthService St);
  gateway_store : option GSt;
}.

#[global] Instance LlmGatewayApi_set : Settable LlmGatewayApi := λ a,
  {| auth_service := auth_service a; gateway_store := gateway_store a |}.

Definition auth_required (api : LlmGatewayApi) : bool := bool_decide (is_Some (auth_service api)).

Definition api_authenticate_bearer (api : LlmGatewayApi) (token : string) : option AuthContext :=
  service ← auth_service api;
  authenticate_bearer service token.

Definition api_is_allowed (api : LlmGatewayApi) (ctx : AuthContext) (p : Permission)
    (project_id : option ProjectId) : bool :=
  match auth_service api with
  | Some _ => is_allowed ctx p project_id
  | None => false
  end.

Definition api_accessible_projects (api : LlmGatewayApi) (ctx : AuthContext) : list ProjectId :=
  match auth_service api with
  | Some service => accessible_projects service ctx
  | None => []
  end.

(** A call of the authentication service; [None] when there is none. *)
Definition auth_call {A} (op : ST (AuthService St) StoreError A) (api : LlmGatewayApi)
    : LlmGatewayApi * option (result StoreError A) :=
  match auth_service api with
  | Some service =>
      let '(service', r) := op service in (api <| auth_service := Some service' |>, Some r)
  | None => (api, None)
  end.

(** The three outcomes every administrative handler answers. *)
Definition answer {A} (ok : A → ApiResponse) (r : option (result StoreError A)) : ApiResponse :=
  match r with
  | Some (Ok a) => ok a
  | Some (Err e) => json_response 500 (error_body (store_error_text e))
  | None => json_response 500 (error_body "auth service not enabled")
  end.

(** *** Authentication and permissions *)

Definition authenticate_request (api : LlmGatewayApi) (req : ApiRequest)
    : result ApiResponse (option AuthContext) :=
  if negb (auth_required api) then Ok None
  else
    let? token := ok_or (extract_bearer_token req) unauthorized in
    result_map Some (ok_or (api_authenticate_bearer api token) unauthorized).

(** [Some response] when the permission is missing. *)
Definition ensure_permission (api : LlmGatewayApi) (auth : option AuthContext) (p : Permission)
    (project_id : option string) : option ApiResponse :=
  if negb (auth_required api) then None
  else
    match auth with
    | None => Some unauthorized
    | Some ctx => if api_is_allowed api ctx p project_id then None else Some forbidden
    end.

Definition is_instance_admin (auth : option AuthContext) : bool :=
  match auth with
  | Some ctx => existsb (λ a, bool_decide (ra_role a = InstanceAdmin)) (ac_assignments ctx)
  | None => false
  end.

Definition scoped_project_query (api : LlmGatewayApi) (auth : option AuthContext)
    : result ApiResponse (option string) :=
  if is_instance_admin auth then Ok None
  else
    let? ctx := ok_or auth unauthorized in
    match api_accessible_projects api ctx with
    | [p] => Ok (Some p)
    | _ => Err forbidden
    end.

(** *** Administration *)

Notation Handler := (LlmGatewayApi → LlmGatewayApi * ApiResponse).

(** [if let Some(resp) = ensure_permission(...) { return resp; }] *)
Definition guarded (auth : option AuthContext) (p : Permission) (project_id : option string)
    (k : Handler) : Handler := λ api,
  match ensure_permission api auth p project_id with
  | Some resp => (api, resp)
  | None => k api
  end.

(** [match m { Ok(a) => a, Err(resp) => return resp }] *)
Definition or_return {A} (m : result ApiResponse A) (k : A → Handler) : Handler := λ api,
  match m with
  | Ok a => k a api
  | Err resp => (api, resp)
  end.

Definition answering {A} (op : ST (AuthService St) StoreError A) (ok : A → ApiResponse) : Handler :=
  λ api, let '(api, r) := auth_call op api in (api, answer ok r).

Definition principal_text (p : PrincipalRecord) : string :=
  object_text [("principal_id", dq (pn_principal_id p)); ("name", dq (pn_name p));
               ("active", bool_text (pn_active p)); ("created_at", dq (pn_created_at p))].

Definition handle_list_principals (auth : option AuthContext) : Handler :=
  guarded auth ViewPrincipals None (λ api,
    (api, json_response 200 (object_text [("principals",
      "[" +:+ join "," (principal_text <$> from_option list_principals [] (auth_service api)) +:+ "]")]))).

Definition handle_create_principal (auth : option AuthContext) (req : ApiRequest)
    (random_bytes : list Z) (now : option Z) : Handler :=
  or_return (read_body_string req) (λ body,
  guarded auth ManagePrincipals (extract_json_string body "project_id") (
  or_return (ok_or (extract_json_string body "name") (bad_request "name is required")) (λ name,
  answering (auth_create_principal name random_bytes now) (λ p,
    json_response 201 (object_text [("principal_id", dq (pn_principal_id p)); ("name", dq (pn_name p))]))))).

Definition binding_text (b : RoleBindingRecord) : string :=
  object_text [("binding_id", dq (rb_binding_id b)); ("principal_id", dq (rb_principal_id b));
               ("role", dq (rb_role b)); ("project_id", opt_text (rb_project_id b));
               ("created_at", dq (rb_created_at b))].

(** Without a project in the query, the caller's only one. *)
Definition query_project (auth : option AuthContext) (requested : option string)
    (api : LlmGatewayApi) : result ApiResponse (option string) :=
  match requested with
  | Some p => Ok (Some p)
  | None => scoped_project_query api auth
  end.

Definition handle_list_role_bindings (auth : option AuthContext) (req : ApiRequest) : Handler := λ api,
  let query := default "" (rq_query req) in
  or_return (query_project auth (extract_query_param query "project_id") api) (λ scoped,
  guarded auth ViewRoleBindings scoped (λ api,
    let bindings := from_option (λ s,
      list_role_bindings s (extract_query_param query "principal_id") scoped) [] (auth_service api) in
    (api, json_response 200 (object_text [("bindings",
      "[" +:+ join "," (binding_text <$> bindings) +:+ "]")])))) api.

Definition handle_create_role_binding (auth : option AuthContext) (req : ApiRequest)
    (random_bytes : list Z) (now : option Z) : Handler :=
  or_return (read_body_string req) (λ body,
  or_return (ok_or (extract_json_string body "principal_id")
                   (bad_request "principal_id is required")) (λ principal_id,
  or_return (ok_or (extract_json_string body "role" ≫= role_parse)
                   (bad_request "valid role is required")) (λ role,
  let project_id := extract_json_string body "project_id" in
  guarded auth ManageRoleBindings project_id (
  answering (auth_create_role_binding principal_id role project_id random_bytes now) (λ b,
    json_response 201 (object_text [("binding_id", dq (rb_binding_id b))])))))).

Definition token_text (t : TokenRecord) : string :=
  object_text [("token_hash", dq (tk_token_hash t)); ("principal_id", dq (tk_principal_id t));
               ("name", dq (tk_name t)); ("active", bool_text (tk_active t));
               ("created_at", dq (tk_created_at t))].

Definition handle_list_tokens (auth : option AuthContext) (req : ApiRequest) : Handler :=
  guarded auth ViewPrincipals None (λ api,
    let principal_id := rq_query req ≫= λ query, extract_query_param query "principal_id" in
    (api, json_response 200 (object_text [("tokens",
      "[" +:+ join "," (token_text <$>
        from_option (λ s, list_tokens s principal_id) [] (auth_service api)) +:+ "]")]))).

(** [POST /principals/{id}/tokens] *)
Definition handle_create_token (auth : option AuthContext) (principal_id : string)
    (req : ApiRequest) (random_bytes : list Z) (now : option Z) : Handler :=
  guarded auth ManagePrincipals None (
  or_return (read_body_string req) (λ body,
  let name := default "runtime token" (extract_json_string body "name") in
  answering (auth_create_token principal_id name random_bytes now) (λ r,
    json_response 201 (object_text [("token", dq r.1); ("token_hash", dq (tk_token_hash r.2));
      ("principal_id", dq (tk_principal_id r.2)); ("name", dq (tk_name r.2))])))).

(** What the deleting handlers answer. *)
Definition deleted_response (what : string) (found : bool) : ApiResponse :=
  if found then json_response 200 (object_text [("ok", "true")])
  else json_response 404 (error_body (what +:+ " not found")).

Definition handle_delete_principal (auth : option AuthContext) (principal_id : string) : Handler :=
  guarded auth ManagePrincipals None (
  answering (auth_delete_principal principal_id) (deleted_response "principal")).

Definition handle_delete_token (auth : option AuthContext) (token_hash : string) : Handler :=
  guarded auth ManagePrincipals None (
  answering (auth_delete_token token_hash) (deleted_response "token")).

Definition handle_delete_role_binding (auth : option AuthContext) (binding_id : string)
    : Handler := λ api,
  let all := from_option (λ s, list_role_bindings s None None) [] (auth_service api) in
  match find_first (λ b, String.eqb (rb_binding_id b) binding_id) all with
  | None => (api, json_response 404 (error_body "binding not found"))
  | Some b =>
      guarded auth ManageRoleBindings (rb_project_id b) (
      answering (auth_delete_role_binding binding_id) (deleted_response "binding")) api
  end.

Definition handle_create_project (auth : option AuthContext) (req : ApiRequest) (now : option Z)
    : Handler :=
  guarded auth ManageProjects None (
  or_return (read_body_string req) (λ body,
  or_return (ok_or (extract_json_string body "project_id")
                   (bad_request "project_id is required")) (λ project_id,
  let name := default project_id (extract_json_string body "name") in
  answering (auth_create_project project_id name (extract_json_string body "description") now) (λ p,
    json_response 201 (object_text [("project_id", dq (pr_project_id p)); ("name", dq (pr_name p))]))))).

(** [/principals/{tail}], by its suffix; [access] is the read-only snapshot. *)
Definition handle_principal_subroutes (auth : option AuthContext) (tail : string)
    (req : ApiRequest) (random_bytes : list Z) (now : option Z)
    (access : string → Handler) : Handler := λ api,
  match strip_suffix "/access" tail with
  | Some principal_id =>
      if negb (String.eqb (rq_method req) "GET") then (api, method_not_allowed)
      else
        guarded auth ViewRoleBindings (extract_query_param (default "" (rq_query req)) "project_id")
          (access principal_id) api
  | None =>
      match strip_suffix "/tokens" tail with
      | Some principal_id =>
          if negb (String.eqb (rq_method req) "POST") then (api, method_not_allowed)
          else handle_create_token auth principal_id req random_bytes now api
      | None =>
          if negb (String.eqb (rq_method req) "DELETE") then (api, method_not_allowed)
          else handle_delete_principal auth tail api
      end
  end.

(** *** The dispatcher *)

(** What reaching an endpoint does, for the endpoints not defined here. *)
Context (other : Endpoint → option AuthContext → ApiRequest → Handler)
        (principal_access : string → Handler).

(** The handler of an endpoint that checks permissions itself. *)
Definition run_endpoint (ep : Endpoint) (auth : option AuthContext) (req : ApiRequest)
    (random_bytes : list Z) (now : option Z) : Handler :=
  match ep with
  | CreateProject => handle_create_project auth req now
  | ListPrincipals => handle_list_principals auth
  | CreatePrincipal => handle_create_principal auth req random_bytes now
  | ListRoleBindings => handle_list_role_bindings auth req
  | CreateRoleBinding => handle_create_role_binding auth req random_bytes now
  | ListTokens => handle_list_tokens auth req
  | PrincipalSubroutes tail =>
      handle_principal_subroutes auth tail req random_bytes now principal_access
  | DeleteToken h => handle_delete_token auth h
  | DeleteRoleBinding b => handle_delete_role_binding auth b
  | NotFound => λ api, (api, not_found)
  | MethodNotAllowed => λ api, (api, method_not_allowed)
  | _ => other ep auth req
  end.

(** [handle_request_with_auth] *)
Definition handle_request_with_auth (req : ApiRequest) (random_bytes : list Z) (now : option Z)
    : Handler := λ api,
  or_return (authenticate_request api req) (λ auth api,
    let ep := route (rq_method req) (rq_path req) in
    match guard_of ep with
    | Some p => guarded auth p None (run_endpoint ep auth req random_bytes now) api
    | None => run_endpoint ep auth req random_bytes now api
    end) api.

End api.
Arguments LlmGatewayApi St GSt : clear implicits.
