(* ===== verification/ManagementProps.v ===== *)
(** * The management API: properties of access control

    What every request must present, what the dispatcher checks before an
    endpoint runs, and two things a caller can do that its role does not mean
    to grant. *)

From S2P Require Import Prelude RecordSet StateResult RustStr Json Sql AuthStore Auth AuthProps ProxyProtocol Management.

Local Open Scope string_scope.
Local Open Scope list_scope.
Local Open Scope rust_scope.

Section guards.
Context {St GSt : Type} `{AuthStore St} `{TokenDigest} `{SerdeJson}.

(** The administrative endpoints check on their own: a caller that is not
    allowed gets a refusal and changes nothing. *)
Lemma guarded_refuses (api : LlmGatewayApi St GSt) ctx p project k :
  auth_required api = true → is_allowed ctx p project = false →
  guarded (Some ctx) p project k api = (api, forbidden).
Proof.
  intros Hreq Hno. unfold guarded, ensure_permission, api_is_allowed. rewrite Hreq. simpl.
  unfold auth_required in Hreq. destruct (auth_service api); [|done]. by rewrite Hno.
Qed.

Lemma guarded_admits (api : LlmGatewayApi St GSt) ctx p project k :
  is_Some (auth_service api) → is_allowed ctx p project = true →
  guarded (Some ctx) p project k api = k api.
Proof.
  intros [s Hs] Hyes. unfold guarded, ensure_permission, api_is_allowed, auth_required.
  rewrite Hs. simpl. by rewrite Hyes.
Qed.

(** only an instance administrator, or the holder of an unscoped
    administrative binding, can revoke a token or delete a principal: a caller
    all of whose roles are bound to projects is refused, and nothing changes. *)
Theorem revocation_is_instance_wide (api : LlmGatewayApi St GSt) ctx h p :
  auth_required api = true →
  Forall (λ a, ra_role a ≠ InstanceAdmin ∧ is_Some (ra_project_id a)) (ac_assignments ctx) →
  handle_delete_token (Some ctx) h api = (api, forbidden) ∧
  handle_delete_principal (Some ctx) p api = (api, forbidden).
Proof.
  intros Hreq Hscoped.
  assert (Hno : is_allowed ctx ManagePrincipals None = false).
  { apply not_true_is_false. unfold is_allowed. intros (a & Ha & Hok)%existsb_exists.
    apply list_elem_of_In in Ha. rewrite Forall_forall in Hscoped.
    destruct (Hscoped a Ha) as [Hn [q Hq]]. apply assignment_allows_spec in Hok as [?|[_ Hnone]]; [done|].
    rewrite (Hnone eq_refl) in Hq. done. }
  split; by apply guarded_refuses.
Qed.

End guards.

(** Any method revokes a token: the dispatcher does not look at the method of
    [/api/v1/tokens/{hash}], so a read of that path deletes. *)
Theorem any_method_revokes (m h : string) : route m ("/api/v1/tokens/" +:+ h) = DeleteToken h.
Proof.
  unfold route, param_route. simpl. rewrite !andb_false_r. done.
Qed.


Section dispatch.
Context {St GSt : Type} `{AuthStore St} `{TokenDigest} `{SerdeJson}.
Context (other : Endpoint → option AuthContext → ApiRequest → LlmGatewayApi St GSt → LlmGatewayApi St GSt * ApiResponse)
        (principal_access : string → LlmGatewayApi St GSt → LlmGatewayApi St GSt * ApiResponse).

Lemma auth_required_Some (api : LlmGatewayApi St GSt) :
  auth_required api = true → is_Some (auth_service api).
Proof. apply bool_decide_eq_true. Qed.

(** The caller a request presents, when authentication is on. *)
Definition caller_of (api : LlmGatewayApi St GSt) (req : ApiRequest) : option AuthContext :=
  token ← extract_bearer_token req;
  api_authenticate_bearer api token.

Lemma authenticate_request_cases (api : LlmGatewayApi St GSt) req :
  authenticate_request api req =
  if auth_required api then
    match caller_of api req with Some ctx => Ok (Some ctx) | None => Err unauthorized end
  else Ok None.
Proof.
  unfold authenticate_request, caller_of. destruct (auth_required api); [|done]. simpl.
  destruct (extract_bearer_token req) as [t|]; [|done]. simpl.
  by destruct (api_authenticate_bearer api t).
Qed.

(** What the API asks for, by method and path: the permission, and the project
    it is asked for in ([None]: in no project in particular).  The table is a
    list of the API's endpoints: it mentions neither the router nor the guards of
    the dispatcher. *)
Inductive demands (api : LlmGatewayApi St GSt) (req : ApiRequest) : Permission → option ProjectId → Prop :=
| demands_fixed path p :
    (rq_method req, path, p) ∈ [("GET", "/api/v1/status", ViewStatus);
      ("GET", "/api/v1/tool-runtime/status", ViewStatus);
      ("GET", "/api/v1/prompt-cache/status", ViewStatus);
      ("GET", "/api/v1/semantic-cache/status", ViewStatus);
      ("GET", "/api/v1/cost/usage", ViewUsage);
      ("GET", "/api/v1/cost/usage/by-model", ViewUsage);
      ("GET", "/api/v1/cost/models", ViewModelCosts);
      ("DELETE", "/api/v1/cost/usage", ManageUsage);
      ("GET", "/api/v1/rate-limiter/status", ViewRateLimiter);
      ("GET", "/api/v1/providers", ViewProviders);
      ("POST", "/api/v1/providers", ManageProviders);
      ("GET", "/api/v1/providers/health", ViewProviders);
      ("GET", "/api/v1/providers/failed", ViewProviders);
      ("DELETE", "/api/v1/providers/failed", ManageProviders);
      ("GET", "/api/v1/control-plane/export", ViewProjects);
      ("POST", "/api/v1/control-plane/validate", ManageProjects);
      ("PUT", "/api/v1/control-plane/import", ManageProjects);
      ("POST", "/api/v1/projects", ManageProjects);
      ("GET", "/api/v1/principals", ViewPrincipals);
      ("GET", "/api/v1/tokens", ViewPrincipals)] →
    rq_path req = path → demands api req p None
| demands_named root name p :
    (rq_method req, root, p) ∈ [("DELETE", "/api/v1/cost/usage/", ManageUsage);
      ("PUT", "/api/v1/cost/models/", ManageModelCosts);
      ("DELETE", "/api/v1/cost/models/", ManageModelCosts);
      ("DELETE", "/api/v1/providers/failed/", ManageProviders)] →
    name ≠ "" → rq_path req = root +:+ name → demands api req p None
| demands_provider name p :
    (rq_method req, p) ∈ [("GET", ViewProviders); ("PUT", ManageProviders);
      ("PATCH", ManageProviders); ("DELETE", ManageProviders)] →
    name ≠ "" → strip_prefix "failed/" name = None →
    rq_path req = "/api/v1/providers/" +:+ name → demands api req p None
| demands_token_removal h :
    rq_path req = "/api/v1/tokens/" +:+ h → demands api req ManagePrincipals None
| demands_principal_removal q :
    rq_method req = "DELETE" → rq_path req = "/api/v1/principals/" +:+ q →
    strip_suffix "/access" q = None → strip_suffix "/tokens" q = None →
    demands api req ManagePrincipals None
| demands_token_creation tail q :
    rq_method req = "POST" → rq_path req = "/api/v1/principals/" +:+ tail →
    strip_suffix "/access" tail = None → strip_suffix "/tokens" tail = Some q →
    demands api req ManagePrincipals None
| demands_principal_creation body :
    rq_method req = "POST" → rq_path req = "/api/v1/principals" →
    read_body_string req = Ok body →
    demands api req ManagePrincipals (extract_json_string body "project_id")
| demands_binding_creation body principal role :
    rq_method req = "POST" → rq_path req = "/api/v1/role-bindings" →
    read_body_string req = Ok body → extract_json_string body "principal_id" = Some principal →
    extract_json_string body "role" ≫= role_parse = Some role →
    demands api req ManageRoleBindings (extract_json_string body "project_id")
| demands_binding_removal id b s :
    rq_path req = "/api/v1/role-bindings/" +:+ id → auth_service api = Some s →
    find_first (λ b, String.eqb (rb_binding_id b) id) (list_role_bindings s None None) = Some b →
    demands api req ManageRoleBindings (rb_project_id b).

(** An authenticated request passes the guard of the dispatcher, if there is
    one, and then the handler of its endpoint. *)
Lemma handle_request_authenticated (api : LlmGatewayApi St GSt) req rnd now ctx :
  auth_required api = true → caller_of api req = Some ctx →
  handle_request_with_auth other principal_access req rnd now api =
  let ep := route (rq_method req) (rq_path req) in
  let run := run_endpoint other principal_access ep (Some ctx) req rnd now in
  match guard_of ep with Some p => guarded (Some ctx) p None run api | None => run api end.
Proof.
  intros Hreq Hc. unfold handle_request_with_auth. by rewrite authenticate_request_cases, Hreq, Hc.
Qed.

(** How the dispatcher enforces a demand: by its own guard, or, when the endpoint
    has none, by that of the handler. *)
Definition enforced (api : LlmGatewayApi St GSt) req p (project : option ProjectId) : Prop :=
  let ep := route (rq_method req) (rq_path req) in
  (guard_of ep = Some p ∧ project = None) ∨
  (guard_of ep = None ∧ ∀ ctx rnd now, ∃ k,
     run_endpoint other principal_access ep (Some ctx) req rnd now api = guarded (Some ctx) p project k api).

(** One case per row of a table. *)
Local Ltac table_rows Hin :=
  repeat (apply elem_of_cons in Hin as [?E|Hin]); [..|by apply elem_of_nil in Hin];
  repeat match goal with E : (_, _) = (_, _) |- _ => apply pair_equal_spec in E as [E ?]; subst end.

Lemma route_named m root name p :
  (m, root, p) ∈ [("DELETE", "/api/v1/cost/usage/", ManageUsage);
    ("PUT", "/api/v1/cost/models/", ManageModelCosts);
    ("DELETE", "/api/v1/cost/models/", ManageModelCosts);
    ("DELETE", "/api/v1/providers/failed/", ManageProviders)] →
  name ≠ "" → guard_of (route m (root +:+ name)) = Some p.
Proof.
  intros Hin Hn. apply String.eqb_neq in Hn.
  table_rows Hin; unfold route, param_route, by_method; simpl; by rewrite ?Hn.
Qed.

Lemma route_provider m name p :
  (m, p) ∈ [("GET", ViewProviders); ("PUT", ManageProviders);
    ("PATCH", ManageProviders); ("DELETE", ManageProviders)] →
  name ≠ "" → strip_prefix "failed/" name = None →
  guard_of (route m ("/api/v1/providers/" +:+ name)) = Some p.
Proof.
  intros Hin Hn Hf. apply String.eqb_neq in Hn. unfold route.
  destruct (find_first _ fixed_routes) as [[[k path] ep]|] eqn:E.
  - apply find_first_In in E as [Hk [Hm Hp]%andb_prop].
    apply String.eqb_eq in Hm as <-. apply String.eqb_eq in Hp. simpl in Hp.
    unfold fixed_routes in Hk. table_rows Hk; try discriminate Hp; by table_rows Hin.
  - clear E. unfold param_route, by_method. simpl. simpl in Hf. rewrite Hf, Hn. by table_rows Hin.
Qed.

Lemma demands_enforced api req p project :
  auth_required api = true → demands api req p project → enforced api req p project.
Proof.
  intros Hreq Hd. unfold enforced. destruct Hd as
    [path p Hin Hp|root name p Hin Hn Hp|name p Hin Hn Hf Hp|h Hp|q Hm Hp H1' H2'|tail q Hm Hp H1' H2'
    |body Hm Hp Hb|body principal role Hm Hp Hb Hpr Hro|id b s Hp Hs Hf]; rewrite Hp.
  - table_rows Hin; rewrite E; match goal with Hp : rq_path req = _ |- _ => rewrite Hp end;
      first [left; split; reflexivity|right; (split; [reflexivity|]); intros; simpl; eexists; reflexivity].
  - left. split; [|done]. by apply route_named.
  - left. split; [|done]. by apply route_provider.
  - rewrite any_method_revokes. right. split; [done|]. intros; by eexists.
  - rewrite Hm. right. split; [done|]. intros. simpl. unfold handle_principal_subroutes.
    rewrite H1', H2', Hm. simpl. by eexists.
  - rewrite Hm. right. split; [done|]. intros. simpl. unfold handle_principal_subroutes.
    rewrite H1', H2', Hm. simpl. by eexists.
  - rewrite Hm. right. split; [done|]. intros. simpl. unfold handle_create_principal.
    rewrite Hb. simpl. by eexists.
  - rewrite Hm. right. split; [done|]. intros. change (route "POST" "/api/v1/role-bindings") with CreateRoleBinding.
    cbn beta iota delta [run_endpoint].
    unfold handle_create_role_binding. rewrite Hb. cbn beta iota delta [or_return]. rewrite Hpr. cbn beta iota delta [or_return ok_or].
    rewrite Hro. by eexists.
  - right. assert (Hr : route (rq_method req) ("/api/v1/role-bindings/" +:+ id) = DeleteRoleBinding id).
    { unfold route, param_route. simpl. by rewrite !andb_false_r. }
    rewrite Hr. split; [done|]. intros. simpl. unfold handle_delete_role_binding.
    rewrite Hs. simpl. rewrite Hf. by eexists.
Qed.

(** A request that leaves the identities alone, or demands a permission the caller
    has. *)
Definition within_rights (api : LlmGatewayApi St GSt) req ctx (api' : LlmGatewayApi St GSt) : Prop :=
  auth_service api' = auth_service api ∨
  ∃ p project, demands api req p project ∧ is_allowed ctx p project = true.

(** Which requests reach the endpoints that change identities. *)
Definition reached_by (m path : string) (ep : Endpoint) : Prop :=
  match ep with
  | CreateProject => m = "POST" ∧ path = "/api/v1/projects"
  | CreatePrincipal => m = "POST" ∧ path = "/api/v1/principals"
  | CreateRoleBinding => m = "POST" ∧ path = "/api/v1/role-bindings"
  | PrincipalSubroutes tail => path = "/api/v1/principals/" +:+ tail
  | DeleteToken h => path = "/api/v1/tokens/" +:+ h
  | DeleteRoleBinding b => path = "/api/v1/role-bindings/" +:+ b
  | _ => True
  end.

Lemma by_method_reached m path x arms :
  (∀ a, a ∈ arms → reached_by m path (a.2 x)) → reached_by m path (by_method x m arms).
Proof.
  intros Ha. unfold by_method. destruct (String.eqb x ""); [done|].
  destruct (find_first _ arms) as [[k ep]|] eqn:E; [|done].
  apply find_first_In in E as [Hin _]. by apply (Ha (k, ep)).
Qed.

Lemma route_reached m path : reached_by m path (route m path).
Proof.
  unfold route. destruct (find_first _ fixed_routes) as [[[k q] ep]|] eqn:E.
  - apply find_first_In in E as [Hk [Hm Hp]%andb_prop]. apply String.eqb_eq in Hm, Hp. simpl in Hm, Hp.
    subst. unfold fixed_routes in Hk. by table_rows Hk.
  - clear E. unfold param_route.
    repeat lazymatch goal with
    | |- reached_by _ _ (match ?x with _ => _ end) => destruct x eqn:?Hs
    end; try done; try (by apply strip_prefix_Some);
      apply by_method_reached; intros a Hin;
      repeat (apply elem_of_cons in Hin as [->|Hin]; [done|]); by apply elem_of_nil in Hin.
Qed.

(** A handler that changes identities only behind a demand the caller meets. *)
Lemma guarded_within_rights api req ctx p project k :
  auth_required api = true → demands api req p project →
  within_rights api req ctx (guarded (Some ctx) p project k api).1.
Proof.
  intros Hreq Hd. destruct (is_allowed ctx p project) eqn:Ha; [right; by exists p, project|].
  left. by rewrite guarded_refuses.
Qed.

Lemma unchanged_within_rights api req ctx (h : LlmGatewayApi St GSt * ApiResponse) r :
  h = (api, r) → within_rights api req ctx h.1.
Proof. intros ->. by left. Qed.

Lemma guarded_reading api auth p project (k : LlmGatewayApi St GSt → ApiResponse) :
  ∃ r, guarded auth p project (λ a, (a, k a)) api = (api, r).
Proof. unfold guarded. destruct (ensure_permission _ _ _ _); eauto. Qed.

Lemma principal_subroutes_within_rights api req ctx tail rnd now :
  auth_required api = true → rq_path req = "/api/v1/principals/" +:+ tail →
  (∀ q a, auth_service (principal_access q a).1 = auth_service a) →
  within_rights api req ctx
    (handle_principal_subroutes (Some ctx) tail req rnd now principal_access api).1.
Proof.
  intros Hreq Hp Ho. unfold handle_principal_subroutes.
  destruct (strip_suffix "/access" tail) as [q|] eqn:E1.
  { destruct (negb _); [by left|]. left. unfold guarded. by destruct (ensure_permission _ _ _ _). }
  destruct (strip_suffix "/tokens" tail) as [q|] eqn:E2;
    destruct (String.eqb (rq_method req) _) eqn:Hm; simpl; try (by left);
    apply String.eqb_eq in Hm; unfold handle_create_token, handle_delete_principal;
    (apply guarded_within_rights; [done|]).
  - by eapply demands_token_creation.
  - by eapply demands_principal_removal.
Qed.

Lemma identities_behind_demands api req ctx rnd now :
  (∀ ep auth rq a, auth_service (other ep auth rq a).1 = auth_service a) →
  (∀ q a, auth_service (principal_access q a).1 = auth_service a) →
  auth_required api = true →
  within_rights api req ctx
    (run_endpoint other principal_access (route (rq_method req) (rq_path req)) (Some ctx) req rnd now api).1.
Proof.
  intros Ho Hpa Hreq. pose proof (route_reached (rq_method req) (rq_path req)) as Hr.
  destruct (route _ _); simpl in Hr; cbn beta iota delta [run_endpoint];
    try (by left; apply Ho); try (by left).
  - destruct Hr. apply guarded_within_rights; [done|].
    eapply demands_fixed; [|done]. rewrite H2. set_solver.
  - left. unfold handle_list_principals, guarded. by destruct (ensure_permission _ _ _ _).
  - destruct Hr. unfold handle_create_principal, or_return.
    destruct (read_body_string req) as [body|] eqn:Hb; [|by left].
    apply guarded_within_rights; [done|]. by apply demands_principal_creation.
  - left. unfold handle_list_role_bindings, or_return, guarded.
    destruct (query_project _ _ _); [|done]. by destruct (ensure_permission _ _ _ _).
  - destruct Hr. unfold handle_create_role_binding, or_return.
    destruct (read_body_string req) as [body|] eqn:Hb; [|by left].
    destruct (extract_json_string body "principal_id") as [principal|] eqn:Hpr; [|by left].
    unfold ok_or at 1. destruct (extract_json_string body "role" ≫= role_parse) as [role|] eqn:Hro; [|by left].
    simpl. apply guarded_within_rights; [done|]. by eapply demands_binding_creation.
  - left. unfold handle_list_tokens, guarded. by destruct (ensure_permission _ _ _ _).
  - by apply principal_subroutes_within_rights.
  - apply guarded_within_rights; [done|]. by apply (demands_token_removal _ _ token_hash).
  - unfold handle_delete_role_binding. destruct (auth_required_Some _ Hreq) as [s Hs]. rewrite Hs. simpl.
    destruct (find_first _ _) as [b|] eqn:Hf; [|by left].
    apply guarded_within_rights; [done|]. by apply (demands_binding_removal _ _ binding_id b s).
Qed.


End dispatch.

(** ** What a project role reaches beyond its project *)

Section escalation.
Context {St GSt : Type} `{AuthStoreOk St} `{TokenDigest} `{SerdeJson}.

Lemma answering_ok {A} (op : ST (AuthService St) StoreError A) ok (api : LlmGatewayApi St GSt) s s' a :
  auth_service api = Some s → op s = (s', Ok a) →
  answering op ok api = (api <| auth_service := Some s' |>, ok a).
Proof. intros Hs Hop. unfold answering, auth_call. rewrite Hs, Hop. done. Qed.

(** Creating a binding appends it to the principal's, whatever the store is. *)
Lemma create_role_binding_ok (s s' : AuthService St) p role q rnd now b :
  auth_create_role_binding p role q rnd now s = (s', Ok b) →
  tokens s' = tokens s ∧ principals s' = principals s ∧
  rb_role b = role_as_str role ∧ rb_project_id b = q ∧
  default [] (bindings s' !! p) = default [] (bindings s !! p) ++ [b].
Proof.
  unfold auth_create_role_binding, mbind, ST_bind.
  destruct (with_store_shape (λ st, upsert_role_binding st
    {| rb_binding_id := generate_id "rb" rnd; rb_principal_id := p; rb_role := role_as_str role;
       rb_project_id := q; rb_created_at := current_timestamp_string now |}) s) as (st & [a|e] & ->);
    simpl; intros [= <- <-]; simpl; split_and!; try done.
  by rewrite lookup_insert_eq.
Qed.

(** a project administrator can make itself administrator of the instance.
    The handler that creates role bindings asks for the permission to manage
    bindings in the project the request names, and not for the role it grants;
    the authoriser then takes an instance administrator for unscoped whatever
    project its binding names.  So one request by an administrator of the project
    [q] is answered 201 and gives its token every permission everywhere. *)
Theorem project_admin_escalates (api : LlmGatewayApi St GSt) s s' token ctx t pn q req body rnd now b :
  auth_service api = Some s → authenticate_bearer s token = Some ctx →
  {| ra_role := ProjectAdmin; ra_project_id := Some q |} ∈ ac_assignments ctx →
  tokens s !! hash_token token = Some t → tk_active t = true →
  principals s !! tk_principal_id t = Some pn → pn_active pn = true →
  read_body_string req = Ok body →
  extract_json_string body "principal_id" = Some (tk_principal_id t) →
  extract_json_string body "role" = Some "instance_admin" →
  extract_json_string body "project_id" = Some q →
  auth_create_role_binding (tk_principal_id t) InstanceAdmin (Some q) rnd now s = (s', Ok b) →
  let '(api', resp) := handle_create_role_binding (Some ctx) req rnd now api in
  api_status resp = 201%Z ∧ auth_service api' = Some s' ∧
  ∀ p project, access s' token p project = true.
Proof.
  intros Hs Hctx Ha Ht Hta Hp Hpa Hbody Hprin Hrole Hproj Hop.
  unfold handle_create_role_binding, or_return. rewrite Hbody, Hprin. simpl. rewrite Hrole. simpl.
  rewrite Hproj, guarded_admits; [|by rewrite Hs|].
  2:{ unfold is_allowed. apply existsb_exists. eexists. split; [by apply list_elem_of_In|].
      apply assignment_allows_spec. by right. }
  erewrite answering_ok by done. simpl. split_and!; [done..|]. intros p project.
  destruct (create_role_binding_ok _ _ _ _ _ _ _ _ Hop) as (Ets & Eps & Hbr & Hbq & Hbs).
  apply access_exact. right. exists t, pn, b, InstanceAdmin. rewrite Ets, Eps, Hbs, Hbr.
  split_and!; try done; [apply elem_of_app; right; by left|by left].
Qed.

(** a role in one project reaches instance-wide endpoints: the dispatcher
    asks for its permissions without a project, which a project role satisfies for
    all but three of them, so an operator of any one project passes the guards of
    the endpoints that change providers and wipe the usage of every key. *)
Theorem project_operator_passes_instance_guards (api : LlmGatewayApi St GSt) ctx q k name :
  is_Some (auth_service api) →
  ac_assignments ctx = [{| ra_role := ProjectOperator; ra_project_id := Some q |}] →
  (∀ ep, ep ∈ [DeleteAllUsage; DeleteProvider name; PutProvider name; ClearAllFailed] →
     ∃ p, guard_of ep = Some p ∧ guarded (Some ctx) p None k api = k api) ∧
  (∀ p, guard_of ControlPlaneImport = Some p → guarded (Some ctx) p None k api = (api, forbidden)).
Proof.
  intros Hs Hctx.
  assert (Hyes : ∀ p, role_allows ProjectOperator p = true → instance_only p = false →
                      is_allowed ctx p None = true).
  { intros p Hr Hi. unfold is_allowed. rewrite Hctx. simpl. rewrite orb_false_r.
    apply assignment_allows_spec. right. split; [done|]. by rewrite Hi. }
  split.
  - intros ep Hep. repeat (apply elem_of_cons in Hep as [->|Hep]); [..|by apply elem_of_nil in Hep];
      (eexists; split; [reflexivity|]; apply guarded_admits; [done|]; by apply Hyes).
  - intros p [= <-]. apply guarded_refuses.
    + unfold auth_required. by rewrite bool_decide_eq_true_2.
    + unfold is_allowed. rewrite Hctx. done.
Qed.

End escalation.

(** ** Witnesses *)

(** A body with the three fields of a role binding. *)
Definition binding_json (principal role project : string) : SerdeJson := {|
  json_from_str _ := Some (JObject [("principal_id", JString principal);
                                    ("project_id", JString project); ("role", JString role)]);
  json_to_string _ := "";
|}.

Definition demo_api : LlmGatewayApi SqliteStore () :=
  {| auth_service := Some demo_service; gateway_store := None |}.

Definition demo_request (method path : string) (token : option string) : ApiRequest :=
  {| rq_method := method; rq_path := path; rq_query := None; rq_authorization := token;
     rq_body := Some "{}" |}.

Definition alice_context : AuthContext :=
  {| ac_principal_id := "prn-1"; ac_source := ControlPlaneToken;
     ac_assignments := [{| ra_role := ProjectAdmin; ra_project_id := Some "red" |}] |}.

Definition nothing_else : Endpoint → option AuthContext → ApiRequest →
    LlmGatewayApi SqliteStore () → LlmGatewayApi SqliteStore () * ApiResponse :=
  λ _ _ _ api, (api, json_response 200 "{}").

Definition no_access_view : string → LlmGatewayApi SqliteStore () → LlmGatewayApi SqliteStore () * ApiResponse :=
  λ _ api, (api, not_found).

Lemma alice_calls m path : caller_of demo_api (demo_request m path (Some "Bearer secret")) = Some alice_context.
Proof. vm_compute. reflexivity. Qed.


Lemma revocation_is_instance_wide_witness :
  handle_delete_token (Some alice_context) "x" demo_api = (demo_api, forbidden).
Proof.
  apply (revocation_is_instance_wide demo_api alice_context "x" "y"); [reflexivity|].
  repeat constructor; done.
Defined.

Lemma project_admin_escalates_witness :
  let '(api', resp) := handle_create_role_binding (H1 := binding_json "prn-1" "instance_admin" "red")
      (Some alice_context) (demo_request "POST" "/api/v1/role-bindings" (Some "Bearer secret"))
      [1; 2]%Z None demo_api in
  api_status resp = 201%Z ∧ ∃ s', auth_service api' = Some s' ∧
  ∀ p project, access s' "secret" p project = true.
Proof.
  pose proof (project_admin_escalates (H2 := binding_json "prn-1" "instance_admin" "red") demo_api demo_service
    (auth_create_role_binding "prn-1" InstanceAdmin (Some "red") [1; 2]%Z None demo_service).1
    "secret" alice_context demo_token demo_principal "red"
    (demo_request "POST" "/api/v1/role-bindings" (Some "Bearer secret")) "{}" [1; 2]%Z None
    {| rb_binding_id := generate_id "rb" [1; 2]%Z; rb_principal_id := "prn-1"; rb_role := "instance_admin";
       rb_project_id := Some "red"; rb_created_at := "0" |}) as Hw.
  specialize (Hw eq_refl ltac:(vm_compute; reflexivity) ltac:(left) ltac:(vm_compute; reflexivity)
    eq_refl ltac:(vm_compute; reflexivity) eq_refl ltac:(vm_compute; reflexivity) eq_refl eq_refl eq_refl
    ltac:(vm_compute; reflexivity)).
  destruct (handle_create_role_binding _ _ _ _ _) as [api' resp].
  destruct Hw as (? & ? & ?). split; [done|]. eexists. split; [done|]. done.
Defined.

Lemma project_operator_passes_instance_guards_witness :
  ∃ p, guard_of DeleteAllUsage = Some p ∧
    guarded (Some {| ac_principal_id := "p"; ac_source := ControlPlaneToken;
      ac_assignments := [{| ra_role := ProjectOperator; ra_project_id := Some "red" |}] |}) p None
      (λ api, (api, not_found)) demo_api = (demo_api, not_found).
Proof.
  apply (project_operator_passes_instance_guards (H0 := SqliteStore_ok) demo_api
    {| ac_principal_id := "p"; ac_source := ControlPlaneToken;
       ac_assignments := [{| ra_role := ProjectOperator; ra_project_id := Some "red" |}] |}
    "red" (λ api, (api, not_found)) "openai"); [by eexists|reflexivity|left].
Defined.
