(* ===== verification/SessionStore.v ===== *)
(** * Session records and their store

    Model of the session part of [plugin-llm-gateway/src/store]: the records, the
    methods of the trait [GatewayStore] that keep them, as an interface with its
    contract, and the SQLite implementation of these methods. *)

From S2P Require Import Prelude RecordSet RustStr F64 Sql.

Local Open Scope string_scope.
Local Open Scope list_scope.
Local Open Scope rust_scope.

(** ** Records *)

Record SessionRecord := {
  sr_session_id : string;
  sr_project_id : option string;
  sr_project_ids_json : option string;
  sr_first_request_unix : option Z;
  sr_last_request_unix : option Z;
  sr_updated_at_unix : Z;
  sr_request_count : Z;
  sr_streaming_request_count : Z;
  sr_total_input_tokens : Z;
  sr_total_output_tokens : Z;
  sr_total_cost : f64;
  sr_providers_json : option string;
  sr_models_json : option string;
  sr_prompt_names_json : option string;
  sr_prompt_versions_json : option string;
  sr_tool_names_json : option string;
  sr_latest_request_json : option string;
  sr_safety_event_count : Z;
  sr_semantic_event_count : Z;
  sr_semantic_degraded_count : Z;
  sr_tool_call_count : Z;
  sr_tool_error_count : Z;
  sr_status : option string;
  sr_owner_id : option string;
  sr_owner_acquired_at_unix : option Z;
  sr_last_transition_at_unix : option Z;
  sr_last_transition_reason : option string;
  sr_last_heartbeat_unix : option Z;
  sr_lease_expires_at_unix : option Z;
  sr_cancel_requested_at_unix : option Z;
  sr_cancel_requested_by : option string;
  sr_cancel_reason : option string;
  sr_handoff_target_owner_id : option string;
  sr_handoff_requested_at_unix : option Z;
  sr_handoff_reason : option string;
  sr_state_json : option string;
  sr_metadata_json : option string;
}.

#[export] Instance SessionRecord_set : Settable SessionRecord := λ r,
  {| sr_session_id := sr_session_id r; sr_project_id := sr_project_id r; sr_project_ids_json :=
     sr_project_ids_json r; sr_first_request_unix := sr_first_request_unix r;
     sr_last_request_unix := sr_last_request_unix r; sr_updated_at_unix := sr_updated_at_unix r;
     sr_request_count := sr_request_count r; sr_streaming_request_count :=
     sr_streaming_request_count r; sr_total_input_tokens := sr_total_input_tokens r;
     sr_total_output_tokens := sr_total_output_tokens r; sr_total_cost := sr_total_cost r;
     sr_providers_json := sr_providers_json r; sr_models_json := sr_models_json r;
     sr_prompt_names_json := sr_prompt_names_json r; sr_prompt_versions_json :=
     sr_prompt_versions_json r; sr_tool_names_json := sr_tool_names_json r;
     sr_latest_request_json := sr_latest_request_json r; sr_safety_event_count :=
     sr_safety_event_count r; sr_semantic_event_count := sr_semantic_event_count r;
     sr_semantic_degraded_count := sr_semantic_degraded_count r; sr_tool_call_count :=
     sr_tool_call_count r; sr_tool_error_count := sr_tool_error_count r; sr_status := sr_status
     r; sr_owner_id := sr_owner_id r; sr_owner_acquired_at_unix := sr_owner_acquired_at_unix r;
     sr_last_transition_at_unix := sr_last_transition_at_unix r; sr_last_transition_reason :=
     sr_last_transition_reason r; sr_last_heartbeat_unix := sr_last_heartbeat_unix r;
     sr_lease_expires_at_unix := sr_lease_expires_at_unix r; sr_cancel_requested_at_unix :=
     sr_cancel_requested_at_unix r; sr_cancel_requested_by := sr_cancel_requested_by r;
     sr_cancel_reason := sr_cancel_reason r; sr_handoff_target_owner_id :=
     sr_handoff_target_owner_id r; sr_handoff_requested_at_unix := sr_handoff_requested_at_unix
     r; sr_handoff_reason := sr_handoff_reason r; sr_state_json := sr_state_json r;
     sr_metadata_json := sr_metadata_json r |}.

(** A record of which only the identifier is known. *)
Definition blank_session (session_id : string) (updated_at : Z) : SessionRecord :=
  {| sr_session_id := session_id; sr_project_id := None; sr_project_ids_json := None;
     sr_first_request_unix := None; sr_last_request_unix := None; sr_updated_at_unix :=
     updated_at; sr_request_count := 0%Z; sr_streaming_request_count := 0%Z;
     sr_total_input_tokens := 0%Z; sr_total_output_tokens := 0%Z; sr_total_cost := f_zero;
     sr_providers_json := None; sr_models_json := None; sr_prompt_names_json := None;
     sr_prompt_versions_json := None; sr_tool_names_json := None; sr_latest_request_json :=
     None; sr_safety_event_count := 0%Z; sr_semantic_event_count := 0%Z;
     sr_semantic_degraded_count := 0%Z; sr_tool_call_count := 0%Z; sr_tool_error_count := 0%Z;
     sr_status := None; sr_owner_id := None; sr_owner_acquired_at_unix := None;
     sr_last_transition_at_unix := None; sr_last_transition_reason := None;
     sr_last_heartbeat_unix := None; sr_lease_expires_at_unix := None;
     sr_cancel_requested_at_unix := None; sr_cancel_requested_by := None; sr_cancel_reason :=
     None; sr_handoff_target_owner_id := None; sr_handoff_requested_at_unix := None;
     sr_handoff_reason := None; sr_state_json := None; sr_metadata_json := None |}.

Record SessionEventRecord := {
  se_event_seq : Z;
  se_session_id : string;
  se_project_id : option string;
  se_event_kind : string;
  se_actor_id : option string;
  se_reason : option string;
  se_payload_json : option string;
  se_created_at_unix : Z;
}.

#[export] Instance SessionEventRecord_set : Settable SessionEventRecord := λ e,
  {| se_event_seq := se_event_seq e; se_session_id := se_session_id e;
     se_project_id := se_project_id e; se_event_kind := se_event_kind e;
     se_actor_id := se_actor_id e; se_reason := se_reason e;
     se_payload_json := se_payload_json e; se_created_at_unix := se_created_at_unix e |}.

(** ** The methods of the store *)

Class SessionStore (S : Type) := {
  get_session : S → string → S * result StoreError (option SessionRecord);
  upsert_session : S → SessionRecord → S * result StoreError ();
  list_sessions_for_recovery : S → Z → Z → S * result StoreError (list string);
  append_session_event : S → SessionEventRecord → S * result StoreError Z;
  get_session_events :
    S → string → option Z → Z → S * result StoreError (list SessionEventRecord);
}.

(** The two tables; an event's number is its row identifier. *)
Record SessionTables := {
  session_state : gmap string SessionRecord;
  session_event : list SessionEventRecord;
}.

#[export] Instance SessionTables_set : Settable SessionTables := λ t,
  {| session_state := session_state t; session_event := session_event t |}.

(** The row a query for recovery selects: not finished, and either its owner's
    lease is over or a cancellation is due. *)
Definition terminal_status (s : string) : bool :=
  bool_decide (s ∈ ["completed"; "cancelled"; "failed"]).

Definition lease_over (now : Z) (r : SessionRecord) : bool :=
  match sr_lease_expires_at_unix r with Some t => (t <=? now)%Z | None => true end.

Definition needs_recovery (now : Z) (r : SessionRecord) : bool :=
  match sr_status r with Some s => negb (terminal_status (to_lowercase s)) | None => true end
  && (bool_decide (is_Some (sr_owner_id r)) && lease_over now r
      || bool_decide (is_Some (sr_cancel_requested_at_unix r))
         && (bool_decide (sr_owner_id r = None) || lease_over now r)).

(** The contract.  [limit] bounds a query; the rows it leaves out come later in
    the order the store chooses. *)
Class SessionStoreOk (S : Type) `{SessionStore S} := {
  session_tables : S → SessionTables;
  read_session st k st' r : get_session st k = (st', r) →
    session_tables st' = session_tables st ∧
    ∀ o, r = Ok o → o = session_state (session_tables st) !! k;
  write_session st rec st' r : upsert_session st rec = (st', r) →
    session_tables st' = match r with
      | Ok _ => session_tables st <| session_state :=
                  <[sr_session_id rec := rec]> (session_state (session_tables st)) |>
      | Err _ => session_tables st
      end;
  read_recovery st now limit st' r : list_sessions_for_recovery st now limit = (st', r) →
    session_tables st' = session_tables st ∧
    ∀ ids, r = Ok ids → ∃ l rest,
      filter (λ rec, needs_recovery now rec = true) (rows (session_state (session_tables st)))
        ≡ₚ l ++ rest ∧
      ids = sr_session_id <$> l ∧ length l = Z.to_nat limit `min` length (l ++ rest);
  write_event st e st' r : append_session_event st e = (st', r) →
    match r with
    | Ok seq => session_tables st' = session_tables st <| session_event :=
                  session_event (session_tables st) ++ [e <| se_event_seq := seq |>] |>
    | Err _ => session_tables st' = session_tables st
    end;
}.

(** ** The SQLite implementation *)

Definition SessionDb : Type := SqlDb SessionTables.

Definition sqlite_get_session (s : SessionDb) (session_id : string) :=
  execute s (λ t, (t, session_state t !! session_id)).

(** Every column but the key is overwritten when the key is there. *)
Definition sqlite_upsert_session (s : SessionDb) (record : SessionRecord) :=
  execute s (λ t, (t <| session_state := <[sr_session_id record := record]> (session_state t) |>, ())).

(** [COALESCE(lease_expires_at_unix, cancel_requested_at_unix, updated_at_unix)] *)
Definition recovery_order (r : SessionRecord) : Z :=
  match sr_lease_expires_at_unix r, sr_cancel_requested_at_unix r with
  | Some t, _ => t
  | None, Some t => t
  | None, None => sr_updated_at_unix r
  end.

Definition sqlite_list_sessions_for_recovery (s : SessionDb) (now limit : Z) :=
  execute s (λ t, (t, sr_session_id <$> take (Z.to_nat limit)
    (sort_by (λ x y, (recovery_order x <=? recovery_order y)%Z)
       (filter (λ r, needs_recovery now r = true) (rows (session_state t)))))).

(** [AUTOINCREMENT] numbers the rows from one. *)
Definition sqlite_append_session_event (s : SessionDb) (e : SessionEventRecord) :=
  execute s (λ t,
    let seq := Z.of_nat (S (length (session_event t))) in
    (t <| session_event := session_event t ++ [e <| se_event_seq := seq |>] |>, seq)).

Definition sqlite_get_session_events (s : SessionDb) (session_id : string) (after_seq : option Z)
    (limit : Z) :=
  execute s (λ t, (t, take (Z.to_nat (if (limit =? 0)%Z then 100 else limit)%Z)
    (filter (λ e, se_session_id e = session_id ∧
                  match after_seq with Some a => (a <? se_event_seq e)%Z | None => true end = true)
       (session_event t)))).

#[export] Instance SessionDb_store : SessionStore SessionDb := {|
  get_session := sqlite_get_session;
  upsert_session := sqlite_upsert_session;
  list_sessions_for_recovery := sqlite_list_sessions_for_recovery;
  append_session_event := sqlite_append_session_event;
  get_session_events := sqlite_get_session_events;
|}.

#[export] Instance SessionDb_ok : SessionStoreOk SessionDb.
Proof.
  refine {| session_tables := db_tables (T := SessionTables) |}.
  - intros st k st' r E. by apply execute_select in E.
  - intros st rec st' r E. by eapply execute_write.
  - intros st now limit st' r E. apply execute_select in E as [HE1 HE2]. split; [done|].
    intros ids ->. rewrite (HE2 ids eq_refl). set (l := sort_by _ _).
    exists (take (Z.to_nat limit) l), (drop (Z.to_nat limit) l). rewrite take_drop. split_and!.
    + symmetry. apply sort_by_perm.
    + done.
    + by rewrite length_take.
  - intros st e st' r E. apply execute_cases in E. destruct r as [seq|e']; [|done].
    by destruct E as [-> ->].
Defined.
