(* ===== verification/SessionRecovery.v ===== *)
(** * Recovery of sessions

    Model of [plugin-llm-gateway/src/session_recovery.rs]: when the owner of a
    session is stale, what reconciling a record does, and the pass over the
    store the recovery task runs every five seconds. *)

From S2P Require Import Prelude RecordSet StateResult RustStr Sql SessionStore.

Local Open Scope string_scope.
Local Open Scope list_scope.
Local Open Scope rust_scope.

Definition SESSION_RECOVERY_REQUIRED_REASON : string := "owner lease expired; recovery required".
Definition SESSION_CANCELLED_AFTER_OWNER_EXPIRY_REASON : string :=
  "cancel request finalized after owner lease expired".
Definition SESSION_CANCELLED_WITHOUT_OWNER_REASON : string :=
  "cancel request finalized without active owner".
Definition SESSION_RECOVERY_SCAN_LIMIT : Z := 128.

Inductive SessionReconcileAction :=
| RecoveryRequired
| CancelledAfterOwnerExpiry
| CancelledWithoutOwner.

#[export] Instance SessionReconcileAction_eq_dec : EqDecision SessionReconcileAction.
Proof. solve_decision. Defined.

Definition action_as_str (a : SessionReconcileAction) : string :=
  match a with
  | RecoveryRequired => "recovery_required"
  | CancelledAfterOwnerExpiry => "cancelled_after_owner_expiry"
  | CancelledWithoutOwner => "cancelled_without_owner"
  end.

Definition action_reason (a : SessionReconcileAction) : string :=
  match a with
  | RecoveryRequired => SESSION_RECOVERY_REQUIRED_REASON
  | CancelledAfterOwnerExpiry => SESSION_CANCELLED_AFTER_OWNER_EXPIRY_REASON
  | CancelledWithoutOwner => SESSION_CANCELLED_WITHOUT_OWNER_REASON
  end.

(** ** A record *)

Definition session_status_is_terminal (status : string) : bool :=
  bool_decide (status ∈ ["completed"; "cancelled"; "failed"]).

Definition session_is_terminal (record : SessionRecord) : bool :=
  from_option session_status_is_terminal false (sr_status record).

Definition session_owner_is_stale (record : SessionRecord) (now : Z) : bool :=
  is_some (sr_owner_id record)
  && from_option (λ expires_at, (expires_at <=? now)%Z) true (sr_lease_expires_at_unix record).

Definition session_cancel_is_pending (record : SessionRecord) : bool :=
  negb (session_is_terminal record) && is_some (sr_cancel_requested_at_unix record).

Definition session_handoff_is_pending (record : SessionRecord) : bool :=
  is_some (sr_handoff_target_owner_id record) && is_some (sr_handoff_requested_at_unix record).

Definition session_recovery_required (record : SessionRecord) (now : Z) : bool :=
  if session_is_terminal record || session_cancel_is_pending record then false
  else if session_owner_is_stale record now then true
  else
    negb (is_some (sr_owner_id record))
    && bool_decide (sr_status record = Some "paused")
    && bool_decide (sr_last_transition_reason record = Some SESSION_RECOVERY_REQUIRED_REASON).

Definition session_recovery_reason (record : SessionRecord) (now : Z) : option string :=
  if session_recovery_required record now then Some SESSION_RECOVERY_REQUIRED_REASON else None.

Definition clear_session_owner (record : SessionRecord) : SessionRecord :=
  record <| sr_owner_id := None |> <| sr_owner_acquired_at_unix := None |>
         <| sr_lease_expires_at_unix := None |>.

Definition clear_session_handoff (record : SessionRecord) : SessionRecord :=
  record <| sr_handoff_target_owner_id := None |> <| sr_handoff_requested_at_unix := None |>
         <| sr_handoff_reason := None |>.

Definition reconcile_session_record (record : SessionRecord) (now : Z)
    : SessionRecord * option SessionReconcileAction :=
  if session_is_terminal record then (record, None)
  else
    let owner_stale := session_owner_is_stale record now in
    let cancel_pending := session_cancel_is_pending record in
    if owner_stale then
      let record := clear_session_handoff (clear_session_owner record) in
      if cancel_pending then
        (record <| sr_status := Some "cancelled" |>
                <| sr_last_transition_reason := Some SESSION_CANCELLED_AFTER_OWNER_EXPIRY_REASON |>
                <| sr_last_transition_at_unix := Some now |>
                <| sr_updated_at_unix := now |>,
         Some CancelledAfterOwnerExpiry)
      else
        let record := if bool_decide (sr_status record ≠ Some "paused")
                      then record <| sr_status := Some "paused" |> else record in
        (record <| sr_last_transition_reason := Some SESSION_RECOVERY_REQUIRED_REASON |>
                <| sr_last_transition_at_unix := Some now |>
                <| sr_updated_at_unix := now |>,
         Some RecoveryRequired)
    else if cancel_pending && negb (is_some (sr_owner_id record)) then
      (clear_session_handoff record
         <| sr_status := Some "cancelled" |>
         <| sr_last_transition_reason := Some SESSION_CANCELLED_WITHOUT_OWNER_REASON |>
         <| sr_last_transition_at_unix := Some now |>
         <| sr_updated_at_unix := now |>,
       Some CancelledWithoutOwner)
    else (record, None).

(** ** A pass over the store *)

Section pass.
Context {S : Type} `{SessionStore S}.

(** The loop; [updated] counts the records it wrote. *)
Fixpoint reconcile_sessions (now : Z) (session_ids : list string) (updated : Z)
    : ST S StoreError Z :=
  match session_ids with
  | [] => mret updated
  | session_id :: rest =>
      o ← (λ s, get_session s session_id);
      match o with
      | None => reconcile_sessions now rest updated
      | Some record =>
          match reconcile_session_record record now with
          | (_, None) => reconcile_sessions now rest updated
          | (record, Some _) =>
              _ ← (λ s, upsert_session s record);
              reconcile_sessions now rest (updated + 1)%Z
          end
      end
  end.

Definition reconcile_sessions_once (now limit : Z) : ST S StoreError Z :=
  session_ids ← (λ s, list_sessions_for_recovery s now limit);
  reconcile_sessions now session_ids 0.

(** The passes of the recovery task: one per tick, at the times [clock]; an
    error ends the pass it occurs in. *)
Fixpoint recovery_ticks (clock : list Z) (s : S) : S :=
  match clock with
  | [] => s
  | now :: rest =>
      recovery_ticks rest (reconcile_sessions_once now SESSION_RECOVERY_SCAN_LIMIT s).1
  end.

End pass.
