(* ===== verification/RecoveryProps.v ===== *)
(** * Recovery of sessions: what a pass does and that passes converge

    A pass repairs the sessions its query selects, once and for good, and
    touches no other; with faults of the store in between, enough successful
    passes leave no session behind. *)

From S2P Require Import Prelude RecordSet StateResult RustStr F64 Sql SessionStore SessionRecovery.

Local Open Scope string_scope.
Local Open Scope list_scope.
Local Open Scope rust_scope.

(** ** Records *)

Lemma reconcile_keeps_id r now : sr_session_id (reconcile_session_record r now).1 = sr_session_id r.
Proof. unfold reconcile_session_record. by repeat case_match. Qed.

Lemma reconcile_idle r now :
  (reconcile_session_record r now).2 = None → (reconcile_session_record r now).1 = r.
Proof. unfold reconcile_session_record. by repeat case_match. Qed.

(** A record with no owner that is terminal or has no cancellation is at rest. *)
Definition at_rest (r : SessionRecord) : Prop :=
  sr_owner_id r = None ∧ (session_is_terminal r = true ∨ sr_cancel_requested_at_unix r = None).

Lemma reconcile_rests r now a :
  (reconcile_session_record r now).2 = Some a → at_rest (reconcile_session_record r now).1.
Proof.
  unfold reconcile_session_record, session_cancel_is_pending, at_rest.
  destruct (session_is_terminal r) eqn:Ht; [done|]. simpl.
  destruct (sr_cancel_requested_at_unix r) eqn:Hc; simpl;
    destruct (session_owner_is_stale r now) eqn:Ho; simpl.
  - intros _. split; [done|]. by left.
  - destruct (sr_owner_id r) eqn:Hown; simpl; [done|]. intros _. split; [done|]. by left.
  - intros _. case_match; simpl; by split; [|right].
  - done.
Qed.

Lemma rest_idle r now : at_rest r → (reconcile_session_record r now).2 = None.
Proof.
  intros [Ho Hc]. unfold reconcile_session_record, session_owner_is_stale, session_cancel_is_pending.
  rewrite Ho. destruct (session_is_terminal r); [done|]. simpl.
  destruct Hc as [?|Hc]; [done|]. by rewrite Hc.
Qed.

Lemma lower_terminal s : session_status_is_terminal s = true → terminal_status (to_lowercase s) = true.
Proof.
  unfold session_status_is_terminal. intros H%bool_decide_eq_true.
  repeat (apply elem_of_cons in H as [->|H]; [done|]). by apply elem_of_nil in H.
Qed.

Lemma rest_not_selected r now : at_rest r → needs_recovery now r = false.
Proof.
  intros [Ho Hc]. unfold needs_recovery. rewrite Ho. destruct Hc as [Ht|Hc].
  - unfold session_is_terminal in Ht. destruct (sr_status r) as [s|]; [|done]. simpl in Ht.
    by rewrite (lower_terminal s Ht).
  - rewrite Hc. by case_match; rewrite ?andb_false_r.
Qed.

(** Every row the query selects calls for an action. *)
Lemma selected_acts r now :
  needs_recovery now r = true → ∃ a, (reconcile_session_record r now).2 = Some a.
Proof.
  unfold needs_recovery, reconcile_session_record, session_owner_is_stale,
    session_cancel_is_pending, session_is_terminal, lease_over.
  intros [Hs H]%andb_true_iff.
  assert (from_option session_status_is_terminal false (sr_status r) = false) as ->.
  { destruct (sr_status r) as [s|]; [|done]. simpl. apply not_true_is_false.
    intros Ht%lower_terminal. by rewrite Ht in Hs. }
  simpl. destruct (sr_owner_id r); simpl in *.
  - destruct (sr_lease_expires_at_unix r) as [t|]; simpl in *.
    + assert ((t <=? now)%Z = true) as -> by (apply orb_true_iff in H as [?|[_ ?]%andb_true_iff]; done).
      destruct (sr_cancel_requested_at_unix r); naive_solver.
    + destruct (sr_cancel_requested_at_unix r); naive_solver.
  - destruct (sr_cancel_requested_at_unix r); naive_solver.
Qed.

(** The query selects more as time passes. *)
Lemma needs_recovery_mono r t t' :
  (t ≤ t')%Z → needs_recovery t r = true → needs_recovery t' r = true.
Proof.
  intros Ht. unfold needs_recovery, lease_over. intros [Hs H]%andb_true_iff. apply andb_true_iff.
  split; [done|]. destruct (sr_lease_expires_at_unix r) as [x|]; [|done].
  assert ((x <=? t)%Z = true → (x <=? t')%Z = true) as Hx by lia.
  apply orb_true_iff in H as [[H1 H2]%andb_true_iff|[H1 H2]%andb_true_iff]; apply orb_true_iff.
  - left. rewrite H1. by apply Hx.
  - right. rewrite H1. simpl. apply orb_true_iff in H2 as [H2|H2]; rewrite ?H2; [done|].
    rewrite (Hx H2). apply orb_true_r.
Qed.

(** ** The store *)

Section pass_props.
Context {S : Type} `{SessionStoreOk S}.

(** Every row is filed under its own identifier. *)
Definition keyed (s : S) : Prop :=
  ∀ k r, session_state (session_tables s) !! k = Some r → sr_session_id r = k.

(** How many sessions wait for recovery at the time [t]. *)
Definition pending (t : Z) (s : S) : nat :=
  length (filter (λ r, needs_recovery t r = true) (rows (session_state (session_tables s)))).

(** The rows after reconciling those of [ids]. *)
Definition reconcile_at (now : Z) (ids : list string) (m : gmap string SessionRecord) :=
  foldl (λ m id, alter (λ r, (reconcile_session_record r now).1) id m) m ids.

(** One write of a pass: [r] is the row it repairs. *)
Definition repaired (now : Z) (s s' : S) (id : string) (r : SessionRecord) : Prop :=
  session_state (session_tables s) !! id = Some r ∧
  is_Some (reconcile_session_record r now).2 ∧
  session_tables s' = session_tables s <| session_state :=
    <[id := (reconcile_session_record r now).1]> (session_state (session_tables s)) |>.

Lemma repaired_keyed now s s' id r : keyed s → repaired now s s' id r → keyed s'.
Proof.
  intros Hk (Hr & Ha & Ht) k r'. rewrite Ht. simpl.
  destruct (decide (k = id)) as [->|Hne].
  - rewrite lookup_insert_eq. intros [= <-]. rewrite reconcile_keeps_id. by apply Hk.
  - rewrite lookup_insert_ne by done. apply Hk.
Qed.

(** A repaired session waits no more, at any time; the others wait as before. *)
Lemma repaired_pending now t s s' id r :
  repaired now s s' id r →
  pending t s = (pending t s' + if needs_recovery t r then 1 else 0)%nat.
Proof.
  intros (Hr & [a Ha] & Ht). unfold pending. rewrite Ht. simpl.
  rewrite (rows_delete _ _ _ Hr).
  rewrite (rows_delete (<[id:=_]> _) id _ (lookup_insert_eq _ _ _)), delete_insert_eq.
  rewrite !filter_cons, (rest_not_selected _ t (reconcile_rests _ _ _ Ha)).
  rewrite (decide_False (P := false = true)) by done.
  destruct (needs_recovery t r); simpl; lia.
Qed.

Lemma same_tables_pending t s s' :
  session_tables s' = session_tables s → pending t s' = pending t s.
Proof. intros E. unfold pending. by rewrite E. Qed.

Lemma same_tables_keyed s s' : session_tables s' = session_tables s → keyed s → keyed s'.
Proof. intros E Hk k r. rewrite E. apply Hk. Qed.

(** The body of the loop on a selected session: it is repaired, or the store
    failed and nothing changed. *)
Lemma reconcile_one now id ids u s r :
  keyed s → session_state (session_tables s) !! id = Some r → needs_recovery now r = true →
  ∃ s2, (repaired now s s2 id r ∧
         reconcile_sessions now (id :: ids) u s = reconcile_sessions now ids (u + 1)%Z s2) ∨
        (session_tables s2 = session_tables s ∧
         ∃ e, reconcile_sessions now (id :: ids) u s = (s2, Err e)).
Proof.
  intros Hk Hr Hn. simpl. destruct (get_session s id) as [s1 o] eqn:E1.
  rewrite (ST_bind_step _ _ _ _ _ E1). apply read_session in E1 as [T1 R1].
  destruct o as [o|e]; [|exists s1; right; naive_solver].
  rewrite (R1 o eq_refl), Hr. destruct (selected_acts _ _ Hn) as [a Ha].
  pose proof (reconcile_keeps_id r now) as Hid.
  destruct (reconcile_session_record r now) as [r1 o1] eqn:Er. simpl in Ha, Hid. subst o1.
  destruct (upsert_session s1 r1) as [s2 w] eqn:E2. rewrite (ST_bind_step _ _ _ _ _ E2).
  apply write_session in E2. rewrite T1, Hid, (Hk _ _ Hr) in E2.
  exists s2. destruct w as [[]|e]; [left|right; naive_solver].
  split; [|done]. unfold repaired. rewrite Er. naive_solver.
Qed.

(** The outcome of a pass over [ids], of which a fault may leave a part. *)
Lemma reconcile_sessions_run now ids u s s' res :
  keyed s → NoDup ids →
  (∀ id, id ∈ ids → ∃ r, session_state (session_tables s) !! id = Some r ∧ needs_recovery now r = true) →
  reconcile_sessions now ids u s = (s', res) →
  keyed s' ∧ session_event (session_tables s') = session_event (session_tables s) ∧
  (∀ t, (pending t s' ≤ pending t s)%nat) ∧
  ∀ n, res = Ok n →
    n = (u + Z.of_nat (length ids))%Z ∧
    session_state (session_tables s') = reconcile_at now ids (session_state (session_tables s)) ∧
    ∀ t, (now ≤ t)%Z → pending t s = (pending t s' + length ids)%nat.
Proof.
  revert u s. induction ids as [|id ids IH]; intros u s Hk Hnd Hall E.
  { injection E as <- <-. split_and!; [done..|]. intros n [= <-]. split_and!; [simpl; lia|done|].
    intros. simpl. lia. }
  apply NoDup_cons in Hnd as [Hnot Hnd]. destruct (Hall id) as (r & Hr & Hn); [by left|].
  destruct (reconcile_one now id ids u s r) as (s2 & [[Hrep E2]|[T2 [e E2]]]); [done..| |];
    rewrite E2 in E.
  2:{ injection E as <- <-. split_and!; [by eapply same_tables_keyed|by rewrite T2| |done].
      intros t. by rewrite (same_tables_pending t _ _ T2). }
  destruct (IH (u + 1)%Z s2) as (Hk' & Hev & Hp & Hok); [by eapply repaired_keyed|done| |done|].
  { intros id' Hin. destruct (Hall id') as (r' & Hr' & Hn'); [by right|]. exists r'.
    destruct Hrep as (_ & _ & ->). simpl. by rewrite lookup_insert_ne by (by intros ->). }
  split_and!; [done|by rewrite Hev; destruct Hrep as (_ & _ & ->)| |].
  { intros t. rewrite (repaired_pending _ t _ _ _ _ Hrep). specialize (Hp t). lia. }
  intros n Hres. destruct (Hok n Hres) as (-> & Hst & Hpe). split_and!; [simpl; lia| |].
  - rewrite Hst. destruct Hrep as (_ & _ & ->). simpl. f_equal.
    apply map_eq. intros k. destruct (decide (k = id)) as [->|].
    + by rewrite lookup_insert_eq, lookup_alter_eq, Hr.
    + by rewrite lookup_insert_ne, lookup_alter_ne.
  - intros t Ht. rewrite (repaired_pending _ t _ _ _ _ Hrep), (Hpe t Ht).
    rewrite (needs_recovery_mono r now t Ht Hn). simpl. lia.
Qed.

Lemma keyed_NoDup s : keyed s → NoDup (rows (session_state (session_tables s))).
Proof.
  intros Hk. apply NoDup_fmap_2_strong; [|apply NoDup_map_to_list].
  intros [k x] [k' y] Hx%elem_of_map_to_list Hy%elem_of_map_to_list Hxy. simpl in Hxy. subst y.
  by rewrite <-(Hk _ _ Hx), <-(Hk _ _ Hy).
Qed.

(** What the query gives, as identifiers. *)
Lemma selected_ids now limit s s1 ids :
  keyed s → list_sessions_for_recovery s now limit = (s1, Ok ids) →
  session_tables s1 = session_tables s ∧ NoDup ids ∧
  length ids = Z.to_nat limit `min` pending now s ∧
  ∀ id, id ∈ ids → ∃ r, session_state (session_tables s) !! id = Some r ∧ needs_recovery now r = true.
Proof.
  intros Hk E. apply read_recovery in E as [T E].
  destruct (E ids eq_refl) as (l & rest & Hp & -> & Hlen). rewrite length_fmap, Hlen.
  unfold pending. rewrite <-Hp.
  assert (∀ r, r ∈ l → session_state (session_tables s) !! sr_session_id r = Some r ∧
                       needs_recovery now r = true) as Hl.
  { intros r Hr. assert (r ∈ l ++ rest) as Hin by set_solver. rewrite <-Hp in Hin.
    apply list_elem_of_filter in Hin as [Hn (k & Hkr)%elem_of_rows].
    by rewrite (Hk _ _ Hkr). }
  split_and!; [done| |done|].
  - apply (NoDup_fmap_2_strong _ l).
    + intros x y Hx Hy Hxy. apply Hl in Hx as [Hx _]. apply Hl in Hy as [Hy _]. congruence.
    + assert (NoDup (l ++ rest)) as (?&_&_)%NoDup_app; [|done].
      rewrite <-Hp. by apply NoDup_filter, keyed_NoDup.
  - intros id (r & -> & Hr)%list_elem_of_fmap. exists r. by apply Hl.
Qed.

(** A pass, with or without a fault. *)
Lemma pass_run now limit s s' res :
  keyed s → reconcile_sessions_once now limit s = (s', res) →
  keyed s' ∧ session_event (session_tables s') = session_event (session_tables s) ∧
  (∀ t, (pending t s' ≤ pending t s)%nat) ∧
  ∀ n, res = Ok n → ∃ ids, NoDup ids ∧ n = Z.of_nat (length ids) ∧
    length ids = Z.to_nat limit `min` pending now s ∧
    (∀ id, id ∈ ids → ∃ r, session_state (session_tables s) !! id = Some r ∧ needs_recovery now r = true) ∧
    session_state (session_tables s') = reconcile_at now ids (session_state (session_tables s)) ∧
    ∀ t, (now ≤ t)%Z → pending t s = (pending t s' + length ids)%nat.
Proof.
  intros Hk E. unfold reconcile_sessions_once in E.
  destruct (list_sessions_for_recovery s now limit) as [s1 o] eqn:E1.
  rewrite (ST_bind_step _ _ _ _ _ E1) in E. destruct o as [ids|e].
  - destruct (selected_ids _ _ _ _ _ Hk E1) as (T & Hnd & Hlen & Hall).
    assert (∀ t, pending t s1 = pending t s) as HP by (intros; by apply same_tables_pending).
    destruct (reconcile_sessions_run now ids 0 s1 s' res) as (Hk' & Hev & Hp & Hok);
      [by eapply same_tables_keyed|done|by rewrite T|done|]. rewrite T in Hev, Hok.
    split_and!; [done|done|intros t; by rewrite <-HP|].
    intros n Hn. destruct (Hok n Hn) as (-> & Hst & Hpe). exists ids. split_and!; try done.
    intros t Ht. rewrite <-HP. by apply Hpe.
  - apply read_recovery in E1 as [T _]. injection E as <- <-.
    split_and!; [by eapply same_tables_keyed|by rewrite T| |done].
    intros t. by rewrite (same_tables_pending t _ _ T).
Qed.

Lemma reconcile_at_lookup now ids m id :
  NoDup ids →
  reconcile_at now ids m !! id =
    if decide (id ∈ ids) then (λ r, (reconcile_session_record r now).1) <$> m !! id else m !! id.
Proof.
  unfold reconcile_at. revert m. induction ids as [|k ids IH]; intros m; [done|].
  intros [Hk Hnd]%NoDup_cons. simpl. rewrite IH by done.
  destruct (decide (id = k)) as [->|Hne].
  - rewrite decide_False, decide_True by set_solver. by rewrite lookup_alter_eq.
  - rewrite lookup_alter_ne by done. destruct (decide (id ∈ ids)).
    + by rewrite decide_True by set_solver.
    + by rewrite decide_False by set_solver.
Qed.

(** A pass of the recovery task that reports [n] has repaired exactly [n]
    sessions, as many as waited up to its limit: each of them is the
    reconciliation of a session that needed it and needs nothing more at any
    later time; every other session and the event log are as they were. *)
Theorem recovery_pass_exact now limit s s' n :
  keyed s → reconcile_sessions_once now limit s = (s', Ok n) →
  ∃ ids, NoDup ids ∧ n = Z.of_nat (length ids) ∧
    length ids = Z.to_nat limit `min` pending now s ∧
    (∀ id, id ∈ ids → ∃ r, session_state (session_tables s) !! id = Some r ∧
       needs_recovery now r = true ∧
       session_state (session_tables s') !! id = Some (reconcile_session_record r now).1 ∧
       ∀ t, (reconcile_session_record (reconcile_session_record r now).1 t).2 = None) ∧
    (∀ id, id ∉ ids →
       session_state (session_tables s') !! id = session_state (session_tables s) !! id) ∧
    session_event (session_tables s') = session_event (session_tables s).
Proof.
  intros Hk E. destruct (pass_run _ _ _ _ _ Hk E) as (_ & Hev & _ & Hok).
  destruct (Hok n eq_refl) as (ids & Hnd & Hn & Hlen & Hall & Hst & _).
  exists ids. split_and!; try done; intros id Hid; rewrite Hst, reconcile_at_lookup by done.
  - destruct (Hall id Hid) as (r & Hr & Hneed). exists r. rewrite decide_True, Hr by done.
    split_and!; try done. intros t. destruct (selected_acts _ _ Hneed) as [a Ha].
    by eapply rest_idle, reconcile_rests.
  - by rewrite decide_False.
Qed.

(** ** Convergence *)

(** How many of the ticks ran a pass to its end. *)
Fixpoint successful_ticks (clock : list Z) (s : S) : nat :=
  match clock with
  | [] => 0
  | now :: rest =>
      let '(s', r) := reconcile_sessions_once now SESSION_RECOVERY_SCAN_LIMIT s in
      match r with Ok _ => 1 | Err _ => 0 end + successful_ticks rest s'
  end%nat.

Lemma pending_mono t t' s : (t ≤ t')%Z → (pending t s ≤ pending t' s)%nat.
Proof.
  intros Ht. unfold pending. induction (rows _) as [|r l IH]; [done|].
  rewrite !filter_cons. destruct (decide (needs_recovery t r = true)) as [Hn|].
  - rewrite decide_True by (by eapply needs_recovery_mono). simpl. lia.
  - case_decide; simpl; lia.
Qed.

Lemma ticks_keep_settled clock s t :
  keyed s → pending t s = 0%nat → pending t (recovery_ticks clock s) = 0%nat.
Proof.
  revert s. induction clock as [|now rest IH]; intros s Hk Hz; [done|]. simpl.
  destruct (reconcile_sessions_once _ _ s) as [s' r] eqn:E.
  destruct (pass_run _ _ _ _ _ Hk E) as (Hk' & _ & Hp & _). apply IH; [done|].
  specialize (Hp t). simpl in *. lia.
Qed.

(** C33: The recovery task catches up, faults of the store notwithstanding: run
    at times between [t] and [t'], once enough ticks have succeeded for the
    sessions that wait at [t'], 128 at a tick, no session that waited at [t]
    is left. *)
Theorem recovery_converges clock s t t' :
  keyed s → (t ≤ t')%Z → Forall (λ now, t ≤ now ≤ t')%Z clock →
  (pending t' s ≤ 128 * successful_ticks clock s)%nat →
  pending t (recovery_ticks clock s) = 0%nat.
Proof.
  intros Hk Htt. revert s Hk. induction clock as [|now rest IH]; intros s Hk Hc Hn.
  - simpl in *. pose proof (pending_mono t t' s Htt). lia.
  - apply Forall_cons in Hc as [Hnow Hc]. simpl in *.
    destruct (reconcile_sessions_once _ _ s) as [s' r] eqn:E. simpl in *.
    destruct (pass_run _ _ _ _ _ Hk E) as (Hk' & _ & Hp & Hok).
    destruct r as [n|e]; [|apply IH; [done|done|specialize (Hp t'); lia]].
    destruct (Hok n eq_refl) as (ids & _ & _ & Hlen & _ & _ & Hpe).
    change (Z.to_nat SESSION_RECOVERY_SCAN_LIMIT) with 128%nat in Hlen.
    destruct (decide (pending now s ≤ 128)%nat).
    + apply ticks_keep_settled; [done|]. pose proof (Hpe now ltac:(lia)).
      pose proof (pending_mono t now s' ltac:(lia)). lia.
    + apply IH; [done..|]. pose proof (Hpe t' ltac:(lia)). lia.
Qed.

End pass_props.

(** ** Witnesses *)

(** A worker that died and one that still holds its lease. *)
Definition demo_session (id owner : string) (expires : Z) : SessionRecord :=
  blank_session id 10 <| sr_status := Some "active" |> <| sr_owner_id := Some owner |>
    <| sr_lease_expires_at_unix := Some expires |>.

Definition demo_store (faults : list (option string)) : SessionDb :=
  {| db_tables := {| session_state := {["s1" := demo_session "s1" "worker-a" 20;
                                        "s2" := demo_session "s2" "worker-b" 90]};
                     session_event := [] |};
     db_faults := faults |}.

Lemma demo_store_keyed faults : keyed (demo_store faults).
Proof.
  apply (map_Forall_to_list (λ k r, sr_session_id r = k)). vm_compute. repeat constructor.
Qed.

Lemma recovery_pass_exact_witness :
  ∃ n s', reconcile_sessions_once 50 128 (demo_store []) = (s', Ok n) ∧ n = 1%Z.
Proof.
  destruct (reconcile_sessions_once 50 128 (demo_store [])) as [s' [n|e]] eqn:E;
    [|by vm_compute in E].
  destruct (recovery_pass_exact 50 128 (demo_store []) s' n (demo_store_keyed _) E)
    as (ids & _ & Hn & Hl & _). exists n, s'. split; [done|]. rewrite Hn, Hl. by vm_compute.
Defined.

(** The first tick fails, the second repairs the expired session. *)
Lemma recovery_converges_witness :
  pending 50 (demo_store [Some "locked"]) = 1%nat ∧ pending 50 (recovery_ticks [55; 60]%Z (demo_store [Some "locked"])) = 0%nat.
Proof.
  split; [by vm_compute|]. apply (recovery_converges [55; 60]%Z (demo_store [Some "locked"]) 50 60).
  - apply demo_store_keyed.
  - lia.
  - repeat constructor; lia.
  - apply Nat.leb_le. by vm_compute.
Defined.
