(* ===== verification/SessionApi.v ===== *)
(** * The management API: sessions

    Model of the session endpoints of [management_server.rs]: the payloads, the
    checks every mutation makes, the nine handlers that change a session
    record, the views of a record, of its events, and the long poll that waits
    for new ones.  A handler reads the payload, loads the record, decides and
    stores the result with an event; the decision of each handler is a function
    on records of its own. *)

From S2P Require Import Prelude RecordSet StateResult RustStr F64 Json Sql AuthStore Auth ProxyProtocol Management SessionStore SessionRecovery.

Local Open Scope string_scope.
Local Open Scope list_scope.
Local Open Scope rust_scope.

(** ** Payloads *)

Record SessionStatePayload := {
  stp_project_id : option string;
  stp_status : option string;
  stp_state : option json;
  stp_metadata : option json;
}.

Record SessionTransitionPayload := {
  trp_project_id : option string;
  trp_status : option string;
  trp_reason : option string;
  trp_state : option json;
  trp_metadata : option json;
  trp_lease_ttl_secs : option Z;
}.

Record SessionHeartbeatPayload := {
  hbp_project_id : option string;
  hbp_owner_id : option string;
  hbp_state : option json;
  hbp_metadata : option json;
  hbp_lease_ttl_secs : option Z;
}.

Record SessionClaimPayload := {
  clp_project_id : option string;
  clp_owner_id : option string;
  clp_lease_ttl_secs : option Z;
  clp_state : option json;
  clp_metadata : option json;
}.

Record SessionReleasePayload := {
  rlp_project_id : option string;
  rlp_owner_id : option string;
}.

Record SessionCancelPayload := {
  cnp_project_id : option string;
  cnp_requested_by : option string;
  cnp_reason : option string;
}.

Record SessionHandoffPayload := {
  hop_project_id : option string;
  hop_owner_id : option string;
  hop_target_owner_id : option string;
  hop_reason : option string;
  hop_state : option json;
  hop_metadata : option json;
}.

Record SessionAcceptPayload := {
  acp_project_id : option string;
  acp_owner_id : option string;
  acp_lease_ttl_secs : option Z;
  acp_state : option json;
  acp_metadata : option json;
}.

Record SessionTakeoverPayload := {
  tkp_project_id : option string;
  tkp_owner_id : option string;
  tkp_lease_ttl_secs : option Z;
  tkp_force : option bool;
  tkp_reason : option string;
  tkp_state : option json;
  tkp_metadata : option json;
}.

Record SessionReconcilePayload := {
  rcp_project_id : option string;
}.

(** A type [serde_json::from_slice] reads and its default value. *)
Class Payload (P : Type) := {
  from_slice : string → option P;
  default_payload : P;
}.

(** ** Helpers *)

Definition normalize_session_status (status : string) : option string :=
  let trimmed := unicode_trim status in
  if String.eqb trimmed "" then None else Some (to_lowercase trimmed).

Definition normalize_nonempty_str (value : string) : option string :=
  let trimmed := unicode_trim value in
  if String.eqb trimmed "" then None else Some trimmed.

Definition normalize_nonempty_string (value : option string) : option string :=
  value ≫= normalize_nonempty_str.

Definition is_supported_session_status (status : string) : bool :=
  bool_decide (status ∈ ["active"; "paused"; "completed"; "cancelled"; "failed"]).

Definition session_owner_is_active (record : SessionRecord) (now : Z) : bool :=
  is_some (sr_owner_id record)
  && from_option (λ expires_at, (now <? expires_at)%Z) false (sr_lease_expires_at_unix record).

Definition squoted (s : string) : string := "'" +:+ s +:+ "'".

Definition validate_session_transition (current : option string) (next : string)
    : result string () :=
  if negb (is_supported_session_status next)
  then Err ("unsupported session status " +:+ squoted next)
  else
    match current with
    | None => Ok ()
    | Some current =>
        if String.eqb current next then Ok ()
        else if String.eqb current "active"
             && bool_decide (next ∈ ["paused"; "completed"; "cancelled"; "failed"]) then Ok ()
        else if String.eqb current "paused"
             && bool_decide (next ∈ ["active"; "cancelled"; "failed"]) then Ok ()
        else if session_status_is_terminal current
        then Err ("cannot transition terminal session from " +:+ squoted current
                  +:+ " to " +:+ squoted next)
        else Ok ()
    end.

Definition parse_u32_query_param (query key : string) : result string (option Z) :=
  match extract_query_param query key with
  | None => Ok None
  | Some v => result_map Some (ok_or (parse_uint u32_max v) (key +:+ " must be an unsigned integer"))
  end.

Definition parse_i64_query_param (query key : string) : result string (option Z) :=
  match extract_query_param query key with
  | None => Ok None
  | Some v => result_map Some (ok_or (parse_i64 v) (key +:+ " must be an integer"))
  end.

(** [now.saturating_add(lease_ttl_secs as i64)] *)
Definition lease_until (now lease_ttl_secs : Z) : Z :=
  saturating_add_i64 now (as_i64 lease_ttl_secs).

Definition clear_session_cancel (record : SessionRecord) : SessionRecord :=
  record <| sr_cancel_requested_at_unix := None |> <| sr_cancel_requested_by := None |>
         <| sr_cancel_reason := None |>.

Definition empty_session_state_record (session_id : string) (now : Z) : SessionRecord :=
  blank_session session_id now.

Section values.
Context `{SerdeJson}.

Definition parse_string_array_json (value : option string) : list string :=
  set_of_list (default [] (value ≫= strings_from_str)).

Definition serialize_string_array (values : list string) : option string :=
  match values with
  | [] => None
  | _ => Some (strings_to_string values)
  end.

Definition parse_string_array_value (value : option string) : json :=
  default (JArray []) (value ≫= json_from_str).

Definition parse_json_value (value : option string) : json :=
  default JNull (value ≫= json_from_str).

(** [serde_json::json!({"error": message}).to_string()] *)
Definition json_error (message : string) : string :=
  json_to_string (json_literal [("error", JString message)]).

Definition conflict (message : string) : ApiResponse := json_response 409 (json_error message).

Definition session_record_matches_project (record : SessionRecord) (project_id : option string)
    : bool :=
  match project_id with
  | None => true
  | Some p =>
      bool_decide (sr_project_id record = Some p)
      || bool_decide (p ∈ parse_string_array_json (sr_project_ids_json record))
  end.

(** The block that files a session under the project of the request. *)
Definition add_project (project_id : option string) (record : SessionRecord) : SessionRecord :=
  match project_id with
  | None => record
  | Some p =>
      let project_ids := set_insert p (parse_string_array_json (sr_project_ids_json record)) in
      record <| sr_project_id := if (length project_ids =? 1)%nat then Some p else None |>
             <| sr_project_ids_json := serialize_string_array project_ids |>
  end.

(** The blocks that replace the state and the metadata when given. *)
Definition set_state (state metadata : option json) (record : SessionRecord) : SessionRecord :=
  let record := match state with
    | Some v => record <| sr_state_json := Some (json_to_string v) |> | None => record end in
  match metadata with
  | Some v => record <| sr_metadata_json := Some (json_to_string v) |> | None => record
  end.

Definition session_event_payload_value (record : SessionRecord) : json :=
  json_literal
    [("status", json_opt_str (sr_status record));
     ("owner_id", json_opt_str (sr_owner_id record));
     ("lease_expires_at_unix", json_opt_Z (sr_lease_expires_at_unix record));
     ("last_transition_at_unix", json_opt_Z (sr_last_transition_at_unix record));
     ("last_transition_reason", json_opt_str (sr_last_transition_reason record));
     ("cancel_requested_at_unix", json_opt_Z (sr_cancel_requested_at_unix record));
     ("cancel_requested_by", json_opt_str (sr_cancel_requested_by record));
     ("cancel_reason", json_opt_str (sr_cancel_reason record));
     ("handoff_target_owner_id", json_opt_str (sr_handoff_target_owner_id record));
     ("handoff_requested_at_unix", json_opt_Z (sr_handoff_requested_at_unix record));
     ("handoff_reason", json_opt_str (sr_handoff_reason record));
     ("state", parse_json_value (sr_state_json record));
     ("metadata", parse_json_value (sr_metadata_json record))].

Definition session_summary_fields (record : SessionRecord) (now : Z) : list (string * json) :=
  [("session_id", JString (sr_session_id record));
   ("project_id", json_opt_str (sr_project_id record));
   ("project_ids", parse_string_array_value (sr_project_ids_json record));
   ("first_request_unix", json_opt_Z (sr_first_request_unix record));
   ("request_count", json_of_Z (sr_request_count record));
   ("streaming_request_count", json_of_Z (sr_streaming_request_count record));
   ("total_input_tokens", json_of_Z (sr_total_input_tokens record));
   ("total_output_tokens", json_of_Z (sr_total_output_tokens record));
   ("total_cost", json_of_f64 (sr_total_cost record));
   ("providers", parse_string_array_value (sr_providers_json record));
   ("models", parse_string_array_value (sr_models_json record));
   ("prompt_names", parse_string_array_value (sr_prompt_names_json record));
   ("prompt_versions", parse_string_array_value (sr_prompt_versions_json record));
   ("last_request_unix", json_opt_Z (sr_last_request_unix record));
   ("latest_request", parse_json_value (sr_latest_request_json record));
   ("safety_event_count", json_of_Z (sr_safety_event_count record));
   ("semantic_event_count", json_of_Z (sr_semantic_event_count record));
   ("semantic_degraded_count", json_of_Z (sr_semantic_degraded_count record));
   ("tool_names", parse_string_array_value (sr_tool_names_json record));
   ("tool_call_count", json_of_Z (sr_tool_call_count record));
   ("tool_error_count", json_of_Z (sr_tool_error_count record));
   ("status", json_opt_str (sr_status record));
   ("owner_id", json_opt_str (sr_owner_id record));
   ("owner_acquired_at_unix", json_opt_Z (sr_owner_acquired_at_unix record));
   ("owner_active", JBool (session_owner_is_active record now));
   ("owner_stale", JBool (session_owner_is_stale record now));
   ("last_transition_at_unix", json_opt_Z (sr_last_transition_at_unix record));
   ("last_transition_reason", json_opt_str (sr_last_transition_reason record));
   ("last_heartbeat_unix", json_opt_Z (sr_last_heartbeat_unix record));
   ("lease_expires_at_unix", json_opt_Z (sr_lease_expires_at_unix record));
   ("cancel_requested_at_unix", json_opt_Z (sr_cancel_requested_at_unix record));
   ("cancel_requested_by", json_opt_str (sr_cancel_requested_by record));
   ("cancel_reason", json_opt_str (sr_cancel_reason record));
   ("handoff_target_owner_id", json_opt_str (sr_handoff_target_owner_id record));
   ("handoff_requested_at_unix", json_opt_Z (sr_handoff_requested_at_unix record));
   ("handoff_reason", json_opt_str (sr_handoff_reason record));
   ("handoff_pending", JBool (session_handoff_is_pending record));
   ("cancel_pending", JBool (session_cancel_is_pending record));
   ("recovery_required", JBool (session_recovery_required record now));
   ("recovery_reason", json_opt_str (session_recovery_reason record now));
   ("state", parse_json_value (sr_state_json record));
   ("metadata", parse_json_value (sr_metadata_json record));
   ("updated_at_unix", json_of_Z (sr_updated_at_unix record));
   ("truncated", JBool false)].

Definition session_summary_json_from_record (record : SessionRecord) (now : Z) : json :=
  json_literal (session_summary_fields record now).

Definition session_event_json_from_record (e : SessionEventRecord) : json :=
  json_literal
    [("event_seq", json_of_Z (se_event_seq e));
     ("session_id", JString (se_session_id e));
     ("project_id", json_opt_str (se_project_id e));
     ("event_kind", JString (se_event_kind e));
     ("actor_id", json_opt_str (se_actor_id e));
     ("reason", json_opt_str (se_reason e));
     ("payload", parse_json_value (se_payload_json e));
     ("created_at_unix", json_of_Z (se_created_at_unix e))].

Definition session_reconcile_response (status : Z) (record : SessionRecord)
    (action : option SessionReconcileAction) (now : Z) : ApiResponse :=
  json_response status (json_to_string (json_literal
    (session_summary_fields record now ++
     [("reconciled_action", from_option (λ a, JString (action_as_str a)) JNull action)]))).

End values.

(** ** Decisions

    What each handler makes of the record it loaded: a refusal, or the record
    to store with the event to log. *)

Record SessionUpdate := {
  up_record : SessionRecord;
  up_kind : string;
  up_actor : option string;
  up_reason : option string;
}.

Section decisions.
Context `{SerdeJson}.

(** [bail c message k]: refuses with a conflict when [c] holds. *)
Definition refuse_if {A} (c : bool) (resp : ApiResponse) (k : result ApiResponse A)
    : result ApiResponse A := if c then Err resp else k.

Definition plain_conflict (message : string) : ApiResponse := json_response 409 (error_body message).

Definition decide_state_upsert (session_id : string) (payload : SessionStatePayload) (now : Z)
    (existing : option SessionRecord) (project_id : option string)
    : result ApiResponse SessionUpdate :=
  refuse_if (negb (is_some (stp_status payload)) && negb (is_some (stp_state payload))
             && negb (is_some (stp_metadata payload)) && negb (is_some project_id)
             && negb (is_some existing))
    (bad_request "session update must include project_id, status, state, or metadata") (
  let record := default (empty_session_state_record session_id now) existing in
  let record := add_project project_id record in
  let record := match stp_status payload with
    | None => record
    | Some status =>
        let record := record <| sr_status := normalize_session_status status |>
                             <| sr_last_transition_at_unix := Some now |>
                             <| sr_last_transition_reason := None |> in
        if from_option session_status_is_terminal false (sr_status record)
        then clear_session_handoff (clear_session_cancel (clear_session_owner record))
        else record
    end in
  let record := set_state (stp_state payload) (stp_metadata payload) record in
  Ok {| up_record := record <| sr_updated_at_unix := now |>; up_kind := "state_upsert";
        up_actor := None; up_reason := None |}).

Definition decide_claim (session_id owner_id : string) (payload : SessionClaimPayload) (now : Z)
    (existing : option SessionRecord) (project_id : option string)
    : result ApiResponse SessionUpdate :=
  refuse_if (negb (is_some existing) && negb (is_some project_id))
    (bad_request "session claim must include project_id for new sessions") (
  let lease_ttl_secs := default 60%Z (clp_lease_ttl_secs payload) in
  let record := default (empty_session_state_record session_id now) existing in
  refuse_if (from_option session_status_is_terminal false (sr_status record))
    (plain_conflict "cannot claim a terminal session") (
  let? _ := match sr_owner_id record with
    | Some current_owner =>
        refuse_if (negb (String.eqb current_owner owner_id) && session_owner_is_active record now)
          (conflict ("session is already claimed by " +:+ squoted current_owner)) (Ok ())
    | None => Ok ()
    end in
  let record := add_project project_id record in
  let record := if bool_decide (sr_owner_id record ≠ Some owner_id)
                then record <| sr_owner_acquired_at_unix := Some now |> else record in
  let record := match sr_status record with
    | Some _ => record
    | None => record <| sr_status := Some "active" |> <| sr_last_transition_at_unix := Some now |>
                     <| sr_last_transition_reason := Some "claimed" |>
    end in
  let record := record <| sr_owner_id := Some owner_id |> <| sr_last_heartbeat_unix := Some now |>
                       <| sr_lease_expires_at_unix := Some (lease_until now lease_ttl_secs) |> in
  let record := set_state (clp_state payload) (clp_metadata payload) (clear_session_handoff record) in
  Ok {| up_record := record <| sr_updated_at_unix := now |>; up_kind := "claimed";
        up_actor := Some owner_id; up_reason := Some "claimed" |})).

Definition decide_handoff (requested_owner target_owner_id : string)
    (payload : SessionHandoffPayload) (now : Z) (record : SessionRecord)
    : result ApiResponse SessionUpdate :=
  refuse_if (from_option session_status_is_terminal false (sr_status record))
    (plain_conflict "cannot hand off a terminal session") (
  let? current_owner := ok_or (sr_owner_id record)
    (plain_conflict "session is not actively claimed; claim it before handing off") in
  refuse_if (negb (session_owner_is_active record now))
    (conflict ("session owner " +:+ squoted current_owner
               +:+ " lease expired; reconcile or claim again before handoff")) (
  refuse_if (negb (String.eqb requested_owner current_owner))
    (conflict ("owner_id " +:+ squoted current_owner +:+ " is required to hand off this session")) (
  let record := record <| sr_handoff_target_owner_id := Some target_owner_id |>
                       <| sr_handoff_requested_at_unix := Some now |>
                       <| sr_handoff_reason := hop_reason payload ≫= normalize_nonempty_str |> in
  let record := set_state (hop_state payload) (hop_metadata payload) record in
  Ok {| up_record := record <| sr_updated_at_unix := now |>; up_kind := "handoff_requested";
        up_actor := Some requested_owner; up_reason := sr_handoff_reason record |}))).

Definition decide_accept (owner_id : string) (payload : SessionAcceptPayload) (now : Z)
    (record : SessionRecord) : result ApiResponse SessionUpdate :=
  refuse_if (from_option session_status_is_terminal false (sr_status record))
    (plain_conflict "cannot accept handoff for a terminal session") (
  let? expected_owner := ok_or (sr_handoff_target_owner_id record)
    (plain_conflict "session does not have a pending handoff") in
  refuse_if (negb (String.eqb owner_id expected_owner))
    (conflict ("owner_id " +:+ squoted expected_owner +:+ " is required to accept this handoff")) (
  let lease_ttl_secs := default 60%Z (acp_lease_ttl_secs payload) in
  let record := record <| sr_owner_id := Some owner_id |>
                       <| sr_owner_acquired_at_unix := Some now |>
                       <| sr_last_heartbeat_unix := Some now |>
                       <| sr_lease_expires_at_unix := Some (lease_until now lease_ttl_secs) |> in
  let record :=
    if negb (is_some (sr_status record))
       || bool_decide (sr_status record = Some "paused")
          && bool_decide (sr_last_transition_reason record = Some SESSION_RECOVERY_REQUIRED_REASON)
    then record <| sr_status := Some "active" |> else record in
  let record := record <| sr_last_transition_at_unix := Some now |>
                       <| sr_last_transition_reason := Some "handoff accepted" |> in
  let record := set_state (acp_state payload) (acp_metadata payload) (clear_session_handoff record) in
  Ok {| up_record := record <| sr_updated_at_unix := now |>; up_kind := "handoff_accepted";
        up_actor := sr_owner_id record; up_reason := sr_last_transition_reason record |})).

Definition decide_takeover (owner_id : string) (payload : SessionTakeoverPayload) (now : Z)
    (record : SessionRecord) : result ApiResponse SessionUpdate :=
  refuse_if (from_option session_status_is_terminal false (sr_status record))
    (plain_conflict "cannot take over a terminal session") (
  let force := default false (tkp_force payload) in
  let handoff_target_owner := sr_handoff_target_owner_id record in
  let? _ := match sr_owner_id record with
    | Some current_owner =>
        let owner_active := session_owner_is_active record now in
        refuse_if (negb (String.eqb current_owner owner_id) && owner_active && negb force)
          (conflict (match handoff_target_owner with
             | Some target_owner =>
                 if String.eqb target_owner owner_id
                 then "session is still actively owned by " +:+ squoted current_owner
                      +:+ "; wait for " +:+ squoted owner_id
                      +:+ " to accept the handoff or use force=true"
                 else "session is actively owned by " +:+ squoted current_owner
                      +:+ " and has a pending handoff to " +:+ squoted target_owner
                      +:+ "; use force=true to override"
             | None => "session is actively owned by " +:+ squoted current_owner
                       +:+ "; request a handoff, wait for lease expiry, or use force=true"
             end)) (Ok ())
    | None => Ok ()
    end in
  let? _ := match handoff_target_owner with
    | Some target_owner =>
        refuse_if (negb force && negb (String.eqb target_owner owner_id))
          (conflict ("session has a pending handoff to " +:+ squoted target_owner
             +:+ "; wait for acceptance, cancel the handoff, or use force=true")) (Ok ())
    | None => Ok ()
    end in
  let lease_ttl_secs := default 60%Z (tkp_lease_ttl_secs payload) in
  let record :=
    if bool_decide (sr_owner_id record ≠ Some owner_id)
       || negb (is_some (sr_owner_acquired_at_unix record))
    then record <| sr_owner_acquired_at_unix := Some now |> else record in
  let record := record <| sr_owner_id := Some owner_id |> <| sr_last_heartbeat_unix := Some now |>
    <| sr_lease_expires_at_unix := Some (lease_until now lease_ttl_secs) |>
    <| sr_status := Some "active" |> <| sr_last_transition_at_unix := Some now |>
    <| sr_last_transition_reason :=
         match tkp_reason payload ≫= normalize_nonempty_str with
         | Some r => Some r
         | None => Some (if force then "force takeover" else "taken over")
         end |> in
  let record := set_state (tkp_state payload) (tkp_metadata payload) (clear_session_handoff record) in
  Ok {| up_record := record <| sr_updated_at_unix := now |>; up_kind := "taken_over";
        up_actor := sr_owner_id record; up_reason := sr_last_transition_reason record |}).

Definition decide_release (requested_owner : option string) (now : Z) (record : SessionRecord)
    : result ApiResponse SessionUpdate :=
  let? _ := match sr_owner_id record with
    | Some current_owner =>
        refuse_if (session_owner_is_active record now
                   && bool_decide (requested_owner ≠ Some current_owner))
          (conflict ("session is currently owned by " +:+ squoted current_owner)) (Ok ())
    | None => Ok ()
    end in
  let record := clear_session_handoff (clear_session_owner record) <| sr_updated_at_unix := now |> in
  Ok {| up_record := record; up_kind := "released";
        up_actor := match requested_owner with Some o => Some o | None => sr_owner_id record end;
        up_reason := Some "released" |}.

Definition decide_cancel (payload : SessionCancelPayload) (now : Z) (record : SessionRecord)
    : result ApiResponse SessionUpdate :=
  refuse_if (from_option session_status_is_terminal false (sr_status record))
    (plain_conflict "cannot request cancellation for a terminal session") (
  let record := record <| sr_cancel_requested_at_unix := Some now |>
    <| sr_cancel_requested_by := normalize_nonempty_string (cnp_requested_by payload) |>
    <| sr_cancel_reason := normalize_nonempty_string (cnp_reason payload) |>
    <| sr_updated_at_unix := now |> in
  Ok {| up_record := record; up_kind := "cancel_requested";
        up_actor := sr_cancel_requested_by record; up_reason := sr_cancel_reason record |}).

Definition decide_transition (session_id next_status : string) (payload : SessionTransitionPayload)
    (now : Z) (existing : option SessionRecord) (project_id : option string)
    : result ApiResponse SessionUpdate :=
  refuse_if (negb (is_some existing) && negb (is_some project_id))
    (bad_request "session transition must include project_id for new sessions") (
  let record := default (empty_session_state_record session_id now) existing in
  let? _ := match validate_session_transition (sr_status record) next_status with
    | Ok _ => Ok ()
    | Err error => Err (conflict error)
    end in
  let record := add_project project_id record in
  let record := record <| sr_status := Some next_status |>
    <| sr_last_transition_at_unix := Some now |>
    <| sr_last_transition_reason := trp_reason payload ≫= normalize_nonempty_str |> in
  let record := set_state (trp_state payload) (trp_metadata payload) record in
  let record := match trp_lease_ttl_secs payload with
    | Some ttl => record <| sr_lease_expires_at_unix := Some (lease_until now ttl) |>
    | None =>
        if session_status_is_terminal next_status
        then clear_session_handoff (clear_session_cancel (clear_session_owner record)) else record
    end in
  Ok {| up_record := record <| sr_updated_at_unix := now |>; up_kind := "transitioned";
        up_actor := None; up_reason := sr_last_transition_reason record |}).

Definition decide_heartbeat (session_id : string) (payload : SessionHeartbeatPayload) (now : Z)
    (existing : option SessionRecord) (project_id : option string)
    : result ApiResponse SessionUpdate :=
  refuse_if (negb (is_some existing) && negb (is_some project_id))
    (bad_request "session heartbeat must include project_id for new sessions") (
  let record := default (empty_session_state_record session_id now) existing in
  refuse_if (from_option session_status_is_terminal false (sr_status record))
    (plain_conflict "cannot heartbeat a terminal session") (
  let owner_id := hbp_owner_id payload ≫= normalize_nonempty_str in
  let? _ := match sr_owner_id record with
    | Some current_owner =>
        refuse_if (negb (session_owner_is_active record now))
          (conflict ("session owner " +:+ squoted current_owner
                     +:+ " lease expired; claim the session again")) (
        refuse_if (bool_decide (owner_id ≠ Some current_owner))
          (conflict ("owner_id " +:+ squoted current_owner
                     +:+ " is required to heartbeat this session")) (Ok ()))
    | None =>
        refuse_if (is_some owner_id)
          (plain_conflict "session is not claimed; use claim before heartbeating with owner_id")
          (Ok ())
    end in
  let record := add_project project_id record in
  let record := match sr_status record with
    | Some _ => record | None => record <| sr_status := Some "active" |> end in
  let record := record <| sr_last_heartbeat_unix := Some now |> in
  let record := match hbp_lease_ttl_secs payload with
    | Some ttl => record <| sr_lease_expires_at_unix := Some (lease_until now ttl) |>
    | None => record
    end in
  let record := set_state (hbp_state payload) (hbp_metadata payload) record in
  Ok {| up_record := record <| sr_updated_at_unix := now |>; up_kind := "heartbeat";
        up_actor := sr_owner_id record; up_reason := None |})).

End decisions.

(** ** Handlers *)

Section handlers.
Context {St GSt : Type} `{AuthStore St} `{SessionStore GSt} `{SerdeJson}.
Context `{Payload SessionStatePayload, Payload SessionTransitionPayload,
  Payload SessionHeartbeatPayload, Payload SessionClaimPayload, Payload SessionReleasePayload,
  Payload SessionCancelPayload, Payload SessionHandoffPayload, Payload SessionAcceptPayload,
  Payload SessionTakeoverPayload, Payload SessionReconcilePayload}.

(** The text of a transport error, the time a handler reads, and the time at
    which its answer is written. *)
Context (body_error : string) (now later : Z).

Notation Api := (LlmGatewayApi St GSt).
Notation Handler := (Api → Api * ApiResponse).

(** A call of the store; [None] when there is none. *)
Definition store_call {A} (op : GSt → GSt * result StoreError A) (api : Api)
    : Api * option (result StoreError A) :=
  match gateway_store api with
  | Some s => let '(s', r) := op s in (api <| gateway_store := Some s' |>, Some r)
  | None => (api, None)
  end.

Definition store_failure (e : StoreError) : ApiResponse :=
  json_response 500 (error_body (store_error_text e)).

Definition store_missing : ApiResponse := json_response 200 (error_body "store not configured").

(** [api.get_session(id)], a missing store read as a missing record. *)
Definition fetch_session (session_id : string) (api : Api)
    : Api * result ApiResponse (option SessionRecord) :=
  let '(api, got) := store_call (λ s, get_session s session_id) api in
  (api, match got with
        | Some (Ok record) => Ok record
        | Some (Err e) => Err (store_failure e)
        | None => Ok None
        end).

Definition or_return_st {A} (m : Api → Api * result ApiResponse A) (k : A → Handler) : Handler :=
  λ api, let '(api, r) := m api in or_return r k api.

Definition load_session_record_for_mutation (session_id : string) (auth : option AuthContext)
    (requested_project_id : option string) (api : Api)
    : Api * result ApiResponse (option SessionRecord * option string) :=
  let '(api, got) := fetch_session session_id api in
  (api,
   let? existing := got in
   let existing_project_id := existing ≫= sr_project_id in
   let? scoped_project_id := match requested_project_id, existing_project_id with
     | None, None => scoped_project_query api auth
     | _, _ => Ok None
     end in
   let effective_project_id := match requested_project_id, existing_project_id with
     | Some p, _ => Some p
     | None, Some p => Some p
     | None, None => scoped_project_id
     end in
   match ensure_permission api auth ManageProjectPolicy effective_project_id with
   | Some resp => Err resp
   | None => Ok (existing, effective_project_id)
   end).

Definition load_session_record_for_view (session_id : string) (auth : option AuthContext)
    (requested_project_id : option string) (api : Api)
    : Api * result ApiResponse (option SessionRecord * option string) :=
  let '(api, got) := fetch_session session_id api in
  (api,
   let? existing := got in
   let effective_project_id := match requested_project_id, existing ≫= sr_project_id with
     | Some p, _ => Some p
     | None, Some p => Some p
     | None, None => match scoped_project_query api auth with Ok p => p | Err _ => None end
     end in
   match ensure_permission api auth ViewLogs effective_project_id with
   | Some resp => Err resp
   | None => Ok (existing, effective_project_id)
   end).

Definition persist_session_record (record : SessionRecord) (event_kind : option string)
    (actor_id reason : option string) (payload : option json) (created_at_unix : option Z)
    : Handler := λ api,
  let '(api, upserted) := store_call (λ s, upsert_session s record) api in
  match upserted with
  | Some (Err e) => (api, store_failure e)
  | None => (api, store_missing)
  | Some (Ok _) =>
      let ok := json_response 200 (json_to_string (session_summary_json_from_record record later)) in
      match event_kind with
      | None => (api, ok)
      | Some event_kind =>
          let event := {| se_event_seq := 0; se_session_id := sr_session_id record;
            se_project_id := sr_project_id record; se_event_kind := event_kind;
            se_actor_id := actor_id; se_reason := reason;
            se_payload_json := json_to_string <$> payload;
            se_created_at_unix := default later created_at_unix |} in
          let '(api, appended) := store_call (λ s, append_session_event s event) api in
          (api, match appended with Some (Err e) => store_failure e | _ => ok end)
      end
  end.

(** Stores the outcome of a decision. *)
Definition store_update (up : SessionUpdate) : Handler :=
  persist_session_record (up_record up) (Some (up_kind up)) (up_actor up) (up_reason up)
    (Some (session_event_payload_value (up_record up))) (Some now).

(** Reads the payload; an empty body is the default one, a blank project refused. *)
Definition read_payload {P} `{Payload P} (project_of : P → option string) (req : ApiRequest)
    : result ApiResponse P :=
  let? body := ok_or (rq_body req)
    (bad_request ("failed to read request body: " +:+ body_error)) in
  let? payload := if String.eqb body "" then Ok default_payload
                  else ok_or (from_slice body) (bad_request "invalid json") in
  if from_option is_blank false (project_of payload)
  then Err (bad_request "project_id must not be empty") else Ok payload.

Definition handle_session_state_upsert (session_id : string) (req : ApiRequest)
    (auth : option AuthContext) : Handler :=
  or_return (read_payload stp_project_id req) (λ payload,
  or_return_st (load_session_record_for_mutation session_id auth (stp_project_id payload))
    (λ '(existing, project_id),
  or_return (decide_state_upsert session_id payload now existing project_id) store_update)).

Definition handle_session_claim (session_id : string) (req : ApiRequest)
    (auth : option AuthContext) : Handler :=
  or_return (read_payload clp_project_id req) (λ payload,
  or_return (ok_or (normalize_nonempty_string (clp_owner_id payload))
                   (bad_request "owner_id is required")) (λ owner_id,
  or_return_st (load_session_record_for_mutation session_id auth (clp_project_id payload))
    (λ '(existing, project_id),
  or_return (decide_claim session_id owner_id payload now existing project_id) store_update))).

(** [let Some(mut record) = existing else { return not_found(); }] *)
Definition or_not_found (loaded : option SessionRecord * option string)
    (k : SessionRecord → result ApiResponse SessionUpdate) : Handler :=
  or_return (let? record := ok_or loaded.1 not_found in k record) store_update.

Definition handle_session_handoff (session_id : string) (req : ApiRequest)
    (auth : option AuthContext) : Handler :=
  or_return (read_payload hop_project_id req) (λ payload,
  or_return (ok_or (normalize_nonempty_string (hop_owner_id payload))
                   (bad_request "owner_id is required")) (λ requested_owner,
  or_return (ok_or (normalize_nonempty_string (hop_target_owner_id payload))
                   (bad_request "target_owner_id is required")) (λ target_owner_id,
  or_return (if String.eqb requested_owner target_owner_id
             then Err (bad_request "target_owner_id must differ from owner_id") else Ok ()) (λ _,
  or_return_st (load_session_record_for_mutation session_id auth (hop_project_id payload))
    (λ loaded, or_not_found loaded
       (decide_handoff requested_owner target_owner_id payload now)))))).

Definition handle_session_accept (session_id : string) (req : ApiRequest)
    (auth : option AuthContext) : Handler :=
  or_return (read_payload acp_project_id req) (λ payload,
  or_return (ok_or (normalize_nonempty_string (acp_owner_id payload))
                   (bad_request "owner_id is required")) (λ owner_id,
  or_return_st (load_session_record_for_mutation session_id auth (acp_project_id payload))
    (λ loaded, or_not_found loaded (decide_accept owner_id payload now)))).

Definition handle_session_takeover (session_id : string) (req : ApiRequest)
    (auth : option AuthContext) : Handler :=
  or_return (read_payload tkp_project_id req) (λ payload,
  or_return (ok_or (normalize_nonempty_string (tkp_owner_id payload))
                   (bad_request "owner_id is required")) (λ owner_id,
  or_return_st (load_session_record_for_mutation session_id auth (tkp_project_id payload))
    (λ loaded, or_not_found loaded (decide_takeover owner_id payload now)))).

Definition handle_session_release (session_id : string) (req : ApiRequest)
    (auth : option AuthContext) : Handler :=
  or_return (read_payload rlp_project_id req) (λ payload,
  let requested_owner := normalize_nonempty_string (rlp_owner_id payload) in
  or_return_st (load_session_record_for_mutation session_id auth (rlp_project_id payload))
    (λ loaded, or_not_found loaded (decide_release requested_owner now))).

Definition handle_session_cancel (session_id : string) (req : ApiRequest)
    (auth : option AuthContext) : Handler :=
  or_return (read_payload cnp_project_id req) (λ payload,
  or_return_st (load_session_record_for_mutation session_id auth (cnp_project_id payload))
    (λ loaded, or_not_found loaded (decide_cancel payload now))).

Definition handle_session_transition (session_id : string) (req : ApiRequest)
    (auth : option AuthContext) : Handler :=
  or_return (read_payload trp_project_id req) (λ payload,
  or_return (ok_or (trp_status payload ≫= normalize_session_status)
                   (bad_request "status is required")) (λ next_status,
  or_return (if is_supported_session_status next_status then Ok ()
             else Err (bad_request "unsupported session status")) (λ _,
  or_return_st (load_session_record_for_mutation session_id auth (trp_project_id payload))
    (λ '(existing, project_id),
  or_return (decide_transition session_id next_status payload now existing project_id)
    store_update)))).

Definition handle_session_heartbeat (session_id : string) (req : ApiRequest)
    (auth : option AuthContext) : Handler :=
  or_return (read_payload hbp_project_id req) (λ payload,
  or_return_st (load_session_record_for_mutation session_id auth (hbp_project_id payload))
    (λ '(existing, project_id),
  or_return (decide_heartbeat session_id payload now existing project_id) store_update)).

Definition handle_session_reconcile (session_id : string) (req : ApiRequest)
    (auth : option AuthContext) : Handler :=
  or_return (read_payload rcp_project_id req) (λ payload,
  or_return_st (load_session_record_for_mutation session_id auth (rcp_project_id payload))
    (λ loaded, or_return (ok_or loaded.1 not_found) (λ record api,
  match reconcile_session_record record now with
  | (record, Some action) =>
      let '(api, resp) := persist_session_record record (Some "reconciled") None
        (Some (action_as_str action))
        (Some (json_literal [("reconciled_action", JString (action_as_str action));
                             ("session", session_event_payload_value record)]))
        (Some now) api in
      (api, if (api_status resp =? 200)%Z
            then session_reconcile_response 200 record (Some action) later
            else json_response (api_status resp) (json_error "failed to persist reconciled session state"))
  | (record, None) => (api, session_reconcile_response 200 record None later)
  end))).

(** *** Views *)

(** The record must be there and belong to the project. *)
Definition viewable (loaded : option SessionRecord * option string) : result ApiResponse () :=
  match loaded.1 with
  | Some record => if session_record_matches_project record loaded.2 then Ok () else Err not_found
  | None => Err not_found
  end.

(** [Ok(Some(value)) if value > 0 => value, Ok(_) => fallback] *)
Definition positive_or (fallback : Z) (o : option Z) : Z :=
  match o with
  | Some v => if (0 <? v)%Z then v else fallback
  | None => fallback
  end.

Definition or_bad_request {A} (m : result string A) : result ApiResponse A :=
  match m with Ok a => Ok a | Err e => Err (bad_request e) end.

Definition fetch_events (session_id : string) (after_seq : option Z) (limit : Z) (api : Api)
    : Api * result ApiResponse (list SessionEventRecord) :=
  let '(api, got) := store_call (λ s, get_session_events s session_id after_seq limit) api in
  (api, match got with
        | Some (Ok events) => Ok events
        | Some (Err e) => Err (store_failure e)
        | None => Err store_missing
        end).

Definition handle_session_events (session_id : string) (req : ApiRequest)
    (auth : option AuthContext) : Handler :=
  let query := default "" (rq_query req) in
  or_return_st (load_session_record_for_view session_id auth (extract_query_param query "project_id"))
    (λ loaded, or_return (viewable loaded) (λ _,
  or_return (or_bad_request (parse_i64_query_param query "after_seq")) (λ after_seq,
  or_return (or_bad_request (parse_u32_query_param query "limit")) (λ l,
  let limit := positive_or 100 l in
  or_return_st (fetch_events session_id after_seq limit) (λ events api,
    (api, json_response 200 (json_to_string (json_literal
      [("session_id", JString session_id);
       ("after_seq", json_opt_Z after_seq);
       ("latest_event_seq", json_of_Z
          (match last events with
           | Some e => se_event_seq e
           | None => default 0%Z after_seq
           end));
       ("count", json_of_Z (Z.of_nat (length events)));
       ("limit", json_of_Z limit);
       ("truncated", JBool (limit <=? Z.of_nat (length events))%Z);
       ("data", JArray (session_event_json_from_record <$> events))])))))))).

(** One round of the loop of the long poll: an answer, or nothing yet. *)
Definition wait_answer (session_id : string) (after_seq : Z) (timed_out : bool)
    (events : list SessionEventRecord) (session : option SessionRecord) : ApiResponse :=
  json_response 200 (json_to_string (json_literal
    [("session_id", JString session_id);
     ("after_seq", json_of_Z after_seq);
     ("wait_timed_out", JBool timed_out);
     ("count", json_of_Z (Z.of_nat (length events)));
     ("latest_event_seq", json_of_Z (from_option se_event_seq after_seq (last events)));
     ("session", from_option (λ r, session_summary_json_from_record r later) JNull session);
     ("events", JArray (session_event_json_from_record <$> events))])).

Definition wait_round (session_id : string) (after_seq limit : Z) (clock deadline : Instant)
    (api : Api) : Api * option ApiResponse :=
  let '(api, got) := fetch_events session_id (Some after_seq) limit api in
  match got with
  | Err resp => (api, Some resp)
  | Ok events =>
      let timed_out := bool_decide (events = []) in
      if timed_out && (clock <? deadline)%Z then (api, None)
      else
        let '(api, session) := fetch_session session_id api in
        (api, Some (match session with
                    | Err resp => resp
                    | Ok session => wait_answer session_id after_seq timed_out events session
                    end))
  end.

(** The loop.  Before round [i] the other requests have turned the store by
    [world i]; [clock i] is the time the round reads. *)
Fixpoint wait_loop (fuel : nat) (i : nat) (world : nat → Api → Api) (clock : Clock)
    (session_id : string) (after_seq limit : Z) (deadline : Instant) (api : Api)
    : option (Api * ApiResponse) :=
  match fuel with
  | O => None
  | Datatypes.S fuel =>
      match wait_round session_id after_seq limit (clock i) deadline (world i api) with
      | (api, Some resp) => Some (api, resp)
      | (api, None) =>
          wait_loop fuel (Datatypes.S i) world clock session_id after_seq limit deadline api
      end
  end.

(** [min(30)] of what the query asks for, 15 seconds without. *)
Definition wait_timeout_secs (asked : option Z) : Z :=
  match asked with
  | Some v => if (0 <? v)%Z then Z.min v 30 else 15
  | None => 15
  end.

Definition handle_session_wait (fuel : nat) (world : nat → Api → Api) (start : Instant)
    (clock : Clock) (session_id : string) (req : ApiRequest) (auth : option AuthContext) (api : Api)
    : option (Api * ApiResponse) :=
  let query := default "" (rq_query req) in
  let '(api, checked) :=
    let '(api, loaded) := load_session_record_for_view session_id auth
      (extract_query_param query "project_id") api in
    (api,
     let? loaded := loaded in
     let? _ := viewable loaded in
     let? after_seq := or_bad_request (parse_i64_query_param query "after_seq") in
     let? timeout := or_bad_request (parse_u32_query_param query "timeout_secs") in
     let? l := or_bad_request (parse_u32_query_param query "limit") in
     Ok (default 0%Z after_seq, wait_timeout_secs timeout, positive_or 100 l)) in
  match checked with
  | Err resp => Some (api, resp)
  | Ok (after_seq, timeout_secs, limit) =>
      wait_loop fuel 0 world clock session_id after_seq limit (start + from_secs timeout_secs)%Z api
  end.

(** *** The dispatcher of [/sessions/{id}/...] *)

(** The summary of a session that has no record, and the log, are read from the
    request log; the long poll is a loop of its own. *)
Context (other_view : string → string → ApiRequest → option AuthContext → Handler).

Definition session_posts : list (string * (string → ApiRequest → option AuthContext → Handler)) :=
  [("transition", handle_session_transition); ("heartbeat", handle_session_heartbeat);
   ("claim", handle_session_claim); ("handoff", handle_session_handoff);
   ("accept", handle_session_accept); ("takeover", handle_session_takeover);
   ("reconcile", handle_session_reconcile); ("release", handle_session_release);
   ("cancel", handle_session_cancel)].

Definition handle_session_subroutes (session_path : string) (req : ApiRequest)
    (auth : option AuthContext) : Handler := λ api,
  let '(session_id, suffix) := match split_once "/" session_path with
    | Some (id, suffix) => (id, Some suffix)
    | None => (session_path, None)
    end in
  if String.eqb session_id "" then (api, not_found)
  else
    let method := rq_method req in
    match suffix with
    | None =>
        if String.eqb method "GET" then other_view session_id "summary" req auth api
        else if String.eqb method "PUT" then handle_session_state_upsert session_id req auth api
        else (api, method_not_allowed)
    | Some suffix =>
        if String.eqb method "POST" then
          match find_first (λ a, String.eqb a.1 suffix) session_posts with
          | Some (_, handler) => handler session_id req auth api
          | None => (api, method_not_allowed)
          end
        else if String.eqb method "GET" then
          if String.eqb suffix "events" then handle_session_events session_id req auth api
          else if bool_decide (suffix ∈ ["wait"; "logs"]) then other_view session_id suffix req auth api
          else (api, not_found)
        else (api, method_not_allowed)
    end.

End handlers.
