(* ===== verification/SessionProps.v ===== *)
(** * Sessions: leases, life cycle, and what a request can change

    A request to a session endpoint acts on the store by one decision or not at
    all; the decisions respect an active lease and a finished session.  The long
    poll always answers. *)

From S2P Require Import Prelude RecordSet StateResult RustStr F64 Json Sql AuthStore Auth ProxyProtocol Management SessionStore SessionRecovery RecoveryProps SessionApi AuthProps.

Local Open Scope string_scope.
Local Open Scope list_scope.
Local Open Scope rust_scope.

(** ** Decisions as commands *)

(** What a session endpoint was asked to do, its payload read and checked. *)
Inductive Command :=
| Upsert (payload : SessionStatePayload)
| Claim (owner_id : string) (payload : SessionClaimPayload)
| Handoff (requested_owner target_owner_id : string) (payload : SessionHandoffPayload)
| Accept (owner_id : string) (payload : SessionAcceptPayload)
| Takeover (owner_id : string) (payload : SessionTakeoverPayload)
| Release (requested_owner : option string)
| Cancel (payload : SessionCancelPayload)
| Transition (next_status : string) (payload : SessionTransitionPayload)
| Heartbeat (payload : SessionHeartbeatPayload)
| Reconcile.

Section commands.
Context `{SerdeJson}.

(** The record a command leaves, if it leaves one. *)
Definition command_record (c : Command) (session_id : string) (now : Z)
    (existing : option SessionRecord) (project_id : option string) : option SessionRecord :=
  let ok m := up_record <$> result_ok m in
  match c with
  | Upsert p => ok (decide_state_upsert session_id p now existing project_id)
  | Claim o p => ok (decide_claim session_id o p now existing project_id)
  | Transition s p => ok (decide_transition session_id s p now existing project_id)
  | Heartbeat p => ok (decide_heartbeat session_id p now existing project_id)
  | Handoff o t p => r ← existing; ok (decide_handoff o t p now r)
  | Accept o p => r ← existing; ok (decide_accept o p now r)
  | Takeover o p => r ← existing; ok (decide_takeover o p now r)
  | Release o => r ← existing; ok (decide_release o now r)
  | Cancel p => r ← existing; ok (decide_cancel p now r)
  | Reconcile =>
      r ← existing;
      match reconcile_session_record r now with
      | (r', Some _) => Some r'
      | (_, None) => None
      end
  end.

Lemma set_state_id st md r : sr_session_id (set_state st md r) = sr_session_id r.
Proof. by destruct st, md. Qed.
Lemma set_state_owner st md r : sr_owner_id (set_state st md r) = sr_owner_id r.
Proof. by destruct st, md. Qed.
Lemma set_state_status st md r : sr_status (set_state st md r) = sr_status r.
Proof. by destruct st, md. Qed.
Lemma set_state_lease st md r :
  sr_lease_expires_at_unix (set_state st md r) = sr_lease_expires_at_unix r.
Proof. by destruct st, md. Qed.
Lemma add_project_id p r : sr_session_id (add_project p r) = sr_session_id r.
Proof. by destruct p. Qed.
Lemma add_project_owner p r : sr_owner_id (add_project p r) = sr_owner_id r.
Proof. by destruct p. Qed.
Lemma add_project_status p r : sr_status (add_project p r) = sr_status r.
Proof. by destruct p. Qed.
Lemma add_project_lease p r :
  sr_lease_expires_at_unix (add_project p r) = sr_lease_expires_at_unix r.
Proof. by destruct p. Qed.

End commands.

#[export] Hint Rewrite @set_state_id @set_state_owner @set_state_status @set_state_lease
  @add_project_id @add_project_owner @add_project_status @add_project_lease : session.

(** Opens the decisions and splits on their guards. *)
Ltac decisions :=
  unfold command_record, decide_state_upsert, decide_claim, decide_handoff, decide_accept,
    decide_takeover, decide_release, decide_cancel, decide_transition, decide_heartbeat,
    refuse_if, result_bind, result_ok, ok_or in *.

(** The fields of the record of an update, read off one update at a time: the
    records are too wide to be computed whole. *)
#[local] Arguments update_field : simpl never.

Ltac session_field_step :=
  let E := fresh in
  match goal with
  | |- context [?p (update_field ?f (λ _, ?v) ?x)] =>
      lazymatch type of (p x) with SessionRecord => fail | _ => idtac end;
      first [assert (∀ y w, p (update_field f (λ _, w) y) = w) as E by (intros; reflexivity)
            |assert (∀ y w, p (update_field f (λ _, w) y) = p y) as E by (intros; reflexivity)];
      rewrite (E x v); clear E
  | |- context [?p (?g ?x)] =>
      lazymatch g with
      | clear_session_owner => idtac | clear_session_handoff => idtac | clear_session_cancel => idtac
      end;
      lazymatch type of (p x) with SessionRecord => fail | _ => idtac end;
      first [assert (∀ y, p (g y) = p y) as E by (intros; reflexivity)
            |assert (∀ y, p (g y) = None) as E by (intros; reflexivity)];
      rewrite (E x); clear E
  end.

Ltac session_fields := repeat first [session_field_step | progress autorewrite with session].

(** Goes through the guards of an accepted decision [H] to the record it leaves. *)
Ltac finish_decision :=
  repeat match goal with
  | E : Ok _ = Ok _ |- _ => injection E as <-
  | E : Some _ = Some _ |- _ => injection E as <-
  | E : Err _ = Ok _ |- _ => discriminate E
  | E : None = Some _ |- _ => discriminate E
  | E : _ <$> Some _ = Some _ |- _ => injection E as <-
  | E : _ <$> None = Some _ |- _ => discriminate E
  | _ => progress simpl
  | _ => case_match
  end; session_fields.

(** ** Leases *)

Definition holds_lease (o : string) (now : Z) (r : SessionRecord) : Prop :=
  sr_owner_id r = Some o ∧ ∃ e, sr_lease_expires_at_unix r = Some e ∧ (now < e)%Z.

(** The commands that end the ownership of [o], with what they leave. *)
Inductive ownership_ends (o : string) (r r' : SessionRecord) : Command → Prop :=
| ends_by_release : sr_owner_id r' = None → ownership_ends o r r' (Release (Some o))
| ends_by_accept t p :
    sr_handoff_target_owner_id r = Some t → sr_owner_id r' = Some t →
    ownership_ends o r r' (Accept t p)
| ends_by_force o' p :
    tkp_force p = Some true → sr_owner_id r' = Some o' → ownership_ends o r r' (Takeover o' p)
| ends_by_transition s p :
    session_status_is_terminal s = true → sr_owner_id r' = None → ownership_ends o r r' (Transition s p)
| ends_by_upsert s p :
    stp_status p ≫= normalize_session_status = Some s → session_status_is_terminal s = true →
    sr_owner_id r' = None → ownership_ends o r r' (Upsert p).

(** The commands that move the end of the lease of [o]. *)
Inductive lease_moves (o : string) : Command → Prop :=
| moves_by_claim p : lease_moves o (Claim o p)
| moves_by_heartbeat p :
    hbp_owner_id p ≫= normalize_nonempty_str = Some o → lease_moves o (Heartbeat p)
| moves_by_takeover p : lease_moves o (Takeover o p)
| moves_by_transition s p ttl : trp_lease_ttl_secs p = Some ttl → lease_moves o (Transition s p).

Section lease_props.
Context `{SerdeJson}.

Lemma holds_active o now r : holds_lease o now r → session_owner_is_active r now = true.
Proof.
  intros (Ho & e & He & Hlt). unfold session_owner_is_active. rewrite Ho, He. simpl. lia.
Qed.

Lemma holds_not_stale o now r : holds_lease o now r → session_owner_is_stale r now = false.
Proof.
  intros (Ho & e & He & Hlt). unfold session_owner_is_stale. rewrite Ho, He. simpl. lia.
Qed.

Lemma command_respects_lease c id now r project_id r' o :
  holds_lease o now r → command_record c id now (Some r) project_id = Some r' →
  (sr_owner_id r' = Some o ∧
   (sr_lease_expires_at_unix r' = sr_lease_expires_at_unix r ∨ lease_moves o c)) ∨
  ownership_ends o r r' c.
Proof.
  intros Hl. pose proof (holds_active _ _ _ Hl) as Ha. pose proof (holds_not_stale _ _ _ Hl) as Hst.
  destruct Hl as [Ho _]. destruct c; decisions; simpl.
  - rewrite !andb_false_r. intros [= <-]. destruct (stp_status payload) as [status|] eqn:Es; simpl.
    + destruct (from_option _ _ _) eqn:Et.
      * right. destruct (normalize_session_status status) as [s|] eqn:En; [|done].
        eapply (ends_by_upsert _ _ _ s); [by rewrite Es|done|by session_fields].
      * left. session_fields. auto.
    + left. session_fields. auto.
  - rewrite Ho, Ha. destruct (from_option _ _ _); [done|]. simpl.
    destruct (String.eqb_spec o owner_id) as [->|]; [|done]. intros [= <-]. left.
    split; [by session_fields|right; constructor].
  - rewrite Ho, Ha. destruct (from_option _ _ _); [done|]. simpl.
    destruct (String.eqb requested_owner o); [|done]. intros [= <-]. left. simpl. session_fields. auto.
  - destruct (from_option _ _ _); [done|]. destruct (sr_handoff_target_owner_id r) as [t|] eqn:Et; [|done].
    destruct (String.eqb_spec owner_id t) as [->|]; [|done]. intros [= <-]. right.
    constructor; [done|]. simpl. session_fields. by repeat case_match.
  - rewrite Ho, Ha. destruct (from_option _ _ _); [done|]. simpl.
    destruct (tkp_force payload) as [[]|] eqn:Ef; simpl; rewrite ?andb_false_r, ?andb_true_r.
    { intros Hr. right. constructor; [done|]. destruct (sr_handoff_target_owner_id r);
        injection Hr as <-; simpl; session_fields; by repeat case_match. }
    all: destruct (String.eqb_spec o owner_id) as [->|]; [|done]; simpl; intros Hr; left.
    all: split; [|right; constructor].
    all: destruct (sr_handoff_target_owner_id r); [destruct (String.eqb _ _); [|done]|];
      injection Hr as <-; simpl; session_fields; by repeat case_match.
  - rewrite Ho, Ha. simpl. case_bool_decide as Hd; [done|]. intros [= <-]. right. subst. by constructor.
  - destruct (from_option _ _ _); [done|]. intros [= <-]. left. simpl. session_fields. auto.
  - destruct (validate_session_transition _ _); [|done]. intros [= <-]. simpl.
    destruct (trp_lease_ttl_secs payload) as [ttl|] eqn:Et.
    + left. session_fields. split; [done|right; by econstructor].
    + destruct (session_status_is_terminal next_status) eqn:En.
      * right. by constructor.
      * left. session_fields. auto.
  - rewrite Ho, Ha. destruct (from_option _ _ _); [done|]. simpl.
    case_bool_decide as Hd; [done|]. intros [= <-]. left. simpl. session_fields.
    split; [repeat case_match; by session_fields|right; by constructor].
  - unfold reconcile_session_record. rewrite Hst, Ho. simpl. rewrite andb_false_r.
    by destruct (session_is_terminal r).
Qed.

(** A finished session stays finished; only the state endpoint reopens it. *)
Lemma command_keeps_terminal c id now r project_id r' :
  session_is_terminal r = true → command_record c id now (Some r) project_id = Some r' →
  sr_status r' = sr_status r ∨ ∃ p s, c = Upsert p ∧ stp_status p = Some s.
Proof.
  unfold session_is_terminal. intros Ht. destruct c; decisions; simpl; rewrite ?Ht; try done.
  - rewrite !andb_false_r. intros [= <-]. destruct (stp_status payload) as [s|] eqn:Es; [eauto|].
    left. by session_fields.
  - destruct (sr_owner_id r); [destruct (_ && _); [done|]|]; intros [= <-]; by left.
  - unfold validate_session_transition. destruct (is_supported_session_status next_status); [|done].
    destruct (sr_status r) as [st|]; [|done]. simpl in *. rewrite Ht.
    destruct (String.eqb_spec st next_status) as [->|].
    + intros [= <-]. left. simpl.
      rewrite Ht. case_match; by session_fields.
    + assert (String.eqb st "active" = false ∧ String.eqb st "paused" = false) as [-> ->]
        by (unfold session_status_is_terminal in Ht; apply bool_decide_eq_true in Ht; set_solver).
      done.
  - unfold reconcile_session_record, session_is_terminal. by rewrite Ht.
Qed.

Lemma command_keeps_id c id now existing project_id r' :
  (∀ r, existing = Some r → sr_session_id r = id) →
  command_record c id now existing project_id = Some r' → sr_session_id r' = id.
Proof.
  intros Hid.
  assert (sr_session_id (default (empty_session_state_record id now) existing) = id) as Hdef
    by (destruct existing; [by apply Hid|done]).
  destruct c; decisions.
  1,2,8,9: revert Hdef; generalize (default (empty_session_state_record id now) existing).
  1-4: intros r0 Hr Hcmd; by finish_decision.
  all: destruct existing as [r0|]; [|done]; simpl in *; intros Hcmd.
  6: { pose proof (reconcile_keeps_id r0 now).
       destruct (reconcile_session_record r0 now) as [r1 [a|]]; simplify_eq/=; congruence. }
  all: by finish_decision.
Qed.
End lease_props.

(** ** What a request does to the store *)

Section effects.
Context {St GSt : Type} `{AuthStore St} `{SessionStoreOk GSt} `{SerdeJson}.
Context `{Payload SessionStatePayload, Payload SessionTransitionPayload,
  Payload SessionHeartbeatPayload, Payload SessionClaimPayload, Payload SessionReleasePayload,
  Payload SessionCancelPayload, Payload SessionHandoffPayload, Payload SessionAcceptPayload,
  Payload SessionTakeoverPayload, Payload SessionReconcilePayload}.
Context (body_error : string) (now later : Z).

Notation Api := (LlmGatewayApi St GSt).

Definition api_tables (api : Api) : option SessionTables := session_tables <$> gateway_store api.

Definition stored (api : Api) (id : string) : option SessionRecord :=
  t ← api_tables api; session_state t !! id.

Definition api_keyed (api : Api) : Prop := ∀ id r, stored api id = Some r → sr_session_id r = id.

(** What the request asks for, by the action its path names. *)
Definition command_of (action : option string) (req : ApiRequest) : option Command :=
  match action with
  | None => Upsert <$> result_ok (read_payload body_error stp_project_id req)
  | Some "claim" =>
      p ← result_ok (read_payload body_error clp_project_id req);
      o ← normalize_nonempty_string (clp_owner_id p); Some (Claim o p)
  | Some "handoff" =>
      p ← result_ok (read_payload body_error hop_project_id req);
      o ← normalize_nonempty_string (hop_owner_id p);
      t ← normalize_nonempty_string (hop_target_owner_id p); Some (Handoff o t p)
  | Some "accept" =>
      p ← result_ok (read_payload body_error acp_project_id req);
      o ← normalize_nonempty_string (acp_owner_id p); Some (Accept o p)
  | Some "takeover" =>
      p ← result_ok (read_payload body_error tkp_project_id req);
      o ← normalize_nonempty_string (tkp_owner_id p); Some (Takeover o p)
  | Some "release" =>
      p ← result_ok (read_payload body_error rlp_project_id req);
      Some (Release (normalize_nonempty_string (rlp_owner_id p)))
  | Some "cancel" => Cancel <$> result_ok (read_payload body_error cnp_project_id req)
  | Some "transition" =>
      p ← result_ok (read_payload body_error trp_project_id req);
      s ← trp_status p ≫= normalize_session_status; Some (Transition s p)
  | Some "heartbeat" => Heartbeat <$> result_ok (read_payload body_error hbp_project_id req)
  | Some "reconcile" => (λ _, Reconcile) <$> result_ok (read_payload body_error rcp_project_id req)
  | _ => None
  end.

(** The project the payload names. *)
Definition project_named (action : option string) (req : ApiRequest) : option string :=
  let named {P} `{Payload P} (project_of : P → option string) : option string :=
    result_ok (read_payload body_error project_of req) ≫= project_of in
  match action with
  | None => named stp_project_id
  | Some "claim" => named clp_project_id
  | Some "handoff" => named hop_project_id
  | Some "accept" => named acp_project_id
  | Some "takeover" => named tkp_project_id
  | Some "release" => named rlp_project_id
  | Some "cancel" => named cnp_project_id
  | Some "transition" => named trp_project_id
  | Some "heartbeat" => named hbp_project_id
  | Some "reconcile" => named rcp_project_id
  | _ => None
  end.

(** The project a request acts in: the one it names, else the one the session is
    filed under, else the only project of the caller (none for an administrator of
    the instance). *)
Definition acts_in (api : Api) (auth : option AuthContext) (id : string) (named project_id : option string) : Prop :=
  match named, stored api id ≫= sr_project_id with
  | Some p, _ | None, Some p => project_id = Some p
  | None, None => scoped_project_query api auth = Ok project_id
  end.

(** The outcome of a request: nothing is written, or the record of its command
    is, by a caller with the permission for the project it acts in. *)
Definition outcome (asked : Command → option string → Prop) (auth : option AuthContext) (id : string) (api : Api)
    (res : Api * ApiResponse) : Prop :=
  auth_service res.1 = auth_service api ∧
  (api_tables res.1 = api_tables api ∨
   ∃ t c project_id r', api_tables api = Some t ∧ asked c project_id ∧
     ensure_permission api auth ManageProjectPolicy project_id = None ∧
     command_record c id now (session_state t !! id) project_id = Some r' ∧
     (api_status res.2 = 200%Z ∨ api_status res.2 = 500%Z) ∧
     ∃ log, api_tables res.1 = Some {| session_state := <[id := r']> (session_state t);
                                       session_event := session_event t ++ log |} ∧
            (api_status res.2 = 200%Z → ∃ e, log = [e] ∧ se_session_id e = id)).

Definition same_api (api api' : Api) : Prop :=
  auth_service api' = auth_service api ∧ api_tables api' = api_tables api.

Lemma outcome_refl asked auth id api api' resp :
  same_api api api' → outcome asked auth id api (api', resp).
Proof. intros []. split; [done|by left]. Qed.

Lemma outcome_or_return {A} asked auth id api api' (m : result ApiResponse A) k :
  same_api api api' → (∀ a, m = Ok a → outcome asked auth id api (k a api')) →
  outcome asked auth id api (or_return m k api').
Proof. intros Hs Hk. destruct m; simpl; [by apply Hk|by apply outcome_refl]. Qed.

Lemma fetch_session_same id (api api' : Api) res :
  fetch_session id api = (api', res) →
  same_api api api' ∧ ∀ o, res = Ok o → o = stored api id.
Proof.
  unfold fetch_session, store_call, stored, api_tables, same_api, api_tables.
  destruct (gateway_store api) as [s|] eqn:Es.
  - destruct (get_session s id) as [s' r] eqn:E. apply read_session in E as [Ht Hr].
    intros [= <- <-]. simpl. rewrite Ht. split; [done|].
    intros o. destruct r; [|done]. intros [= ->]. by apply Hr.
  - intros [= <- <-]. split; [by rewrite Es|]. by intros o [= <-].
Qed.

Lemma ensure_permission_same (api api' : Api) auth p project_id :
  auth_service api' = auth_service api →
  ensure_permission api' auth p project_id = ensure_permission api auth p project_id.
Proof.
  intros E. unfold ensure_permission, auth_required, api_is_allowed. by rewrite E.
Qed.

Lemma scoped_project_query_same (api api' : Api) auth :
  auth_service api' = auth_service api → scoped_project_query api' auth = scoped_project_query api auth.
Proof. intros E. unfold scoped_project_query, api_accessible_projects. by rewrite E. Qed.

Lemma outcome_load asked auth id named api k :
  (∀ existing project_id api', same_api api api' → existing = stored api id →
     ensure_permission api auth ManageProjectPolicy project_id = None →
     acts_in api auth id named project_id →
     outcome asked auth id api (k (existing, project_id) api')) →
  outcome asked auth id api
    (or_return_st (load_session_record_for_mutation id auth named) k api).
Proof.
  intros Hk. unfold or_return_st, load_session_record_for_mutation.
  destruct (fetch_session id api) as [api' got] eqn:E. apply fetch_session_same in E as [Hs Hgot].
  apply outcome_or_return; [done|]. intros [existing project] Hok.
  destruct got as [o|]; [|done]. specialize (Hgot o eq_refl). simpl in Hok.
  destruct (match named with Some _ => _ | None => _ end) as [scoped|] eqn:Esc in Hok; [|done].
  simpl in Hok. destruct (ensure_permission api' _ _ _) eqn:Ep in Hok; [done|].
  injection Hok as <- <-. apply Hk; [done..| |].
  - rewrite <-Ep. symmetry. apply ensure_permission_same, Hs.
  - unfold acts_in. rewrite <-Hgot. destruct named as [p|]; [done|]. destruct (o ≫= sr_project_id); [done|].
    rewrite <-Esc. symmetry. apply scoped_project_query_same, Hs.
Qed.

(** Storing the outcome of a decision. *)
Lemma outcome_persist (asked : Command → option string → Prop) auth id api api' c project_id r' kind actor reason payload at_unix :
  same_api api api' → api_keyed api → asked c project_id →
  ensure_permission api auth ManageProjectPolicy project_id = None →
  command_record c id now (stored api id) project_id = Some r' →
  outcome asked auth id api
    (persist_session_record later r' (Some kind) actor reason payload (Some at_unix) api').
Proof.
  intros [Ha Ht] Hk Hc Hp Hr. unfold persist_session_record, store_call.
  destruct (gateway_store api') as [s|] eqn:Es; [|by apply outcome_refl].
  assert (sr_session_id r' = id) as Hid by (eapply command_keeps_id; [apply Hk|done]).
  destruct (upsert_session s r') as [s1 w] eqn:E1. apply write_session in E1.
  assert (api_tables api = Some (session_tables s)) as Htab.
  { rewrite <-Ht. unfold api_tables. by rewrite Es. }
  unfold stored in Hr. rewrite Htab in Hr. simpl in Hr.
  destruct w as [[]|e]; simpl.
  2:{ apply outcome_refl. split; [done|]. rewrite Htab. unfold api_tables. simpl. by rewrite E1. }
  destruct (append_session_event s1 _) as [s2 w] eqn:E2. apply write_event in E2.
  split; [done|]. right. exists (session_tables s), c, project_id, r'. split_and!; try done.
  { destruct w; simpl; auto. }
  destruct w as [seq|e]; simpl.
  - eexists [_]. unfold api_tables. simpl. rewrite E2, E1, Hid. split; [done|]. intros _. by eexists.
  - exists []. unfold api_tables. simpl. rewrite E2, E1, Hid, app_nil_r. done.
Qed.

Lemma outcome_decided (asked : Command → option string → Prop) auth id api api' c project_id (m : result ApiResponse SessionUpdate) :
  same_api api api' → api_keyed api → asked c project_id →
  ensure_permission api auth ManageProjectPolicy project_id = None →
  command_record c id now (stored api id) project_id = up_record <$> result_ok m →
  outcome asked auth id api (or_return m (store_update now later) api').
Proof.
  intros Hs Hk Hc Hp Hr. apply outcome_or_return; [done|]. intros up ->. by eapply outcome_persist.
Qed.

Lemma ok_result {E A} (m : result E A) a : m = Ok a → result_ok m = Some a.
Proof. by intros ->. Qed.

Lemma ok_or_some {E A} (o : option A) (e : E) a : ok_or o e = Ok a → o = Some a.
Proof. destruct o; simpl; congruence. Qed.

Lemma or_not_found_outcome c (asked : Command → option string → Prop) auth id api api' project_id k :
  same_api api api' → api_keyed api → asked c project_id →
  ensure_permission api auth ManageProjectPolicy project_id = None →
  (∀ r, command_record c id now (Some r) project_id = up_record <$> result_ok (k r)) →
  command_record c id now None project_id = None →
  outcome asked auth id api (or_not_found now later (stored api id, project_id) k api').
Proof.
  intros Hs Hk Hc Hp Hr Hn. eapply outcome_decided; [done..|].
  destruct (stored api id); simpl; [apply Hr|done].
Qed.

(** The outcome of a request does not depend on the text of its answer. *)
Lemma outcome_status asked auth id api api' resp resp' :
  outcome asked auth id api (api', resp) → api_status resp' = api_status resp →
  outcome asked auth id api (api', resp').
Proof. unfold outcome. intros Ho E. simpl in *. by rewrite E. Qed.

(** Every handler, against the command its request asks for. *)
Ltac handler_outcome :=
  repeat first
    [ apply outcome_or_return; [by split|];
      intros ? ?; try match goal with
        | E : ok_or _ _ = Ok _ |- _ => apply ok_or_some in E
        | E : read_payload _ _ _ = Ok _ |- _ => apply ok_result in E
        end
    | apply outcome_load; intros existing project api' Hs -> Hp Hin ].

(** The request asks for the command the handler decides. *)
Ltac asked :=
  split; [|unfold project_named];
  (simpl; repeat match goal with E : _ = Some _ |- _ => rewrite E; clear E; simpl end; done).

(** The command and the project a request asks for. *)
Definition asks (action : option string) (req : ApiRequest) (auth : option AuthContext) (id : string) (api : Api)
    (c : Command) (project_id : option string) : Prop :=
  command_of action req = Some c ∧ acts_in api auth id (project_named action req) project_id.

Lemma mutation_outcome action handler id req auth api :
  api_keyed api →
  (action = None ∧ handler = handle_session_state_upsert body_error now later ∨
   ∃ a, action = Some a ∧ (a, handler) ∈ session_posts body_error now later) →
  outcome (asks action req auth id api) auth id api (handler id req auth api).
Proof.
  intros Hk [[-> ->]|(a & -> & Ha)].
  { unfold handle_session_state_upsert. handler_outcome.
    eapply (outcome_decided _ _ _ _ _ (Upsert _)); [done..|asked|done|done]. }
  repeat (apply elem_of_cons in Ha as [[= -> ->]|Ha]); [..|by apply elem_of_nil in Ha].
  - unfold handle_session_transition. handler_outcome.
    eapply (outcome_decided _ _ _ _ _ (Transition _ _)); [done..|asked|done|done].
  - unfold handle_session_heartbeat. handler_outcome.
    eapply (outcome_decided _ _ _ _ _ (Heartbeat _)); [done..|asked|done|done].
  - unfold handle_session_claim. handler_outcome.
    eapply (outcome_decided _ _ _ _ _ (Claim _ _)); [done..|asked|done|done].
  - unfold handle_session_handoff. handler_outcome.
    eapply (or_not_found_outcome (Handoff _ _ _)); [done..|asked|done|done|done].
  - unfold handle_session_accept. handler_outcome.
    eapply (or_not_found_outcome (Accept _ _)); [done..|asked|done|done|done].
  - unfold handle_session_takeover. handler_outcome.
    eapply (or_not_found_outcome (Takeover _ _)); [done..|asked|done|done|done].
  - unfold handle_session_reconcile. handler_outcome.
    apply outcome_or_return; [done|]. intros r Hr%ok_or_some. simpl in Hr.
    destruct (reconcile_session_record r now) as [r' [action|]] eqn:Er; [|by apply outcome_refl].
    destruct (persist_session_record _ _ _ _ _ _ _ api') as [api2 resp] eqn:Epersist.
    assert (outcome (asks (Some "reconcile") req auth id api) auth id api (api2, resp)) as Ho.
    { rewrite <-Epersist. eapply (outcome_persist _ _ _ _ _ Reconcile); [done..|asked|done|].
      rewrite Hr. simpl. by rewrite Er. }
    eapply outcome_status; [apply Ho|]. simpl. case_match; simpl; lia.
  - unfold handle_session_release. handler_outcome.
    eapply (or_not_found_outcome (Release _)); [done..|asked|done|done|done].
  - unfold handle_session_cancel. handler_outcome.
    eapply (or_not_found_outcome (Cancel _)); [done..|asked|done|done|done].
Qed.

(** The session and the action a path names. *)
Definition session_target (session_path : string) : string * option string :=
  match split_once "/" session_path with
  | Some (id, suffix) => (id, Some suffix)
  | None => (session_path, None)
  end.

Context (other_view : string → string → ApiRequest → option AuthContext → Api → Api * ApiResponse).

Notation subroutes := (handle_session_subroutes body_error now later other_view).

Lemma subroutes_outcome path req auth api :
  api_keyed api → rq_method req ≠ "GET" →
  outcome (asks (session_target path).2 req auth (session_target path).1 api) auth (session_target path).1 api
    (subroutes path req auth api).
Proof.
  intros Hk Hm%String.eqb_neq. unfold handle_session_subroutes, session_target. rewrite Hm.
  destruct (split_once "/" path) as [[id suffix]|]; cbn [fst snd].
  - destruct (String.eqb id ""); [by apply outcome_refl|].
    destruct (String.eqb _ "POST"); [|by apply outcome_refl].
    match goal with |- context [find_first ?p ?l] => destruct (find_first p l) as [[a h]|] eqn:Ef end;
      [|by apply outcome_refl].
    apply find_first_In in Ef as [Hin Ha]. simpl in Ha. apply String.eqb_eq in Ha as ->.
    apply mutation_outcome; [done|]. right. eauto.
  - destruct (String.eqb path ""); [by apply outcome_refl|].
    destruct (String.eqb _ "PUT"); [|by apply outcome_refl].
    apply mutation_outcome; [done|]. by left.
Qed.

Lemma outcome_other (asked : Command → option string → Prop) auth id api res k :
  outcome asked auth id api res → k ≠ id → stored res.1 k = stored api k.
Proof.
  intros [_ [E|(t & c & p & r' & Et & _ & _ & _ & _ & log & E & _)]] Hne; unfold stored; rewrite E;
    [done|]. rewrite Et. simpl. by rewrite lookup_insert_ne.
Qed.

Lemma outcome_same (asked : Command → option string → Prop) auth id api res :
  outcome asked auth id api res →
  stored res.1 id = stored api id ∨
  ∃ c p r', asked c p ∧ command_record c id now (stored api id) p = Some r' ∧ stored res.1 id = Some r'.
Proof.
  intros [_ [E|(t & c & p & r' & Et & Hc & _ & Hr & _ & log & E & _)]]; unfold stored; rewrite E;
    [by left|]. right. exists c, p, r'. rewrite Et. simpl. by rewrite lookup_insert_eq.
Qed.

Lemma outcome_keyed (asked : Command → option string → Prop) auth id api res :
  outcome asked auth id api res → api_keyed api → api_keyed res.1.
Proof.
  intros Ho Hk k r Hr. destruct (decide (k = id)) as [->|Hne].
  - destruct (outcome_same _ _ _ _ _ Ho) as [E|(c & p & r' & _ & Hc & E)]; rewrite E in Hr.
    + by apply Hk.
    + injection Hr as <-. eapply command_keeps_id; [apply Hk|done].
  - apply Hk. by rewrite <-(outcome_other _ _ _ _ _ _ Ho Hne).
Qed.

(** C31: A request that changes sessions leaves every other session alone and
    keeps the records filed under their identifiers.  What it writes is the
    decision of the command its path and payload name, made on the stored record,
    and the caller is allowed to manage the project the request acts in: the one its
    payload names, else the one the session is filed under, else the only one of the
    caller.  (A payload that names a project is judged by that project, also when the
    session is filed under another one.)  Then it answers 200 with exactly one event
    logged, or 500.  Any other answer means that nothing was written. *)
Theorem session_request_effect path req auth api api' resp :
  api_keyed api → rq_method req ≠ "GET" → subroutes path req auth api = (api', resp) →
  let '(id, action) := session_target path in
  api_keyed api' ∧ (∀ k, k ≠ id → stored api' k = stored api k) ∧
  (api_tables api' = api_tables api ∨
   ∃ t c project_id r' log, api_tables api = Some t ∧ command_of action req = Some c ∧
     acts_in api auth id (project_named action req) project_id ∧
     ensure_permission api auth ManageProjectPolicy project_id = None ∧
     command_record c id now (session_state t !! id) project_id = Some r' ∧
     api_tables api' = Some {| session_state := <[id := r']> (session_state t);
                               session_event := session_event t ++ log |} ∧
     (api_status resp = 200%Z ∧ (∃ e, log = [e] ∧ se_session_id e = id) ∨
      api_status resp = 500%Z)).
Proof.
  intros Hk Hm E. pose proof (subroutes_outcome path req auth api Hk Hm) as Ho. rewrite E in Ho.
  destruct (session_target path) as [id action]. simpl in Ho. split_and!.
  - apply (outcome_keyed _ _ _ _ _ Ho Hk).
  - intros k Hne. apply (outcome_other _ _ _ _ _ _ Ho Hne).
  - destruct Ho as [_ [?|(t & c & p & r' & Et & [Hc Hin] & Hp & Hr & Hst & log & Ht & Hev)]]; [by left|].
    right. exists t, c, p, r', log. simpl in *. split_and!; try done. destruct Hst; auto.
Qed.

(** C4: While a worker holds the lease of a session, a request leaves it the
    owner, unless it is its own release, the acceptance of the handoff it asked
    for, a takeover with [force], or the end of the session; and the end of the
    lease moves only by its own claim, heartbeat or takeover, or by a
    transition that sets it. *)
Theorem active_lease_is_respected path req auth api api' resp r o :
  api_keyed api → rq_method req ≠ "GET" → subroutes path req auth api = (api', resp) →
  stored api (session_target path).1 = Some r → holds_lease o now r →
  ∃ r', stored api' (session_target path).1 = Some r' ∧
    (sr_owner_id r' = Some o ∧
     (sr_lease_expires_at_unix r' = sr_lease_expires_at_unix r ∨
      ∃ c, command_of (session_target path).2 req = Some c ∧ lease_moves o c) ∨
     ∃ c, command_of (session_target path).2 req = Some c ∧ ownership_ends o r r' c).
Proof.
  intros Hk Hm E Hr Hl. pose proof (subroutes_outcome path req auth api Hk Hm) as Ho. rewrite E in Ho.
  destruct (outcome_same _ _ _ _ _ Ho) as [Es|(c & p & r' & [Hc _] & Hcmd & Es)]; simpl in Es.
  - exists r. rewrite Es, Hr. split; [done|]. left. destruct Hl. auto.
  - exists r'. split; [done|]. rewrite Hr in Hcmd.
    destruct (command_respects_lease _ _ _ _ _ _ _ Hl Hcmd) as [[Ho' [|]]|]; eauto 6.
Qed.

(** C32: A finished session keeps its status, unless it is written through the
    state endpoint with a status of its own. *)
Theorem finished_sessions_stay_finished path req auth api api' resp r :
  api_keyed api → rq_method req ≠ "GET" → subroutes path req auth api = (api', resp) →
  stored api (session_target path).1 = Some r → session_is_terminal r = true →
  ∃ r', stored api' (session_target path).1 = Some r' ∧
    (sr_status r' = sr_status r ∨
     ∃ p s, command_of (session_target path).2 req = Some (Upsert p) ∧ stp_status p = Some s).
Proof.
  intros Hk Hm E Hr Ht. pose proof (subroutes_outcome path req auth api Hk Hm) as Ho. rewrite E in Ho.
  destruct (outcome_same _ _ _ _ _ Ho) as [Es|(c & p & r' & [Hc _] & Hcmd & Es)]; simpl in Es.
  - exists r. rewrite Es, Hr. auto.
  - exists r'. split; [done|]. rewrite Hr in Hcmd.
    destruct (command_keeps_terminal _ _ _ _ _ _ Ht Hcmd) as [?|(q & s & -> & Hq)]; eauto.
Qed.

End effects.

(** ** Transitions *)

(** A transition is accepted exactly when it names a supported status and
    the session is not finished, or already has that status. *)
Theorem transition_allowed_iff current next :
  validate_session_transition current next = Ok () ↔
  is_supported_session_status next = true ∧
  ∀ st, current = Some st → session_status_is_terminal st = true → st = next.
Proof.
  unfold validate_session_transition. destruct (is_supported_session_status next) eqn:Es; simpl;
    [|naive_solver].
  destruct current as [c|]; [|naive_solver]. destruct (String.eqb_spec c next) as [->|Hne]; [naive_solver|].
  destruct (session_status_is_terminal c) eqn:Et.
  - assert (String.eqb c "active" = false ∧ String.eqb c "paused" = false) as [-> ->]
      by (unfold session_status_is_terminal in Et; apply bool_decide_eq_true in Et; set_solver).
    naive_solver.
  - split; [intros _|intros _; by repeat case_match]. split; [done|]. intros st [= ->]. congruence.
Qed.

(** ** The long poll *)

Section long_poll.
Context {St GSt : Type} `{AuthStore St} `{SessionStore GSt} `{SerdeJson}.
Context (later : Z) (world : nat → LlmGatewayApi St GSt → LlmGatewayApi St GSt) (clock : Clock).

(** A round without an answer is one before the deadline. *)
Lemma wait_round_early id after limit t deadline (api api' : LlmGatewayApi St GSt) :
  wait_round later id after limit t deadline api = (api', None) → (t < deadline)%Z.
Proof.
  unfold wait_round. destruct (fetch_events _ _ _ _) as [api1 [events|resp]]; [|done].
  destruct (bool_decide (events = []) && (t <? deadline)%Z) eqn:E.
  - apply andb_true_iff in E as [_ ?]. lia.
  - by destruct (fetch_session _ _) as [? [?|?]].
Qed.

Lemma wait_loop_answers k fuel i id after limit deadline api :
  (∀ j, clock j + 250000000 ≤ clock (S j))%Z →
  (deadline - clock i ≤ 250000000 * Z.of_nat k)%Z → k < fuel →
  ∃ res, wait_loop later fuel i world clock id after limit deadline api = Some res.
Proof.
  intros Hclk. revert fuel i api. induction k as [|k IH]; intros [|fuel] i api Hd Hf; try lia; simpl.
  all: destruct (wait_round _ _ _ _ _ _ _) as [api' [resp|]] eqn:E; [eauto|].
  all: apply wait_round_early in E. { lia. }
  apply IH; [|lia]. specialize (Hclk i). lia.
Qed.

(** C34: The long poll answers: when a round is at least the 250 milliseconds
    of its sleep, whatever other requests do to the store in between, it is
    over after at most 121 rounds, the thirty seconds its timeout is capped
    at. *)
Theorem long_poll_answers start id req auth api :
  (start ≤ clock 0%nat)%Z → (∀ i, clock i + 250000000 ≤ clock (S i))%Z →
  ∃ res, handle_session_wait later 121 world start clock id req auth api = Some res.
Proof.
  intros Hstart Hclk. unfold handle_session_wait.
  destruct (load_session_record_for_view _ _ _ _) as [api1 loaded].
  match goal with |- context [match ?m with Ok _ => _ | Err _ => _ end] => destruct m as [[[after timeout] limit]|] eqn:E end;
    [|eauto].
  assert (timeout ≤ 30)%Z as Ht.
  { destruct loaded as [l|]; [|done]. simpl in E. destruct (viewable l); [|done]. simpl in E.
    do 3 (destruct (or_bad_request _) in E; [|done]; simpl in E). injection E as _ <- _.
    unfold wait_timeout_secs. repeat case_match; lia. }
  apply (wait_loop_answers 120); [done| |lia]. unfold from_secs. lia.
Qed.

End long_poll.

(** ** Witnesses *)

Section demo.

(** Payloads whose text is the one field that matters. *)
#[local] Instance demo_state_payload : Payload SessionStatePayload :=
  let p s := {| stp_project_id := None; stp_status := s; stp_state := None; stp_metadata := None |} in
  {| from_slice s := Some (p (Some s)); default_payload := p None |}.
#[local] Instance demo_transition_payload : Payload SessionTransitionPayload :=
  let p s := {| trp_project_id := None; trp_status := s; trp_reason := None; trp_state := None;
                trp_metadata := None; trp_lease_ttl_secs := None |} in
  {| from_slice s := Some (p (Some s)); default_payload := p None |}.
#[local] Instance demo_heartbeat_payload : Payload SessionHeartbeatPayload :=
  let p s := {| hbp_project_id := None; hbp_owner_id := s; hbp_state := None; hbp_metadata := None;
                hbp_lease_ttl_secs := Some 60%Z |} in
  {| from_slice s := Some (p (Some s)); default_payload := p None |}.
#[local] Instance demo_claim_payload : Payload SessionClaimPayload :=
  let p s := {| clp_project_id := None; clp_owner_id := s; clp_lease_ttl_secs := None;
                clp_state := None; clp_metadata := None |} in
  {| from_slice s := Some (p (Some s)); default_payload := p None |}.
#[local] Instance demo_release_payload : Payload SessionReleasePayload :=
  let p s := {| rlp_project_id := None; rlp_owner_id := s |} in
  {| from_slice s := Some (p (Some s)); default_payload := p None |}.
#[local] Instance demo_cancel_payload : Payload SessionCancelPayload :=
  let p s := {| cnp_project_id := None; cnp_requested_by := s; cnp_reason := None |} in
  {| from_slice s := Some (p (Some s)); default_payload := p None |}.
#[local] Instance demo_handoff_payload : Payload SessionHandoffPayload :=
  let p s := {| hop_project_id := None; hop_owner_id := s; hop_target_owner_id := Some "worker-b";
                hop_reason := None; hop_state := None; hop_metadata := None |} in
  {| from_slice s := Some (p (Some s)); default_payload := p None |}.
#[local] Instance demo_accept_payload : Payload SessionAcceptPayload :=
  let p s := {| acp_project_id := None; acp_owner_id := s; acp_lease_ttl_secs := None;
                acp_state := None; acp_metadata := None |} in
  {| from_slice s := Some (p (Some s)); default_payload := p None |}.
(** A forced takeover in the name of the project [red]. *)
#[local] Instance demo_takeover_payload : Payload SessionTakeoverPayload :=
  let p s := {| tkp_project_id := Some "red"; tkp_owner_id := s; tkp_lease_ttl_secs := None;
                tkp_force := Some true; tkp_reason := None; tkp_state := None;
                tkp_metadata := None |} in
  {| from_slice s := Some (p (Some s)); default_payload := p None |}.
#[local] Instance demo_reconcile_payload : Payload SessionReconcilePayload :=
  {| from_slice s := Some {| rcp_project_id := Some s |};
     default_payload := {| rcp_project_id := None |} |}.

Definition blue_session (status : string) : SessionRecord :=
  demo_session "s1" "worker-a" 90 <| sr_project_id := Some "blue" |> <| sr_status := Some status |>.

Definition sessions_api (auth : option (AuthService SqliteStore)) (r : SessionRecord)
    : LlmGatewayApi SqliteStore SessionDb :=
  {| auth_service := auth;
     gateway_store := Some {| db_tables := {| session_state := {["s1" := r]}; session_event := [] |};
                              db_faults := [] |} |}.

Definition post (body : string) : ApiRequest :=
  {| rq_method := "POST"; rq_path := "/api/v1/sessions/s1"; rq_query := None;
     rq_authorization := None; rq_body := Some body |}.

Lemma sessions_api_keyed auth r : sr_session_id r = "s1" → api_keyed (sessions_api auth r).
Proof.
  intros Hr id r' H. unfold stored in H. simpl in H. apply lookup_singleton_Some in H as [<- <-].
  done.
Qed.

Definition demo_subroutes :=
  handle_session_subroutes (St := SqliteStore) (GSt := SessionDb) "" 50 50
    (λ _ _ _ _ api, (api, not_found)).

(** Another worker cannot claim the session. *)
Lemma active_lease_is_respected_witness :
  ∃ r', stored (demo_subroutes "s1/claim" (post "worker-b") None
                 (sessions_api None (blue_session "active"))).1 "s1" = Some r' ∧
        sr_owner_id r' = Some "worker-a".
Proof.
  destruct (active_lease_is_respected "" 50 50 (λ _ _ _ _ api, (api, not_found)) "s1/claim"
    (post "worker-b") None (sessions_api None (blue_session "active")) _ _
    (blue_session "active") "worker-a" (sessions_api_keyed None (blue_session "active") eq_refl)
    ltac:(discriminate) (surjective_pairing _) ltac:(by vm_compute)) as (r' & Hr & Ho).
  { split; [done|]. exists 90%Z. done. }
  exists r'. split; [exact Hr|]. destruct Ho as [[Ho _]|(c & Hc & He)]; [done|].
  vm_compute in Hc. injection Hc as <-. inversion He.
Defined.

(** The owner's heartbeat is written; that of another worker is refused. *)
Lemma session_request_effect_witness :
  let api := sessions_api None (blue_session "active") in
  let heartbeat (owner : string) := demo_subroutes "s1/heartbeat" (post owner) None api in
  (api_status (heartbeat "worker-b").2 = 409%Z ∧ api_tables (heartbeat "worker-b").1 = api_tables api) ∧
  (api_status (heartbeat "worker-a").2 = 200%Z ∧
   ∃ r' e, api_tables (heartbeat "worker-a").1 = Some {| session_state := <["s1" := r']> {["s1" := blue_session "active"]};
     session_event := [e] |} ∧ se_session_id e = "s1").
Proof.
  assert (∀ owner : string, api_keyed (sessions_api None (blue_session "active"))) as Hk
    by (intros _; by apply sessions_api_keyed).
  split.
  - assert (api_status (demo_subroutes "s1/heartbeat" (post "worker-b") None
      (sessions_api None (blue_session "active"))).2 = 409%Z) as Hst by (by vm_compute). split; [done|].
    destruct (session_request_effect "" 50 50 (λ _ _ _ _ api, (api, not_found)) "s1/heartbeat"
      (post "worker-b") None (sessions_api None (blue_session "active")) _ _ (Hk "worker-b")
      ltac:(discriminate) (surjective_pairing _))
      as (_ & _ & [E|(t & c & p & r' & log & _ & _ & _ & _ & _ & _ & [[H1 _]|H1])]); [exact E|..];
      unfold demo_subroutes in Hst; rewrite Hst in H1; discriminate.
  - assert (api_status (demo_subroutes "s1/heartbeat" (post "worker-a") None
      (sessions_api None (blue_session "active"))).2 = 200%Z) as Hst by (by vm_compute). split; [done|].
    destruct (session_request_effect "" 50 50 (λ _ _ _ _ api, (api, not_found)) "s1/heartbeat"
      (post "worker-a") None (sessions_api None (blue_session "active")) _ _ (Hk "worker-a")
      ltac:(discriminate) (surjective_pairing _))
      as (_ & _ & [E|(t & c & p & r' & log & Et & _ & _ & _ & _ & Et' & [(_ & e & -> & He)|H1])]).
    + exfalso. apply (f_equal (λ o, length (from_option session_event [] o))) in E. vm_compute in E. discriminate E.
    + injection Et as <-. exists r', e. split; [exact Et'|exact He].
    + unfold demo_subroutes in Hst. rewrite Hst in H1. discriminate.
Defined.

Lemma finished_sessions_stay_finished_witness :
  ∃ r', stored (demo_subroutes "s1/transition" (post "active") None
                 (sessions_api None (blue_session "completed"))).1 "s1" = Some r' ∧
        sr_status r' = Some "completed".
Proof.
  destruct (finished_sessions_stay_finished "" 50 50 (λ _ _ _ _ api, (api, not_found))
    "s1/transition" (post "active") None (sessions_api None (blue_session "completed")) _ _
    (blue_session "completed") (sessions_api_keyed None (blue_session "completed") eq_refl)
    ltac:(discriminate) (surjective_pairing _) ltac:(by vm_compute) eq_refl)
    as (r' & Hr & [Hs|(p & s & Hc & _)]).
  - exists r'. split; [exact Hr|]. by rewrite Hs.
  - vm_compute in Hc. discriminate.
Defined.

Lemma long_poll_answers_witness :
  ∃ res, handle_session_wait (St := SqliteStore) (GSt := SessionDb) 50 121 (λ _ api, api) 0%Z
    (λ i, 250000000 * Z.of_nat i)%Z "s1" (post "") None (sessions_api None (blue_session "active"))
    = Some res.
Proof.
  apply (long_poll_answers 50 (λ _ api, api) (λ i, 250000000 * Z.of_nat i)%Z 0%Z); [done|lia].
Defined.

(** ** Behaviour to know about *)

(** Alice administers the project [red] only, and may not touch a session of
    [blue]; naming her own project in the payload is enough to take it over. *)
Theorem takeover_crosses_projects :
  let alice := authenticate_bearer demo_service "secret" in
  let api := sessions_api (Some demo_service) (blue_session "active") in
  ensure_permission api alice ManageProjectPolicy (Some "blue") = Some forbidden ∧
  let res := demo_subroutes "s1/takeover" (post "mallory") alice api in
  api_status res.2 = 200%Z ∧
  (stored res.1 "s1" ≫= sr_owner_id) = Some "mallory" ∧
  (stored res.1 "s1" ≫= sr_project_id) = Some "blue".
Proof. by vm_compute. Qed.

(** The state endpoint reopens a finished session, with a status of no meaning. *)
Theorem state_endpoint_reopens_sessions :
  let put := {| rq_method := "PUT"; rq_path := ""; rq_query := None; rq_authorization := None;
                rq_body := Some " Whatever " |} in
  let res := demo_subroutes "s1" put None (sessions_api None (blue_session "completed")) in
  api_status res.2 = 200%Z ∧ (stored res.1 "s1" ≫= sr_status) = Some "whatever".
Proof. by vm_compute. Qed.

End demo.

(** Two claims of a free session that both read it before either writes are both
    accepted; the later write wins and the first worker is not told. *)
Theorem concurrent_claims_both_win `{SerdeJson} id now r o1 o2 p1 p2 project_id :
  sr_owner_id r = None → session_is_terminal r = false →
  ∃ r1 r2, command_record (Claim o1 p1) id now (Some r) project_id = Some r1 ∧
    command_record (Claim o2 p2) id now (Some r) project_id = Some r2 ∧
    sr_owner_id r1 = Some o1 ∧ sr_owner_id r2 = Some o2.
Proof.
  unfold session_is_terminal. intros Ho Ht. decisions. simpl. rewrite Ht, Ho. simpl.
  do 2 eexists. split_and!; [done..| |]; by session_fields.
Qed.

(** A transition to a final status that also renews the lease leaves the finished
    session owned and its cancellation pending. *)
Theorem finished_with_lease_keeps_owner `{SerdeJson} id now r p s ttl project_id :
  validate_session_transition (sr_status r) s = Ok () → trp_lease_ttl_secs p = Some ttl →
  ∃ r', command_record (Transition s p) id now (Some r) project_id = Some r' ∧
    sr_status r' = Some s ∧ sr_owner_id r' = sr_owner_id r.
Proof.
  intros Hv Ht. decisions. simpl. rewrite Hv, Ht. simpl. eexists. split; [done|].
  split; by session_fields.
Qed.

(** A lease longer than an [i64] has run out when it is granted. *)
Theorem huge_lease_is_expired now ttl :
  (0 ≤ now ≤ i64_max)%Z → (i64_max < ttl ≤ u64_max)%Z → (lease_until now ttl < now)%Z.
Proof.
  unfold lease_until, saturating_add_i64, as_i64, i64_max, i64_min, u64_max. intros Hn Ht.
  rewrite (proj2 (Z.leb_gt _ _)) by lia. lia.
Qed.
