(* ===== verification/GatewayContext.v ===== *)
(** * The LLM gateway: requests

    Model of [plugin-llm-gateway/src/lib.rs]: the values gateway plugins keep in
    the extensions of a request, and the helpers that read a request: API keys,
    token estimates, the model named in a body, the metadata and price headers,
    and the parsed body kept in step with its text. *)

From S2P Require Import Prelude RecordSet RustStr F64 Json Auth Http Plugin ProxyProtocol ConfigSurfaces.

Local Open Scope string_scope.
Local Open Scope list_scope.
Local Open Scope rust_scope.

(** ** Extension values *)

Inductive ToolApprovalMode := AllowAll | DenyAll | AllowList.

Record VirtualKeyMeta := {
  vk_key_hash : string;
  vk_project_id : string;
  vk_provider_name : string;
  vk_budget_limit : option f64;
  vk_budget_duration : option string;
  vk_budget_window_start : option Z;
  vk_rpm_limit : option Z;
  vk_tpm_limit : option Z;
  vk_tool_approval_mode : ToolApprovalMode;
  vk_allowed_tools : option (list string);
}.

Record RequestCustomCost := {
  per_token_in : f64;
  per_token_out : f64;
}.

Definition custom_cost_to_json (c : RequestCustomCost) : json :=
  json_literal [("per_token_in", json_of_f64 (per_token_in c));
                ("per_token_out", json_of_f64 (per_token_out c))].

(** What the cost tracker keeps between the request and its response. *)
Record LlmRequestMeta := {
  lm_api_key : string;
  lm_model : option string;
  lm_estimated_input_tokens : Z;
}.

(** Input and output tokens, as observed in a response or reported by tools. *)
Record TokenUsage := {
  tu_input_tokens : Z;
  tu_output_tokens : Z;
}.

Record RoutingDebugTrace := {
  rt_enabled : bool;
  rt_ordered_providers : list string;
  rt_attempted_providers : list string;
  rt_selected_provider : option string;
  rt_prompt_cache_preferred_provider : option string;
  rt_prompt_cache_negative_providers : list string;
  rt_prompt_cache_affinity_applied : bool;
  rt_semantic_cache_preferred_provider : option string;
  rt_provider_policy_applied : bool;
  rt_matched_rule_id : option string;
  rt_matched_rule_name : option string;
  rt_effective_timeout_secs : option Z;
}.

#[export] Instance RoutingDebugTrace_set : Settable RoutingDebugTrace := λ t,
  {| rt_enabled := rt_enabled t; rt_ordered_providers := rt_ordered_providers t;
     rt_attempted_providers := rt_attempted_providers t;
     rt_selected_provider := rt_selected_provider t;
     rt_prompt_cache_preferred_provider := rt_prompt_cache_preferred_provider t;
     rt_prompt_cache_negative_providers := rt_prompt_cache_negative_providers t;
     rt_prompt_cache_affinity_applied := rt_prompt_cache_affinity_applied t;
     rt_semantic_cache_preferred_provider := rt_semantic_cache_preferred_provider t;
     rt_provider_policy_applied := rt_provider_policy_applied t;
     rt_matched_rule_id := rt_matched_rule_id t; rt_matched_rule_name := rt_matched_rule_name t;
     rt_effective_timeout_secs := rt_effective_timeout_secs t |}.

(** What the other plugins leave for the audit log; tool calls in their JSON
    form.  The replay handles of a plugin are clones of it, which share its state:
    what is kept is that the handle is there. *)
Record SafetyMatch := {
  sm_detector_class : string;
  sm_description : string;
  sm_path : string;
  sm_action : string;
}.

Record SafetyAudit := { sa_mode : string; sa_matches : list SafetyMatch }.

Record SemanticFindingAudit := {
  fa_chunk_path : string;
  fa_entity_id : string;
  fa_entity_text : string;
  fa_topic_id : string;
  fa_matched_exemplar : string;
  fa_embedding_score : f32;
  fa_rerank_score : f32;
}.

Record SemanticSafetyAudit := {
  ss_mode : string;
  ss_project_id : string;
  ss_policy_version : string;
  ss_index_state : string;
  ss_service_latency_ms : Z;
  ss_degraded_reason : option string;
  ss_findings : list SemanticFindingAudit;
}.

(** The derived JSON form: the fields in the order of the struct. *)
Definition finding_audit_json (f : SemanticFindingAudit) : json :=
  JObject [("chunk_path", JString (fa_chunk_path f)); ("entity_id", JString (fa_entity_id f));
    ("entity_text", JString (fa_entity_text f)); ("topic_id", JString (fa_topic_id f));
    ("matched_exemplar", JString (fa_matched_exemplar f));
    ("embedding_score", json_of_f64 (fa_embedding_score f)); ("rerank_score", json_of_f64 (fa_rerank_score f))].

Record PromptResolutionAudit := {
  pa_prompt_name : string;
  pa_prompt_version : string;
  pa_prompt_environment : string;
  pa_prompt_rollout_id : option string;
  pa_prompt_rollout_mode : option string;
}.

(** What the semantic cache keeps between a request it does not know and its answer. *)
Record SemanticCacheRequestMeta := {
  cm_project_id : string;
  cm_provider_name : string;
  cm_model : string;
  cm_normalized_prompt : string;
  cm_prompt_tokens : Z;
  cm_ttl_secs : Z;
}.

(** What the prompt cache keeps of a request, and what it found in the answer. *)
Record PromptCacheRequestMeta := {
  pq_project_id : string;
  pq_provider_name : string;
  pq_protocol : option PromptCacheProtocol;
  pq_opt_in_requested : bool;
  pq_routing_cache_key : option string;
  pq_routing_ttl_secs : option Z;
}.

Record PromptCacheUsage := {
  pu_provider_name : string;
  pu_protocol : string;
  pu_read_tokens : Z;
  pu_write_tokens : Z;
  pu_outcome : string;
}.

(** The typed extension map, one slot per type of the gateway. *)
Record GatewayExt := {
  x_cached_request_json : option json;
  x_request_metadata : option json;
  x_custom_cost : option RequestCustomCost;
  x_virtual_key : option VirtualKeyMeta;
  x_llm_meta : option LlmRequestMeta;
  x_session_trace : option string;
  x_observed_usage : option TokenUsage;
  x_tool_usage_override : option TokenUsage;
  x_routing_trace : option RoutingDebugTrace;
  x_safety_audit : option SafetyAudit;
  x_semantic_audit : option SemanticSafetyAudit;
  x_semantic_replay : bool;
  x_content_replay : bool;
  x_prompt_audit : option PromptResolutionAudit;
  x_tool_audit : option json;
  x_forwarded_body : option string;
  x_semantic_cache : option SemanticCacheRequestMeta;
  x_prompt_cache : option PromptCacheRequestMeta;
  x_prompt_cache_usage : option PromptCacheUsage;
}.

#[export] Instance GatewayExt_set : Settable GatewayExt := λ x,
  {| x_cached_request_json := x_cached_request_json x; x_request_metadata := x_request_metadata x;
     x_custom_cost := x_custom_cost x; x_virtual_key := x_virtual_key x;
     x_llm_meta := x_llm_meta x; x_session_trace := x_session_trace x;
     x_observed_usage := x_observed_usage x; x_tool_usage_override := x_tool_usage_override x;
     x_routing_trace := x_routing_trace x; x_safety_audit := x_safety_audit x;
     x_semantic_audit := x_semantic_audit x;
     x_semantic_replay := x_semantic_replay x; x_content_replay := x_content_replay x;
     x_prompt_audit := x_prompt_audit x; x_tool_audit := x_tool_audit x; x_forwarded_body := x_forwarded_body x;
     x_semantic_cache := x_semantic_cache x; x_prompt_cache := x_prompt_cache x;
     x_prompt_cache_usage := x_prompt_cache_usage x |}.

Definition gateway_ext_new : GatewayExt :=
  {| x_cached_request_json := None; x_request_metadata := None; x_custom_cost := None;
     x_virtual_key := None; x_llm_meta := None; x_session_trace := None; x_observed_usage := None;
     x_tool_usage_override := None; x_routing_trace := None; x_safety_audit := None;
     x_semantic_audit := None; x_semantic_replay := false; x_content_replay := false; x_prompt_audit := None;
     x_tool_audit := None; x_forwarded_body := None; x_semantic_cache := None; x_prompt_cache := None;
     x_prompt_cache_usage := None |}.

(** The gateway's plugins, over a state [S] they share. *)
#[global] Instance gateway_types (S : Type) : PluginTypes | 5 :=
  {| ConnExtensions := (); PluginState := S; PluginExt := GatewayExt;
     plugin_ext_new := gateway_ext_new |}.

(** ** Bodies *)

(** [estimate_prompt_tokens]: four bytes a token. *)
Definition estimate_prompt_tokens (body : string) : Z := (Z.of_nat (String.length body) / 4)%Z.

(** [String::from_utf8_lossy]: every maximal part that cannot start a character
    becomes U+FFFD.  [char_len] is the length of the character at the head, or
    how many bytes to replace. *)
Definition char_len (b : Z) (rest : list Z) : bool * nat :=
  let second lo hi (k : list Z → bool * nat) :=
    match rest with
    | c :: rest' => if between lo hi c then k rest' else (false, 1)
    | [] => (false, 1)
    end in
  let next (n : nat) (k : list Z → bool * nat) (l : list Z) : bool * nat :=
    match l with
    | c :: l' => if cont c then k l' else (false, n)
    | [] => (false, n)
    end in
  let done_ n := λ _ : list Z, (true, n) in
  if (b <? 128)%Z then (true, 1)
  else if between 194 223 b then second 128%Z 191%Z (done_ 2)
  else if (b =? 224)%Z then second 160%Z 191%Z (next 2 (done_ 3))
  else if (b =? 237)%Z then second 128%Z 159%Z (next 2 (done_ 3))
  else if between 225 239 b then second 128%Z 191%Z (next 2 (done_ 3))
  else if (b =? 240)%Z then second 144%Z 191%Z (next 2 (next 3 (done_ 4)))
  else if (b =? 244)%Z then second 128%Z 143%Z (next 2 (next 3 (done_ 4)))
  else if between 241 243 b then second 128%Z 191%Z (next 2 (next 3 (done_ 4)))
  else (false, 1).

Fixpoint lossy_bytes (fuel : nat) (l : list Z) : list Z :=
  match fuel, l with
  | S fuel, b :: rest =>
      let '(ok, n) := char_len b rest in
      (if ok then take n l else [239; 191; 189]%Z) ++ lossy_bytes fuel (drop n l)
  | _, _ => []
  end.

Definition from_utf8_lossy (l : list Z) : string := string_of_bytes (lossy_bytes (length l) l).

Definition json_whitespace (b : Z) : bool := bool_decide (b ∈ [32; 9; 10; 13]%Z).

Fixpoint skip_whitespace (l : list Z) : list Z :=
  match l with
  | b :: l' => if json_whitespace b then skip_whitespace l' else l
  | [] => []
  end.

(** The bytes before the first [b]; nothing without one. *)
Fixpoint bytes_until (b : Z) (l : list Z) : option (list Z) :=
  match l with
  | [] => None
  | c :: l' => if (c =? b)%Z then Some [] else cons c <$> bytes_until b l'
  end.

Definition quote_byte : Z := 34.
Definition colon_byte : Z := 58.

Definition model_key : list Z := bytes_of (String quote_char ("model" +:+ String quote_char "")).

(** A key's value when it is a string: a colon, a quote and the text up to the
    next quote. *)
Definition model_value (after_key : list Z) : option string :=
  match skip_whitespace after_key with
  | c :: rest =>
      if (c =? colon_byte)%Z then
        match skip_whitespace rest with
        | q :: text =>
            if (q =? quote_byte)%Z then from_utf8_lossy <$> bytes_until quote_byte text else None
        | [] => None
        end
      else None
  | [] => None
  end.

(** The scan: the first place with the key and a value. *)
Fixpoint scan_model (body : list Z) : option string :=
  match body with
  | [] => None
  | _ :: rest =>
      match (if bool_decide (take (length model_key) body = model_key)
             then model_value (drop (length model_key) body) else None) with
      | Some m => Some m
      | None => scan_model rest
      end
  end.

Definition extract_model (body : string) : option string := scan_model (bytes_of body).

Section requests.
Context `{Http} `{SerdeJson} {S : Type}.

Notation Ctx := (RequestContext (H0 := gateway_types S)).
Notation Exts := (Extensions (H0 := gateway_types S)).

(** Assignments to the fields of a context and of its extensions. *)
Definition set_candidates (cs : option (list ProviderCandidate)) (e : Exts) : Exts :=
  {| ext_retry_budget := ext_retry_budget e; ext_brownout := ext_brownout e;
     ext_candidates := cs; ext_timeout := ext_timeout e; ext_plugins := ext_plugins e |}.

Definition set_gateway_ext (x : @PluginExt (gateway_types S)) (e : Exts) : Exts :=
  {| ext_retry_budget := ext_retry_budget e; ext_brownout := ext_brownout e;
     ext_candidates := ext_candidates e; ext_timeout := ext_timeout e; ext_plugins := x |}.

Definition ctx_set_extensions (e : Exts) (c : Ctx) : Ctx :=
  {| ctx_peer_addr := ctx_peer_addr c; ctx_method := ctx_method c; ctx_uri := ctx_uri c;
     ctx_version := ctx_version c; ctx_headers := ctx_headers c; ctx_body := ctx_body c;
     ctx_route := ctx_route c; ctx_selected_upstream := ctx_selected_upstream c;
     ctx_auth := ctx_auth c; ctx_connection := ctx_connection c; ctx_extensions := e |}.

Definition ctx_set_headers (h : HeaderMap) (c : Ctx) : Ctx :=
  {| ctx_peer_addr := ctx_peer_addr c; ctx_method := ctx_method c; ctx_uri := ctx_uri c;
     ctx_version := ctx_version c; ctx_headers := h; ctx_body := ctx_body c;
     ctx_route := ctx_route c; ctx_selected_upstream := ctx_selected_upstream c;
     ctx_auth := ctx_auth c; ctx_connection := ctx_connection c;
     ctx_extensions := ctx_extensions c |}.

Definition ctx_set_auth (a : option AuthContext) (c : Ctx) : Ctx :=
  {| ctx_peer_addr := ctx_peer_addr c; ctx_method := ctx_method c; ctx_uri := ctx_uri c;
     ctx_version := ctx_version c; ctx_headers := ctx_headers c; ctx_body := ctx_body c;
     ctx_route := ctx_route c; ctx_selected_upstream := ctx_selected_upstream c;
     ctx_auth := a; ctx_connection := ctx_connection c; ctx_extensions := ctx_extensions c |}.

Definition ctx_set_body (b : option string) (c : Ctx) : Ctx :=
  {| ctx_peer_addr := ctx_peer_addr c; ctx_method := ctx_method c; ctx_uri := ctx_uri c;
     ctx_version := ctx_version c; ctx_headers := ctx_headers c; ctx_body := b;
     ctx_route := ctx_route c; ctx_selected_upstream := ctx_selected_upstream c;
     ctx_auth := ctx_auth c; ctx_connection := ctx_connection c;
     ctx_extensions := ctx_extensions c |}.

(** [ctx.extensions.get::<T>()] of a gateway type. *)
Definition ctx_ext (ctx : Ctx) : GatewayExt := ext_plugins (ctx_extensions ctx).

(** [ctx.extensions.insert] and [remove]. *)
Definition with_ext (f : GatewayExt → GatewayExt) (ctx : Ctx) : Ctx :=
  ctx_set_extensions (set_gateway_ext (f (ctx_ext ctx)) (ctx_extensions ctx)) ctx.

(** [candidates.0.iter_mut()] over the headers of every candidate. *)
Definition map_candidate_headers (f : HeaderMap → HeaderMap) (ctx : Ctx) : Ctx :=
  let e := ctx_extensions ctx in
  ctx_set_extensions (set_candidates
    (map (λ c, {| pc_upstream := pc_upstream c; pc_headers := f (pc_headers c) |})
       <$> ext_candidates e) e) ctx.

(** The bearer token of [authorization], else a non-empty [x-api-key]. *)
Definition extract_api_key (headers : HeaderMap) : option string :=
  let bearer := v ← get_str "authorization" headers; strip_prefix "Bearer " v in
  match bearer with
  | Some (String _ _ as token) => Some token
  | _ =>
      match get_str "x-api-key" headers with
      | Some (String _ _ as key) => Some key
      | _ => None
      end
  end.

(** *** The parsed body *)

Definition ensure_cached_request_json (ctx : Ctx) : Ctx * bool :=
  match x_cached_request_json (ctx_ext ctx) with
  | Some _ => (ctx, true)
  | None =>
      match ctx_body ctx ≫= json_from_str with
      | Some v => (with_ext (λ x, x <| x_cached_request_json := Some v |>) ctx, true)
      | None => (ctx, false)
      end
  end.

Definition cached_request_json (ctx : Ctx) : Ctx * option json :=
  let '(ctx, ok) := ensure_cached_request_json ctx in
  (ctx, if ok then x_cached_request_json (ctx_ext ctx) else None).

(** Replaces the body and its length, also in the candidates' headers. *)
Definition apply_request_body_update (body : string) (parsed : option json) (ctx : Ctx) : Ctx :=
  let ctx := match hv_from_str (pretty (String.length body)) with
    | None => ctx
    | Some value =>
        map_candidate_headers (hm_insert "content-length" value)
          (ctx_set_headers (hm_insert "content-length" value (ctx_headers ctx)) ctx)
    end in
  with_ext (λ x, x <| x_cached_request_json := parsed |>) (ctx_set_body (Some body) ctx).

Definition sync_cached_request_json_body (ctx : Ctx) : Ctx :=
  match x_cached_request_json (ctx_ext ctx) with
  | None => ctx
  | Some v => apply_request_body_update (json_to_string v) None ctx
  end.

Definition update_request_body (body : string) (ctx : Ctx) : Ctx :=
  apply_request_body_update body (json_from_str body) ctx.

End requests.

(** ** Request headers *)

Definition REQUEST_METADATA_HEADER : string := "cf-aig-metadata".
Definition REQUEST_CUSTOM_COST_HEADER : string := "cf-aig-custom-cost".

(** What [serde] reads from the two headers: the entries of an object in their
    order, and the two prices, or its error text. *)
Class HeaderPayloads := {
  metadata_entries : string → result string (list (string * json));
  custom_cost_payload : string → result string (f64 * f64);
}.

Definition is_finite (f : f64) : bool :=
  match f with S754_nan | S754_infinity _ => false | _ => true end.

Section header_values.
Context `{Http} `{HeaderPayloads}.

Definition request_metadata_value_is_scalar (v : json) : bool :=
  match v with JString _ | JNumber _ | JBool _ => true | _ => false end.

(** Every value must be a scalar; the first five entries are kept. *)
Fixpoint keep_entries (kept : list (string * json)) (entries : list (string * json))
    : result string (list (string * json)) :=
  match entries with
  | [] => Ok kept
  | (k, v) :: rest =>
      if request_metadata_value_is_scalar v
      then keep_entries (if (length kept <? 5)%nat then kept ++ [(k, v)] else kept) rest
      else Err (REQUEST_METADATA_HEADER +:+ " values must be strings, numbers, or booleans")
  end.

Definition parse_request_metadata_header_value (raw : string) : result string json :=
  match metadata_entries raw with
  | Err error => Err (REQUEST_METADATA_HEADER +:+ " must be a valid JSON object: " +:+ error)
  | Ok entries =>
      let? kept := keep_entries [] entries in
      Ok (json_literal kept)
  end.

Definition parse_request_custom_cost_header_value (raw : string) : result string RequestCustomCost :=
  match custom_cost_payload raw with
  | Err error => Err (REQUEST_CUSTOM_COST_HEADER
      +:+ " must be a valid JSON object with per_token_in and per_token_out: " +:+ error)
  | Ok (cin, cout) =>
      if negb (is_finite cin) || f_lt cin f_zero
      then Err (REQUEST_CUSTOM_COST_HEADER +:+ ".per_token_in must be a finite non-negative number")
      else if negb (is_finite cout) || f_lt cout f_zero
      then Err (REQUEST_CUSTOM_COST_HEADER +:+ ".per_token_out must be a finite non-negative number")
      else Ok {| per_token_in := cin; per_token_out := cout |}
  end.

(** Removes the header and parses what it carried. *)
Definition take_header {A} (header : string) (parse : string → result string A) (headers : HeaderMap)
    : HeaderMap * result string (option A) :=
  match hm_get header headers with
  | None => (headers, Ok None)
  | Some raw =>
      (hm_remove header headers,
       match hv_to_str raw with
       | None => Err (header +:+ " must be valid UTF-8")
       | Some raw => result_map Some (parse raw)
       end)
  end.

Definition take_request_metadata (headers : HeaderMap) : HeaderMap * result string (option json) :=
  take_header REQUEST_METADATA_HEADER parse_request_metadata_header_value headers.

Definition take_request_custom_cost (headers : HeaderMap)
    : HeaderMap * result string (option RequestCustomCost) :=
  take_header REQUEST_CUSTOM_COST_HEADER parse_request_custom_cost_header_value headers.

End header_values.

(** ** Metrics

    What a plugin reports to the Prometheus registry, in order. *)

Inductive MetricUpdate :=
| Inc
| IncBy (n : Z)
| IncByF (f : f64)
| SetGauge (z : Z)
| Observe (f : f64).

Record MetricEvent := {
  me_metric : string;
  me_labels : list string;
  me_update : MetricUpdate;
}.

(** [if let Some(ref m) = self.metrics { ... }] *)
Definition report (e : MetricEvent) (m : option (list MetricEvent)) : option (list MetricEvent) :=
  (λ l, l ++ [e]) <$> m.

Definition inc (metric : string) (labels : list string) : MetricEvent :=
  {| me_metric := metric; me_labels := labels; me_update := Inc |}.
