(* ===== verification/UsageStore.v ===== *)
(** * The store of token usage, prices and the request log

    Model of the part of [plugin-llm-gateway/src/store] the cost tracker uses: the
    records, the methods of the trait [GatewayStore], as an interface with its
    contract, and the SQLite implementation of these methods.  Token counts are
    bound as [i64] and read back as [u64], which gives the same 64 bits. *)

From S2P Require Import Prelude RecordSet RustStr F64 Sql.

Local Open Scope string_scope.
Local Open Scope list_scope.
Local Open Scope rust_scope.

(** ** Records *)

Record KeyUsage := {
  total_input_tokens : Z;
  total_output_tokens : Z;
  total_cost : f64;
}.

Record KeyModelUsageRecord := {
  mu_api_key : string;
  mu_model : string;
  mu_usage : KeyUsage;
}.

Record ModelCost := {
  mc_input : f64;
  mc_output : f64;
}.

Record RequestLogEntry := {
  le_timestamp_unix : Z;
  le_api_key : string;
  le_project_id : option string;
  le_session_id : option string;
  le_metadata_json : option string;
  le_custom_cost_json : option string;
  le_custom_cost_applied : bool;
  le_provider_name : option string;
  le_prompt_name : option string;
  le_prompt_version : option string;
  le_prompt_environment : option string;
  le_model : option string;
  le_input_tokens : Z;
  le_output_tokens : Z;
  le_cost : f64;
  le_is_streaming : bool;
  le_safety_mode : option string;
  le_safety_matches : option string;
  le_semantic_policy_version : option string;
  le_semantic_index_state : option string;
  le_semantic_degraded_reason : option string;
  le_semantic_findings : option string;
  le_tool_trace : option string;
}.

#[export] Instance RequestLogEntry_set : Settable RequestLogEntry := λ e,
  {| le_timestamp_unix := le_timestamp_unix e; le_api_key := le_api_key e;
     le_project_id := le_project_id e; le_session_id := le_session_id e;
     le_metadata_json := le_metadata_json e; le_custom_cost_json := le_custom_cost_json e;
     le_custom_cost_applied := le_custom_cost_applied e; le_provider_name := le_provider_name e;
     le_prompt_name := le_prompt_name e; le_prompt_version := le_prompt_version e;
     le_prompt_environment := le_prompt_environment e; le_model := le_model e;
     le_input_tokens := le_input_tokens e; le_output_tokens := le_output_tokens e;
     le_cost := le_cost e; le_is_streaming := le_is_streaming e;
     le_safety_mode := le_safety_mode e; le_safety_matches := le_safety_matches e;
     le_semantic_policy_version := le_semantic_policy_version e;
     le_semantic_index_state := le_semantic_index_state e;
     le_semantic_degraded_reason := le_semantic_degraded_reason e;
     le_semantic_findings := le_semantic_findings e; le_tool_trace := le_tool_trace e |}.

Record VirtualKeyRecord := {
  vr_key_hash : string;
  vr_project_id : string;
  vr_name : string;
  vr_provider_name : string;
  vr_budget_limit : option f64;
  vr_budget_duration : option string;
  vr_budget_window_start : option Z;
  vr_rpm_limit : option Z;
  vr_tpm_limit : option Z;
  vr_allowed_models : option string;
  vr_timeout_secs : option Z;
  vr_tool_approval_mode : option string;
  vr_allowed_tools : option string;
  vr_active : bool;
  vr_created_at : string;
  vr_expires_at : option string;
}.

#[export] Instance VirtualKeyRecord_set : Settable VirtualKeyRecord := λ r,
  {| vr_key_hash := vr_key_hash r; vr_project_id := vr_project_id r; vr_name := vr_name r;
     vr_provider_name := vr_provider_name r; vr_budget_limit := vr_budget_limit r;
     vr_budget_duration := vr_budget_duration r;
     vr_budget_window_start := vr_budget_window_start r; vr_rpm_limit := vr_rpm_limit r;
     vr_tpm_limit := vr_tpm_limit r; vr_allowed_models := vr_allowed_models r;
     vr_timeout_secs := vr_timeout_secs r; vr_tool_approval_mode := vr_tool_approval_mode r;
     vr_allowed_tools := vr_allowed_tools r; vr_active := vr_active r;
     vr_created_at := vr_created_at r; vr_expires_at := vr_expires_at r |}.

Record ManagedProviderRecord := {
  mp_name : string;
  mp_enabled : bool;
  mp_api_key_env : option string;
  mp_base_url : option string;
  mp_models_json : option string;
  mp_api_key_header : option string;
  mp_timeout_secs : option Z;
  mp_family : option string;
  mp_surfaces_json : option string;
  mp_routing_metadata_json : option string;
  mp_created_at : string;
  mp_updated_at : string;
}.

(** ** The methods *)

Class UsageStore (St : Type) := {
  get_all_usage : St → St * result StoreError (list (string * KeyUsage));
  upsert_usage : St → string → KeyUsage → St * result StoreError ();
  delete_usage : St → string → St * result StoreError bool;
  delete_all_usage : St → St * result StoreError ();
  get_all_model_costs : St → St * result StoreError (list (string * ModelCost));
  upsert_model_cost : St → string → ModelCost → St * result StoreError ();
  delete_model_cost_row : St → string → St * result StoreError bool;
  get_all_per_model_usage : St → St * result StoreError (list KeyModelUsageRecord);
  upsert_per_model_usage : St → KeyModelUsageRecord → St * result StoreError ();
  append_request_logs : St → list RequestLogEntry → St * result StoreError ();
  update_virtual_key_budget_window : St → string → Z → St * result StoreError ();
}.

Class KeyStore (St : Type) := {
  get_all_virtual_keys : St → St * result StoreError (list VirtualKeyRecord);
  upsert_virtual_key : St → VirtualKeyRecord → St * result StoreError ();
  delete_virtual_key : St → string → St * result StoreError bool;
  get_managed_providers : St → St * result StoreError (list ManagedProviderRecord);
  upsert_managed_provider_row : St → ManagedProviderRecord → St * result StoreError ();
  delete_managed_provider_row : St → string → St * result StoreError bool;
}.

(** The tables. *)
Record UsageTables := {
  api_key_usage : gmap string KeyUsage;
  model_pricing : gmap string ModelCost;
  api_key_model_usage : gmap (string * string) KeyUsage;
  request_log : list RequestLogEntry;
  virtual_keys : gmap string VirtualKeyRecord;
  managed_provider_rows : gmap string ManagedProviderRecord;
}.

#[export] Instance UsageTables_set : Settable UsageTables := λ t,
  {| api_key_usage := api_key_usage t; model_pricing := model_pricing t;
     api_key_model_usage := api_key_model_usage t; request_log := request_log t;
     virtual_keys := virtual_keys t; managed_provider_rows := managed_provider_rows t |}.

(** A [REAL] column does not keep the sign of zero. *)
Definition db_real (x : f64) : f64 := match x with S754_zero _ => f_zero | _ => x end.

Definition db_usage (u : KeyUsage) : KeyUsage :=
  {| total_input_tokens := total_input_tokens u; total_output_tokens := total_output_tokens u;
     total_cost := db_real (total_cost u) |}.

Definition db_cost (c : ModelCost) : ModelCost :=
  {| mc_input := db_real (mc_input c); mc_output := db_real (mc_output c) |}.

(** The contract of what the cost tracker reads and writes of its totals.  A
    statement that fails leaves the tables as they were. *)
Class UsageStoreOk (St : Type) `{UsageStore St} := {
  usage_tables : St → UsageTables;
  read_usage st st' r : get_all_usage st = (st', r) →
    usage_tables st' = usage_tables st ∧
    ∀ l, r = Ok l → l ≡ₚ map_to_list (api_key_usage (usage_tables st));
  read_costs st st' r : get_all_model_costs st = (st', r) →
    usage_tables st' = usage_tables st ∧
    ∀ l, r = Ok l → l ≡ₚ map_to_list (model_pricing (usage_tables st));
  read_model_usage st st' r : get_all_per_model_usage st = (st', r) →
    usage_tables st' = usage_tables st ∧
    ∀ l, r = Ok l → (λ m, ((mu_api_key m, mu_model m), mu_usage m)) <$> l
                    ≡ₚ map_to_list (api_key_model_usage (usage_tables st));
  write_usage st k u st' r : upsert_usage st k u = (st', r) →
    usage_tables st' = match r with
      | Ok _ => usage_tables st <| api_key_usage :=
                  <[k := db_usage u]> (api_key_usage (usage_tables st)) |>
      | Err _ => usage_tables st
      end;
  write_cost st k c st' r : upsert_model_cost st k c = (st', r) →
    usage_tables st' = match r with
      | Ok _ => usage_tables st <| model_pricing :=
                  <[k := db_cost c]> (model_pricing (usage_tables st)) |>
      | Err _ => usage_tables st
      end;
  write_model_usage st m st' r : upsert_per_model_usage st m = (st', r) →
    usage_tables st' = match r with
      | Ok _ => usage_tables st <| api_key_model_usage :=
                  <[(mu_api_key m, mu_model m) := db_usage (mu_usage m)]>
                    (api_key_model_usage (usage_tables st)) |>
      | Err _ => usage_tables st
      end;
}.

(** A nullable [REAL] column keeps no [NaN] either. *)
Definition db_opt_real (x : option f64) : option f64 :=
  match x with Some S754_nan => None | _ => db_real <$> x end.

Definition db_key (r : VirtualKeyRecord) : VirtualKeyRecord :=
  r <| vr_budget_limit := db_opt_real (vr_budget_limit r) |>.

(** The contract of the tables of keys and providers. *)
Class KeyStoreOk (St : Type) `{KeyStore St} := {
  key_rows : St → gmap string VirtualKeyRecord;
  provider_rows : St → gmap string ManagedProviderRecord;
  read_keys st st' r : get_all_virtual_keys st = (st', r) →
    key_rows st' = key_rows st ∧ provider_rows st' = provider_rows st ∧
    ∀ l, r = Ok l → l ≡ₚ (map_to_list (key_rows st)).*2;
  write_key st rec st' r : upsert_virtual_key st rec = (st', r) →
    provider_rows st' = provider_rows st ∧
    key_rows st' = match r with
      | Ok _ => <[vr_key_hash rec := db_key rec]> (key_rows st)
      | Err _ => key_rows st
      end;
  remove_key st k st' r : delete_virtual_key st k = (st', r) →
    provider_rows st' = provider_rows st ∧
    key_rows st' = match r with Ok _ => delete k (key_rows st) | Err _ => key_rows st end;
  read_providers st st' r : get_managed_providers st = (st', r) →
    key_rows st' = key_rows st ∧ provider_rows st' = provider_rows st ∧
    ∀ l, r = Ok l → l ≡ₚ (map_to_list (provider_rows st)).*2;
}.

(** ** The SQLite implementation *)

Definition UsageDb : Type := SqlDb UsageTables.

(** [NaN] is bound as [NULL], which a [NOT NULL] column refuses. *)
Definition execute_reals {A} (s : UsageDb) (reals : list f64) (stmt : UsageTables → UsageTables * A)
    : UsageDb * result StoreError A :=
  if existsb is_nan reals
  then (s <| db_faults := tail (db_faults s) |>, Err (Db "NOT NULL constraint failed"))
  else execute s stmt.

Definition sqlite_get_all_usage (s : UsageDb) := execute s (λ t, (t, map_to_list (api_key_usage t))).

Definition sqlite_upsert_usage (s : UsageDb) (k : string) (u : KeyUsage) :=
  execute_reals s [total_cost u]
    (λ t, (t <| api_key_usage := <[k := db_usage u]> (api_key_usage t) |>, ())).

Definition sqlite_delete_usage (s : UsageDb) (k : string) :=
  execute s (λ t, (t <| api_key_usage := delete k (api_key_usage t) |>, affected k (api_key_usage t))).

Definition sqlite_delete_all_usage (s : UsageDb) :=
  execute s (λ t, (t <| api_key_usage := ∅ |>, ())).

Definition sqlite_get_all_model_costs (s : UsageDb) :=
  execute s (λ t, (t, map_to_list (model_pricing t))).

Definition sqlite_upsert_model_cost (s : UsageDb) (k : string) (c : ModelCost) :=
  execute_reals s [mc_input c; mc_output c]
    (λ t, (t <| model_pricing := <[k := db_cost c]> (model_pricing t) |>, ())).

Definition sqlite_delete_model_cost (s : UsageDb) (k : string) :=
  execute s (λ t, (t <| model_pricing := delete k (model_pricing t) |>, affected k (model_pricing t))).

Definition sqlite_get_all_per_model_usage (s : UsageDb) :=
  execute s (λ t, (t, (λ p, {| mu_api_key := p.1.1; mu_model := p.1.2; mu_usage := p.2 |})
                        <$> map_to_list (api_key_model_usage t))).

Definition sqlite_upsert_per_model_usage (s : UsageDb) (m : KeyModelUsageRecord) :=
  execute_reals s [total_cost (mu_usage m)] (λ t,
    (t <| api_key_model_usage :=
       <[(mu_api_key m, mu_model m) := db_usage (mu_usage m)]> (api_key_model_usage t) |>, ())).

(** One statement per entry; it stops at the first that fails. *)
Fixpoint sqlite_append_request_logs (s : UsageDb) (entries : list RequestLogEntry)
    : UsageDb * result StoreError () :=
  match entries with
  | [] => (s, Ok ())
  | entry :: rest =>
      match execute_reals s [le_cost entry]
              (λ t, (t <| request_log := request_log t ++ [entry <| le_cost := db_real (le_cost entry) |>] |>, ())) with
      | (s, Ok _) => sqlite_append_request_logs s rest
      | (s, Err e) => (s, Err e)
      end
  end.

Definition sqlite_update_virtual_key_budget_window (s : UsageDb) (key_hash : string) (window_start : Z) :=
  execute s (λ t, (t <| virtual_keys :=
    alter (λ r, r <| vr_budget_window_start := Some window_start |>) key_hash (virtual_keys t) |>, ())).

#[export] Instance UsageDb_store : UsageStore UsageDb := {|
  get_all_usage := sqlite_get_all_usage;
  upsert_usage := sqlite_upsert_usage;
  delete_usage := sqlite_delete_usage;
  delete_all_usage := sqlite_delete_all_usage;
  get_all_model_costs := sqlite_get_all_model_costs;
  upsert_model_cost := sqlite_upsert_model_cost;
  delete_model_cost_row := sqlite_delete_model_cost;
  get_all_per_model_usage := sqlite_get_all_per_model_usage;
  upsert_per_model_usage := sqlite_upsert_per_model_usage;
  append_request_logs := sqlite_append_request_logs;
  update_virtual_key_budget_window := sqlite_update_virtual_key_budget_window;
|}.

Lemma execute_reals_write (s s' : UsageDb) reals w r :
  execute_reals s reals (λ t, (w t, ())) = (s', r) →
  db_tables s' = match r with Ok _ => w (db_tables s) | Err _ => db_tables s end.
Proof.
  unfold execute_reals. destruct (existsb _ _); [by intros [= <- <-]|]. apply execute_write.
Qed.

#[export] Instance UsageDb_ok : UsageStoreOk UsageDb.
Proof.
  refine {| usage_tables := db_tables (T := UsageTables) |}.
  - intros st st' r E. apply execute_select in E as [? E]. split; [done|]. intros l ->.
    by rewrite (E l eq_refl).
  - intros st st' r E. apply execute_select in E as [? E]. split; [done|]. intros l ->.
    by rewrite (E l eq_refl).
  - intros st st' r E. apply execute_select in E as [? E]. split; [done|]. intros l ->.
    rewrite (E l eq_refl), <-list_fmap_compose.
    match goal with |- ?f <$> ?m ≡ₚ ?m => assert (f <$> m = m) as E' end.
    clear E; induction (map_to_list _) as [|[[k m] u] l' IH]; [done|]. cbn [fmap list_fmap]. by f_equal.
    by rewrite E'.
  - intros st k u st' r E. exact (execute_reals_write _ _ _ _ _ E).
  - intros st k c st' r E. exact (execute_reals_write _ _ _ _ _ E).
  - intros st m st' r E. exact (execute_reals_write _ _ _ _ _ E).
Defined.

Definition sqlite_get_all_virtual_keys (s : UsageDb) := execute s (λ t, (t, (map_to_list (virtual_keys t)).*2)).

Definition sqlite_upsert_virtual_key (s : UsageDb) (r : VirtualKeyRecord) :=
  execute s (λ t, (t <| virtual_keys := <[vr_key_hash r := db_key r]> (virtual_keys t) |>, ())).

Definition sqlite_delete_virtual_key (s : UsageDb) (k : string) :=
  execute s (λ t, (t <| virtual_keys := delete k (virtual_keys t) |>, affected k (virtual_keys t))).

Definition sqlite_get_managed_providers (s : UsageDb) :=
  execute s (λ t, (t, select mp_name (λ _, true) (managed_provider_rows t))).

Definition sqlite_upsert_managed_provider (s : UsageDb) (r : ManagedProviderRecord) :=
  execute s (λ t, (t <| managed_provider_rows := <[mp_name r := r]> (managed_provider_rows t) |>, ())).

Definition sqlite_delete_managed_provider (s : UsageDb) (k : string) :=
  execute s (λ t, (t <| managed_provider_rows := delete k (managed_provider_rows t) |>,
                   affected k (managed_provider_rows t))).

#[export] Instance UsageDb_keys : KeyStore UsageDb := {|
  get_all_virtual_keys := sqlite_get_all_virtual_keys;
  upsert_virtual_key := sqlite_upsert_virtual_key;
  delete_virtual_key := sqlite_delete_virtual_key;
  get_managed_providers := sqlite_get_managed_providers;
  upsert_managed_provider_row := sqlite_upsert_managed_provider;
  delete_managed_provider_row := sqlite_delete_managed_provider;
|}.

#[export] Instance UsageDb_keys_ok : KeyStoreOk UsageDb.
Proof.
  refine {| key_rows s := virtual_keys (db_tables (T := UsageTables) s);
            provider_rows s := managed_provider_rows (db_tables (T := UsageTables) s) |}.
  - intros st st' r E. apply execute_select in E as [-> E]. split_and!; [done..|]. intros l ->.
    by rewrite (E l eq_refl).
  - intros st rec st' r E. apply execute_write in E. rewrite E. by destruct r.
  - intros st k st' r E. apply execute_cases in E. destruct r; [destruct E as [-> _]|rewrite E]; done.
  - intros st st' r E. apply execute_select in E as [-> E]. split_and!; [done..|]. intros l ->.
    rewrite (E l eq_refl), select_perm. by rewrite filter_all.
Defined.
