(* ===== verification/StreamUsage.v ===== *)
(** * Token usage of streamed responses

    Model of [plugin-llm-gateway/src/streaming.rs]: the body wrapper that passes
    frames on while it keeps the last two kilobytes, and the scan of that tail
    for a usage object.  What it finds depends on the bytes of the stream only,
    not on how they were cut into frames. *)

From S2P Require Import Prelude RustStr Http ProxyProtocol Json.

Local Open Scope string_scope.
Local Open Scope list_scope.

Record StreamUsage := {
  prompt_tokens : option Z;
  completion_tokens : option Z;
  total_tokens : option Z;
}.

Definition TAIL_CAPACITY : nat := 2048.

(** ** The scan *)

(** [format!("\"{}\"", field)] *)
Definition quoted_key (field : string) : string :=
  String quote_char (field +:+ String quote_char "").

(** [&text[text.rfind(pat)?..]] *)
Fixpoint from_last (pat s : string) : option string :=
  match s with
  | "" => if starts_with s pat then Some s else None
  | String _ s' =>
      match from_last pat s' with
      | Some r => Some r
      | None => if starts_with s pat then Some s else None
      end
  end.

(** [&s[s.find(c)?..]] *)
Fixpoint from_char (c : ascii) (s : string) : option string :=
  match s with
  | "" => None
  | String a s' => if Ascii.eqb a c then Some s else from_char c s'
  end.

(** [&s[..=s.find(c)?]] *)
Fixpoint upto_char (c : ascii) (s : string) : option string :=
  match s with
  | "" => None
  | String a s' => if Ascii.eqb a c then Some (String a "") else String a <$> upto_char c s'
  end.

(** [&text[text.find(pat)? + pat.len()..]] *)
Fixpoint after_first (pat s : string) : option string :=
  match strip_prefix pat s with
  | Some r => Some r
  | None => match s with "" => None | String _ s' => after_first pat s' end
  end.

(** The leading ASCII digits. *)
Fixpoint leading_digits (s : string) : string :=
  match s with
  | String a s' => match digit_of a with Some _ => String a (leading_digits s') | None => "" end
  | "" => ""
  end.

Definition extract_int_field (text field : string) : option Z :=
  after ← after_first (quoted_key field) text;
  after ← strip_prefix ":" (unicode_trim_start after);
  match leading_digits (unicode_trim_start after) with
  | "" => None
  | digits => parse_uint u64_max digits
  end.

Definition or_field (a b : option Z) : option Z := match a with Some _ => a | None => b end.

Definition extract_usage_from_tail (tail : list Z) : option StreamUsage :=
  text ← from_utf8 tail;
  after_usage ← from_last (quoted_key "usage") text;
  usage_obj ← from_char "{" after_usage;
  usage_str ← upto_char "}" usage_obj;
  let prompt := or_field (extract_int_field usage_str "prompt_tokens")
                         (extract_int_field usage_str "input_tokens") in
  let completion := or_field (extract_int_field usage_str "completion_tokens")
                             (extract_int_field usage_str "output_tokens") in
  match prompt, completion with
  | None, None => None
  | _, _ => Some {| prompt_tokens := prompt; completion_tokens := completion;
                    total_tokens := extract_int_field usage_str "total_tokens" |}
  end.

(** ** The body wrapper *)

Definition append_to_tail (tail_buf data : list Z) : list Z :=
  let t := tail_buf ++ data in drop (length t - TAIL_CAPACITY) t.

(** Polling the wrapped body to its end or to an error: the frames it passed on,
    and what it sent through the channel. *)
Fixpoint poll_frames (tail_buf : list Z) (inner : Body) : Body * option StreamUsage :=
  match inner with
  | [] => ([], extract_usage_from_tail tail_buf)
  | Data data :: rest =>
      let '(out, usage) := poll_frames (append_to_tail tail_buf (bytes_of data)) rest in
      (Data data :: out, usage)
  | Trailers :: rest =>
      let '(out, usage) := poll_frames tail_buf rest in (Trailers :: out, usage)
  | ReadError :: rest => (ReadError :: rest, extract_usage_from_tail tail_buf)
  end.

Definition usage_extractor_body (inner : Body) : Body * option StreamUsage := poll_frames [] inner.

(** ** The tail is the end of the stream *)

Definition last_bytes (n : nat) (l : list Z) : list Z := drop (length l - n) l.

Lemma last_bytes_app n a b : last_bytes n (last_bytes n a ++ b) = last_bytes n (a ++ b).
Proof.
  unfold last_bytes. rewrite !length_app, length_drop.
  destruct (decide (length a ≤ n)%nat).
  - replace (length a - n) with 0 by lia. rewrite drop_0. f_equal. lia.
  - rewrite <-drop_app_le by lia. rewrite drop_drop. f_equal. lia.
Qed.

Lemma poll_frames_tail seen inner body :
  collect inner = Some body →
  poll_frames (last_bytes TAIL_CAPACITY seen) inner =
    (inner, extract_usage_from_tail (last_bytes TAIL_CAPACITY (seen ++ bytes_of body))).
Proof.
  revert seen body. induction inner as [|[data| |] inner IH]; intros seen body; simpl.
  - intros [= <-]. by rewrite app_nil_r.
  - destruct (collect inner) as [b|] eqn:Eb; [|done]. intros [= <-].
    change (append_to_tail (last_bytes TAIL_CAPACITY seen) (bytes_of data))
      with (last_bytes TAIL_CAPACITY (last_bytes TAIL_CAPACITY seen ++ bytes_of data)).
    rewrite last_bytes_app, (IH _ b) by done.
    change (data ++ b)%string with (data +:+ b). by rewrite bytes_of_app, app_assoc.
  - intros Eb. by rewrite (IH _ body).
  - done.
Qed.

(** The wrapper passes every frame on unchanged, and what it reports about a
    stream that ends is the scan of its last 2048 bytes, however the stream was
    cut into frames. *)
Theorem stream_usage_of_bytes inner body :
  collect inner = Some body →
  usage_extractor_body inner =
    (inner, extract_usage_from_tail (last_bytes TAIL_CAPACITY (bytes_of body))).
Proof. apply (poll_frames_tail []). Qed.

(** ** A usage object is read back *)

Fixpoint all_digits (s : string) : bool :=
  match s with
  | "" => true
  | String a s' => match digit_of a with Some _ => all_digits s' | None => false end
  end.

Lemma all_digits_pretty z : (0 ≤ z)%Z → all_digits (pretty z) = true.
Proof.
  intros Hz. destruct (decide (z = 0%Z)) as [->|]; [done|]. rewrite pretty_Z_go by lia.
  enough (∀ x s, all_digits s = true → all_digits (pretty_N_go x s) = true) as H by (by apply H).
  apply (pretty_N_go_ind (λ x s r, all_digits s = true → all_digits r = true)); [done|].
  intros x s r Hx IH Hs. apply IH. simpl.
  by destruct (pretty_N_char_cases (x mod 10)) as [-> _]; [by apply N.mod_lt|].
Qed.

(** No pattern that starts with a quote, and no brace, begins inside digits. *)
Lemma digit_other a d c : digit_of a = Some d → digit_of c = None → Ascii.eqb c a = false.
Proof. intros Ha Hc. apply Ascii.eqb_neq. intros ->. congruence. Qed.

Lemma strip_quoted_digit f a s d : digit_of a = Some d → strip_prefix (quoted_key f) (String a s) = None.
Proof. intros Ha. unfold quoted_key. cbn [strip_prefix]. by rewrite (digit_other a d). Qed.

Lemma starts_quoted_digit f a s d : digit_of a = Some d → starts_with (String a s) (quoted_key f) = false.
Proof.
  intros Ha. unfold starts_with, quoted_key. cbn [String.prefix].
  destruct (Ascii.ascii_dec quote_char a) as [<-|]; done.
Qed.

Lemma from_last_digits f n s :
  all_digits n = true → from_last (quoted_key f) s = None → from_last (quoted_key f) (n +:+ s) = None.
Proof.
  intros Hn Hs. induction n as [|a n IH]; [done|]. simpl in Hn.
  destruct (digit_of a) as [d|] eqn:Ha; [|done].
  change (String a n +:+ s) with (String a (n +:+ s)). cbn [from_last].
  by rewrite IH, (starts_quoted_digit f a _ d).
Qed.

Lemma after_first_digits f n s :
  all_digits n = true → after_first (quoted_key f) (n +:+ s) = after_first (quoted_key f) s.
Proof.
  intros Hn. induction n as [|a n IH]; [done|]. simpl in Hn.
  destruct (digit_of a) as [d|] eqn:Ha; [|done].
  change (String a n +:+ s) with (String a (n +:+ s)). cbn [after_first].
  by rewrite (strip_quoted_digit f a _ d), IH.
Qed.

Lemma upto_char_digits c n s :
  digit_of c = None → all_digits n = true → upto_char c (n +:+ s) = String.append n <$> upto_char c s.
Proof.
  intros Hc Hn. induction n as [|a n IH]; simpl; [by destruct (upto_char c s)|]. simpl in Hn.
  destruct (digit_of a) as [d|] eqn:Ha; [|done].
  rewrite Ascii.eqb_sym, (digit_other a d c), IH by done. by destruct (upto_char c s).
Qed.

Lemma leading_digits_app n c s :
  all_digits n = true → digit_of c = None → leading_digits (n +:+ String c s) = n.
Proof.
  intros Hn Hc. induction n as [|a n IH]; simpl; [by rewrite Hc|]. simpl in Hn.
  destruct (digit_of a); [|done]. by rewrite IH.
Qed.

Lemma from_last_app pat p s r : from_last pat s = Some r → from_last pat (p +:+ s) = Some r.
Proof. intros H. induction p as [|a p IH]; [done|]. simpl. by rewrite IH. Qed.

(** The number in front of [c], read. *)
Lemma read_number n c rest :
  (0 ≤ n ≤ u64_max)%Z → digit_of c = None →
  match leading_digits (unicode_trim_start (pretty n +:+ String c rest)) with
  | "" => None
  | digits => parse_uint u64_max digits
  end = Some n.
Proof.
  intros Hn Hc. pose proof (all_digits_pretty n ltac:(lia)) as Hd.
  pose proof (pretty_nonempty n ltac:(lia)) as Hne.
  assert (unicode_trim_start (pretty n +:+ String c rest) = pretty n +:+ String c rest) as ->.
  { destruct (pretty n) as [|a t]; [done|]. simpl in Hd. destruct (digit_of a) as [d|] eqn:Ha; [|done].
    change (String a t +:+ String c rest) with (String a (t +:+ String c rest)).
    unfold digit_of in Ha. cbn [unicode_trim_start]. unfold is_ascii_whitespace.
    destruct ((48 <=? _)%Z && _) eqn:E; [|done].
    assert (48 <= Ascii.N_of_ascii a <= 57)%N as HN by lia. clear E Ha.
    assert (is_ascii_whitespace a = false) as Hw
      by (unfold is_ascii_whitespace; apply not_true_is_false;
          rewrite orb_true_iff, andb_true_iff, !N.leb_le, N.eqb_eq; lia).
    unfold is_ascii_whitespace in Hw. rewrite Hw.
    destruct (t +:+ String c rest) as [|b u] eqn:Et; [by destruct t|].
    assert (∀ b, whitespace2 a b = false) as ->
      by (intros; unfold whitespace2; rewrite (proj2 (N.eqb_neq _ 194)) by lia; done).
    destruct u as [|c' u]; [done|]. unfold whitespace3.
    by rewrite !(proj2 (N.eqb_neq (Ascii.N_of_ascii a) _)) by lia. }
  rewrite leading_digits_app by done. destruct (pretty n) eqn:E; [done|]. rewrite <-E.
  by apply parse_uint_pretty.
Qed.

(** The object a provider that counts tokens the OpenAI way ends a stream with. *)
Definition usage_text (p c t : Z) : string :=
  quoted_key "usage" +:+ ":{" +:+ quoted_key "prompt_tokens" +:+ ":" +:+ pretty p +:+ ","
    +:+ quoted_key "completion_tokens" +:+ ":" +:+ pretty c +:+ ","
    +:+ quoted_key "total_tokens" +:+ ":" +:+ pretty t +:+ "}".

Section roundtrip.
Context (p c t : Z) (Hp : (0 ≤ p ≤ u64_max)%Z) (Hc : (0 ≤ c ≤ u64_max)%Z) (Ht : (0 ≤ t ≤ u64_max)%Z).

(** The text with what follows it, one concatenation at a time. *)
Lemma usage_text_app post :
  usage_text p c t +:+ post =
    (quoted_key "usage" +:+ ":{" +:+ quoted_key "prompt_tokens" +:+ ":") +:+ (pretty p +:+
    (("," +:+ quoted_key "completion_tokens" +:+ ":") +:+ (pretty c +:+
    (("," +:+ quoted_key "total_tokens" +:+ ":") +:+ (pretty t +:+ ("}" +:+ post)))))).
Proof. unfold usage_text. by rewrite !str_app_assoc. Qed.

Ltac literal := cbn [String.append quoted_key]; cbn [from_last].

Lemma usage_text_last post :
  from_last (quoted_key "usage") post = None →
  from_last (quoted_key "usage") (usage_text p c t +:+ post) = Some (usage_text p c t +:+ post).
Proof.
  intros Hpost. rewrite usage_text_app.
  assert (from_last (quoted_key "usage") ("}" +:+ post) = None) as H1 by (literal; by rewrite Hpost).
  apply (from_last_digits "usage" (pretty t)) in H1; [|apply all_digits_pretty; lia].
  revert H1. generalize (pretty t +:+ "}" +:+ post). intros s1 H1.
  assert (from_last (quoted_key "usage") (("," +:+ quoted_key "total_tokens" +:+ ":") +:+ s1) = None) as H2
    by (literal; by rewrite H1).
  apply (from_last_digits "usage" (pretty c)) in H2; [|apply all_digits_pretty; lia].
  revert H2. generalize (pretty c +:+ ("," +:+ quoted_key "total_tokens" +:+ ":") +:+ s1). intros s2 H2.
  assert (from_last (quoted_key "usage") (("," +:+ quoted_key "completion_tokens" +:+ ":") +:+ s2) = None)
    as H3 by (literal; by rewrite H2).
  apply (from_last_digits "usage" (pretty p)) in H3; [|apply all_digits_pretty; lia].
  revert H3. generalize (pretty p +:+ ("," +:+ quoted_key "completion_tokens" +:+ ":") +:+ s2). intros s3 H3.
  literal. by rewrite H3.
Qed.

(** The object, and what each scan makes of it. *)
Definition usage_object : string :=
  ("{" +:+ quoted_key "prompt_tokens" +:+ ":") +:+ (pretty p +:+ String "," (
  (quoted_key "completion_tokens" +:+ ":") +:+ (pretty c +:+ String "," (
  (quoted_key "total_tokens" +:+ ":") +:+ (pretty t +:+ String "}" ""))))).

Lemma usage_text_object post :
  from_char "{" (usage_text p c t +:+ post) ≫= upto_char "}" = Some usage_object.
Proof.
  rewrite usage_text_app. cbn [String.append quoted_key quote_char from_char Ascii.eqb Bool.eqb].
  cbn [mbind option_bind upto_char quote_char Ascii.eqb Bool.eqb].
  rewrite upto_char_digits by (done || apply all_digits_pretty; lia).
  cbn [String.append quoted_key upto_char quote_char Ascii.eqb Bool.eqb].
  rewrite upto_char_digits by (done || apply all_digits_pretty; lia).
  cbn [String.append quoted_key upto_char quote_char Ascii.eqb Bool.eqb].
  rewrite upto_char_digits by (done || apply all_digits_pretty; lia).
  cbn [String.append quoted_key upto_char quote_char Ascii.eqb Bool.eqb]. reflexivity.
Qed.

Lemma object_field f n a rest :
  (0 ≤ n ≤ u64_max)%Z → digit_of a = None →
  after_first (quoted_key f) usage_object = Some (":" +:+ (pretty n +:+ String a rest)) →
  extract_int_field usage_object f = Some n.
Proof.
  intros Hn Ha E. unfold extract_int_field. rewrite E.
  pose proof (read_number n a rest Hn Ha) as R. revert R. clear E.
  generalize (pretty n +:+ String a rest). intros s R. cbn [mbind option_bind].
  change (":" +:+ s) with (String ":" s).
  assert (unicode_trim_start (String ":" s) = String ":" s) as ->
    by (destruct s as [|b [|b' s]]; done).
  exact R.
Qed.

Lemma object_fields :
  extract_int_field usage_object "prompt_tokens" = Some p ∧
  extract_int_field usage_object "completion_tokens" = Some c ∧
  extract_int_field usage_object "total_tokens" = Some t.
Proof.
  assert (∀ f n s, all_digits n = true →
    after_first (quoted_key f) (n +:+ String "," s) = after_first (quoted_key f) (String "," s)) as Hskip
    by (intros; by rewrite after_first_digits).
  split_and!.
  - eapply (object_field _ p ","); [done..|]. reflexivity.
  - eapply (object_field _ c ","); [done..|]. unfold usage_object.
    cbn [String.append quoted_key after_first strip_prefix Ascii.eqb Bool.eqb quote_char].
    rewrite Hskip by (apply all_digits_pretty; lia). reflexivity.
  - eapply (object_field _ t "}"); [done..|]. unfold usage_object.
    cbn [String.append quoted_key after_first strip_prefix Ascii.eqb Bool.eqb quote_char].
    rewrite Hskip by (apply all_digits_pretty; lia).
    cbn [String.append quoted_key after_first strip_prefix Ascii.eqb Bool.eqb quote_char].
    rewrite Hskip by (apply all_digits_pretty; lia). reflexivity.
Qed.

(** The scan of a tail that holds the object, and no later one. *)
Lemma scan_usage_text pre post :
  utf8_valid (bytes_of (pre +:+ usage_text p c t +:+ post)) = true →
  from_last (quoted_key "usage") post = None →
  extract_usage_from_tail (bytes_of (pre +:+ usage_text p c t +:+ post)) =
    Some {| prompt_tokens := Some p; completion_tokens := Some c; total_tokens := Some t |}.
Proof.
  intros Hu Hpost. unfold extract_usage_from_tail, from_utf8. rewrite Hu, string_of_bytes_of.
  cbn [mbind option_bind].
  rewrite (from_last_app _ pre _ _ (usage_text_last post Hpost)). cbn [mbind option_bind].
  pose proof (usage_text_object post) as Ho.
  destruct (from_char "{" (usage_text p c t +:+ post)) as [obj|]; [|done].
  cbn [mbind option_bind] in Ho |- *. rewrite Ho. cbn [mbind option_bind].
  destruct object_fields as (-> & -> & ->). done.
Qed.

End roundtrip.

Lemma bytes_of_ok s : Forall byte_ok (bytes_of s).
Proof.
  unfold bytes_of. apply Forall_fmap, Forall_forall. intros a _. unfold byte_ok. simpl.
  pose proof (Ascii.N_ascii_bounded a). lia.
Qed.

(** C35: The usage of a stream is read exactly when its tail is text.  Take a stream
    whose body, however it was cut into frames, ends with the compact usage object
    of the OpenAI format (the three token counts, each within 64 bits) followed by
    at most as much text as fits with it into 2048 bytes and without another
    ["usage"] key; the text before the object is arbitrary.  If the last 2048 bytes
    of the stream are UTF-8 the stream is accounted with exactly the three counts of
    the object; if they are not, because the cut falls inside a character or the
    text is in another encoding, it is accounted with nothing. *)
Theorem streamed_usage_is_read inner pre post p c t :
  let text := pre +:+ usage_text p c t +:+ post in
  collect inner = Some text →
  (String.length (usage_text p c t +:+ post) ≤ TAIL_CAPACITY)%nat →
  from_last (quoted_key "usage") post = None →
  (0 ≤ p ≤ u64_max)%Z → (0 ≤ c ≤ u64_max)%Z → (0 ≤ t ≤ u64_max)%Z →
  (usage_extractor_body inner).2 =
    if utf8_valid (last_bytes TAIL_CAPACITY (bytes_of text))
    then Some {| prompt_tokens := Some p; completion_tokens := Some c; total_tokens := Some t |}
    else None.
Proof.
  intros text Hbody Hlen Hpost Hp Hc Ht. unfold usage_extractor_body.
  pose proof (poll_frames_tail [] inner _ Hbody) as E. cbn [app] in E.
  change (last_bytes TAIL_CAPACITY []) with (@nil Z) in E. rewrite E. cbn [snd]. unfold text. clear E.
  rewrite bytes_of_app. set (rest := usage_text p c t +:+ post) in *.
  set (n := (length (bytes_of pre) + length (bytes_of rest) - TAIL_CAPACITY)%nat).
  assert (last_bytes TAIL_CAPACITY (bytes_of pre ++ bytes_of rest)
          = bytes_of (string_of_bytes (drop n (bytes_of pre)) +:+ rest)) as ->.
  { unfold last_bytes. rewrite length_app. fold n. rewrite <-length_bytes_of in Hlen.
    rewrite drop_app_le by (unfold n; lia). rewrite bytes_of_app, bytes_of_string_of; [done|].
    apply Forall_drop, bytes_of_ok. }
  destruct (utf8_valid _) eqn:Hu; [by apply scan_usage_text|].
  unfold extract_usage_from_tail, from_utf8. by rewrite Hu.
Qed.

(** ** Witnesses *)

Lemma stream_usage_of_bytes_witness :
  usage_extractor_body [Data (usage_text 10 5 15); Trailers] =
    ([Data (usage_text 10 5 15); Trailers],
     Some {| prompt_tokens := Some 10%Z; completion_tokens := Some 5%Z; total_tokens := Some 15%Z |}).
Proof.
  rewrite (stream_usage_of_bytes [Data (usage_text 10 5 15); Trailers]
             (usage_text 10 5 15 +:+ "")) by done.
  vm_compute. reflexivity.
Defined.

(** The object arrives in two frames, after text that is not ASCII. *)
Lemma streamed_usage_is_read_witness :
  (usage_extractor_body [Data (string_of_bytes [195; 169]%Z +:+ "data: "); Data (quoted_key "usage");
     Data (str_drop 7 (usage_text 10 5 15) +:+ " [DONE]")]).2 =
    Some {| prompt_tokens := Some 10%Z; completion_tokens := Some 5%Z; total_tokens := Some 15%Z |}.
Proof.
  rewrite (streamed_usage_is_read _ (string_of_bytes [195; 169]%Z +:+ "data: ") " [DONE]" 10 5 15);
    try (by vm_compute).
  apply Nat.leb_le. by vm_compute.
Defined.

(** ** Behaviour to know about *)

(** A character cut by the edge of the buffer makes the whole tail unreadable:
    the usage behind it is lost. *)
Theorem cut_character_loses_usage :
  let padding := string_of_bytes (replicate 1979 32%Z) in
  let text := string_of_bytes [195; 169]%Z +:+ usage_text 10 5 15 +:+ padding in
  String.length text = 2049%nat ∧ (usage_extractor_body [Data text]).2 = None.
Proof. split; by vm_compute. Qed.

(** A nested object inside the usage ends the scan early: completion tokens that
    follow it are not seen. *)
Theorem nested_details_hide_completion_tokens :
  let text := quoted_key "usage" +:+ ":{" +:+ quoted_key "prompt_tokens" +:+ ":10,"
    +:+ quoted_key "prompt_tokens_details" +:+ ":{" +:+ quoted_key "cached_tokens" +:+ ":0},"
    +:+ quoted_key "completion_tokens" +:+ ":500}" in
  (usage_extractor_body [Data text]).2 =
    Some {| prompt_tokens := Some 10%Z; completion_tokens := None; total_tokens := None |}.
Proof. by vm_compute. Qed.
