(* ===== verification/SemanticService.v ===== *)
(** * The semantic safety service

    Model of [semantic-safety-service/src/service.rs] and [persistence.rs], and
    of [index_state_name] of [semantic-safety-protocol]: the indexes the service
    compiles from project policies, the files it keeps them in, and the calls it
    answers.  The models that embed and rank texts are native code behind
    [InferenceBackend]; the messages are those of the protocol file. *)

From S2P Require Import Prelude RecordSet RustStr Utf8 F64 Json StateResult Http Auth Plugin GatewayContext.

Local Open Scope string_scope.
Local Open Scope list_scope.
Local Open Scope rust_scope.

(** ** Messages *)

Record SemanticEntity := {
  en_entity_id : string;
  en_name : string;
  en_aliases : list string;
}.

Record SemanticTopic := {
  to_topic_id : string;
  to_name : string;
  to_exemplars : list string;
  to_rerank_threshold : f32;
  to_require_entity_match : bool;
}.

Record ProjectSemanticPolicy := {
  sy_project_id : string;
  sy_version : string;
  sy_enabled : bool;
  sy_entities : list SemanticEntity;
  sy_topics : list SemanticTopic;
  sy_updated_at : string;
}.

Record Chunk := {
  ck_path : string;
  ck_text : string;
}.

Record Finding := {
  fi_chunk_path : string;
  fi_entity_id : string;
  fi_entity_text : string;
  fi_topic_id : string;
  fi_matched_exemplar : string;
  fi_embedding_score : f32;
  fi_rerank_score : f32;
}.

Inductive IndexState := Unspecified | Ready | Missing | Stale | Disabled | Degraded.

#[export] Instance IndexState_eq_dec : EqDecision IndexState.
Proof. solve_decision. Defined.

Definition index_state_name (s : IndexState) : string :=
  match s with
  | Ready => "ready"
  | Missing => "missing"
  | Stale => "stale"
  | Disabled => "disabled"
  | Degraded => "degraded"
  | Unspecified => "unspecified"
  end.

Record EvaluateRequest := {
  eq_project_id : string;
  eq_policy_version : string;
  eq_request_id : string;
  eq_path : string;
  eq_model : string;
  eq_streaming : bool;
  eq_chunks : list Chunk;
  eq_top_k : Z;
}.

Record EvaluateResponse := {
  er_project_id : string;
  er_policy_version : string;
  er_findings : list Finding;
  er_service_latency_ms : Z;
  er_index_state : IndexState;
  er_degraded_reason : string;
}.

(** [ProjectSyncState] and [GetProjectSyncStatusResponse]. *)
Record ProjectSyncState := {
  st_project_id : string;
  st_policy_version : string;
  st_index_state : IndexState;
  st_updated_at : string;
  st_stored_exemplar_count : Z;
}.

(** The statuses the service answers with. *)
Inductive Status :=
| Unauthenticated (msg : string)
| InvalidArgument (msg : string)
| Internal (msg : string).

(** ** The models *)

Record BackendHealth := {
  bh_ready : bool;
  bh_backend : string;
  bh_message : string;
}.

Class InferenceBackend (B : Type) := {
  embed_texts : B → list string → B * result string (list (list f32));
  rerank : B → string → list string → B * result string (list f32);
  backend_health : B → BackendHealth;
}.

(** ** Texts *)

Definition normalize_text (input : string) : string :=
  to_lowercase (join " " (split_whitespace input)).

(** [map(|ch| !ch.is_ascii_alphanumeric()).unwrap_or(true)] *)
Definition at_boundary (a : option ascii) : bool :=
  from_option (λ a, negb (is_ascii_alphanumeric a)) true a.

(** The search loop: [before] is the text up to [search_from], [rest] what
    follows it. *)
Fixpoint alias_loop (fuel : nat) (before rest alias : string) : bool :=
  match fuel with
  | O => false
  | S fuel' =>
      match str_find alias rest with
      | None => false
      | Some offset =>
          let before' := before +:+ String.substring 0 offset rest in
          let at_start := str_drop offset rest in
          if at_boundary (last_byte before')
             && at_boundary (first_byte (str_drop (String.length alias) at_start))
          then true
          else
            let next := drop_char at_start in
            alias_loop fuel'
              (before' +:+ String.substring 0 (String.length at_start - String.length next) at_start)
              next alias
      end
  end.

Definition contains_exact_alias (text alias : string) : bool :=
  if String.eqb alias "" then false else alias_loop (S (String.length text)) "" text alias.

(** ** Indexes *)

Record CompiledEntity := {
  ce_entity : SemanticEntity;
  ce_aliases : list string;
}.

Record TopicExemplar := {
  te_topic_id : string;
  te_exemplar : string;
  te_embedding : list f32;
  te_rerank_threshold : f32;
  te_require_entity_match : bool;
}.

Record CompiledProjectIndex := {
  ci_policy : ProjectSemanticPolicy;
  ci_entities : list CompiledEntity;
  ci_exemplars : list TopicExemplar;
  ci_stored_exemplar_count : Z;
}.

(** The exemplars of a policy with what their topic asks for. *)
Definition exemplar_meta (policy : ProjectSemanticPolicy) : list (string * string * f32 * bool) :=
  t ← sy_topics policy;
  (λ e, (to_topic_id t, e, to_rerank_threshold t, to_require_entity_match t)) <$> to_exemplars t.

Definition exemplar_texts (policy : ProjectSemanticPolicy) : list string :=
  (λ m : string * string * f32 * bool, normalize_text m.1.1.2) <$> exemplar_meta policy.

Definition compile_entity (entity : SemanticEntity) : CompiledEntity :=
  {| ce_entity := entity;
     ce_aliases := dedup (sort_by String.leb (normalize_text (en_name entity)
                     :: (normalize_text <$> en_aliases entity))) |}.

(** [zip]: what has no counterpart is dropped. *)
Definition compiled (policy : ProjectSemanticPolicy) (embeddings : list (list f32)) : CompiledProjectIndex :=
  let exemplars := zip_with (λ (m : string * string * f32 * bool) e,
    {| te_topic_id := m.1.1.1; te_exemplar := m.1.1.2; te_embedding := e;
       te_rerank_threshold := m.1.2; te_require_entity_match := m.2 |}) (exemplar_meta policy) embeddings in
  {| ci_policy := policy; ci_entities := compile_entity <$> sy_entities policy; ci_exemplars := exemplars;
     ci_stored_exemplar_count := Z.of_nat (length exemplars) |}.

(** The first alias of each entity that occurs in the text. *)
Definition find_entity_matches (index : CompiledProjectIndex) (text : string) : list (string * string) :=
  let normalized := normalize_text text in
  filter_map (λ e, pair (en_entity_id (ce_entity e)) <$> find_first (contains_exact_alias normalized) (ce_aliases e))
    (ci_entities index).

(** Single precision. *)
Definition f32_add : f32 → f32 → f32 := SFadd f32_prec f32_emax.
Definition f32_mul : f32 → f32 → f32 := SFmul f32_prec f32_emax.
Definition f32_div : f32 → f32 → f32 := SFdiv f32_prec f32_emax.
Definition f32_sqrt : f32 → f32 := SFsqrt f32_prec f32_emax.

(** [Iterator::sum] starts at minus zero. *)
Definition f32_sum (l : list f32) : f32 := foldl f32_add (S754_zero true) l.

Definition cosine_similarity (left right : list f32) : f32 :=
  if negb (Nat.eqb (length left) (length right)) || Nat.eqb (length left) 0 then f_zero
  else
    let dot := f32_sum (zip_with f32_mul left right) in
    let left_norm := f32_sqrt (f32_sum ((λ v, f32_mul v v) <$> left)) in
    let right_norm := f32_sqrt (f32_sum ((λ v, f32_mul v v) <$> right)) in
    if f_eq left_norm f_zero || f_eq right_norm f_zero then f_zero
    else f32_div dot (f32_mul left_norm right_norm).

(** Closest first; what does not compare counts as equal. *)
Definition closer (x y : TopicExemplar * f32) : bool :=
  match SFcompare y.2 x.2 with
  | Some Gt => false
  | _ => true
  end.

Definition ranked_exemplars (index : CompiledProjectIndex) (chunk_embedding : list f32) (top_k : Z)
    : list (TopicExemplar * f32) :=
  take (Z.to_nat (Z.max top_k 1))
    (sort_by closer ((λ e, (e, cosine_similarity chunk_embedding (te_embedding e))) <$> ci_exemplars index)).

Definition finding_of (chunk : Chunk) (entity_matches : list (string * string))
    (r : TopicExemplar * f32 * f32) : option Finding :=
  let '(exemplar, embedding_score, rerank_score) := r in
  if te_require_entity_match exemplar && bool_decide (entity_matches = []) then None
  else if f_lt rerank_score (te_rerank_threshold exemplar) then None
  else
    let entity := default ("", "") (head entity_matches) in
    Some {| fi_chunk_path := ck_path chunk; fi_entity_id := entity.1; fi_entity_text := entity.2;
            fi_topic_id := te_topic_id exemplar; fi_matched_exemplar := te_exemplar exemplar;
            fi_embedding_score := embedding_score; fi_rerank_score := rerank_score |}.

(** ** Files *)

Record PersistedProjectIndex := {
  pi_policy : ProjectSemanticPolicy;
  pi_exemplar_embeddings : list (list f32);
  pi_stored_exemplar_count : Z;
}.

(** The derived JSON form of an index. *)
Class IndexPayloads := {
  index_to_json : PersistedProjectIndex → result string string;
  index_from_json : string → result string PersistedProjectIndex;
}.

(** Paths and contents; [Some e] in [fs_faults] when the next call fails. *)
Record Files := {
  contents : gmap string string;
  fs_faults : list (option string);
}.

#[export] Instance Files_set : Settable Files := λ f,
  {| contents := contents f; fs_faults := fs_faults f |}.

Definition fs_call {A} (call : gmap string string → gmap string string * A) (f : Files)
    : Files * result string A :=
  match fs_faults f with
  | Some e :: rest => (f <| fs_faults := rest |>, Err e)
  | faults =>
      let '(m, a) := call (contents f) in
      (f <| contents := m |> <| fs_faults := tail faults |>, Ok a)
  end.

Record FileProjectIndexStore := {
  ix_root : string;
  ix_cache : gmap string PersistedProjectIndex;
  ix_files : Files;
}.

#[export] Instance FileProjectIndexStore_set : Settable FileProjectIndexStore := λ s,
  {| ix_root := ix_root s; ix_cache := ix_cache s; ix_files := ix_files s |}.

(** [Path::join]: an absolute path replaces the root. *)
Definition path_join (root name : string) : string :=
  if starts_with name "/" then name else root +:+ "/" +:+ name.

Definition path_for (s : FileProjectIndexStore) (project_id : string) : string :=
  path_join (ix_root s) (project_id +:+ ".json").

(** The files [read_dir] lists that end in [.json]: those directly under the
    root. *)
Definition is_index_file (root path : string) : bool :=
  match strip_prefix (root +:+ "/") path with
  | Some name => negb (contains name "/") && ends_with name ".json" && negb (String.eqb name ".json")
  | None => false
  end.

Notation StoreOp := (ST FileProjectIndexStore string).

Definition on_files {A} (call : gmap string string → gmap string string * A) : StoreOp A := λ s,
  let '(f, r) := fs_call call (ix_files s) in (s <| ix_files := f |>, r).

Section store.
Context `{IndexPayloads}.

Fixpoint read_entries (paths : list string) : StoreOp (list PersistedProjectIndex) :=
  match paths with
  | [] => mret []
  | path :: paths' =>
      bytes ← on_files (λ m, (m, default "" (m !! path)));
      match index_from_json bytes with
      | Err e => st_fail e
      | Ok record => rest ← read_entries paths'; mret (record :: rest)
      end
  end.

Definition load_all : StoreOp (list PersistedProjectIndex) :=
  s ← st_get;
  paths ← on_files (λ m, (m, filter (λ p, is_index_file (ix_root s) p = true) (map_to_list m).*1));
  entries ← read_entries paths;
  _ ← st_modify (λ s, s <| ix_cache := foldl (λ m e, <[sy_project_id (pi_policy e) := e]> m) ∅ entries |>);
  mret entries.

Definition store_upsert (index : PersistedProjectIndex) : StoreOp () :=
  s ← st_get;
  let path := path_for s (sy_project_id (pi_policy index)) in
  match index_to_json index with
  | Err e => st_fail e
  | Ok bytes =>
      _ ← on_files (λ m, (<[path := bytes]> m, ()));
      st_modify (λ s, s <| ix_cache := <[sy_project_id (pi_policy index) := index]> (ix_cache s) |>)
  end.

Definition store_delete (project_id : string) : StoreOp () :=
  s ← st_get;
  let path := path_for s project_id in
  _ ← (if bool_decide (is_Some (contents (ix_files s) !! path))
       then on_files (λ m, (delete path m, ())) else mret ());
  st_modify (λ s, s <| ix_cache := delete project_id (ix_cache s) |>).

Definition store_get (s : FileProjectIndexStore) (project_id : string) : option PersistedProjectIndex :=
  ix_cache s !! project_id.

(** ** The service *)

Context {B : Type} `{InferenceBackend B}.

Record SemanticServer := {
  sv_auth_token : option string;
  sv_store : FileProjectIndexStore;
  sv_backend : B;
  sv_indexes : gmap string CompiledProjectIndex;
  sv_metrics : option (list MetricEvent);
}.

#[global] Instance SemanticServer_set : Settable SemanticServer := λ s,
  {| sv_auth_token := sv_auth_token s; sv_store := sv_store s; sv_backend := sv_backend s;
     sv_indexes := sv_indexes s; sv_metrics := sv_metrics s |}.

Definition server_new (auth_token : option string) (store : FileProjectIndexStore) (backend : B) : SemanticServer :=
  {| sv_auth_token := auth_token; sv_store := store; sv_backend := backend; sv_indexes := ∅; sv_metrics := None |}.

Definition server_with_metrics (s : SemanticServer) : SemanticServer := s <| sv_metrics := Some [] |>.

Notation Call := (ST SemanticServer Status).
Notation Step := (ST SemanticServer string).

(** The store and the models, as parts of the service. *)
Definition in_store {A} (op : StoreOp A) : Step A := st_zoom sv_store (λ t s, s <| sv_store := t |>) op.

Definition in_backend {A} (call : B → B * result string A) : Step A :=
  st_zoom sv_backend (λ b s, s <| sv_backend := b |>) call.

(** [map_err(|error| Status::internal(error.to_string()))?] *)
Definition or_internal {A} (m : Step A) : Call A := λ s,
  let '(s, r) := m s in (s, match r with Ok a => Ok a | Err e => Err (Internal e) end).

Definition compile_policy (policy : ProjectSemanticPolicy) (exemplar_embeddings : option (list (list f32)))
    : Step CompiledProjectIndex :=
  let texts := exemplar_texts policy in
  embeddings ←
    (match exemplar_embeddings with
     | Some existing =>
         if Nat.eqb (length existing) (length texts) then mret existing
         else in_backend (λ b, embed_texts b texts)
     | None => in_backend (λ b, embed_texts b texts)
     end);
  mret (compiled policy embeddings).

Definition refresh_index_metrics : SemanticServer → SemanticServer := λ s,
  let gauge n v := {| me_metric := n; me_labels := []; me_update := SetGauge v |} in
  s <| sv_metrics :=
    report (gauge "indexed_exemplars" (foldl (λ n i, n + ci_stored_exemplar_count i)%Z 0%Z (map_to_list (sv_indexes s)).*2))
      (report (gauge "indexed_projects" (Z.of_nat (size (sv_indexes s)))) (sv_metrics s)) |>.

Definition observe_evaluate (outcome : string) (latency_ms : Z) : SemanticServer → SemanticServer := λ s,
  s <| sv_metrics :=
    report {| me_metric := "evaluate_latency_ms"; me_labels := [outcome]; me_update := Observe (f64_of_Z latency_ms) |}
      (report (inc "evaluate_requests_total" [outcome]) (sv_metrics s)) |>.

Fixpoint compile_all (records : list PersistedProjectIndex) : Step (list CompiledProjectIndex) :=
  match records with
  | [] => mret []
  | r :: records' =>
      c ← compile_policy (pi_policy r) (Some (pi_exemplar_embeddings r));
      rest ← compile_all records';
      mret (c :: rest)
  end.

Definition server_load_from_store : Step () :=
  records ← in_store load_all;
  indexes ← compile_all records;
  _ ← st_modify (λ s, s <| sv_indexes :=
        foldl (λ m c, <[sy_project_id (ci_policy c) := c]> m) ∅ indexes |>);
  st_modify refresh_index_metrics.

(** [authorization] is the header of the call, if it is text. *)
Definition authorize (authorization : option string) : Call () :=
  s ← st_get;
  match sv_auth_token s with
  | Some expected =>
      if String.eqb (default "" authorization) ("Bearer " +:+ expected) then mret ()
      else st_fail (Unauthenticated "invalid semantic safety token")
  | None => mret ()
  end.

(** *** Policies *)

Definition upsert_project_policy (authorization : option string) (policy : option ProjectSemanticPolicy)
    : Call (string * string) :=
  _ ← authorize authorization;
  match policy with
  | None => st_fail (InvalidArgument "policy is required")
  | Some policy =>
      index ← or_internal (compile_policy policy None);
      _ ← or_internal (in_store (store_upsert
            {| pi_policy := policy; pi_exemplar_embeddings := te_embedding <$> ci_exemplars index;
               pi_stored_exemplar_count := ci_stored_exemplar_count index |}));
      _ ← st_modify (λ s, s <| sv_indexes := <[sy_project_id policy := index]> (sv_indexes s) |>);
      _ ← st_modify refresh_index_metrics;
      mret (sy_project_id policy, sy_version policy)
  end.

Definition delete_project_policy (authorization : option string) (project_id : string) : Call () :=
  _ ← authorize authorization;
  _ ← or_internal (in_store (store_delete project_id));
  _ ← st_modify (λ s, s <| sv_indexes := delete project_id (sv_indexes s) |>);
  st_modify refresh_index_metrics.

Definition sync_state (index : CompiledProjectIndex) : ProjectSyncState :=
  {| st_project_id := sy_project_id (ci_policy index); st_policy_version := sy_version (ci_policy index);
     st_index_state := if sy_enabled (ci_policy index) then Ready else Disabled;
     st_updated_at := sy_updated_at (ci_policy index);
     st_stored_exemplar_count := ci_stored_exemplar_count index |}.

Definition get_project_sync_status (authorization : option string) (project_id : string)
    : Call ProjectSyncState :=
  _ ← authorize authorization;
  s ← st_get;
  mret (match sv_indexes s !! project_id with
        | Some index => sync_state index
        | None => {| st_project_id := project_id; st_policy_version := ""; st_index_state := Missing;
                     st_updated_at := ""; st_stored_exemplar_count := 0 |}
        end).

Definition list_project_sync_states (authorization : option string) : Call (list ProjectSyncState) :=
  _ ← authorize authorization;
  s ← st_get;
  mret (sort_by (λ x y, String.leb (st_project_id x) (st_project_id y))
          (sync_state <$> (map_to_list (sv_indexes s)).*2)).

Definition server_health (authorization : option string) : Call BackendHealth :=
  _ ← authorize authorization;
  s ← st_get;
  mret (backend_health (sv_backend s)).

(** *** Evaluation *)

Definition evaluate_chunk (index : CompiledProjectIndex) (chunk : Chunk) (chunk_embedding : list f32)
    (top_k : Z) : Step (list Finding) :=
  let entity_matches := find_entity_matches index (ck_text chunk) in
  let ranked := ranked_exemplars index chunk_embedding top_k in
  rerank_scores ← in_backend (λ b, rerank b (ck_text chunk) ((λ r : TopicExemplar * f32, te_exemplar r.1) <$> ranked));
  mret (filter_map (finding_of chunk entity_matches) (zip ranked rerank_scores)).

Fixpoint evaluate_chunks (index : CompiledProjectIndex) (chunks : list (Chunk * list f32)) (top_k : Z)
    : Step (list Finding) :=
  match chunks with
  | [] => mret []
  | (chunk, embedding) :: chunks' =>
      found ← evaluate_chunk index chunk embedding top_k;
      rest ← evaluate_chunks index chunks' top_k;
      mret (found ++ rest)
  end.

Definition build_evaluate_response (latency_ms : Z) (project_id policy_version : string)
    (findings : list Finding) (index_state : IndexState) (degraded_reason : string) : EvaluateResponse :=
  {| er_project_id := project_id; er_policy_version := policy_version; er_findings := findings;
     er_service_latency_ms := latency_ms; er_index_state := index_state;
     er_degraded_reason := degraded_reason |}.

(** What the models say of the chunks: the findings, or why there are none. *)
Definition assess (index : CompiledProjectIndex) (payload : EvaluateRequest) : Step (list Finding) := λ s,
  let texts := (λ c, normalize_text (ck_text c)) <$> eq_chunks payload in
  match in_backend (λ b, embed_texts b texts) s with
  | (s, Err e) => (s, Err ("embedding failed: " +:+ e))
  | (s, Ok embeddings) =>
      if negb (Nat.eqb (length embeddings) (length (eq_chunks payload))) then
        let n := pretty (length (eq_chunks payload)) in
        (s, Err ("embedding count mismatch: expected " +:+ n +:+ " embeddings for " +:+ n
                 +:+ " chunks, got " +:+ pretty (length embeddings)))
      else
        match evaluate_chunks index (zip (eq_chunks payload) embeddings) (eq_top_k payload) s with
        | (s, Err e) => (s, Err ("rerank failed: " +:+ e))
        | (s, Ok findings) => (s, Ok findings)
        end
  end.

(** [latency] is read once for the metrics and once for the answer. *)
Definition evaluate (latency : nat → Z) (authorization : option string) (payload : EvaluateRequest)
    : Call EvaluateResponse :=
  _ ← authorize authorization;
  s ← st_get;
  let answer (state : IndexState) project_id version findings reason : Call EvaluateResponse :=
    _ ← st_modify (observe_evaluate (index_state_name state) (latency 0%nat));
    mret (build_evaluate_response (latency 1%nat) project_id version findings state reason) in
  match sv_indexes s !! eq_project_id payload with
  | None => answer Missing (eq_project_id payload) (eq_policy_version payload) [] ""
  | Some index =>
      let project_id := sy_project_id (ci_policy index) in
      let version := sy_version (ci_policy index) in
      if negb (sy_enabled (ci_policy index)) then answer Disabled project_id version [] ""
      else
        let health := backend_health (sv_backend s) in
        λ s, match assess index payload s with
             | (s, Err e) => answer Degraded project_id version [] e s
             | (s, Ok findings) =>
                 if String.eqb version (eq_policy_version payload) then
                   if negb (bh_ready health)
                   then answer Degraded project_id version findings (bh_message health) s
                   else answer Ready project_id version findings "" s
                 else answer Stale project_id version findings "" s
             end
  end.

End store.
Arguments SemanticServer B : clear implicits.
