(* ===== verification/SemanticServiceProps.v ===== *)
(** * The semantic safety service: what is proved

    How aliases are found, what an evaluation may report, and what a restart
    brings back. *)

From S2P Require Import Prelude RecordSet RustStr Utf8 F64 Codec Json Sql StateResult Http Auth Plugin GatewayContext SemanticService.

Local Open Scope string_scope.
Local Open Scope list_scope.
Local Open Scope rust_scope.

(** ** Aliases *)

Lemma alias_loop_spec fuel before rest alias : alias ≠ "" → char_start alias = true →
  (String.length rest < fuel)%nat →
  alias_loop fuel before rest alias = true ↔
  ∃ p s, rest = p +:+ alias +:+ s ∧ at_boundary (last_byte (before +:+ p)) = true ∧
         at_boundary (first_byte s) = true.
Proof.
  intros Hne Hst. revert before rest. induction fuel as [|fuel IH]; intros before rest Hf; [lia|].
  cbn [alias_loop]. destruct (str_find alias rest) as [offset|] eqn:E.
  2:{ split; [done|]. intros (p & s & Er & _). by destruct (str_find_None _ _ E p s). }
  apply str_find_Some in E as (p0 & s0 & -> & <- & Hmin). rewrite substring_app, !str_drop_app.
  destruct (at_boundary (last_byte (before +:+ p0)) && at_boundary (first_byte s0)) eqn:Eb.
  { split; [intros _|done]. apply andb_true_iff in Eb as [? ?]. by exists p0, s0. }
  destruct alias as [|c alias]; [done|]. cbn [String.append drop_char].
  set (tail := alias +:+ s0). set (next := skip_continuation tail).
  destruct (skip_continuation_suffix tail) as [cut Ecut]. fold next in Ecut.
  assert (String.substring 0 (String.length (String c tail) - String.length next) (String c tail) = String c cut) as ->.
  { replace (String c tail) with ((String c cut) +:+ next) by (simpl; by rewrite <-Ecut).
    rewrite str_length_app, Nat.add_sub. apply substring_app. }
  assert (String.length tail = String.length cut + String.length next) as Hlen
    by (rewrite Ecut at 1; apply str_length_app).
  rewrite str_length_app in Hf. change (String.length (String c alias +:+ s0)) with (S (String.length tail)) in Hf.
  rewrite IH by lia. change (String c alias +:+ s0) with (String c tail). split.
  - intros (p & s & En & Hb & Hs). exists (p0 +:+ String c cut +:+ p), s. split_and!; [|..|done].
    + change (String c (alias +:+ s)) with (String c alias +:+ s).
      rewrite str_app_assoc. f_equal. simpl. f_equal. rewrite Ecut, En. simpl. by rewrite !str_app_assoc.
    + by rewrite !str_app_assoc in *.
  - intros (p & s & Ep & Hb & Hs). specialize (Hmin p s Ep).
    (* the occurrence is not the first one, so it is behind it *)
    assert (∃ p1, p = p0 +:+ p1) as [p1 ->].
    { exists (str_drop (String.length p0) p). clear -Ep Hmin. revert p Ep Hmin.
      induction p0 as [|a p0 IHp]; intros p Ep Hmin; [by destruct p|]. destruct p as [|b p]; simpl in *; [lia|].
      injection Ep as -> Ep. f_equal. apply IHp; [done|lia]. }
    rewrite str_app_assoc in Ep. apply str_app_inj_l in Ep. destruct p1 as [|c1 p1].
    { simpl in Ep. injection Ep as Ep. apply str_app_inj_l in Ep. subst s.
      rewrite str_app_nil_r in Hb. by rewrite Hb, Hs in Eb. }
    simpl in Ep. injection Ep as <- Ep.
    destruct (skip_continuation_app p1 (String c alias) s Hne Hst) as (cut' & q2 & -> & E2).
    exists q2, s. assert (next = q2 +:+ String c alias +:+ s) as En by (unfold next; by rewrite Ep).
    split_and!; [done|..|done]. assert (cut = cut') as ->.
    { assert (cut +:+ next = cut' +:+ next) as Ec
        by (etransitivity; [symmetry; exact Ecut|]; etransitivity; [exact Ep|]; rewrite En; apply str_app_assoc).
      assert (String.length cut = String.length cut') as Hl.
      { apply (f_equal String.length) in Ec. rewrite !str_length_app in Ec. lia. }
      by destruct (str_app_inj_len _ _ _ _ Hl Ec). }
    by rewrite !str_app_assoc in *.
Qed.

(** An alias is found exactly as a whole word: the search stops for every
    text, and finds the alias if and only if it occurs somewhere in the text with
    no letter or digit right before it or right behind it. *)
Theorem alias_match_exact text alias : char_start alias = true →
  contains_exact_alias text alias = true ↔
  alias ≠ "" ∧ ∃ before after, text = before +:+ alias +:+ after ∧
    at_boundary (last_byte before) = true ∧ at_boundary (first_byte after) = true.
Proof.
  intros Hst. unfold contains_exact_alias. destruct (String.eqb_spec alias "") as [->|Hne]; [naive_solver|].
  rewrite (alias_loop_spec _ "" text alias Hne Hst) by lia. simpl. naive_solver.
Qed.

Lemma alias_match_exact_witness : contains_exact_alias "the acme-corp." "acme" = true.
Proof.
  apply (alias_match_exact "the acme-corp." "acme"); [reflexivity|]. split; [done|].
  exists "the ", "-corp.". by vm_compute.
Defined.

(** ** Evaluations *)

Section service.
Context `{IndexPayloads} {B : Type} `{InferenceBackend B}.
Implicit Types s : SemanticServer B.

Lemma in_backend_eq {A} (call : B → B * result string A) s :
  in_backend call s = (s <| sv_backend := (call (sv_backend s)).1 |>, (call (sv_backend s)).2).
Proof. unfold in_backend, st_zoom. by destruct (call (sv_backend s)). Qed.

(** Everything but the models and the counters. *)
Definition same_service s s' : Prop :=
  sv_auth_token s' = sv_auth_token s ∧ sv_store s' = sv_store s ∧ sv_indexes s' = sv_indexes s.

(** A finding is about a chunk of the request and an exemplar of the index. *)
Definition backed (index : CompiledProjectIndex) (payload : EvaluateRequest) (f : Finding) : Prop :=
  ∃ chunk exemplar,
    chunk ∈ eq_chunks payload ∧ exemplar ∈ ci_exemplars index ∧
    fi_chunk_path f = ck_path chunk ∧ fi_topic_id f = te_topic_id exemplar ∧
    fi_matched_exemplar f = te_exemplar exemplar ∧
    f_lt (fi_rerank_score f) (te_rerank_threshold exemplar) = false ∧
    (te_require_entity_match exemplar = true →
     ∃ entity, entity ∈ ci_entities index ∧ en_entity_id (ce_entity entity) = fi_entity_id f ∧
       fi_entity_text f ∈ ce_aliases entity ∧
       contains_exact_alias (normalize_text (ck_text chunk)) (fi_entity_text f) = true).

Lemma entity_matches_spec index text id alias : (id, alias) ∈ find_entity_matches index text →
  ∃ entity, entity ∈ ci_entities index ∧ en_entity_id (ce_entity entity) = id ∧ alias ∈ ce_aliases entity ∧
    contains_exact_alias (normalize_text text) alias = true.
Proof.
  unfold find_entity_matches. intros (e & He & Hm)%list_elem_of_omap.
  destruct (find_first _ (ce_aliases e)) as [a|] eqn:E; [|done]. simpl in Hm. simplify_eq.
  apply find_first_In in E as [Ha Hc]. by exists e.
Qed.

Lemma finding_backed index payload chunk r f : chunk ∈ eq_chunks payload → r.1.1 ∈ ci_exemplars index →
  finding_of chunk (find_entity_matches index (ck_text chunk)) r = Some f → backed index payload f.
Proof.
  intros Hc He. destruct r as [[exemplar es] rs]. unfold finding_of. simpl in He.
  set (matches := find_entity_matches _ _).
  destruct (te_require_entity_match exemplar && _) eqn:Em; [done|].
  destruct (f_lt rs (te_rerank_threshold exemplar)) eqn:El; [done|].
  intros [= <-]. exists chunk, exemplar. simpl. split_and!; [done..|]. intros Hr. rewrite Hr in Em. simpl in Em.
  destruct matches as [|[id alias] rest] eqn:E; [done|]. simpl.
  apply (entity_matches_spec index (ck_text chunk)). fold matches. rewrite E. left.
Qed.

Lemma ranked_in index e k r : r ∈ ranked_exemplars index e k → r.1 ∈ ci_exemplars index.
Proof.
  unfold ranked_exemplars. intros (i & Hr & _)%elem_of_take.
  apply list_elem_of_lookup_2 in Hr. rewrite sort_by_elem_of in Hr.
  by apply list_elem_of_fmap in Hr as (x & -> & Hx).
Qed.

Lemma ranked_count index e k : (length (ranked_exemplars index e k) ≤ Z.to_nat (Z.max k 1))%nat.
Proof. unfold ranked_exemplars. rewrite length_take. lia. Qed.

(** One chunk, all chunks, and the whole request. *)
Lemma preserves_backend {A} (P : SemanticServer B → Prop) (call : B → B * result string A) :
  (∀ s b, P s → P (s <| sv_backend := b |>)) → preserves P (in_backend call).
Proof. intros HP s Hs. rewrite in_backend_eq. by apply HP. Qed.

Lemma chunks_preserve (P : SemanticServer B → Prop) index k chunks :
  (∀ s b, P s → P (s <| sv_backend := b |>)) → preserves P (evaluate_chunks index chunks k).
Proof.
  intros HP. induction chunks as [|[c e] chunks IH]; cbn [evaluate_chunks]; [auto with trp|].
  apply preserves_bind; [|intros; apply preserves_bind; auto with trp].
  apply preserves_bind; [by apply preserves_backend|auto with trp].
Qed.

Lemma assess_preserves (P : SemanticServer B → Prop) index payload :
  (∀ s b, P s → P (s <| sv_backend := b |>)) → preserves P (assess index payload).
Proof.
  intros HP s Hs. unfold assess. rewrite in_backend_eq. destruct (embed_texts _ _) as [b [es|e]]; simpl; [|by apply HP].
  destruct (negb _); [by apply HP|].
  pose proof (chunks_preserve P index (eq_top_k payload) (zip (eq_chunks payload) es) HP (s <| sv_backend := b |>) (HP _ _ Hs)) as Hc.
  cbn in Hc |- *. by destruct (evaluate_chunks _ _ _ _) as [? [?|?]].
Qed.

Lemma evaluate_chunks_ok index payload k chunks s s' found : (∀ c, c ∈ chunks → c.1 ∈ eq_chunks payload) →
  evaluate_chunks index chunks k s = (s', Ok found) →
  Forall (backed index payload) found ∧ (length found ≤ length chunks * Z.to_nat (Z.max k 1))%nat.
Proof.
  revert s found. induction chunks as [|[c e] chunks IH]; intros s found Hc; cbn [evaluate_chunks].
  - intros [= <- <-]. split; [done|]. simpl. lia.
  - intros (s1 & f1 & E1 & (s2 & f2 & E2 & E3)%ST_bind_ok)%ST_bind_ok. injection E3 as <- <-.
    unfold evaluate_chunk in E1. apply ST_bind_ok in E1 as (s3 & scores & _ & E1). injection E1 as _ <-.
    apply IH in E2 as (H2 & L2); [|intros x Hx; apply Hc; by right]. split.
    + apply Forall_app_2; [|done]. apply Forall_forall. intros f (r & Hr & Hf)%list_elem_of_omap.
      eapply finding_backed; [apply (Hc (c, e)); left| |done]. destruct r as [r rs].
      apply elem_of_zip_l in Hr. simpl. by eapply ranked_in.
    + rewrite length_app. simpl. apply Nat.add_le_mono; [|done].
      etransitivity; [apply filter_map_length|]. rewrite length_zip_with. pose proof (ranked_count index e k). lia.
Qed.

Lemma assess_ok index payload s s' found : assess index payload s = (s', Ok found) →
  Forall (backed index payload) found ∧
  (length found ≤ length (eq_chunks payload) * Z.to_nat (Z.max (eq_top_k payload) 1))%nat.
Proof.
  unfold assess. rewrite in_backend_eq. destruct (embed_texts _ _) as [b [es|e]]; simpl; [|done].
  destruct (negb _) eqn:El; [done|]. apply negb_false_iff, Nat.eqb_eq in El.
  destruct (evaluate_chunks _ _ _ _) as [s2 [f|e]] eqn:E; [|done]. intros [= _ <-].
  apply (evaluate_chunks_ok _ payload) in E as [? Hl]; [|intros [c x] Hx; by apply elem_of_zip_l in Hx].
  split; [done|]. rewrite length_zip_with in Hl. nia.
Qed.

(** The caller shows the token, if one is configured. *)
Definition admits s (auth : option string) : Prop :=
  match sv_auth_token s with
  | Some t => auth = Some ("Bearer " +:+ t)
  | None => True
  end.

#[global] Instance admits_dec s auth : Decision (admits s auth).
Proof. unfold admits. destruct (sv_auth_token s); apply _. Defined.

Lemma authorize_spec auth s : (authorize auth : ST (SemanticServer B) Status ()) s =
  (s, if decide (admits s auth) then Ok () else Err (Unauthenticated "invalid semantic safety token")).
Proof.
  unfold authorize. erewrite ST_bind_step; [|reflexivity]. cbv beta iota.
  destruct (decide _) as [D|D]; unfold admits in D; destruct (sv_auth_token s) as [t|]; try done.
  - subst auth. unfold default, from_option, id. by rewrite String.eqb_refl.
  - destruct (String.eqb_spec (default "" auth) ("Bearer " +:+ t)) as [E|E]; [|done].
    exfalso. apply D. destruct auth as [a|]; simpl in *; [by subst|done].
Qed.
End service.

(** Every finding of an evaluation is backed: the service answers with
    findings only for a project whose index is there and enabled, and each of them
    is about a chunk of the request and an exemplar of a topic of that index,
    scored no lower than the threshold of the topic, and, where the topic asks for
    an entity, with an alias of an entity of the project that stands in the chunk
    as a whole word; there are at most [top_k] (or one) for each chunk.  What the
    models answer, or that they fail, changes neither indexes nor files. *)
Theorem findings_are_backed `{IndexPayloads} {B} `{InferenceBackend B} latency auth payload
    (s s' : SemanticServer B) r :
  evaluate latency auth payload s = (s', r) →
  sv_store s' = sv_store s ∧ sv_indexes s' = sv_indexes s ∧
  (¬ admits s auth ∧ r = Err (Unauthenticated "invalid semantic safety token") ∨
   ∃ resp, admits s auth ∧ r = Ok resp ∧
     (er_index_state resp = Missing ↔ sv_indexes s !! eq_project_id payload = None) ∧
     (length (er_findings resp) ≤ length (eq_chunks payload) * Z.to_nat (Z.max (eq_top_k payload) 1))%nat ∧
     ∀ f, f ∈ er_findings resp → ∃ index,
       sv_indexes s !! eq_project_id payload = Some index ∧ sy_enabled (ci_policy index) = true ∧
       backed index payload f).
Proof.
  unfold evaluate. intros E. erewrite ST_bind_step in E; [|apply authorize_spec].
  destruct (decide _) as [Ha|Ha]; [|injection E as <- <-; split_and!; [done..|by left]].
  erewrite ST_bind_step in E; [|reflexivity]. cbn beta iota zeta in E.
  destruct (sv_indexes s !! eq_project_id payload) as [index|] eqn:Ei.
  2:{ injection E as <- <-. split_and!; [done..|]. right. eexists. split_and!; [done|done|naive_solver|simpl; lia|set_solver]. }
  destruct (sy_enabled (ci_policy index)) eqn:En; simpl in E.
  2:{ injection E as <- <-. split_and!; [done..|]. right. eexists. split_and!; [done|done|naive_solver|simpl; lia|set_solver]. }
  pose proof (assess_preserves (same_service s) index payload ltac:(done) s ltac:(done)) as Hsame.
  destruct (assess index payload s) as [s1 [found|e]] eqn:Ea; cbn in Hsame; destruct Hsame as (_ & Hst & Hix).
  - apply assess_ok in Ea as [Hb Hl]. rewrite Forall_forall in Hb.
    assert (sv_store s' = sv_store s1 ∧ sv_indexes s' = sv_indexes s1 ∧ ∃ resp, r = Ok resp ∧
      er_index_state resp ≠ Missing ∧ er_findings resp = found) as (-> & -> & resp & -> & Hm & <-).
    { destruct (String.eqb _ _); [destruct (negb _)|]; injection E as <- <-;
      (split; [reflexivity|split; [reflexivity|]]); eexists; (split; [reflexivity|split; [discriminate|reflexivity]]). }
    split_and!; [done..|]. right. exists resp. split_and!; [done|done|naive_solver|done|]. intros f Hf. exists index. auto.
  - injection E as <- <-. split_and!; [done..|]. right. eexists. split_and!; [done|done|naive_solver|simpl; lia|set_solver].
Qed.

(** ** Restarts *)

(** An id that is a file name. *)
Definition plain_id (id : string) : bool := negb (contains id "/") && negb (String.eqb id "").

Definition file_of (root id : string) : string := root +:+ "/" +:+ id +:+ ".json".

#[export] Instance file_of_inj root : Inj (=) (=) (file_of root).
Proof.
  intros x y E%str_app_inj_l. change ("/" +:+ x +:+ ".json" = "/" +:+ y +:+ ".json") in E.
  apply str_app_inj_l in E. apply (f_equal String.length) in E as El. rewrite !str_length_app in El.
  destruct (str_app_inj_len x ".json" y ".json" ltac:(lia) E). done.
Qed.

Lemma plain_path (store : FileProjectIndexStore) id : plain_id id = true →
  path_for store id = file_of (ix_root store) id.
Proof.
  unfold plain_id, path_for, path_join. intros [Hs _]%andb_true_iff.
  destruct (starts_with (id +:+ ".json") "/") eqn:E; [|done]. exfalso.
  apply starts_with_spec in E as [r E]. destruct id as [|c id]; [done|]. injection E as -> _.
  by rewrite contains_char_cons in Hs.
Qed.

Lemma plain_listed root id : plain_id id = true → is_index_file root (file_of root id) = true.
Proof.
  unfold plain_id, is_index_file, file_of. intros [Hs Hn]%andb_true_iff.
  rewrite (proj2 (strip_prefix_Some (root +:+ "/") _ (id +:+ ".json"))) by (by rewrite str_app_assoc).
  rewrite contains_char_app, ends_with_app. apply negb_true_iff in Hs. rewrite Hs. simpl.
  destruct id as [|c id]; [done|]. apply negb_true_iff, String.eqb_neq. intros E.
  apply (f_equal String.length) in E. simpl in E. rewrite str_length_app in E. simpl in E. lia.
Qed.

(** What is documented of the serialiser and asked of the models: reading an
    index gives back what was written, if its numbers are numbers, and a call
    embeds each text into a vector of numbers. *)
Definition is_number (x : spec_float) : bool :=
  match x with S754_nan | S754_infinity _ => false | _ => true end.

Definition numbers (i : PersistedProjectIndex) : Prop :=
  Forall (Forall (λ x, is_number x = true)) (pi_exemplar_embeddings i) ∧
  Forall (λ t, is_number (to_rerank_threshold t) = true) (sy_topics (pi_policy i)).

Class IndexPayloadLaws `{IndexPayloads} : Prop :=
  index_round_trip i t : numbers i → index_to_json i = Ok t → index_from_json t = Ok i.

Class BackendLaws (B : Type) `{InferenceBackend B} : Prop :=
  embeds_each (b : B) texts b' es : embed_texts b texts = (b', Ok es) →
    length es = length texts ∧ Forall (Forall (λ x, is_number x = true)) es.

Section restart.
Context `{IndexPayloads, !IndexPayloadLaws} {B : Type} `{InferenceBackend B, !BackendLaws B}.
Implicit Types s : SemanticServer B.

(** The calls of the service, with the token each shows. *)
Inductive SvcCall :=
| CallUpsert (auth : option string) (policy : option ProjectSemanticPolicy)
| CallDelete (auth : option string) (project_id : string)
| CallEvaluate (latency : nat → Z) (auth : option string) (payload : EvaluateRequest).

Definition svc_call (c : SvcCall) s : SemanticServer B :=
  match c with
  | CallUpsert auth policy => (upsert_project_policy auth policy s).1
  | CallDelete auth project_id => (delete_project_policy auth project_id s).1
  | CallEvaluate latency auth payload => (evaluate latency auth payload s).1
  end.

Definition plain_call (c : SvcCall) : Prop :=
  match c with
  | CallUpsert _ (Some policy) =>
      plain_id (sy_project_id policy) = true ∧ Forall (λ t, is_number (to_rerank_threshold t) = true) (sy_topics policy)
  | CallDelete _ project_id => plain_id project_id = true
  | _ => True
  end.

Definition persisted (c : CompiledProjectIndex) : PersistedProjectIndex :=
  {| pi_policy := ci_policy c; pi_exemplar_embeddings := te_embedding <$> ci_exemplars c;
     pi_stored_exemplar_count := ci_stored_exemplar_count c |}.

Definition text_of (c : CompiledProjectIndex) : string :=
  match index_to_json (persisted c) with Ok t => t | Err _ => "" end.

(** An index the service compiled and wrote. *)
Record index_ok (id : string) (c : CompiledProjectIndex) : Prop := {
  ok_id : sy_project_id (ci_policy c) = id;
  ok_plain : plain_id id = true;
  ok_text : index_to_json (persisted c) = Ok (text_of c);
  ok_count : length (ci_exemplars c) = length (exemplar_texts (ci_policy c));
  ok_compiled : c = compiled (ci_policy c) (te_embedding <$> ci_exemplars c);
  ok_numbers : numbers (persisted c);
}.

(** The files are the indexes in use. *)
Record mirrored s : Prop := {
  mi_indexes : map_Forall index_ok (sv_indexes s);
  mi_files : contents (ix_files (sv_store s)) = kmap (file_of (ix_root (sv_store s))) (text_of <$> sv_indexes s);
}.

Lemma compiled_spec policy es : length es = length (exemplar_texts policy) →
  length (ci_exemplars (compiled policy es)) = length (exemplar_texts policy) ∧
  te_embedding <$> ci_exemplars (compiled policy es) = es.
Proof.
  unfold compiled, exemplar_texts. rewrite length_fmap. simpl. generalize (exemplar_meta policy). intros l Hl. split.
  - rewrite length_zip_with. lia.
  - revert l Hl. induction es as [|e es IH]; intros [|m l] Hl; simpl in *; try done. f_equal. apply IH. lia.
Qed.

Lemma mirrored_same s s' : mirrored s → sv_store s' = sv_store s → sv_indexes s' = sv_indexes s → mirrored s'.
Proof. intros [??] Es Ei. by split; rewrite ?Es, ?Ei. Qed.

Lemma fs_call_spec {A} (call : gmap string string → gmap string string * A) (f : Files) :
  (∃ e rest, fs_call call f = (f <| fs_faults := rest |>, Err e)) ∨
  (∃ f', contents f' = (call (contents f)).1 ∧ fs_call call f = (f', Ok (call (contents f)).2)).
Proof.
  unfold fs_call. destruct (fs_faults f) as [|[e|] rest]; [right| |right]; [|left; eauto|];
    destruct (call (contents f)) as [m a]; eexists; split; try reflexivity; done.
Qed.

Lemma store_upsert_spec (t t' : FileProjectIndexStore) i r : store_upsert i t = (t', r) →
  ix_root t' = ix_root t ∧
  match r with
  | Err _ => contents (ix_files t') = contents (ix_files t)
  | Ok _ => ∃ text, index_to_json i = Ok text ∧
      contents (ix_files t') = <[path_for t (sy_project_id (pi_policy i)) := text]> (contents (ix_files t))
  end.
Proof.
  clear dependent B. unfold store_upsert. erewrite ST_bind_step by reflexivity. cbv beta iota zeta.
  destruct (index_to_json i) as [text|e] eqn:E; [|by intros [= <- <-]].
  unfold mbind, ST_bind, on_files.
  destruct (fs_call_spec (λ m, (<[path_for t (sy_project_id (pi_policy i)) := text]> m, ())) (ix_files t))
    as [(e & rest & ->)|(f' & Ef & ->)]; intros [= <- <-]; (split; [done|]); [done|].
  exists text. done.
Qed.

Lemma store_delete_spec (t t' : FileProjectIndexStore) id r : store_delete id t = (t', r) →
  ix_root t' = ix_root t ∧
  contents (ix_files t') = match r with
                           | Err _ => contents (ix_files t)
                           | Ok _ => delete (path_for t id) (contents (ix_files t))
                           end.
Proof.
  clear dependent B. unfold store_delete. erewrite ST_bind_step by reflexivity. cbv beta iota zeta.
  case_bool_decide as Hp; unfold mbind, ST_bind, on_files.
  - destruct (fs_call_spec (λ m, (delete (path_for t id) m, ())) (ix_files t))
      as [(e & rest & ->)|(f' & Ef & ->)]; intros [= <- <-]; (split; [done|]); done.
  - intros [= <- <-]. split; [done|]. simpl. rewrite delete_id; [done|]. by apply eq_None_not_Some.
Qed.

Lemma svc_upsert_mirrored auth policy s : plain_call (CallUpsert auth policy) → mirrored s →
  mirrored (svc_call (CallUpsert auth policy) s).
Proof.
  intros Hplain Hm. simpl. unfold upsert_project_policy.
  erewrite ST_bind_step by apply authorize_spec. destruct (decide _); [|done]. cbv beta iota.
  destruct policy as [policy|]; [|done]. destruct Hplain as [Hid Hnum].
  assert (or_internal (compile_policy policy None) s =
    (s <| sv_backend := (embed_texts (sv_backend s) (exemplar_texts policy)).1 |>,
     match (embed_texts (sv_backend s) (exemplar_texts policy)).2 with
     | Ok es => Ok (compiled policy es) | Err e => Err (Internal e) end)) as Ec.
  { unfold or_internal, compile_policy, mbind, ST_bind. rewrite in_backend_eq.
    by destruct (embed_texts _ _) as [? [?|?]]. }
  erewrite ST_bind_step by apply Ec. destruct (embed_texts _ _) as [b [es|e]] eqn:Ee; cbv beta iota zeta; cbn [fst snd].
  2:{ by apply (mirrored_same s). }
  set (s1 := s <| sv_backend := b |>). destruct (compiled_spec policy es) as [Hcount Hes];
    [by destruct (embeds_each _ _ _ _ Ee)|].
  set (c := compiled policy es) in *. set (i := Build_PersistedProjectIndex _ _ _).
  assert (i = persisted c) as -> by done.
  unfold or_internal at 1, in_store, st_zoom. unfold mbind at 1, ST_bind at 1.
  destruct (store_upsert (persisted c) (sv_store s1)) as [t r] eqn:Et.
  destruct (store_upsert_spec _ _ _ _ Et) as [Hroot Hr]. destruct r as [[]|e]; simpl.
  2:{ split; simpl; [apply Hm|]. rewrite Hr, Hroot. apply Hm. }
  destruct Hr as (text & Etext & Hc). assert (text_of c = text) as Htext by (unfold text_of; by rewrite Etext).
  split; simpl.
  - apply map_Forall_insert_2; [|apply Hm]. split; [done|done|by rewrite Htext|done| |].
    + exact (eq_sym (f_equal (compiled policy) Hes)).
    + split; [|done]. change (Forall (Forall (λ x, is_number x = true)) (te_embedding <$> ci_exemplars c)).
      rewrite Hes. by destruct (embeds_each _ _ _ _ Ee).
  - rewrite Hc, Hroot, fmap_insert, (kmap_insert (file_of _)), Htext. f_equal; [by apply plain_path|]. apply Hm.
Qed.

Lemma svc_delete_mirrored auth id s : plain_id id = true → mirrored s → mirrored (svc_call (CallDelete auth id) s).
Proof.
  intros Hid Hm. simpl. unfold delete_project_policy.
  erewrite ST_bind_step by apply authorize_spec. destruct (decide _); [|done]. cbv beta iota.
  unfold or_internal at 1, in_store, st_zoom. unfold mbind at 1, ST_bind at 1.
  destruct (store_delete id (sv_store s)) as [t r] eqn:Et.
  destruct (store_delete_spec _ _ _ _ Et) as [Hroot Hr]. destruct r as [[]|e]; simpl.
  2:{ split; simpl; [apply Hm|]. rewrite Hr, Hroot. apply Hm. }
  split; simpl.
  - apply map_Forall_delete, Hm.
  - rewrite Hr, Hroot, fmap_delete, (kmap_delete (file_of _)). f_equal; [by apply plain_path|]. apply Hm.
Qed.

Lemma evaluate_same latency auth payload s : same_service s (svc_call (CallEvaluate latency auth payload) s).
Proof.
  simpl. unfold evaluate. erewrite ST_bind_step by apply authorize_spec. destruct (decide _); [|done]. cbv beta iota.
  erewrite ST_bind_step by reflexivity. cbv beta iota zeta.
  destruct (sv_indexes s !! _) as [index|]; [|done]. destruct (negb _); [done|].
  pose proof (assess_preserves (same_service s) index payload ltac:(done) s ltac:(done)) as Hsame.
  destruct (assess index payload s) as [s1 [found|e]]; [|done].
  destruct (String.eqb _ _); [destruct (negb _)|]; done.
Qed.

Lemma call_mirrored c s : plain_call c → mirrored s → mirrored (svc_call c s).
Proof.
  destruct c as [auth policy|auth id|latency auth payload]; intros Hp Hm.
  - by apply svc_upsert_mirrored.
  - by apply svc_delete_mirrored.
  - destruct (evaluate_same latency auth payload s) as (_ & ? & ?). by apply (mirrored_same s).
Qed.

(** *** Loading *)

Lemma read_entries_ok (l : list CompiledProjectIndex) (t : FileProjectIndexStore) :
  fs_faults (ix_files t) = [] → Forall (λ c, index_ok (sy_project_id (ci_policy c)) c) l →
  (∀ c, c ∈ l → contents (ix_files t) !! file_of (ix_root t) (sy_project_id (ci_policy c)) = Some (text_of c)) →
  read_entries ((λ c, file_of (ix_root t) (sy_project_id (ci_policy c))) <$> l) t = (t, Ok (persisted <$> l)).
Proof.
  intros Hf. induction l as [|c l IH]; intros Hok Hl; [done|]. apply Forall_cons in Hok as [Hc Hok].
  csimpl. cbn [read_entries]. assert (∀ g : gmap string string → string,
    on_files (λ m, (m, g m)) t = (t, Ok (g (contents (ix_files t))))) as Hread.
  { intros g. unfold on_files, fs_call. rewrite Hf. destruct t as [? ? [? ?]]. simpl in *. by subst. }
  erewrite ST_bind_step by apply Hread. cbv beta iota. rewrite (Hl c) by left. simpl.
  rewrite (index_round_trip _ _ (ok_numbers _ _ Hc) (ok_text _ _ Hc)).
  erewrite ST_bind_step by (apply IH; [done|intros; apply Hl; by right]). done.
Qed.

Lemma compile_all_ok (l : list CompiledProjectIndex) s : Forall (λ c, index_ok (sy_project_id (ci_policy c)) c) l →
  compile_all (persisted <$> l) s = (s, Ok l).
Proof.
  induction l as [|c l IH]; intros Hok; [done|]. apply Forall_cons in Hok as [Hc Hok]. csimpl. cbn [compile_all].
  assert (compile_policy (ci_policy c) (Some (te_embedding <$> ci_exemplars c)) s = (s, Ok c)) as Ec.
  { unfold compile_policy. rewrite length_fmap, (ok_count _ _ Hc), Nat.eqb_refl.
    erewrite ST_bind_step by reflexivity. unfold mret, ST_ret. by rewrite <-(ok_compiled _ _ Hc). }
  erewrite ST_bind_step by apply Ec. cbv beta iota. erewrite ST_bind_step by by apply IH. done.
Qed.

(** The service after a restart on the same folder, which answers again. *)
Definition restarted s (b : B) : SemanticServer B :=
  server_new (sv_auth_token s)
    {| ix_root := ix_root (sv_store s); ix_cache := ∅;
       ix_files := {| contents := contents (ix_files (sv_store s)); fs_faults := [] |} |} b.

Lemma svc_load_mirrored s b : mirrored s →
  ∃ s', server_load_from_store (restarted s b) = (s', Ok ()) ∧ sv_indexes s' = sv_indexes s.
Proof.
  intros [Hix Hfiles]. set (root := ix_root (sv_store s)) in *.
  assert (filed (λ c, sy_project_id (ci_policy c)) (sv_indexes s)) as Hfiled.
  { intros id c Hc. by destruct (Hix id c Hc). }
  assert (Forall (λ c, index_ok (sy_project_id (ci_policy c)) c) (rows (sv_indexes s))) as Hrows.
  { apply Forall_forall. intros c Hc. rewrite (elem_of_rows_filed _ _ _ Hfiled) in Hc. by apply Hix. }
  set (t := sv_store (restarted s b)). set (m := contents (ix_files (sv_store s))) in *.
  set (paths := filter (λ p, is_index_file root p = true) (map_to_list m).*1).
  assert (paths ≡ₚ (λ c, file_of root (sy_project_id (ci_policy c))) <$> rows (sv_indexes s)) as Hpaths.
  { unfold paths. rewrite Hfiles, (map_to_list_kmap (file_of root)), map_to_list_fmap.
    unfold rows. rewrite <-!list_fmap_compose. rewrite filter_true_id.
    - apply reflexive_eq. apply list_fmap_ext. intros i [id c] Hc. simpl. apply list_elem_of_lookup_2 in Hc.
      apply elem_of_map_to_list in Hc. by rewrite (Hfiled _ _ Hc).
    - intros p ([id c] & -> & Hc%elem_of_map_to_list)%list_elem_of_fmap. simpl.
      apply plain_listed, (Hix id c Hc). }
  apply Permutation_map_inv in Hpaths as (l & Hl & Hperm).
  assert (Forall (λ c, index_ok (sy_project_id (ci_policy c)) c) l) as Hok by by rewrite <-Hperm.
  assert (read_entries paths t = (t, Ok (persisted <$> l))) as Hread.
  { rewrite Hl. apply (read_entries_ok l t); [done|done|]. intros c Hc. rewrite <-Hperm, (elem_of_rows_filed _ _ _ Hfiled) in Hc.
    change (contents (ix_files t)) with m. rewrite Hfiles. change (ix_root t) with root.
    rewrite (lookup_kmap (file_of root)), lookup_fmap, Hc. done. }
  assert (∃ t', load_all t = (t', Ok (persisted <$> l))) as [t' Hload].
  { unfold load_all. erewrite ST_bind_step by reflexivity. cbv beta iota zeta.
    erewrite (ST_bind_step _ _ t t) by reflexivity. cbv beta iota. eexists.
    erewrite ST_bind_step by exact Hread. reflexivity. }
  unfold server_load_from_store. eexists. erewrite ST_bind_step.
  2:{ unfold in_store, st_zoom. change (sv_store (restarted s b)) with t. rewrite Hload. reflexivity. }
  cbv beta iota. erewrite ST_bind_step by by apply compile_all_ok. cbv beta iota. split; [reflexivity|]. simpl.
  by apply insert_all_rows.
Qed.
End restart.

(** A restart brings the indexes back.  Whatever policies are written and
    deleted and whatever is evaluated, with any token, with files that cannot be
    written and models that fail, a service started again on the folder loads
    without an error and holds exactly the indexes the old one held, embeddings
    included, for projects whose ids are file names and models that embed each
    text into numbers. *)
Theorem indexes_survive_restart `{IndexPayloads, !IndexPayloadLaws} {B} `{InferenceBackend B, !BackendLaws B}
    (token : option string) (root : string) (faults : list (option string)) (b b' : B) calls :
  Forall plain_call calls →
  let s := foldl (λ s c, svc_call c s)
    (server_new token {| ix_root := root; ix_cache := ∅;
                         ix_files := {| contents := ∅; fs_faults := faults |} |} b) calls in
  ∃ s', server_load_from_store (restarted s b') = (s', Ok ()) ∧ sv_indexes s' = sv_indexes s.
Proof.
  intros Hcalls s. apply svc_load_mirrored. unfold s. clear s.
  assert (∀ s : SemanticServer B, mirrored s → mirrored (foldl (λ s c, svc_call c s) s calls)) as Hrun.
  { induction Hcalls as [|c calls Hc _ IH]; intros s Hs; [done|]. simpl. apply IH. by apply call_mirrored. }
  apply Hrun. split; simpl; [apply map_Forall_empty|]. rewrite fmap_empty. symmetry. apply (kmap_empty (file_of root)).
Qed.

(** ** Examples *)

Module ServiceDemo.

#[export] Instance SemanticEntity_eq_dec : EqDecision SemanticEntity.
Proof. solve_decision. Defined.

#[export] Instance SemanticEntity_countable : Countable SemanticEntity.
Proof.
  refine (inj_countable' (λ e, (en_entity_id e, en_name e, en_aliases e)) (λ '(a, b, c), Build_SemanticEntity a b c) _).
  by intros [].
Defined.

#[export] Instance SemanticTopic_eq_dec : EqDecision SemanticTopic.
Proof. solve_decision. Defined.

#[export] Instance SemanticTopic_countable : Countable SemanticTopic.
Proof.
  refine (inj_countable'
    (λ t, (to_topic_id t, to_name t, to_exemplars t, to_rerank_threshold t, to_require_entity_match t))
    (λ '(a, b, c, d, e), Build_SemanticTopic a b c d e) _).
  by intros [].
Defined.

#[export] Instance ProjectSemanticPolicy_eq_dec : EqDecision ProjectSemanticPolicy.
Proof. solve_decision. Defined.

#[export] Instance ProjectSemanticPolicy_countable : Countable ProjectSemanticPolicy.
Proof.
  refine (inj_countable'
    (λ p, (sy_project_id p, sy_version p, sy_enabled p, sy_entities p, sy_topics p, sy_updated_at p))
    (λ '(a, b, c, d, e, f), Build_ProjectSemanticPolicy a b c d e f) _).
  by intros [].
Defined.

#[export] Instance PersistedProjectIndex_eq_dec : EqDecision PersistedProjectIndex.
Proof. solve_decision. Defined.

#[export] Instance PersistedProjectIndex_countable : Countable PersistedProjectIndex.
Proof.
  refine (inj_countable' (λ i, (pi_policy i, pi_exemplar_embeddings i, pi_stored_exemplar_count i))
    (λ '(a, b, c), Build_PersistedProjectIndex a b c) _).
  by intros [].
Defined.

#[export] Instance numbers_dec i : Decision (numbers i).
Proof. unfold numbers. apply _. Defined.

(** A text for each index of numbers; what is not a number is written as
    [null], which is not read back. *)
#[export] Instance payloads : IndexPayloads := {|
  index_to_json i := Ok (if decide (numbers i) then to_text i else "null");
  index_from_json t := if String.eqb t "null" then Err "invalid type: null, expected f32" else of_text t;
|}.

#[export] Instance payloads_laws : IndexPayloadLaws.
Proof.
  intros i t Hi [= <-]. rewrite decide_True by done. cbn.
  destruct (String.eqb_spec (to_text i) "null") as [E|_]; [|apply of_to_text].
  exfalso. unfold to_text in E. by destruct (encode i).
Qed.

(** Models that find every text alike. *)
Definition one : f32 := binary_normalize f32_prec f32_emax 1 0 false.

#[export] Instance models : InferenceBackend () := {|
  embed_texts _ texts := ((), Ok ((λ _, [one]) <$> texts));
  rerank _ _ exemplars := ((), Ok ((λ _, one) <$> exemplars));
  backend_health _ := {| bh_ready := true; bh_backend := "demo"; bh_message := "" |};
|}.

#[export] Instance models_laws : BackendLaws ().
Proof.
  intros b texts b' es [= _ <-]. rewrite length_fmap. split; [done|].
  apply Forall_fmap, Forall_forall. intros x _. by constructor.
Qed.

Definition topic (threshold : f32) : SemanticTopic :=
  {| to_topic_id := "leaks"; to_name := "Leaks"; to_exemplars := ["our roadmap"];
     to_rerank_threshold := threshold; to_require_entity_match := true |}.

Definition policy (id : string) (threshold : f32) : ProjectSemanticPolicy :=
  {| sy_project_id := id; sy_version := "1"; sy_enabled := true;
     sy_entities := [{| en_entity_id := "acme"; en_name := "Acme"; en_aliases := ["acme corp"] |}];
     sy_topics := [topic threshold]; sy_updated_at := "5" |}.

Definition start : SemanticServer () :=
  server_new (Some "secret")
    {| ix_root := "data"; ix_cache := ∅; ix_files := {| contents := ∅; fs_faults := [] |} |} ().

Definition auth : option string := Some "Bearer secret".

Definition after (calls : list SvcCall) : SemanticServer () := foldl (λ s c, svc_call c s) start calls.

Definition request (id text : string) : EvaluateRequest :=
  {| eq_project_id := id; eq_policy_version := "1"; eq_request_id := "r"; eq_path := "/v1"; eq_model := "m";
     eq_streaming := false; eq_chunks := [{| ck_path := "messages[0]"; ck_text := text |}]; eq_top_k := 3 |}.

Definition found (s : SemanticServer ()) (id text : string) : option (list string) :=
  match (evaluate (λ _, 0%Z) auth (request id text) s).2 with
  | Ok r => Some (fi_entity_text <$> er_findings r)
  | Err _ => None
  end.

Example leak_is_found :
  found (after [CallUpsert auth (Some (policy "p" one))]) "p" "The  ACME roadmap" = Some ["acme"] ∧
  found (after [CallUpsert auth (Some (policy "p" one))]) "p" "The acmeroadmap" = Some [].
Proof. by vm_compute. Qed.

Lemma findings_are_backed_witness :
  let s := after [CallUpsert auth (Some (policy "p" one))] in
  let e := evaluate (λ _, 0%Z) auth (request "p" "the Acme roadmap") s in
  sv_indexes e.1 = sv_indexes s ∧ admits s auth ∧
  (match e.2 with Ok r => length (er_findings r) | Err _ => O end) = 1%nat.
Proof.
  split_and!; [|by vm_compute..].
  apply (findings_are_backed (λ _, 0%Z) auth (request "p" "the Acme roadmap")
    (after [CallUpsert auth (Some (policy "p" one))]) _ _ (surjective_pairing _)).
Defined.

Lemma indexes_survive_restart_witness :
  ∃ s', server_load_from_store (restarted (after [CallUpsert auth (Some (policy "p" one));
    CallUpsert auth (Some (policy "q" one)); CallDelete auth "p"]) ()) = (s', Ok ()) ∧
    sv_indexes s' = sv_indexes (after [CallUpsert auth (Some (policy "p" one));
      CallUpsert auth (Some (policy "q" one)); CallDelete auth "p"]).
Proof.
  apply (indexes_survive_restart (Some "secret") "data" [] () () [CallUpsert auth (Some (policy "p" one));
    CallUpsert auth (Some (policy "q" one)); CallDelete auth "p"]).
  repeat constructor; by vm_compute.
Defined.

(** A project id is used as a file name: with a slash in it the index is written
    to another folder, where the next start does not look. *)
Theorem slash_in_id_is_forgotten :
  found (after [CallUpsert auth (Some (policy "team/p" one))]) "team/p" "the Acme roadmap" = Some ["acme"] ∧
  let s := (server_load_from_store (restarted (after [CallUpsert auth (Some (policy "team/p" one))]) ())).1 in
  sv_indexes s = ∅.
Proof. by vm_compute. Qed.

(** A threshold that is not a number is accepted, and the folder can then not be
    loaded at all: the indexes of the other projects are gone with it. *)
Theorem one_threshold_stops_every_start :
  let s := after [CallUpsert auth (Some (policy "p" one)); CallUpsert auth (Some (policy "q" S754_nan))] in
  found s "q" "the Acme roadmap" = Some ["acme"] ∧
  (server_load_from_store (restarted s ())).2 = Err "invalid type: null, expected f32".
Proof. by vm_compute. Qed.

End ServiceDemo.
