(* ===== verification/GatewayLimits.v ===== *)
(** * The LLM gateway: rate limits

    Model of [plugin-llm-gateway/src/rate_limiter.rs]: requests and tokens per
    minute, per key, with the limits a virtual key carries taking the place of
    the global ones; and that what one key is answered does not depend on the
    requests of any other. *)

From S2P Require Import Prelude RecordSet RustStr F64 Json Http Toml Plugin RateLimit GatewayContext.

Local Open Scope string_scope.
Local Open Scope list_scope.
Local Open Scope rust_scope.

(** ** State *)

Notation Buckets := (TokenBucketMap string).

Record TokenRateLimiter := {
  tpm_buckets : Buckets;
  rpm_buckets : option Buckets;
  per_key_rpm_buckets : gmap Z Buckets;
  per_key_tpm_buckets : gmap Z Buckets;
  rl_metrics : option (list MetricEvent);
}.

#[export] Instance TokenRateLimiter_set : Settable TokenRateLimiter := λ l,
  {| tpm_buckets := tpm_buckets l; rpm_buckets := rpm_buckets l;
     per_key_rpm_buckets := per_key_rpm_buckets l; per_key_tpm_buckets := per_key_tpm_buckets l;
     rl_metrics := rl_metrics l |}.

Definition f64_60 : f64 := f64_of_Z 60.

Definition token_limiter_new (tokens_per_minute burst_tokens : f64) : TokenRateLimiter :=
  {| tpm_buckets := map_new (f64_div tokens_per_minute f64_60) burst_tokens;
     rpm_buckets := None; per_key_rpm_buckets := ∅; per_key_tpm_buckets := ∅; rl_metrics := None |}.

Definition with_rpm (requests_per_minute burst_requests : f64) (l : TokenRateLimiter) : TokenRateLimiter :=
  l <| rpm_buckets := Some (map_new (f64_div requests_per_minute f64_60) burst_requests) |>.

Definition limiter_with_metrics (l : TokenRateLimiter) : TokenRateLimiter := l <| rl_metrics := Some [] |>.

Definition tracked_key_count (l : TokenRateLimiter) : nat := len (tpm_buckets l).
Definition rate_per_second (l : TokenRateLimiter) : f64 := map_rate (tpm_buckets l).
Definition limiter_burst (l : TokenRateLimiter) : f64 := map_burst (tpm_buckets l).
Definition rpm_config (l : TokenRateLimiter) : option (f64 * f64) :=
  (λ b, (map_rate b, map_burst b)) <$> rpm_buckets l.

(** [per_key.entry(limit).or_insert_with(...)]: a limit per minute is also the
    burst. *)
Definition limit_buckets (per_key : gmap Z Buckets) (limit : Z) : Buckets :=
  default (map_new (f64_div (f64_of_Z limit) f64_60) (f64_of_Z limit)) (per_key !! limit).

(** ** The answer to a refused request *)

Record RateLimitHit := {
  limit_type : string;
  limit_per_minute : f64;
  remaining : f64;
  rate_per_sec : f64;
}.

Definition RATE_LIMIT_BODY : string :=
  "{" +:+ String quote_char ("error" +:+ String quote_char (":{" +:+
    join "," ((λ f : string * string,
      String quote_char (f.1 +:+ String quote_char (":" +:+ String quote_char (f.2 +:+ String quote_char ""))))
      <$> [("message", "Token rate limit exceeded"); ("type", "rate_limit_error");
           ("code", "rate_limit_exceeded")]) +:+ "}}")).

Definition reset_secs (info : RateLimitHit) : Z :=
  if f_lt f_zero (rate_per_sec info) then
    f64_to_u64 (f64_max (f64_ceil
      (f64_div (f64_sub f64_one (f64_max (remaining info) f_zero)) (rate_per_sec info))) f64_one)
  else 60%Z.

Section limiter.
Context `{Http} {S : Type}.

Notation Ctx := (RequestContext (H0 := gateway_types S)).

(** [if let Ok(v) = HeaderValue::from_str(...) { insert }] *)
Definition insert_text (name text : string) (h : HeaderMap) : HeaderMap :=
  match hv_from_str text with Some v => hm_insert name v h | None => h end.

Definition rate_limit_response_with_headers (hit : option RateLimitHit) : Response :=
  let headers := hm_insert "content-type" (hv_from_static "application/json") hm_new in
  {| status := 429%Z;
     resp_headers :=
       match hit with
       | None => headers
       | Some info =>
           let kind := if String.eqb (limit_type info) "requests" then "requests" else "tokens" in
           let reset := reset_secs info in
           insert_text "retry-after" (pretty reset)
             (insert_text ("x-ratelimit-reset-" +:+ kind) (pretty reset +:+ "s")
               (insert_text ("x-ratelimit-remaining-" +:+ kind)
                  (pretty (f64_to_u64 (f64_max (remaining info) f_zero)))
                 (insert_text ("x-ratelimit-limit-" +:+ kind)
                    (pretty (f64_to_u64 (limit_per_minute info))) headers)))
       end;
     resp_body := full_body RATE_LIMIT_BODY |}.

(** ** The hook *)

(** The key a request is limited by and the limits its virtual key carries. *)
Definition rate_key (ctx : Ctx) : option (string * option Z * option Z) :=
  match x_virtual_key (ctx_ext ctx) with
  | Some vk => Some (vk_key_hash vk, vk_rpm_limit vk, vk_tpm_limit vk)
  | None => (λ key, (key, None, None)) <$> extract_api_key (ctx_headers ctx)
  end.

(** Consumes from a bucket map; a refusal reads what is left.  Reads the clock
    three times. *)
Definition consume_or_hit (m : Buckets) (key : string) (count : f64) (kind : string)
    (per_minute : f64) (clk : Clock) : Buckets * option RateLimitHit :=
  let '(m, ok) := try_consume m key count clk in
  if ok then (m, None)
  else
    let '(m, left_) := remaining_for_key m key (clk 2%nat) in
    (m, Some {| limit_type := kind; limit_per_minute := per_minute;
                remaining := default f_zero left_; rate_per_sec := map_rate m |}).

(** [rate() * 60.0] *)
Definition per_minute (m : Buckets) : f64 := f64_mul (map_rate m) f64_60.

Definition rpm_check (l : TokenRateLimiter) (key : string) (per_key_rpm : option Z) (clk : Clock)
    : TokenRateLimiter * option RateLimitHit :=
  match per_key_rpm with
  | Some rpm_limit =>
      let '(m, hit) := consume_or_hit (limit_buckets (per_key_rpm_buckets l) rpm_limit) key f64_one
                         "requests" (f64_of_Z rpm_limit) clk in
      (l <| per_key_rpm_buckets := <[rpm_limit := m]> (per_key_rpm_buckets l) |>, hit)
  | None =>
      match rpm_buckets l with
      | Some rpm =>
          let '(m, hit) := consume_or_hit rpm key f64_one "requests" (per_minute rpm) clk in
          (l <| rpm_buckets := Some m |>, hit)
      | None => (l, None)
      end
  end.

Definition tpm_check (l : TokenRateLimiter) (key : string) (per_key_tpm : option Z)
    (estimated_tokens : f64) (clk : Clock) : TokenRateLimiter * option RateLimitHit :=
  match per_key_tpm with
  | Some tpm_limit =>
      let '(m, hit) := consume_or_hit (limit_buckets (per_key_tpm_buckets l) tpm_limit) key
                         estimated_tokens "tokens" (f64_of_Z tpm_limit) clk in
      (l <| per_key_tpm_buckets := <[tpm_limit := m]> (per_key_tpm_buckets l) |>, hit)
  | None =>
      let '(m, hit) := consume_or_hit (tpm_buckets l) key estimated_tokens "tokens"
                         (per_minute (tpm_buckets l)) clk in
      (l <| tpm_buckets := m |>, hit)
  end.

Definition reject (kind : string) (hit : RateLimitHit) (l : TokenRateLimiter)
    : TokenRateLimiter * option Response :=
  (l <| rl_metrics := report (inc "rate_limit_rejections_total" [kind]) (rl_metrics l) |>,
   Some (rate_limit_response_with_headers (Some hit))).

(** [on_request]: an answer, or [None] to continue. *)
Definition limiter_on_request (l : TokenRateLimiter) (ctx : Ctx) (clk : Clock)
    : TokenRateLimiter * option Response :=
  match rate_key ctx with
  | None => (l, None)
  | Some (key, per_key_rpm, per_key_tpm) =>
      let '(l, hit) := rpm_check l key per_key_rpm clk in
      match hit with
      | Some hit => reject "rpm" hit l
      | None =>
          let estimated_tokens := f64_of_Z (from_option estimate_prompt_tokens 1%Z (ctx_body ctx)) in
          let '(l, hit) := tpm_check l key per_key_tpm estimated_tokens (λ i, clk (3 + i)%nat) in
          match hit with
          | Some hit => reject "tpm" hit l
          | None => (l, None)
          end
      end
  end.

End limiter.

(** ** Construction *)

(** [as_float().or_else(as_integer() as f64)] *)
Definition toml_number `{Toml} (v : tvalue) : option f64 :=
  match as_float v with
  | Some f => Some f
  | None => f64_of_Z <$> as_integer v
  end.

Definition create_limiter `{Toml} (config : tvalue) : TokenRateLimiter :=
  let number key := v ← toml_get config key; toml_number v in
  let limiter := token_limiter_new (default (f64_of_Z 100000) (number "tokens_per_minute"))
                                   (default (f64_of_Z 20000) (number "burst_tokens")) in
  match number "requests_per_minute" with
  | Some rpm => with_rpm rpm (default (f64_div rpm (f64_of_Z 2)) (number "burst_requests")) limiter
  | None => limiter
  end.

(** ** One key does not affect another *)

Section agreement.
Context (k : string).

(** The two maps treat the key alike. *)
Definition agrees (m1 m2 : Buckets) : Prop :=
  buckets m1 !! k = buckets m2 !! k ∧ map_rate m1 = map_rate m2 ∧ map_burst m1 = map_burst m2.

Definition limiters_agree (l1 l2 : TokenRateLimiter) : Prop :=
  agrees (tpm_buckets l1) (tpm_buckets l2) ∧
  option_Forall2 agrees (rpm_buckets l1) (rpm_buckets l2) ∧
  (∀ n, agrees (limit_buckets (per_key_rpm_buckets l1) n) (limit_buckets (per_key_rpm_buckets l2) n)) ∧
  (∀ n, agrees (limit_buckets (per_key_tpm_buckets l1) n) (limit_buckets (per_key_tpm_buckets l2) n)).

Lemma agrees_refl m : agrees m m.
Proof. done. Qed.

Lemma limiters_agree_refl l : limiters_agree l l.
Proof. split_and!; [done| |done..]. by destruct (rpm_buckets l); constructor. Qed.

Lemma agrees_trans m1 m2 m3 : agrees m1 m2 → agrees m2 m3 → agrees m1 m3.
Proof. unfold agrees. naive_solver congruence. Qed.

Lemma limiters_agree_trans l1 l2 l3 :
  limiters_agree l1 l2 → limiters_agree l2 l3 → limiters_agree l1 l3.
Proof.
  intros (A1 & A2 & A3 & A4) (B1 & B2 & B3 & B4).
  split_and!; [by eapply agrees_trans| |intros n; by eapply agrees_trans..].
  destruct A2; inversion B2; constructor. by eapply agrees_trans.
Qed.

(** Another key's consumption is invisible. *)
Lemma consume_other m key count kind pm clk :
  key ≠ k → agrees (consume_or_hit m key count kind pm clk).1 m.
Proof.
  intros Hne. unfold consume_or_hit, try_consume, remaining_for_key.
  destruct (bucket_try_consume _ _ _) as [b []]; simpl.
  - unfold agrees. simpl. by rewrite lookup_insert_ne.
  - rewrite lookup_insert_eq. unfold agrees. simpl. by rewrite !lookup_insert_ne.
Qed.

Lemma consume_same m1 m2 count kind pm clk :
  agrees m1 m2 →
  agrees (consume_or_hit m1 k count kind pm clk).1 (consume_or_hit m2 k count kind pm clk).1 ∧
  (consume_or_hit m1 k count kind pm clk).2 = (consume_or_hit m2 k count kind pm clk).2.
Proof.
  intros (Hb & Hr & Hm). unfold consume_or_hit, try_consume, remaining_for_key. rewrite Hb, Hr, Hm.
  destruct (bucket_try_consume _ _ _) as [b []]; simpl.
  - unfold agrees. simpl. by rewrite !lookup_insert_eq.
  - rewrite !lookup_insert_eq. simpl. unfold agrees. simpl. by rewrite !lookup_insert_eq, Hr.
Qed.

Lemma limit_buckets_insert per_key n n' m :
  limit_buckets (<[n := m]> per_key) n' = if decide (n = n') then m else limit_buckets per_key n'.
Proof.
  unfold limit_buckets. case_decide as Hd; [subst; by rewrite lookup_insert_eq|].
  by rewrite lookup_insert_ne.
Qed.

Lemma rpm_check_other l key per_key clk :
  key ≠ k → limiters_agree (rpm_check l key per_key clk).1 l.
Proof.
  intros Hne. unfold rpm_check. destruct per_key as [n|].
  - pose proof (consume_other (limit_buckets (per_key_rpm_buckets l) n) key f64_one "requests"
      (f64_of_Z n) clk Hne) as Hc. destruct (consume_or_hit _ _ _ _ _ _) as [m hit]. simpl in *.
    split_and!; simpl; [apply agrees_refl|by destruct (rpm_buckets l); constructor| |done].
    intros n'. rewrite limit_buckets_insert.
    case_decide; subst; [apply Hc|apply agrees_refl].
  - destruct (rpm_buckets l) as [rpm|] eqn:Er; [|apply limiters_agree_refl].
    pose proof (consume_other rpm key f64_one "requests" (per_minute rpm) clk Hne) as Hc.
    destruct (consume_or_hit _ _ _ _ _ _) as [m hit]. simpl in *.
    split_and!; simpl; [done|rewrite Er; by constructor|done..].
Qed.

Lemma tpm_check_other l key per_key count clk :
  key ≠ k → limiters_agree (tpm_check l key per_key count clk).1 l.
Proof.
  intros Hne. unfold tpm_check. destruct per_key as [n|].
  - pose proof (consume_other (limit_buckets (per_key_tpm_buckets l) n) key count "tokens"
      (f64_of_Z n) clk Hne) as Hc. destruct (consume_or_hit _ _ _ _ _ _) as [m hit]. simpl in *.
    split_and!; simpl; [done|by destruct (rpm_buckets l); constructor|done|].
    intros n'. rewrite limit_buckets_insert.
    case_decide; subst; [apply Hc|apply agrees_refl].
  - pose proof (consume_other (tpm_buckets l) key count "tokens" (per_minute (tpm_buckets l)) clk Hne) as Hc.
    destruct (consume_or_hit _ _ _ _ _ _) as [m hit]. simpl in *.
    split_and!; simpl; [done|by destruct (rpm_buckets l); constructor|done..].
Qed.

Lemma rpm_check_same l1 l2 per_key clk :
  limiters_agree l1 l2 →
  limiters_agree (rpm_check l1 k per_key clk).1 (rpm_check l2 k per_key clk).1 ∧
  (rpm_check l1 k per_key clk).2 = (rpm_check l2 k per_key clk).2.
Proof.
  intros Hall. pose proof Hall as (Ht & Hr & Hkr & Hkt). unfold rpm_check. destruct per_key as [n|].
  - destruct (consume_same _ _ f64_one "requests" (f64_of_Z n) clk (Hkr n)) as [Hc Hh].
    destruct (consume_or_hit (limit_buckets (per_key_rpm_buckets l1) n) _ _ _ _ _) as [m1 h1].
    destruct (consume_or_hit (limit_buckets (per_key_rpm_buckets l2) n) _ _ _ _ _) as [m2 h2].
    simpl in *. split; [|done]. split_and!; simpl; try done.
    intros n'. rewrite !limit_buckets_insert. case_decide; [apply Hc|done].
  - destruct Hr as [rpm1 rpm2 Hr|]; [|done].
    assert (per_minute rpm1 = per_minute rpm2) as -> by (unfold per_minute; by destruct Hr as (_ & -> & _)).
    destruct (consume_same _ _ f64_one "requests" (per_minute rpm2) clk Hr) as [Hc Hh].
    destruct (consume_or_hit rpm1 _ _ _ _ _) as [m1 h1], (consume_or_hit rpm2 _ _ _ _ _) as [m2 h2].
    simpl in *. split; [|done]. split_and!; simpl; try done. by constructor.
Qed.

Lemma tpm_check_same l1 l2 per_key count clk :
  limiters_agree l1 l2 →
  limiters_agree (tpm_check l1 k per_key count clk).1 (tpm_check l2 k per_key count clk).1 ∧
  (tpm_check l1 k per_key count clk).2 = (tpm_check l2 k per_key count clk).2.
Proof.
  intros (Ht & Hr & Hkr & Hkt). unfold tpm_check. destruct per_key as [n|].
  - destruct (consume_same _ _ count "tokens" (f64_of_Z n) clk (Hkt n)) as [Hc Hh].
    destruct (consume_or_hit (limit_buckets (per_key_tpm_buckets l1) n) _ _ _ _ _) as [m1 h1].
    destruct (consume_or_hit (limit_buckets (per_key_tpm_buckets l2) n) _ _ _ _ _) as [m2 h2].
    simpl in *. split; [|done]. split_and!; simpl; try done.
    intros n'. rewrite !limit_buckets_insert. case_decide; [apply Hc|done].
  - assert (per_minute (tpm_buckets l1) = per_minute (tpm_buckets l2)) as ->
      by (unfold per_minute; by destruct Ht as (_ & -> & _)).
    destruct (consume_same _ _ count "tokens" (per_minute (tpm_buckets l2)) clk Ht) as [Hc Hh].
    destruct (consume_or_hit (tpm_buckets l1) _ _ _ _ _) as [m1 h1].
    destruct (consume_or_hit (tpm_buckets l2) _ _ _ _ _) as [m2 h2].
    simpl in *. split; [|done]. by split_and!.
Qed.

End agreement.

(** ** Runs *)

Section runs.
Context `{Http} {S : Type}.

Notation Ctx := (RequestContext (H0 := gateway_types S)).

(** The key a request is charged to. *)
Definition charged_to (ctx : Ctx) : option string := (λ r, r.1.1) <$> rate_key ctx.

(** A sequence of requests, each with the clock it reads, and what they are
    answered. *)
Fixpoint limiter_run (l : TokenRateLimiter) (reqs : list (Ctx * Clock))
    : TokenRateLimiter * list (option Response) :=
  match reqs with
  | [] => (l, [])
  | (ctx, clk) :: rest =>
      let '(l, a) := limiter_on_request l ctx clk in
      let '(l, answers) := limiter_run l rest in
      (l, a :: answers)
  end.

(** The answers to the requests of one key. *)
Definition answers_of (k : string) (l : TokenRateLimiter) (reqs : list (Ctx * Clock))
    : list (option Response) :=
  (filter (λ p : (Ctx * Clock) * option Response, charged_to p.1.1 = Some k)
     (zip reqs (limiter_run l reqs).2)).*2.

Lemma on_request_other k l ctx clk :
  charged_to ctx ≠ Some k → limiters_agree k (limiter_on_request l ctx clk).1 l.
Proof.
  unfold charged_to, limiter_on_request. destruct (rate_key ctx) as [[[key rpm] tpm]|]; cbn [fmap option_fmap option_map fst].
  2:{ intros _. apply limiters_agree_refl. }
  intros Hne. assert (key ≠ k) as Hk by congruence. clear Hne.
  pose proof (rpm_check_other k l key rpm clk Hk) as H1.
  destruct (rpm_check l key rpm clk) as [l1 [hit|]]; [exact H1|]. cbn [fst] in H1.
  match goal with |- context [tpm_check l1 key tpm ?c ?clk'] =>
    pose proof (tpm_check_other k l1 key tpm c clk' Hk) as H2;
    destruct (tpm_check l1 key tpm c clk') as [l2 [hit|]]; cbn [fst] in H2 end;
    (eapply limiters_agree_trans; [exact H2|exact H1]).
Qed.

Lemma on_request_same k l1 l2 ctx clk :
  charged_to ctx = Some k → limiters_agree k l1 l2 →
  limiters_agree k (limiter_on_request l1 ctx clk).1 (limiter_on_request l2 ctx clk).1 ∧
  (limiter_on_request l1 ctx clk).2 = (limiter_on_request l2 ctx clk).2.
Proof.
  unfold charged_to, limiter_on_request. destruct (rate_key ctx) as [[[key rpm] tpm]|]; [|done].
  cbn [fmap option_fmap option_map fst]. intros [= ->] Hl.
  destruct (rpm_check_same k l1 l2 rpm clk Hl) as [Ha Hb].
  destruct (rpm_check l1 k rpm clk) as [m1 h1], (rpm_check l2 k rpm clk) as [m2 h2].
  cbn [fst snd] in Ha, Hb. subst h2. destruct h1 as [hit|]; [by split|].
  match goal with |- context [tpm_check m1 k tpm ?c ?clk'] =>
    destruct (tpm_check_same k m1 m2 tpm c clk' Ha) as [Hc Hd];
    destruct (tpm_check m1 k tpm c clk') as [n1 h1], (tpm_check m2 k tpm c clk') as [n2 h2] end.
  cbn [fst snd] in Hc, Hd. subst h2. by destruct h1 as [hit|].
Qed.

Lemma run_agrees k l1 l2 reqs :
  limiters_agree k l1 l2 →
  answers_of k l1 reqs =
    (limiter_run l2 (filter (λ p : Ctx * Clock, charged_to p.1 = Some k) reqs)).2.
Proof.
  revert l1 l2. induction reqs as [|[ctx clk] reqs IH]; intros l1 l2 Hl; [done|].
  unfold answers_of. cbn [limiter_run]. rewrite filter_cons. cbn [fst].
  destruct (decide (charged_to ctx = Some k)) as [Hk|Hk].
  - destruct (on_request_same k l1 l2 ctx clk Hk Hl) as [Ha Hb]. cbn [limiter_run].
    destruct (limiter_on_request l1 ctx clk) as [m1 a1], (limiter_on_request l2 ctx clk) as [m2 a2].
    cbn [fst snd] in Ha, Hb. subst a2. specialize (IH m1 m2 Ha). unfold answers_of in IH.
    destruct (limiter_run m1 reqs) as [n1 as1], (limiter_run m2 _) as [n2 as2]. cbn [snd zip_with] in *.
    rewrite filter_cons. cbn [fst]. rewrite decide_True by done. cbn. by rewrite <-IH.
  - pose proof (on_request_other k l1 ctx clk Hk) as Ho.
    destruct (limiter_on_request l1 ctx clk) as [m1 a1]. cbn [fst] in Ho.
    assert (limiters_agree k m1 l2) as Hm by (by eapply limiters_agree_trans).
    specialize (IH m1 l2 Hm). unfold answers_of in IH.
    destruct (limiter_run m1 reqs) as [n1 as1]. cbn [snd zip_with] in *.
    rewrite filter_cons. cbn [fst]. by rewrite decide_False.
Qed.

(** Keys do not interfere: in any sequence of requests, whatever the global
    and per-key limits are, the answers to the requests of one key are those it
    would get if no other key made any. *)
Theorem limits_do_not_interfere k l reqs :
  answers_of k l reqs =
    (limiter_run l (filter (λ p : Ctx * Clock, charged_to p.1 = Some k) reqs)).2.
Proof. apply run_agrees, limiters_agree_refl. Qed.

End runs.

(** The time to wait is that of a single token, not of the request: one refused
    for its size is told to retry in a second, again and again. *)
Theorem retry_after_ignores_size :
  reset_secs {| limit_type := "tokens"; limit_per_minute := f64_60; remaining := f64_of_Z 50;
                rate_per_sec := f64_one |} = 1%Z.
Proof. by vm_compute. Qed.
