(* ===== verification/Failover.v ===== *)
(** * The LLM gateway: provider failover

    Model of [plugin-llm-gateway/src/provider_failover.rs]: a provider that
    failed is left out of the choice of upstreams until its cooldown is over. *)

From S2P Require Import Prelude RecordSet RustStr F64 Json Http Toml Plugin GatewayContext.

Local Open Scope string_scope.
Local Open Scope list_scope.
Local Open Scope rust_scope.

(** ** State *)

Inductive ProviderFailureReason := FailTimeout | RateLimited | Upstream5xx | TransportError.

#[export] Instance ProviderFailureReason_eq_dec : EqDecision ProviderFailureReason.
Proof. solve_decision. Defined.

Definition failure_as_str (r : ProviderFailureReason) : string :=
  match r with
  | FailTimeout => "timeout"
  | RateLimited => "rate_limited"
  | Upstream5xx => "upstream_5xx"
  | TransportError => "transport_error"
  end.

Record FailedProviderStatus := {
  failed_at : Instant;
  failed_reason : ProviderFailureReason;
}.

Record ProviderConfig := {
  pv_name : string;
  pv_pattern : string;
}.

Record ProviderFailover := {
  providers : list ProviderConfig;
  failed_providers : gmap string FailedProviderStatus;
  fo_cooldown : Duration;
  fo_metrics : option (list MetricEvent);
}.

#[export] Instance ProviderFailover_set : Settable ProviderFailover := λ f,
  {| providers := providers f; failed_providers := failed_providers f;
     fo_cooldown := fo_cooldown f; fo_metrics := fo_metrics f |}.

Definition failover_new (providers : list (string * string)) (cooldown_secs : Z) : ProviderFailover :=
  {| providers := (λ p : string * string, {| pv_name := p.1; pv_pattern := p.2 |}) <$> providers;
     failed_providers := ∅; fo_cooldown := from_secs cooldown_secs; fo_metrics := None |}.

Definition failover_with_metrics (f : ProviderFailover) : ProviderFailover :=
  f <| fo_metrics := Some [] |>.

(** The first provider whose pattern occurs in the upstream. *)
Definition provider_for_upstream (f : ProviderFailover) (upstream : string) : option string :=
  pv_name <$> find_first (λ p, contains upstream (pv_pattern p)) (providers f).

Definition get_failed_providers (f : ProviderFailover) : list (string * FailedProviderStatus) :=
  map_to_list (failed_providers f).

Definition cooldown_gauge (name : string) (v : Z) : MetricEvent :=
  {| me_metric := "provider_cooldown_active"; me_labels := [name]; me_update := SetGauge v |}.

Definition clear_failed (f : ProviderFailover) (name : string) : ProviderFailover * bool :=
  match failed_providers f !! name with
  | Some _ =>
      (f <| failed_providers := delete name (failed_providers f) |>
         <| fo_metrics := report (cooldown_gauge name 0) (fo_metrics f) |>, true)
  | None => (f, false)
  end.

Definition clear_all_failed (f : ProviderFailover) : ProviderFailover :=
  f <| fo_metrics := foldl (λ m e, report (cooldown_gauge e.1 0) m) (fo_metrics f)
                       (map_to_list (failed_providers f)) |>
    <| failed_providers := ∅ |>.

(** [checked_duration_since] and [checked_sub]. *)
Definition cooldown_remaining (f : ProviderFailover) (failed_at now : Instant) : option Duration :=
  if (now <? failed_at)%Z then None
  else
    let elapsed := (now - failed_at)%Z in
    if (fo_cooldown f <? elapsed)%Z then None else Some (fo_cooldown f - elapsed)%Z.

Definition failure_reason (e : ProxyError) : ProviderFailureReason :=
  match e with
  | Timeout => FailTimeout
  | UpstreamStatus s =>
      if (s =? 429)%Z then RateLimited
      else if is_server_error s then Upstream5xx else TransportError
  | ConnectError _ | UpstreamError _ | ServerError _ => TransportError
  end.

(** ** The hooks *)

(** The body of both [retain] calls: whether an upstream stays; a cooldown that is
    over is forgotten. *)
Definition retain_upstream (now : Instant) (f : ProviderFailover) (upstream : string)
    : ProviderFailover * bool :=
  match provider_for_upstream f upstream with
  | None => (f, true)
  | Some name =>
      match failed_providers f !! name with
      | None => (f, true)
      | Some status =>
          if bool_decide (is_Some (cooldown_remaining f (failed_at status) now)) then (f, false)
          else (f <| failed_providers := delete name (failed_providers f) |>
                  <| fo_metrics := report (cooldown_gauge name 0) (fo_metrics f) |>, true)
      end
  end.

Section hooks.
Context `{Http} {S : Type}.

Notation Ctx := (RequestContext (H0 := gateway_types S)).

Definition set_ordered (upstreams : list string) (f : ProviderFailover) (ctx : Ctx) : Ctx :=
  with_ext (λ x, x <| x_routing_trace :=
    (λ t, t <| rt_ordered_providers := omap (provider_for_upstream f) upstreams |>)
      <$> x_routing_trace x |>) ctx.

(** [on_upstream_select]; it always continues. *)
Definition failover_on_upstream_select (now : Instant) (f : ProviderFailover) (ctx : Ctx)
    (servers : list string) : ProviderFailover * Ctx * list string :=
  let '(f, servers) := filter_st (retain_upstream now) f servers in
  match ext_candidates (ctx_extensions ctx) with
  | Some candidates =>
      let '(f, candidates) := filter_st (λ f c, retain_upstream now f (pc_upstream c)) f candidates in
      let ctx := set_ordered (pc_upstream <$> candidates) f ctx in
      (f, ctx_set_extensions (set_candidates (Some candidates) (ctx_extensions ctx)) ctx, servers)
  | None => (f, set_ordered servers f ctx, servers)
  end.

(** [on_error]; it always continues. *)
Definition failover_on_error (now : Instant) (f : ProviderFailover) (ctx : Ctx) (error : ProxyError)
    : ProviderFailover :=
  match ctx_selected_upstream ctx ≫= provider_for_upstream f with
  | None => f
  | Some name =>
      let reason := failure_reason error in
      f <| failed_providers := <[name := {| failed_at := now; failed_reason := reason |}]>
             (failed_providers f) |>
        <| fo_metrics := report (cooldown_gauge name 1)
             (report (inc "provider_cooldowns_total" [name; failure_as_str reason])
                (report (inc "provider_errors_total" [name]) (fo_metrics f))) |>
  end.

End hooks.

Definition create_failover `{Toml} (config : tvalue) : ProviderFailover :=
  let cooldown_secs := wrap64 (default 30%Z (v ← toml_get config "cooldown_secs"; as_integer v)) in
  let entries := default [] (v ← toml_get config "providers"; as_array v) in
  failover_new (omap (λ entry,
    n ← toml_get entry "name"; name ← as_str n;
    p ← toml_get entry "pattern"; pattern ← as_str p;
    Some (name, pattern)) entries) cooldown_secs.

(** ** What is left out, and for how long *)

(** The provider failed and its cooldown is not over. *)
Definition name_cooling (now : Instant) (f : ProviderFailover) (name : string) : bool :=
  match failed_providers f !! name with
  | Some status => bool_decide (is_Some (cooldown_remaining f (failed_at status) now))
  | None => false
  end.

Definition cooling (now : Instant) (f : ProviderFailover) (upstream : string) : bool :=
  from_option (name_cooling now f) false (provider_for_upstream f upstream).

(** [f'] has forgotten at most failures whose cooldown is over. *)
Definition forgets (now : Instant) (f f' : ProviderFailover) : Prop :=
  providers f' = providers f ∧ fo_cooldown f' = fo_cooldown f ∧
  ∀ n, failed_providers f' !! n = failed_providers f !! n ∨
       name_cooling now f n = false ∧ failed_providers f' !! n = None.

Lemma forgets_refl now f : forgets now f f.
Proof. split_and!; [done..|]. by left. Qed.

Lemma forgets_cooling now f f' n : forgets now f f' → name_cooling now f' n = name_cooling now f n.
Proof.
  intros (_ & Hc & Hf). unfold name_cooling, cooldown_remaining. rewrite Hc.
  destruct (Hf n) as [->|[H ->]]; [done|]. symmetry. exact H.
Qed.

Lemma forgets_trans now f f1 f2 : forgets now f f1 → forgets now f1 f2 → forgets now f f2.
Proof.
  intros H1 H2. pose proof H1 as (Hp & Hc & Hf). destruct H2 as (Hp2 & Hc2 & Hf2).
  split_and!; [congruence..|]. intros n. destruct (Hf2 n) as [->|[Hn2 E2]].
  - apply Hf.
  - right. split; [|done]. by rewrite <-(forgets_cooling _ _ _ n H1).
Qed.

Lemma forgets_upstream now f f' u : forgets now f f' → cooling now f' u = cooling now f u.
Proof.
  intros H. unfold cooling, provider_for_upstream. destruct H as (Hp & H).
  rewrite Hp. destruct (pv_name <$> _) as [n|]; [|done]. simpl. by apply forgets_cooling.
Qed.

Lemma retain_upstream_spec now f u :
  (retain_upstream now f u).2 = negb (cooling now f u) ∧ forgets now f (retain_upstream now f u).1.
Proof.
  unfold retain_upstream, cooling. destruct (provider_for_upstream f u) as [name|];
    [|split; [done|apply forgets_refl]].
  unfold from_option, name_cooling. destruct (failed_providers f !! name) as [status|] eqn:Es;
    [|split; [done|apply forgets_refl]].
  case_bool_decide as Hc; [split; [done|apply forgets_refl]|].
  split; [done|]. split_and!; [done..|]. intros n. simpl. destruct (decide (n = name)) as [->|Hne].
  - right. rewrite lookup_delete_eq. split; [|done]. unfold name_cooling. rewrite Es.
    by apply bool_decide_eq_false.
  - left. by rewrite lookup_delete_ne.
Qed.

Lemma retain_all {A} now (up : A → string) f l :
  let r := filter_st (λ f a, retain_upstream now f (up a)) f l in
  r.2 = filter (λ a, cooling now f (up a) = false) l ∧ forgets now f r.1.
Proof.
  revert f. induction l as [|a l IH]; intros f; [split; [done|apply forgets_refl]|].
  simpl. rewrite filter_cons.
  destruct (retain_upstream_spec now f (up a)) as (Hr & Hf).
  destruct (retain_upstream now f (up a)) as [f1 keep]. simpl in *.
  destruct (IH f1) as (Hl & Hf1). destruct (filter_st _ f1 l) as [f2 l2]. simpl in *. subst l2.
  assert (filter (λ a, cooling now f1 (up a) = false) l = filter (λ a, cooling now f (up a) = false) l) as ->
    by (apply list_filter_iff; intros; by rewrite (forgets_upstream _ _ _ _ Hf)).
  pose proof (forgets_trans _ _ _ _ Hf Hf1).
  destruct keep, (cooling now f (up a)); try done; by case_decide.
Qed.

(** ** The history of failures *)

Section history.
Context `{Http} {S : Type}.

Notation Ctx := (RequestContext (H0 := gateway_types S)).

(** What happens to the plugin, with the time each call reads. *)
Inductive FailoverOp :=
| OpSelect (now : Instant) (ctx : Ctx) (servers : list string)
| OpError (now : Instant) (ctx : Ctx) (error : ProxyError)
| OpClear (now : Instant) (name : string)
| OpClearAll (now : Instant).

Definition op_time (o : FailoverOp) : Instant :=
  match o with OpSelect t _ _ | OpError t _ _ | OpClear t _ | OpClearAll t => t end.

Definition failover_apply (f : ProviderFailover) (o : FailoverOp) : ProviderFailover :=
  match o with
  | OpSelect now ctx servers => (failover_on_upstream_select now f ctx servers).1.1
  | OpError now ctx e => failover_on_error now f ctx e
  | OpClear _ name => (clear_failed f name).1
  | OpClearAll _ => clear_all_failed f
  end.

(** The specification: the time of each provider's last failure. *)
Definition spec_apply (f : ProviderFailover) (m : gmap string Instant) (o : FailoverOp)
    : gmap string Instant :=
  match o with
  | OpSelect _ _ _ => m
  | OpError now ctx _ =>
      match ctx_selected_upstream ctx ≫= provider_for_upstream f with
      | Some name => <[name := now]> m
      | None => m
      end
  | OpClear _ name => delete name m
  | OpClearAll _ => ∅
  end.

Definition last_failures (f : ProviderFailover) (ops : list FailoverOp) : gmap string Instant :=
  foldl (spec_apply f) ∅ ops.

(** Time does not run backwards. *)
Fixpoint in_order (from : Instant) (ops : list FailoverOp) : Prop :=
  match ops with
  | [] => True
  | o :: rest => (from ≤ op_time o)%Z ∧ in_order (op_time o) rest
  end.

(** The last failure was at most a cooldown ago. *)
Definition recently_failed (f : ProviderFailover) (m : gmap string Instant) (now : Instant)
    (upstream : string) : Prop :=
  ∃ name t, provider_for_upstream f upstream = Some name ∧ m !! name = Some t ∧
            (now ≤ t + fo_cooldown f)%Z.

#[export] Instance recently_failed_dec f m now u : Decision (recently_failed f m now u).
Proof.
  destruct (provider_for_upstream f u) as [name|] eqn:En; [|right; intros (? & ? & ? & ?); congruence].
  destruct (m !! name) as [t|] eqn:Et; 
    [|right; intros (? & ? & E & Em & _); simplify_eq; pose proof (eq_trans (eq_sym Et) Em); done].
  destruct (decide (now ≤ t + fo_cooldown f)%Z) as [Hle|Hle].
  - left. by exists name, t.
  - right. intros (name' & t' & E & Em & ?). simplify_eq. pose proof (eq_trans (eq_sym Et) Em). by simplify_eq.
Defined.

(** The plugin against the history: from [from] on they agree on who cools. *)
Definition tracks (f0 : ProviderFailover) (from : Instant) (f : ProviderFailover)
    (m : gmap string Instant) : Prop :=
  providers f = providers f0 ∧ fo_cooldown f = fo_cooldown f0 ∧
  (∀ n status, failed_providers f !! n = Some status → m !! n = Some (failed_at status)) ∧
  (∀ n t, m !! n = Some t → (t ≤ from)%Z) ∧
  ∀ n t, m !! n = Some t → failed_providers f !! n = None → (t + fo_cooldown f0 < from)%Z.

Lemma tracks_cooling f0 from f m now n :
  tracks f0 from f m → (from ≤ now)%Z →
  name_cooling now f n = true ↔ ∃ t, m !! n = Some t ∧ (now ≤ t + fo_cooldown f0)%Z.
Proof.
  intros (Hp & Hc & Hs & Ht & Hf) Hnow. unfold name_cooling, cooldown_remaining. rewrite Hc.
  destruct (failed_providers f !! n) as [status|] eqn:Es.
  - pose proof (Hs _ _ Es) as Hm. pose proof (Ht _ _ Hm). rewrite bool_decide_eq_true.
    rewrite (proj2 (Z.ltb_ge now (failed_at status))) by lia.
    destruct (Z.ltb_spec (fo_cooldown f0) (now - failed_at status)); split.
    + by intros [? [=]].
    + intros (t & Ht' & ?). pose proof (eq_trans (eq_sym Ht') Hm) as [= ->]. lia.
    + intros _. exists (failed_at status). split; [done|lia].
    + done.
  - split; [done|]. intros (t & Hm & Hle). specialize (Hf _ _ Hm Es). unfold Instant, Duration in *. lia.
Qed.

Lemma tracks_upstream f0 from f m now u :
  tracks f0 from f m → (from ≤ now)%Z → cooling now f u = true ↔ recently_failed f0 m now u.
Proof.
  intros Htr Hnow. unfold cooling, recently_failed, provider_for_upstream.
  rewrite (proj1 Htr). destruct (pv_name <$> _) as [n|]; simpl; [|split; [done|naive_solver]].
  rewrite (tracks_cooling _ _ _ _ _ _ Htr Hnow). naive_solver.
Qed.

Lemma tracks_later f0 from to f m : tracks f0 from f m → (from ≤ to)%Z → tracks f0 to f m.
Proof.
  intros (Hp & Hc & Hs & Ht & Hf) Hle. split_and!; try done.
  - intros n t Hm. specialize (Ht _ _ Hm). lia.
  - intros n t Hm Hn. specialize (Hf _ _ Hm Hn). lia.
Qed.

Lemma tracks_forgets f0 now f f' m : tracks f0 now f m → forgets now f f' → tracks f0 now f' m.
Proof.
  intros Htr (Hp' & Hc' & Hf'). pose proof Htr as (Hp & Hc & Hs & Ht & Hf).
  split_and!; [congruence..| |done|].
  - intros n status Hn. destruct (Hf' n) as [E|[_ E]]; rewrite E in Hn; [by apply Hs|done].
  - intros n t Hm Hn. destruct (Hf' n) as [E|[Hcool _]]; [rewrite E in Hn; by eapply Hf|].
    destruct (decide (t + fo_cooldown f0 < now)%Z); [done|].
    rewrite (proj2 (tracks_cooling f0 now f m now n Htr ltac:(lia))) in Hcool; [done|].
    exists t. split; [done|lia].
Qed.

Lemma candidates_set_ordered ups f (ctx : Ctx) :
  ext_candidates (ctx_extensions (set_ordered ups f ctx)) = ext_candidates (ctx_extensions ctx).
Proof. done. Qed.

Lemma select_forgets now f (ctx : Ctx) servers :
  forgets now f (failover_on_upstream_select now f ctx servers).1.1 ∧
  (failover_on_upstream_select now f ctx servers).2 = filter (λ u, cooling now f u = false) servers ∧
  ext_candidates (ctx_extensions (failover_on_upstream_select now f ctx servers).1.2) =
    filter (λ c, cooling now f (pc_upstream c) = false) <$> ext_candidates (ctx_extensions ctx).
Proof.
  unfold failover_on_upstream_select. destruct (retain_all now id f servers) as [Hl Hf].
  change (λ (f : ProviderFailover) (a : string), retain_upstream now f (id a)) with (retain_upstream now) in *.
  destruct (filter_st (retain_upstream now) f servers) as [f1 l1]. cbn [fst snd] in *. subst l1.
  destruct (ext_candidates (ctx_extensions ctx)) as [cs|] eqn:Ec; [|cbn [fst snd]; by rewrite candidates_set_ordered, Ec].
  destruct (retain_all now pc_upstream f1 cs) as [Hl1 Hf1].
  destruct (filter_st _ f1 cs) as [f2 l2]. cbn [fst snd] in *. subst l2. split_and!; [by eapply forgets_trans|done|].
  transitivity (Some (filter (λ c, cooling now f1 (pc_upstream c) = false) cs)); [done|].
  cbn [fmap option_fmap option_map]. f_equal. apply list_filter_iff. intros c. by rewrite (forgets_upstream _ _ _ _ Hf).
Qed.

Lemma tracks_step f0 from f m (o : FailoverOp) :
  tracks f0 from f m → (from ≤ op_time o)%Z →
  tracks f0 (op_time o) (failover_apply f o) (spec_apply f0 m o).
Proof.
  intros Htr Hle. pose proof (tracks_later _ _ _ _ _ Htr Hle) as Htr'. clear Htr. rename Htr' into Htr.
  destruct o as [now ctx servers|now ctx e|now name|now]; simpl in *.
  - eapply tracks_forgets; [done|apply select_forgets].
  - pose proof Htr as (Hp & Hc & Hs & Ht & Hf). unfold failover_on_error.
    assert (ctx_selected_upstream ctx ≫= provider_for_upstream f =
            ctx_selected_upstream ctx ≫= provider_for_upstream f0) as ->
      by (unfold provider_for_upstream; by rewrite Hp).
    destruct (_ ≫= _) as [name|]; [|done]. simpl.
    split_and!; simpl; [done..| | |]; intros n x.
    + rewrite !lookup_insert. case_decide; [by intros [= <-]|apply Hs].
    + rewrite !lookup_insert. case_decide; [intros [= <-]; lia|apply Ht].
    + rewrite !lookup_insert. case_decide; [done|apply Hf].
  - pose proof Htr as (Hp & Hc & Hs & Ht & Hf). unfold clear_failed.
    destruct (failed_providers f !! name) as [status|] eqn:Es; simpl.
    + split_and!; simpl; [done..| | |]; intros n x; rewrite !lookup_delete; case_decide; try done;
        [apply Hs|apply Ht|apply Hf].
    + split_and!; [done..| | |]; intros n x; rewrite ?lookup_delete; case_decide; try done;
        [intros; congruence|apply Hs|apply Ht|apply Hf].
  - destruct Htr as (Hp & Hc & _). by split_and!; simpl; try done; intros n x; rewrite lookup_empty.
Qed.

Lemma tracks_run f0 from f m ops :
  tracks f0 from f m → in_order from ops →
  ∃ to, tracks f0 to (foldl failover_apply f ops) (foldl (spec_apply f0) m ops) ∧
        ∀ o, in_order from (ops ++ [o]) → (to ≤ op_time o)%Z.
Proof.
  revert from f m. induction ops as [|o ops IH]; simpl; intros from f m Htr Ho.
  - exists from. split; [done|]. naive_solver.
  - destruct Ho as [Hle Ho]. destruct (IH _ _ _ (tracks_step _ _ _ _ _ Htr Hle) Ho) as (to & Hto & Hb).
    exists to. split; [done|]. intros o' [_ ?]. by apply Hb.
Qed.

Lemma in_order_app from ops ops' : in_order from (ops ++ ops') → in_order from ops.
Proof. revert from. induction ops as [|o ops IH]; simpl; [done|]. naive_solver. Qed.

(** C8: The failover plugin refines its history: after any sequence of
    selections, errors and resets in the order of time, a selection leaves out
    exactly the upstreams, of the servers and of the routed candidates, whose
    provider's last failure that was not reset is at most a cooldown ago, and
    keeps the others in their order. *)
Theorem failover_refines_history provs secs from ops now (ctx : Ctx) servers :
  in_order from (ops ++ [OpSelect now ctx servers]) →
  let f0 := failover_new provs secs in
  let out := failover_on_upstream_select now (foldl failover_apply f0 ops) ctx servers in
  out.2 = filter (λ u, ¬ recently_failed f0 (last_failures f0 ops) now u) servers ∧
  ext_candidates (ctx_extensions out.1.2) =
    filter (λ c, ¬ recently_failed f0 (last_failures f0 ops) now (pc_upstream c))
      <$> ext_candidates (ctx_extensions ctx).
Proof.
  intros Ho f0 out. assert (tracks f0 from f0 ∅) as Hinit by (split_and!; [done..| | |]; intros; done).
  destruct (tracks_run _ _ _ _ _ Hinit (in_order_app _ _ _ Ho)) as (to & Htr & Hb).
  specialize (Hb _ Ho). simpl in Hb. fold (last_failures f0 ops) in Htr.
  destruct (select_forgets now (foldl failover_apply f0 ops) ctx servers) as (_ & E1 & E2).
  unfold out. rewrite E1, E2.
  assert (∀ u, cooling now (foldl failover_apply f0 ops) u = false ↔
               ¬ recently_failed f0 (last_failures f0 ops) now u) as Hc
    by (intros u; rewrite <-not_true_iff_false; by rewrite (tracks_upstream _ _ _ _ _ _ Htr Hb)).
  split; [by apply list_filter_iff|].
  destruct (ext_candidates (ctx_extensions ctx)) as [cs|]; [|done].
  cbn [fmap option_fmap option_map]. f_equal. by apply list_filter_iff.
Qed.

End history.

(** ** Witness *)

Section demo.

#[local] Existing Instance list_http.

Definition demo_ctx (upstream : option string)
    : @RequestContext list_http (gateway_types unit) := {|
  ctx_peer_addr := None;
  ctx_method := "POST";
  ctx_uri := "/v1/chat/completions";
  ctx_version := HTTP_11;
  ctx_headers := [];
  ctx_body := None;
  ctx_route := None;
  ctx_selected_upstream := upstream;
  ctx_auth := None;
  ctx_connection := (tt : @ConnExtensions (gateway_types unit));
  ctx_extensions := @ext_new list_http (gateway_types unit);
|}.

Definition demo_ops : list (@FailoverOp list_http unit) :=
  [OpError (from_secs 5) (demo_ctx (Some "http://a.test")) Timeout].

Definition demo_providers : list (string * string) := [("a", "a.test"); ("b", "b.test")].

(** Thirty seconds after the timeout the provider is still out; a nanosecond
    later it is back. *)
Lemma failover_refines_history_witness :
  filter (λ u, ¬ recently_failed (failover_new demo_providers 30)
                   (last_failures (failover_new demo_providers 30) demo_ops) (from_secs 35) u)
    ["http://a.test"; "http://b.test"] = ["http://b.test"] ∧
  (failover_on_upstream_select (from_secs 35)
     (foldl failover_apply (failover_new demo_providers 30) demo_ops) (demo_ctx None)
     ["http://a.test"; "http://b.test"]).2 = ["http://b.test"] ∧
  (failover_on_upstream_select (from_secs 35 + 1)%Z
     (foldl failover_apply (failover_new demo_providers 30) demo_ops) (demo_ctx None)
     ["http://a.test"; "http://b.test"]).2 = ["http://a.test"; "http://b.test"].
Proof.
  split_and!; [by vm_compute| |by vm_compute].
  rewrite (proj1 (failover_refines_history demo_providers 30 0%Z demo_ops (from_secs 35) (demo_ctx None)
    ["http://a.test"; "http://b.test"] ltac:(vm_compute; done))).
  by vm_compute.
Defined.

End demo.
