(* ===== verification/CostTracker.v ===== *)
(** * The LLM gateway: budgets and the cost of requests

    Model of [plugin-llm-gateway/src/cost_tracker.rs]: the totals per key and per
    model, the budget check of a request and its windows, what a response and a
    stream are charged, the alerts, the request log, and the exchange with the
    store.  The store is shared with other components, so it is threaded beside
    the tracker; [unix] is the wall clock in seconds a call reads. *)

From S2P Require Import Prelude RecordSet RustStr F64 Json Auth Http Toml Plugin ProxyProtocol Sql StateResult GatewayContext UsageStore StreamUsage GatewayLimits.

Local Open Scope string_scope.
Local Open Scope list_scope.
Local Open Scope rust_scope.

(** ** State *)

Record RequestAuditFields := {
  au_project_id : option string;
  au_session_id : option string;
  au_metadata_json : option string;
  au_custom_cost_json : option string;
  au_provider_name : option string;
  au_prompt_name : option string;
  au_prompt_version : option string;
  au_prompt_environment : option string;
  au_safety_mode : option string;
  au_safety_matches : option string;
  au_semantic_policy_version : option string;
  au_semantic_index_state : option string;
  au_semantic_degraded_reason : option string;
  au_semantic_findings : option string;
  au_tool_trace : option string;
}.

(** A webhook request that was spawned. *)
Record WebhookPost := {
  wp_url : string;
  wp_body : string;
}.

Record CostTracker := {
  usage : gmap string KeyUsage;
  budget_limit : f64;
  default_cost_per_1k_input : f64;
  default_cost_per_1k_output : f64;
  model_costs : gmap string ModelCost;
  log_interval_secs : Z;
  ct_metrics : option (list MetricEvent);
  webhook_url : option string;
  budget_alert_thresholds : list Z;
  budget_alert_ttl : Z;
  webhook_fired : gmap (string * Z) Instant;
  webhook_posts : list WebhookPost;
  budget_window_starts : gmap string Z;
  model_usage : gmap (string * string) KeyUsage;
  (** the channel to the drain task *)
  audit_log : list RequestLogEntry;
}.

#[export] Instance CostTracker_set : Settable CostTracker := λ t,
  {| usage := usage t; budget_limit := budget_limit t;
     default_cost_per_1k_input := default_cost_per_1k_input t;
     default_cost_per_1k_output := default_cost_per_1k_output t; model_costs := model_costs t;
     log_interval_secs := log_interval_secs t; ct_metrics := ct_metrics t;
     webhook_url := webhook_url t; budget_alert_thresholds := budget_alert_thresholds t;
     budget_alert_ttl := budget_alert_ttl t; webhook_fired := webhook_fired t;
     webhook_posts := webhook_posts t; budget_window_starts := budget_window_starts t;
     model_usage := model_usage t; audit_log := audit_log t |}.

Definition cost_tracker_new (budget_limit in_1k out_1k : f64) (log_interval_secs : Z) : CostTracker := {|
  usage := ∅;
  budget_limit := budget_limit;
  default_cost_per_1k_input := in_1k;
  default_cost_per_1k_output := out_1k;
  model_costs := ∅;
  log_interval_secs := log_interval_secs;
  ct_metrics := None;
  webhook_url := None;
  budget_alert_thresholds := [50; 80; 100]%Z;
  budget_alert_ttl := 86400%Z;
  webhook_fired := ∅;
  webhook_posts := [];
  budget_window_starts := ∅;
  model_usage := ∅;
  audit_log := [];
|}.

Definition tracker_with_metrics (t : CostTracker) : CostTracker := t <| ct_metrics := Some [] |>.

Definition with_webhook (url : string) (thresholds : list Z) (ttl : Z) (t : CostTracker) : CostTracker :=
  t <| webhook_url := Some url |> <| budget_alert_thresholds := thresholds |>
    <| budget_alert_ttl := ttl |>.

(** ** Totals *)

Definition zero_usage : KeyUsage :=
  {| total_input_tokens := 0%Z; total_output_tokens := 0%Z; total_cost := f_zero |}.

(** The three [+=]; the token counts are [u64]. *)
Definition usage_add (u : KeyUsage) (input output : Z) (cost : f64) : KeyUsage :=
  {| total_input_tokens := wrap64 (total_input_tokens u + input);
     total_output_tokens := wrap64 (total_output_tokens u + output);
     total_cost := f64_add (total_cost u) cost |}.

(** [usage.entry(key).or_insert(zero)] and the additions; the new total. *)
Definition charge_key (key : string) (input output : Z) (cost : f64) (t : CostTracker)
    : CostTracker * f64 :=
  let u := usage_add (default zero_usage (usage t !! key)) input output cost in
  (t <| usage := <[key := u]> (usage t) |>, total_cost u).

Definition record_model_usage (api_key : string) (model : option string) (input output : Z)
    (cost : f64) (t : CostTracker) : CostTracker :=
  let k := (api_key, default "unknown" model) in
  t <| model_usage :=
    <[k := usage_add (default zero_usage (model_usage t !! k)) input output cost]> (model_usage t) |>.

Definition costs_for_model (t : CostTracker) (model : option string) : f64 * f64 :=
  match m ← model; model_costs t !! m with
  | Some mc => (mc_input mc, mc_output mc)
  | None => (default_cost_per_1k_input t, default_cost_per_1k_output t)
  end.

Definition f64_1000 : f64 := f64_of_Z 1000.

Definition request_cost_from_usage (model_costs : f64 * f64) (custom_cost : option RequestCustomCost)
    (input_tokens output_tokens : Z) : f64 * bool :=
  match custom_cost with
  | Some c =>
      (f64_add (f64_mul (f64_of_Z input_tokens) (per_token_in c))
               (f64_mul (f64_of_Z output_tokens) (per_token_out c)), true)
  | None =>
      let input_cost := f64_mul (f64_div (f64_of_Z input_tokens) f64_1000) model_costs.1 in
      let output_cost := f64_mul (f64_div (f64_of_Z output_tokens) f64_1000) model_costs.2 in
      (f64_add input_cost output_cost, false)
  end.

(** *** For the management API *)

Definition tracker_get_usage (t : CostTracker) (api_key : string) : option KeyUsage :=
  usage t !! api_key.

Definition reset_usage (api_key : string) (t : CostTracker) : CostTracker * bool :=
  (t <| usage := delete api_key (usage t) |>, bool_decide (is_Some (usage t !! api_key))).

Definition reset_all_usage (t : CostTracker) : CostTracker := t <| usage := ∅ |>.

Definition set_model_cost (model : string) (input output : f64) (t : CostTracker) : CostTracker :=
  t <| model_costs := <[model := {| mc_input := input; mc_output := output |}]> (model_costs t) |>.

Definition delete_model_cost (model : string) (t : CostTracker) : CostTracker * bool :=
  (t <| model_costs := delete model (model_costs t) |>,
   bool_decide (is_Some (model_costs t !! model))).

(** ** Alerts *)

(** [{:.2}]: the nearest hundredth, the even one of two. *)
Definition hundredths (m e : Z) : Z :=
  let n := (m * 100 * 2 ^ Z.max 0 e)%Z in
  let d := (2 ^ Z.max 0 (- e))%Z in
  let q := (n / d)%Z in
  let r := (2 * (n mod d))%Z in
  if (d <? r)%Z || (d =? r)%Z && Z.odd q then (q + 1)%Z else q.

Definition two_digits (z : Z) : string := if (z <? 10)%Z then "0" +:+ pretty z else pretty z.

Definition format_2 (x : f64) : string :=
  match x with
  | S754_nan => "NaN"
  | S754_infinity s => (if s then "-" else "") +:+ "inf"
  | S754_zero s => (if s then "-" else "") +:+ "0.00"
  | S754_finite s m e =>
      let h := hundredths (Zpos m) e in
      (if s then "-" else "") +:+ pretty (h / 100)%Z +:+ "." +:+ two_digits (h mod 100)
  end.

Definition first_chars (n : nat) (s : string) : string :=
  if (n <? String.length s)%nat then String.substring 0 n s else s.

Definition alert_body (threshold : Z) (total_cost effective_budget : f64) (tracking_key : string)
    : string :=
  "{" +:+ quoted_key "event" +:+ ":" +:+ quoted_key "threshold_crossed"
  +:+ "," +:+ quoted_key "threshold_percent" +:+ ":" +:+ pretty threshold
  +:+ "," +:+ quoted_key "spend" +:+ ":" +:+ format_2 total_cost
  +:+ "," +:+ quoted_key "max_budget" +:+ ":" +:+ format_2 effective_budget
  +:+ "," +:+ quoted_key "token" +:+ ":" +:+ quoted_key (first_chars 12 tracking_key)
  +:+ "," +:+ quoted_key "event_message" +:+ ":"
  +:+ quoted_key ("Budget alert: " +:+ pretty threshold +:+ "% of $" +:+ format_2 effective_budget
        +:+ " budget used ($" +:+ format_2 total_cost +:+ " spent)")
  +:+ "}".

(** The loop over the thresholds. *)
Fixpoint fire_thresholds (url tracking_key : string) (total_cost effective_budget pct : f64)
    (thresholds : list Z) (clk : Clock) (t : CostTracker) : CostTracker :=
  match thresholds with
  | [] => t
  | threshold :: rest =>
      let next := fire_thresholds url tracking_key total_cost effective_budget pct rest
                    (λ i, clk (2 + i)%nat) in
      if f_lt pct (f64_of_Z threshold) then next t
      else
        let recent := match webhook_fired t !! (tracking_key, threshold) with
          | Some last => (duration_since (clk 0%nat) last <? from_secs (budget_alert_ttl t))%Z
          | None => false
          end in
        if recent then next t
        else
          next (t <| webhook_fired := <[(tracking_key, threshold) := clk 1%nat]> (webhook_fired t) |>
                  <| webhook_posts := webhook_posts t ++
                       [{| wp_url := url;
                           wp_body := alert_body threshold total_cost effective_budget tracking_key |}] |>)
  end.

Definition check_and_fire_webhook (tracking_key : string) (total_cost effective_budget : f64)
    (clk : Clock) (t : CostTracker) : CostTracker :=
  match webhook_url t with
  | None => t
  | Some url =>
      if f_le effective_budget f_zero then t
      else
        let pct := f64_mul (f64_div total_cost effective_budget) (f64_of_Z 100) in
        fire_thresholds url tracking_key total_cost effective_budget pct
          (budget_alert_thresholds t) clk t
  end.

(** ** The request log *)

Section tracker.
Context `{Http} `{SerdeJson} `{HeaderPayloads} {S : Type} {St : Type} `{UsageStore St}.

Notation Ctx := (RequestContext (H0 := gateway_types S)).

Definition safety_match_json (m : SafetyMatch) : json :=
  json_literal [("detector_class", JString (sm_detector_class m));
                ("description", JString (sm_description m));
                ("path", JString (sm_path m)); ("action", JString (sm_action m))].

Definition request_audit_fields (ctx : Ctx) : RequestAuditFields :=
  let x := ctx_ext ctx in
  {| au_project_id :=
       match ctx_auth ctx ≫= resolved_project with
       | Some project => Some project
       | None => vk_project_id <$> x_virtual_key x
       end;
     au_session_id := x_session_trace x;
     au_metadata_json := json_to_string <$> x_request_metadata x;
     au_custom_cost_json := (λ c, json_to_string (custom_cost_to_json c)) <$> x_custom_cost x;
     au_provider_name := vk_provider_name <$> x_virtual_key x;
     au_prompt_name := pa_prompt_name <$> x_prompt_audit x;
     au_prompt_version := pa_prompt_version <$> x_prompt_audit x;
     au_prompt_environment := pa_prompt_environment <$> x_prompt_audit x;
     au_safety_mode := sa_mode <$> x_safety_audit x;
     au_safety_matches :=
       (λ a, json_to_string (JArray (safety_match_json <$> sa_matches a))) <$> x_safety_audit x;
     au_semantic_policy_version := ss_policy_version <$> x_semantic_audit x;
     au_semantic_index_state := ss_index_state <$> x_semantic_audit x;
     au_semantic_degraded_reason := x_semantic_audit x ≫= ss_degraded_reason;
     au_semantic_findings := (λ a, json_to_string (JArray (finding_audit_json <$> ss_findings a))) <$> x_semantic_audit x;
     au_tool_trace := json_to_string <$> x_tool_audit x |}.

Definition log_entry (api_key : string) (model : option string) (input_tokens output_tokens : Z)
    (cost : f64) (is_streaming custom_cost_applied : bool) (audit : RequestAuditFields) (unix : Z)
    : RequestLogEntry := {|
  le_timestamp_unix := unix;
  le_api_key := api_key;
  le_project_id := au_project_id audit;
  le_session_id := au_session_id audit;
  le_metadata_json := au_metadata_json audit;
  le_custom_cost_json := au_custom_cost_json audit;
  le_custom_cost_applied := custom_cost_applied;
  le_provider_name := au_provider_name audit;
  le_prompt_name := au_prompt_name audit;
  le_prompt_version := au_prompt_version audit;
  le_prompt_environment := au_prompt_environment audit;
  le_model := model;
  le_input_tokens := input_tokens;
  le_output_tokens := output_tokens;
  le_cost := cost;
  le_is_streaming := is_streaming;
  le_safety_mode := au_safety_mode audit;
  le_safety_matches := au_safety_matches audit;
  le_semantic_policy_version := au_semantic_policy_version audit;
  le_semantic_index_state := au_semantic_index_state audit;
  le_semantic_degraded_reason := au_semantic_degraded_reason audit;
  le_semantic_findings := au_semantic_findings audit;
  le_tool_trace := au_tool_trace audit;
|}.

Definition send_audit_log (entry : RequestLogEntry) (t : CostTracker) : CostTracker :=
  t <| audit_log := audit_log t ++ [entry] |>.

Definition mask_key (key : string) : string :=
  if (8 <? String.length key)%nat then String.substring 0 8 key +:+ "..." else key.

Definition report_usage (key : string) (model : option string) (input output : Z) (cost : f64)
    (t : CostTracker) : CostTracker :=
  let masked := mask_key key in
  let label := default "unknown" model in
  let event metric labels u := {| me_metric := metric; me_labels := labels; me_update := u |} in
  t <| ct_metrics := foldl (λ m e, report e m) (ct_metrics t)
    [event "tokens_total" [masked; label; "input"] (IncBy input);
     event "tokens_total" [masked; label; "output"] (IncBy output);
     event "cost_dollars_total" [masked; label] (IncByF cost);
     event "request_tokens" ["input"] (Observe (f64_of_Z input));
     event "request_tokens" ["output"] (Observe (f64_of_Z output))] |>.

(** ** Answers *)

Definition json_body_response (st : StatusCode) (body : string) : Response :=
  {| status := st;
     resp_headers := hm_insert "content-type" (hv_from_static "application/json") hm_new;
     resp_body := full_body body |}.

Definition BUDGET_EXCEEDED_BODY : string :=
  "{" +:+ quoted_key "error" +:+ ":{" +:+ join ","
    ((λ f : string * string, quoted_key f.1 +:+ ":" +:+ quoted_key f.2) <$>
       [("message", "Budget limit exceeded"); ("type", "budget_exceeded_error");
        ("code", "budget_exceeded")]) +:+ "}}".

Definition budget_exceeded_response : Response := json_body_response 402%Z BUDGET_EXCEEDED_BODY.

Definition invalid_header_response (message code : string) : Response :=
  json_body_response 400%Z (json_to_string (json_literal [("error", json_literal
    [("message", JString message); ("type", JString "invalid_request_error");
     ("code", JString code)])])).

Definition invalid_request_metadata_response (message : string) : Response :=
  invalid_header_response message "invalid_request_metadata".

Definition invalid_request_custom_cost_response (message : string) : Response :=
  invalid_header_response message "invalid_request_custom_cost".

(** ** The hooks *)

Definition SESSION_ID_HEADER : string := "x-trp-session-id".

Definition extract_session_id (headers : HeaderMap) : HeaderMap * option string :=
  match hm_get SESSION_ID_HEADER headers with
  | None => (headers, None)
  | Some value =>
      (hm_remove SESSION_ID_HEADER headers,
       v ← hv_to_str value;
       match unicode_trim v with EmptyString => None | s => Some s end)
  end.

(** A day, a week, thirty days; the sum is an [i64]. *)
Definition is_window_expired (duration : string) (window_start now : Z) : bool :=
  match
    (if String.eqb duration "daily" then Some (24 * 3600)
     else if String.eqb duration "weekly" then Some (7 * 24 * 3600)
     else if String.eqb duration "monthly" then Some (30 * 24 * 3600)
     else None)%Z
  with
  | Some window_secs => (as_i64 (wrap64 (window_start + window_secs)) <=? now)%Z
  | None => false
  end.

(** The session header, then the metadata and the price header; an error answers
    the request. *)
Definition read_trace_headers (ctx : Ctx) : Ctx * option Response :=
  let '(h, session_id) := extract_session_id (ctx_headers ctx) in
  let ctx := ctx_set_headers h ctx in
  let ctx := match session_id with
    | Some session_id =>
        with_ext (λ x, x <| x_session_trace := Some session_id |>)
          (map_candidate_headers (hm_remove SESSION_ID_HEADER) ctx)
    | None => ctx
    end in
  let '(ctx, error) :=
    match x_request_metadata (ctx_ext ctx) with
    | Some _ => (ctx, None)
    | None =>
        let '(h, r) := take_request_metadata (ctx_headers ctx) in
        let ctx := ctx_set_headers h ctx in
        match r with
        | Ok (Some metadata) => (with_ext (λ x, x <| x_request_metadata := Some metadata |>) ctx, None)
        | Ok None => (ctx, None)
        | Err e => (ctx, Some (invalid_request_metadata_response e))
        end
    end in
  match error with
  | Some e => (ctx, Some e)
  | None =>
      match x_custom_cost (ctx_ext ctx) with
      | Some _ => (ctx, None)
      | None =>
          let '(h, r) := take_request_custom_cost (ctx_headers ctx) in
          let ctx := ctx_set_headers h ctx in
          match r with
          | Ok (Some c) => (with_ext (λ x, x <| x_custom_cost := Some c |>) ctx, None)
          | Ok None => (ctx, None)
          | Err e => (ctx, Some (invalid_request_custom_cost_response e))
          end
      end
  end.

(** The key a request is charged to, and its own budget. *)
Definition tracking (ctx : Ctx) : option (string * option f64) :=
  match x_virtual_key (ctx_ext ctx) with
  | Some vk => Some (vk_key_hash vk, vk_budget_limit vk)
  | None => (λ key, (key, None)) <$> extract_api_key (ctx_headers ctx)
  end.

(** The window of a virtual key is over. *)
Definition window_over (t : CostTracker) (ctx : Ctx) (tracking_key : string) (unix : Z) : bool :=
  match
    vk ← x_virtual_key (ctx_ext ctx);
    duration ← vk_budget_duration vk;
    window_start ← match budget_window_starts t !! tracking_key with
                   | Some w => Some w
                   | None => vk_budget_window_start vk
                   end;
    Some (is_window_expired duration window_start unix)
  with
  | Some b => b
  | None => false
  end.

(** Clears the key's total and its alerts, and starts a window. *)
Definition reset_window (tracking_key : string) (unix : Z) (t : CostTracker) (store : option St)
    : CostTracker * option St :=
  (t <| usage := delete tracking_key (usage t) |>
     <| webhook_fired := filter (λ p, p.1.1 ≠ tracking_key) (webhook_fired t) |>
     <| budget_window_starts := <[tracking_key := unix]> (budget_window_starts t) |>,
   (λ st, (update_virtual_key_budget_window st tracking_key unix).1) <$> store).

Definition over_budget (t : CostTracker) (key : string) (budget : f64) : bool :=
  match usage t !! key with Some u => f_le budget (total_cost u) | None => false end.

(** The budget check of a key; [true] refuses. *)
Definition check_budget (t : CostTracker) (store : option St) (ctx : Ctx) (tracking_key : string)
    (effective_budget : f64) (unix : Z) : CostTracker * option St * bool :=
  if f_lt f_zero effective_budget then
    let '(t, store) :=
      if window_over t ctx tracking_key unix then reset_window tracking_key unix t store
      else (t, store) in
    if over_budget t tracking_key effective_budget
    then (t <| ct_metrics := report (inc "budget_rejections_total" []) (ct_metrics t) |>, store, true)
    else (t, store, false)
  else (t, store, false).

Definition tracker_on_request (t : CostTracker) (store : option St) (ctx : Ctx) (unix : Z)
    : CostTracker * option St * Ctx * Action :=
  let '(ctx, error) := read_trace_headers ctx in
  match error with
  | Some resp => (t, store, ctx, Respond resp)
  | None =>
      match tracking ctx with
      | None => (t, store, ctx, Continue)
      | Some (tracking_key, per_key_budget) =>
          let estimated := from_option estimate_prompt_tokens 0%Z (ctx_body ctx) in
          let model := ctx_body ctx ≫= extract_model in
          let '(t, store, refused) :=
            check_budget t store ctx tracking_key (default (budget_limit t) per_key_budget) unix in
          if refused : bool then (t, store, ctx, Respond budget_exceeded_response)
          else
            (t, store,
             with_ext (λ x, x <| x_llm_meta := Some
               {| lm_api_key := tracking_key; lm_model := model;
                  lm_estimated_input_tokens := estimated |} |>) ctx,
             Continue)
      end
  end.

(** [content-type] names an event stream. *)
Definition is_sse (headers : HeaderMap) : bool :=
  match get_str "content-type" headers with
  | Some ct => contains ct "text/event-stream"
  | None => false
  end.

Definition is_success (st : StatusCode) : bool := ((200 <=? st) && (st <? 300))%Z.
Definition is_error_status (st : StatusCode) : bool := ((400 <=? st) && (st <? 600))%Z.

Definition first_u64 (usage : json) (a b : string) : option Z :=
  or_field (v ← json_get usage a; json_u64 v) (v ← json_get usage b; json_u64 v).

Definition extract_observed_response_usage (body : string) : option TokenUsage :=
  v ← json_from_str body;
  usage ← json_get v "usage";
  let input := first_u64 usage "prompt_tokens" "input_tokens" in
  let output := first_u64 usage "completion_tokens" "output_tokens" in
  match input, output with
  | None, None => None
  | _, _ => Some {| tu_input_tokens := default 0%Z input; tu_output_tokens := default 0%Z output |}
  end.

Definition tracker_transform_response (ctx : Ctx) (resp : Response) : Ctx * Response :=
  match x_custom_cost (ctx_ext ctx) with
  | None => (ctx, resp)
  | Some _ =>
      if is_sse (resp_headers resp) || negb (is_success (status resp)) then (ctx, resp)
      else
        match collect (resp_body resp) with
        | None =>
            (ctx, {| status := status resp; resp_headers := resp_headers resp; resp_body := full_body "" |})
        | Some bytes =>
            let ctx := match extract_observed_response_usage bytes with
              | Some u => with_ext (λ x, x <| x_observed_usage := Some u |>) ctx
              | None => ctx
              end in
            (ctx, {| status := status resp;
                     resp_headers := insert_text "content-length" (pretty (String.length bytes))
                                       (hm_remove "content-length" (resp_headers resp));
                     resp_body := full_body bytes |})
        end
  end.

(** The tokens a plain response is charged for; [None] when the request sets its
    prices and the response does not report its usage. *)
Definition response_usage (x : GatewayExt) (meta : LlmRequestMeta) (headers : HeaderMap)
    : option (Z * Z) :=
  let actual := match x_tool_usage_override x with Some u => Some u | None => x_observed_usage x end in
  match actual, x_custom_cost x with
  | Some u, _ => Some (tu_input_tokens u, tu_output_tokens u)
  | None, Some _ => None
  | None, None =>
      Some (lm_estimated_input_tokens meta,
            match (s ← get_str "content-length" headers; parse_uint (2 ^ 64 - 1) s) with
            | Some len => (len / 4)%Z
            | None => 0%Z
            end)
  end.

Definition effective_budget (t : CostTracker) (ctx : Ctx) : f64 :=
  default (budget_limit t) (x_virtual_key (ctx_ext ctx) ≫= vk_budget_limit).

Definition tracker_on_response (t : CostTracker) (ctx : Ctx) (resp : ResponseContext) (unix : Z)
    (clk : Clock) : CostTracker * Ctx :=
  let without_meta := with_ext (λ x, x <| x_llm_meta := None |>) ctx in
  if is_sse (rc_headers resp) then
    (t, if is_error_status (rc_status resp) then without_meta else ctx)
  else
    match x_llm_meta (ctx_ext ctx) with
    | None => (t, ctx)
    | Some meta =>
        if is_error_status (rc_status resp) then (t, without_meta)
        else
          let x := ctx_ext ctx in
          let ctx := with_ext (λ x, x <| x_llm_meta := None |> <| x_tool_usage_override := None |>
                                      <| x_observed_usage := None |>) ctx in
          let key := lm_api_key meta in
          let model := lm_model meta in
          match response_usage x meta (rc_headers resp) with
          | Some (input, output) =>
              let '(cost, applied) :=
                request_cost_from_usage (costs_for_model t model) (x_custom_cost x) input output in
              let '(t, total) := charge_key key input output cost t in
              let t := record_model_usage key model input output cost t in
              let t := send_audit_log
                (log_entry key model input output cost false applied (request_audit_fields ctx) unix) t in
              let t := check_and_fire_webhook key total (effective_budget t ctx) clk t in
              (report_usage key model input output cost t, ctx)
          | None =>
              (send_audit_log
                 (log_entry key model 0 0 f_zero false false (request_audit_fields ctx) unix) t, ctx)
          end
    end.

(** *** Streams *)

(** What the task spawned for a stream has captured. *)
Record StreamTask := {
  sk_meta : LlmRequestMeta;
  sk_effective_budget : f64;
  sk_audit : RequestAuditFields;
  sk_usage_override : option TokenUsage;
  sk_custom_cost : option RequestCustomCost;
}.

(** The body is wrapped, and a task waits for what the wrapper sends. *)
Definition tracker_wrap_response_body (t : CostTracker) (ctx : Ctx) (resp : ResponseContext)
    : CostTracker * option StreamTask :=
  if negb (is_sse (rc_headers resp)) then (t, None)
  else
    match x_llm_meta (ctx_ext ctx) with
    | None => (t, None)
    | Some meta =>
        (t <| ct_metrics := report (inc "streaming_requests_total" []) (ct_metrics t) |>,
         Some {| sk_meta := meta; sk_effective_budget := effective_budget t ctx;
                 sk_audit := request_audit_fields ctx;
                 sk_usage_override := x_tool_usage_override (ctx_ext ctx);
                 sk_custom_cost := x_custom_cost (ctx_ext ctx) |})
    end.

(** What the task charges, when tools or the stream told the usage. *)
Definition charge_stream (task : StreamTask) (stream_usage : option StreamUsage) (unix : Z)
    (clk : Clock) (t : CostTracker) : CostTracker :=
  let key := lm_api_key (sk_meta task) in
  let model := lm_model (sk_meta task) in
  let output := match sk_usage_override task with
    | Some u => tu_output_tokens u
    | None => default 0%Z (stream_usage ≫= completion_tokens)
    end in
  let input := match sk_usage_override task with
    | Some u => tu_input_tokens u
    | None => default (lm_estimated_input_tokens (sk_meta task)) (stream_usage ≫= prompt_tokens)
    end in
  let '(cost, applied) :=
    request_cost_from_usage (costs_for_model t model) (sk_custom_cost task) input output in
  let '(t, total) := charge_key key input output cost t in
  let t := check_and_fire_webhook key total (sk_effective_budget task) clk t in
  let t := record_model_usage key model input output cost t in
  let t := send_audit_log (log_entry key model input output cost true applied (sk_audit task) unix) t in
  report_usage key model input output cost t.

(** The task, once the channel answered; [None] also when the body was dropped. *)
Definition stream_finished (task : StreamTask) (stream_usage : option StreamUsage) (unix : Z)
    (clk : Clock) (t : CostTracker) : CostTracker :=
  if bool_decide (sk_usage_override task = None ∧ stream_usage = None) then
    match sk_custom_cost task with
    | Some _ =>
        send_audit_log (log_entry (lm_api_key (sk_meta task)) (lm_model (sk_meta task)) 0 0 f_zero
                          true false (sk_audit task) unix) t
    | None => t
    end
  else charge_stream task stream_usage unix clk t.

End tracker.

(** ** The store *)

Section store.
Context {St : Type} `{UsageStore St}.

(** [insert] of every row. *)
Definition insert_rows {K A} `{Countable K} (rows : list (K * A)) (m : gmap K A) : gmap K A :=
  foldl (λ m p, <[p.1 := p.2]> m) m rows.

Definition load_from_store : ST (CostTracker * St) StoreError () :=
  usage_rows ← st_zoom snd (λ s p, (p.1, s)) get_all_usage;
  _ ← st_modify (λ p, (p.1 <| usage := insert_rows usage_rows (usage p.1) |>, p.2));
  cost_rows ← st_zoom snd (λ s p, (p.1, s)) get_all_model_costs;
  _ ← st_modify (λ p, (p.1 <| model_costs := insert_rows cost_rows (model_costs p.1) |>, p.2));
  model_rows ← st_zoom snd (λ s p, (p.1, s)) get_all_per_model_usage;
  st_modify (λ p, (p.1 <| model_usage :=
    insert_rows ((λ r, ((mu_api_key r, mu_model r), mu_usage r)) <$> model_rows)
      (model_usage p.1) |>, p.2)).

(** The three loops of a flush; the first error ends it. *)
Definition flush_to_store (t : CostTracker) : ST St StoreError () :=
  _ ← st_for (map_to_list (usage t)) (λ p st, upsert_usage st p.1 p.2);
  _ ← st_for (map_to_list (model_costs t)) (λ p st, upsert_model_cost st p.1 p.2);
  st_for (map_to_list (model_usage t)) (λ p st,
    upsert_per_model_usage st {| mu_api_key := p.1.1; mu_model := p.1.2; mu_usage := p.2 |}).

(** A round of the flush task: errors are logged and the loops go on. *)
Definition flush_round (t : CostTracker) (st : St) : St :=
  let st := foldl (λ st p, (upsert_usage st p.1 p.2).1) st (map_to_list (usage t)) in
  let st := foldl (λ st p, (upsert_model_cost st p.1 p.2).1) st (map_to_list (model_costs t)) in
  foldl (λ st p, (upsert_per_model_usage st
    {| mu_api_key := p.1.1; mu_model := p.1.2; mu_usage := p.2 |}).1) st (map_to_list (model_usage t)).

End store.

(** ** Prices *)

(** [text.split(pat)] for a pattern of at least one character; [skip] counts
    what is left of a match. *)
Fixpoint split_str (pat : string) (skip : nat) (s : string) : list string :=
  match s with
  | EmptyString => [""]
  | String c s' =>
      match skip with
      | Datatypes.S k => split_str pat k s'
      | O =>
          if String.prefix pat s then "" :: split_str pat (String.length pat - 1) s'
          else
            match split_str pat 0 s' with
            | [] => [String c ""]
            | x :: l => String c x :: l
            end
      end
  end.

(** [text[..text.find(c)?]] *)
Fixpoint before_char (c : ascii) (s : string) : option string :=
  match s with
  | EmptyString => None
  | String a s' => if Ascii.eqb a c then Some "" else String a <$> before_char c s'
  end.

(** The text behind a colon, up to the closing quote. *)
Definition extract_json_string_after (text : string) : option string :=
  t ← strip_prefix ":" (unicode_trim_start text);
  t ← strip_prefix (String quote_char "") (unicode_trim_start t);
  before_char quote_char t.

Definition extract_json_string_value (text key : string) : option string :=
  after ← after_first key text;
  extract_json_string_after after.

Definition parse_f64 (s : string) : option f64 := parse_float f64_prec f64_emax s.

(** What a chunk behind [id] prices: the name after the provider, and the two
    prices per thousand tokens. *)
Definition openrouter_model (chunk : string) : option (string * ModelCost) :=
  model_id ← extract_json_string_after chunk;
  short_name ← after_first "/" model_id;
  prompt_price ← extract_json_string_value chunk (quoted_key "prompt") ≫= parse_f64;
  completion_price ← extract_json_string_value chunk (quoted_key "completion") ≫= parse_f64;
  let input_per_1k := f64_mul prompt_price f64_1000 in
  let output_per_1k := f64_mul completion_price f64_1000 in
  if f_lt f_zero input_per_1k || f_lt f_zero output_per_1k
  then Some (short_name, {| mc_input := input_per_1k; mc_output := output_per_1k |})
  else None.

(** [entry(name).or_insert(cost)] for every chunk that has prices. *)
Definition parse_openrouter_models (body : string) (costs : gmap string ModelCost)
    : gmap string ModelCost * nat :=
  if bool_decide (from_utf8_lossy (bytes_of body) = body) then
    let models := omap openrouter_model (tail (split_str (quoted_key "id") 0 body)) in
    (foldl (λ m p, match m !! p.1 with Some _ => m | None => <[p.1 := p.2]> m end) costs models,
     length models)
  else (costs, 0%nat).

(** ** Construction *)

Section construction.
Context `{Toml}.

Definition toml_f64 (v : tvalue) (key : string) (d : f64) : f64 :=
  default d (v ← toml_get v key; toml_number v).

Definition toml_u64 (v : tvalue) (key : string) (d : Z) : Z :=
  wrap64 (default d (v ← toml_get v key; as_integer v)).

Definition f64_literal (s : string) : f64 := default f_zero (parse_f64 s).

(** [env] is the environment of the process. *)
Definition create_tracker (env : string → option string) (config : tvalue) : CostTracker :=
  let default_in := toml_f64 config "default_cost_per_1k_input" (f64_literal "0.01") in
  let default_out := toml_f64 config "default_cost_per_1k_output" (f64_literal "0.02") in
  let plugin := cost_tracker_new (toml_f64 config "budget_limit" f_zero) default_in default_out
                  (toml_u64 config "log_interval_secs" 60) in
  let plugin :=
    match v ← toml_get config "webhook_url"; as_str v with
    | None => plugin
    | Some raw_url =>
        match (match strip_prefix "$" raw_url with
               | Some var_name => default "" (env var_name)
               | None => raw_url
               end) with
        | EmptyString => plugin
        | url =>
            with_webhook url
              (match v ← toml_get config "budget_alert_thresholds"; as_array v with
               | Some arr => omap (λ v, wrap64 <$> as_integer v) arr
               | None => [50; 80; 100]%Z
               end)
              (toml_u64 config "budget_alert_ttl" 86400) plugin
        end
    end in
  match v ← toml_get config "model_costs"; as_table v with
  | None => plugin
  | Some table =>
      plugin <| model_costs := foldl (λ m p,
        <[p.1 := {| mc_input := toml_f64 p.2 "input" default_in;
                    mc_output := toml_f64 p.2 "output" default_out |}]> m) (model_costs plugin) table |>
  end.

End construction.
