(* ===== verification/CostTrackerProps.v ===== *)
(** * The budgets: what is proved

    The tracker against the history of what it logged: the totals are the bills
    of the log, a request is refused exactly when the bill of its key has reached
    the budget, and what is flushed to the store is loaded again. *)

From S2P Require Import Prelude RecordSet RustStr F64 Json Auth Http Plugin Sql StateResult GatewayContext UsageStore StreamUsage CostTracker.

Local Open Scope string_scope.
Local Open Scope list_scope.
Local Open Scope rust_scope.

(** ** The history *)

Inductive TrackerEvent :=
| Logged (e : RequestLogEntry)
| WindowReset (key : string) (unix : Z)
| KeyReset (key : string)
| AllReset.

(** The entries that were charged: those of requests that set their prices and
    got no usage back are logged only. *)
Definition charged (e : RequestLogEntry) : bool :=
  le_custom_cost_applied e || bool_decide (le_custom_cost_json e = None).

Definition bill_entry (u : option KeyUsage) (e : RequestLogEntry) : option KeyUsage :=
  Some (usage_add (default zero_usage u) (le_input_tokens e) (le_output_tokens e) (le_cost e)).

(** The bill of a key: its charged entries since the last reset. *)
Definition account_step (key : string) (u : option KeyUsage) (ev : TrackerEvent) : option KeyUsage :=
  match ev with
  | Logged e => if charged e && String.eqb (le_api_key e) key then bill_entry u e else u
  | WindowReset k _ | KeyReset k => if String.eqb k key then None else u
  | AllReset => None
  end.

Definition account (key : string) (h : list TrackerEvent) : option KeyUsage :=
  foldl (account_step key) None h.

(** The bill of a key and a model, over the whole history. *)
Definition model_step (key model : string) (u : option KeyUsage) (ev : TrackerEvent) : option KeyUsage :=
  match ev with
  | Logged e =>
      if charged e && String.eqb (le_api_key e) key
         && String.eqb (default "unknown" (le_model e)) model
      then bill_entry u e else u
  | _ => u
  end.

Definition model_account (key model : string) (h : list TrackerEvent) : option KeyUsage :=
  foldl (model_step key model) None h.

(** The start of the key's window. *)
Definition window_step (key : string) (w : option Z) (ev : TrackerEvent) : option Z :=
  match ev with
  | WindowReset k unix => if String.eqb k key then Some unix else w
  | _ => w
  end.

Definition window_start (key : string) (h : list TrackerEvent) : option Z :=
  foldl (window_step key) None h.

(** The tracker holds what the history says. *)
Record agrees_with (h : list TrackerEvent) (t : CostTracker) : Prop := {
  ag_usage : ∀ k, usage t !! k = account k h;
  ag_model : ∀ k m, model_usage t !! (k, m) = model_account k m h;
  ag_window : ∀ k, budget_window_starts t !! k = window_start k h;
}.

(** [t'] holds the same totals as [t]. *)
Record same_totals (t t' : CostTracker) : Prop := {
  st_usage : usage t' = usage t;
  st_model : model_usage t' = model_usage t;
  st_window : budget_window_starts t' = budget_window_starts t;
  st_limit : budget_limit t' = budget_limit t;
}.

Lemma same_totals_agrees h t t' : same_totals t t' → agrees_with h t → agrees_with h t'.
Proof. intros [Hu Hm Hw _] [? ? ?]. by split; intros; rewrite ?Hu, ?Hm, ?Hw. Qed.

Lemma same_totals_trans t1 t2 t3 : same_totals t1 t2 → same_totals t2 t3 → same_totals t1 t3.
Proof. intros [? ? ? ?] [? ? ? ?]. split; congruence. Qed.

Lemma fire_thresholds_same url key total budget pct ths clk t :
  same_totals t (fire_thresholds url key total budget pct ths clk t) ∧
  audit_log (fire_thresholds url key total budget pct ths clk t) = audit_log t.
Proof.
  revert clk t. induction ths as [|th ths IH]; intros clk t; simpl; [by repeat split|].
  destruct (f_lt _ _); [apply IH|]. case_match; [apply IH|].
  match goal with |- context [fire_thresholds _ _ _ _ _ _ ?c ?t'] => destruct (IH c t') as [[? ? ? ?] ?] end.
  by split.
Qed.

Lemma webhook_same key total budget clk t :
  same_totals t (check_and_fire_webhook key total budget clk t) ∧
  audit_log (check_and_fire_webhook key total budget clk t) = audit_log t.
Proof.
  unfold check_and_fire_webhook. destruct (webhook_url t); [|by repeat split].
  destruct (f_le _ _); [by repeat split|]. apply fire_thresholds_same.
Qed.

(** Logging an entry and adding it to the totals keeps the tracker in step. *)
Lemma agrees_log_only h t e :
  charged e = false → agrees_with h t → agrees_with (h ++ [Logged e]) (send_audit_log e t).
Proof.
  intros Hc [Hu Hm Hw]. split; intros; unfold account, model_account, window_start;
    rewrite foldl_app; cbn [foldl account_step model_step window_step]; rewrite ?Hc; cbn [andb];
    [apply Hu|apply Hm|apply Hw].
Qed.

Lemma agrees_charge h t e t' :
  charged e = true → agrees_with h t →
  usage t' = <[le_api_key e := usage_add (default zero_usage (usage t !! le_api_key e))
                (le_input_tokens e) (le_output_tokens e) (le_cost e)]> (usage t) →
  model_usage t' = <[(le_api_key e, default "unknown" (le_model e)) :=
                usage_add (default zero_usage (model_usage t !! (le_api_key e, default "unknown" (le_model e))))
                (le_input_tokens e) (le_output_tokens e) (le_cost e)]> (model_usage t) →
  budget_window_starts t' = budget_window_starts t →
  agrees_with (h ++ [Logged e]) t'.
Proof.
  intros Hc [Hu Hm Hw] Eu Em Ew.
  split; intros k; [| intros m |]; unfold account, model_account, window_start; rewrite foldl_app;
    cbn [foldl account_step model_step window_step]; rewrite ?Hc; cbn [andb].
  - rewrite Eu. destruct (String.eqb_spec (le_api_key e) k) as [<-|Hne].
    + rewrite lookup_insert_eq, Hu. done.
    + by rewrite lookup_insert_ne, Hu.
  - rewrite Em. destruct (String.eqb_spec (le_api_key e) k) as [<-|Hne]; cbn [andb].
    + destruct (String.eqb_spec (default "unknown" (le_model e)) m) as [<-|Hne].
      * rewrite lookup_insert_eq, Hm. done.
      * rewrite lookup_insert_ne, Hm; [done|]. by intros [= ?].
    + rewrite lookup_insert_ne, Hm; [done|]. by intros [= ? ?].
  - by rewrite Ew, Hw.
Qed.

Lemma agrees_reset h t key :
  agrees_with h t → agrees_with (h ++ [KeyReset key]) (reset_usage key t).1.
Proof.
  intros [Hu Hm Hw]. split; intros; unfold account, model_account, window_start;
    rewrite foldl_app; cbn [foldl account_step model_step window_step]; [|apply Hm|apply Hw].
  simpl. destruct (String.eqb_spec key k) as [<-|Hne];
    [apply lookup_delete_eq|rewrite lookup_delete_ne by done; apply Hu].
Qed.

Lemma agrees_reset_all h t : agrees_with h t → agrees_with (h ++ [AllReset]) (reset_all_usage t).
Proof.
  intros [Hu Hm Hw]. split; intros; unfold account, model_account, window_start;
    rewrite foldl_app; cbn [foldl account_step model_step window_step]; [done|apply Hm|apply Hw].
Qed.

(** ** Runs *)

(** The entries a call sent to the log. *)
Definition new_events (t t' : CostTracker) : list TrackerEvent :=
  Logged <$> drop (length (audit_log t)) (audit_log t').

Lemma new_events_app t t' l : audit_log t' = audit_log t ++ l → new_events t t' = Logged <$> l.
Proof. intros E. unfold new_events. by rewrite E, drop_app_length. Qed.

Lemma new_events_none t t' : audit_log t' = audit_log t → new_events t t' = [].
Proof. intros E. apply (new_events_app t t' []). by rewrite app_nil_r. Qed.

Section runs.
Context `{Http} `{SerdeJson} `{HeaderPayloads} {S : Type} {St : Type} `{UsageStore St}.

Notation Ctx := (RequestContext (H0 := gateway_types S)).

Lemma audit_custom (ctx : Ctx) :
  au_custom_cost_json (request_audit_fields ctx) = None ↔ x_custom_cost (ctx_ext ctx) = None.
Proof. cbn. by destruct (x_custom_cost _). Qed.

Lemma charged_entry key model i o cost stream audit unix mc custom i' o' :
  (au_custom_cost_json audit = None ↔ custom = None) →
  charged (log_entry key model i o cost stream (request_cost_from_usage mc custom i' o').2 audit unix) = true.
Proof.
  intros Hc. unfold charged. cbn. destruct custom as [c|]; [done|]. cbn.
  by rewrite (proj2 Hc eq_refl).
Qed.

Lemma uncharged_entry key model i o cost stream audit unix (custom : option RequestCustomCost) :
  (au_custom_cost_json audit = None ↔ custom = None) → is_Some custom →
  charged (log_entry key model i o cost stream false audit unix) = false.
Proof.
  intros Hc [c ->]. unfold charged. cbn. apply bool_decide_eq_false. intros E. by apply Hc in E.
Qed.

(** A call that may charge: it sends at most one entry and stays in step. *)
Definition charges (t t' : CostTracker) : Prop :=
  budget_limit t' = budget_limit t ∧
  ∀ h, agrees_with h t → agrees_with (h ++ new_events t t') t'.

Lemma charges_nothing t t' : same_totals t t' → audit_log t' = audit_log t → charges t t'.
Proof.
  intros Hs He. split; [apply Hs|]. intros h Ha. rewrite (new_events_none _ _ He), app_nil_r.
  by eapply same_totals_agrees.
Qed.

Lemma charges_log t e : charged e = false → charges t (send_audit_log e t).
Proof.
  intros Hc. split; [done|]. intros h Ha. rewrite (new_events_app _ _ [e]) by done.
  by apply agrees_log_only.
Qed.

Lemma on_response_charges t (ctx : Ctx) resp unix clk :
  charges t (tracker_on_response t ctx resp unix clk).1.
Proof.
  assert (charges t t) as Hid by by apply charges_nothing.
  unfold tracker_on_response. destruct (is_sse _); [done|].
  destruct (x_llm_meta _) as [meta|]; [|done]. destruct (is_error_status _); [done|].
  destruct (response_usage _ _ _) as [[input output]|] eqn:Eu.
  - pose proof (charged_entry (lm_api_key meta) (lm_model meta) input output
      (request_cost_from_usage (costs_for_model t (lm_model meta)) (x_custom_cost (ctx_ext ctx)) input output).1
      false (request_audit_fields ctx) unix (costs_for_model t (lm_model meta)) _ input output
      (audit_custom ctx)) as Hch.
    destruct (request_cost_from_usage _ _ _ _) as [cost applied]. cbn [fst snd charge_key] in *.
    match goal with |- context [check_and_fire_webhook ?k ?tot ?b ?c ?t1] =>
      destruct (webhook_same k tot b c t1) as [[Su Sm Sw Sl] Slog] end.
    cbn in Su, Sm, Sw, Sl, Slog.
    split; [done|]. intros h Ha.
    erewrite new_events_app by (cbn; rewrite Slog; done).
    eapply agrees_charge; [exact Hch|exact Ha|..]; cbn; [by rewrite Su|by rewrite Sm|by rewrite Sw].
  - apply charges_log. eapply uncharged_entry; [apply audit_custom|].
    unfold response_usage in Eu. destruct (x_tool_usage_override (ctx_ext ctx)); [done|].
    destruct (x_observed_usage (ctx_ext ctx)); [done|]. cbn.
    destruct (x_custom_cost (ctx_ext ctx)); [done|]. discriminate Eu.
Qed.

(** The task of a stream: what it logs and what it charges belong to one request. *)
Definition task_wf (task : StreamTask) : Prop :=
  au_custom_cost_json (sk_audit task) = None ↔ sk_custom_cost task = None.

Lemma wrap_task_wf t (ctx : Ctx) resp task :
  (tracker_wrap_response_body t ctx resp).2 = Some task → task_wf task.
Proof.
  unfold tracker_wrap_response_body. destruct (negb _); [done|].
  destruct (x_llm_meta _); [|done]. intros [= <-]. apply audit_custom.
Qed.

Lemma wrap_charges t (ctx : Ctx) resp : charges t (tracker_wrap_response_body t ctx resp).1.
Proof.
  unfold tracker_wrap_response_body. destruct (negb _); [by apply charges_nothing|].
  by destruct (x_llm_meta _); apply charges_nothing.
Qed.

Lemma charge_stream_charges task usage unix clk t :
  task_wf task → charges t (charge_stream task usage unix clk t).
Proof.
  intros Hwf. unfold charge_stream.
  set (input := match sk_usage_override task with Some u => tu_input_tokens u | None => _ end).
  set (output := match sk_usage_override task with Some u => tu_output_tokens u | None => _ end).
  pose proof (charged_entry (lm_api_key (sk_meta task)) (lm_model (sk_meta task)) input output
    (request_cost_from_usage (costs_for_model t (lm_model (sk_meta task))) (sk_custom_cost task) input output).1
    true (sk_audit task) unix (costs_for_model t (lm_model (sk_meta task))) _ input output Hwf) as Hch.
  destruct (request_cost_from_usage _ _ _ _) as [cost applied]. cbn [fst snd charge_key] in *.
  match goal with |- context [check_and_fire_webhook ?k ?tot ?b ?c ?t1] =>
    destruct (webhook_same k tot b c t1) as [[Su Sm Sw Sl] Slog] end.
  cbn in Su, Sm, Sw, Sl, Slog. split; [by cbn; rewrite Sl|]. intros h Ha.
  erewrite new_events_app by (cbn; rewrite Slog; done).
  eapply agrees_charge; [exact Hch|exact Ha|..]; cbn; [by rewrite Su|by rewrite Sm|by rewrite Sw].
Qed.

Lemma stream_charges task usage unix clk t :
  task_wf task → charges t (stream_finished task usage unix clk t).
Proof.
  intros Hwf. unfold stream_finished. case_bool_decide; [|by apply charge_stream_charges].
  destruct (sk_custom_cost task) as [c|] eqn:Ec; [|by apply charges_nothing].
  apply charges_log. eapply uncharged_entry; [exact Hwf|by rewrite Ec].
Qed.

(** *** A budget check *)

(** The window the history gives a key is over. *)
Definition in_new_window (h : list TrackerEvent) (ctx : Ctx) (key : string) (unix : Z) : bool :=
  match
    vk ← x_virtual_key (ctx_ext ctx);
    duration ← vk_budget_duration vk;
    start ← match window_start key h with
            | Some w => Some w
            | None => vk_budget_window_start vk
            end;
    Some (is_window_expired duration start unix)
  with
  | Some b => b
  | None => false
  end.

(** The bill a request with this key is judged by. *)
Definition current_bill (h : list TrackerEvent) (ctx : Ctx) (key : string) (unix : Z) : option KeyUsage :=
  if in_new_window h ctx key unix then None else account key h.

(** There is a budget, and the bill has reached it. *)
Definition spent (h : list TrackerEvent) (ctx : Ctx) (key : string) (budget : f64) (unix : Z) : bool :=
  f_lt f_zero budget &&
  match current_bill h ctx key unix with
  | Some u => f_le budget (total_cost u)
  | None => false
  end.

Lemma window_over_history h t ctx key unix :
  agrees_with h t → window_over t ctx key unix = in_new_window h ctx key unix.
Proof. intros Ha. unfold window_over, in_new_window. by rewrite (ag_window _ _ Ha). Qed.

(** What a budget check adds to the history. *)
Definition check_events (t : CostTracker) (ctx : Ctx) (key : string) (budget : f64) (unix : Z)
    : list TrackerEvent :=
  if f_lt f_zero budget && window_over t ctx key unix then [WindowReset key unix] else [].

Lemma agrees_window_reset h t key unix (store : option St) :
  agrees_with h t → agrees_with (h ++ [WindowReset key unix]) (reset_window key unix t store).1.
Proof.
  intros [Hu Hm Hw]. split; intros; unfold account, model_account, window_start;
    rewrite foldl_app; cbn [foldl account_step model_step window_step]; [|apply Hm|].
  - simpl. destruct (String.eqb_spec key k) as [<-|Hne];
      [apply lookup_delete_eq|rewrite lookup_delete_ne by done; apply Hu].
  - simpl. destruct (String.eqb_spec key k) as [<-|Hne];
      [apply lookup_insert_eq|rewrite lookup_insert_ne by done; apply Hw].
Qed.

Lemma reset_window_usage t key unix (store : option St) :
  usage (reset_window key unix t store).1 !! key = None.
Proof. simpl. apply lookup_delete_eq. Qed.

Lemma check_budget_history h t (store : option St) ctx key budget unix :
  agrees_with h t →
  let r := check_budget t store ctx key budget unix in
  agrees_with (h ++ check_events t ctx key budget unix) r.1.1 ∧
  budget_limit r.1.1 = budget_limit t ∧ audit_log r.1.1 = audit_log t ∧
  r.2 = spent h ctx key budget unix.
Proof.
  intros Ha. unfold check_budget, check_events, spent, current_bill.
  rewrite <-(window_over_history _ _ ctx key unix Ha).
  destruct (f_lt f_zero budget); cbn [andb]; [|by rewrite app_nil_r].
  destruct (window_over t ctx key unix).
  - pose proof (agrees_window_reset h t key unix store Ha) as Hr.
    assert (over_budget (reset_window key unix t store).1 key budget = false) as Ho
      by (unfold over_budget; by rewrite reset_window_usage).
    unfold reset_window in *. cbn [fst] in *. rewrite Ho. by split_and!.
  - rewrite app_nil_r. unfold over_budget at 1 2 3 4. rewrite <-(ag_usage _ _ Ha key).
    destruct (usage t !! key) as [u|]; [|by split_and!].
    destruct (f_le _ _); split_and!; try done. by apply (same_totals_agrees h t).
Qed.

Lemma read_trace_headers_body (ctx ctx' : Ctx) o :
  read_trace_headers ctx = (ctx', o) → ctx_body ctx' = ctx_body ctx.
Proof.
  unfold read_trace_headers. destruct (extract_session_id _) as [h [sid|]].
  all: destruct (x_request_metadata _); [|destruct (take_request_metadata _) as [h1 [[m|]|e]]].
  all: try (destruct (x_custom_cost _); [|destruct (take_request_custom_cost _) as [h2 [[c|]|e']]]).
  all: by intros [= <- _].
Qed.

(** *** Operations *)

Record Run := {
  run_tracker : CostTracker;
  run_store : option St;
  run_tasks : list StreamTask;
  run_history : list TrackerEvent;
}.

(** The calls of the proxy and of the management API, in any order: requests,
    responses and streams overlap as they like. *)
Inductive TrackerOp :=
| OpRequest (ctx : Ctx) (unix : Z)
| OpResponse (ctx : Ctx) (resp : ResponseContext) (unix : Z) (clk : Clock)
| OpStreamStart (ctx : Ctx) (resp : ResponseContext)
| OpStreamEnd (n : nat) (usage : option StreamUsage) (unix : Z) (clk : Clock)
| OpResetKey (key : string)
| OpResetAll
| OpModelCost (model : string) (input output : f64)
| OpDrain (n : nat).

Definition request_events (t : CostTracker) (ctx : Ctx) (unix : Z) : list TrackerEvent :=
  match read_trace_headers ctx with
  | (_, Some _) => []
  | (ctx, None) =>
      match tracking ctx with
      | None => []
      | Some (key, own) => check_events t ctx key (default (budget_limit t) own) unix
      end
  end.

Definition run_op (r : Run) (o : TrackerOp) : Run :=
  let t := run_tracker r in
  let ran t' tasks events :=
    {| run_tracker := t'; run_store := run_store r; run_tasks := tasks;
       run_history := run_history r ++ events |} in
  match o with
  | OpRequest ctx unix =>
      let '(t', store, _, _) := tracker_on_request t (run_store r) ctx unix in
      {| run_tracker := t'; run_store := store; run_tasks := run_tasks r;
         run_history := run_history r ++ request_events t ctx unix |}
  | OpResponse ctx resp unix clk =>
      let t' := (tracker_on_response t ctx resp unix clk).1 in ran t' (run_tasks r) (new_events t t')
  | OpStreamStart ctx resp =>
      let '(t', task) := tracker_wrap_response_body t ctx resp in
      ran t' (run_tasks r ++ option_list task) (new_events t t')
  | OpStreamEnd n usage unix clk =>
      match run_tasks r !! n with
      | None => r
      | Some task =>
          let t' := stream_finished task usage unix clk t in
          ran t' (delete n (run_tasks r)) (new_events t t')
      end
  | OpResetKey key => ran (reset_usage key t).1 (run_tasks r) [KeyReset key]
  | OpResetAll => ran (reset_all_usage t) (run_tasks r) [AllReset]
  | OpModelCost model input output => ran (set_model_cost model input output t) (run_tasks r) []
  | OpDrain n => ran (t <| audit_log := drop n (audit_log t) |>) (run_tasks r) []
  end.

Definition run_ops (limit in_1k out_1k : f64) (store : option St) (ops : list TrackerOp) : Run :=
  foldl run_op
    {| run_tracker := cost_tracker_new limit in_1k out_1k 60; run_store := store; run_tasks := [];
       run_history := [] |} ops.

Record run_ok (limit : f64) (r : Run) : Prop := {
  ro_agrees : agrees_with (run_history r) (run_tracker r);
  ro_tasks : Forall task_wf (run_tasks r);
  ro_limit : budget_limit (run_tracker r) = limit;
}.

Lemma on_request_history h t (store : option St) ctx unix :
  agrees_with h t →
  let r := tracker_on_request t store ctx unix in
  agrees_with (h ++ request_events t ctx unix) r.1.1.1 ∧
  budget_limit r.1.1.1 = budget_limit t.
Proof.
  intros Ha. unfold tracker_on_request, request_events.
  destruct (read_trace_headers ctx) as [ctx1 [resp|]]; [by rewrite app_nil_r|].
  destruct (tracking ctx1) as [[key own]|]; [|by rewrite app_nil_r].
  pose proof (check_budget_history h t store ctx1 key (default (budget_limit t) own) unix Ha) as Hc.
  destruct (check_budget _ _ _ _ _ _) as [[t' store'] refused]. cbn in Hc.
  destruct Hc as (Hh & Hl & _ & _). by destruct refused.
Qed.

Lemma run_op_ok limit r o : run_ok limit r → run_ok limit (run_op r o).
Proof.
  intros [Ha Ht Hl].
  assert (∀ t' tasks, charges (run_tracker r) t' → Forall task_wf tasks →
    run_ok limit {| run_tracker := t'; run_store := run_store r; run_tasks := tasks;
                    run_history := run_history r ++ new_events (run_tracker r) t' |}) as Hran.
  { intros t' tasks [Hb Hc] Hw. split; [by apply Hc|done|by cbn; rewrite Hb]. }
  destruct o as [ctx unix|ctx resp unix clk|ctx resp|n usage unix clk|key| |model input output|n]; cbn [run_op].
  - pose proof (on_request_history _ _ (run_store r) ctx unix Ha) as [Hh Hb].
    destruct (tracker_on_request _ _ _ _) as [[[t' store] ctx'] action]. split; [done|done|].
    cbn in *. by rewrite Hb.
  - by apply Hran; [apply on_response_charges|].
  - pose proof (wrap_charges (run_tracker r) ctx resp) as Hc.
    pose proof (wrap_task_wf (run_tracker r) ctx resp) as Hw.
    destruct (tracker_wrap_response_body _ _ _) as [t' task]. apply Hran; [done|].
    apply Forall_app. split; [done|]. destruct task; [|done]. cbn. constructor; [by apply Hw|done].
  - destruct (run_tasks r !! n) as [task|] eqn:En; [|done].
    apply Hran; [apply stream_charges|by apply Forall_delete].
    by eapply Forall_lookup_1.
  - split; [by apply agrees_reset|done|done].
  - split; [by apply agrees_reset_all|done|done].
  - split; [|done|done]. cbn [run_history run_tracker]. rewrite app_nil_r. by apply (same_totals_agrees _ (run_tracker r)).
  - split; [|done|done]. cbn [run_history run_tracker]. rewrite app_nil_r. by apply (same_totals_agrees _ (run_tracker r)).
Qed.

Lemma run_ops_ok limit in_1k out_1k store ops : run_ok limit (run_ops limit in_1k out_1k store ops).
Proof.
  unfold run_ops. rewrite <-(rev_involutive ops). induction (rev ops) as [|o l IH]; simpl.
  - split; [|done|done]. split; intros; apply lookup_empty.
  - rewrite foldl_app. by apply run_op_ok.
Qed.

(** C30: The totals are the bills: after any interleaving of requests, responses,
    streams, resets and price changes, the total of a key is the sum of what the
    log charged it since its last reset, and the total of a key and a model the
    sum of what the log ever charged them. *)
Theorem totals_are_the_bills limit in_1k out_1k (store : option St) ops :
  let r := run_ops limit in_1k out_1k store ops in
  (∀ key, tracker_get_usage (run_tracker r) key = account key (run_history r)) ∧
  (∀ key model, model_usage (run_tracker r) !! (key, model) = model_account key model (run_history r)).
Proof. intros r. destruct (run_ops_ok limit in_1k out_1k store ops) as [[? ? ?] _ _]. by split. Qed.


End runs.

(** ** Flushing and loading *)

Section roundtrip.
Context {St : Type} `{UsageStoreOk St}.

Lemma insert_rows_perm {K A} `{Countable K} (rows : list (K * A)) (m0 m : gmap K A) :
  rows ≡ₚ map_to_list m → insert_rows rows m0 = m ∪ m0.
Proof.
  intros Hp. unfold insert_rows.
  assert (∀ l (acc : gmap K A), NoDup l.*1 →
    foldl (λ m p, <[p.1 := p.2]> m) acc l = list_to_map l ∪ acc) as Hf.
  { induction l as [|[k a] l IH]; intros acc Hnd; simpl; [by rewrite (left_id_L ∅ (∪))|].
    apply NoDup_cons in Hnd as [Hk Hnd]. rewrite IH by done.
    rewrite <-insert_union_l, insert_union_r; [done|]. by apply not_elem_of_list_to_map_1. }
  assert (NoDup rows.*1) as Hnd by (rewrite Hp; apply NoDup_fst_map_to_list).
  rewrite Hf by done. f_equal. rewrite (list_to_map_proper _ _ Hnd Hp). apply list_to_map_to_list.
Qed.

(** A loop of writes, each to one row of a table. *)
Lemma flush_loop {K A} `{Countable K} (m : gmap K A) (f : A → A)
    (table : UsageTables → gmap K A) (set_table : gmap K A → UsageTables → UsageTables)
    (write : K * A → ST St StoreError ()) :
  (∀ x t, table (set_table x t) = x) → (∀ t, set_table (table t) t = t) →
  (∀ x y t, set_table x (set_table y t) = set_table x t) →
  (∀ p st st', write p st = (st', Ok ()) →
     usage_tables st' = set_table (<[p.1 := f p.2]> (table (usage_tables st))) (usage_tables st)) →
  ∀ st st', st_for (map_to_list m) write st = (st', Ok ()) →
    usage_tables st' = set_table ((f <$> m) ∪ table (usage_tables st)) (usage_tables st).
Proof.
  intros Hget Hid Hset Hw.
  assert (∀ l st st', st_for l write st = (st', Ok ()) →
    usage_tables st' = set_table (insert_rows (prod_map id f <$> l) (table (usage_tables st)))
                         (usage_tables st)) as Hl.
  { induction l as [|p l IH]; intros st st' E; simpl in E; [injection E as <-; symmetry; apply Hid|].
    apply ST_bind_ok in E as (st1 & [] & E1 & E2). rewrite (IH _ _ E2), (Hw _ _ _ E1), Hget, Hset. done. }
  intros st st' E. rewrite (Hl _ _ _ E). f_equal. apply insert_rows_perm. by rewrite map_to_list_fmap.
Qed.

(** What a successful flush leaves in the tables. *)
Definition flushed (t : CostTracker) (tb : UsageTables) : UsageTables :=
  tb <| api_key_usage := (db_usage <$> usage t) ∪ api_key_usage tb |>
     <| model_pricing := (db_cost <$> model_costs t) ∪ model_pricing tb |>
     <| api_key_model_usage := (db_usage <$> model_usage t) ∪ api_key_model_usage tb |>.

Lemma flush_tables t st st' :
  flush_to_store t st = (st', Ok ()) → usage_tables st' = flushed t (usage_tables st).
Proof.
  intros E. unfold flush_to_store in E.
  apply ST_bind_ok in E as (st1 & [] & E1 & E). apply ST_bind_ok in E as (st2 & [] & E2 & E3).
  eapply (flush_loop (usage t) db_usage api_key_usage (λ x t, t <| api_key_usage := x |>)) in E1;
    [|done|by intros []|done|by intros p ? ? Ew%write_usage].
  eapply (flush_loop (model_costs t) db_cost model_pricing (λ x t, t <| model_pricing := x |>)) in E2;
    [|done|by intros []|done|by intros p ? ? Ew%write_cost].
  eapply (flush_loop (model_usage t) db_usage api_key_model_usage (λ x t, t <| api_key_model_usage := x |>))
    in E3; [|done|by intros []|done|by intros [[k m] u] ? ? Ew%write_model_usage].
  rewrite E3, E2, E1. done.
Qed.

Lemma load_tables t st t' st' :
  load_from_store (t, st) = ((t', st'), Ok ()) →
  usage t' = api_key_usage (usage_tables st) ∪ usage t ∧
  model_costs t' = model_pricing (usage_tables st) ∪ model_costs t ∧
  model_usage t' = api_key_model_usage (usage_tables st) ∪ model_usage t.
Proof.
  intros E. unfold load_from_store in E.
  apply ST_bind_ok in E as ([t1 st1] & rows1 & E1 & E). unfold st_zoom in E1. simpl in E1.
  destruct (get_all_usage st) as [s1 r1] eqn:G1. injection E1 as <- <- ->.
  apply read_usage in G1 as [Ht1 Hr1].
  apply ST_bind_ok in E as ([t2 st2] & [] & [= <- <-] & E).
  apply ST_bind_ok in E as ([t3 st3] & rows2 & E2 & E). unfold st_zoom in E2. simpl in E2.
  destruct (get_all_model_costs s1) as [s2 r2] eqn:G2. injection E2 as <- <- ->.
  apply read_costs in G2 as [Ht2 Hr2].
  apply ST_bind_ok in E as ([t4 st4] & [] & [= <- <-] & E).
  apply ST_bind_ok in E as ([t5 st5] & rows3 & E3 & E). unfold st_zoom in E3. simpl in E3.
  destruct (get_all_per_model_usage s2) as [s3 r3] eqn:G3. injection E3 as <- <- ->.
  apply read_model_usage in G3 as [Ht3 Hr3].
  injection E as <- <-. simpl.
  rewrite (insert_rows_perm _ _ _ (Hr1 _ eq_refl)), (insert_rows_perm _ _ _ (Hr2 _ eq_refl)),
    (insert_rows_perm _ _ _ (Hr3 _ eq_refl)). by rewrite Ht2, Ht1.
Qed.

(** What a tracker flushed is loaded after a restart: once a flush succeeded,
    a fresh tracker that loads the store has every total and every price the old
    one had, and what the store held of other keys. *)
Theorem flushed_totals_are_loaded t st st1 limit in_1k out_1k t' st2 :
  flush_to_store t st = (st1, Ok ()) →
  load_from_store (cost_tracker_new limit in_1k out_1k 60, st1) = ((t', st2), Ok ()) →
  usage t' = (db_usage <$> usage t) ∪ api_key_usage (usage_tables st) ∧
  model_costs t' = (db_cost <$> model_costs t) ∪ model_pricing (usage_tables st) ∧
  model_usage t' = (db_usage <$> model_usage t) ∪ api_key_model_usage (usage_tables st).
Proof.
  intros Ef%flush_tables El%load_tables. rewrite Ef in El. cbn in El.
  by rewrite !(right_id_L ∅ (∪)) in El.
Qed.

End roundtrip.

(** ** Witnesses and findings *)

Module TrackerDemo.

#[export] Existing Instance list_http.
#[export] Existing Instance array_json.

(** Headers are not parsed, but for one price. *)
#[export] Instance demo_headers : HeaderPayloads := {|
  metadata_entries _ := Err "unsupported";
  custom_cost_payload s := if String.eqb s "free" then Ok (f_zero, f_zero) else Err "unsupported";
|}.

Definition demo_ctx (headers : list (string * string)) (vk : option VirtualKeyMeta)
    : @RequestContext list_http (gateway_types unit) :=
  with_ext (H := list_http) (λ x, x <| x_virtual_key := vk |>) {|
    ctx_peer_addr := None;
    ctx_method := "POST";
    ctx_uri := "/v1/chat/completions";
    ctx_version := HTTP_11;
    ctx_headers := headers;
    ctx_body := Some (String.concat "" (repeat "0123456789" 400));
    ctx_route := None;
    ctx_selected_upstream := None;
    ctx_auth := None;
    ctx_connection := (tt : @ConnExtensions (gateway_types unit));
    ctx_extensions := @ext_new list_http (gateway_types unit);
  |}.

Definition response (headers : list (string * string)) : @ResponseContext list_http :=
  {| rc_status := 200%Z; rc_headers := headers; rc_upstream := "http://a.test"; rc_duration := 0%Z |}.

Definition clk0 : Clock := λ _, 0%Z.

(** A request and its response, one after the other. *)
Definition exchange (t : CostTracker) (store : option UsageDb)
    (ctx : @RequestContext list_http (gateway_types unit)) (unix : Z)
    : CostTracker * option UsageDb * bool :=
  match tracker_on_request t store ctx unix with
  | (t, store, ctx, Continue) =>
      ((tracker_on_response t ctx (response [("content-length", "4000")]) unix clk0).1, store, true)
  | (t, store, _, Respond _) => (t, store, false)
  end.

Definition one_dollar : f64 := f64_of_Z 1.
Definition bearer : list (string * string) := [("authorization", "Bearer k1")].

(** A thousand tokens each way at a dollar a thousand, against a budget of one. *)
Definition demo_ops : list (@TrackerOp list_http unit) :=
  let ctx := demo_ctx bearer None in
  let meta := {| lm_api_key := "k1"; lm_model := None; lm_estimated_input_tokens := 1000 |} in
  [OpRequest ctx 5;
   OpResponse (with_ext (λ x, x <| x_llm_meta := Some meta |>) ctx)
     (response [("content-length", "4000")]) 6 clk0].


(** A virtual key with a dollar a day; its window started at 0. *)
Definition daily_key : VirtualKeyMeta := {|
  vk_key_hash := "h1"; vk_project_id := "p"; vk_provider_name := "openai";
  vk_budget_limit := Some one_dollar; vk_budget_duration := Some "daily";
  vk_budget_window_start := Some 0%Z; vk_rpm_limit := None; vk_tpm_limit := None;
  vk_tool_approval_mode := AllowAll; vk_allowed_tools := None |}.

Definition empty_tables : UsageTables :=
  {| api_key_usage := ∅; model_pricing := ∅; api_key_model_usage := ∅; request_log := [];
     virtual_keys := ∅; managed_provider_rows := ∅ |}.

Definition empty_db : UsageDb := {| db_tables := empty_tables; db_faults := [] |}.

Definition day : Z := 86400.

Definition tracker0 : CostTracker := cost_tracker_new f_zero one_dollar one_dollar 60.

(** The key spends its budget, and the totals are flushed. *)
Definition after_spending : CostTracker * UsageDb :=
  let '(t, store, _) := exchange tracker0 (Some empty_db) (demo_ctx [] (Some daily_key)) 10 in
  (t, (flush_to_store t (default empty_db store)).1).

Lemma flushed_totals_are_loaded_witness :
  ∃ t' st2, load_from_store (tracker0, after_spending.2) = ((t', st2), Ok ()) ∧
    total_cost <$> usage t' !! "h1" = Some (f64_of_Z 2).
Proof.
  destruct (load_from_store (tracker0, after_spending.2)) as [[t' st2] r] eqn:El.
  assert (r = Ok ()) as -> by (apply (f_equal snd) in El; vm_compute in El; congruence).
  exists t', st2. split; [done|].
  assert (flush_to_store (St := UsageDb) after_spending.1 empty_db = (after_spending.2, Ok ())) as Ef
    by (vm_compute; reflexivity).
  destruct (flushed_totals_are_loaded (St := UsageDb) after_spending.1 empty_db after_spending.2
    f_zero one_dollar one_dollar t' st2 Ef El) as (-> & _).
  vm_compute. reflexivity.
Defined.

(** The next day the window is over: a request that is refused for another reason
    clears the total, but only in memory. *)
Definition next_day : CostTracker * UsageDb :=
  let '(t, store, _, _) :=
    tracker_on_request after_spending.1 (Some after_spending.2) (demo_ctx [] (Some daily_key)) (day + 10) in
  (t, (flush_to_store t (default empty_db store)).1).

(** After a restart the spent total of the last window is loaded into the new
    one, and the key is refused for the rest of it. *)
Theorem spent_window_is_loaded_again :
  usage next_day.1 !! "h1" = None ∧
  let t := (load_from_store (tracker0, next_day.2)).1.1 in
  (exchange t (Some next_day.2)
     (demo_ctx [] (Some {|
        vk_key_hash := "h1"; vk_project_id := "p"; vk_provider_name := "openai";
        vk_budget_limit := Some one_dollar; vk_budget_duration := Some "daily";
        vk_budget_window_start := Some (day + 10)%Z; vk_rpm_limit := None; vk_tpm_limit := None;
        vk_tool_approval_mode := AllowAll; vk_allowed_tools := None |})) (day + 20)).2 = false.
Proof. by vm_compute. Qed.

(** A client that sets its own price to zero is never refused. *)
Theorem free_requests_pass_the_budget :
  let free := demo_ctx (("cf-aig-custom-cost", "free") :: bearer) None in
  let t := cost_tracker_new one_dollar one_dollar one_dollar 60 in
  let '(t1, st1, ok1) := exchange t None free 1 in
  let '(t2, st2, ok2) := exchange t1 st1 free 2 in
  let '(t3, st3, ok3) := exchange t2 st2 free 3 in
  (ok1, ok2, ok3) = (true, true, true) ∧ usage t3 = ∅ ∧
  (exchange (exchange t None (demo_ctx bearer None) 1).1.1 None (demo_ctx bearer None) 2).2 = false.
Proof. by vm_compute. Qed.

(** A stream that does not report its usage is neither charged nor logged. *)
Theorem silent_streams_are_free task unix clk t :
  sk_usage_override task = None → sk_custom_cost task = None →
  stream_finished task None unix clk t = t.
Proof. intros Eo Ec. unfold stream_finished. by rewrite Eo, Ec. Qed.

(** A model named inside the messages is the one that is priced. *)
Theorem nested_model_is_priced :
  extract_model ("{" +:+ quoted_key "metadata" +:+ ":{" +:+ quoted_key "model" +:+ ":"
    +:+ quoted_key "cheap" +:+ "}," +:+ quoted_key "model" +:+ ":" +:+ quoted_key "dear" +:+ "}")
  = Some "cheap".
Proof. by vm_compute. Qed.

End TrackerDemo.
