(* ===== verification/SessionRollup.v ===== *)
(** * Sessions rolled up from the request log

    Model of the drain task of [plugin-llm-gateway/src/cost_tracker.rs]: what the
    log sent is written to the store in batches, and each batch is rolled up into
    the records of its sessions and their events. *)

From S2P Require Import Prelude RecordSet RustStr F64 Json Sql StateResult UsageStore CostTracker SessionStore RecoveryProps.

Local Open Scope string_scope.
Local Open Scope list_scope.
Local Open Scope rust_scope.

(** The calls of a [ToolRuntimeAudit] that [serde] reads from text: the name of
    the tool and the status. *)
Class ToolTraces := tool_trace_calls : string → option (list (string * string)).

(** ** Merging an entry *)

Section merge.
Context `{SerdeJson} `{ToolTraces}.

Definition saturating_add_u64 (a b : Z) : Z := Z.min u64_max (a + b).

Definition parse_json_string_set (raw : option string) : list string :=
  set_of_list (default [] (raw ≫= strings_from_str)).

Definition serialize_json_string_set (values : list string) : option string :=
  match values with [] => None | _ => Some (strings_to_string values) end.

Definition add_to_set (raw : option string) (value : option string) : option string :=
  let values := parse_json_string_set raw in
  serialize_json_string_set (from_option (λ v, set_insert v values) values value).

(** [serde_json::from_str(...).ok()] with [null] for what has no value. *)
Definition embedded (text : option string) : json := default JNull (text ≫= json_from_str).

Definition build_latest_request_json (e : RequestLogEntry) : json := json_literal [
  ("timestamp_unix", json_of_Z (le_timestamp_unix e));
  ("metadata", embedded (le_metadata_json e));
  ("custom_cost", embedded (le_custom_cost_json e));
  ("custom_cost_applied", JBool (le_custom_cost_applied e));
  ("provider_name", json_opt_str (le_provider_name e));
  ("model", json_opt_str (le_model e));
  ("prompt_name", json_opt_str (le_prompt_name e));
  ("prompt_version", json_opt_str (le_prompt_version e));
  ("prompt_environment", json_opt_str (le_prompt_environment e));
  ("safety_mode", json_opt_str (le_safety_mode e));
  ("semantic_index_state", json_opt_str (le_semantic_index_state e));
  ("semantic_degraded_reason", json_opt_str (le_semantic_degraded_reason e))].

Definition some_findings (o : option string) : bool :=
  match o with Some v => negb (String.eqb v "[]") && negb (String.eqb v "") | None => false end.

Definition request_has_safety_event (e : RequestLogEntry) : bool :=
  bool_decide (is_Some (le_safety_mode e)) || some_findings (le_safety_matches e).

Definition request_has_semantic_event (e : RequestLogEntry) : bool :=
  bool_decide (is_Some (le_semantic_policy_version e))
  || bool_decide (is_Some (le_semantic_index_state e))
  || bool_decide (is_Some (le_semantic_degraded_reason e))
  || some_findings (le_semantic_findings e).

Definition request_has_semantic_degraded_event (e : RequestLogEntry) : bool :=
  bool_decide (is_Some (le_semantic_degraded_reason e))
  || bool_decide (le_semantic_index_state e = Some "degraded").

(** The projects, and the project when there is one only. *)
Definition merge_projects (e : RequestLogEntry) (r : SessionRecord) : SessionRecord :=
  let ids := parse_json_string_set (sr_project_ids_json r) in
  let ids := from_option (λ v, set_insert v ids) ids (le_project_id e) in
  r <| sr_project_id := match ids with [id] => Some id | _ => None end |>
    <| sr_project_ids_json := serialize_json_string_set ids |>.

Definition merge_names (e : RequestLogEntry) (r : SessionRecord) : SessionRecord :=
  r <| sr_providers_json := add_to_set (sr_providers_json r) (le_provider_name e) |>
    <| sr_models_json := add_to_set (sr_models_json r) (le_model e) |>
    <| sr_prompt_names_json := add_to_set (sr_prompt_names_json r) (le_prompt_name e) |>
    <| sr_prompt_versions_json := add_to_set (sr_prompt_versions_json r)
         (name ← le_prompt_name e; version ← le_prompt_version e; Some (name +:+ "@" +:+ version)) |>.

Definition tool_errors (calls : list (string * string)) : Z :=
  Z.of_nat (length (filter (λ c, c.2 = "error") calls)).

Definition merge_tools (e : RequestLogEntry) (r : SessionRecord) : SessionRecord :=
  let names := parse_json_string_set (sr_tool_names_json r) in
  match le_tool_trace e ≫= tool_trace_calls with
  | None => r <| sr_tool_names_json := serialize_json_string_set names |>
  | Some calls =>
      r <| sr_tool_call_count :=
             saturating_add_u64 (sr_tool_call_count r) (Z.of_nat (length calls)) |>
        <| sr_tool_error_count := saturating_add_u64 (sr_tool_error_count r) (tool_errors calls) |>
        <| sr_tool_names_json :=
             serialize_json_string_set (foldl (λ s c, set_insert c.1 s) names calls) |>
  end.

Definition merge_times (e : RequestLogEntry) (r : SessionRecord) : SessionRecord :=
  let at_ := le_timestamp_unix e in
  let r := r <| sr_first_request_unix := Some (from_option (λ t, Z.min t at_) at_ (sr_first_request_unix r)) |> in
  let r :=
    if from_option (λ t, (t <=? at_)%Z) true (sr_last_request_unix r)
    then r <| sr_last_request_unix := Some at_ |>
           <| sr_latest_request_json := Some (json_to_string (build_latest_request_json e)) |>
    else r in
  r <| sr_updated_at_unix := Z.max (sr_updated_at_unix r) at_ |>.

Definition count_if (b : bool) (n : Z) : Z := if b then saturating_add_u64 n 1 else n.

Definition merge_counts (e : RequestLogEntry) (r : SessionRecord) : SessionRecord :=
  r <| sr_request_count := saturating_add_u64 (sr_request_count r) 1 |>
    <| sr_streaming_request_count := count_if (le_is_streaming e) (sr_streaming_request_count r) |>
    <| sr_total_input_tokens := saturating_add_u64 (sr_total_input_tokens r) (le_input_tokens e) |>
    <| sr_total_output_tokens := saturating_add_u64 (sr_total_output_tokens r) (le_output_tokens e) |>
    <| sr_total_cost := f64_add (sr_total_cost r) (le_cost e) |>
    <| sr_safety_event_count := count_if (request_has_safety_event e) (sr_safety_event_count r) |>
    <| sr_semantic_event_count := count_if (request_has_semantic_event e) (sr_semantic_event_count r) |>
    <| sr_semantic_degraded_count :=
         count_if (request_has_semantic_degraded_event e) (sr_semantic_degraded_count r) |>.

Definition merge_session_entry (r : SessionRecord) (e : RequestLogEntry) : SessionRecord :=
  merge_counts e (merge_times e (merge_tools e (merge_names e (merge_projects e r)))).

Definition tool_summary (e : RequestLogEntry) : json :=
  match le_tool_trace e ≫= tool_trace_calls with
  | None => JNull
  | Some calls => json_literal [
      ("tool_names", JArray (JString ∘ fst <$> calls));
      ("tool_call_count", json_of_Z (Z.of_nat (length calls)));
      ("tool_error_count", json_of_Z (tool_errors calls))]
  end.

Definition build_request_session_event (session_id : string) (e : RequestLogEntry)
    : SessionEventRecord := {|
  se_event_seq := 0%Z;
  se_session_id := session_id;
  se_project_id := le_project_id e;
  se_event_kind := "request_observed";
  se_actor_id := None;
  se_reason := None;
  se_payload_json := Some (json_to_string (json_literal [
    ("timestamp_unix", json_of_Z (le_timestamp_unix e));
    ("metadata", embedded (le_metadata_json e));
    ("custom_cost", embedded (le_custom_cost_json e));
    ("custom_cost_applied", JBool (le_custom_cost_applied e));
    ("provider_name", json_opt_str (le_provider_name e));
    ("model", json_opt_str (le_model e));
    ("prompt_name", json_opt_str (le_prompt_name e));
    ("prompt_version", json_opt_str (le_prompt_version e));
    ("prompt_environment", json_opt_str (le_prompt_environment e));
    ("input_tokens", json_of_Z (le_input_tokens e));
    ("output_tokens", json_of_Z (le_output_tokens e));
    ("cost", json_of_f64 (le_cost e));
    ("is_streaming", JBool (le_is_streaming e));
    ("safety_mode", json_opt_str (le_safety_mode e));
    ("semantic_index_state", json_opt_str (le_semantic_index_state e));
    ("semantic_degraded_reason", json_opt_str (le_semantic_degraded_reason e));
    ("tool_summary", tool_summary e)]));
  se_created_at_unix := le_timestamp_unix e;
|}.

(** ** A batch *)

(** [grouped.entry(session_id).or_default().push(entry)] *)
Definition group_step (m : gmap string (list RequestLogEntry)) (e : RequestLogEntry)
    : gmap string (list RequestLogEntry) :=
  match le_session_id e with
  | None => m
  | Some sid => <[sid := default [] (m !! sid) ++ [e]]> m
  end.

Definition group_by_session (entries : list RequestLogEntry) : gmap string (list RequestLogEntry) :=
  foldl group_step ∅ entries.

Section batch.
Context {S : Type} `{SessionStore S}.

Definition roll_up_session (p : string * list RequestLogEntry) : ST S StoreError () :=
  o ← (λ s, get_session s p.1);
  let record := foldl merge_session_entry (default (blank_session p.1 0%Z) o) p.2 in
  _ ← (λ s, upsert_session s record);
  st_for p.2 (λ e, _ ← (λ s, append_session_event s (build_request_session_event p.1 e)); mret ()).

Definition upsert_session_rollups (entries : list RequestLogEntry) : ST S StoreError () :=
  st_for (map_to_list (group_by_session entries)) roll_up_session.

(** A round of the drain task: at most 64 entries, [count] of them ready; a batch
    that cannot be written is dropped. *)
Definition drain_round `{UsageStore S} (count : nat) (t : CostTracker) (s : S) : CostTracker * S :=
  let n := (count `min` 64)%nat in
  let buf := take n (audit_log t) in
  let t := t <| audit_log := drop n (audit_log t) |> in
  match append_request_logs s buf with
  | (s, Ok _) => (t, (upsert_session_rollups buf s).1)
  | (s, Err _) => (t, s)
  end.

End batch.
End merge.

(** ** Rolling up is one fold per session *)

(** The entries of a session, in their order. *)
Definition entries_of (sid : string) (entries : list RequestLogEntry) : list RequestLogEntry :=
  filter (λ e, le_session_id e = Some sid) entries.

Section rollup_props.
Context `{SerdeJson} `{ToolTraces} {S : Type} `{SessionStoreOk S}.

(** The specification: the record of a session after the entries. *)
Definition rolled_up (sid : string) (entries : list RequestLogEntry) (old : option SessionRecord)
    : option SessionRecord :=
  match entries_of sid entries with
  | [] => old
  | l => Some (foldl merge_session_entry (default (blank_session sid 0%Z) old) l)
  end.

Lemma group_lookup sid entries :
  group_by_session entries !! sid = match entries_of sid entries with [] => None | l => Some l end.
Proof.
  unfold group_by_session, entries_of. rewrite <-(rev_involutive entries).
  induction (rev entries) as [|e l IH]; simpl; [apply lookup_empty|].
  rewrite foldl_app, filter_app. cbn [foldl]. set (m := foldl group_step ∅ (rev l)) in *.
  unfold group_step.
  destruct (le_session_id e) as [k|] eqn:Ek.
  - destruct (decide (k = sid)) as [->|Hne].
    + rewrite lookup_insert_eq, IH, filter_cons_True by done. by destruct (filter _ (rev l)).
    + rewrite lookup_insert_ne, IH by done. rewrite filter_cons_False by congruence. by rewrite app_nil_r.
  - rewrite IH, filter_cons_False by congruence. by rewrite app_nil_r.
Qed.

Lemma rolled_up_app sid l1 l2 old :
  rolled_up sid (l1 ++ l2) old = rolled_up sid l2 (rolled_up sid l1 old).
Proof.
  unfold rolled_up, entries_of. rewrite filter_app.
  destruct (filter _ l1) as [|e1 t1] eqn:E1; [done|].
  destruct (filter _ l2) as [|e2 t2] eqn:E2; [by rewrite app_nil_r|].
  exact (f_equal Some (foldl_app merge_session_entry (e1 :: t1) (e2 :: t2) _)).
Qed.

Lemma merge_tools_id e r : sr_session_id (merge_tools e r) = sr_session_id r.
Proof. unfold merge_tools. by destruct (_ ≫= _). Qed.

Lemma merge_times_id e r : sr_session_id (merge_times e r) = sr_session_id r.
Proof. unfold merge_times. by destruct (from_option _ _ _). Qed.

Lemma merge_id r e : sr_session_id (merge_session_entry r e) = sr_session_id r.
Proof.
  unfold merge_session_entry.
  transitivity (sr_session_id (merge_times e (merge_tools e (merge_names e (merge_projects e r)))));
    [done|]. by rewrite merge_times_id, merge_tools_id.
Qed.

Lemma merge_all_id l r : sr_session_id (foldl merge_session_entry r l) = sr_session_id r.
Proof. revert r. induction l as [|e l IH]; intros r; [done|]. simpl. by rewrite IH, merge_id. Qed.

Lemma append_events_state (sid : string) l s s' r :
  st_for l (λ e, _ ← (λ s, append_session_event s (build_request_session_event sid e)); mret ()) s = (s', r) →
  session_state (session_tables s') = session_state (session_tables s).
Proof.
  revert s s' r. induction l as [|e l IH]; intros s s' r E; simpl in E; [by injection E as <- _|].
  destruct (append_session_event s (build_request_session_event sid e)) as [s1 r1] eqn:Ea.
  unfold mbind, ST_bind in E. rewrite Ea in E. apply write_event in Ea.
  destruct r1 as [seq|err]; [|injection E as <- _; by rewrite Ea].
  rewrite (IH _ _ _ E), Ea. done.
Qed.

Lemma roll_up_session_state p s s' :
  keyed s → roll_up_session p s = (s', Ok ()) →
  session_state (session_tables s') =
    <[p.1 := foldl merge_session_entry
               (default (blank_session p.1 0%Z) (session_state (session_tables s) !! p.1)) p.2]>
      (session_state (session_tables s)).
Proof.
  intros Hk E. unfold roll_up_session in E.
  apply ST_bind_ok in E as (s1 & o & Er & E). apply read_session in Er as [Ht Ho].
  specialize (Ho o eq_refl). apply ST_bind_ok in E as (s2 & [] & Ew & E).
  apply write_session in Ew. apply append_events_state in E. rewrite E, Ew, Ht. cbn.
  rewrite merge_all_id, Ht in *. subst o. f_equal.
  destruct (session_state (session_tables s) !! p.1) as [r|] eqn:El; [|done]. by apply Hk in El.
Qed.

Lemma keyed_insert s s' sid rec :
  keyed s → session_state (session_tables s') = <[sid := rec]> (session_state (session_tables s)) →
  sr_session_id rec = sid → keyed s'.
Proof.
  intros Hk E Hid k r. rewrite E, lookup_insert. case_decide; [naive_solver|apply Hk].
Qed.

Lemma roll_up_keyed p s s' : keyed s → roll_up_session p s = (s', Ok ()) → keyed s'.
Proof.
  intros Hk E. eapply keyed_insert; [exact Hk|by apply roll_up_session_state|].
  rewrite merge_all_id. destruct (_ !! _) as [r|] eqn:El; [|done]. by apply Hk in El.
Qed.

Lemma roll_up_list l s s' :
  keyed s → NoDup l.*1 → st_for l roll_up_session s = (s', Ok ()) →
  keyed s' ∧ ∀ sid, session_state (session_tables s') !! sid =
    match (list_to_map l : gmap string (list RequestLogEntry)) !! sid with
    | None => session_state (session_tables s) !! sid
    | Some es => Some (foldl merge_session_entry
        (default (blank_session sid 0%Z) (session_state (session_tables s) !! sid)) es)
    end.
Proof.
  revert s. induction l as [|[k es] l IH]; intros s Hk Hnd E; simpl in E; [by injection E as <-|].
  apply NoDup_cons in Hnd as [Hnk Hnd]. apply ST_bind_ok in E as (s1 & [] & E1 & E).
  pose proof (roll_up_keyed _ _ _ Hk E1) as Hk1.
  apply roll_up_session_state in E1; [|done]. destruct (IH s1 Hk1 Hnd E) as [Hk' Hl].
  split; [done|]. intros sid. rewrite Hl, E1. cbn [list_to_map foldr fst snd].
  destruct (decide (k = sid)) as [<-|Hne].
  - rewrite (not_elem_of_list_to_map_1 l k Hnk). by rewrite !lookup_insert_eq.
  - by rewrite !lookup_insert_ne.
Qed.

Lemma rollup_batch entries s s' :
  keyed s → upsert_session_rollups entries s = (s', Ok ()) →
  keyed s' ∧ ∀ sid, session_state (session_tables s') !! sid =
    rolled_up sid entries (session_state (session_tables s) !! sid).
Proof.
  intros Hk E. apply roll_up_list in E as [Hk' Hl]; [|done|apply NoDup_fst_map_to_list].
  split; [done|]. intros sid. rewrite Hl, list_to_map_to_list, group_lookup. unfold rolled_up.
  by destruct (entries_of sid entries).
Qed.

(** C36: Rolling up does not depend on the batches: when the drain task has written
    the batches of a log, the record of each session is what merging the
    session's entries one by one, in the order of the log, makes of the record
    it had; sessions the log does not name are untouched. *)
Theorem rollup_ignores_batching batches s s' :
  keyed s →
  st_for batches upsert_session_rollups s = (s', Ok ()) →
  ∀ sid, session_state (session_tables s') !! sid =
    rolled_up sid (concat batches) (session_state (session_tables s) !! sid).
Proof.
  revert s. induction batches as [|b batches IH]; intros s Hk E sid; simpl in E; [by injection E as <-|].
  apply ST_bind_ok in E as (s1 & [] & E1 & E). destruct (rollup_batch _ _ _ Hk E1) as [Hk1 Hl].
  cbn [concat]. rewrite rolled_up_app, <-Hl. by apply IH.
Qed.

End rollup_props.

(** ** Witness *)

Definition demo_entry (sid : string) (unix input : Z) : RequestLogEntry := {|
  le_timestamp_unix := unix; le_api_key := "k"; le_project_id := Some "p"; le_session_id := Some sid;
  le_metadata_json := None; le_custom_cost_json := None; le_custom_cost_applied := false;
  le_provider_name := Some "openai"; le_prompt_name := None; le_prompt_version := None;
  le_prompt_environment := None; le_model := None; le_input_tokens := input; le_output_tokens := 1;
  le_cost := f_zero; le_is_streaming := false; le_safety_mode := None; le_safety_matches := None;
  le_semantic_policy_version := None; le_semantic_index_state := None;
  le_semantic_degraded_reason := None; le_semantic_findings := None; le_tool_trace := None |}.

Lemma rollup_ignores_batching_witness :
  let traces : ToolTraces := λ _, None in
  let batches := [[demo_entry "s9" 10 3; demo_entry "s1" 11 4]; [demo_entry "s9" 12 5]] in
  ∃ s', st_for batches (upsert_session_rollups (H := array_json)) (demo_store []) = (s', Ok ()) ∧
    sr_total_input_tokens <$> session_state (session_tables s') !! "s9" = Some 8%Z.
Proof.
  intros traces batches.
  destruct (st_for batches (upsert_session_rollups (H := array_json)) (demo_store [])) as [s' r] eqn:E.
  assert (r = Ok ()) as -> by (apply (f_equal snd) in E; vm_compute in E; congruence).
  exists s'. split; [done|].
  rewrite (rollup_ignores_batching batches (demo_store []) s' (demo_store_keyed _) E "s9").
  vm_compute. reflexivity.
Defined.
