(* ===== verification/Providers.v ===== *)
(** * The LLM gateway: managed providers

    Model of the provider part of [plugin-llm-gateway/src/virtual_keys.rs]: the
    records an operator stores over the providers of the configuration, how a
    record is resolved against its base, and the indexes of effective providers
    that every change rebuilds. *)

From S2P Require Import Prelude RecordSet RustStr F64 Json Sql StateResult Config ConfigSurfaces UsageStore.

Local Open Scope string_scope.
Local Open Scope list_scope.
Local Open Scope rust_scope.

(** What [serde_json] reads of a surface catalog, and its error texts. *)
Class SerdeTexts := {
  surfaces_from_str : string → result string ProviderSurfaceCatalog;
  strings_error : string → string;
  json_error : string → string;
}.

(** ** Resolving a record *)

Section resolve.
Context `{SerdeJson} `{SerdeTexts}.

(** The environment of the process. *)
Variable env : string → option string.

Definition resolve_provider_api_key_env (env_var : string) : result string string :=
  match unicode_trim env_var with
  | EmptyString => Err "api_key_env must not be empty"
  | trimmed =>
      ok_or (env trimmed) ("provider api_key_env '" +:+ trimmed +:+ "' is not set in the environment")
  end.

(** An optional array of strings of an object. *)
Definition string_entries (object : json) (field : string) : result string (list string) :=
  match json_get object field with
  | None => Ok []
  | Some v =>
      let? arr := ok_or (json_array v) ("routing_metadata." +:+ field +:+ " must be an array of strings") in
      collect_results ((λ e, ok_or (json_str e)
        ("routing_metadata." +:+ field +:+ " entries must be strings")) <$> arr)
  end.

Definition parse_provider_routing_metadata_json (raw : option string)
    : result string ProviderRoutingMetadataConfig :=
  match raw with
  | None => Ok routing_default
  | Some raw =>
      let? value := ok_or (json_from_str raw) ("routing_metadata must be valid JSON: " +:+ json_error raw) in
      let? _ := ok_or (json_object value) "routing_metadata must be a JSON object" in
      let? dc :=
        match v ← json_get value "data_collection"; json_str v with
        | None => Ok None
        | Some mode =>
            result_map Some (ok_or (enum_parse (A := ProviderDataCollectionMode) mode)
              ("routing_metadata.data_collection must be one of allow, deny (got '" +:+ mode +:+ "')"))
        end in
      let flag f := default false (v ← json_get value f; json_bool v) in
      let? q := string_entries value "quantizations" in
      let? f := string_entries value "supported_parameter_families" in
      Ok {| data_collection := dc; zdr := flag "zdr"; distillable_text := flag "distillable_text";
            quantizations := q; supported_parameter_families := f |}
  end.

(** [or_else(base)] then [ok_or_else]. *)
Definition own_or_base {A} (own base : option A) (error : string) : result string A :=
  ok_or (match own with Some a => Some a | None => base end) error.

Definition resolve_managed_provider_record (record : ManagedProviderRecord)
    (base : option ProviderKeyConfig) : result string ProviderKeyConfig :=
  let must what := "provider '" +:+ mp_name record +:+ "' must " +:+ what in
  let? api_key :=
    match mp_api_key_env record with
    | Some env_var => resolve_provider_api_key_env env_var
    | None => ok_or (pk_api_key <$> base) (must "set api_key_env")
    end in
  let? base_url := own_or_base (mp_base_url record) (pk_base_url <$> base) (must "set base_url") in
  let? own_models :=
    match mp_models_json record with
    | None => Ok None
    | Some raw => result_map Some (ok_or (strings_from_str raw)
        ("models must be a JSON array of strings: " +:+ strings_error raw))
    end in
  let? models := own_or_base own_models (pk_models <$> base) (must "set models") in
  let? _ := match models with [] => Err (must "have at least one model") | _ => Ok () end in
  let api_key_header :=
    match mp_api_key_header record with
    | Some h => h
    | None => default "authorization" (pk_api_key_header <$> base)
    end in
  let timeout_secs :=
    match mp_timeout_secs record with Some t => Some t | None => base ≫= pk_timeout_secs end in
  let? routing_metadata :=
    match mp_routing_metadata_json record with
    | Some raw => parse_provider_routing_metadata_json (Some raw)
    | None => Ok (default routing_default (pk_routing_metadata <$> base))
    end in
  let? explicit_surfaces :=
    match mp_surfaces_json record with
    | None => Ok None
    | Some raw =>
        match surfaces_from_str raw with
        | Ok s => Ok (Some s)
        | Err e => Err ("invalid surfaces_json: " +:+ e)
        end
    end in
  let surfaces :=
    match explicit_surfaces with
    | Some s => s
    | None => default catalog_default (pk_surfaces <$> base)
    end in
  let? family :=
    match mp_family record with
    | Some raw =>
        result_map Some (ok_or (enum_parse (A := ProviderFamily) raw) ("invalid family '" +:+ raw +:+ "'"))
    | None => Ok (family_kind <$> base)
    end in
  let? family := from_optional_parts (mp_name record) family surfaces in
  Ok (refresh_derived_semantics (provider_new
    {| pcc_name := mp_name record; pcc_api_key := api_key; pcc_base_url := base_url;
       pcc_models := models; pcc_api_key_header := api_key_header;
       pcc_timeout_secs := timeout_secs; pcc_routing_metadata := routing_metadata |} family)).

(** ** The indexes *)

Record Providers := {
  base_providers : gmap string ProviderKeyConfig;
  base_provider_order : list string;
  managed_providers : gmap string ManagedProviderRecord;
  eff_providers : gmap string ProviderKeyConfig;
  provider_order : list string;
  model_to_provider : gmap string (list string);
}.

#[global] Instance Providers_set : Settable Providers := λ p,
  {| base_providers := base_providers p; base_provider_order := base_provider_order p;
     managed_providers := managed_providers p; eff_providers := eff_providers p;
     provider_order := provider_order p; model_to_provider := model_to_provider p |}.

(** The overlays, by name. *)
Definition managed_provider_records (p : Providers) : list ManagedProviderRecord :=
  sort_by (λ l r, String.leb (mp_name l) (mp_name r)) ((map_to_list (managed_providers p)).*2).

(** The body of the loop over the overlays. *)
Definition apply_overlay (base : gmap string ProviderKeyConfig) (effective : gmap string ProviderKeyConfig)
    (record : ManagedProviderRecord) : gmap string ProviderKeyConfig :=
  if negb (mp_enabled record) then delete (mp_name record) effective
  else
    match resolve_managed_provider_record record (base !! mp_name record) with
    | Ok provider => <[mp_name record := provider]> effective
    | Err _ => delete (mp_name record) effective
    end.

(** The providers of no configuration, by age and then by name. *)
Definition dynamic_leb (p : Providers) (l r : string) : bool :=
  match managed_providers p !! l, managed_providers p !! r with
  | Some x, Some y =>
      if String.eqb (mp_created_at x) (mp_created_at y) then String.leb l r
      else String.leb (mp_created_at x) (mp_created_at y)
  | _, _ => String.leb l r
  end.

Definition dynamic_names (p : Providers) (effective : gmap string ProviderKeyConfig) : list string :=
  sort_by (dynamic_leb p)
    (filter (λ name, base_providers p !! name = None) ((map_to_list effective).*1)).

(** The body of the last loop: the provider leaves [effective] and enters the
    indexes. *)
Definition index_provider (s : gmap string ProviderKeyConfig * Providers) (name : string)
    : gmap string ProviderKeyConfig * Providers :=
  match s.1 !! name with
  | None => s
  | Some provider =>
      (delete name s.1,
       s.2 <| model_to_provider := foldl (λ m model,
                <[model := default [] (m !! model) ++ [pk_name provider]]> m)
                (model_to_provider s.2) (pk_models provider) |>
           <| eff_providers := <[pk_name provider := provider]> (eff_providers s.2) |>)
  end.

Definition rebuild_provider_indexes (p : Providers) : Providers :=
  let effective := foldl (apply_overlay (base_providers p)) (base_providers p)
                     (managed_provider_records p) in
  let ordered_names :=
    filter (λ name, is_Some (effective !! name)) (base_provider_order p) ++ dynamic_names p effective in
  (foldl index_provider
     (effective, p <| eff_providers := ∅ |> <| model_to_provider := ∅ |>
                   <| provider_order := ordered_names |>) ordered_names).2.

Definition providers_new (configs : list ProviderKeyConfig) : Providers :=
  let configs := refresh_derived_semantics <$> configs in
  rebuild_provider_indexes
    {| base_providers := foldl (λ m c, <[pk_name c := c]> m) ∅ configs;
       base_provider_order := pk_name <$> configs;
       managed_providers := ∅; eff_providers := ∅; provider_order := []; model_to_provider := ∅ |}.

(** ** Accessors *)

Definition static_provider_configs (p : Providers) : list ProviderKeyConfig :=
  omap (λ name, base_providers p !! name) (base_provider_order p).

Definition provider_configs (p : Providers) : list ProviderKeyConfig :=
  omap (λ name, eff_providers p !! name) (provider_order p).

Definition effective_provider_config (p : Providers) (name : string) : option ProviderKeyConfig :=
  eff_providers p !! name.

Definition resolve_provider_preview (p : Providers) (name : string)
    : result string (option ProviderKeyConfig) :=
  match managed_providers p !! name, base_providers p !! name with
  | Some record, base => result_map Some (resolve_managed_provider_record record base)
  | None, Some provider => Ok (Some provider)
  | None, None => Ok None
  end.

Definition all_models (p : Providers) : list (string * string) :=
  mjoin ((λ e : string * ProviderKeyConfig, (λ m, (m, e.1)) <$> pk_models e.2)
           <$> map_to_list (eff_providers p)).

Definition find_all_providers_for_model (p : Providers) (model : string) : list ProviderKeyConfig :=
  omap (λ name, eff_providers p !! name) (default [] (model_to_provider p !! model)).

(** The first in the order of the map whose base URL and the upstream start one
    with the other. *)
Definition key_provider_for_upstream (p : Providers) (upstream : string) : option ProviderKeyConfig :=
  snd <$> find_first (λ e : string * ProviderKeyConfig,
    String.eqb upstream (pk_base_url e.2) || starts_with upstream (pk_base_url e.2)
    || starts_with (pk_base_url e.2) upstream) (map_to_list (eff_providers p)).

Definition provider_timeout_secs (p : Providers) (name : string) : option Z :=
  eff_providers p !! name ≫= pk_timeout_secs.

End resolve.
