(* ===== verification/VirtualKeys.v ===== *)
(** * The LLM gateway: virtual keys

    Model of [plugin-llm-gateway/src/virtual_keys.rs]: the life of a key, the
    check of the key a request bears, the models a key may see and use, and the
    tool policy in force.  The choice of a provider and the translation of
    requests between provider protocols are not modelled here. *)

From S2P Require Import Prelude RecordSet RustStr F64 Json Auth Http Toml Plugin ProxyProtocol Sql StateResult ConfigSurfaces UsageStore GatewayContext StreamUsage CostTracker Providers.

Local Open Scope string_scope.
Local Open Scope list_scope.
Local Open Scope rust_scope.

Definition KEY_PREFIX : string := "sk-trp-".

(** ** Tool policy *)

Definition approval_as_str (m : ToolApprovalMode) : string :=
  match m with AllowAll => "allow_all" | DenyAll => "deny_all" | AllowList => "allow_list" end.

(** [trim_start_matches(c)] and [trim_end_matches(c)] *)
Fixpoint trim_char_start (c : ascii) (s : string) : string :=
  match s with
  | String a s' => if Ascii.eqb a c then trim_char_start c s' else s
  | EmptyString => s
  end.

Fixpoint trim_char_end (c : ascii) (s : string) : string :=
  match s with
  | EmptyString => ""
  | String a s' =>
      match trim_char_end c s' with
      | EmptyString => if Ascii.eqb a c then "" else String a ""
      | t => String a t
      end
  end.

Definition parse_string_array `{SerdeJson} (raw : string) : list string :=
  match strings_from_str raw with
  | Some l => l
  | None =>
      omap (λ entry,
          match trim_char_end quote_char (trim_char_start quote_char (unicode_trim entry)) with
          | EmptyString => None
          | trimmed => Some trimmed
          end)
        (split "," (trim_char_end "]" (trim_char_start "[" (unicode_trim raw))))
  end.

Definition normalize_tool_approval_mode_value (raw_mode allowed_tools_json : option string)
    : result string (option string) :=
  match
    (raw ← raw_mode;
     match unicode_trim raw with EmptyString => None | v => Some (to_lowercase v) end)
  with
  | Some v =>
      if bool_decide (v ∈ ["allow_all"; "deny_all"; "allow_list"]) then Ok (Some v)
      else Err ("tool_approval_mode must be one of allow_all, deny_all, allow_list (got '" +:+ v +:+ "')")
  | None =>
      Ok (match allowed_tools_json with Some _ => Some (approval_as_str AllowList) | None => None end)
  end.

Definition parse_tool_approval_mode (normalized_mode allowed_tools_json : option string)
    : ToolApprovalMode :=
  match match_str [("deny_all", DenyAll); ("allow_list", AllowList); ("allow_all", AllowAll)]
          (default "" normalized_mode) with
  | Some m => m
  | None => match allowed_tools_json with Some _ => AllowList | None => AllowAll end
  end.

Definition effective_tool_approval_policy `{SerdeJson}
    (key_mode key_allowed_tools project_mode project_allowed_tools : option string)
    : result string (ToolApprovalMode * option (list string) * string) :=
  let? key_mode := normalize_tool_approval_mode_value key_mode key_allowed_tools in
  let? project_mode := normalize_tool_approval_mode_value project_mode project_allowed_tools in
  if is_some key_mode || is_some key_allowed_tools then
    Ok (parse_tool_approval_mode key_mode key_allowed_tools,
        parse_string_array <$> key_allowed_tools, "virtual_key")
  else if is_some project_mode || is_some project_allowed_tools then
    Ok (parse_tool_approval_mode project_mode project_allowed_tools,
        parse_string_array <$> project_allowed_tools, "project_policy")
  else Ok (AllowAll, None, "default").

(** ** State *)

Record VirtualKeys := {
  vks_keys : gmap string VirtualKeyRecord;
  vks_providers : Providers;
  model_aliases : gmap string string;
  allow_direct_provider_keys : bool;
}.

#[export] Instance VirtualKeys_set : Settable VirtualKeys := λ v,
  {| vks_keys := vks_keys v; vks_providers := vks_providers v; model_aliases := model_aliases v;
     allow_direct_provider_keys := allow_direct_provider_keys v |}.

(** [Box<dyn Error>] *)
Inductive KeyError :=
| Message (text : string)
| StoreFailed (e : StoreError)
| AmbiguousPrefix (prefix : string).

Section lifecycle.
Context `{SerdeJson} `{SerdeTexts} `{TokenDigest} {St : Type} `{KeyStore St}.
Variable env : string → option string.

Notation Op := (ST (VirtualKeys * option St) KeyError).

(** [if let Some(store) = &self.store { store.call().await? }] *)
Definition with_store {A} (call : St → St * result StoreError A) : Op (option A) := λ s,
  match s.2 with
  | None => (s, Ok None)
  | Some st =>
      let '(st, r) := call st in
      ((s.1, Some st), match r with Ok a => Ok (Some a) | Err e => Err (StoreFailed e) end)
  end.

Definition modify_keys (f : gmap string VirtualKeyRecord → gmap string VirtualKeyRecord) : Op () :=
  st_modify (λ s, (s.1 <| vks_keys := f (vks_keys s.1) |>, s.2)).

Definition modify_providers (f : Providers → Providers) : Op () :=
  st_modify (λ s, (s.1 <| vks_providers := f (vks_providers s.1) |>, s.2)).

Definition virtual_keys_new (configs : list ProviderKeyConfig) (aliases : list (string * string))
    (allow_direct : bool) : VirtualKeys :=
  {| vks_keys := ∅; vks_providers := providers_new env configs;
     model_aliases := foldl (λ m a, <[a.1 := a.2]> m) ∅ aliases;
     allow_direct_provider_keys := allow_direct |}.

(** The loop over the rows; a row without a project ends it. *)
Fixpoint load_keys (records : list VirtualKeyRecord) : Op () :=
  match records with
  | [] => mret ()
  | record :: rest =>
      if String.eqb (vr_project_id record) "" then st_fail (Message "virtual key is missing project_id")
      else
        _ ← modify_keys (insert (vr_key_hash record) record);
        load_keys rest
  end.

Definition vks_load_from_store : Op () :=
  s ← st_get;
  match s.2 with
  | None => mret ()
  | Some _ =>
      _ ← modify_providers (λ p, p <| managed_providers := ∅ |>);
      _ ← modify_keys (λ _, ∅);
      managed ← with_store get_managed_providers;
      _ ← modify_providers (λ p, rebuild_provider_indexes env
            (p <| managed_providers := foldl (λ m r, <[mp_name r := r]> m) (managed_providers p)
                   (default [] managed) |>));
      records ← with_store get_all_virtual_keys;
      load_keys (default [] records)
  end.

(** [generate_key], from 32 random bytes: the plaintext and its digest. *)
Definition generate_key (random : list Z) : string * string :=
  let plaintext := KEY_PREFIX +:+ hex_encode random in
  (plaintext, hash_token plaintext).

Definition save_record (record : VirtualKeyRecord) : Op () :=
  _ ← with_store (λ st, upsert_virtual_key st record);
  modify_keys (insert (vr_key_hash record) record).

Definition upsert_key_record (record : VirtualKeyRecord) : Op () :=
  s ← st_get;
  if String.eqb (unicode_trim (vr_project_id record)) "" then
    st_fail (Message "virtual key record is missing project_id")
  else if String.eqb (unicode_trim (vr_key_hash record)) "" then
    st_fail (Message "virtual key record is missing key_hash")
  else if existsb (λ p, String.eqb (pk_name p) (vr_provider_name record))
            (provider_configs (vks_providers s.1))
  then save_record record
  else st_fail (Message ("unknown provider '" +:+ vr_provider_name record +:+ "'")).

(** What a key is created from. *)
Record KeyRequest := {
  kq_project_id : option string;
  kq_name : string;
  kq_provider_name : string;
  kq_budget_limit : option f64;
  kq_budget_duration : option string;
  kq_rpm_limit : option Z;
  kq_tpm_limit : option Z;
  kq_allowed_models : option (list string);
  kq_expires_at : option string;
  kq_timeout_secs : option Z;
  kq_tool_approval_mode : option string;
  kq_allowed_tools : option (list string);
}.

Definition create_key_for_project_with_runtime_policy (q : KeyRequest) (random : list Z) (unix : Z)
    : Op (string * string) :=
  s ← st_get;
  if negb (is_some (eff_providers (vks_providers s.1) !! kq_provider_name q)) then
    st_fail (Message ("unknown provider: " +:+ kq_provider_name q))
  else
    match unicode_trim (default "" (kq_project_id q)) with
    | EmptyString => st_fail (Message "project_id is required")
    | project_id =>
        let '(plaintext, key_hash) := generate_key random in
        let allowed_tools_json := strings_to_string <$> kq_allowed_tools q in
        match normalize_tool_approval_mode_value (kq_tool_approval_mode q) allowed_tools_json with
        | Err e => st_fail (Message e)
        | Ok mode =>
            _ ← save_record {|
              vr_key_hash := key_hash;
              vr_project_id := project_id;
              vr_name := kq_name q;
              vr_provider_name := kq_provider_name q;
              vr_budget_limit := kq_budget_limit q;
              vr_budget_duration := kq_budget_duration q;
              vr_budget_window_start := (λ _, unix) <$> kq_budget_duration q;
              vr_rpm_limit := kq_rpm_limit q;
              vr_tpm_limit := kq_tpm_limit q;
              vr_allowed_models := strings_to_string <$> kq_allowed_models q;
              vr_timeout_secs := kq_timeout_secs q;
              vr_tool_approval_mode := mode;
              vr_allowed_tools := allowed_tools_json;
              vr_active := true;
              vr_created_at := pretty unix;
              vr_expires_at := kq_expires_at q |};
            mret (plaintext, key_hash)
        end
    end.

(** The only key whose digest starts with the prefix. *)
Definition find_full_hash (keys : gmap string VirtualKeyRecord) (prefix : string)
    : result KeyError (option string) :=
  match filter (λ h, starts_with h prefix = true) ((map_to_list keys).*1) with
  | [] => Ok None
  | [h] => Ok (Some h)
  | _ => Err (AmbiguousPrefix prefix)
  end.

Definition get_key_by_prefix (v : VirtualKeys) (prefix : string)
    : result KeyError (option VirtualKeyRecord) :=
  result_map (λ o, h ← o; vks_keys v !! h) (find_full_hash (vks_keys v) prefix).

(** What an update sets; the outer option is what the request names. *)
Record KeyUpdate := {
  ku_budget_limit : option (option f64);
  ku_rpm_limit : option (option Z);
  ku_tpm_limit : option (option Z);
  ku_active : option bool;
  ku_allowed_models : option (option (list string));
  ku_expires_at : option (option string);
  ku_timeout_secs : option (option Z);
  ku_tool_approval_mode : option (option string);
  ku_allowed_tools : option (option (list string));
}.

(** The fields set before the tool policy is looked at. *)
Definition update_fields (u : KeyUpdate) (r : VirtualKeyRecord) : VirtualKeyRecord :=
  r <| vr_budget_limit := default (vr_budget_limit r) (ku_budget_limit u) |>
    <| vr_rpm_limit := default (vr_rpm_limit r) (ku_rpm_limit u) |>
    <| vr_tpm_limit := default (vr_tpm_limit r) (ku_tpm_limit u) |>
    <| vr_active := default (vr_active r) (ku_active u) |>
    <| vr_allowed_models :=
         from_option (fmap strings_to_string) (vr_allowed_models r) (ku_allowed_models u) |>
    <| vr_expires_at := default (vr_expires_at r) (ku_expires_at u) |>
    <| vr_timeout_secs := default (vr_timeout_secs r) (ku_timeout_secs u) |>.

(** The tool policy; an error leaves the record as it is by then. *)
Definition update_tools (u : KeyUpdate) (r : VirtualKeyRecord) : VirtualKeyRecord * result KeyError () :=
  let go r :=
    match ku_allowed_tools u with
    | None => r
    | Some allowed =>
        r <| vr_allowed_tools := strings_to_string <$> allowed |>
          <| vr_tool_approval_mode :=
               if negb (is_some (ku_tool_approval_mode u)) && is_some allowed
               then Some (approval_as_str AllowList) else vr_tool_approval_mode r |>
    end in
  match ku_tool_approval_mode u with
  | None => (go r, Ok ())
  | Some mode =>
      match normalize_tool_approval_mode_value mode (vr_allowed_tools r) with
      | Ok mode => (go (r <| vr_tool_approval_mode := mode |>), Ok ())
      | Err e => (r, Err (Message e))
      end
  end.

(** The record is changed where it is, then stored. *)
Definition update_key_with_runtime_policy (hash_prefix : string) (u : KeyUpdate) : Op bool :=
  s ← st_get;
  match find_full_hash (vks_keys s.1) hash_prefix with
  | Err e => st_fail e
  | Ok None => mret false
  | Ok (Some full_hash) =>
      match vks_keys s.1 !! full_hash with
      | None => mret false
      | Some record =>
          let '(record, r) := update_tools u (update_fields u record) in
          _ ← modify_keys (insert full_hash record);
          match r with
          | Err e => st_fail e
          | Ok _ =>
              _ ← with_store (λ st, upsert_virtual_key st record);
              mret true
          end
      end
  end.

Definition delete_key (hash_prefix : string) : Op bool :=
  s ← st_get;
  match find_full_hash (vks_keys s.1) hash_prefix with
  | Err e => st_fail e
  | Ok None => mret false
  | Ok (Some full_hash) =>
      _ ← modify_keys (delete full_hash);
      _ ← with_store (λ st, delete_virtual_key st full_hash);
      mret true
  end.

(** *** Managed providers *)

Definition upsert_managed_provider (record : ManagedProviderRecord) : Op () :=
  s ← st_get;
  let p := vks_providers s.1 in
  let base := base_providers p !! mp_name record in
  if negb (mp_enabled record) && negb (is_some base)
     && negb (is_some (managed_providers p !! mp_name record)) then
    st_fail (Message ("cannot disable unknown provider '" +:+ mp_name record
      +:+ "'; create it first or target an existing static provider"))
  else
    match (if mp_enabled record
           then result_map (λ _, ()) (resolve_managed_provider_record env record base) else Ok ()) with
    | Err e => st_fail (Message e)
    | Ok _ =>
        _ ← with_store (λ st, upsert_managed_provider_row st record);
        modify_providers (λ p, rebuild_provider_indexes env
          (p <| managed_providers := <[mp_name record := record]> (managed_providers p) |>))
    end.

Definition delete_managed_provider (name : string) : Op bool :=
  s ← st_get;
  deleted ← with_store (λ st, delete_managed_provider_row st name);
  _ ← modify_providers (λ p, rebuild_provider_indexes env
        (p <| managed_providers := delete name (managed_providers p) |>));
  mret (default (is_some (managed_providers (vks_providers s.1) !! name)) deleted).

End lifecycle.

(** ** The request *)

Section requests.
Context `{Http} `{SerdeJson} `{HeaderPayloads} `{TokenDigest} {S : Type}.

Notation Ctx := (RequestContext (H0 := gateway_types S)).

Definition json_error_response (st : StatusCode) (message error_type code : string) : Response :=
  json_body_response st (json_to_string (json_literal [("error", json_literal
    [("message", JString message); ("type", JString error_type); ("code", JString code)])])).

Definition unauthorized (message code : string) : Response :=
  json_error_response 401%Z message "authentication_error" code.

Definition key_required : Response :=
  unauthorized "A managed runtime key is required" "managed_runtime_key_required".

(** The header is removed; what it says, in lower case. *)
Definition routing_debug_requested (headers : HeaderMap) : HeaderMap * bool :=
  (match hm_get "x-trp-routing-debug" headers with
   | Some _ => hm_remove "x-trp-routing-debug" headers
   | None => headers
   end,
   match get_str "x-trp-routing-debug" headers with
   | Some v => bool_decide (to_lowercase v ∈ ["1"; "true"; "yes"; "on"])
   | None => false
   end).

Definition requires_runtime_auth (path : string) : bool := starts_with path "/v1/".

(** Who a request is from. *)
Inductive KeyCheck :=
| Unmanaged
| Refused (r : Response)
| KeyAccepted (key_hash : string) (record : VirtualKeyRecord).

(** An expiry that is not a number is no expiry. *)
Definition expired (record : VirtualKeyRecord) (unix : Z) : bool :=
  match vr_expires_at record ≫= parse_i64 with
  | Some exp => (exp <=? unix)%Z
  | None => false
  end.

Definition check_key (v : VirtualKeys) (path : string) (headers : HeaderMap) (unix : Z) : KeyCheck :=
  if negb (requires_runtime_auth path) then Unmanaged
  else
    match extract_api_key headers with
    | None => Refused key_required
    | Some api_key =>
        if negb (starts_with api_key KEY_PREFIX) then
          if allow_direct_provider_keys v then Unmanaged else Refused key_required
        else
          let key_hash := hash_token api_key in
          match vks_keys v !! key_hash with
          | None => Refused (unauthorized "Invalid API key" "invalid_api_key")
          | Some record =>
              if negb (vr_active record) then
                Refused (unauthorized "API key has been revoked" "key_revoked")
              else if expired record unix then
                Refused (unauthorized "API key has expired" "key_expired")
              else KeyAccepted key_hash record
          end
    end.

(** *** Models *)

Definition visible_models_for_key (v : VirtualKeys) (record : VirtualKeyRecord)
    : list (string * string) :=
  let models := all_models (vks_providers v) in
  match vr_allowed_models record with
  | None => models
  | Some allowed => filter (λ m, m.1 ∈ parse_string_array allowed) models
  end.

Definition model_text (model owner : string) : string :=
  "{" +:+ quoted_key "id" +:+ ":" +:+ quoted_key model +:+ "," +:+ quoted_key "object" +:+ ":"
  +:+ quoted_key "model" +:+ "," +:+ quoted_key "created" +:+ ":0," +:+ quoted_key "owned_by" +:+ ":"
  +:+ quoted_key owner +:+ "}".

Definition handle_list_models (v : VirtualKeys) (record : VirtualKeyRecord) : Response :=
  json_body_response 200%Z
    ("{" +:+ quoted_key "object" +:+ ":" +:+ quoted_key "list" +:+ "," +:+ quoted_key "data" +:+ ":["
     +:+ join "," ((λ m, model_text m.1 m.2) <$> visible_models_for_key v record) +:+ "]}").

Definition model_not_found (model_id : string) : Response :=
  json_error_response 404%Z ("The model '" +:+ model_id +:+ "' does not exist")
    "invalid_request_error" "model_not_found".

Definition handle_retrieve_model (v : VirtualKeys) (record : VirtualKeyRecord) (model_id : string)
    : Response :=
  match model_to_provider (vks_providers v) !! model_id with
  | None => model_not_found model_id
  | Some owners =>
      let allowed := match vr_allowed_models record with
        | Some allowed => bool_decide (model_id ∈ parse_string_array allowed)
        | None => true
        end in
      if allowed then json_body_response 200%Z (model_text model_id (default "unknown" (head owners)))
      else model_not_found model_id
  end.

(** The model endpoints; [None] for any other request. *)
Definition models_endpoint (v : VirtualKeys) (record : VirtualKeyRecord) (ctx : Ctx) : option Response :=
  let path := uri_path (ctx_uri ctx) in
  if negb (String.eqb (ctx_method ctx) "GET") then None
  else if String.eqb path "/v1/models" then Some (handle_list_models v record)
  else
    match strip_prefix "/v1/models/" path with
    | Some (String _ _ as model_id) =>
        if contains model_id "/" then None else Some (handle_retrieve_model v record model_id)
    | _ => None
    end.

(** The list of a key is JSON text, searched for the quoted name. *)
Definition model_allowed (record : VirtualKeyRecord) (model : option string) : bool :=
  match model, vr_allowed_models record with
  | Some name, Some allowed => contains allowed (quoted_key name)
  | _, _ => true
  end.

(** The first part of [on_request]: the key, the two headers, the model
    endpoints.  [inr] goes on with the choice of a provider: the digest, the
    record, and whether the client asked for a routing trace. *)
Definition vks_front (v : VirtualKeys) (ctx : Ctx) (unix : Z)
    : Ctx * (Action + string * VirtualKeyRecord * bool) :=
  let '(h, debug) := routing_debug_requested (ctx_headers ctx) in
  let ctx := ctx_set_headers h ctx in
  match check_key v (uri_path (ctx_uri ctx)) h unix with
  | Unmanaged => (ctx, inl Continue)
  | Refused r => (ctx, inl (Respond r))
  | KeyAccepted key_hash record =>
      let ctx := ctx_set_auth (Some (auth_context_runtime (vr_project_id record) key_hash)) ctx in
      let bad message code := inl (Respond (json_error_response 400%Z message "invalid_request_error" code)) in
      let '(h, r) := take_request_metadata (ctx_headers ctx) in
      let ctx := ctx_set_headers h ctx in
      match r with
      | Err e => (ctx, bad e "invalid_request_metadata")
      | Ok metadata =>
          let ctx := match metadata with
            | Some m => with_ext (λ x, x <| x_request_metadata := Some m |>) ctx
            | None => ctx
            end in
          let '(h, r) := take_request_custom_cost (ctx_headers ctx) in
          let ctx := ctx_set_headers h ctx in
          match r with
          | Err e => (ctx, bad e "invalid_request_custom_cost")
          | Ok cost =>
              let ctx := match cost with
                | Some c => with_ext (λ x, x <| x_custom_cost := Some c |>) ctx
                | None => ctx
                end in
              match models_endpoint v record ctx with
              | Some resp => (ctx, inl (Respond resp))
              | None => (ctx, inr (key_hash, record, debug))
              end
          end
      end
  end.

(** *** Provider credentials *)

Definition provider_headers (provider : ProviderKeyConfig) (headers : HeaderMap) : HeaderMap :=
  let value text := default (hv_from_static "") (hv_from_str text) in
  if String.eqb (pk_api_key_header provider) "x-api-key" then
    hm_insert "x-api-key" (value (pk_api_key provider)) (hm_remove "authorization" headers)
  else
    hm_insert "authorization" (value ("Bearer " +:+ pk_api_key provider)) (hm_remove "x-api-key" headers).

Definition apply_provider_auth (provider : ProviderKeyConfig) (ctx : Ctx) : Ctx :=
  ctx_set_headers (provider_headers provider (ctx_headers ctx)) ctx.

(** The candidates: every provider's URL with its own credentials. *)
Definition provider_candidates (headers : HeaderMap) (providers : list ProviderKeyConfig)
    : list ProviderCandidate :=
  (λ p, {| pc_upstream := pk_base_url p; pc_headers := provider_headers p headers |}) <$> providers.

End requests.
