(* ===== verification/VirtualKeysProps.v ===== *)
(** * Virtual keys: what is proved

    The keys in memory against the table, a restart, the deletion of a key, and
    the indexes of the effective providers. *)

From S2P Require Import Prelude RecordSet RustStr F64 Json Auth Http Plugin Sql StateResult ConfigSurfaces UsageStore GatewayContext StreamUsage CostTracker CostTrackerProps Providers VirtualKeys.

Local Open Scope string_scope.
Local Open Scope list_scope.
Local Open Scope rust_scope.

(** ** Keys and their table *)

(** A key is filed under its digest and belongs to a project. *)
Definition key_ok (h : string) (r : VirtualKeyRecord) : Prop := vr_key_hash r = h ∧ vr_project_id r ≠ "".

Section mirror.
Context `{SerdeJson} `{SerdeTexts} `{TokenDigest} {St : Type} `{KeyStoreOk St}.
Variable env : string → option string.

Notation Op := (ST (VirtualKeys * option St) KeyError).

Lemma update_fields_id u r :
  vr_key_hash (update_fields u r) = vr_key_hash r ∧ vr_project_id (update_fields u r) = vr_project_id r.
Proof. done. Qed.

Lemma update_tools_id u r :
  vr_key_hash (update_tools u r).1 = vr_key_hash r ∧
  vr_project_id (update_tools u r).1 = vr_project_id r.
Proof.
  unfold update_tools. destruct (ku_tool_approval_mode u) as [mode|];
    [destruct (normalize_tool_approval_mode_value _ _)|]; destruct (ku_allowed_tools u); done.
Qed.

(** The table holds the keys in memory. *)
Definition mirrored (s : VirtualKeys * option St) : Prop :=
  map_Forall key_ok (vks_keys s.1) ∧
  ∃ st, s.2 = Some st ∧ key_rows st = db_key <$> vks_keys s.1.

(** The operations of the management API on keys. *)
Inductive KeyOp :=
| OpCreateKey (q : KeyRequest) (random : list Z) (unix : Z)
| OpUpsertKey (record : VirtualKeyRecord)
| OpUpdateKey (prefix : string) (u : KeyUpdate)
| OpDeleteKey (prefix : string).

Definition key_op (o : KeyOp) : Op () :=
  match o with
  | OpCreateKey q random unix =>
      _ ← create_key_for_project_with_runtime_policy q random unix; mret ()
  | OpUpsertKey record => upsert_key_record record
  | OpUpdateKey prefix u => _ ← update_key_with_runtime_policy prefix u; mret ()
  | OpDeleteKey prefix => _ ← delete_key prefix; mret ()
  end.

Lemma with_store_ok {A} (call : St → St * result StoreError A) s s' a st :
  with_store call s = (s', Ok a) → s.2 = Some st →
  ∃ st' x, call st = (st', Ok x) ∧ s' = (s.1, Some st').
Proof.
  unfold with_store. intros E Es. rewrite Es in E.
  destruct (call st) as [st' [x|e]]; simplify_eq. by eexists _, _.
Qed.

Lemma modify_keys_ok f (s s' : VirtualKeys * option St) a :
  modify_keys f s = (s', Ok a) → s' = (s.1 <| vks_keys := f (vks_keys s.1) |>, s.2).
Proof. by intros [= <-]. Qed.

Lemma save_record_mirrored record s s' a :
  mirrored s → vr_project_id record ≠ "" → save_record record s = (s', Ok a) → mirrored s'.
Proof.
  intros (Hk & st & Es & Er) Hp E. unfold save_record in E.
  apply ST_bind_ok in E as (s1 & x & E1 & E2).
  destruct (with_store_ok _ _ _ _ _ E1 Es) as (st' & [] & Ec & ->).
  apply write_key in Ec as [_ Ec]. apply modify_keys_ok in E2 as ->. simpl.
  split; [by apply map_Forall_insert_2|]. exists st'. split; [done|].
  simpl. by rewrite Ec, Er, fmap_insert.
Qed.

Lemma create_mirrored q random unix s s' a :
  mirrored s → create_key_for_project_with_runtime_policy q random unix s = (s', Ok a) → mirrored s'.
Proof.
  intros Hm E. unfold create_key_for_project_with_runtime_policy in E.
  apply ST_bind_ok in E as (s1 & s2 & [= <- <-] & E).
  destruct (negb _); [done|]. destruct (unicode_trim _) as [|c p] eqn:Ep; [done|].
  destruct (generate_key random) as [plain h]. destruct (normalize_tool_approval_mode_value _ _); [|done].
  apply ST_bind_ok in E as (s2 & [] & Ew & [= <- _]).
  by eapply save_record_mirrored; [exact Hm| |exact Ew].
Qed.

Lemma upsert_mirrored record s s' a :
  mirrored s → upsert_key_record record s = (s', Ok a) → mirrored s'.
Proof.
  intros Hm E. unfold upsert_key_record in E. apply ST_bind_ok in E as (s1 & s2 & [= <- <-] & E).
  destruct (String.eqb_spec (unicode_trim (vr_project_id record)) "") as [|Hne]; [done|].
  destruct (String.eqb _ _); [done|]. destruct (existsb _ _); [|done].
  eapply save_record_mirrored; [exact Hm| |exact E]. intros E0. by rewrite E0 in Hne.
Qed.

Lemma find_full_hash_some (keys : gmap string VirtualKeyRecord) prefix h :
  find_full_hash keys prefix = Ok (Some h) →
  is_Some (keys !! h) ∧ starts_with h prefix = true ∧
  ∀ h', is_Some (keys !! h') → starts_with h' prefix = true → h' = h.
Proof.
  unfold find_full_hash. destruct (filter _ _) as [|h1 [|h2 l]] eqn:Ef; [done| |done].
  intros [= ->].
  assert (∀ x, x ∈ [h] ↔ starts_with x prefix = true ∧ is_Some (keys !! x)) as Hx.
  { intros x. rewrite <-Ef, list_elem_of_filter, list_elem_of_fmap. split.
    - intros (? & [k r] & -> & Hin). apply elem_of_map_to_list in Hin. by split; [|exists r].
    - intros (? & r & Hr). split; [done|]. exists (x, r). split; [done|]. by apply elem_of_map_to_list. }
  destruct (proj1 (Hx h)) as [? ?]; [by apply list_elem_of_singleton|]. split_and!; [done..|].
  intros h' ? ?. by apply list_elem_of_singleton, Hx.
Qed.

Lemma update_mirrored prefix u s s' a :
  mirrored s → update_key_with_runtime_policy prefix u s = (s', Ok a) → mirrored s'.
Proof.
  intros Hm E. unfold update_key_with_runtime_policy in E.
  apply ST_bind_ok in E as (s1 & s2 & [= <- <-] & E).
  destruct (find_full_hash _ _) as [[h|]|e] eqn:Eh; [|by injection E as <- _|done].
  destruct (vks_keys s.1 !! h) as [record|] eqn:El; [|by injection E as <- _].
  destruct Hm as (Hk & st & Es & Er).
  destruct (Hk _ _ El) as [Hh Hp].
  pose proof (update_tools_id u (update_fields u record)) as [Hid1 Hid2].
  destruct (update_fields_id u record) as [Hid3 Hid4]. rewrite Hid3 in Hid1. rewrite Hid4 in Hid2.
  destruct (update_tools u (update_fields u record)) as [rec r]. cbn [fst] in Hid1, Hid2.
  apply ST_bind_ok in E as (s2 & [] & E1 & E). apply modify_keys_ok in E1 as ->.
  destruct r; [|done]. apply ST_bind_ok in E as (s3 & x & E2 & [= <- _]).
  destruct (with_store_ok _ _ _ _ _ E2 Es) as (st' & [] & Ec & ->).
  apply write_key in Ec as [_ Ec]. split.
  - apply map_Forall_insert_2; [|done]. split; congruence.
  - exists st'. split; [done|]. simpl. rewrite Ec, Er, fmap_insert, Hid1, Hh. done.
Qed.

Lemma delete_mirrored prefix s s' a :
  mirrored s → delete_key prefix s = (s', Ok a) → mirrored s'.
Proof.
  intros Hm E. unfold delete_key in E. apply ST_bind_ok in E as (s1 & s2 & [= <- <-] & E).
  destruct (find_full_hash _ _) as [[h|]|e] eqn:Eh; [|by injection E as <- _|done].
  destruct Hm as (Hk & st & Es & Er).
  apply ST_bind_ok in E as (s2 & [] & E1 & E). apply modify_keys_ok in E1 as ->.
  apply ST_bind_ok in E as (s3 & x & E2 & [= <- _]).
  destruct (with_store_ok _ _ _ _ _ E2 Es) as (st' & b & Ec & ->).
  apply remove_key in Ec as [_ Ec]. split; [by apply map_Forall_delete|].
  exists st'. split; [done|]. simpl. by rewrite Ec, Er, fmap_delete.
Qed.

Lemma key_op_mirrored o s s' : mirrored s → key_op o s = (s', Ok ()) → mirrored s'.
Proof.
  intros Hm E. destruct o; simpl in E.
  - apply ST_bind_ok in E as (s1 & a & E & [= <-]). by eapply create_mirrored.
  - by eapply upsert_mirrored.
  - apply ST_bind_ok in E as (s1 & a & E & [= <-]). by eapply update_mirrored.
  - apply ST_bind_ok in E as (s1 & a & E & [= <-]). by eapply delete_mirrored.
Qed.

Lemma key_ops_mirrored ops s s' : mirrored s → st_for ops key_op s = (s', Ok ()) → mirrored s'.
Proof.
  revert s. induction ops as [|o ops IH]; intros s Hm E; simpl in E; [by injection E as <-|].
  apply ST_bind_ok in E as (s1 & [] & E1 & E). eapply IH; [|done]. by eapply key_op_mirrored.
Qed.

(** *** A restart *)

Lemma load_keys_all records (s : VirtualKeys * option St) :
  Forall (λ r, vr_project_id r ≠ "") records →
  load_keys records s =
    ((s.1 <| vks_keys := foldl (λ m r, <[vr_key_hash r := r]> m) (vks_keys s.1) records |>, s.2), Ok ()).
Proof.
  revert s. induction records as [|r l IH]; intros s Hf; [by destruct s as [[] ?]|].
  apply Forall_cons in Hf as [Hr Hf]. cbn [load_keys].
  destruct (String.eqb_spec (vr_project_id r) ""); [done|].
  erewrite ST_bind_step by reflexivity. cbn iota. rewrite IH by done. done.
Qed.

(** How a check reads with the records as the table keeps them. *)
Definition check_map (f : VirtualKeyRecord → VirtualKeyRecord) (c : KeyCheck) : KeyCheck :=
  match c with KeyAccepted h r => KeyAccepted h (f r) | _ => c end.

Lemma load_mirrored (v0 : VirtualKeys) s st' s'' r :
  mirrored s → s.2 = Some st' →
  vks_load_from_store env (v0, Some st') = (s'', r) →
  (r = Ok () ∧ vks_keys s''.1 = db_key <$> vks_keys s.1 ∧
   allow_direct_provider_keys s''.1 = allow_direct_provider_keys v0) ∨
  ∃ e, r = Err (StoreFailed e).
Proof.
  intros (Hk & st & Es & Er) Es' E. rewrite Es in Es'. injection Es' as <-.
  unfold vks_load_from_store in E.
  erewrite ST_bind_step in E by reflexivity. cbn [snd] in E. cbn iota in E.
  erewrite ST_bind_step in E by reflexivity. cbn iota in E.
  erewrite ST_bind_step in E by reflexivity. cbn iota in E. cbn [fst snd] in E.
  destruct (get_managed_providers st) as [st1 rp] eqn:Ep.
  erewrite ST_bind_step in E by (unfold with_store; cbn [snd]; rewrite Ep; reflexivity).
  destruct rp as [ps|e]; [|right; injection E as _ <-; by eexists]. cbn iota in E.
  apply read_providers in Ep as (Ek & _ & _).
  erewrite ST_bind_step in E by reflexivity. cbn iota in E. cbn [fst snd] in E.
  destruct (get_all_virtual_keys st1) as [st2 rk] eqn:Eg.
  erewrite ST_bind_step in E by (unfold with_store; cbn [snd]; rewrite Eg; reflexivity).
  destruct rk as [ks|e]; [|right; injection E as _ <-; by eexists]. cbn iota in E.
  apply read_keys in Eg as (_ & _ & Eg). specialize (Eg ks eq_refl). rewrite Ek, Er in Eg.
  cbn [default] in E. rewrite load_keys_all in E.
  2:{ rewrite Eg. apply Forall_fmap, Forall_forall. intros [k r'] Hin%elem_of_map_to_list. simpl.
      apply lookup_fmap_Some in Hin as (r0 & <- & Hr0). by destruct (Hk _ _ Hr0). }
  injection E as <- <-. left. split_and!; [done| |done]. simpl. apply insert_all_rows; [|done].
  intros k r'. rewrite lookup_fmap_Some. intros (r0 & <- & Hr0). by destruct (Hk _ _ Hr0).
Qed.

(** C11: Keys survive a restart: after any sequence of successful creations,
    updates and deletions from an empty instance over an empty table, an instance
    that loads the store admits exactly the requests the old one admits, under
    the same keys; loading fails only when the store does. *)
Theorem keys_survive_restart `{Http} configs aliases allow st0 ops v st v0 s'' r :
  key_rows st0 = ∅ →
  st_for ops key_op (virtual_keys_new env configs aliases allow, Some st0) = ((v, Some st), Ok ()) →
  allow_direct_provider_keys v0 = allow_direct_provider_keys v →
  vks_load_from_store env (v0, Some st) = (s'', r) →
  (r = Ok () ∧ ∀ path headers unix,
     check_key s''.1 path headers unix = check_map db_key (check_key v path headers unix)) ∨
  ∃ e, r = Err (StoreFailed e).
Proof.
  intros Hempty Hops Ha Hl.
  assert (mirrored (v, Some st)) as Hm.
  { eapply key_ops_mirrored; [|exact Hops]. split; [apply map_Forall_empty|].
    exists st0. split; [done|]. simpl. by rewrite Hempty, fmap_empty. }
  destruct (load_mirrored v0 _ st _ _ Hm eq_refl Hl) as [(-> & Hk & Hd)|?]; [left|by right].
  split; [done|]. intros path headers unix. unfold check_key. rewrite Hk, Hd, Ha. simpl.
  destruct (negb (requires_runtime_auth path)); [done|].
  destruct (extract_api_key headers) as [key|]; [|done].
  destruct (negb (starts_with key KEY_PREFIX)); [by destruct (allow_direct_provider_keys v)|].
  rewrite lookup_fmap. destruct (vks_keys v !! hash_token key) as [rec|]; [|done]. simpl.
  destruct (negb (vr_active rec)); [done|]. unfold expired at 1. simpl. fold (expired rec unix).
  by destruct (expired rec unix).
Qed.

(** *** A deletion *)

(** Deleting by prefix deletes one key: when it succeeds, the prefix belonged
    to exactly one key; requests that bear that key are refused as invalid from
    then on, and every other request is answered as before. *)
Theorem deleting_affects_one_key `{Http} prefix s s' :
  delete_key prefix s = (s', Ok true) →
  ∃ h, is_Some (vks_keys s.1 !! h) ∧ starts_with h prefix = true ∧
    (∀ h', is_Some (vks_keys s.1 !! h') → starts_with h' prefix = true → h' = h) ∧
    ∀ path headers unix, check_key s'.1 path headers unix =
      match extract_api_key headers with
      | Some key =>
          if requires_runtime_auth path && starts_with key KEY_PREFIX && String.eqb (hash_token key) h
          then Refused (unauthorized "Invalid API key" "invalid_api_key")
          else check_key s.1 path headers unix
      | None => check_key s.1 path headers unix
      end.
Proof.
  intros E. unfold delete_key in E. apply ST_bind_ok in E as (s1 & s2 & [= <- <-] & E).
  destruct (find_full_hash _ _) as [[h|]|e] eqn:Eh; [|done|done].
  apply find_full_hash_some in Eh as (Hin & Hpre & Huniq).
  exists h. split_and!; [done..|].
  apply ST_bind_ok in E as (s2 & [] & E1 & E). apply modify_keys_ok in E1 as ->.
  apply ST_bind_ok in E as (s3 & x & E2 & [= <-]).
  assert (s3.1 = s.1 <| vks_keys := delete h (vks_keys s.1) |>) as ->.
  { unfold with_store in E2. simpl in E2. destruct s.2 as [st|]; [|by injection E2 as <- _].
    destruct (delete_virtual_key st h) as [st' [b|e]]; by simplify_eq. }
  intros path headers unix. unfold check_key. simpl.
  destruct (extract_api_key headers) as [key|]; [|done].
  destruct (requires_runtime_auth path); [|done]. simpl.
  destruct (starts_with key KEY_PREFIX); simpl; [|done].
  destruct (String.eqb_spec (hash_token key) h) as [->|Hne];
    [by rewrite lookup_delete_eq|by rewrite lookup_delete_ne].
Qed.

End mirror.

(** ** The indexes of providers *)

Section indexes.
Context `{SerdeJson} `{SerdeTexts}.
Variable env : string → option string.

(** The configured providers are filed under their names and ordered once; so
    are the stored ones. *)
Record providers_wf (p : Providers) : Prop := {
  pw_base : map_Forall (λ n c, pk_name c = n) (base_providers p);
  pw_order : ∀ n, n ∈ base_provider_order p ↔ is_Some (base_providers p !! n);
  pw_managed : map_Forall (λ n r, mp_name r = n) (managed_providers p);
}.

(** The specification: the stored record of a name decides, else the configured
    provider. *)
Definition effective_spec (p : Providers) (name : string) : option ProviderKeyConfig :=
  match managed_providers p !! name with
  | None => base_providers p !! name
  | Some r =>
      if mp_enabled r then result_ok (resolve_managed_provider_record env r (base_providers p !! name))
      else None
  end.

Definition overlay_spec (base : gmap string ProviderKeyConfig) (r : ManagedProviderRecord)
    : option ProviderKeyConfig :=
  if mp_enabled r then result_ok (resolve_managed_provider_record env r (base !! mp_name r)) else None.

Lemma apply_overlay_lookup base acc r n :
  apply_overlay env base acc r !! n = if decide (mp_name r = n) then overlay_spec base r else acc !! n.
Proof.
  unfold apply_overlay, overlay_spec. case_decide as Hn; [subst n|];
    destruct (mp_enabled r); simpl; try destruct (resolve_managed_provider_record _ _ _); simpl;
    by rewrite ?lookup_delete_eq, ?lookup_insert_eq, ?lookup_delete_ne, ?lookup_insert_ne.
Qed.

Lemma overlays_lookup base l acc n :
  NoDup (mp_name <$> l) →
  foldl (apply_overlay env base) acc l !! n =
    match list_find (λ r, mp_name r = n) l with
    | Some (_, r) => overlay_spec base r
    | None => acc !! n
    end.
Proof.
  revert acc. induction l as [|r l IH]; intros acc Hnd; [done|].
  apply NoDup_cons in Hnd as [Hr Hnd]. simpl. rewrite IH by done. case_decide as Hn.
  - destruct (list_find _ l) as [[i r']|] eqn:Ef.
    + apply list_find_Some in Ef as (Hl & Hn' & _). destruct Hr. apply list_elem_of_fmap.
      exists r'. split; [congruence|]. by eapply list_elem_of_lookup_2.
    + rewrite apply_overlay_lookup. by case_decide.
  - destruct (list_find _ l) as [[i r']|] eqn:Ef; simpl; [done|].
    rewrite apply_overlay_lookup. by case_decide.
Qed.

Lemma resolve_name r base c :
  resolve_managed_provider_record env r base = Ok c → pk_name c = mp_name r.
Proof.
  unfold resolve_managed_provider_record. intros E.
  repeat match type of E with
  | result_bind ?m _ = Ok _ => destruct m; cbn [result_bind] in E; [|discriminate E]
  end.
  injection E as <-. done.
Qed.

Lemma base_lookup p name : providers_wf p →
  foldl (apply_overlay env (base_providers p)) (base_providers p) (managed_provider_records p) !! name
  = effective_spec p name.
Proof.
  intros [_ _ Hm]. rewrite overlays_lookup.
  2:{ unfold managed_provider_records. rewrite sort_by_perm.
      assert (∀ l : list (string * ManagedProviderRecord), Forall (λ e, mp_name e.2 = e.1) l →
        mp_name <$> l.*2 = l.*1) as Hn.
      { induction l as [|e l IH]; intros Hf; [done|]. apply Forall_cons in Hf as [He Hf].
        apply (f_equal2 cons); [done|by apply IH]. }
      rewrite Hn; [apply NoDup_fst_map_to_list|]. apply Forall_forall.
      intros [k r] Hin%elem_of_map_to_list. by apply Hm. }
  unfold effective_spec. destruct (list_find _ _) as [[i r]|] eqn:Ef.
  - apply list_find_Some in Ef as (Hl & <- & _). apply list_elem_of_lookup_2 in Hl.
    unfold managed_provider_records in Hl. rewrite sort_by_elem_of, list_elem_of_fmap in Hl.
    destruct Hl as ([k r'] & -> & Hin%elem_of_map_to_list). simpl.
    pose proof (Hm _ _ Hin) as Hk. cbn in Hk. unfold overlay_spec. by rewrite Hk, Hin.
  - apply list_find_None in Ef. destruct (managed_providers p !! name) as [r|] eqn:Er; [|done].
    rewrite Forall_forall in Ef. exfalso. apply (Ef r); [|by apply Hm].
    unfold managed_provider_records. rewrite sort_by_elem_of, list_elem_of_fmap.
    exists (name, r). split; [done|]. by apply elem_of_map_to_list.
Qed.

Lemma effective_name p name c : providers_wf p → effective_spec p name = Some c → pk_name c = name.
Proof.
  intros [Hb _ Hm]. unfold effective_spec. destruct (managed_providers p !! name) as [r|] eqn:Er.
  - destruct (mp_enabled r); [|done]. destruct (resolve_managed_provider_record _ _ _) eqn:E; [|done].
    intros [= <-]. rewrite (resolve_name _ _ _ E). by apply Hm.
  - apply Hb.
Qed.

(** Who is listed for a model. *)
Definition listed (m : gmap string (list string)) (model name : string) : Prop :=
  name ∈ default [] (m !! model).

Lemma add_models models name acc model n :
  listed (foldl (λ m model, <[model := default [] (m !! model) ++ [name]]> m) acc models) model n ↔
  listed acc model n ∨ n = name ∧ model ∈ models.
Proof. clear env.
  revert acc. induction models as [|k models IH]; intros acc; simpl; [set_solver|].
  rewrite IH. unfold listed. rewrite lookup_insert. case_decide as Hk; simpl; set_solver.
Qed.

Lemma add_models_nonempty models name (acc : gmap string (list string)) :
  map_Forall (λ _ l, l ≠ []) acc →
  map_Forall (λ _ l, l ≠ []) (foldl (λ m model, <[model := default [] (m !! model) ++ [name]]> m) acc models).
Proof. clear env.
  revert acc. induction models as [|k models IH]; intros acc Ha; simpl; [done|]. apply IH.
  apply map_Forall_insert_2; [|done]. by destruct (default [] _).
Qed.

Lemma index_provider_some eff idx name c : eff !! name = Some c →
  index_provider (eff, idx) name =
    (delete name eff,
     idx <| model_to_provider := foldl (λ m model, <[model := default [] (m !! model) ++ [pk_name c]]> m)
              (model_to_provider idx) (pk_models c) |>
         <| eff_providers := <[pk_name c := c]> (eff_providers idx) |>).
Proof. intros Ec. unfold index_provider. simpl. by rewrite Ec. Qed.

Lemma index_provider_none eff idx name : eff !! name = None → index_provider (eff, idx) name = (eff, idx).
Proof. intros Ec. unfold index_provider. simpl. by rewrite Ec. Qed.

(** The loop that fills the indexes. *)
Lemma index_loop names eff idx :
  map_Forall (λ n c, pk_name c = n) eff →
  let r := (foldl index_provider (eff, idx) names).2 in
  (∀ n, eff_providers r !! n =
    if decide (n ∈ names ∧ is_Some (eff !! n)) then eff !! n else eff_providers idx !! n) ∧
  (∀ model n, listed (model_to_provider r) model n ↔
    listed (model_to_provider idx) model n ∨
    ∃ c, n ∈ names ∧ eff !! n = Some c ∧ model ∈ pk_models c) ∧
  (map_Forall (λ _ l, l ≠ []) (model_to_provider idx) → map_Forall (λ _ l, l ≠ []) (model_to_provider r)) ∧
  provider_order r = provider_order idx ∧ managed_providers r = managed_providers idx ∧
  base_providers r = base_providers idx ∧ base_provider_order r = base_provider_order idx.
Proof. clear env.
  revert eff idx. induction names as [|name names IH]; intros eff idx Hn; simpl.
  { split_and!; try done. set_solver. }
  destruct (eff !! name) as [c|] eqn:Ec.
  - pose proof (Hn _ _ Ec) as Hc.
    rewrite (index_provider_some eff idx name c Ec).
    match goal with |- context [foldl index_provider (?e, ?i) names] =>
      destruct (IH e i (map_Forall_delete _ _ _ Hn)) as (He & Hm & Hne & Ho & Hmg & Hb & Hbo) end.
    split_and!; [| |intros Hx; apply Hne; simpl; by apply add_models_nonempty|done..].
    + intros n. rewrite He. simpl. rewrite Hc.
      destruct (decide (n = name)) as [->|Hne'].
      * rewrite lookup_delete_eq, lookup_insert_eq, Ec.
        rewrite decide_False by (intros [_ [? ?]]; done).
        rewrite decide_True; [done|]. split; [left|by eexists].
      * rewrite lookup_delete_ne, lookup_insert_ne by done.
        repeat case_decide; set_solver.
    + intros model n. rewrite Hm. simpl. rewrite add_models, Hc. split.
      * intros [[?|[-> ?]]|(c' & ? & Hd & ?)]; [by left|right; exists c; set_solver|].
        apply lookup_delete_Some in Hd as [? ?]. right. exists c'. set_solver.
      * intros [?|(c' & Hin & Hd & ?)]; [by left; left|]. destruct (decide (n = name)) as [->|Hne'].
        -- left. right. by simplify_eq.
        -- right. exists c'. rewrite lookup_delete_ne by done. set_solver.
  - rewrite (index_provider_none eff idx name Ec). destruct (IH eff idx Hn) as (He & Hm & Hne & Hrest). split_and!; [| |done|apply Hrest..].
    + intros n. rewrite He. destruct (decide (n = name)) as [->|Hne'].
      * rewrite Ec. rewrite !decide_False; [done| |]; intros [_ [? ?]]; done.
      * repeat case_decide; set_solver.
    + intros model n. rewrite Hm. destruct (decide (n = name)) as [->|Hne']; set_solver.
Qed.

Lemma rebuilt p : providers_wf p →
  let p' := rebuild_provider_indexes env p in
  (∀ name, eff_providers p' !! name = effective_spec p name) ∧
  (∀ name, name ∈ provider_order p' ↔ is_Some (effective_spec p name)) ∧
  (∀ model name, listed (model_to_provider p') model name ↔
     ∃ c, effective_spec p name = Some c ∧ model ∈ pk_models c) ∧
  map_Forall (λ _ l, l ≠ []) (model_to_provider p') ∧
  providers_wf p' ∧ managed_providers p' = managed_providers p ∧ base_providers p' = base_providers p.
Proof.
  intros Hwf. unfold rebuild_provider_indexes.
  set (effective := foldl (apply_overlay _ _) _ _).
  assert (∀ n, effective !! n = effective_spec p n) as Heff by (intros; by apply base_lookup).
  assert (map_Forall (λ n c, pk_name c = n) effective) as Hn
    by (intros n c; rewrite Heff; by apply effective_name).
  set (names := _ ++ dynamic_names _ _).
  assert (∀ n, n ∈ names ↔ is_Some (effective_spec p n)) as Hnames.
  { intros n. unfold names, dynamic_names. rewrite elem_of_app, sort_by_elem_of, !list_elem_of_filter.
    rewrite (pw_order _ Hwf), Heff, list_elem_of_fmap. split.
    - intros [[? _]|[_ ([k c] & -> & Hin%elem_of_map_to_list)]]; [done|]. simpl. rewrite <-Heff. by eexists.
    - intros Hs. destruct (base_providers p !! n) as [c|] eqn:Eb; [left; split; [done|by eexists]|right].
      split; [done|]. destruct Hs as [c Hc]. exists (n, c). split; [done|].
      apply elem_of_map_to_list. by rewrite Heff. }
  match goal with |- context [foldl index_provider (?e, ?i) names] =>
    destruct (index_loop names e i Hn) as (He & Hm & Hne & Ho & Hmg & Hb & Hbo) end.
  split_and!; try done.
  - intros n. rewrite He, Heff. simpl. rewrite lookup_empty. case_decide as Hd; [done|].
    rewrite Hnames in Hd. destruct (effective_spec p n); [|done]. destruct Hd. by split; eexists.
  - intros n. rewrite Ho. apply Hnames.
  - intros model n. rewrite Hm. unfold listed at 1. simpl. rewrite lookup_empty. simpl. split.
    + intros [Hx|(c & _ & Hc & ?)]; [by apply not_elem_of_nil in Hx|]. rewrite Heff in Hc. by exists c.
    + intros (c & Hc & ?). right. exists c. rewrite Heff, Hnames, Hc. split_and!; [by eexists|done..].
  - apply Hne. apply map_Forall_empty.
  - destruct Hwf. split; rewrite ?Hb, ?Hbo, ?Hmg; done.
Qed.

(** *** Changes by the operator *)

Inductive ProviderChange :=
| PutProvider (record : ManagedProviderRecord)
| RemoveProvider (name : string).

(** A change and the rebuild behind it. *)
Definition provider_change (p : Providers) (c : ProviderChange) : Providers :=
  rebuild_provider_indexes env (p <| managed_providers :=
    match c with
    | PutProvider record => <[mp_name record := record]> (managed_providers p)
    | RemoveProvider name => delete name (managed_providers p)
    end |>).

Definition provider_changes (configs : list ProviderKeyConfig) (changes : list ProviderChange) : Providers :=
  foldl provider_change (providers_new env configs) changes.

Lemma configs_wf (configs : list ProviderKeyConfig) (b : gmap string ProviderKeyConfig) :
  map_Forall (λ n c, pk_name c = n) b →
  let b' := foldl (λ m c, <[pk_name c := c]> m) b configs in
  map_Forall (λ n c, pk_name c = n) b' ∧
  ∀ n, is_Some (b' !! n) ↔ n ∈ pk_name <$> configs ∨ is_Some (b !! n).
Proof.
  clear env. revert b. induction configs as [|c configs IH]; intros b Hb; simpl; [set_solver|].
  destruct (IH (<[pk_name c := c]> b)) as [H1 H2]; [by apply map_Forall_insert_2|].
  split; [done|]. intros n. rewrite H2. rewrite lookup_insert. case_decide as Hn.
  - subst n. split; [|by right]. left. left.
  - set_solver.
Qed.

Lemma change_wf p c : providers_wf p → providers_wf (provider_change p c).
Proof.
  intros [Hb Ho Hm]. apply rebuilt. split; simpl; [done..|].
  destruct c; [by apply map_Forall_insert_2|by apply map_Forall_delete].
Qed.

(** What the indexes say. *)
Definition indexes_exact (p : Providers) : Prop :=
  (∀ name, effective_provider_config p name = effective_spec p name) ∧
  (∀ name, name ∈ provider_order p ↔ is_Some (effective_spec p name)) ∧
  (∀ model name, listed (model_to_provider p) model name ↔
     ∃ c, effective_spec p name = Some c ∧ model ∈ pk_models c) ∧
  map_Forall (λ _ l, l ≠ []) (model_to_provider p).

Lemma rebuild_exact p : providers_wf p →
  providers_wf (rebuild_provider_indexes env p) ∧ indexes_exact (rebuild_provider_indexes env p).
Proof.
  intros Hwf. destruct (rebuilt p Hwf) as (He & Ho & Hm & Hne & Hwf' & Hmg & Hb).
  split; [done|].
  assert (∀ n, effective_spec (rebuild_provider_indexes env p) n = effective_spec p n) as Hs
    by (intros n; unfold effective_spec; by rewrite Hmg, Hb).
  split_and!; [|..|done]; intros; rewrite ?Hs; [apply He|apply Ho|apply Hm].
Qed.

Lemma provider_changes_exact configs changes :
  providers_wf (provider_changes configs changes) ∧ indexes_exact (provider_changes configs changes).
Proof.
  unfold provider_changes. rewrite <-(rev_involutive changes). induction (rev changes) as [|c l [IHw IHe]]; simpl.
  - unfold providers_new. apply rebuild_exact.
    destruct (configs_wf (refresh_derived_semantics <$> configs) ∅ (map_Forall_empty _)) as [H1 H2].
    split; simpl; [done| |apply map_Forall_empty]. intros n. rewrite H2, lookup_empty.
    split; [by left|]. by intros [?|[? ?]].
  - rewrite foldl_app. simpl. unfold provider_change. apply rebuild_exact.
    destruct IHw as [Hb Ho Hm]. split; simpl; [done..|].
    destruct c; [by apply map_Forall_insert_2|by apply map_Forall_delete].
Qed.

(** The provider indexes are exact: after any changes of the stored providers,
    the effective provider of a name is what its stored record resolves to over
    the configured one (nothing when it is disabled or does not resolve, the
    configured one when there is no record); the order lists exactly the effective
    providers, and the index of a model exactly those that serve it. *)
Theorem provider_indexes_exact configs changes : indexes_exact (provider_changes configs changes).
Proof. apply provider_changes_exact. Qed.

Lemma all_models_spec p model name :
  (model, name) ∈ all_models p ↔ ∃ c, eff_providers p !! name = Some c ∧ model ∈ pk_models c.
Proof.
  clear env. unfold all_models. rewrite list_elem_of_join. split.
  - intros (l & Hin & Hl). apply list_elem_of_fmap in Hl as ([n c] & -> & He%elem_of_map_to_list).
    simpl in Hin. apply list_elem_of_fmap in Hin as (m & [= -> ->] & ?). by exists c.
  - intros (c & He & Hm). eexists. split; [|apply list_elem_of_fmap; exists (name, c); split; [done|]].
    + simpl. apply list_elem_of_fmap. by exists model.
    + by apply elem_of_map_to_list.
Qed.

(** The two model endpoints agree: after any changes of the providers, a key
    may retrieve a model exactly when the list it gets names the model. *)
Theorem model_endpoints_agree `{Http} configs changes v record model :
  vks_providers v = provider_changes configs changes →
  status (handle_retrieve_model v record model) = 200%Z ↔
  model ∈ (visible_models_for_key v record).*1.
Proof.
  intros Hv. destruct (provider_changes_exact configs changes) as (_ & He & _ & Hm & Hne). rewrite <-Hv in *.
  set (allowed := match vr_allowed_models record with
                  | Some a => bool_decide (model ∈ parse_string_array a) | None => true end).
  assert (model ∈ (visible_models_for_key v record).*1 ↔
          allowed = true ∧ ∃ name, listed (model_to_provider (vks_providers v)) model name) as ->.
  { rewrite list_elem_of_fmap. transitivity (allowed = true ∧ ∃ name, (model, name) ∈ all_models (vks_providers v)).
    - unfold visible_models_for_key, allowed. destruct (vr_allowed_models record) as [a|].
      + rewrite bool_decide_eq_true. setoid_rewrite list_elem_of_filter. split.
        * intros ([m n] & -> & ? & ?). eauto.
        * intros (? & n & ?). by exists (model, n).
      + split; [intros ([m n] & -> & ?); eauto|]. intros (_ & n & ?). by exists (model, n).
    - setoid_rewrite all_models_spec. setoid_rewrite Hm. by setoid_rewrite <-He. }
  unfold handle_retrieve_model. fold allowed. unfold listed.
  destruct (model_to_provider (vks_providers v) !! model) as [owners|] eqn:Eo.
  - destruct allowed; simpl; [|split; [done|by intros [? _]]].
    split; [intros _|done]. split; [done|]. destruct owners as [|n owners]; [by apply Hne in Eo|].
    exists n. left.
  - simpl. split; [done|]. intros [_ [n Hn]]. by apply not_elem_of_nil in Hn.
Qed.

End indexes.

(** ** Witnesses and findings *)

Module KeysDemo.

#[export] Existing Instance list_http.
#[export] Existing Instance array_json.

#[export] Instance demo_texts : SerdeTexts := {|
  surfaces_from_str _ := Err "unsupported";
  strings_error _ := "";
  json_error _ := "";
|}.

#[export] Instance demo_digest : TokenDigest := λ s, "digest of " +:+ s.

Definition no_env : string → option string := λ _, None.

Definition openai : ProviderKeyConfig :=
  provider_new {| pcc_name := "openai"; pcc_api_key := "secret"; pcc_base_url := "http://a.test";
    pcc_models := ["m1"; "m2"]; pcc_api_key_header := "authorization"; pcc_timeout_secs := None;
    pcc_routing_metadata := routing_default |} (provider_family_config FOpenAi catalog_default).

Definition demo_db (faults : list (option string)) : UsageDb :=
  {| db_tables := {| api_key_usage := ∅; model_pricing := ∅; api_key_model_usage := ∅;
       request_log := []; virtual_keys := ∅; managed_provider_rows := ∅ |}; db_faults := faults |}.

Definition demo_request (allowed : option (list string)) : KeyRequest := {|
  kq_project_id := Some "p"; kq_name := "ci"; kq_provider_name := "openai";
  kq_budget_limit := None; kq_budget_duration := Some "daily"; kq_rpm_limit := None;
  kq_tpm_limit := None; kq_allowed_models := allowed; kq_expires_at := None;
  kq_timeout_secs := None; kq_tool_approval_mode := None; kq_allowed_tools := None |}.

Definition fresh : VirtualKeys := virtual_keys_new no_env [openai] [] false.

Definition demo_token : string := KEY_PREFIX +:+ "0102".
Definition bearer : list (string * string) := [("authorization", "Bearer " +:+ demo_token)].

Definition created : VirtualKeys * option UsageDb :=
  (st_for [OpCreateKey (demo_request None) [1; 2]%Z 5; OpCreateKey (demo_request None) [3]%Z 6]
     key_op (fresh, Some (demo_db []))).1.

Lemma keys_survive_restart_witness :
  ∃ v' st', vks_load_from_store no_env (fresh, created.2) = ((v', st'), Ok ()) ∧
    ∃ rec, check_key v' "/v1/x" bearer 7 = KeyAccepted (hash_token demo_token) rec.
Proof.
  assert (st_for [OpCreateKey (demo_request None) [1; 2]%Z 5; OpCreateKey (demo_request None) [3]%Z 6]
    key_op (fresh, Some (demo_db [])) = (created.1, Some (default (demo_db []) created.2), Ok ())) as Eops
    by (vm_compute; reflexivity).
  assert (created.2 = Some (default (demo_db []) created.2)) as -> by (vm_compute; reflexivity).
  assert (key_rows (demo_db []) = ∅) as Erows by reflexivity.
  destruct (vks_load_from_store no_env (fresh, Some (default (demo_db []) created.2))) as [[v' st'] r] eqn:El.
  destruct (keys_survive_restart no_env [openai] [] false (demo_db []) _ _ _ fresh _ r
    Erows Eops eq_refl El) as [[-> Hc]|[e ->]].
  - exists v', st'. split; [done|]. cbn [fst] in Hc. rewrite Hc. vm_compute. by eexists.
  - exfalso. apply (f_equal snd) in El. vm_compute in El. discriminate El.
Defined.

Lemma deleting_affects_one_key_witness :
  (delete_key (hash_token demo_token) created).2 = Ok true ∧
  check_key (delete_key (hash_token demo_token) created).1.1 "/v1/x" bearer 7 =
    Refused (unauthorized "Invalid API key" "invalid_api_key").
Proof.
  destruct (delete_key (hash_token demo_token) created) as [s' r] eqn:E.
  assert (r = Ok true) as -> by (apply (f_equal snd) in E; vm_compute in E; congruence).
  split; [done|]. cbn [fst].
  destruct (deleting_affects_one_key (hash_token demo_token) created s' E) as (h & _ & Hp & Hu & Hc).
  rewrite (Hc "/v1/x" bearer 7%Z).
  assert (h = hash_token demo_token) as ->
    by (symmetry; apply Hu; [vm_compute; by eexists|vm_compute; reflexivity]).
  vm_compute. reflexivity.
Defined.

Lemma model_endpoints_agree_witness :
  "m2" ∈ (visible_models_for_key fresh {|
     vr_key_hash := "h"; vr_project_id := "p"; vr_name := "n"; vr_provider_name := "openai";
     vr_budget_limit := None; vr_budget_duration := None; vr_budget_window_start := None;
     vr_rpm_limit := None; vr_tpm_limit := None; vr_allowed_models := None; vr_timeout_secs := None;
     vr_tool_approval_mode := None; vr_allowed_tools := None; vr_active := true;
     vr_created_at := ""; vr_expires_at := None |}).*1.
Proof. apply (model_endpoints_agree no_env [openai] [] fresh _ "m2" eq_refl). vm_compute. reflexivity. Defined.

(** An expiry that is not a number of seconds is accepted and never comes. *)
Theorem unreadable_expiry_never_comes record unix :
  vr_expires_at record = Some "2024-01-01T00:00:00Z" → expired record unix = false.
Proof. intros E. unfold expired. by rewrite E. Qed.

Definition no_update : KeyUpdate := {|
  ku_budget_limit := None; ku_rpm_limit := None; ku_tpm_limit := None; ku_active := None;
  ku_allowed_models := None; ku_expires_at := None; ku_timeout_secs := None;
  ku_tool_approval_mode := None; ku_allowed_tools := None |}.

(** An update that is refused for its tool policy has already changed the key:
    here it is active no more, in memory but not in the table. *)
Theorem refused_update_takes_effect :
  let u := {| ku_budget_limit := None; ku_rpm_limit := None; ku_tpm_limit := None;
              ku_active := Some false; ku_allowed_models := None; ku_expires_at := None;
              ku_timeout_secs := None; ku_tool_approval_mode := Some (Some "never");
              ku_allowed_tools := None |} in
  let '(s', r) := update_key_with_runtime_policy (hash_token demo_token) u created in
  (∃ e, r = Err e) ∧ s'.2 = created.2 ∧
  check_key s'.1 "/v1/x" bearer 7 = Refused (unauthorized "API key has been revoked" "key_revoked").
Proof. vm_compute. split_and!; [by eexists|done..]. Qed.

(** The budget window the cost tracker wrote is overwritten, by the next update of
    the key, with the one the key had when it was loaded. *)
Theorem update_restores_old_window :
  let st := (update_virtual_key_budget_window (default (demo_db []) created.2)
               (hash_token demo_token) 90000).1 in
  let s' := (update_key_with_runtime_policy (hash_token demo_token) no_update (created.1, Some st)).1 in
  vr_budget_window_start <$> key_rows st !! hash_token demo_token = Some (Some 90000%Z) ∧
  (st' ← s'.2; vr_budget_window_start <$> key_rows st' !! hash_token demo_token) = Some (Some 5%Z).
Proof. by vm_compute. Qed.

(** The models of a key are checked against the first text that looks like a
    model, not against the model of the request. *)
Theorem allowed_models_bypassed :
  let body := "{" +:+ quoted_key "metadata" +:+ ":{" +:+ quoted_key "model" +:+ ":" +:+ quoted_key "m1"
    +:+ "}," +:+ quoted_key "model" +:+ ":" +:+ quoted_key "m2" +:+ "}" in
  ∀ record, vr_allowed_models record = Some (strings_to_string ["m1"]) →
    model_allowed record (Some "m2") = false ∧ model_allowed record (extract_model body) = true.
Proof. intros body record E. unfold model_allowed. rewrite E. by vm_compute. Qed.

End KeysDemo.
