(* ===== verification/GovernanceStore.v ===== *)
(** * The store of project governance

    Model of the part of [plugin-llm-gateway/src/store] that keeps what governs a
    project: its policy, routing rules, safety policies, tools, prompts with
    their rollouts, and the history of changes.  The methods of the trait
    [GatewayStore] are an interface with its contract; the SQLite implementation
    meets it.  Several statements stamp the row with the database's own
    [datetime('now')]. *)

From S2P Require Import Prelude RecordSet RustStr F64 Sql UsageStore.

Local Open Scope string_scope.
Local Open Scope list_scope.
Local Open Scope rust_scope.

(** ** Records *)

Record ProjectPolicyRecord := {
  pp_project_id : string;
  pp_budget_limit : option f64;
  pp_budget_duration : option string;
  pp_rpm_limit : option Z;
  pp_tpm_limit : option Z;
  pp_fallback_order : option string;
  pp_adaptive_enabled : bool;
  pp_timeout_secs : option Z;
  pp_provider_rpm_limits : option string;
  pp_provider_tpm_limits : option string;
  pp_provider_timeouts : option string;
  pp_provider_input_costs : option string;
  pp_provider_output_costs : option string;
  pp_semantic_cache_enabled : option bool;
  pp_semantic_cache_ttl_secs : option Z;
  pp_semantic_cache_similarity_threshold : option f64;
  pp_tool_approval_mode : option string;
  pp_allowed_tools : option string;
  pp_updated_at : string;
}.

#[export] Instance ProjectPolicyRecord_set : Settable ProjectPolicyRecord := λ r,
  {| pp_project_id := pp_project_id r; pp_budget_limit := pp_budget_limit r;
     pp_budget_duration := pp_budget_duration r; pp_rpm_limit := pp_rpm_limit r;
     pp_tpm_limit := pp_tpm_limit r; pp_fallback_order := pp_fallback_order r;
     pp_adaptive_enabled := pp_adaptive_enabled r; pp_timeout_secs := pp_timeout_secs r;
     pp_provider_rpm_limits := pp_provider_rpm_limits r;
     pp_provider_tpm_limits := pp_provider_tpm_limits r;
     pp_provider_timeouts := pp_provider_timeouts r;
     pp_provider_input_costs := pp_provider_input_costs r;
     pp_provider_output_costs := pp_provider_output_costs r;
     pp_semantic_cache_enabled := pp_semantic_cache_enabled r;
     pp_semantic_cache_ttl_secs := pp_semantic_cache_ttl_secs r;
     pp_semantic_cache_similarity_threshold := pp_semantic_cache_similarity_threshold r;
     pp_tool_approval_mode := pp_tool_approval_mode r; pp_allowed_tools := pp_allowed_tools r;
     pp_updated_at := pp_updated_at r |}.

Record RoutingRuleRecord := {
  rl_rule_id : string;
  rl_project_id : string;
  rl_name : string;
  rl_priority : Z;
  rl_enabled : bool;
  rl_match_path : option string;
  rl_match_model : option string;
  rl_match_streaming : option bool;
  rl_match_role : option string;
  rl_match_headers : option string;
  rl_min_prompt_tokens : option Z;
  rl_max_prompt_tokens : option Z;
  rl_deny_reason : option string;
  rl_provider_order : option string;
  rl_provider_weights : option string;
  rl_timeout_secs : option Z;
  rl_created_at : string;
}.

Record SafetyPolicyRecord := {
  sp_project_id : string;
  sp_mode : string;
  sp_rules_json : option string;
  sp_updated_at : string;
}.

#[export] Instance SafetyPolicyRecord_set : Settable SafetyPolicyRecord := λ r,
  {| sp_project_id := sp_project_id r; sp_mode := sp_mode r; sp_rules_json := sp_rules_json r;
     sp_updated_at := sp_updated_at r |}.

Record ProjectSemanticPolicyRecord := {
  sem_project_id : string;
  sem_version : string;
  sem_enabled : bool;
  sem_entities_json : option string;
  sem_topics_json : option string;
  sem_updated_at : string;
}.

#[export] Instance ProjectSemanticPolicyRecord_set : Settable ProjectSemanticPolicyRecord := λ r,
  {| sem_project_id := sem_project_id r; sem_version := sem_version r; sem_enabled := sem_enabled r;
     sem_entities_json := sem_entities_json r; sem_topics_json := sem_topics_json r;
     sem_updated_at := sem_updated_at r |}.

Record ProjectToolRecord := {
  pt_project_id : string;
  pt_tool_name : string;
  pt_description : option string;
  pt_input_schema_json : string;
  pt_executor_kind : string;
  pt_executor_config_json : option string;
  pt_enabled : bool;
  pt_timeout_ms : option Z;
  pt_updated_at : string;
}.

#[export] Instance ProjectToolRecord_set : Settable ProjectToolRecord := λ r,
  {| pt_project_id := pt_project_id r; pt_tool_name := pt_tool_name r;
     pt_description := pt_description r; pt_input_schema_json := pt_input_schema_json r;
     pt_executor_kind := pt_executor_kind r; pt_executor_config_json := pt_executor_config_json r;
     pt_enabled := pt_enabled r; pt_timeout_ms := pt_timeout_ms r;
     pt_updated_at := pt_updated_at r |}.

Record ProjectPromptRecord := {
  pm_project_id : string;
  pm_prompt_name : string;
  pm_version : string;
  pm_environment : string;
  pm_description : option string;
  pm_target : string;
  pm_template_text : string;
  pm_variables_schema_json : option string;
  pm_rollout_metadata_json : option string;
  pm_active : bool;
  pm_updated_at : string;
}.

#[export] Instance ProjectPromptRecord_set : Settable ProjectPromptRecord := λ r,
  {| pm_project_id := pm_project_id r; pm_prompt_name := pm_prompt_name r;
     pm_version := pm_version r; pm_environment := pm_environment r;
     pm_description := pm_description r; pm_target := pm_target r;
     pm_template_text := pm_template_text r;
     pm_variables_schema_json := pm_variables_schema_json r;
     pm_rollout_metadata_json := pm_rollout_metadata_json r; pm_active := pm_active r;
     pm_updated_at := pm_updated_at r |}.

Record ProjectRolloutPolicyRecord := {
  rp_project_id : string;
  rp_policy_name : string;
  rp_description : option string;
  rp_gate_config_json : string;
  rp_target_environment : option string;
  rp_updated_at : string;
}.

#[export] Instance ProjectRolloutPolicyRecord_set : Settable ProjectRolloutPolicyRecord := λ r,
  {| rp_project_id := rp_project_id r; rp_policy_name := rp_policy_name r;
     rp_description := rp_description r; rp_gate_config_json := rp_gate_config_json r;
     rp_target_environment := rp_target_environment r; rp_updated_at := rp_updated_at r |}.

Record ProjectPromptRolloutRecord := {
  ro_project_id : string;
  ro_prompt_name : string;
  ro_rollout_id : string;
  ro_policy_name : string;
  ro_baseline_version : option string;
  ro_candidate_version : string;
  ro_baseline_run_id : string;
  ro_candidate_run_id : string;
  ro_target_environment : option string;
  ro_status : string;
  ro_recommendation_action : option string;
  ro_comparison_json : string;
  ro_created_at : string;
  ro_applied_at : option string;
}.

#[export] Instance ProjectPromptRolloutRecord_set : Settable ProjectPromptRolloutRecord := λ r,
  {| ro_project_id := ro_project_id r; ro_prompt_name := ro_prompt_name r;
     ro_rollout_id := ro_rollout_id r; ro_policy_name := ro_policy_name r;
     ro_baseline_version := ro_baseline_version r; ro_candidate_version := ro_candidate_version r;
     ro_baseline_run_id := ro_baseline_run_id r; ro_candidate_run_id := ro_candidate_run_id r;
     ro_target_environment := ro_target_environment r; ro_status := ro_status r;
     ro_recommendation_action := ro_recommendation_action r;
     ro_comparison_json := ro_comparison_json r; ro_created_at := ro_created_at r;
     ro_applied_at := ro_applied_at r |}.

Record GovernanceChangeRecord := {
  gc_change_id : string;
  gc_project_id : string;
  gc_resource_type : string;
  gc_resource_id : string;
  gc_action : string;
  gc_before_json : option string;
  gc_after_json : option string;
  gc_changed_at : string;
}.

(** The primary keys of tables with more than one key column. *)
Definition tool_key (r : ProjectToolRecord) : string * string := (pt_project_id r, pt_tool_name r).

Definition prompt_key (r : ProjectPromptRecord) : string * string * string :=
  (pm_project_id r, pm_prompt_name r, pm_version r).

Definition rollout_policy_key (r : ProjectRolloutPolicyRecord) : string * string :=
  (rp_project_id r, rp_policy_name r).

Definition rollout_key (r : ProjectPromptRolloutRecord) : string * string * string :=
  (ro_project_id r, ro_prompt_name r, ro_rollout_id r).

(** ** The methods *)

Class GovernanceStore (St : Type) := {
  get_all_project_policies : St → St * result StoreError (list ProjectPolicyRecord);
  upsert_policy_row : St → ProjectPolicyRecord → St * result StoreError ();
  delete_policy_row : St → string → St * result StoreError bool;
  get_routing_rules : St → St * result StoreError (list RoutingRuleRecord);
  upsert_rule_row : St → RoutingRuleRecord → St * result StoreError ();
  delete_rule_row : St → string → St * result StoreError bool;
  get_all_safety_policies : St → St * result StoreError (list SafetyPolicyRecord);
  upsert_safety_row : St → SafetyPolicyRecord → St * result StoreError ();
  delete_safety_row : St → string → St * result StoreError bool;
  get_all_semantic_policies : St → St * result StoreError (list ProjectSemanticPolicyRecord);
  upsert_semantic_row : St → ProjectSemanticPolicyRecord → St * result StoreError ();
  delete_semantic_row : St → string → St * result StoreError bool;
  get_project_tools : St → St * result StoreError (list ProjectToolRecord);
  upsert_tool_row : St → ProjectToolRecord → St * result StoreError ();
  delete_tool_row : St → string * string → St * result StoreError bool;
  get_project_prompts : St → St * result StoreError (list ProjectPromptRecord);
  upsert_prompt_row : St → ProjectPromptRecord → St * result StoreError ();
  delete_prompt_row : St → string * string * string → St * result StoreError bool;
  get_project_prompt_rollouts : St → string → string →
    St * result StoreError (list ProjectPromptRolloutRecord);
  upsert_rollout_row : St → ProjectPromptRolloutRecord → St * result StoreError ();
  get_rollout_policy_row : St → string → string →
    St * result StoreError (option ProjectRolloutPolicyRecord);
  get_rollout_policy_rows : St → option string →
    St * result StoreError (list ProjectRolloutPolicyRecord);
  upsert_rollout_policy_row : St → ProjectRolloutPolicyRecord → St * result StoreError ();
  delete_rollout_policy_row : St → string * string → St * result StoreError bool;
  append_governance_change : St → GovernanceChangeRecord → St * result StoreError ();
  get_governance_changes : St → string → option string → Z →
    St * result StoreError (list GovernanceChangeRecord);
}.

(** ** The tables *)

Record GovTables := {
  t_policies : gmap string ProjectPolicyRecord;
  t_rules : gmap string RoutingRuleRecord;
  t_safety : gmap string SafetyPolicyRecord;
  t_semantic : gmap string ProjectSemanticPolicyRecord;
  t_tools : gmap (string * string) ProjectToolRecord;
  t_prompts : gmap (string * string * string) ProjectPromptRecord;
  t_rollout_policies : gmap (string * string) ProjectRolloutPolicyRecord;
  t_rollouts : gmap (string * string * string) ProjectPromptRolloutRecord;
  t_history : gmap string GovernanceChangeRecord;
}.

#[export] Instance GovTables_set : Settable GovTables := λ t,
  {| t_policies := t_policies t; t_rules := t_rules t; t_safety := t_safety t;
     t_semantic := t_semantic t; t_tools := t_tools t; t_prompts := t_prompts t;
     t_rollout_policies := t_rollout_policies t; t_rollouts := t_rollouts t;
     t_history := t_history t |}.

Definition gov_empty : GovTables :=
  {| t_policies := ∅; t_rules := ∅; t_safety := ∅; t_semantic := ∅; t_tools := ∅; t_prompts := ∅;
     t_rollout_policies := ∅; t_rollouts := ∅; t_history := ∅ |}.

(** A policy as its row keeps it, stamped by the database. *)
Definition db_policy (now : string) (r : ProjectPolicyRecord) : ProjectPolicyRecord :=
  r <| pp_budget_limit := db_opt_real (pp_budget_limit r) |>
    <| pp_semantic_cache_similarity_threshold :=
         db_opt_real (pp_semantic_cache_similarity_threshold r) |>
    <| pp_updated_at := now |>.

Definition db_safety (now : string) (r : SafetyPolicyRecord) := r <| sp_updated_at := now |>.
Definition db_semantic (now : string) (r : ProjectSemanticPolicyRecord) := r <| sem_updated_at := now |>.
Definition db_tool (now : string) (r : ProjectToolRecord) := r <| pt_updated_at := now |>.
Definition db_prompt (now : string) (r : ProjectPromptRecord) := r <| pm_updated_at := now |>.
Definition db_rollout_policy (now : string) (r : ProjectRolloutPolicyRecord) :=
  r <| rp_updated_at := now |>.

(** [ORDER BY a DESC, b DESC] on texts, as "comes no later". *)
Definition desc_desc (a b a' b' : string) : bool :=
  if String.eqb a a' then String.leb b' b else String.leb a' a.

(** The rollouts of a prompt, newest first. *)
Definition prompt_rollouts_query (project_id prompt_name : string)
    (m : gmap (string * string * string) ProjectPromptRolloutRecord) : list ProjectPromptRolloutRecord :=
  sort_by (λ x y, desc_desc (ro_created_at x) (ro_rollout_id x) (ro_created_at y) (ro_rollout_id y))
    (filter (λ r, String.eqb (ro_project_id r) project_id && String.eqb (ro_prompt_name r) prompt_name = true)
       (rows m)).

(** The last changes of a project, newest first, of one type or of all. *)
Definition changes_query (project_id : string) (resource_type : option string) (limit : Z)
    (m : gmap string GovernanceChangeRecord) : list GovernanceChangeRecord :=
  take (Z.to_nat limit)
    (sort_by (λ x y, desc_desc (gc_changed_at x) (gc_change_id x) (gc_changed_at y) (gc_change_id y))
      (filter (λ c, String.eqb (gc_project_id c) project_id &&
                    from_option (String.eqb (gc_resource_type c)) true resource_type = true) (rows m))).

Definition rollout_policies_query (project_id : option string)
    (m : gmap (string * string) ProjectRolloutPolicyRecord) : list ProjectRolloutPolicyRecord :=
  sort_by (λ x y, if String.eqb (rp_project_id x) (rp_project_id y)
                  then String.leb (rp_policy_name x) (rp_policy_name y)
                  else String.leb (rp_project_id x) (rp_project_id y))
    (filter (λ r, from_option (String.eqb (rp_project_id r)) true project_id = true) (rows m)).

(** The tables after a statement that may have failed. *)
Definition written {A} (r : result StoreError A) (t after : GovTables) : GovTables :=
  match r with Ok _ => after | Err _ => t end.

(** ** The contract *)

Class GovernanceStoreOk (St : Type) `{GovernanceStore St} := {
  gov_tables : St → GovTables;
  read_policies st st' r : get_all_project_policies st = (st', r) →
    gov_tables st' = gov_tables st ∧ ∀ l, r = Ok l → l ≡ₚ rows (t_policies (gov_tables st));
  write_policy st rec st' r : upsert_policy_row st rec = (st', r) →
    ∃ now, gov_tables st' = written r (gov_tables st) (gov_tables st <| t_policies :=
      <[pp_project_id rec := db_policy now rec]> (t_policies (gov_tables st)) |>);
  remove_policy st k st' r : delete_policy_row st k = (st', r) →
    gov_tables st' = written r (gov_tables st)
      (gov_tables st <| t_policies := delete k (t_policies (gov_tables st)) |>) ∧
    ∀ b, r = Ok b → b = affected k (t_policies (gov_tables st));
  read_rules st st' r : get_routing_rules st = (st', r) →
    gov_tables st' = gov_tables st ∧ ∀ l, r = Ok l → l ≡ₚ rows (t_rules (gov_tables st));
  write_rule st rec st' r : upsert_rule_row st rec = (st', r) →
    gov_tables st' = written r (gov_tables st) (gov_tables st <| t_rules :=
      <[rl_rule_id rec := rec]> (t_rules (gov_tables st)) |>);
  remove_rule st k st' r : delete_rule_row st k = (st', r) →
    gov_tables st' = written r (gov_tables st)
      (gov_tables st <| t_rules := delete k (t_rules (gov_tables st)) |>) ∧
    ∀ b, r = Ok b → b = affected k (t_rules (gov_tables st));
  read_safety st st' r : get_all_safety_policies st = (st', r) →
    gov_tables st' = gov_tables st ∧ ∀ l, r = Ok l → l ≡ₚ rows (t_safety (gov_tables st));
  write_safety st rec st' r : upsert_safety_row st rec = (st', r) →
    ∃ now, gov_tables st' = written r (gov_tables st) (gov_tables st <| t_safety :=
      <[sp_project_id rec := db_safety now rec]> (t_safety (gov_tables st)) |>);
  remove_safety st k st' r : delete_safety_row st k = (st', r) →
    gov_tables st' = written r (gov_tables st)
      (gov_tables st <| t_safety := delete k (t_safety (gov_tables st)) |>) ∧
    ∀ b, r = Ok b → b = affected k (t_safety (gov_tables st));
  read_semantic st st' r : get_all_semantic_policies st = (st', r) →
    gov_tables st' = gov_tables st ∧ ∀ l, r = Ok l → l ≡ₚ rows (t_semantic (gov_tables st));
  write_semantic st rec st' r : upsert_semantic_row st rec = (st', r) →
    ∃ now, gov_tables st' = written r (gov_tables st) (gov_tables st <| t_semantic :=
      <[sem_project_id rec := db_semantic now rec]> (t_semantic (gov_tables st)) |>);
  remove_semantic st k st' r : delete_semantic_row st k = (st', r) →
    gov_tables st' = written r (gov_tables st)
      (gov_tables st <| t_semantic := delete k (t_semantic (gov_tables st)) |>) ∧
    ∀ b, r = Ok b → b = affected k (t_semantic (gov_tables st));
  read_tools st st' r : get_project_tools st = (st', r) →
    gov_tables st' = gov_tables st ∧ ∀ l, r = Ok l → l ≡ₚ rows (t_tools (gov_tables st));
  write_tool st rec st' r : upsert_tool_row st rec = (st', r) →
    ∃ now, gov_tables st' = written r (gov_tables st) (gov_tables st <| t_tools :=
      <[tool_key rec := db_tool now rec]> (t_tools (gov_tables st)) |>);
  remove_tool st k st' r : delete_tool_row st k = (st', r) →
    gov_tables st' = written r (gov_tables st)
      (gov_tables st <| t_tools := delete k (t_tools (gov_tables st)) |>) ∧
    ∀ b, r = Ok b → b = affected k (t_tools (gov_tables st));
  read_prompts st st' r : get_project_prompts st = (st', r) →
    gov_tables st' = gov_tables st ∧ ∀ l, r = Ok l → l ≡ₚ rows (t_prompts (gov_tables st));
  write_prompt st rec st' r : upsert_prompt_row st rec = (st', r) →
    ∃ now, gov_tables st' = written r (gov_tables st) (gov_tables st <| t_prompts :=
      <[prompt_key rec := db_prompt now rec]> (t_prompts (gov_tables st)) |>);
  remove_prompt st k st' r : delete_prompt_row st k = (st', r) →
    gov_tables st' = written r (gov_tables st)
      (gov_tables st <| t_prompts := delete k (t_prompts (gov_tables st)) |>) ∧
    ∀ b, r = Ok b → b = affected k (t_prompts (gov_tables st));
  read_rollouts st p n st' r : get_project_prompt_rollouts st p n = (st', r) →
    gov_tables st' = gov_tables st ∧
    ∀ l, r = Ok l → l ≡ₚ prompt_rollouts_query p n (t_rollouts (gov_tables st));
  write_rollout st rec st' r : upsert_rollout_row st rec = (st', r) →
    gov_tables st' = written r (gov_tables st) (gov_tables st <| t_rollouts :=
      <[rollout_key rec := rec]> (t_rollouts (gov_tables st)) |>);
  read_rollout_policy st p n st' r : get_rollout_policy_row st p n = (st', r) →
    gov_tables st' = gov_tables st ∧
    ∀ o, r = Ok o → o = t_rollout_policies (gov_tables st) !! (p, n);
  read_rollout_policies st p st' r : get_rollout_policy_rows st p = (st', r) →
    gov_tables st' = gov_tables st ∧
    ∀ l, r = Ok l → l ≡ₚ rollout_policies_query p (t_rollout_policies (gov_tables st));
  write_rollout_policy st rec st' r : upsert_rollout_policy_row st rec = (st', r) →
    ∃ now, gov_tables st' = written r (gov_tables st) (gov_tables st <| t_rollout_policies :=
      <[rollout_policy_key rec := db_rollout_policy now rec]> (t_rollout_policies (gov_tables st)) |>);
  remove_rollout_policy st k st' r : delete_rollout_policy_row st k = (st', r) →
    gov_tables st' = written r (gov_tables st)
      (gov_tables st <| t_rollout_policies := delete k (t_rollout_policies (gov_tables st)) |>) ∧
    ∀ b, r = Ok b → b = affected k (t_rollout_policies (gov_tables st));
  write_change st rec st' r : append_governance_change st rec = (st', r) →
    gov_tables st' = written r (gov_tables st) (gov_tables st <| t_history :=
      <[gc_change_id rec := rec]> (t_history (gov_tables st)) |>);
  read_changes st p ty n st' r : get_governance_changes st p ty n = (st', r) →
    gov_tables st' = gov_tables st ∧
    ∀ l, r = Ok l → l = changes_query p ty n (t_history (gov_tables st));
}.

(** ** The SQLite implementation *)

(** The tables beside the clock of the database: [datetime('now')] as each
    stamping statement reads it. *)
Record GovDbState := {
  gd_tables : GovTables;
  gd_datetime : nat → string;
  gd_stamps : nat;
}.

#[export] Instance GovDbState_set : Settable GovDbState := λ d,
  {| gd_tables := gd_tables d; gd_datetime := gd_datetime d; gd_stamps := gd_stamps d |}.

Definition GovDb : Type := SqlDb GovDbState.

Definition gov_query {A} (s : GovDb) (q : GovTables → A) : GovDb * result StoreError A :=
  execute s (λ d, (d, q (gd_tables d))).

Definition gov_write (s : GovDb) (w : GovTables → GovTables) : GovDb * result StoreError () :=
  execute s (λ d, (d <| gd_tables := w (gd_tables d) |>, ())).

Definition gov_write_now (s : GovDb) (w : string → GovTables → GovTables)
    : GovDb * result StoreError () :=
  execute s (λ d, (d <| gd_tables := w (gd_datetime d (gd_stamps d)) (gd_tables d) |>
                     <| gd_stamps := S (gd_stamps d) |>, ())).

Definition gov_delete (s : GovDb) (w : GovTables → GovTables) (hit : GovTables → bool)
    : GovDb * result StoreError bool :=
  execute s (λ d, (d <| gd_tables := w (gd_tables d) |>, hit (gd_tables d))).

Definition sqlite_get_all_project_policies (s : GovDb) := gov_query s (λ t, rows (t_policies t)).

Definition sqlite_upsert_project_policy (s : GovDb) (r : ProjectPolicyRecord) :=
  gov_write_now s (λ now t, t <| t_policies := <[pp_project_id r := db_policy now r]> (t_policies t) |>).

Definition sqlite_delete_project_policy (s : GovDb) (k : string) :=
  gov_delete s (λ t, t <| t_policies := delete k (t_policies t) |>) (λ t, affected k (t_policies t)).

(** [ORDER BY priority DESC, created_at ASC]; the order of ties is the table's. *)
Definition rule_before (x y : RoutingRuleRecord) : bool :=
  if (rl_priority x =? rl_priority y)%Z then String.leb (rl_created_at x) (rl_created_at y)
  else (rl_priority y <? rl_priority x)%Z.

Definition sqlite_get_routing_rules (s : GovDb) :=
  gov_query s (λ t, sort_by rule_before (rows (t_rules t))).

Definition sqlite_upsert_routing_rule (s : GovDb) (r : RoutingRuleRecord) :=
  gov_write s (λ t, t <| t_rules := <[rl_rule_id r := r]> (t_rules t) |>).

Definition sqlite_delete_routing_rule (s : GovDb) (k : string) :=
  gov_delete s (λ t, t <| t_rules := delete k (t_rules t) |>) (λ t, affected k (t_rules t)).

Definition sqlite_get_all_safety_policies (s : GovDb) := gov_query s (λ t, rows (t_safety t)).

Definition sqlite_upsert_safety_policy (s : GovDb) (r : SafetyPolicyRecord) :=
  gov_write_now s (λ now t, t <| t_safety := <[sp_project_id r := db_safety now r]> (t_safety t) |>).

Definition sqlite_delete_safety_policy (s : GovDb) (k : string) :=
  gov_delete s (λ t, t <| t_safety := delete k (t_safety t) |>) (λ t, affected k (t_safety t)).

Definition sqlite_get_all_semantic_policies (s : GovDb) := gov_query s (λ t, rows (t_semantic t)).

Definition sqlite_upsert_semantic_policy (s : GovDb) (r : ProjectSemanticPolicyRecord) :=
  gov_write_now s (λ now t, t <| t_semantic := <[sem_project_id r := db_semantic now r]> (t_semantic t) |>).

Definition sqlite_delete_semantic_policy (s : GovDb) (k : string) :=
  gov_delete s (λ t, t <| t_semantic := delete k (t_semantic t) |>) (λ t, affected k (t_semantic t)).

(** [ORDER BY project_id, tool_name] *)
Definition sqlite_get_project_tools (s : GovDb) :=
  gov_query s (λ t, sort_by (λ x y, if String.eqb (pt_project_id x) (pt_project_id y)
                                    then String.leb (pt_tool_name x) (pt_tool_name y)
                                    else String.leb (pt_project_id x) (pt_project_id y))
                      (rows (t_tools t))).

Definition sqlite_upsert_project_tool (s : GovDb) (r : ProjectToolRecord) :=
  gov_write_now s (λ now t, t <| t_tools := <[tool_key r := db_tool now r]> (t_tools t) |>).

Definition sqlite_delete_project_tool (s : GovDb) (k : string * string) :=
  gov_delete s (λ t, t <| t_tools := delete k (t_tools t) |>) (λ t, affected k (t_tools t)).

(** [ORDER BY prompt_name, environment, version] within a project *)
Definition prompt_before (x y : ProjectPromptRecord) : bool :=
  if String.eqb (pm_prompt_name x) (pm_prompt_name y) then
    if String.eqb (pm_environment x) (pm_environment y) then String.leb (pm_version x) (pm_version y)
    else String.leb (pm_environment x) (pm_environment y)
  else String.leb (pm_prompt_name x) (pm_prompt_name y).

Definition sqlite_get_project_prompts (s : GovDb) :=
  gov_query s (λ t, sort_by (λ x y, if String.eqb (pm_project_id x) (pm_project_id y) then prompt_before x y
                                    else String.leb (pm_project_id x) (pm_project_id y))
                      (rows (t_prompts t))).

Definition sqlite_upsert_project_prompt (s : GovDb) (r : ProjectPromptRecord) :=
  gov_write_now s (λ now t, t <| t_prompts := <[prompt_key r := db_prompt now r]> (t_prompts t) |>).

Definition sqlite_delete_project_prompt (s : GovDb) (k : string * string * string) :=
  gov_delete s (λ t, t <| t_prompts := delete k (t_prompts t) |>) (λ t, affected k (t_prompts t)).

Definition sqlite_get_project_prompt_rollouts (s : GovDb) (project_id prompt_name : string) :=
  gov_query s (λ t, prompt_rollouts_query project_id prompt_name (t_rollouts t)).

Definition sqlite_upsert_project_prompt_rollout (s : GovDb) (r : ProjectPromptRolloutRecord) :=
  gov_write s (λ t, t <| t_rollouts := <[rollout_key r := r]> (t_rollouts t) |>).

Definition sqlite_get_project_rollout_policy (s : GovDb) (project_id policy_name : string) :=
  gov_query s (λ t, t_rollout_policies t !! (project_id, policy_name)).

Definition sqlite_get_project_rollout_policies (s : GovDb) (project_id : option string) :=
  gov_query s (λ t, rollout_policies_query project_id (t_rollout_policies t)).

Definition sqlite_upsert_project_rollout_policy (s : GovDb) (r : ProjectRolloutPolicyRecord) :=
  gov_write_now s (λ now t, t <| t_rollout_policies :=
    <[rollout_policy_key r := db_rollout_policy now r]> (t_rollout_policies t) |>).

Definition sqlite_delete_project_rollout_policy (s : GovDb) (k : string * string) :=
  gov_delete s (λ t, t <| t_rollout_policies := delete k (t_rollout_policies t) |>)
    (λ t, affected k (t_rollout_policies t)).

Definition sqlite_append_governance_change (s : GovDb) (r : GovernanceChangeRecord) :=
  gov_write s (λ t, t <| t_history := <[gc_change_id r := r]> (t_history t) |>).

Definition sqlite_get_governance_changes (s : GovDb) (project_id : string)
    (resource_type : option string) (limit : Z) :=
  gov_query s (λ t, changes_query project_id resource_type limit (t_history t)).

#[export] Instance GovDb_store : GovernanceStore GovDb := {|
  get_all_project_policies := sqlite_get_all_project_policies;
  upsert_policy_row := sqlite_upsert_project_policy;
  delete_policy_row := sqlite_delete_project_policy;
  get_routing_rules := sqlite_get_routing_rules;
  upsert_rule_row := sqlite_upsert_routing_rule;
  delete_rule_row := sqlite_delete_routing_rule;
  get_all_safety_policies := sqlite_get_all_safety_policies;
  upsert_safety_row := sqlite_upsert_safety_policy;
  delete_safety_row := sqlite_delete_safety_policy;
  get_all_semantic_policies := sqlite_get_all_semantic_policies;
  upsert_semantic_row := sqlite_upsert_semantic_policy;
  delete_semantic_row := sqlite_delete_semantic_policy;
  get_project_tools := sqlite_get_project_tools;
  upsert_tool_row := sqlite_upsert_project_tool;
  delete_tool_row := sqlite_delete_project_tool;
  get_project_prompts := sqlite_get_project_prompts;
  upsert_prompt_row := sqlite_upsert_project_prompt;
  delete_prompt_row := sqlite_delete_project_prompt;
  get_project_prompt_rollouts := sqlite_get_project_prompt_rollouts;
  upsert_rollout_row := sqlite_upsert_project_prompt_rollout;
  get_rollout_policy_row := sqlite_get_project_rollout_policy;
  get_rollout_policy_rows := sqlite_get_project_rollout_policies;
  upsert_rollout_policy_row := sqlite_upsert_project_rollout_policy;
  delete_rollout_policy_row := sqlite_delete_project_rollout_policy;
  append_governance_change := sqlite_append_governance_change;
  get_governance_changes := sqlite_get_governance_changes;
|}.

(** *** It meets the contract *)

Definition gov_db_tables (s : GovDb) : GovTables := gd_tables (db_tables s).

Lemma gov_query_spec {A} s (q : GovTables → A) s' r : gov_query s q = (s', r) →
  gov_db_tables s' = gov_db_tables s ∧ ∀ a, r = Ok a → a = q (gov_db_tables s).
Proof.
  intros E. unfold gov_query in E. apply execute_select in E as [E1 E2]. unfold gov_db_tables.
  by rewrite E1.
Qed.

Lemma gov_write_spec s w s' r : gov_write s w = (s', r) →
  gov_db_tables s' = written r (gov_db_tables s) (w (gov_db_tables s)).
Proof.
  intros E. unfold gov_write in E. apply execute_write in E. unfold gov_db_tables. rewrite E. by destruct r.
Qed.

Lemma gov_write_now_spec s w s' r : gov_write_now s w = (s', r) →
  ∃ now, gov_db_tables s' = written r (gov_db_tables s) (w now (gov_db_tables s)).
Proof.
  intros E. unfold gov_write_now in E. apply execute_cases in E. unfold gov_db_tables.
  exists (gd_datetime (db_tables s) (gd_stamps (db_tables s))).
  destruct r; [destruct E as [-> _]|rewrite E]; done.
Qed.

Lemma gov_delete_spec s w hit s' r : gov_delete s w hit = (s', r) →
  gov_db_tables s' = written r (gov_db_tables s) (w (gov_db_tables s)) ∧
  ∀ b, r = Ok b → b = hit (gov_db_tables s).
Proof.
  intros E. unfold gov_delete in E. apply execute_cases in E. unfold gov_db_tables.
  destruct r as [b|e]; [destruct E as [-> ->]|rewrite E]; split; [done| |done..]. by intros ? [= ->].
Qed.

#[export] Instance GovDb_ok : GovernanceStoreOk GovDb.
Proof.
  refine {| gov_tables := gov_db_tables |}; intros;
    match goal with E : _ = (_, _) |- _ =>
      first [ exact (gov_delete_spec _ _ _ _ _ E)
            | exact (gov_write_now_spec _ _ _ _ E)
            | exact (gov_write_spec _ _ _ _ E)
            | apply gov_query_spec in E as [? E]; split; [done|]; intros ? ->;
              rewrite (E _ eq_refl), ?sort_by_perm; done ]
    end.
Defined.
