(* ===== verification/Governance.v ===== *)
(** * The LLM gateway: project governance

    Model of [plugin-llm-gateway/src/governance.rs] but for routing, which is in
    [Routing.v]: the policies, rules, tools, prompts and prompt rollouts of the
    projects, kept in memory over the store, with the history of changes.  The
    store is shared with other components, so it is threaded beside the state.
    [now] is the wall clock a call reads, in nanoseconds since the epoch. *)

From S2P Require Import Prelude RecordSet RustStr F64 Json Sql StateResult Auth UsageStore GovernanceStore.

Local Open Scope string_scope.
Local Open Scope list_scope.
Local Open Scope rust_scope.

(** ** Data *)

Inductive SafetyMode :=
| RedactAndForward
| Block
| ObserveOnly.

Definition safety_as_str (m : SafetyMode) : string :=
  match m with
  | RedactAndForward => "redact_and_forward"
  | Block => "block"
  | ObserveOnly => "observe_only"
  end.

Definition safety_parse (value : string) : option SafetyMode :=
  if String.eqb value "redact_and_forward" then Some RedactAndForward
  else if String.eqb value "block" then Some Block
  else if String.eqb value "observe_only" || String.eqb value "log" then Some ObserveOnly
  else None.

Record SafetyRule := {
  sr_pattern : option string;
  sr_description : option string;
  sr_detector_class : option string;
  sr_action : option string;
  sr_verification : option string;
  sr_replacement : option string;
  sr_path_patterns : list string;
  sr_allowlist_patterns : list string;
}.

Record ResolvedProjectPrompt := {
  rv_record : ProjectPromptRecord;
  rv_rollout_id : option string;
  rv_rollout_mode : option string;
}.

Record ProviderStats := {
  ewma_latency_ms : f64;
  ewma_error_rate : f64;
  ewma_timeout_rate : f64;
  ewma_rate_limit_rate : f64;
  active_requests : Z;
  samples : Z;
}.

#[export] Instance ProviderStats_set : Settable ProviderStats := λ s,
  {| ewma_latency_ms := ewma_latency_ms s; ewma_error_rate := ewma_error_rate s;
     ewma_timeout_rate := ewma_timeout_rate s; ewma_rate_limit_rate := ewma_rate_limit_rate s;
     active_requests := active_requests s; samples := samples s |}.

Definition stats_default : ProviderStats :=
  {| ewma_latency_ms := f_zero; ewma_error_rate := f_zero; ewma_timeout_rate := f_zero;
     ewma_rate_limit_rate := f_zero; active_requests := 0; samples := 0 |}.

(** The maps of [GovernanceState]; [change_counter] is the process-wide counter
    of change identifiers. *)
Record GovernanceState := {
  project_policies : gmap string ProjectPolicyRecord;
  routing_rules : gmap string (list RoutingRuleRecord);
  safety_policies : gmap string SafetyPolicyRecord;
  semantic_policies : gmap string ProjectSemanticPolicyRecord;
  project_tools : gmap string (list ProjectToolRecord);
  project_prompts : gmap string (list ProjectPromptRecord);
  project_prompt_rollouts : gmap string (list ProjectPromptRolloutRecord);
  provider_stats : gmap string ProviderStats;
  change_counter : Z;
}.

#[export] Instance GovernanceState_set : Settable GovernanceState := λ g,
  {| project_policies := project_policies g; routing_rules := routing_rules g;
     safety_policies := safety_policies g; semantic_policies := semantic_policies g;
     project_tools := project_tools g; project_prompts := project_prompts g;
     project_prompt_rollouts := project_prompt_rollouts g; provider_stats := provider_stats g;
     change_counter := change_counter g |}.

Definition governance_new (counter : Z) : GovernanceState :=
  {| project_policies := ∅; routing_rules := ∅; safety_policies := ∅; semantic_policies := ∅;
     project_tools := ∅; project_prompts := ∅; project_prompt_rollouts := ∅; provider_stats := ∅;
     change_counter := counter |}.

(** ** Rows of a project, in memory *)

(** [iter_mut().find(p)] and assignment, or [push]. *)
Fixpoint replace_or_push {A} (p : A → bool) (r : A) (l : list A) : list A :=
  match l with
  | [] => [r]
  | x :: l' => if p x then r :: l' else x :: replace_or_push p r l'
  end.

(** [map.entry(k).or_default()] changed in place. *)
Definition update_entry {A} (k : string) (f : list A → list A) (m : gmap string (list A))
    : gmap string (list A) :=
  <[k := f (default [] (m !! k))]> m.

(** Every value of a map of lists, in the order of its iteration. *)
Definition all_values {A} (m : gmap string (list A)) : list A := concat (map_to_list m).*2.

Definition tool_before (x y : ProjectToolRecord) : bool := String.leb (pt_tool_name x) (pt_tool_name y).

(** By prompt, then newest first. *)
Definition rollout_before (x y : ProjectPromptRolloutRecord) : bool :=
  if String.eqb (ro_prompt_name x) (ro_prompt_name y)
  then desc_desc (ro_created_at x) (ro_rollout_id x) (ro_created_at y) (ro_rollout_id y)
  else String.leb (ro_prompt_name x) (ro_prompt_name y).

(** [generate_unique_id]: [{prefix}-{nanos}-{sequence:016x}]. *)
Definition hex_016 (n : Z) : string :=
  hex_encode ((λ i : nat, (n ≫ (8 * Z.of_nat i)) `mod` 256)%Z <$> [7; 6; 5; 4; 3; 2; 1; 0]).

Definition generate_unique_id (prefix : string) (now sequence : Z) : string :=
  prefix +:+ "-" +:+ pretty now +:+ "-" +:+ hex_016 sequence.

Definition current_timestamp_string (now : Z) : string := pretty (now `div` 1000000000)%Z.

(** ** Reading *)

Definition project_policy (g : GovernanceState) (project_id : string) : option ProjectPolicyRecord :=
  project_policies g !! project_id.

Definition safety_policy (g : GovernanceState) (project_id : string) : option SafetyPolicyRecord :=
  safety_policies g !! project_id.

Definition safety_mode_for_project (g : GovernanceState) (project_id : string) : SafetyMode :=
  default RedactAndForward (r ← safety_policy g project_id; safety_parse (sp_mode r)).

Definition list_project_policies (g : GovernanceState) : list ProjectPolicyRecord :=
  rows (project_policies g).

Definition list_routing_rules (g : GovernanceState) (project_id : option string)
    : list RoutingRuleRecord :=
  match project_id with
  | Some p => default [] (routing_rules g !! p)
  | None => all_values (routing_rules g)
  end.

Definition list_safety_policies (g : GovernanceState) : list SafetyPolicyRecord :=
  rows (safety_policies g).

Definition semantic_policy (g : GovernanceState) (project_id : string)
    : option ProjectSemanticPolicyRecord :=
  semantic_policies g !! project_id.

Definition list_semantic_policies (g : GovernanceState) : list ProjectSemanticPolicyRecord :=
  rows (semantic_policies g).

Definition project_tool (g : GovernanceState) (project_id tool_name : string)
    : option ProjectToolRecord :=
  l ← project_tools g !! project_id;
  find_first (λ r, String.eqb (pt_tool_name r) tool_name) l.

Definition list_project_tools (g : GovernanceState) (project_id : option string)
    : list ProjectToolRecord :=
  match project_id with
  | Some p => default [] (project_tools g !! p)
  | None => all_values (project_tools g)
  end.

Definition is_version (prompt_name version : string) (r : ProjectPromptRecord) : bool :=
  String.eqb (pm_prompt_name r) prompt_name && String.eqb (pm_version r) version.

Definition project_prompt (g : GovernanceState) (project_id prompt_name version : string)
    : option ProjectPromptRecord :=
  l ← project_prompts g !! project_id;
  find_first (is_version prompt_name version) l.

Definition list_project_prompts (g : GovernanceState) (project_id prompt_name : option string)
    : list ProjectPromptRecord :=
  let prompts :=
    match project_id with
    | Some p => default [] (project_prompts g !! p)
    | None => all_values (project_prompts g)
    end in
  match prompt_name with
  | Some n => filter (λ r, String.eqb (pm_prompt_name r) n = true) prompts
  | None => prompts
  end.

Definition project_prompt_rollout (g : GovernanceState) (project_id prompt_name rollout_id : string)
    : option ProjectPromptRolloutRecord :=
  l ← project_prompt_rollouts g !! project_id;
  find_first (λ r, String.eqb (ro_prompt_name r) prompt_name && String.eqb (ro_rollout_id r) rollout_id) l.

Definition list_project_prompt_rollouts (g : GovernanceState) (project_id prompt_name : string)
    : list ProjectPromptRolloutRecord :=
  filter (λ r, String.eqb (ro_prompt_name r) prompt_name = true)
    (default [] (project_prompt_rollouts g !! project_id)).

(** The first rule of the identifier, over all projects. *)
Definition routing_rule (g : GovernanceState) (rule_id : string) : option RoutingRuleRecord :=
  find_first (λ r, String.eqb (rl_rule_id r) rule_id) (all_values (routing_rules g)).

(** ** Texts *)

Section texts.
Context `{SerdeJson}.

(** [serde_json::from_str(raw).ok()], and [Null] when there is none. *)
Definition raw_json (raw : option string) : json := default JNull (raw ≫= json_from_str).

Definition parse_string_array (value : option json) : option (list string) :=
  match value with
  | None => Some []
  | Some v => l ← json_array v; mapM json_str l
  end.

Definition safety_rule_of (entry : json) : option SafetyRule :=
  _ ← json_object entry;
  let text k := v ← json_get entry k; json_str v in
  if negb (is_some (text "pattern")) && negb (is_some (text "detector_class")) then None
  else
    paths ← parse_string_array (or_else (json_get entry "path_patterns") (json_get entry "paths"));
    allow ← parse_string_array (or_else (json_get entry "allowlist_patterns") (json_get entry "allowlist"));
    Some {| sr_pattern := text "pattern"; sr_description := text "description";
            sr_detector_class := text "detector_class"; sr_action := text "action";
            sr_verification := text "verification"; sr_replacement := text "replacement";
            sr_path_patterns := paths; sr_allowlist_patterns := allow |}.

Definition parse_safety_rules (raw : string) : option (list SafetyRule) :=
  value ← json_from_str raw;
  array ← json_array value;
  mapM safety_rule_of array.

Definition safety_rules_for_project (g : GovernanceState) (project_id : string) : list SafetyRule :=
  default [] (r ← safety_policy g project_id; raw ← sp_rules_json r; parse_safety_rules raw).

Definition json_opt_f64 (o : option f64) : json := from_option json_of_f64 JNull o.
Definition json_opt_bool (o : option bool) : json := from_option JBool JNull o.

Definition project_policy_json (r : ProjectPolicyRecord) : string :=
  json_to_string (json_literal
    [("project_id", JString (pp_project_id r)); ("budget_limit", json_opt_f64 (pp_budget_limit r));
     ("budget_duration", json_opt_str (pp_budget_duration r));
     ("rpm_limit", json_opt_Z (pp_rpm_limit r)); ("tpm_limit", json_opt_Z (pp_tpm_limit r));
     ("fallback_order", raw_json (pp_fallback_order r));
     ("adaptive_enabled", JBool (pp_adaptive_enabled r));
     ("timeout_secs", json_opt_Z (pp_timeout_secs r));
     ("provider_rpm_limits", raw_json (pp_provider_rpm_limits r));
     ("provider_tpm_limits", raw_json (pp_provider_tpm_limits r));
     ("provider_timeouts", raw_json (pp_provider_timeouts r));
     ("provider_input_costs", raw_json (pp_provider_input_costs r));
     ("provider_output_costs", raw_json (pp_provider_output_costs r));
     ("tool_approval_mode", json_opt_str (pp_tool_approval_mode r));
     ("allowed_tools", raw_json (pp_allowed_tools r)); ("updated_at", JString (pp_updated_at r))]).

Definition routing_rule_json (r : RoutingRuleRecord) : string :=
  json_to_string (json_literal
    [("rule_id", JString (rl_rule_id r)); ("project_id", JString (rl_project_id r));
     ("name", JString (rl_name r)); ("priority", json_of_Z (rl_priority r));
     ("enabled", JBool (rl_enabled r)); ("match_path", json_opt_str (rl_match_path r));
     ("match_model", json_opt_str (rl_match_model r));
     ("match_streaming", json_opt_bool (rl_match_streaming r));
     ("match_role", json_opt_str (rl_match_role r));
     ("match_headers", raw_json (rl_match_headers r));
     ("min_prompt_tokens", json_opt_Z (rl_min_prompt_tokens r));
     ("max_prompt_tokens", json_opt_Z (rl_max_prompt_tokens r));
     ("deny_reason", json_opt_str (rl_deny_reason r));
     ("provider_order", raw_json (rl_provider_order r));
     ("provider_weights", raw_json (rl_provider_weights r));
     ("timeout_secs", json_opt_Z (rl_timeout_secs r)); ("created_at", JString (rl_created_at r))]).

Definition safety_policy_json (r : SafetyPolicyRecord) : string :=
  json_to_string (json_literal
    [("project_id", JString (sp_project_id r)); ("mode", JString (sp_mode r));
     ("rules", raw_json (sp_rules_json r)); ("updated_at", JString (sp_updated_at r))]).

Definition semantic_policy_json (r : ProjectSemanticPolicyRecord) : string :=
  json_to_string (json_literal
    [("project_id", JString (sem_project_id r)); ("version", JString (sem_version r));
     ("enabled", JBool (sem_enabled r)); ("entities", raw_json (sem_entities_json r));
     ("topics", raw_json (sem_topics_json r)); ("updated_at", JString (sem_updated_at r))]).

Definition project_tool_json (r : ProjectToolRecord) : string :=
  json_to_string (json_literal
    [("project_id", JString (pt_project_id r)); ("tool_name", JString (pt_tool_name r));
     ("description", json_opt_str (pt_description r));
     ("input_schema", raw_json (Some (pt_input_schema_json r)));
     ("executor_kind", JString (pt_executor_kind r));
     ("executor_config", raw_json (pt_executor_config_json r)); ("enabled", JBool (pt_enabled r));
     ("timeout_ms", json_opt_Z (pt_timeout_ms r)); ("updated_at", JString (pt_updated_at r))]).

Definition project_prompt_json_with_active (r : ProjectPromptRecord) (active : bool) : string :=
  json_to_string (json_literal
    [("project_id", JString (pm_project_id r)); ("prompt_name", JString (pm_prompt_name r));
     ("version", JString (pm_version r)); ("environment", JString (pm_environment r));
     ("description", json_opt_str (pm_description r)); ("target", JString (pm_target r));
     ("template_text", JString (pm_template_text r));
     ("variables_schema", raw_json (pm_variables_schema_json r));
     ("rollout_metadata", raw_json (pm_rollout_metadata_json r)); ("active", JBool active);
     ("updated_at", JString (pm_updated_at r))]).

Definition project_prompt_json (r : ProjectPromptRecord) : string :=
  project_prompt_json_with_active r (pm_active r).

(** ** Prompts in use *)

Record RuntimePromptRolloutConfig := {
  rc_mode : string;
  rc_traffic_percent : Z;
}.

Definition parse_runtime_prompt_rollout_config (raw : string) : option RuntimePromptRolloutConfig :=
  value ← json_from_str raw;
  runtime ← json_get value "runtime_rollout";
  _ ← json_object runtime;
  mode ← (m ← json_get runtime "mode"; unicode_trim <$> json_str m);
  if String.eqb mode "" then None
  else
    percent ← (v ← json_get runtime "traffic_percent"; json_u64 v);
    if (u8_max <? percent)%Z || (percent =? 0)%Z then None
    else Some {| rc_mode := mode; rc_traffic_percent := percent |}.

Record ActivePromptCanaryRollout := {
  ac_rollout_id : string;
  ac_candidate_version : string;
  ac_traffic_percent : Z;
}.

Definition canary_of (prompt_name environment : string) (r : ProjectPromptRolloutRecord)
    : option ActivePromptCanaryRollout :=
  if negb (String.eqb (ro_prompt_name r) prompt_name) || negb (String.eqb (ro_status r) "applied_canary")
  then None
  else
    runtime ← parse_runtime_prompt_rollout_config (ro_comparison_json r);
    if negb (eq_ignore_ascii_case (rc_mode runtime) "canary") then None
    else if from_option (λ e, negb (String.eqb e environment)) false (ro_target_environment r) then None
    else Some {| ac_rollout_id := ro_rollout_id r; ac_candidate_version := ro_candidate_version r;
                 ac_traffic_percent := rc_traffic_percent runtime |}.

Definition active_canary_prompt_rollout (g : GovernanceState)
    (project_id prompt_name environment : string) : option ActivePromptCanaryRollout :=
  rollouts ← project_prompt_rollouts g !! project_id;
  find_map (canary_of prompt_name environment) rollouts.

End texts.

(** The hash of two strings, one after the other, by the default hasher of the
    standard library, whose algorithm is not specified. *)
Class DefaultHasher := default_hash : string → string → Z.

Definition rollout_bucket `{DefaultHasher} (rollout_id seed : string) : Z :=
  (default_hash rollout_id seed `mod` 100)%Z.

Definition is_baseline (prompt_name environment : string) (r : ProjectPromptRecord) : bool :=
  String.eqb (pm_prompt_name r) prompt_name && String.eqb (pm_environment r) environment && pm_active r.

Definition resolve_project_prompt `{SerdeJson} `{DefaultHasher} (g : GovernanceState)
    (project_id prompt_name : string) (version : option string) (environment : string)
    (rollout_seed : option string) : option ResolvedProjectPrompt :=
  prompts ← project_prompts g !! project_id;
  match version with
  | Some version =>
      record ← find_first (is_version prompt_name version) prompts;
      Some {| rv_record := record; rv_rollout_id := None; rv_rollout_mode := None |}
  | None =>
      baseline ← find_first (is_baseline prompt_name environment) prompts;
      match active_canary_prompt_rollout g project_id prompt_name environment with
      | Some rollout =>
          let use_candidate :=
            from_option (λ seed, rollout_bucket (ac_rollout_id rollout) seed <? ac_traffic_percent rollout)%Z
              false rollout_seed in
          let selected :=
            if use_candidate then
              default baseline (find_first (λ r, String.eqb (pm_prompt_name r) prompt_name
                && String.eqb (pm_environment r) environment
                && String.eqb (pm_version r) (ac_candidate_version rollout)) prompts)
            else baseline in
          Some {| rv_record := selected; rv_rollout_id := Some (ac_rollout_id rollout);
                  rv_rollout_mode := Some "canary" |}
      | None => Some {| rv_record := baseline; rv_rollout_id := None; rv_rollout_mode := None |}
      end
  end.

(** ** Operations *)

Section operations.
Context `{SerdeJson} {St : Type} `{GovernanceStore St}.

Notation Op := (ST (GovernanceState * option St) StoreError).

(** [if let Some(store) = &self.store { store.call().await? }] *)
Definition gov_store {A} (call : St → St * result StoreError A) : Op (option A) := λ s,
  match s.2 with
  | None => (s, Ok None)
  | Some st => let '(st, r) := call st in ((s.1, Some st), result_map Some r)
  end.

Definition gov_modify (f : GovernanceState → GovernanceState) : Op () :=
  st_modify (λ s, (f s.1, s.2)).

(** The identifier is drawn, and the counter moved on, only with a store. *)
Definition record_governance_change (now : Z)
    (project_id resource_type resource_id action : string) (before_json after_json : option string)
    : Op () :=
  s ← st_get;
  match s.2 with
  | None => mret ()
  | Some _ =>
      let sequence := change_counter s.1 in
      _ ← gov_modify (λ g, g <| change_counter := wrap64 (sequence + 1) |>);
      _ ← gov_store (λ st, append_governance_change st
        {| gc_change_id := generate_unique_id "chg" now sequence; gc_project_id := project_id;
           gc_resource_type := resource_type; gc_resource_id := resource_id; gc_action := action;
           gc_before_json := before_json; gc_after_json := after_json;
           gc_changed_at := current_timestamp_string now |});
      mret ()
  end.

(** *** Policies: one record per project *)

Definition upsert_project_policy (now : Z) (record : ProjectPolicyRecord) : Op () :=
  s ← st_get;
  let before := project_policy s.1 (pp_project_id record) in
  _ ← gov_store (λ st, upsert_policy_row st record);
  _ ← gov_modify (λ g, g <| project_policies := <[pp_project_id record := record]> (project_policies g) |>);
  record_governance_change now (pp_project_id record) "project_policy" "policy" "upsert"
    (project_policy_json <$> before) (Some (project_policy_json record)).

(** What the three deletions of a policy share: with a store its answer counts,
    and memory forgets the record in any case. *)
Definition delete_policy_with (now : Z) (project_id : string)
    (delete_row : St → string → St * result StoreError bool)
    (known : GovernanceState → bool) (forget : GovernanceState → GovernanceState)
    (resource_type resource_id : string) (before_json : option string) : Op bool :=
  s ← st_get;
  answer ← gov_store (λ st, delete_row st project_id);
  s ← st_get;
  let deleted := default (known s.1) answer in
  _ ← gov_modify forget;
  _ ← (if deleted
       then record_governance_change now project_id resource_type resource_id "delete" before_json None
       else mret ());
  mret deleted.

Definition delete_project_policy (now : Z) (project_id : string) : Op bool :=
  s ← st_get;
  delete_policy_with now project_id delete_policy_row
    (λ g, is_some (project_policies g !! project_id))
    (λ g, g <| project_policies := delete project_id (project_policies g) |>)
    "project_policy" "policy" (project_policy_json <$> project_policy s.1 project_id).

Definition upsert_safety_policy (now : Z) (record : SafetyPolicyRecord) : Op () :=
  s ← st_get;
  let before := safety_policy s.1 (sp_project_id record) in
  _ ← gov_store (λ st, upsert_safety_row st record);
  _ ← gov_modify (λ g, g <| safety_policies := <[sp_project_id record := record]> (safety_policies g) |>);
  record_governance_change now (sp_project_id record) "safety_policy" "safety" "upsert"
    (safety_policy_json <$> before) (Some (safety_policy_json record)).

Definition delete_safety_policy (now : Z) (project_id : string) : Op bool :=
  s ← st_get;
  delete_policy_with now project_id delete_safety_row
    (λ g, is_some (safety_policies g !! project_id))
    (λ g, g <| safety_policies := delete project_id (safety_policies g) |>)
    "safety_policy" "safety" (safety_policy_json <$> safety_policy s.1 project_id).

Definition upsert_semantic_policy (now : Z) (record : ProjectSemanticPolicyRecord) : Op () :=
  s ← st_get;
  let before := semantic_policy s.1 (sem_project_id record) in
  _ ← gov_store (λ st, upsert_semantic_row st record);
  _ ← gov_modify (λ g, g <| semantic_policies := <[sem_project_id record := record]> (semantic_policies g) |>);
  record_governance_change now (sem_project_id record) "semantic_policy" "semantic-safety" "upsert"
    (semantic_policy_json <$> before) (Some (semantic_policy_json record)).

Definition delete_semantic_policy (now : Z) (project_id : string) : Op bool :=
  s ← st_get;
  delete_policy_with now project_id delete_semantic_row
    (λ g, is_some (semantic_policies g !! project_id))
    (λ g, g <| semantic_policies := delete project_id (semantic_policies g) |>)
    "semantic_policy" "semantic-safety" (semantic_policy_json <$> semantic_policy s.1 project_id).

(** *** Routing rules *)

Definition put_rule (record : RoutingRuleRecord) (l : list RoutingRuleRecord) : list RoutingRuleRecord :=
  sort_by rule_before (replace_or_push (λ r, String.eqb (rl_rule_id r) (rl_rule_id record)) record l).

Definition upsert_routing_rule (now : Z) (record : RoutingRuleRecord) : Op () :=
  s ← st_get;
  let before := routing_rule s.1 (rl_rule_id record) in
  _ ← gov_store (λ st, upsert_rule_row st record);
  _ ← gov_modify (λ g, g <| routing_rules :=
        update_entry (rl_project_id record) (put_rule record) (routing_rules g) |>);
  record_governance_change now (rl_project_id record) "routing_rule" (rl_rule_id record) "upsert"
    (routing_rule_json <$> before) (Some (routing_rule_json record)).

(** Drops the rule from the first project, in the order of the keys, that has it. *)
Fixpoint remove_from_keys (rule_id : string) (keys : list string)
    (m : gmap string (list RoutingRuleRecord)) : gmap string (list RoutingRuleRecord) * bool :=
  match keys with
  | [] => (m, false)
  | key :: keys' =>
      match m !! key with
      | Some rules =>
          let kept := filter (λ r, negb (String.eqb (rl_rule_id r) rule_id) = true) rules in
          let m := <[key := kept]> m in
          if negb (Nat.eqb (length kept) (length rules)) then (m, true)
          else remove_from_keys rule_id keys' m
      | None => remove_from_keys rule_id keys' m
      end
  end.

Definition remove_routing_rule (rule_id : string) (g : GovernanceState) : GovernanceState * bool :=
  let '(m, removed) := remove_from_keys rule_id (map_to_list (routing_rules g)).*1 (routing_rules g) in
  (g <| routing_rules := m |>, removed).

(** With a store its answer counts, else whether memory had the rule. *)
Definition delete_routing_rule (now : Z) (rule_id : string) : Op bool :=
  s ← st_get;
  let before := routing_rule s.1 rule_id in
  answer ← gov_store (λ st, delete_rule_row st rule_id);
  s ← st_get;
  let deleted := default (remove_routing_rule rule_id s.1).2 answer in
  _ ← (if deleted then gov_modify (λ g, (remove_routing_rule rule_id g).1) else mret ());
  _ ← (match deleted, before with
       | true, Some before =>
           record_governance_change now (rl_project_id before) "routing_rule" rule_id "delete"
             (Some (routing_rule_json before)) None
       | _, _ => mret ()
       end);
  mret deleted.

(** *** Tools *)

Definition put_tool (record : ProjectToolRecord) (l : list ProjectToolRecord) : list ProjectToolRecord :=
  sort_by tool_before (replace_or_push (λ r, String.eqb (pt_tool_name r) (pt_tool_name record)) record l).

Definition upsert_project_tool (now : Z) (record : ProjectToolRecord) : Op () :=
  s ← st_get;
  let before := project_tool s.1 (pt_project_id record) (pt_tool_name record) in
  _ ← gov_store (λ st, upsert_tool_row st record);
  _ ← gov_modify (λ g, g <| project_tools :=
        update_entry (pt_project_id record) (put_tool record) (project_tools g) |>);
  record_governance_change now (pt_project_id record) "project_tool" (pt_tool_name record) "upsert"
    (project_tool_json <$> before) (Some (project_tool_json record)).

(** [retain] on the entry of a project, which goes when nothing is left; and
    whether anything was dropped. *)
Definition retain_entry {A} (keep : A → bool) (k : string) (m : gmap string (list A))
    : gmap string (list A) * bool :=
  match m !! k with
  | None => (m, false)
  | Some l =>
      let kept := filter (λ x, keep x = true) l in
      let removed := negb (Nat.eqb (length kept) (length l)) in
      (match kept with [] => delete k m | _ => <[k := kept]> m end, removed)
  end.

Definition remove_project_tool (project_id tool_name : string) (g : GovernanceState)
    : GovernanceState * bool :=
  let '(m, removed) := retain_entry (λ r, negb (String.eqb (pt_tool_name r) tool_name))
                         project_id (project_tools g) in
  (g <| project_tools := m |>, removed).

(** What the deletions of tools and prompts share. *)
Definition delete_row_with (now : Z) (project_id resource_type resource_id : string)
    (delete_row : St → St * result StoreError bool)
    (forget : GovernanceState → GovernanceState * bool) (before_json : option string) : Op bool :=
  answer ← gov_store delete_row;
  s ← st_get;
  let deleted := default (forget s.1).2 answer in
  _ ← (if deleted then gov_modify (λ g, (forget g).1) else mret ());
  _ ← (if deleted
       then record_governance_change now project_id resource_type resource_id "delete" before_json None
       else mret ());
  mret deleted.

Definition delete_project_tool (now : Z) (project_id tool_name : string) : Op bool :=
  s ← st_get;
  delete_row_with now project_id "project_tool" tool_name
    (λ st, delete_tool_row st (project_id, tool_name)) (remove_project_tool project_id tool_name)
    (project_tool_json <$> project_tool s.1 project_id tool_name).

(** *** Prompts *)

(** Whether an upsert of the record takes the prompt out of use. *)
Definition superseded_by (record prompt : ProjectPromptRecord) : bool :=
  pm_active record
  && (String.eqb (pm_prompt_name prompt) (pm_prompt_name record)
      && String.eqb (pm_environment prompt) (pm_environment record)
      && negb (String.eqb (pm_version prompt) (pm_version record))
      && pm_active prompt).

Definition deactivated (now : Z) (prompt : ProjectPromptRecord) : ProjectPromptRecord :=
  prompt <| pm_active := false |> <| pm_updated_at := current_timestamp_string now |>.

Definition put_prompt (now : Z) (record : ProjectPromptRecord) (l : list ProjectPromptRecord)
    : list ProjectPromptRecord :=
  let l := (λ p, if superseded_by record p then deactivated now p else p) <$> l in
  sort_by prompt_before (replace_or_push (is_version (pm_prompt_name record) (pm_version record)) record l).

Definition prompt_id (r : ProjectPromptRecord) : string := pm_prompt_name r +:+ ":" +:+ pm_version r.

(** Memory first, then the store, then the history. *)
Definition upsert_project_prompt (now : Z) (record : ProjectPromptRecord) : Op () :=
  s ← st_get;
  let before := project_prompt s.1 (pm_project_id record) (pm_prompt_name record) (pm_version record) in
  let prompts := default [] (project_prompts s.1 !! pm_project_id record) in
  let gone := deactivated now <$> filter (λ p, superseded_by record p = true) prompts in
  _ ← gov_modify (λ g, g <| project_prompts :=
        update_entry (pm_project_id record) (put_prompt now record) (project_prompts g) |>);
  _ ← st_for gone (λ r, _ ← gov_store (λ st, upsert_prompt_row st r); mret ());
  _ ← gov_store (λ st, upsert_prompt_row st record);
  _ ← st_for gone (λ r,
        record_governance_change now (pm_project_id r) "project_prompt" (prompt_id r) "deactivate"
          (Some (project_prompt_json_with_active r true)) (Some (project_prompt_json r)));
  record_governance_change now (pm_project_id record) "project_prompt" (prompt_id record) "upsert"
    ((λ b, project_prompt_json_with_active b (pm_active b)) <$> before) (Some (project_prompt_json record)).

Definition remove_project_prompt (project_id prompt_name version : string) (g : GovernanceState)
    : GovernanceState * bool :=
  let '(m, removed) := retain_entry (λ r, negb (is_version prompt_name version r))
                         project_id (project_prompts g) in
  (g <| project_prompts := m |>, removed).

Definition delete_project_prompt (now : Z) (project_id prompt_name version : string) : Op bool :=
  s ← st_get;
  delete_row_with now project_id "project_prompt" (prompt_name +:+ ":" +:+ version)
    (λ st, delete_prompt_row st (project_id, prompt_name, version))
    (remove_project_prompt project_id prompt_name version)
    (project_prompt_json <$> project_prompt s.1 project_id prompt_name version).

Definition put_rollout (record : ProjectPromptRolloutRecord) (l : list ProjectPromptRolloutRecord)
    : list ProjectPromptRolloutRecord :=
  sort_by rollout_before
    (replace_or_push (λ r, String.eqb (ro_prompt_name r) (ro_prompt_name record)
                           && String.eqb (ro_rollout_id r) (ro_rollout_id record)) record l).

Definition upsert_project_prompt_rollout (record : ProjectPromptRolloutRecord) : Op () :=
  _ ← gov_store (λ st, upsert_rollout_row st record);
  gov_modify (λ g, g <| project_prompt_rollouts :=
    update_entry (ro_project_id record) (put_rollout record) (project_prompt_rollouts g) |>).

(** *** Loading *)

(** [entry(project).or_default().push(record)] for every record. *)
Definition group_by_project {A} (project : A → string) (l : list A) : gmap string (list A) :=
  foldl (λ m r, update_entry (project r) (λ rs, rs ++ [r]) m) ∅ l.

Definition insert_records {A} (key : A → string) (l : list A) : gmap string A :=
  foldl (λ m r, <[key r := r]> m) ∅ l.

(** [sort] and [dedup] of the prompts whose rollouts are read. *)
Definition key_le (x y : string * string) : bool :=
  if String.eqb x.1 y.1 then String.leb x.2 y.2 else String.leb x.1 y.1.

Fixpoint load_rollouts (keys : list (string * string)) : Op () :=
  match keys with
  | [] => mret ()
  | (project_id, prompt_name) :: keys' =>
      l ← gov_store (λ st, get_project_prompt_rollouts st project_id prompt_name);
      _ ← gov_modify (λ g, g <| project_prompt_rollouts :=
            foldl (λ m r, update_entry (ro_project_id r) (λ rs, rs ++ [r]) m)
              (project_prompt_rollouts g) (default [] l) |>);
      load_rollouts keys'
  end.

Definition load_from_store : Op () :=
  s ← st_get;
  match s.2 with
  | None => mret ()
  | Some _ =>
      _ ← gov_modify (λ g, g <| project_policies := ∅ |> <| routing_rules := ∅ |>
            <| safety_policies := ∅ |> <| semantic_policies := ∅ |> <| project_tools := ∅ |>
            <| project_prompts := ∅ |> <| project_prompt_rollouts := ∅ |>);
      policies ← gov_store get_all_project_policies;
      _ ← gov_modify (λ g, g <| project_policies := insert_records pp_project_id (default [] policies) |>);
      rules ← gov_store get_routing_rules;
      _ ← gov_modify (λ g, g <| routing_rules :=
            sort_by rule_before <$> group_by_project rl_project_id (default [] rules) |>);
      safety ← gov_store get_all_safety_policies;
      _ ← gov_modify (λ g, g <| safety_policies := insert_records sp_project_id (default [] safety) |>);
      semantic ← gov_store get_all_semantic_policies;
      _ ← gov_modify (λ g, g <| semantic_policies := insert_records sem_project_id (default [] semantic) |>);
      tools ← gov_store get_project_tools;
      _ ← gov_modify (λ g, g <| project_tools :=
            sort_by tool_before <$> group_by_project pt_project_id (default [] tools) |>);
      prompts ← gov_store get_project_prompts;
      _ ← gov_modify (λ g, g <| project_prompts :=
            sort_by prompt_before <$> group_by_project pm_project_id (default [] prompts) |>);
      let keys := dedup (sort_by key_le
        ((λ r, (pm_project_id r, pm_prompt_name r)) <$> default [] prompts)) in
      _ ← load_rollouts keys;
      gov_modify (λ g, g <| project_prompt_rollouts :=
        sort_by rollout_before <$> project_prompt_rollouts g |>)
  end.

End operations.

(** ** The health of providers *)

Inductive ProviderOutcome :=
| OutcomeSuccess (latency : Duration)
| OutcomeErrorStatus (latency : Duration)
| OutcomeRateLimited (latency : Duration)
| OutcomeTimeout.

(** [entry(name).or_default()] *)
Definition update_stats (provider_name : string) (f : ProviderStats → ProviderStats)
    (g : GovernanceState) : GovernanceState :=
  g <| provider_stats := <[provider_name := f (default stats_default (provider_stats g !! provider_name))]>
         (provider_stats g) |>.

Definition begin_provider_request (provider_name : string) : GovernanceState → GovernanceState :=
  update_stats provider_name
    (λ s, s <| active_requests := Z.min u32_max (active_requests s + 1) |>).

Definition f_quarter : f64 := S754_finite false 4503599627370496 (-54).
Definition f_one : f64 := f64_of_Z 1.

(** The moving average; what equals zero counts as having no sample. *)
Definition ewma (current value : f64) : f64 :=
  if f_eq current f_zero then value
  else f64_add (f64_mul current (f64_sub f_one f_quarter)) (f64_mul value f_quarter).

Definition latency_ms (latency : Duration) : f64 := f64_mul (as_secs_f64 latency) (f64_of_Z 1000).

Definition apply_outcome (outcome : ProviderOutcome) (s : ProviderStats) : ProviderStats :=
  let answered latency error limited s :=
    s <| ewma_latency_ms := ewma (ewma_latency_ms s) (latency_ms latency) |>
      <| ewma_error_rate := ewma (ewma_error_rate s) error |>
      <| ewma_timeout_rate := ewma (ewma_timeout_rate s) f_zero |>
      <| ewma_rate_limit_rate := ewma (ewma_rate_limit_rate s) limited |> in
  match outcome with
  | OutcomeSuccess latency => answered latency f_zero f_zero s
  | OutcomeErrorStatus latency => answered latency f_one f_zero s
  | OutcomeRateLimited latency => answered latency f_one f_one s
  | OutcomeTimeout =>
      s <| ewma_error_rate := ewma (ewma_error_rate s) f_one |>
        <| ewma_timeout_rate := ewma (ewma_timeout_rate s) f_one |>
  end.

Definition record_provider_outcome (provider_name : string) (outcome : ProviderOutcome)
    : GovernanceState → GovernanceState :=
  update_stats provider_name (λ s,
    apply_outcome outcome
      (s <| active_requests := Z.max 0 (active_requests s - 1) |>
         <| samples := Z.min u64_max (samples s + 1) |>)).

Record ProviderPenaltyBreakdown := {
  pb_active_requests : f64;
  pb_latency : f64;
  pb_error : f64;
  pb_timeout : f64;
  pb_rate_limit : f64;
}.

Definition penalty_total (p : ProviderPenaltyBreakdown) : f64 :=
  f64_add (f64_add (f64_add (f64_add (pb_active_requests p) (pb_latency p)) (pb_error p))
    (pb_timeout p)) (pb_rate_limit p).

Definition provider_penalty_breakdown (g : GovernanceState) (provider_name : string)
    : ProviderPenaltyBreakdown :=
  match provider_stats g !! provider_name with
  | Some s =>
      {| pb_active_requests := f64_mul (f64_of_Z (active_requests s)) (f64_of_Z 10);
         pb_latency := ewma_latency_ms s;
         pb_error := f64_mul (ewma_error_rate s) (f64_of_Z 10000);
         pb_timeout := f64_mul (ewma_timeout_rate s) (f64_of_Z 15000);
         pb_rate_limit := f64_mul (ewma_rate_limit_rate s) (f64_of_Z 12000) |}
  | None =>
      {| pb_active_requests := f_zero; pb_latency := f_zero; pb_error := f_zero;
         pb_timeout := f_zero; pb_rate_limit := f_zero |}
  end.

Record ProviderHealthStats := {
  ph_stats : ProviderStats;
  ph_penalties : ProviderPenaltyBreakdown;
}.

Definition provider_health_stats (g : GovernanceState) (provider_name : string) : ProviderHealthStats :=
  {| ph_stats := default stats_default (provider_stats g !! provider_name);
     ph_penalties := provider_penalty_breakdown g provider_name |}.

Definition provider_stats_keys (g : GovernanceState) : list string :=
  sort_by String.leb (map_to_list (provider_stats g)).*1.
