(* ===== verification/SemanticSafety.v ===== *)
(** * The semantic safety plugin

    Model of [plugin-llm-gateway/src/semantic_safety.rs]: the part of the gateway
    that asks the semantic safety service about requests, keeps its policies the
    same as those of the projects, and reads texts out of a request.  The
    generated gRPC client is an interface, [SafetyClient], of which the service
    itself is an instance. *)

From S2P Require Import Prelude RecordSet RustStr Utf8 F64 Toml Json Sql StateResult Http Auth Plugin GatewayContext SemanticService GovernanceStore Governance.

Local Open Scope string_scope.
Local Open Scope list_scope.
Local Open Scope rust_scope.

(** ** The service, from here *)

Class SafetyClient (R : Type) := {
  endpoint_from_shared : string → result string ();
  metadata_value : string → result string string;
  call_evaluate : R → option string → EvaluateRequest → R * result string EvaluateResponse;
  call_upsert : R → option string → ProjectSemanticPolicy → R * result string ();
  call_delete : R → option string → string → R * result string ();
  call_sync_status : R → option string → string → R * result string ProjectSyncState;
  call_sync_states : R → option string → R * result string (list ProjectSyncState);
  call_health : R → option string → R * result string BackendHealth;
}.

(** What [serde_json] makes of the lists of a policy. *)
Class PolicyTexts := {
  entities_from_str : string → result string (list SemanticEntity);
  entities_to_string : list SemanticEntity → result string string;
  topics_from_str : string → result string (list SemanticTopic);
  topics_to_string : list SemanticTopic → result string string;
}.

(** ** Configuration *)

Record SemanticSafetyConfig := {
  sc_endpoint : string;
  sc_auth_token : option string;
  sc_timeout : Duration;
  sc_max_chunks : nat;
  sc_max_chars_per_chunk : nat;
  sc_top_k : Z;
  sc_reconcile_interval : Duration;
}.

Definition safety_config_from_toml `{Toml} (config : tvalue) : result string SemanticSafetyConfig :=
  let str k := toml_get config k ≫= as_str in
  let int k (d : Z) := default d (toml_get config k ≫= as_integer) in
  (match str "endpoint" with
  | None => Err "semantic_safety.endpoint is required"
  | Some endpoint =>
      Ok {| sc_endpoint := endpoint; sc_auth_token := str "auth_token";
            sc_timeout := (Z.max (int "timeout_ms" 750%Z) 1 * 1000000)%Z;
            sc_max_chunks := Z.to_nat (Z.max (int "max_chunks" 16%Z) 1);
            sc_max_chars_per_chunk := Z.to_nat (Z.max (int "max_chars_per_chunk" 1024%Z) 64);
            sc_top_k := wrap32 (Z.max (int "top_k" 8%Z) 1);
            sc_reconcile_interval := (Z.max (int "reconcile_interval_secs" 300%Z) 30 * 1000000000)%Z |}
  end).

(** ** Reading a request *)

Definition should_capture_field (field_name : option string) : bool :=
  bool_decide (default "" field_name ∈ ["content"; "text"; "prompt"; "input"; "instructions"; "arguments"; "query"]).

Section chunks.
Context `{SerdeJson} (max_chunks max_chars_per_chunk : nat).

Definition chunk_at (path text : string) : Chunk :=
  {| ck_path := path; ck_text := take_chars max_chars_per_chunk text |}.

Definition full (chunks : list Chunk) : bool := Nat.leb max_chunks (length chunks).

(** The loops stop where the limit is reached. *)
Fixpoint collect_chunks (value : json) (path : string) (field_name : option string) (chunks : list Chunk)
    : list Chunk :=
  if full chunks then chunks
  else
    match value with
    | JString text =>
        if should_capture_field field_name then
          let normalized := unicode_trim text in
          if String.eqb normalized "" then chunks else chunks ++ [chunk_at path normalized]
        else chunks
    | JArray values =>
        (fix each (idx : nat) values chunks :=
           match values with
           | [] => chunks
           | entry :: values' =>
               let chunks := collect_chunks entry (path +:+ "[" +:+ pretty idx +:+ "]") field_name chunks in
               if full chunks then chunks else each (S idx) values' chunks
           end) 0%nat values chunks
    | JObject fields =>
        (fix each fields chunks :=
           match fields with
           | [] => chunks
           | (key, entry) :: fields' =>
               let next_path := path +:+ "." +:+ key in
               let chunks :=
                 if should_capture_field (Some key) then
                   match entry with
                   | JString _ => collect_chunks entry next_path (Some key) chunks
                   | JArray _ | JObject _ =>
                       let text := json_to_string entry in
                       let chunks :=
                         if negb (String.eqb text "") && Nat.ltb (length chunks) max_chunks
                         then chunks ++ [chunk_at next_path text] else chunks in
                       collect_chunks entry next_path (Some key) chunks
                   | _ => chunks
                   end
                 else collect_chunks entry next_path (Some key) chunks in
               if full chunks then chunks else each fields' chunks
           end) fields chunks
    | _ => chunks
    end.

Definition extract_semantic_chunks (body : string) : option (list Chunk) :=
  value ← json_from_str body;
  Some (collect_chunks value "$" None []).

Definition extract_stream_flag (body : string) : bool :=
  default false (v ← json_from_str body; e ← json_get v "stream"; json_bool e).

End chunks.

(** ** Records and messages *)

(** [{:032x}] and [{:016x}] *)
Definition hex_032 (n : Z) : string := hex_016 (n ≫ 64)%Z +:+ hex_016 n.

Definition generate_semantic_policy_version (now sequence : Z) : string :=
  "sem-" +:+ hex_032 now +:+ "-" +:+ hex_016 sequence.

Definition generate_request_id (now suffix : Z) : string :=
  "sem-" +:+ pretty (now `div` 1000000)%Z +:+ "-" +:+ hex_016 suffix.

Section records.
Context `{PolicyTexts}.

Definition record_to_proto (record : ProjectSemanticPolicyRecord) : result string ProjectSemanticPolicy :=
  let? entities := entities_from_str (default "[]" (sem_entities_json record)) in
  let? topics := topics_from_str (default "[]" (sem_topics_json record)) in
  Ok {| sy_project_id := sem_project_id record; sy_version := sem_version record;
        sy_enabled := sem_enabled record; sy_entities := entities; sy_topics := topics;
        sy_updated_at := sem_updated_at record |}.

(** [SEMANTIC_POLICY_VERSION_COUNTER] is drawn from only for a new version. *)
Definition proto_to_record (now counter : Z) (policy : ProjectSemanticPolicy)
    : Z * result string ProjectSemanticPolicyRecord :=
  let '(counter, version) :=
    if String.eqb (unicode_trim (sy_version policy)) ""
    then (wrap64 (counter + 1), generate_semantic_policy_version now counter)
    else (counter, sy_version policy) in
  (counter,
   let? entities := entities_to_string (sy_entities policy) in
   let? topics := topics_to_string (sy_topics policy) in
   Ok {| sem_project_id := sy_project_id policy; sem_version := version; sem_enabled := sy_enabled policy;
         sem_entities_json := Some entities; sem_topics_json := Some topics;
         sem_updated_at := if String.eqb (unicode_trim (sy_updated_at policy)) ""
                           then current_timestamp_string now else sy_updated_at policy |}).

End records.

(** ** The plugin *)

Record SemanticPolicySyncStatus := {
  ys_project_id : string;
  ys_policy_version : string;
  ys_index_state : string;
  ys_updated_at : string;
  ys_stored_exemplar_count : Z;
  ys_available : bool;
  ys_ready : bool;
  ys_backend : option string;
  ys_message : option string;
  ys_error : option string;
}.

#[export] Instance SemanticPolicySyncStatus_set : Settable SemanticPolicySyncStatus := λ s,
  {| ys_project_id := ys_project_id s; ys_policy_version := ys_policy_version s;
     ys_index_state := ys_index_state s; ys_updated_at := ys_updated_at s;
     ys_stored_exemplar_count := ys_stored_exemplar_count s; ys_available := ys_available s;
     ys_ready := ys_ready s; ys_backend := ys_backend s; ys_message := ys_message s; ys_error := ys_error s |}.

Record SemanticPolicyMutationResult := {
  mr_policy_version : string;
  mr_synced : bool;
  mr_sync_error : option string;
}.

(** The remote service, the policies of the projects and what is reported. *)
Record SafetyState (R : Type) := {
  sf_remote : R;
  sf_governance : GovernanceState;
  sf_metrics : option (list MetricEvent);
}.
Arguments sf_remote {R}.
Arguments sf_governance {R}.
Arguments sf_metrics {R}.

#[export] Instance SafetyState_set R : Settable (SafetyState R) := λ s,
  {| sf_remote := sf_remote s; sf_governance := sf_governance s; sf_metrics := sf_metrics s |}.

(** The plugin without its state. *)
Record SemanticSafety := {
  sf_config : SemanticSafetyConfig;
  sf_auth_header : option string;
}.

Definition semantic_safety_new `{SafetyClient R} (config : SemanticSafetyConfig) : result string SemanticSafety :=
  let? _ := endpoint_from_shared (sc_endpoint config) in
  Ok {| sf_config := config; sf_auth_header := (λ token, "Bearer " +:+ token) <$> sc_auth_token config |}.

Definition semantic_safety_create_plugin `{SafetyClient R} `{Toml} (config : tvalue) : result string SemanticSafety :=
  let? config := safety_config_from_toml config in
  semantic_safety_new config.

Section plugin.
Context {R : Type} `{SafetyClient R} `{PolicyTexts} (p : SemanticSafety).

(** [with_auth], then the call. *)
Definition with_auth {A} (call : R → option string → R * result string A) (r : R) : R * result string A :=
  match sf_auth_header p with
  | None => call r None
  | Some header =>
      match metadata_value header with
      | Ok v => call r (Some v)
      | Err e => (r, Err e)
      end
  end.

Definition client_evaluate (request : EvaluateRequest) : ST R string EvaluateResponse :=
  with_auth (λ r a, call_evaluate r a request).
Definition client_upsert_policy (policy : ProjectSemanticPolicy) : ST R string () :=
  with_auth (λ r a, call_upsert r a policy).
Definition client_delete_policy (project_id : string) : ST R string () :=
  with_auth (λ r a, call_delete r a project_id).
Definition client_health : ST R string BackendHealth := with_auth call_health.

Definition client_status (state : ProjectSyncState) : SemanticPolicySyncStatus :=
  {| ys_project_id := st_project_id state; ys_policy_version := st_policy_version state;
     ys_index_state := index_state_name (st_index_state state); ys_updated_at := st_updated_at state;
     ys_stored_exemplar_count := st_stored_exemplar_count state; ys_available := true; ys_ready := true;
     ys_backend := None; ys_message := None; ys_error := None |}.

Definition client_get_sync_status (project_id : string) : ST R string SemanticPolicySyncStatus :=
  state ← with_auth (λ r a, call_sync_status r a project_id);
  mret (client_status state).

Definition client_list_sync_states : ST R string (list SemanticPolicySyncStatus) :=
  states ← with_auth call_sync_states;
  mret (client_status <$> states).

(** *** Keeping the service in step *)

Definition expected_state (record : ProjectSemanticPolicyRecord) : string :=
  if sem_enabled record then "ready" else "disabled".

Definition should_push (remote : option (gmap string SemanticPolicySyncStatus))
    (record : ProjectSemanticPolicyRecord) : bool :=
  match statuses ← remote; statuses !! sem_project_id record with
  | Some status =>
      negb (String.eqb (ys_policy_version status) (sem_version record))
      || negb (String.eqb (ys_index_state status) (expected_state record))
  | None => true
  end.

(** A record that cannot be read is skipped, a push that fails is only logged. *)
Definition push_record (remote : option (gmap string SemanticPolicySyncStatus)) (r : R)
    (record : ProjectSemanticPolicyRecord) : R :=
  match record_to_proto record with
  | Err _ => r
  | Ok policy => if should_push remote record then (client_upsert_policy policy r).1 else r
  end.

Definition drop_remote (local_projects : gset string) (r : R) (project_id : string) : R :=
  if bool_decide (project_id ∈ local_projects) then r else (client_delete_policy project_id r).1.

Definition by_project (statuses : list SemanticPolicySyncStatus) : gmap string SemanticPolicySyncStatus :=
  foldl (λ m y, <[ys_project_id y := y]> m) ∅ statuses.

Definition reconcile_once (s : SafetyState R) : SafetyState R :=
  let records := list_semantic_policies (sf_governance s) in
  let '(r, listed) := client_list_sync_states (sf_remote s) in
  let remote_statuses := match listed with
    | Ok statuses => Some (by_project statuses)
    | Err _ => None
    end in
  let r := foldl (push_record remote_statuses) r records in
  let local_projects := list_to_set (sem_project_id <$> records) in
  let r := match remote_statuses with
    | Some remote => foldl (drop_remote local_projects) r (map_to_list remote).*1
    | None => r
    end in
  s <| sf_remote := r |>.

Definition sync_policy_record (record : ProjectSemanticPolicyRecord) (r : R) : R * SemanticPolicyMutationResult :=
  let failed e := {| mr_policy_version := sem_version record; mr_synced := false; mr_sync_error := Some e |} in
  match record_to_proto record with
  | Err e => (r, failed e)
  | Ok policy =>
      match client_upsert_policy policy r with
      | (r, Ok _) => (r, {| mr_policy_version := sem_version record; mr_synced := true; mr_sync_error := None |})
      | (r, Err e) => (r, failed e)
      end
  end.

(** The two calls are made together; neither changes what the other reads. *)
Definition get_sync_status (project_id : string) (r : R) : R * SemanticPolicySyncStatus :=
  let '(r, sync_result) := client_get_sync_status project_id r in
  let '(r, health_result) := client_health r in
  let unknown available ready backend message error :=
    {| ys_project_id := project_id; ys_policy_version := ""; ys_index_state := "degraded"; ys_updated_at := "";
       ys_stored_exemplar_count := 0; ys_available := available; ys_ready := ready; ys_backend := backend;
       ys_message := message; ys_error := Some error |} in
  (r, match sync_result, health_result with
      | Ok status, Ok health =>
          status <| ys_ready := bh_ready health |> <| ys_backend := Some (bh_backend health) |>
                 <| ys_message := Some (bh_message health) |>
      | Ok status, Err error => status <| ys_ready := false |> <| ys_error := Some error |>
      | Err sync_error, Ok health =>
          unknown true (bh_ready health) (Some (bh_backend health)) (Some (bh_message health)) sync_error
      | Err sync_error, Err health_error =>
          unknown false false None None
            ("sync status failed: " +:+ sync_error +:+ "; health failed: " +:+ health_error)
      end).

(** *** Requests *)

Context `{Http} `{SerdeJson}.

Notation Ctx := (RequestContext (H0 := gateway_types (SafetyState R))).

Definition semantic_metric (e : MetricEvent) (s : SafetyState R) : SafetyState R :=
  s <| sf_metrics := report e (sf_metrics s) |>.

Definition semantic_outcome (outcome : string) : SafetyState R → SafetyState R :=
  semantic_metric (inc "semantic_requests_total" [outcome]).

Definition audit_of_finding (f : Finding) : SemanticFindingAudit :=
  {| fa_chunk_path := fi_chunk_path f; fa_entity_id := fi_entity_id f; fa_entity_text := fi_entity_text f;
     fa_topic_id := fi_topic_id f; fa_matched_exemplar := fi_matched_exemplar f;
     fa_embedding_score := fi_embedding_score f; fa_rerank_score := fi_rerank_score f |}.

(** How the call ended: [elapsed] is the time it took. *)
Definition evaluate_within (elapsed : Duration) (request : EvaluateRequest) (r : R)
    : R * option (result string EvaluateResponse) :=
  let '(r, answer) := client_evaluate request r in
  (r, if (sc_timeout (sf_config p) <? elapsed)%Z then None else Some answer).

Definition semantic_request (now suffix : Z) (project_id version : string) (chunks : list Chunk) (body : string)
    (ctx : Ctx) : EvaluateRequest :=
  {| eq_project_id := project_id; eq_policy_version := version; eq_request_id := generate_request_id now suffix;
     eq_path := uri_path (ctx_uri ctx); eq_model := default "" (extract_model body);
     eq_streaming := extract_stream_flag body; eq_chunks := chunks; eq_top_k := sc_top_k (sf_config p) |}.

Definition semantic_on_request (now suffix : Z) (elapsed : Duration) (s : SafetyState R) (ctx : Ctx)
    : SafetyState R * Ctx * Action :=
  if from_option disable_semantic_safety false (ext_brownout (ctx_extensions ctx)) then (s, ctx, Continue)
  else
    let ctx := with_ext (λ x, x <| x_semantic_replay := true |>) ctx in
    match ctx_auth ctx ≫= resolved_project with
    | None => (semantic_outcome "skipped_no_project" s, ctx, Continue)
    | Some project_id =>
        match semantic_policy (sf_governance s) project_id with
        | None => (semantic_outcome "skipped_no_policy" s, ctx, Continue)
        | Some record =>
            if negb (sem_enabled record) then (semantic_outcome "skipped_disabled" s, ctx, Continue)
            else
              match ctx_body ctx with
              | None => (semantic_outcome "skipped_no_body" s, ctx, Continue)
              | Some body =>
                  match extract_semantic_chunks (sc_max_chunks (sf_config p))
                          (sc_max_chars_per_chunk (sf_config p)) body with
                  | None | Some [] => (semantic_outcome "skipped_no_chunks" s, ctx, Continue)
                  | Some chunks =>
                      let request := semantic_request now suffix project_id (sem_version record) chunks body ctx in
                      let '(r, result) := evaluate_within elapsed request (sf_remote s) in
                      let s := s <| sf_remote := r |> in
                      let put audit := with_ext (λ x, x <| x_semantic_audit := Some audit |>) ctx in
                      let failed latency reason :=
                        {| ss_mode := "observe_only"; ss_project_id := project_id;
                           ss_policy_version := sem_version record; ss_index_state := "degraded";
                           ss_service_latency_ms := latency; ss_degraded_reason := Some reason;
                           ss_findings := [] |} in
                      let degraded := semantic_metric (inc "semantic_degraded_total" []) in
                      match result with
                      | Some (Ok payload) =>
                          let s := semantic_outcome "evaluated" s in
                          let s := semantic_metric {| me_metric := "semantic_findings_total"; me_labels := [];
                                     me_update := IncBy (Z.of_nat (length (er_findings payload))) |} s in
                          let s := semantic_metric {| me_metric := "semantic_service_latency_ms"; me_labels := ["ok"];
                                     me_update := Observe (f64_of_Z (er_service_latency_ms payload)) |} s in
                          let s := if bool_decide (er_index_state payload = Ready) then s else degraded s in
                          (s, put {| ss_mode := "observe_only"; ss_project_id := project_id;
                                     ss_policy_version := er_policy_version payload;
                                     ss_index_state := index_state_name (er_index_state payload);
                                     ss_service_latency_ms := er_service_latency_ms payload;
                                     ss_degraded_reason :=
                                       if String.eqb (er_degraded_reason payload) "" then None
                                       else Some (er_degraded_reason payload);
                                     ss_findings := audit_of_finding <$> er_findings payload |}, Continue)
                      | Some (Err error) =>
                          (degraded (semantic_outcome "error" s), put (failed 0%Z error), Continue)
                      | None =>
                          (degraded (semantic_outcome "timeout" s),
                           put (failed (sc_timeout (sf_config p) `div` 1000000)%Z "semantic safety timeout"), Continue)
                      end
                  end
              end
        end
    end.

End plugin.

(** ** The service as a client sees it

    [status_text] is how the client prints the status of an answer. *)

Section served.
Context `{IndexPayloads} {B : Type} `{InferenceBackend B} (status_text : Status → string) (latency : nat → Z).

Definition answered {A} (call : SemanticServer B * result Status A) : SemanticServer B * result string A :=
  let '(s, r) := call in (s, match r with Ok a => Ok a | Err e => Err (status_text e) end).

Definition served : SafetyClient (SemanticServer B) := {|
  endpoint_from_shared _ := Ok ();
  metadata_value v := Ok v;
  call_evaluate s a request := answered (evaluate latency a request s);
  call_upsert s a policy :=
    let '(s, r) := answered (SemanticService.upsert_project_policy a (Some policy) s) in
    (s, match r with Ok _ => Ok () | Err e => Err e end);
  call_delete s a project_id := answered (SemanticService.delete_project_policy a project_id s);
  call_sync_status s a project_id := answered (get_project_sync_status a project_id s);
  call_sync_states s a := answered (list_project_sync_states a s);
  call_health s a := answered (server_health a s);
|}.

End served.
