(* ===== verification/SemanticSafetyProps.v ===== *)
(** * The semantic safety plugin: what is proved

    Which texts of a request are sent, that the check never stands in the way of
    a request, and that reconciliation makes the service hold the policies of the
    projects: first against the interface of the client, then for the service. *)

From S2P Require Import Prelude RecordSet RustStr Utf8 F64 Codec Toml Json Sql StateResult Http Auth Plugin GatewayContext SemanticService SemanticServiceProps GovernanceStore Governance SemanticSafety.

Local Open Scope string_scope.
Local Open Scope list_scope.
Local Open Scope rust_scope.

(** ** Texts of a request *)

(** Induction over a value with its parts. *)
Section json_induction.
Context (P : json → Prop)
  (Hnull : P JNull) (Hbool : ∀ b, P (JBool b)) (Hnum : ∀ n, P (JNumber n)) (Hstr : ∀ s, P (JString s))
  (Harr : ∀ l, Forall P l → P (JArray l))
  (Hobj : ∀ fields, Forall (λ e : string * json, P e.2) fields → P (JObject fields)).

Fixpoint json_parts_ind (v : json) : P v :=
  match v with
  | JNull => Hnull
  | JBool b => Hbool b
  | JNumber n => Hnum n
  | JString s => Hstr s
  | JArray l =>
      Harr l ((fix all (l : list json) : Forall P l :=
                 match l with
                 | [] => Forall_nil_2 _
                 | x :: l' => Forall_cons_2 _ _ _ (json_parts_ind x) (all l')
                 end) l)
  | JObject fields =>
      Hobj fields ((fix all (l : list (string * json)) : Forall (λ e : string * json, P e.2) l :=
                      match l with
                      | [] => Forall_nil_2 _
                      | (k, x) :: l' => Forall_cons_2 _ (k, x) _ (json_parts_ind x) (all l')
                      end) fields)
  end.
End json_induction.

Section texts.
Context `{SerdeJson} (max_chunks max_chars : nat).

Notation collect := (collect_chunks max_chunks max_chars).

(** Every text that counts, in the order of the request: strings of the named
    fields without the blanks around them, and what such a field holds as a
    whole, followed by the texts inside it. *)
Fixpoint all_chunks (value : json) (path : string) (field_name : option string) : list Chunk :=
  match value with
  | JString text =>
      if should_capture_field field_name && negb (String.eqb (unicode_trim text) "")
      then [chunk_at max_chars path (unicode_trim text)] else []
  | JArray values =>
      (fix each (idx : nat) values :=
         match values with
         | [] => []
         | entry :: values' =>
             all_chunks entry (path +:+ "[" +:+ pretty idx +:+ "]") field_name ++ each (S idx) values'
         end) 0%nat values
  | JObject fields =>
      (fix each fields :=
         match fields with
         | [] => []
         | (key, entry) :: fields' =>
             let next_path := path +:+ "." +:+ key in
             let whole := match entry with
               | JArray _ | JObject _ =>
                   if should_capture_field (Some key) && negb (String.eqb (json_to_string entry) "")
                   then [chunk_at max_chars next_path (json_to_string entry)] else []
               | _ => []
               end in
             whole ++ all_chunks entry next_path (Some key) ++ each fields'
         end) fields
  | _ => []
  end.

Lemma full_spec chunks : full max_chunks chunks = true ↔ (max_chunks ≤ length chunks)%nat.
Proof. unfold full. apply Nat.leb_le. Qed.

(** Stopping at the limit. *)
Lemma take_full (l k : list Chunk) : full max_chunks (take max_chunks l) = true →
  take max_chunks (l ++ k) = take max_chunks l.
Proof. rewrite full_spec, length_take. intros Hl. apply take_app_le. lia. Qed.

Lemma take_not_full (l : list Chunk) : full max_chunks (take max_chunks l) = false → take max_chunks l = l.
Proof. intros Hf. apply take_ge. apply not_true_iff_false in Hf. rewrite full_spec, length_take in Hf. lia. Qed.

Lemma collect_full v path f chunks : full max_chunks chunks = true → collect v path f chunks = chunks.
Proof. intros E. destruct v; cbn [collect_chunks]; by rewrite E. Qed.

Lemma take_push (l : list Chunk) c :
  (if Nat.ltb (length (take max_chunks l)) max_chunks then take max_chunks l ++ [c] else take max_chunks l)
  = take max_chunks (l ++ [c]).
Proof.
  destruct (Nat.ltb_spec (length (take max_chunks l)) max_chunks) as [Hl|Hl]; rewrite length_take in Hl.
  - rewrite (take_ge l) by lia. symmetry. apply take_ge. rewrite length_app. simpl. lia.
  - symmetry. apply take_app_le. lia.
Qed.

Lemma collect_spec v : ∀ path f l,
  collect v path f (take max_chunks l) = take max_chunks (l ++ all_chunks v path f).
Proof.
  induction v as [| | |text|values IH|fields IH] using json_parts_ind; intros path f l;
    (destruct (full max_chunks (take max_chunks l)) eqn:Ef;
      [by rewrite collect_full, take_full by done|]); cbn [collect_chunks all_chunks]; rewrite Ef;
    rewrite ?app_nil_r; try done.
  - destruct (should_capture_field f); simpl; [|by rewrite app_nil_r].
    destruct (String.eqb _ ""); simpl; [by rewrite app_nil_r|].
    rewrite <-take_push. apply not_true_iff_false in Ef. rewrite full_spec in Ef.
    destruct (Nat.ltb_spec (length (take max_chunks l)) max_chunks); [done|lia].
  - clear Ef. generalize 0%nat. revert l. induction IH as [|v values Hv _ IHv]; intros l idx; [by rewrite app_nil_r|].
    rewrite Hv. destruct (full max_chunks _) eqn:Ef.
    + by rewrite app_assoc, (take_full _ _ Ef).
    + by rewrite IHv, app_assoc.
  - clear Ef. revert l. induction IH as [|[key v] fields Hv _ IHv]; intros l; [by rewrite app_nil_r|]. simpl in Hv.
    match goal with |- (if full max_chunks ?c then _ else _) = take max_chunks (l ++ ?w ++ ?a ++ _) =>
      assert (c = take max_chunks (l ++ w ++ a)) as -> end.
    { destruct (should_capture_field (Some key)) eqn:Ec.
      - destruct v; cbn [app andb]; rewrite ?app_nil_r, ?Hv; try done;
          (destruct (String.eqb (json_to_string _) ""); cbn [negb andb app];
            [by rewrite Hv|rewrite take_push, Hv; by rewrite <-app_assoc]).
      - rewrite Hv. by destruct v. }
    destruct (full max_chunks (take max_chunks _)) eqn:Ef.
    + rewrite !app_assoc in *. by rewrite (take_full _ _ Ef).
    + by rewrite IHv, <-!app_assoc.
Qed.

Lemma all_chunks_short v : ∀ path f, Forall (λ c, (count_chars (ck_text c) ≤ max_chars)%nat) (all_chunks v path f).
Proof.
  induction v as [| | |text|values IH|fields IH] using json_parts_ind; intros path f; cbn [all_chunks]; try done.
  - destruct (_ && _); repeat constructor. apply take_chars_count.
  - generalize 0%nat. induction IH as [|v values Hv _ IHv]; intros idx; [done|]. by apply Forall_app_2.
  - induction IH as [|[key v] fields Hv _ IHv]; [done|]. apply Forall_app_2; [|by apply Forall_app_2].
    destruct v; try done; (destruct (_ && _); repeat constructor; apply take_chars_count).
Qed.
End texts.

(** What is sent of a request is exactly the beginning of the list of all its
    texts: the walk that stops at the limit finds, for every JSON body, the first
    [max_chunks] of the texts a walk without a limit lists, none of them longer
    than [max_chars] characters, cut between characters. *)
Theorem sent_texts_exact `{SerdeJson} max_chunks max_chars body :
  extract_semantic_chunks max_chunks max_chars body =
    (λ v, take max_chunks (all_chunks max_chars v "$" None)) <$> json_from_str body ∧
  ∀ chunks, extract_semantic_chunks max_chunks max_chars body = Some chunks →
    (length chunks ≤ max_chunks)%nat ∧ Forall (λ c, (count_chars (ck_text c) ≤ max_chars)%nat) chunks.
Proof.
  assert (extract_semantic_chunks max_chunks max_chars body =
    (λ v, take max_chunks (all_chunks max_chars v "$" None)) <$> json_from_str body) as E.
  { unfold extract_semantic_chunks. destruct (json_from_str body) as [v|]; [|done]. simpl. f_equal.
    rewrite <-(take_nil max_chunks) at 1. by rewrite collect_spec. }
  split; [done|]. intros chunks. rewrite E. destruct (json_from_str body) as [v|]; [|done]. intros [= <-].
  split; [rewrite length_take; lia|]. apply Forall_take, all_chunks_short.
Qed.

(** ** Reconciliation, against the interface *)

(** What is asked of the service: it lists what it holds, a push replaces the
    version and state of one project, a delete drops one project.  [held] is
    version and state by project; [up] when every call is answered. *)
Class SafetyClientLaws (R : Type) `{SafetyClient R} (auth : option string) := {
  held : R → gmap string (string * string);
  up : R → Prop;
  list_law r : up r → ∃ r' l, call_sync_states r auth = (r', Ok l) ∧ up r' ∧ held r' = held r ∧
    NoDup (st_project_id <$> l) ∧
    ∀ id v, held r !! id = Some v ↔
      ∃ y, y ∈ l ∧ st_project_id y = id ∧ v = (st_policy_version y, index_state_name (st_index_state y));
  upsert_law r policy : up r → ∃ r', call_upsert r auth policy = (r', Ok ()) ∧ up r' ∧
    held r' = <[sy_project_id policy := (sy_version policy, if sy_enabled policy then "ready" else "disabled")]> (held r);
  delete_law r id : up r → ∃ r', call_delete r auth id = (r', Ok ()) ∧ up r' ∧ held r' = delete id (held r);
}.

Section reconcile.
Context {R : Type} `{SafetyClient R} `{PolicyTexts} (p : SemanticSafety) (auth : option string)
  `{!SafetyClientLaws R auth}.

(** The plugin shows the token of its configuration. *)
Hypothesis shows_token :
  match sf_auth_header p with
  | None => auth = None
  | Some h => ∃ v, metadata_value h = Ok v ∧ auth = Some v
  end.

Lemma with_auth_eq {A} (call : R → option string → R * result string A) r : with_auth p call r = call r auth.
Proof using shows_token.
  clear SafetyClientLaws0.
  unfold with_auth. destruct (sf_auth_header p) as [h|]; [|by subst auth].
  destruct shows_token as (v & -> & ->). done.
Qed.

(** What a project's record asks the service to hold; nothing for one that
    cannot be read. *)
Definition asked (record : ProjectSemanticPolicyRecord) : option (string * string) :=
  match record_to_proto record with
  | Ok _ => Some (sem_version record, expected_state record)
  | Err _ => None
  end.

Lemma push_record_spec remote r record : up r →
  (∀ statuses, remote = Some statuses → ∀ y, statuses !! sem_project_id record = Some y →
     held r !! sem_project_id record = Some (ys_policy_version y, ys_index_state y)) →
  up (push_record p remote r record) ∧
  held (push_record p remote r record) = match asked record with
    | Some v => <[sem_project_id record := v]> (held r)
    | None => held r
    end.
Proof.
  intros Hup Hremote. unfold push_record, asked. destruct (record_to_proto record) as [policy|e] eqn:Ep; [|done].
  assert (sy_project_id policy = sem_project_id record ∧ sy_version policy = sem_version record ∧
    sy_enabled policy = sem_enabled record) as (Eid & Ev & Een).
  { unfold record_to_proto in Ep. destruct (entities_from_str _); [|done]. simpl in Ep.
    destruct (topics_from_str _); [|done]. injection Ep as <-. done. }
  destruct (should_push remote record) eqn:Es.
  - unfold client_upsert_policy. rewrite with_auth_eq. destruct (upsert_law r policy Hup) as (r' & -> & Hup' & Hh).
    split; [done|]. simpl. unfold expected_state. by rewrite Hh, Eid, Ev, Een.
  - split; [done|]. symmetry. apply insert_id. unfold should_push in Es.
    destruct remote as [statuses|]; [|done]. simpl in Es. destruct (statuses !! _) as [y|] eqn:Ey; [|done].
    apply orb_false_iff in Es as [E1%negb_false_iff E2%negb_false_iff].
    apply String.eqb_eq in E1, E2. rewrite (Hremote _ eq_refl _ Ey). by rewrite E1, E2.
Qed.

Lemma push_all_spec remote records r : up r → NoDup (sem_project_id <$> records) →
  (∀ statuses, remote = Some statuses → ∀ record y, record ∈ records → statuses !! sem_project_id record = Some y →
     held r !! sem_project_id record = Some (ys_policy_version y, ys_index_state y)) →
  let r' := foldl (push_record p remote) r records in
  up r' ∧ (∀ id, id ∉ (sem_project_id <$> records) → held r' !! id = held r !! id) ∧
  ∀ record, record ∈ records →
    held r' !! sem_project_id record = or_else (asked record) (held r !! sem_project_id record).
Proof.
  revert r. induction records as [|x records IH]; intros r Hup; csimpl; [intros; split_and!; set_solver|].
  intros [Hx Hnd]%NoDup_cons Hremote.
  destruct (push_record_spec remote r x Hup) as [Hup' Hh].
  { intros statuses E y Ey. by apply (Hremote statuses E x y); [left|]. }
  set (r1 := push_record p remote r x) in *.
  assert (∀ id, id ≠ sem_project_id x → held r1 !! id = held r !! id) as Hother.
  { intros id Hne. rewrite Hh. destruct (asked x); [by rewrite lookup_insert_ne|done]. }
  destruct (IH r1 Hup' Hnd) as (Hup2 & Hout & Hin).
  { intros statuses E record y Hr Ey. rewrite Hother; [by apply (Hremote statuses E); [right|]|].
    intros E2. apply Hx. rewrite <-E2. apply list_elem_of_fmap. by exists record. }
  split_and!; [done| |].
  - intros id [Hne Hid]%not_elem_of_cons. by rewrite Hout, Hother.
  - intros record [->|Hr]%elem_of_cons.
    + rewrite Hout by done. rewrite Hh. destruct (asked x); [by rewrite lookup_insert_eq|done].
    + rewrite Hin by done. rewrite Hother; [done|].
      intros E2. apply Hx. rewrite <-E2. apply list_elem_of_fmap. by exists record.
Qed.

Lemma drop_all_spec local ids r : up r →
  let r' := foldl (drop_remote p local) r ids in
  up r' ∧ (∀ id, id ∈ local → held r' !! id = held r !! id) ∧
  ∀ id, id ∉ local → held r' !! id = if decide (id ∈ ids) then None else held r !! id.
Proof.
  revert r. induction ids as [|x ids IH]; intros r Hup; simpl; [done|].
  assert (up (drop_remote p local r x) ∧
    held (drop_remote p local r x) = if bool_decide (x ∈ local) then held r else delete x (held r)) as [Hup' Hh].
  { unfold drop_remote. case_bool_decide; [done|]. unfold client_delete_policy. rewrite with_auth_eq.
    destruct (delete_law r x Hup) as (r' & -> & ? & ?). done. }
  destruct (IH _ Hup') as (Hup2 & Hin & Hout). split_and!; [done| |].
  - intros id Hid. rewrite Hin, Hh by done. case_bool_decide; [done|]. rewrite lookup_delete_ne; [done|]. congruence.
  - intros id Hid. rewrite Hout, Hh by done. destruct (decide (id = x)) as [->|Hne].
    + rewrite bool_decide_eq_false_2 by done. destruct (decide (x ∈ x :: ids)); [|set_solver].
      destruct (decide _); [done|apply lookup_delete_eq].
    + assert ((if bool_decide (x ∈ local) then held r else delete x (held r)) !! id = held r !! id) as ->
        by (case_bool_decide; [done|by rewrite lookup_delete_ne]).
      destruct (decide (id ∈ ids)), (decide (id ∈ x :: ids)); set_solver.
Qed.

Lemma statuses_lookup (l : list ProjectSyncState) id : NoDup (st_project_id <$> l) →
  ∀ y, by_project (client_status <$> l) !! id = Some y ↔
    ∃ x, x ∈ l ∧ st_project_id x = id ∧ y = client_status x.
Proof.
  intros Hnd y. assert (ys_project_id <$> (client_status <$> l) = st_project_id <$> l) as Ek.
  { rewrite <-list_fmap_compose. by apply list_fmap_ext. }
  unfold by_project. rewrite insert_rows_lookup by (by rewrite Ek). rewrite lookup_empty, list_elem_of_fmap. naive_solver.
Qed.

Lemma reconcile_spec (s : SafetyState R) : filed sem_project_id (semantic_policies (sf_governance s)) → up (sf_remote s) →
  let s' := reconcile_once p s in
  up (sf_remote s') ∧ sf_governance s' = sf_governance s ∧
  ∀ id, held (sf_remote s') !! id =
    record ← semantic_policy (sf_governance s) id;
    or_else (asked record) (held (sf_remote s) !! id).
Proof.
  intros Hfiled Hup. unfold reconcile_once, client_list_sync_states.
  destruct (list_law _ Hup) as (r & l & El & Hup1 & Hh1 & Hnd & Hl).
  erewrite ST_bind_step by (rewrite with_auth_eq; exact El). cbv beta iota zeta.
  set (remote := by_project (client_status <$> l)). set (records := list_semantic_policies (sf_governance s)).
  assert (NoDup (sem_project_id <$> records)) as Hrec by by apply rows_NoDup.
  destruct (push_all_spec (Some remote) records r Hup1 Hrec) as (Hup2 & Hout & Hin).
  { intros _ [= <-] record y _ (x & Hx & Hid & ->)%statuses_lookup; [|done].
    rewrite Hh1. apply Hl. by exists x. }
  set (r2 := foldl _ r records) in *.
  destruct (drop_all_spec (list_to_set (sem_project_id <$> records)) (map_to_list remote).*1 r2 Hup2) as (Hup3 & Hkeep & Hdrop).
  cbn [sf_remote sf_governance update_field]. split_and!; [done|done|]. intros id. unfold semantic_policy.
  destruct (semantic_policies (sf_governance s) !! id) as [record|] eqn:Er; simpl.
  - assert (record ∈ records) as Hrecord by (apply elem_of_rows; by exists id). pose proof (Hfiled _ _ Er) as Hid. simpl in Hid. subst id.
    rewrite Hkeep by (apply elem_of_list_to_set, list_elem_of_fmap; by exists record).
    by rewrite Hin, Hh1 by done.
  - assert (id ∉ (sem_project_id <$> records)) as Hno.
    { intros (record & -> & Hr)%list_elem_of_fmap. unfold records, list_semantic_policies in Hr.
      rewrite (elem_of_rows_filed _ _ _ Hfiled) in Hr. congruence. }
    rewrite Hdrop by (by rewrite elem_of_list_to_set). destruct (decide _) as [|Hid]; [done|].
    rewrite Hout, Hh1 by done. apply eq_None_not_Some. intros [v (x & Hx & Hxid & _)%Hl]. apply Hid.
    apply list_elem_of_fmap. exists (id, client_status x). split; [done|]. apply elem_of_map_to_list, statuses_lookup; [done|].
    by exists x.
Qed.
End reconcile.

(** ** The service keeps what the interface asks *)

Section served_laws.
Context `{IndexPayloads} {B : Type} `{InferenceBackend B} (status_text : Status → string) (latency : nat → Z)
  (auth : option string).
Hypothesis embeds : ∀ b texts, ∃ b' es, embed_texts b texts = (b', Ok es).
Hypothesis writes : ∀ i, ∃ t, index_to_json i = Ok t.

#[local] Instance client : SafetyClient (SemanticServer B) := served status_text latency.

Definition held_state (c : CompiledProjectIndex) : string * string :=
  (sy_version (ci_policy c), if sy_enabled (ci_policy c) then "ready" else "disabled").

Definition held_by (s : SemanticServer B) : gmap string (string * string) := held_state <$> sv_indexes s.

Record serving (s : SemanticServer B) : Prop := {
  sg_admits : admits s auth;
  sg_filed : filed (λ c, sy_project_id (ci_policy c)) (sv_indexes s);
  sg_files : Forall (λ f, f = None) (fs_faults (ix_files (sv_store s)));
}.

Lemma fs_call_up {A} (call : gmap string string → gmap string string * A) f : Forall (λ f, f = None) (fs_faults f) →
  ∃ f', fs_call call f = (f', Ok (call (contents f)).2) ∧ Forall (λ f, f = None) (fs_faults f').
Proof.
  intros Hf. unfold fs_call. destruct (fs_faults f) as [|[e|] faults]; [|by apply Forall_cons in Hf as [? _]|];
    destruct (call (contents f)) as [m a]; eexists; (split; [reflexivity|]); simpl; [constructor|by apply Forall_cons in Hf as [_ ?]].
Qed.

Lemma served_list s : serving s → ∃ l, call_sync_states s auth = (s, Ok l) ∧ NoDup (st_project_id <$> l) ∧
  ∀ id v, held_by s !! id = Some v ↔
    ∃ y, y ∈ l ∧ st_project_id y = id ∧ v = (st_policy_version y, index_state_name (st_index_state y)).
Proof.
  intros [Ha Hfiled _]. eexists. split.
  { simpl. unfold answered, list_project_sync_states. erewrite ST_bind_step by apply authorize_spec.
    rewrite decide_True by done. reflexivity. }
  set (l := sort_by _ _).
  assert (l ≡ₚ sync_state <$> rows (sv_indexes s)) as Hl by apply sort_by_perm. split.
  - rewrite Hl, <-list_fmap_compose. by apply (rows_NoDup (λ c, sy_project_id (ci_policy c))).
  - intros id v. unfold held_by. rewrite lookup_fmap. setoid_rewrite Hl. setoid_rewrite list_elem_of_fmap.
    assert (∀ c, index_state_name (st_index_state (sync_state c)) = if sy_enabled (ci_policy c) then "ready" else "disabled") as Hn
      by (intros c; simpl; by destruct (sy_enabled _)).
    split.
    + destruct (sv_indexes s !! id) as [c|] eqn:Ec; [|done]. intros [= <-]. exists (sync_state c).
      rewrite Hn. split_and!; [|by apply (Hfiled id c Ec)|done]. exists c. split; [done|]. apply elem_of_rows. by exists id.
    + intros (y & (c & -> & Hc) & Hid & ->). rewrite (elem_of_rows_filed _ _ _ Hfiled) in Hc.
      rewrite Hn. simpl in Hid. rewrite <-Hid, Hc. done.
Qed.

Lemma served_upsert s policy : serving s → ∃ s', call_upsert s auth policy = (s', Ok ()) ∧ serving s' ∧
  held_by s' = <[sy_project_id policy := (sy_version policy, if sy_enabled policy then "ready" else "disabled")]> (held_by s).
Proof.
  intros [Ha Hfiled Hfiles]. simpl. unfold answered, SemanticService.upsert_project_policy.
  erewrite ST_bind_step by apply authorize_spec. rewrite decide_True by done. cbv beta iota.
  destruct (embeds (sv_backend s) (exemplar_texts policy)) as (b & es & Ee).
  assert (or_internal (compile_policy policy None) s = (s <| sv_backend := b |>, Ok (compiled policy es))) as Ec.
  { unfold or_internal, compile_policy, mbind, ST_bind. by rewrite in_backend_eq, Ee. }
  erewrite ST_bind_step by apply Ec. cbv beta iota.
  set (i := Build_PersistedProjectIndex _ _ _). destruct (writes i) as [text Ei].
  unfold or_internal at 1, in_store, st_zoom. unfold mbind at 1, ST_bind at 1.
  unfold store_upsert. erewrite ST_bind_step by reflexivity. rewrite Ei. unfold mbind at 1, ST_bind at 1, on_files.
  set (path := path_for _ _).
  destruct (fs_call_up (λ m, (<[path := text]> m, ())) (ix_files (sv_store s)) Hfiles) as (f' & Ef & Hf').
  change (ix_files (sv_store (s <| sv_backend := b |>))) with (ix_files (sv_store s)). rewrite Ef.
  eexists. split; [reflexivity|]. split.
  - split; simpl; [done| |done]. apply map_Forall_insert_2; [done|done].
  - unfold held_by. simpl. by rewrite fmap_insert.
Qed.

Lemma served_delete s id : serving s → ∃ s', call_delete s auth id = (s', Ok ()) ∧ serving s' ∧
  held_by s' = delete id (held_by s).
Proof.
  intros [Ha Hfiled Hfiles]. simpl. unfold answered, SemanticService.delete_project_policy.
  erewrite ST_bind_step by apply authorize_spec. rewrite decide_True by done. cbv beta iota.
  unfold or_internal at 1, in_store, st_zoom. unfold mbind at 1, ST_bind at 1.
  unfold store_delete. erewrite ST_bind_step by reflexivity. cbv beta iota zeta. case_bool_decide.
  - unfold mbind at 1, ST_bind at 1, on_files. set (path := path_for _ _).
    destruct (fs_call_up (λ m, (delete path m, ())) (ix_files (sv_store s)) Hfiles) as (f' & Ef & Hf'). rewrite Ef.
    eexists. split; [reflexivity|]. split.
    + split; simpl; [done| |done]. by apply map_Forall_delete.
    + unfold held_by. simpl. by rewrite fmap_delete.
  - eexists. split; [reflexivity|]. split.
    + split; simpl; [done| |done]. by apply map_Forall_delete.
    + unfold held_by. simpl. by rewrite fmap_delete.
Qed.

#[local] Instance served_laws : SafetyClientLaws (SemanticServer B) auth.
Proof.
  refine {| held := held_by; up := serving |}.
  - intros s Hs. destruct (served_list s Hs) as (l & E & ? & ?). exists s, l. done.
  - apply served_upsert.
  - apply served_delete.
Defined.
End served_laws.

Lemma evaluate_current `{IndexPayloads} {B} `{InferenceBackend B} latency auth payload (s : SemanticServer B) index :
  admits s auth → sv_indexes s !! eq_project_id payload = Some index → sy_enabled (ci_policy index) = true →
  sy_version (ci_policy index) = eq_policy_version payload →
  ∃ s' resp, evaluate latency auth payload s = (s', Ok resp) ∧ er_policy_version resp = eq_policy_version payload ∧
    (er_index_state resp = Ready ∨ er_index_state resp = Degraded).
Proof.
  intros Ha Hi He Hv. unfold evaluate. erewrite ST_bind_step by apply authorize_spec. rewrite decide_True by done.
  cbv beta iota. erewrite ST_bind_step by reflexivity. cbv beta iota zeta. rewrite Hi, He. simpl.
  destruct (assess index payload s) as [s1 [found|e]]; [rewrite Hv, String.eqb_refl; destruct (negb _)|];
    rewrite ?Hv; eexists _, _; (split; [reflexivity|]); simpl; auto.
Qed.

(** C26: One pass of reconciliation makes the service follow the policies.  If the
    service answers and the models embed, afterwards it holds, for each project,
    the version and the state of the project's record, and nothing for a project
    without one; only where a record cannot be read it holds what it held.  Every
    request checked for an enabled project is then answered with the version of
    its record, as ready or, when the models fail, degraded: never as missing,
    stale or disabled. *)
Theorem reconciliation_converges `{IndexPayloads} {B} `{InferenceBackend B} `{PolicyTexts} status_text latency
    (p : SemanticSafety) (s : SafetyState (SemanticServer B)) :
  (∀ b texts, ∃ b' es, embed_texts b texts = (b', Ok es)) → (∀ i, ∃ t, index_to_json i = Ok t) →
  serving (sf_auth_header p) (sf_remote s) → filed sem_project_id (semantic_policies (sf_governance s)) →
  let s' := reconcile_once (H := served status_text latency) p s in
  serving (sf_auth_header p) (sf_remote s') ∧ sf_governance s' = sf_governance s ∧
  (∀ id, held_by (sf_remote s') !! id =
     record ← semantic_policy (sf_governance s) id; or_else (asked record) (held_by (sf_remote s) !! id)) ∧
  ∀ record policy request,
    semantic_policy (sf_governance s) (eq_project_id request) = Some record → record_to_proto record = Ok policy →
    sem_enabled record = true → eq_policy_version request = sem_version record →
    ∃ service resp, client_evaluate (H := served status_text latency) p request (sf_remote s') = (service, Ok resp) ∧
      er_policy_version resp = sem_version record ∧ (er_index_state resp = Ready ∨ er_index_state resp = Degraded).
Proof.
  intros Hembed Hwrite Hserve Hfiled s'.
  assert (match sf_auth_header p with
          | None => sf_auth_header p = None
          | Some h => ∃ v, metadata_value (SafetyClient := served (B := B) status_text latency) h = Ok v ∧ sf_auth_header p = Some v
          end) as Htoken by (destruct (sf_auth_header p); [by eexists|done]).
  destruct (reconcile_spec (H := served status_text latency)
    (SafetyClientLaws0 := served_laws status_text latency (sf_auth_header p) Hembed Hwrite) p _ Htoken s Hfiled Hserve)
    as (Hup & Hgov & Hheld).
  split_and!; [exact Hup|done|exact Hheld|]. intros record policy request Hr Hp He Hv.
  specialize (Hheld (eq_project_id request)). rewrite Hr in Hheld. simpl in Hheld.
  unfold asked in Hheld. rewrite Hp in Hheld. simpl in Hheld. unfold held_by in Hheld.
  rewrite lookup_fmap in Hheld. fold s' in Hheld.
  destruct (sv_indexes (sf_remote s') !! eq_project_id request) as [index|] eqn:Ei; [|done]. injection Hheld as Ev Es.
  unfold client_evaluate. erewrite with_auth_eq by exact Htoken. simpl. unfold answered.
  destruct (evaluate_current latency (sf_auth_header p) request (sf_remote s') index) as (service & resp & E & ? & ?);
    [apply Hup|done| |congruence|].
  - unfold expected_state in Es. rewrite He in Es. by destruct (sy_enabled _).
  - rewrite E. exists service, resp. split_and!; [done|congruence|done].
Qed.

(** ** Requests *)

Section requests.
Context {R : Type} `{SafetyClient R} `{Http} `{SerdeJson} (p : SemanticSafety) (now suffix : Z).

Notation Ctx := (RequestContext (H0 := gateway_types (SafetyState R))).
Implicit Types (ctx : Ctx) (s : SafetyState R).

(** The request but for the slots of the plugin. *)
Definition annotated ctx ctx' : Prop :=
  ∃ replay audit, ctx' = with_ext (λ x, x <| x_semantic_replay := replay |> <| x_semantic_audit := audit |>) ctx.

(** The service was asked, and what it was asked. *)
Definition was_asked s s' ctx ctx' : Prop :=
  ∃ project_id record body chunks audit,
    ctx_auth ctx ≫= resolved_project = Some project_id ∧
    semantic_policy (sf_governance s) project_id = Some record ∧ sem_enabled record = true ∧
    ctx_body ctx = Some body ∧ chunks ≠ [] ∧
    extract_semantic_chunks (sc_max_chunks (sf_config p)) (sc_max_chars_per_chunk (sf_config p)) body = Some chunks ∧
    sf_remote s' = (client_evaluate p
      (semantic_request p now suffix project_id (sem_version record) chunks body ctx) (sf_remote s)).1 ∧
    x_semantic_audit (ctx_ext ctx') = Some audit ∧ ss_project_id audit = project_id ∧
    ss_mode audit = "observe_only".

End requests.

#[local] Ltac semantic_skip := split; [reflexivity|split; [reflexivity|split; [assumption|left; split; reflexivity]]].

(** The check never stands in the way: whatever the service answers, or
    that it does not, the request goes on unchanged but for the audit and the
    replay handle kept with it, the policies are untouched, and the service is
    asked only about a request of a project with an enabled policy, under the id
    of the caller's project and the version of that policy. *)
Theorem semantic_check_never_blocks {R} `{SafetyClient R} `{Http} `{SerdeJson} (p : SemanticSafety) now suffix
    elapsed (s : SafetyState R) ctx :
  let '(s', ctx', action) := semantic_on_request p now suffix elapsed s ctx in
  action = Continue ∧ sf_governance s' = sf_governance s ∧
  annotated ctx ctx' ∧
  (sf_remote s' = sf_remote s ∧ x_semantic_audit (ctx_ext ctx') = x_semantic_audit (ctx_ext ctx) ∨
   was_asked p now suffix s s' ctx ctx').
Proof.
  unfold semantic_on_request.
  assert (annotated ctx ctx) as Hid.
  { exists (x_semantic_replay (ctx_ext ctx)), (x_semantic_audit (ctx_ext ctx)).
    destruct ctx as [? ? ? ? ? ? ? ? ? ? [? ? ? ? []]]. done. }
  destruct (from_option disable_semantic_safety false _); [semantic_skip|].
  set (ctx1 := with_ext (λ x, x <| x_semantic_replay := true |>) ctx).
  assert (annotated ctx ctx1) as Hid1
    by (exists true, (x_semantic_audit (ctx_ext ctx)); by destruct ctx as [? ? ? ? ? ? ? ? ? ? [? ? ? ? []]]).
  change (ctx_auth ctx1) with (ctx_auth ctx). change (ctx_body ctx1) with (ctx_body ctx).
  match goal with |- context [@mbind ?a ?b ?c ?d ?f ?x] => destruct (@mbind a b c d f x) as [project_id|] eqn:Ea end; [|semantic_skip].
  destruct (semantic_policy _ project_id) as [record|] eqn:Er; [|semantic_skip].
  destruct (sem_enabled record) eqn:Een; simpl negb; cbv iota; [|semantic_skip].
  destruct (ctx_body ctx) as [body|] eqn:Eb; [|semantic_skip].
  destruct (extract_semantic_chunks _ _ body) as [[|c chunks]|] eqn:Ec; [semantic_skip| |semantic_skip].
  unfold evaluate_within.
  assert (semantic_request p now suffix project_id (sem_version record) (c :: chunks) body ctx1 =
    semantic_request p now suffix project_id (sem_version record) (c :: chunks) body ctx) as -> by done.
  set (req := semantic_request _ _ _ _ _ _ _ ctx).
  destruct (client_evaluate p req (sf_remote s)) as [r answer] eqn:Ee.
  assert (∀ s' audit, sf_remote s' = r → sf_governance s' = sf_governance s → ss_project_id audit = project_id →
    ss_mode audit = "observe_only" →
    let ctx' := with_ext (λ x, x <| x_semantic_audit := Some audit |>) ctx1 in
    sf_governance s' = sf_governance s ∧ annotated ctx ctx' ∧
    (sf_remote s' = sf_remote s ∧ x_semantic_audit (ctx_ext ctx') = x_semantic_audit (ctx_ext ctx) ∨
     was_asked p now suffix s s' ctx ctx')) as Hasked.
  { intros s' audit Hr Hg Hp Hm. split_and!; [done|by exists true, (Some audit)|]. right.
    exists project_id, record, body, (c :: chunks), audit. split_and!; try done. by fold req; rewrite Ee. }
  destruct (sc_timeout (sf_config p) <? elapsed)%Z; [|destruct answer as [payload|error]];
    (split; [reflexivity|apply Hasked; try reflexivity; by case_bool_decide]).
Qed.

(** ** Records and messages *)

Class PolicyTextLaws `{PolicyTexts} : Prop := {
  entities_round_trip l t : entities_to_string l = Ok t → entities_from_str t = Ok l;
  topics_round_trip l t : Forall (λ y, is_number (to_rerank_threshold y) = true) l →
    topics_to_string l = Ok t → topics_from_str t = Ok l;
}.

(** A policy that is stored and read again is the same policy, but for the
    version and the date it gets when they are blank. *)
Theorem policy_survives_storage `{PolicyTexts, !PolicyTextLaws} now counter policy counter' record :
  Forall (λ y, is_number (to_rerank_threshold y) = true) (sy_topics policy) →
  proto_to_record now counter policy = (counter', Ok record) →
  record_to_proto record = Ok
    {| sy_project_id := sy_project_id policy;
       sy_version := if String.eqb (unicode_trim (sy_version policy)) ""
                     then generate_semantic_policy_version now counter else sy_version policy;
       sy_enabled := sy_enabled policy; sy_entities := sy_entities policy; sy_topics := sy_topics policy;
       sy_updated_at := if String.eqb (unicode_trim (sy_updated_at policy)) ""
                        then current_timestamp_string now else sy_updated_at policy |}.
Proof.
  intros Hnum. unfold proto_to_record, record_to_proto.
  destruct (if String.eqb _ "" then _ else _) as [c version] eqn:Ev. intros [= _ E].
  destruct (entities_to_string _) as [et|] eqn:Ee; [|done]. destruct (topics_to_string _) as [tt|] eqn:Et; [|done].
  injection E as <-. simpl. rewrite (entities_round_trip _ _ Ee). simpl. rewrite (topics_round_trip _ _ Hnum Et). simpl.
  do 2 f_equal. destruct (String.eqb (unicode_trim (sy_version policy)) ""); by injection Ev.
Qed.

(** ** Examples *)

Module SafetyDemo.
Import ServiceDemo.

#[export] Instance texts : PolicyTexts := {|
  entities_from_str := of_text;
  entities_to_string l := Ok (to_text l);
  topics_from_str := of_text;
  topics_to_string l := Ok (to_text l);
|}.

#[export] Instance texts_laws : PolicyTextLaws.
Proof. split; [intros l t [= <-]|intros l t _ [= <-]]; apply of_to_text. Qed.

#[export] Instance demo_client : SafetyClient (SemanticServer ()) := served (λ _, "refused") (λ _, 0%Z).

Definition plugin : SemanticSafety :=
  {| sf_config := {| sc_endpoint := "http://safety"; sc_auth_token := Some "secret"; sc_timeout := 750000000%Z;
       sc_max_chunks := 16; sc_max_chars_per_chunk := 1024; sc_top_k := 8%Z; sc_reconcile_interval := 300000000000%Z |};
     sf_auth_header := Some "Bearer secret" |}.

(** The record of a policy, and the projects that have one. *)
Definition record_of (p : ProjectSemanticPolicy) : ProjectSemanticPolicyRecord :=
  {| sem_project_id := sy_project_id p; sem_version := sy_version p; sem_enabled := sy_enabled p;
     sem_entities_json := Some (to_text (sy_entities p)); sem_topics_json := Some (to_text (sy_topics p));
     sem_updated_at := sy_updated_at p |}.

Definition with_policies (l : list ProjectSemanticPolicy) (service : SemanticServer ()) : SafetyState (SemanticServer ()) :=
  {| sf_remote := service;
     sf_governance := governance_new 0 <| semantic_policies := list_to_map ((λ p, (sy_project_id p, record_of p)) <$> l) |>;
     sf_metrics := None |}.

(** The service holds "p" and "q", the gateway "q" in a newer version and "r". *)
Definition newer (p : ProjectSemanticPolicy) : ProjectSemanticPolicy :=
  {| sy_project_id := sy_project_id p; sy_version := "2"; sy_enabled := sy_enabled p;
     sy_entities := sy_entities p; sy_topics := sy_topics p; sy_updated_at := sy_updated_at p |}.

Definition behind : SafetyState (SemanticServer ()) :=
  with_policies [newer (policy "q" one); policy "r" one]
    (after [CallUpsert auth (Some (policy "p" one)); CallUpsert auth (Some (policy "q" one))]).

Definition versions (s : SafetyState (SemanticServer ())) : list (string * (string * string)) :=
  map_to_list (held_by (sf_remote s)).

Example pass_catches_up :
  (λ id, held_by (sf_remote (reconcile_once plugin behind)) !! id) <$> ["p"; "q"; "r"]
  = [None; Some ("2", "ready"); Some ("1", "ready")].
Proof. by vm_compute. Qed.

Lemma reconciliation_converges_witness :
  held_by (sf_remote (reconcile_once plugin behind)) !! "q" = Some ("2", "ready").
Proof.
  destruct (reconciliation_converges (λ _, "refused") (λ _, 0%Z) plugin behind) as (_ & _ & Hheld & _).
  - intros b texts. eexists _, _. reflexivity.
  - intros i. eexists. reflexivity.
  - split; [by vm_compute| |by vm_compute; constructor].
    unfold filed. apply map_Forall_to_list. vm_compute. by repeat constructor.
  - unfold filed. apply map_Forall_to_list. vm_compute. by repeat constructor.
  - specialize (Hheld "q"). etransitivity; [exact Hheld|]. vm_compute. reflexivity.
Defined.

(** A changed policy under an old version is not sent: if the push at the time of
    the change fails, the service goes on with the old policy, and every later
    pass takes it for the new one. *)
Theorem changed_policy_is_not_pushed :
  let service := after [CallUpsert auth (Some (policy "p" one))] in
  let stricter := policy "p" f_zero in
  let s := with_policies [stricter] service in
  record_to_proto (record_of stricter) = Ok stricter ∧
  sv_indexes (sf_remote (reconcile_once plugin s)) !! "p" = sv_indexes service !! "p" ∧
  (ci_policy <$> sv_indexes service !! "p") = Some (policy "p" one) ∧
  ys_policy_version (get_sync_status plugin "p" (sf_remote (reconcile_once plugin s))).2 = "1" ∧
  ys_index_state (get_sync_status plugin "p" (sf_remote (reconcile_once plugin s))).2 = "ready".
Proof. by vm_compute. Qed.

Lemma policy_survives_storage_witness :
  record_to_proto (record_of (policy "p" one)) = Ok (policy "p" one).
Proof.
  apply (policy_survives_storage 0 0 (policy "p" one) 0 (record_of (policy "p" one))); [by repeat constructor|].
  vm_compute. reflexivity.
Defined.

End SafetyDemo.
