(* ===== verification/PluginOrder.v ===== *)
(** * The order of the gateway's plugins

    Model of the part of [plugin-llm-gateway/src/lib.rs] that decides which plugins
    run and in which order: the preview features of the configurations, the checks
    on their order, and the chain that is built. *)

From S2P Require Import Prelude RecordSet RustStr F64 Toml ConfigSurfaces ConfigTypes Config.

Local Open Scope string_scope.
Local Open Scope list_scope.
Local Open Scope rust_scope.

Section order.
Context `{Toml}.

(** ** Preview features *)

Definition preview_feature (plugin : PluginConfig) (e : nat * tvalue) : result string PreviewFeature :=
  let field := "plugins." +:+ plugin_name plugin +:+ ".config.preview_features[" +:+ pretty e.1 +:+ "]" in
  match as_str e.2 with
  | None => Err (field +:+ " must be a string")
  | Some raw => ok_or (enum_parse raw) (field +:+ " has unknown feature '" +:+ raw +:+ "'")
  end.

Definition plugin_features (plugin : PluginConfig) : result string (list PreviewFeature) :=
  match toml_get (plugin_config plugin) "preview_features" with
  | None => Ok []
  | Some array =>
      match as_array array with
      | None => Err ("plugins." +:+ plugin_name plugin +:+ ".config.preview_features must be an array of strings")
      | Some values => collect_results (preview_feature plugin <$> enumerate values)
      end
  end.

Definition collect_preview_features (configs : list PluginConfig) : result string PreviewFeatureSet :=
  result_map (λ l, feature_set_new (concat l)) (collect_results (plugin_features <$> configs)).

(** ** Positions *)

(** [configs.iter().position(p)] *)
Fixpoint position {A} (p : A → bool) (l : list A) : option nat :=
  match l with
  | [] => None
  | x :: l' => if p x then Some 0 else S <$> position p l'
  end.

Definition position_of (names : list string) (configs : list PluginConfig) : option nat :=
  position (λ pc, plugin_enabled pc && bool_decide (plugin_name pc ∈ names)) configs.

(** [if let (Some(a), Some(b)) = (first, second) { if a > b { return Err(message) } }] *)
Definition must_precede (first second : option nat) (message : string) : result string () :=
  match first, second with
  | Some a, Some b => if Nat.ltb b a then Err message else Ok ()
  | _, _ => Ok ()
  end.

Fixpoint check_before (first : option nat) (others : list (string * option nat)) : result string () :=
  match others with
  | [] => Ok ()
  | (name, second) :: others' =>
      let? _ := must_precede first second ("prompt_registry must be configured before " +:+ name +:+
        " so resolved prompt text is included in downstream caching, safety, and tool processing") in
      check_before first others'
  end.

Definition check_plugin_order (configs : list PluginConfig) : result string () :=
  let at_ name := position_of [name] configs in
  let rate_limiter := position_of ["rate_limiter"; "token_rate_limiter"] configs in
  let? _ := must_precede (at_ "content_filter") (at_ "semantic_safety")
    "semantic_safety must be configured after content_filter so local redaction runs before remote export" in
  let? _ := check_before (at_ "prompt_registry")
    [("semantic_cache", at_ "semantic_cache"); ("prompt_cache", at_ "prompt_cache");
     ("content_filter", at_ "content_filter"); ("semantic_safety", at_ "semantic_safety");
     ("tool_runtime", at_ "tool_runtime")] in
  let? _ := must_precede (at_ "content_filter") (at_ "semantic_cache")
    "semantic_cache must be configured after content_filter so local redaction runs before cache matching" in
  let? _ := must_precede (at_ "semantic_safety") (at_ "semantic_cache")
    "semantic_cache must be configured after semantic_safety so request safety checks still run on cache hits" in
  let? _ := must_precede (at_ "semantic_cache") (at_ "prompt_cache")
    "semantic_cache must be configured before prompt_cache so gateway cache checks happen before provider-specific cache controls" in
  let? _ := must_precede rate_limiter (at_ "semantic_cache")
    "rate_limiter must be configured before semantic_cache so per-key admission still runs on cache hits" in
  must_precede (at_ "cost_tracker") (at_ "semantic_cache")
    "cost_tracker must be configured before semantic_cache so usage/cost accounting still runs on cache hits".

(** ** The chain *)

Definition plugin_kind (name : string) : option string :=
  if bool_decide (name ∈ ["prompt_registry"; "content_filter"; "prompt_cache"; "semantic_cache"; "semantic_safety";
                          "tool_runtime"; "cost_tracker"; "rate_limiter"; "provider_failover"])
  then Some name
  else if String.eqb name "token_rate_limiter" then Some "rate_limiter" else None.

(** Virtual keys come first, when there are providers; a name that is not known is
    skipped with a warning. *)
Definition plugin_order (providers : nat) (configs : list PluginConfig) : list string :=
  (if Nat.eqb providers 0 then [] else ["virtual_keys"]) ++
  omap (λ pc, if plugin_enabled pc then plugin_kind (plugin_name pc) else None) configs.

(** ** What the checks give *)

(** In every list [a] is in front of [b]. *)
Definition precedes (a b : string) (l : list string) : Prop :=
  ∀ i j, l !! i = Some a → l !! j = Some b → (i < j)%nat.

(** The pairs the checks are about. *)
Definition required : list (string * string) :=
  [("content_filter", "semantic_safety"); ("prompt_registry", "semantic_cache"); ("prompt_registry", "prompt_cache");
   ("prompt_registry", "content_filter"); ("prompt_registry", "semantic_safety"); ("prompt_registry", "tool_runtime");
   ("content_filter", "semantic_cache"); ("semantic_safety", "semantic_cache"); ("semantic_cache", "prompt_cache");
   ("rate_limiter", "semantic_cache"); ("cost_tracker", "semantic_cache")].

End order.

(** ** Positions in a list *)

Lemma position_Some {A} (p : A → bool) l i :
  position p l = Some i ↔ (∃ x, l !! i = Some x ∧ p x = true) ∧ ∀ j x, (j < i)%nat → l !! j = Some x → p x = false.
Proof.
  revert i. induction l as [|y l IH]; intros i; cbn [position]; [split; [done|by intros [(x & [=] & _) _]]|].
  destruct (p y) eqn:Ey.
  - split.
    + intros [= <-]. split; [by exists y|]. lia.
    + intros [_ Hj]. destruct i as [|i]; [done|]. by rewrite (Hj 0 y ltac:(lia) eq_refl) in Ey.
  - destruct i as [|i].
    + split; [by intros (? & _ & [=])%fmap_Some|]. intros [(x & [= ->] & Hp) _]. congruence.
    + rewrite fmap_Some. split.
      * intros (i' & Hi & [= ->]). apply IH in Hi as [Hx Hj]. split; [done|].
        intros [|j] x Hlt; cbn; [by intros [= ->]|]. apply Hj. lia.
      * intros [Hx Hj]. exists i. split; [|done]. apply IH. split; [done|]. intros j x Hlt Hl. apply (Hj (S j) x); [lia|done].
Qed.

Lemma position_None {A} (p : A → bool) l : position p l = None → ∀ i x, l !! i = Some x → p x = false.
Proof.
  induction l as [|y l IH]; cbn [position]; [done|]. destruct (p y) eqn:Ey; [done|].
  intros E%fmap_None [|i] x; cbn; [by intros [= ->]|by apply IH].
Qed.

Section kinds.
Context {A : Type} (f : A → option string).

(** The element at place [i] is of kind [a]. *)
Definition kind_at (l : list A) (a : string) (i : nat) : Prop := ∃ x, l !! i = Some x ∧ f x = Some a.

Definition kinds_precede (l : list A) (a b : string) : Prop := ∀ i j, kind_at l a i → kind_at l b j → (i < j)%nat.

Lemma kind_at_cons x l a i :
  kind_at (x :: l) a i ↔ i = 0 ∧ f x = Some a ∨ ∃ i', i = S i' ∧ kind_at l a i'.
Proof.
  unfold kind_at. destruct i as [|i]; cbn; split.
  - intros (y & [= ->] & Hy). by left.
  - intros [[_ Hx]|(i' & [=] & _)]. by exists x.
  - intros Hk. right. by exists i.
  - intros [[[=] _]|(i' & [= <-] & Hk)]. done.
Qed.

Lemma kind_at_elem l a i : kind_at l a i → a ∈ omap f l.
Proof. intros (x & Hx%list_elem_of_lookup_2 & Hf). apply list_elem_of_omap. by exists x. Qed.

Lemma kind_at_unique l a i j : NoDup (omap f l) → kind_at l a i → kind_at l a j → i = j.
Proof.
  revert i j. induction l as [|x l IH]; intros i j Hnd; [by intros (? & [=] & _)|]. rewrite !kind_at_cons.
  cbn in Hnd. intros [[-> Hi]|(i' & -> & Hi)] [[-> Hj]|(j' & -> & Hj)]; [done| | |f_equal; apply IH; try done].
  - rewrite Hi in Hnd. apply NoDup_cons in Hnd as [Hn _]. by destruct Hn; eapply kind_at_elem.
  - rewrite Hj in Hnd. apply NoDup_cons in Hnd as [Hn _]. by destruct Hn; eapply kind_at_elem.
  - destruct (f x); [by apply NoDup_cons in Hnd as []|done].
Qed.

Lemma omap_kind l a : a ∈ omap f l → ∃ i, kind_at l a i.
Proof.
  intros (x & Hx & Hf)%list_elem_of_omap. apply list_elem_of_lookup_1 in Hx as [i Hi]. by exists i, x.
Qed.

Lemma precedes_cons c a b l : precedes a b (c :: l) ↔ (c = b → a ∉ c :: l) ∧ precedes a b l.
Proof.
  unfold precedes. split.
  - intros H. split.
    + intros -> [i Hi]%list_elem_of_lookup_1. specialize (H i 0 Hi eq_refl). lia.
    + intros i j Hi Hj. specialize (H (S i) (S j) Hi Hj). lia.
  - intros [Hc H] [|i] [|j]; cbn; intros Hi Hj.
    + simplify_eq. destruct (Hc eq_refl). by left.
    + lia.
    + simplify_eq. destruct (Hc eq_refl). right. by eapply list_elem_of_lookup_2.
    + specialize (H i j Hi Hj). lia.
Qed.

Lemma omap_precedes l a b : a ≠ b → NoDup (omap f l) → kinds_precede l a b ↔ precedes a b (omap f l).
Proof.
  intros Hab. induction l as [|x l IH]; intros Hnd; [split; [by intros _ i j|by intros _ i j (? & [=] & _)]|].
  assert (kinds_precede (x :: l) a b ↔ (f x = Some b → a ∉ omap f l) ∧ kinds_precede l a b) as ->.
  { unfold kinds_precede. setoid_rewrite kind_at_cons. split.
    - intros H. split.
      + intros Hx (i & Hi)%omap_kind. specialize (H (S i) 0 ltac:(by right; exists i) ltac:(by left)). lia.
      + intros i j Hi Hj. specialize (H (S i) (S j) ltac:(by right; exists i) ltac:(by right; exists j)). lia.
    - intros [Hb H] i j [[-> Hi]|(i' & -> & Hi)] [[-> Hj]|(j' & -> & Hj)]; [congruence|lia| |].
      + destruct (Hb Hj). by eapply kind_at_elem.
      + specialize (H i' j' Hi Hj). lia. }
  cbn in *. destruct (f x) as [c|] eqn:Ex.
  - apply NoDup_cons in Hnd as [_ Hnd]. rewrite (IH Hnd), precedes_cons, elem_of_cons.
    split; (intros [H1 H2]; split; [|done]); [intros ->; intros [?|?]; [congruence|by apply H1]|intros [= ->] ?; by apply H1; [|right]].
  - rewrite (IH Hnd). split; [by intros []|by intros ?; split].
Qed.

Lemma must_precede_spec (p q : A → bool) l a b message :
  (∀ x, p x = true ↔ f x = Some a) → (∀ x, q x = true ↔ f x = Some b) → a ≠ b → NoDup (omap f l) →
  must_precede (position p l) (position q l) message = Ok () ↔ kinds_precede l a b.
Proof.
  intros Hp Hq Hab Hnd. unfold must_precede.
  assert (∀ r c i, (∀ x, r x = true ↔ f x = Some c) → position r l = Some i → kind_at l c i) as Hat.
  { intros r c i Hr [(x & Hx & Hrx) _]%position_Some. exists x. by rewrite <-Hr. }
  assert (∀ r c, (∀ x, r x = true ↔ f x = Some c) → position r l = None → ∀ i, ¬ kind_at l c i) as Hno.
  { intros r c Hr Hpos i (x & Hx & Hfx). apply Hr in Hfx. by rewrite (position_None _ _ Hpos i x Hx) in Hfx. }
  destruct (position p l) as [i|] eqn:Ei; [destruct (position q l) as [j|] eqn:Ej|].
  - pose proof (Hat p a i Hp Ei) as Hi. pose proof (Hat q b j Hq Ej) as Hj. destruct (Nat.ltb_spec j i).
    + split; [done|]. intros H'. specialize (H' i j Hi Hj). lia.
    + split; [|done]. intros _ i' j' Hi' Hj'. rewrite (kind_at_unique l a i' i), (kind_at_unique l b j' j) by done.
      destruct (decide (i = j)) as [->|]; [|lia]. destruct Hi as (x & Hx & Hfx), Hj as (y & Hy & Hfy). congruence.
  - split; [|done]. intros _ i' j' _ Hj'. by destruct (Hno q b Hq Ej j').
  - split; [|done]. intros _ i' j' Hi'. by destruct (Hno p a Hp Ei i').
Qed.

End kinds.

Section checks.
Context `{Toml}.

Definition enabled_kind (pc : PluginConfig) : option string :=
  if plugin_enabled pc then plugin_kind (plugin_name pc) else None.

(** The names of a kind. *)
Definition names_of (kind : string) : list string :=
  if String.eqb kind "rate_limiter" then ["rate_limiter"; "token_rate_limiter"] else [kind].

Definition checked_kinds : list string :=
  ["prompt_registry"; "content_filter"; "prompt_cache"; "semantic_cache"; "semantic_safety"; "tool_runtime";
   "cost_tracker"; "rate_limiter"].

Lemma name_of_kind a name : a ∈ checked_kinds → name ∈ names_of a ↔ plugin_kind name = Some a.
Proof.
  intros Ha. unfold plugin_kind. split.
  - unfold checked_kinds in Ha. rewrite !elem_of_cons, elem_of_nil in Ha. unfold names_of.
    destruct_or! Ha; subst; cbn; rewrite ?elem_of_cons, elem_of_nil; intros; destruct_or!; subst; done.
  - unfold checked_kinds in Ha. rewrite !elem_of_cons, elem_of_nil in Ha. unfold names_of.
    case_bool_decide as Hin.
    + intros [= ->]. destruct_or! Ha; subst; cbn; set_solver.
    + destruct (String.eqb_spec name "token_rate_limiter") as [->|_]; [|done]. intros [= <-]. set_solver.
Qed.

Lemma position_of_kind a (pc : PluginConfig) : a ∈ checked_kinds →
  plugin_enabled pc && bool_decide (plugin_name pc ∈ names_of a) = true ↔ enabled_kind pc = Some a.
Proof.
  intros Ha. unfold enabled_kind. rewrite andb_true_iff, bool_decide_eq_true, name_of_kind by done.
  destruct (plugin_enabled pc); naive_solver.
Qed.

Lemma result_seq_ok {E B} (m : result E ()) (k : () → result E B) b :
  result_bind m k = Ok b ↔ m = Ok () ∧ k () = Ok b.
Proof. destruct m as [[]|]; naive_solver. Qed.

Lemma order_prefix n configs a b :
  a ≠ "virtual_keys" → b ≠ "virtual_keys" → precedes a b (plugin_order n configs) ↔ precedes a b (omap enabled_kind configs).
Proof.
  intros Ha Hb. unfold plugin_order. fold enabled_kind. destruct (Nat.eqb n 0); [done|]. cbn [app]. rewrite precedes_cons. naive_solver.
Qed.

Lemma required_kinds a b : (a, b) ∈ required →
  a ∈ checked_kinds ∧ b ∈ checked_kinds ∧ a ≠ b ∧ a ≠ "virtual_keys" ∧ b ≠ "virtual_keys".
Proof.
  assert (Forall (λ p : string * string, p.1 ∈ checked_kinds ∧ p.2 ∈ checked_kinds ∧ p.1 ≠ p.2 ∧
    p.1 ≠ "virtual_keys" ∧ p.2 ≠ "virtual_keys") required) as Hall by (apply (bool_decide_unpack _); by vm_compute).
  intros Hin. rewrite Forall_forall in Hall. apply (Hall _ Hin).
Qed.

(** The order of plugins is checked exactly.  When no plugin is configured twice, a
    configuration passes the checks if and only if, in the chain that is built,
    resolved prompts are filtered, cached and given to tools, redaction comes
    before what leaves the gateway and before the cache, and limits, budgets and
    safety come before answers from the cache. *)
Theorem plugin_order_checked_exactly n configs :
  NoDup (omap enabled_kind configs) →
  check_plugin_order configs = Ok () ↔ ∀ a b, (a, b) ∈ required → precedes a b (plugin_order n configs).
Proof.
  intros Hnd.
  assert (∀ a b message, (a, b) ∈ required →
    must_precede (position_of (names_of a) configs) (position_of (names_of b) configs) message = Ok () ↔
    precedes a b (plugin_order n configs)) as Hpair.
  { intros a b message (Ha & Hb & Hab & Hka & Hkb)%required_kinds. rewrite order_prefix by done.
    rewrite <-omap_precedes by done. apply must_precede_spec; [intros x; by apply position_of_kind..|done|done]. }
  unfold check_plugin_order. cbn [check_before]. rewrite !result_seq_ok.
  split.
  - intros (H1 & (H2 & H3 & H4 & H5 & H6 & _) & H7 & H8 & H9 & H10 & H11) a b Hin. pose proof Hin as Hreq.
    unfold required in Hin. rewrite !elem_of_cons, elem_of_nil in Hin.
    destruct_or! Hin; simplify_eq; eapply (Hpair _ _ _ Hreq); eassumption.
  - intros Hall. assert (∀ a b message, (a, b) ∈ required →
      must_precede (position_of (names_of a) configs) (position_of (names_of b) configs) message = Ok ()) as Hok.
    { intros a b message Hin. apply Hpair; [done|]. by apply Hall. }
    split_and!; [apply (Hok "content_filter" "semantic_safety")|apply (Hok "prompt_registry" "semantic_cache")|
      apply (Hok "prompt_registry" "prompt_cache")|apply (Hok "prompt_registry" "content_filter")|
      apply (Hok "prompt_registry" "semantic_safety")|apply (Hok "prompt_registry" "tool_runtime")|done|
      apply (Hok "content_filter" "semantic_cache")|apply (Hok "semantic_safety" "semantic_cache")|
      apply (Hok "semantic_cache" "prompt_cache")|apply (Hok "rate_limiter" "semantic_cache")|
      apply (Hok "cost_tracker" "semantic_cache")];
      apply (bool_decide_unpack _); by vm_compute.
Qed.

(** Only the first plugin of a name is looked at. *)
Theorem second_filter_is_not_checked (config : tvalue) :
  let pc name := {| plugin_name := name; plugin_enabled := true; plugin_config := config |} in
  let configs := [pc "content_filter"; pc "semantic_safety"; pc "content_filter"] in
  check_plugin_order configs = Ok () ∧ plugin_order 1 configs = ["virtual_keys"; "content_filter"; "semantic_safety"; "content_filter"].
Proof. by split. Qed.

End checks.

(** ** At a concrete configuration *)

Module OrderDemo.

Definition pc (name : string) : @PluginConfig toml_value_Toml := {| plugin_name := name; plugin_enabled := true; plugin_config := TTable [] |}.

Lemma plugin_order_checked_exactly_witness :
  precedes "content_filter" "semantic_safety" (plugin_order 1 [pc "token_rate_limiter"; pc "content_filter"; pc "semantic_safety"; pc "semantic_cache"]) ∧
  check_plugin_order [pc "semantic_safety"; pc "content_filter"] ≠ Ok ().
Proof.
  split.
  - apply (plugin_order_checked_exactly 1); [by apply (bool_decide_unpack _); vm_compute|reflexivity|].
    apply (bool_decide_unpack _). by vm_compute.
  - intros H. assert (NoDup (omap enabled_kind [pc "semantic_safety"; pc "content_filter"])) as Hnd
      by (by apply (bool_decide_unpack _); vm_compute).
    pose proof (proj1 (plugin_order_checked_exactly 0 _ Hnd) H "content_filter" "semantic_safety"
      ltac:(by apply (bool_decide_unpack _); vm_compute) 1 0 eq_refl eq_refl). lia.
Defined.

End OrderDemo.
