(* ===== verification/ContentFilterProps.v ===== *)
(** * The content filter: what is proved

    The decision follows the strongest rule that matched; a redaction changes
    texts and nothing else, and where it is done in place; no rule set loses a
    built-in detector; and the catalog shown to operators is what is enforced. *)

From S2P Require Import Prelude RecordSet RustStr Utf8 F64 Toml Regex Json Http ProxyProtocol Auth Plugin GatewayContext StreamUsage CostTracker GovernanceStore Governance ContentFilter.

Local Open Scope string_scope.
Local Open Scope list_scope.
Local Open Scope rust_scope.

(** ** Actions *)

Lemma action_as_str_inj a b : action_as_str a = action_as_str b → a = b.
Proof. by destruct a, b. Qed.

Lemma action_rank_inj a b : action_rank a = action_rank b → a = b.
Proof. by destruct a, b. Qed.

Lemma action_max_rank a b : action_rank (action_max a b) = Nat.max (action_rank a) (action_rank b).
Proof. by destruct a, b. Qed.

Lemma action_max_cases a b : action_max a b = a ∨ action_max a b = b.
Proof. destruct a, b; auto. Qed.

Lemma action_max_allow a : action_max Allow a = a.
Proof. by destruct a. Qed.

(** The action of a list of matches is the strongest of theirs. *)
Record strongest (a : EnforcementAction) (ms : list SafetyMatch) : Prop := {
  st_bound : ∀ m, m ∈ ms → ∃ b, sm_action m = action_as_str b ∧ b ≠ Allow ∧ (action_rank b ≤ action_rank a)%nat;
  st_reached : a = Allow ∨ ∃ m, m ∈ ms ∧ sm_action m = action_as_str a;
}.

Lemma strongest_nil : strongest Allow [].
Proof. split; [by intros m ?%elem_of_nil|by left]. Qed.

Lemma strongest_app a b l k : strongest a l → strongest b k → strongest (action_max a b) (l ++ k).
Proof.
  intros [B1 R1] [B2 R2]. split.
  - intros m [(c & E & N & L)%B1|(c & E & N & L)%B2]%elem_of_app; exists c; rewrite action_max_rank; (split_and!; [done|done|lia]).
  - destruct (action_max_cases a b) as [->| ->]; [destruct R1 as [|(m & Hm & E)]|destruct R2 as [|(m & Hm & E)]]; auto;
      right; exists m; (split; [|done]); apply elem_of_app; auto.
Qed.

Lemma strongest_one {H : RegexEngine} (rule : CompiledRule) path a : a ≠ Allow → strongest a [match_record rule path a].
Proof.
  intros Ha. split; [|right; eexists; split; [by left|done]]. intros m ->%list_elem_of_singleton. by exists a.
Qed.

Lemma strongest_none a : strongest a [] → a = Allow.
Proof. intros [_ [|(m & ?%elem_of_nil & _)]]; done. Qed.

(** Some match has the action exactly when it is the strongest or the weaker. *)
Lemma strongest_refuse a ms : strongest a ms → a = Refuse ↔ ∃ m, m ∈ ms ∧ sm_action m = action_as_str Refuse.
Proof.
  intros [B R]. split.
  - intros ->. by destruct R.
  - intros (m & Hm & E). destruct (B m Hm) as (b & E' & _ & L). rewrite E in E'. apply action_as_str_inj in E' as <-.
    destruct a; simpl in L; lia || done.
Qed.

#[local] Hint Resolve strongest_nil strongest_app strongest_one : trp.

(** ** The search *)

Section search.
Context `{RegexEngine} `{SerdeJson} {V : Type} `{VerifierClient V}.

Lemma scrub_text_from_strongest config d path rules output ms a v : strongest a ms →
  let r := (scrub_text_from config d path rules output ms a v).2 in strongest r.2 r.1.2.
Proof.
  revert output ms a v. induction rules as [|rule rules IH]; intros output ms a v Ha; [done|]. cbn [scrub_text_from].
  destruct (negb (rule_in_scope rule path) || bool_decide (default d (cr_action rule) = Allow)) eqn:E; [by apply IH|].
  apply orb_false_iff in E as [_ E%bool_decide_eq_false].
  destruct (apply_to_text config rule (default d (cr_action rule)) output v) as [[v' output'] []]; [|by apply IH].
  apply IH. by apply strongest_app, strongest_one.
Qed.

Lemma scrub_text_strongest config rules d path text v :
  let r := (scrub_text config rules d path text v).2 in strongest r.2 r.1.2.
Proof. apply scrub_text_from_strongest, strongest_nil. Qed.

(** Induction over values. *)
Lemma json_rect' (P : json → Prop) :
  P JNull → (∀ b, P (JBool b)) → (∀ n, P (JNumber n)) → (∀ s, P (JString s)) →
  (∀ l, Forall P l → P (JArray l)) → (∀ l, Forall (λ f, P f.2) l → P (JObject l)) → ∀ v, P v.
Proof.
  clear. intros H1 H2 H3 H4 H5 H6. fix IH 1. intros [| | | |l|l]; [done|by apply H2|by apply H3|by apply H4|..].
  - apply H5. induction l as [|x l IHl]; constructor; [apply IH|exact IHl].
  - apply H6. induction l as [|[k x] l IHl]; constructor; [apply IH|exact IHl].
Qed.

(** What a redaction may change of a value: strings below a text field. *)
Inductive redaction (may : string → string → Prop) : bool → json → json → Prop :=
| red_keep active v : redaction may active v v
| red_text t t' : may t t' → redaction may true (JString t) (JString t')
| red_array active l l' : Forall2 (redaction may active) l l' → redaction may active (JArray l) (JArray l')
| red_object active l l' :
    Forall2 (λ f f', f.1 = f'.1 ∧ redaction may (active || is_sensitive_text_field f.1) f.2 f'.2) l l' →
    redaction may active (JObject l) (JObject l').

Section values.
Variables (config : RemoteVerifierConfig) (rules : list CompiledRule) (d : EnforcementAction).

Definition good (s : ScrubState (V := V)) : Prop := strongest (sc_action s) (sc_matches s).

(** A text as some search of it, at some place and with some answers of the
    services, leaves it. *)
Definition scrubbed_text (t t' : string) : Prop := ∃ path v, (scrub_text config rules d path t v).2.1.1 = t'.

Notation scrub := (scrub_json_value config rules d).

(** What one search of a value does. *)
Definition search_ok (active : bool) (value : json) (s : ScrubState) (value' : json) (s' : ScrubState) : Prop :=
  redaction scrubbed_text active value value' ∧ (good s → good s').

Lemma scrub_string_ok path text s : search_ok true (JString text) s (scrub_string config rules d path text s).1
  (scrub_string config rules d path text s).2.
Proof.
  unfold scrub_string. pose proof (scrub_text_strongest config rules d path text (sc_verifier s)) as Hs.
  destruct (scrub_text config rules d path text (sc_verifier s)) as [v [[t ms] a]] eqn:E. cbn in *. split.
  - case_match; [|constructor]. constructor. exists path, (sc_verifier s). by rewrite E.
  - intros Hg. by apply strongest_app.
Qed.

Lemma scrub_ok value : ∀ path active s, search_ok active value s (scrub value path active s).1 (scrub value path active s).2.
Proof.
  induction value as [|b|n|t|l IH|l IH] using json_rect'; intros path active s; try (split; [constructor|done]).
  - cbn [scrub_json_value]. destruct active; [apply scrub_string_ok|split; [constructor|done]].
  - cbn [scrub_json_value]. set (f := λ index child, scrub child (path +:+ "[" +:+ pretty index +:+ "]") active).
    assert (∀ i s, Forall2 (redaction scrubbed_text active) l (scrub_items f l i s).1 ∧
      (good s → good (scrub_items f l i s).2)) as Hl.
    { induction IH as [|x l Hx _ IHl]; intros i s0; [split; [constructor|done]|]. cbn [scrub_items].
      destruct (Hx (path +:+ "[" +:+ pretty i +:+ "]") active s0) as [R1 G1]. fold (f i x s0) in R1, G1.
      destruct (f i x s0) as [x' s1]. destruct (IHl (S i) s1) as [R2 G2]. fold (scrub_items f).
      destruct (scrub_items f l (S i) s1) as [l' s2]. cbn in *. split; [by constructor|auto]. }
    destruct (Hl 0 s) as [R G]. destruct (scrub_items f l 0 s) as [l' s']. split; [by constructor|done].
  - cbn [scrub_json_value].
    set (f := λ key child, scrub child (path +:+ "." +:+ key) (active || is_sensitive_text_field key)).
    assert (∀ s, Forall2 (λ f f', f.1 = f'.1 ∧ redaction scrubbed_text (active || is_sensitive_text_field f.1) f.2 f'.2) l
      (scrub_fields f l s).1 ∧ (good s → good (scrub_fields f l s).2)) as Hl.
    { induction IH as [|[k x] l Hx _ IHl]; intros s0; [split; [constructor|done]|]. cbn [scrub_fields].
      destruct (Hx (path +:+ "." +:+ k) (active || is_sensitive_text_field k) s0) as [R1 G1]. cbn [snd] in R1, G1.
      fold (f k x s0) in R1, G1. destruct (f k x s0) as [x' s1]. destruct (IHl s1) as [R2 G2]. fold (scrub_fields f).
      destruct (scrub_fields f l s1) as [l' s2]. cbn in *. split; [by constructor|auto]. }
    destruct (Hl s) as [R G]. destruct (scrub_fields f l s) as [l' s']. split; [by constructor|done].
Qed.

End values.

End search.

(** ** The plugin *)

Section plugin.
Context `{RegexEngine} `{SerdeJson} {V : Type} `{VerifierClient V} `{Http}.

Notation Ctx := (RequestContext (H0 := gateway_types (FilterState (V := V)))).

(** What a search finds, and what it may make of the body. *)
Lemma scrub_body_ok f rules d body (v v' : V) r : scrub_body f rules d body v = (v', r) →
  strongest (sb_action r) (sb_matches r) ∧
  ∀ body', sb_modified r = Some body' →
    match json_from_str body with
    | Some value => ∃ value', body' = json_to_string value' ∧
        redaction (scrubbed_text (V := V) (cf_remote_verifier_config f) rules d) false value value'
    | None => scrubbed_text (V := V) (cf_remote_verifier_config f) rules d body body'
    end.
Proof.
  unfold scrub_body. destruct (json_from_str body) as [value|].
  - pose proof (scrub_ok (cf_remote_verifier_config f) rules d value "$" false
      {| sc_verifier := v; sc_matches := []; sc_changed := false; sc_action := Allow |}) as [R G].
    destruct (scrub_json_value _ _ _ value _ _ _) as [value' s]. cbn in R, G. intros [= <- <-]. cbn.
    split; [apply G, strongest_nil|]. intros body'. destruct (sc_changed s); [|done]. intros [= <-]. by exists value'.
  - destruct (from_utf8 (bytes_of body)) as [text|] eqn:Et; [|intros [= <- <-]; split; [apply strongest_nil|done]].
    assert (text = body) as ->.
    { unfold from_utf8 in Et. destruct (utf8_valid _); [|done]. injection Et as <-. apply string_of_bytes_of. }
    pose proof (scrub_text_strongest (cf_remote_verifier_config f) rules d "$" body v) as Hs.
    destruct (scrub_text _ rules d "$" body v) as [v1 [[t ms] a]] eqn:E. intros [= <- <-]. cbn in *.
    split; [by destruct a|]. intros body'. destruct (String.eqb t body); [done|]. intros [= <-].
    exists "$", v. by rewrite E.
Qed.

Lemma replace_body_ext body (ctx : Ctx) :
  x_safety_audit (ctx_ext (replace_body body ctx)) = x_safety_audit (ctx_ext ctx) ∧
  ctx_body (replace_body body ctx) = Some body.
Proof. unfold replace_body. by destruct (hv_from_str _). Qed.

(** The three ways a request goes. *)
Lemma filter_cases f s (ctx : Ctx) s' ctx' a : filter_on_request f s ctx = (s', ctx', a) →
  (x_safety_audit (ctx_ext ctx') = x_safety_audit (ctx_ext ctx) ∧ ctx_body ctx' = ctx_body ctx ∧ a = Continue) ∨
  ∃ body rules r, ctx_body ctx = Some body ∧ effective_rules f (ft_governance s) ctx = Ok rules ∧
    (scrub_body f rules (default_action f (ft_governance s) ctx) body (ft_verifier s)).2 = r ∧ sb_matches r ≠ [] ∧
    x_safety_audit (ctx_ext ctx') = Some {| sa_mode := action_as_str (sb_action r); sa_matches := sb_matches r |} ∧
    match sb_action r with
    | Refuse => a = Respond (blocked_response (sb_matches r)) ∧ ctx_body ctx' = ctx_body ctx
    | Redact => a = Continue ∧ ctx_body ctx' = or_else (sb_modified r) (ctx_body ctx)
    | _ => a = Continue ∧ ctx_body ctx' = ctx_body ctx
    end.
Proof.
  unfold filter_on_request. cbv zeta.
  change (ctx_body (with_ext (λ x, x <| x_content_replay := true |>) ctx)) with (ctx_body ctx).
  change (effective_rules f (ft_governance s) (with_ext (λ x, x <| x_content_replay := true |>) ctx))
    with (effective_rules f (ft_governance s) ctx).
  change (default_action f (ft_governance s) (with_ext (λ x, x <| x_content_replay := true |>) ctx))
    with (default_action f (ft_governance s) ctx).
  destruct (ctx_body ctx) as [body|] eqn:Eb; [|intros [= <- <- <-]; by left].
  destruct (effective_rules f (ft_governance s) ctx) as [rules|e] eqn:Er; [|intros [= <- <- <-]; by left].
  destruct rules as [|rule rules]; [intros [= <- <- <-]; by left|].
  destruct (scrub_body f (rule :: rules) _ body (ft_verifier s)) as [v r] eqn:Es.
  destruct (sb_matches r) as [|m ms] eqn:Em; [intros [= <- <- <-]; by left|].
  intros E. right. exists body, (rule :: rules), r. rewrite Em.
  destruct (sb_action r) eqn:Ea; injection E as <- <- <-; rewrite ?Es; try (split_and!; done).
  destruct (sb_modified r) as [body'|] eqn:Eo; cbn [from_option]; [|by split_and!].
  match goal with |- context [replace_body body' ?c] => destruct (replace_body_ext body' c) as [-> ->] end. by split_and!.
Qed.

(** C15: The filter decides by the strongest rule that matched.  A request is refused
    exactly when some recorded match asks to block, with status 400 and its body
    as it came; its body is changed only when no match blocks and some match asks
    to redact; a request without a match passes as it is; and no match that is
    recorded was allowed by its rule. *)
Theorem filter_decision_exact f s (ctx : Ctx) s' ctx' a :
  x_safety_audit (ctx_ext ctx) = None → filter_on_request f s ctx = (s', ctx', a) →
  let ms := from_option sa_matches [] (x_safety_audit (ctx_ext ctx')) in
  ((∃ r, a = Respond r) ↔ ∃ m, m ∈ ms ∧ sm_action m = "block") ∧
  (∀ r, a = Respond r → status r = 400%Z ∧ ctx_body ctx' = ctx_body ctx) ∧
  (ctx_body ctx' ≠ ctx_body ctx → a = Continue ∧ ∃ m, m ∈ ms ∧ sm_action m = "redact_and_forward") ∧
  (∀ m, m ∈ ms → sm_action m ≠ "allow").
Proof.
  intros Hnone E. destruct (filter_cases f s ctx s' ctx' a E) as [(Hx & Hb & ->)|(body & rules & r & Hb & Hr & Es & Hms & Hx & Ha)].
  { rewrite Hx, Hnone. cbn. rewrite Hb. split_and!; try done; [|by intros m ?%elem_of_nil].
    split; [by intros [r ?]|by intros (m & ?%elem_of_nil & _)]. }
  rewrite Hx. cbn [from_option sa_matches]. destruct (scrub_body f rules _ body (ft_verifier s)) as [v r'] eqn:Eb.
  cbn in Es. subst r'. apply scrub_body_ok in Eb as [Hs _]. pose proof (strongest_refuse _ _ Hs) as Hrefuse.
  assert (∀ m, m ∈ sb_matches r → sm_action m ≠ "allow") as Hallow.
  { intros m Hm E1. destruct (st_bound _ _ Hs m Hm) as (b & Eb & Nb & _). rewrite E1 in Eb. by destruct b. }
  assert (sb_action r = Redact → ∃ m, m ∈ sb_matches r ∧ sm_action m = "redact_and_forward") as Hredact.
  { intros Er. destruct (st_reached _ _ Hs) as [|(m & Hm & Em)]; [congruence|]. exists m. by rewrite Em, Er. }
  destruct (sb_action r) eqn:Er; destruct Ha as [-> Hbody].
  - by apply strongest_none in Hs || (rewrite Hbody; split_and!; [rewrite <-Hrefuse; naive_solver|done..]).
  - rewrite Hbody. split_and!; [rewrite <-Hrefuse; naive_solver|done..].
  - split_and!; [rewrite <-Hrefuse; naive_solver|done|auto|done].
  - rewrite Hbody. split_and!; [rewrite <-Hrefuse; naive_solver|intros ? [= <-]; done|done..].
Qed.

(** C16: A redaction changes texts and nothing else of the parsed request: a body
    that parses as JSON is left as it is, or it is replaced by the text of a JSON
    value that has the same keys in the same order, the same numbers and the same
    strings as the parsed value, except strings below a text field, each of which is
    what a search of that string leaves.  (The statement is about the values: the
    bytes are written anew from the value, so white space, the order of the keys and
    the spelling of numbers in the body are those of the serializer.) *)
Theorem redaction_touches_texts_only f s (ctx : Ctx) s' ctx' a body value :
  filter_on_request f s ctx = (s', ctx', a) → ctx_body ctx = Some body → json_from_str body = Some value →
  ctx_body ctx' = Some body ∨
  ∃ rules value', effective_rules f (ft_governance s) ctx = Ok rules ∧ ctx_body ctx' = Some (json_to_string value') ∧
    redaction (scrubbed_text (V := V) (cf_remote_verifier_config f) rules (default_action f (ft_governance s) ctx))
      false value value'.
Proof.
  intros E Hbody Hjson. destruct (filter_cases f s ctx s' ctx' a E) as [(_ & Hb & _)|(body' & rules & r & Hb & Hr & Es & _ & _ & Ha)].
  { left. by rewrite Hb. }
  rewrite Hbody in Hb. injection Hb as <-.
  destruct (scrub_body f rules _ body (ft_verifier s)) as [v r'] eqn:Eb. cbn in Es. subst r'.
  apply scrub_body_ok in Eb as [_ Hm]. rewrite Hjson in Hm. rewrite Hbody in Ha.
  destruct (sb_action r); try (left; apply Ha). destruct (sb_modified r) as [b'|]; [|left; apply Ha].
  destruct (Hm b' eq_refl) as (value' & -> & R). right. exists rules, value'. split_and!; [done|apply Ha|done].
Qed.

End plugin.

(** ** Redacting in place *)

Section in_place.
Context `{RegexLaws} `{SerdeJson} {V : Type} `{VerifierClient V}.

Implicit Types rule : CompiledRule.

(** Whether a match counts, of a rule that asks no service. *)
Definition counts rule (m : string) : bool :=
  negb (existsb (λ p, is_match p m) (cr_allowlist_patterns rule)) &&
  match cr_verification rule with VerifyDisabled => true | _ => local_verifier_accepts rule m end.

Lemma match_counts_local config rule m (v : V) : cr_verification rule ≠ VerifyRemote →
  match_counts config rule m v = (v, counts rule m).
Proof.
  intros Hv. unfold match_counts, counts, verifier_accepts. destruct (existsb _ _); [done|].
  by destruct (cr_verification rule).
Qed.

(** Every match that counts gives way to the replacement, where it is. *)
Definition redact_in_place rule (s : string) : string :=
  replace_all (cr_regex rule)
    (λ x, if counts rule (slice x.1 x.2 s) then replacement_text rule else slice x.1 x.2 s) s.

Definition join_pieces (ps : list (string * string)) (rest : string) : string :=
  foldr (λ p acc, p.1 +:+ p.2 +:+ acc) rest ps.

(** When each match is reached, its text is found at its place and not before. *)
Fixpoint found_in_place rule (prefix : string) (ps : list (string * string)) (rest : string) : bool :=
  match ps with
  | [] => true
  | (gap, m) :: ps' =>
      let prefix := prefix +:+ gap in
      if counts rule m
      then bool_decide (str_find m (prefix +:+ m +:+ join_pieces ps' rest) = Some (String.length prefix))
           && found_in_place rule (prefix +:+ replacement_text rule) ps' rest
      else found_in_place rule (prefix +:+ m) ps' rest
  end.

Definition match_pieces rule (s : string) : list (string * string) * string :=
  let '(ps, rest) := pieces s 0 (find_spans (cr_regex rule) s) in ((λ p, (p.1, slice p.2.1 p.2.2 s)) <$> ps, rest).

Definition all_in_place rule (s : string) : bool :=
  let '(ps, rest) := match_pieces rule s in found_in_place rule "" ps rest.

Lemma replace_at prefix m to rest : str_find m (prefix +:+ m +:+ rest) = Some (String.length prefix) →
  replace_first m to (prefix +:+ m +:+ rest) = prefix +:+ to +:+ rest.
Proof.
  intros E. unfold replace_first. rewrite E. rewrite substring_app_length. do 2 f_equal.
  rewrite <-str_length_app, <-str_app_assoc. apply str_drop_app.
Qed.

Lemma redact_candidates_in_place config rule prefix ps rest (v : V) : cr_verification rule ≠ VerifyRemote →
  found_in_place rule prefix ps rest = true →
  redact_candidates config rule ps.*2 (prefix +:+ join_pieces ps rest) v
  = (v, prefix +:+ foldr (λ p acc, p.1 +:+ (if counts rule p.2 then replacement_text rule else p.2) +:+ acc) rest ps,
     existsb (counts rule) ps.*2).
Proof.
  intros Hv. revert prefix. induction ps as [|[gap m] ps IH]; intros prefix Hf; [done|].
  cbn [fmap list_fmap redact_candidates join_pieces foldr fst snd found_in_place existsb] in *.
  rewrite match_counts_local by done. destruct (counts rule m).
  - apply andb_true_iff in Hf as [E%bool_decide_eq_true Hf]. fold (join_pieces ps rest).
    rewrite <-!str_app_assoc. rewrite (str_app_assoc (prefix +:+ gap) m). rewrite replace_at by done.
    rewrite <-str_app_assoc, IH by done. by rewrite !str_app_assoc.
  - fold (join_pieces ps rest). rewrite <-!str_app_assoc, IH by done. by rewrite !str_app_assoc.
Qed.

Lemma pieces_spans s pos l : (pieces s pos l).1.*2 = l.
Proof.
  revert pos. induction l as [|[i j] l IH]; intros pos; [done|]. cbn [pieces]. specialize (IH j).
  destruct (pieces s j l) as [ps rest]. cbn in *. by rewrite IH.
Qed.

(** C17: Redaction is in place when the texts allow it: if the text of every match
    that counts is found at its own place and not earlier, a redacting rule that
    asks no remote service replaces exactly the matches that count, each where it
    stands, leaves the rest of the text as it is, and reports a match exactly when
    one of them counts. *)
Theorem redaction_in_place config rule s (v : V) :
  cr_verification rule ≠ VerifyRemote → all_in_place rule s = true →
  apply_to_text config rule Redact s v
  = (v, redact_in_place rule s, existsb (counts rule) (find_iter (cr_regex rule) s)).
Proof.
  intros Hv Hp. unfold apply_to_text. rewrite bool_decide_true by done. rewrite replace_all_id.
  unfold all_in_place, match_pieces in Hp. unfold redact_in_place, replace_all, find_iter.
  pose proof (pieces_join s 0 _ (find_spans_ok (cr_regex rule) s)) as Hj.
  pose proof (pieces_spans s 0 (find_spans (cr_regex rule) s)) as Hs.
  destruct (pieces s 0 _) as [ps rest]. cbn in Hs. rewrite <-Hs.
  pose proof (redact_candidates_in_place config rule "" ((λ p, (p.1, slice p.2.1 p.2.2 s)) <$> ps) rest v Hv Hp) as E.
  assert (join_pieces ((λ p, (p.1, slice p.2.1 p.2.2 s)) <$> ps) rest = s) as Hjoin.
  { etrans; [|exact Hj]. unfold join_pieces. clear. induction ps as [|p ps IH]; [done|].
    cbn [fmap list_fmap foldr fst snd]. by rewrite IH. }
  rewrite Hjoin in E. change ("" +:+ s) with s in E.
  assert (((λ p, (p.1, slice p.2.1 p.2.2 s)) <$> ps).*2 = (λ x, slice x.1 x.2 s) <$> ps.*2) as Hm.
  { rewrite <-!list_fmap_compose. apply list_fmap_ext. by intros i [gap x] _. }
  rewrite Hm in E. rewrite E. f_equal. f_equal. change ("" +:+ ?x) with x. clear.
  induction ps as [|p ps IH]; [done|]. cbn [fmap list_fmap foldr fst snd]. by rewrite IH.
Qed.

End in_place.

(** ** Rule sets *)

Section rule_sets.
Context `{RegexEngine}.

(** The rule set [l'] has the rules of [l] at their places, those of a class that
    [named] holds of perhaps changed. *)
Definition keeps_rules (named : string → Prop) (l l' : list CompiledRule) : Prop :=
  ∀ i r, l !! i = Some r → ∃ r', l' !! i = Some r' ∧ cr_detector_class r' = cr_detector_class r ∧
    (¬ named (cr_detector_class r) → r' = r).

Lemma keeps_rules_refl named l : keeps_rules named l l.
Proof. intros i r Hi. by exists r. Qed.

Lemma keeps_rules_trans (named named' : string → Prop) l1 l2 l3 :
  (∀ c, named c → named' c) → keeps_rules named l1 l2 → keeps_rules named' l2 l3 → keeps_rules named' l1 l3.
Proof.
  intros Hn H1 H2 i r Hi. destruct (H1 i r Hi) as (r1 & Hi1 & Hc1 & He1). destruct (H2 i r1 Hi1) as (r2 & Hi2 & Hc2 & He2).
  exists r2. split_and!; [done|congruence|]. intros Hnot. rewrite He2 by congruence. apply He1. naive_solver.
Qed.

Lemma merge_rule_class existing rule merged class : fr_detector_class rule = Some class →
  merge_rule existing rule = Ok merged → cr_detector_class merged = class.
Proof.
  intros Hc. unfold merge_rule. destruct (from_option regex_new _ _); [|done]. cbn [result_bind].
  destruct (map_transpose parse_rule_action _); [|done]. cbn [result_bind].
  destruct (from_option parse_verification_mode _ _); [|done]. cbn [result_bind].
  destruct (merge_patterns _ (cr_path_patterns _) _); [|done]. cbn [result_bind].
  destruct (merge_patterns _ _ _); [|done]. cbn [result_bind]. rewrite Hc. by intros [= <-].
Qed.

Lemma merge_into_keeps class rule l l' : fr_detector_class rule = Some class →
  merge_into class rule l = Some (Ok l') → keeps_rules (eq class) l l'.
Proof.
  intros Hc. revert l'. induction l as [|x l IH]; intros l'; [done|]. cbn [merge_into].
  destruct (String.eqb_spec (cr_detector_class x) class) as [Hx|Hx].
  - intros [= E]. destruct (merge_rule x rule) as [m|] eqn:Em; [|done]. injection E as <-.
    intros [|i] r Hr; cbn in Hr; [|by exists r]. injection Hr as <-. exists m.
    split_and!; [done|by rewrite (merge_rule_class _ _ _ _ Hc Em)|done].
  - destruct (merge_into class rule l) as [[l1|]|]; [|done|done]. intros [= <-]. specialize (IH l1 eq_refl).
    intros [|i] r Hr; cbn in Hr; [injection Hr as <-; by exists x|by apply (IH i)].
Qed.

Lemma apply_rule_config_keeps rule l l' : apply_rule_config l rule = Ok l' →
  keeps_rules (λ c, fr_detector_class rule = Some c) l l'.
Proof.
  unfold apply_rule_config. destruct (fr_detector_class rule ≫= _) as [merged|] eqn:E.
  - apply bind_Some in E as (class & Hc & E). intros ->. apply (keeps_rules_trans (eq class) _ _ l').
    + intros c <-. done.
    + by apply (merge_into_keeps class rule).
    + apply keeps_rules_refl.
  - destruct (compile_rule rule) as [added|]; [|done]. intros [= <-]. intros i r Hi. exists r.
    split_and!; [|done|done]. by apply lookup_app_l_Some.
Qed.

Lemma apply_rule_configs_keeps rules l l' : apply_rule_configs l rules = Ok l' →
  keeps_rules (λ c, ∃ rule, rule ∈ rules ∧ fr_detector_class rule = Some c) l l'.
Proof.
  revert l. induction rules as [|rule rules IH]; intros l; cbn [apply_rule_configs]; [intros [= <-]; apply keeps_rules_refl|].
  destruct (apply_rule_config l rule) as [l1|] eqn:E; [|done]. cbn [result_bind]. intros Hl%IH.
  apply (keeps_rules_trans (λ c, ∃ x, x ∈ rule :: rules ∧ fr_detector_class x = Some c) _ _ l1); [done|..].
  - apply apply_rule_config_keeps in E. intros i r Hi. destruct (E i r Hi) as (r' & H1 & H2 & H3). exists r'.
    split_and!; [done|done|]. intros Hn. apply H3. intros Hc. apply Hn. exists rule. split; [by left|done].
  - intros i r Hi. destruct (Hl i r Hi) as (r' & H1 & H2 & H3). exists r'. split_and!; [done|done|].
    intros Hn. apply H3. intros (x & Hx & Hc). apply Hn. exists x. split; [by right|done].
Qed.

Lemma compile_rule_class rule r : compile_rule rule = Ok r → cr_detector_class r = default "custom" (fr_detector_class rule).
Proof.
  unfold compile_rule. destruct (ok_or (fr_pattern rule) _); [|done]. cbn [result_bind]. cbv zeta.
  destruct (regex_new _); [|done]. cbn [result_bind].
  destruct (map_transpose parse_rule_action _); [|done]. cbn [result_bind].
  destruct (map_transpose parse_verification_mode _); [|done]. cbn [result_bind].
  destruct (compile_regex_list (fr_path_patterns rule)); [|done]. cbn [result_bind].
  destruct (compile_regex_list (fr_allowlist_patterns rule)); [|done]. cbn [result_bind]. by intros [= <-].
Qed.

Lemma compile_rules_classes rules l : compile_rules rules = Ok l →
  cr_detector_class <$> l = (λ r, default "custom" (fr_detector_class r)) <$> rules.
Proof.
  revert l. induction rules as [|rule rules IH]; intros l; cbn [compile_rules]; [by intros [= <-]|].
  destruct (compile_rule rule) as [r|] eqn:E; [|done]. cbn [result_bind].
  destruct (compile_rules rules) as [rs|] eqn:Er; [|done]. cbn [result_bind]. intros [= <-].
  by rewrite !fmap_cons, (compile_rule_class _ _ E), (IH rs eq_refl).
Qed.

Context `{SerdeJson} {V : Type} `{VerifierClient V} `{Http}.

Notation Ctx := (RequestContext (H0 := gateway_types (FilterState (V := V)))).

(** The rules that are configured for a request. *)
Definition configured_rules (f : ContentFilter) (g : GovernanceState) (ctx : Ctx) : list FilterRule :=
  cf_input_rules f ++
  match cf_governance f, ctx_project ctx with
  | true, Some p => filter_rule_of <$> safety_rules_for_project g p
  | _, _ => []
  end.

Lemma apply_rule_configs_app l b more :
  apply_rule_configs b (l ++ more) = let? r := apply_rule_configs b l in apply_rule_configs r more.
Proof.
  revert b. induction l as [|x l IH]; intros b; [done|]. cbn [app apply_rule_configs].
  destruct (apply_rule_config b x); cbn [result_bind]; [apply IH|done].
Qed.

Lemma effective_rules_configured f g ctx :
  effective_rules f g ctx = let? b := built_in_rules in apply_rule_configs b (configured_rules f g ctx).
Proof.
  unfold effective_rules, configured_rules. destruct built_in_rules as [b|]; [|done]. cbn [result_bind].
  rewrite apply_rule_configs_app. destruct (apply_rule_configs b (cf_input_rules f)) as [r|]; [|done]. cbn [result_bind].
  by destruct (cf_governance f), (ctx_project ctx).
Qed.

(** C18: No rule that is added displaces a detector: whatever rules the configuration
    file and the project add, if they all parse and compile (if one does not, the filter
    lets the request pass unsearched) the rules that are applied to a request begin
    with one for every built-in detector, in their order, and a detector that no
    configured rule names is applied exactly as it is built in. *)
Theorem detectors_stay_in_force f g (ctx : Ctx) rules i d :
  effective_rules f g ctx = Ok rules → built_in_definitions !! i = Some d →
  ∃ r, rules !! i = Some r ∧ cr_detector_class r = dd_detector_class d ∧
    ((∀ rule, rule ∈ configured_rules f g ctx → fr_detector_class rule ≠ Some (dd_detector_class d)) →
     compile_rule (rule_of_definition d) = Ok r).
Proof.
  rewrite effective_rules_configured. destruct built_in_rules as [b|] eqn:Eb; [|done]. cbn [result_bind].
  intros Hr%apply_rule_configs_keeps Hd. unfold built_in_rules in Eb.
  assert (∀ defs b, compile_rules (rule_of_definition <$> defs) = Ok b → ∀ i d, defs !! i = Some d →
    ∃ r, b !! i = Some r ∧ compile_rule (rule_of_definition d) = Ok r) as Hb.
  { clear. induction defs as [|d0 defs IH]; intros b E i d Hd; [by rewrite lookup_nil in Hd|]. cbn [fmap list_fmap compile_rules] in E.
    destruct (compile_rule (rule_of_definition d0)) as [r0|] eqn:E0; [|done]. cbn [result_bind] in E.
    change (list_fmap _ _ rule_of_definition defs) with (rule_of_definition <$> defs) in E.
    destruct (compile_rules (rule_of_definition <$> defs)) as [rs|] eqn:Ers; [|done]. injection E as <-.
    destruct i as [|i]; cbn in *; [injection Hd as <-; by exists r0|by apply (IH rs eq_refl i)]. }
  destruct (Hb _ _ Eb i d Hd) as (r0 & Hi & Ec). destruct (Hr i r0 Hi) as (r & Hri & Hclass & Hsame).
  pose proof (compile_rule_class _ _ Ec) as Hc. cbn in Hc. exists r. split_and!; [done|congruence|]. intros Hnone.
  rewrite Hsame; [done|]. intros (rule & Hin & Hname). rewrite Hc in Hname. by apply (Hnone rule).
Qed.

(** The catalog shows what is enforced, when the configuration file adds no rules. *)
Lemma catalog_is_enforced f g (ctx : Ctx) p :
  cf_governance f = true → cf_input_rules f = [] → ctx_project ctx = Some p →
  effective_detector_catalog (Some g) (Some p)
  = result_map (fmap (detector_config (default_action f g ctx))) (effective_rules f g ctx).
Proof.
  intros Hg Hi Hp. unfold effective_detector_catalog, effective_rules, default_action. rewrite Hg, Hi, Hp.
  destruct built_in_rules as [b|]; [|done]. cbn. by destruct (apply_rule_configs b _).
Qed.

End rule_sets.

(** ** At a concrete engine *)

Module FilterDemo.

#[export] Existing Instance list_http.
#[export] Existing Instance word_engine.

(** Objects of one text field, and one list of rules. *)
#[export] Instance field_json : SerdeJson := {|
  json_from_str s :=
    if String.eqb s "one rule with an open group" then Some (JArray [JObject [("pattern", JString "(")]])
    else (λ p, JObject [(p.1, JString p.2)]) <$> split_once ":" s;
  json_to_string v := match v with JObject [(k, JString t)] => k +:+ ":" +:+ t | _ => "null" end;
|}.

(** Services that do not answer. *)
#[export] Instance silent : VerifierClient () := {| verifier_call v _ _ := (v, None) |}.

Definition token_rule (action : option string) : FilterRule := {|
  fr_pattern := Some "token"; fr_description := None; fr_detector_class := None; fr_action := action;
  fr_verification := None; fr_replacement := None; fr_path_patterns := []; fr_allowlist_patterns := [] |}.

Definition demo_filter (action : option string) : ContentFilter := {|
  cf_action := FilterRedactAndForward; cf_input_rules := [token_rule action]; cf_output_rules := [];
  cf_governance := true; cf_remote_verifier_config := remote_verifier_default |}.

Definition demo_state : FilterState (V := ()) := {| ft_governance := governance_new 0; ft_verifier := () |}.

Definition demo_ctx (body : string) : @RequestContext list_http (gateway_types (FilterState (V := ()))) := {|
  ctx_peer_addr := None; ctx_method := "POST"; ctx_uri := "/v1/chat/completions"; ctx_version := HTTP_11;
  ctx_headers := []; ctx_body := Some body; ctx_route := None; ctx_selected_upstream := None;
  ctx_auth := Some (auth_context_runtime "p" "k1");
  ctx_connection := (tt : @ConnExtensions (gateway_types (FilterState (V := ()))));
  ctx_extensions := @ext_new list_http (gateway_types (FilterState (V := ()))) |}.

Notation run f s ctx := (filter_on_request f s ctx).

Lemma filter_decision_exact_witness :
  ∃ r, (run (demo_filter (Some "block")) demo_state (demo_ctx "content:my token")).2 = Respond r ∧ status r = 400%Z.
Proof.
  destruct (filter_decision_exact (demo_filter (Some "block")) demo_state (demo_ctx "content:my token")
    (run (demo_filter (Some "block")) demo_state (demo_ctx "content:my token")).1.1
    (run (demo_filter (Some "block")) demo_state (demo_ctx "content:my token")).1.2
    (run (demo_filter (Some "block")) demo_state (demo_ctx "content:my token")).2) as (H1 & H2 & _).
  - reflexivity.
  - by destruct (run (demo_filter (Some "block")) demo_state (demo_ctx "content:my token")) as [[? ?] ?].
  - destruct (proj2 H1) as [r Hr].
    + eexists. split; vm_compute; [left|reflexivity].
    + exists r. split; [exact Hr|exact (proj1 (H2 r Hr))].
Defined.

Lemma redaction_touches_texts_only_witness :
  ctx_body (run (demo_filter None) demo_state (demo_ctx "content:my token")).1.2 = Some "content:my [REDACTED:custom]".
Proof.
  destruct (redaction_touches_texts_only (demo_filter None) demo_state (demo_ctx "content:my token")
    (run (demo_filter None) demo_state (demo_ctx "content:my token")).1.1
    (run (demo_filter None) demo_state (demo_ctx "content:my token")).1.2
    (run (demo_filter None) demo_state (demo_ctx "content:my token")).2
    "content:my token" (JObject [("content", JString "my token")])) as [_|_].
  - by destruct (run (demo_filter None) demo_state (demo_ctx "content:my token")) as [[? ?] ?].
  - reflexivity.
  - reflexivity.
  - vm_compute. reflexivity.
  - vm_compute. reflexivity.
Defined.

Definition token : CompiledRule := {|
  cr_regex := "token"; cr_description := "custom rule"; cr_detector_class := "custom"; cr_display_name := "Custom Detector";
  cr_provider := None; cr_category := "custom"; cr_source := "custom"; cr_source_url := None; cr_action := None;
  cr_verification := VerifyDisabled; cr_verifier_kind := None; cr_remote_verifier_kind := None; cr_replacement := None;
  cr_action_source := ProjectDefault; cr_path_patterns := []; cr_path_patterns_raw := []; cr_allowlist_patterns := [];
  cr_allowlist_patterns_raw := [] |}.

Lemma redaction_in_place_witness :
  apply_to_text remote_verifier_default token Redact "token a, token b" () = ((), "[REDACTED:custom] a, [REDACTED:custom] b", true).
Proof. rewrite (redaction_in_place remote_verifier_default token "token a, token b" ()); [vm_compute; reflexivity|done|vm_compute; reflexivity]. Defined.

Lemma detectors_stay_in_force_witness :
  ∃ rules r, effective_rules (demo_filter None) (governance_new 0) (demo_ctx "") = Ok rules ∧ rules !! 2 = Some r ∧
    cr_detector_class r = "aws_access_key".
Proof.
  assert (match effective_rules (demo_filter None) (governance_new 0) (demo_ctx "") with Ok _ => true | Err _ => false end = true)
    as Hok by (vm_compute; reflexivity).
  destruct (effective_rules (demo_filter None) (governance_new 0) (demo_ctx "")) as [rules|e] eqn:E; [clear Hok|discriminate Hok].
  destruct (detectors_stay_in_force (demo_filter None) (governance_new 0) (demo_ctx "") rules 2
    (detector "aws_access_key" "AWS Access Key" (Some "aws") "secret" "\bAKIA[0-9A-Z]{16}\b" "builtin"
       (Some GITHUB_SUPPORTED_PATTERNS_URL) (Some AwsExampleGuard) None VerifyLocal) E eq_refl) as (r & Hr & Hc & _).
  exists rules, r. split; [reflexivity|]. split; [exact Hr|exact Hc].
Defined.

(** A match is replaced where its text is first found, which may be inside another
    word: the match itself then stays. *)
Theorem redaction_misses_the_match :
  apply_to_text remote_verifier_default token Redact "mytoken, token" () = ((), "my[REDACTED:custom], token", true).
Proof. vm_compute. reflexivity. Qed.

(** A project rule that does not compile switches the filter off for the project,
    the built-in detectors included. *)
Definition bad_policy : SafetyPolicyRecord := {|
  sp_project_id := "p"; sp_mode := "block"; sp_rules_json := Some "one rule with an open group"; sp_updated_at := "" |}.

Theorem broken_rule_opens_the_filter :
  let s := {| ft_governance := governance_new 0 <| safety_policies := {["p" := bad_policy]} |>; ft_verifier := () |} in
  let out := run (demo_filter None) s (demo_ctx "content:my token") in
  out.2 = Continue ∧ ctx_body out.1.2 = Some "content:my token" ∧ x_safety_audit (ctx_ext out.1.2) = None.
Proof. vm_compute. by split. Qed.

(** The parsed body that an earlier plugin left is not redacted: the next plugin
    that writes it back sends the text that was taken out. *)
Theorem cached_json_undoes_redaction :
  let ctx := with_ext (λ x, x <| x_cached_request_json := Some (JObject [("content", JString "my token")]) |>)
               (demo_ctx "content:my token") in
  let out := run (demo_filter None) demo_state ctx in
  ctx_body out.1.2 = Some "content:my [REDACTED:custom]" ∧
  ctx_body (sync_cached_request_json_body out.1.2) = Some "content:my token".
Proof. vm_compute. by split. Qed.

(** The length of the redacted body is written to the headers of the request and
    not to those of the providers it is sent to. *)
Theorem candidates_keep_the_old_length :
  let candidate := {| pc_upstream := "http://a.test"; pc_headers := [("content-length", "16")] : HeaderMap |} in
  let ctx := ctx_set_extensions (set_candidates (Some [candidate]) (ctx_extensions (demo_ctx "content:my token")))
               (demo_ctx "content:my token") in
  let out := (run (demo_filter None) demo_state ctx).1.2 in
  String.length <$> ctx_body out = Some 28 ∧ get_str "content-length" (ctx_headers out) = Some "28" ∧
  option_map (map (λ c, get_str "content-length" (pc_headers c))) (ext_candidates (ctx_extensions out)) = Some [Some "16"].
Proof. vm_compute. by split. Qed.

(** The catalog does not know the rules of the configuration file. *)
Theorem catalog_misses_configured_rules :
  let catalog := effective_detector_catalog (Some (governance_new 0)) (Some "p") in
  let rules := effective_rules (demo_filter (Some "block")) (governance_new 0) (demo_ctx "") in
  result_map length catalog = Ok 18 ∧ result_map length rules = Ok 19.
Proof. vm_compute. by split. Qed.

End FilterDemo.
