(* ===== verification/PromptRegistry.v ===== *)
(** * The prompt registry

    Model of [plugin-llm-gateway/src/prompt_registry.rs]: a request that refers to
    a prompt of its project gets the text of that prompt, with its variables
    filled in, in front of its own messages.  The versions and their rollouts are
    those of [Governance]. *)

From S2P Require Import Prelude RecordSet RustStr Utf8 Toml Json Regex Auth Http Plugin GatewayContext CostTracker GovernanceStore Governance.

Local Open Scope string_scope.
Local Open Scope list_scope.
Local Open Scope rust_scope.

Record PromptRegistry := { pg_default_environment : string }.

Record PromptReference := {
  pref_name : string;
  pref_version : option string;
  pref_environment : string;
  pref_variables : gmap string string;
}.

Inductive PromptProtocol := OpenAiChat | AnthropicMessages.

(** [.map(str::trim).filter(|value| !value.is_empty())] *)
Definition trimmed (o : option string) : option string :=
  o ≫= λ s, match unicode_trim s with EmptyString => None | s => Some s end.

Definition prompt_registry_new `{Toml} (config : tvalue) : PromptRegistry := {|
  pg_default_environment := default "prod" (trimmed (toml_get config "default_environment" ≫= as_str)) |}.

(** ** The reference *)

(** [map.remove(k)] *)
Fixpoint fields_remove (k : string) (fields : list (string * json)) : list (string * json) * option json :=
  match fields with
  | [] => ([], None)
  | (k', v) :: rest =>
      if String.eqb k k' then (rest, Some v)
      else let '(rest, removed) := fields_remove k rest in ((k', v) :: rest, removed)
  end.

Section registry.
Context `{SerdeJson} `{RegexEngine}.

Definition render_variable_value (value : json) : string :=
  match value with JString s => s | _ => json_to_string value end.

Definition text_field (v : json) (k : string) : option string := trimmed (json_get v k ≫= json_str).

Definition read_reference (prompt_ref : json) (default_environment : string) : result string PromptReference :=
  match json_object prompt_ref with
  | None => Err "trp_prompt_ref must be an object"
  | Some _ =>
      match text_field prompt_ref "name" with
      | None => Err "trp_prompt_ref.name is required"
      | Some name =>
          let reference variables := {|
            pref_name := name; pref_version := text_field prompt_ref "version";
            pref_environment := default default_environment (text_field prompt_ref "environment");
            pref_variables := variables |} in
          match json_get prompt_ref "variables" with
          | Some (JObject fields) => Ok (reference (list_to_map ((λ e, (e.1, render_variable_value e.2)) <$> fields)))
          | Some _ => Err "trp_prompt_ref.variables must be an object"
          | None => Ok (reference ∅)
          end
      end
  end.

(** The reference is taken out of the request, whatever it is. *)
Definition extract_prompt_reference (request_json : json) (default_environment : string)
    : json * result string (option PromptReference) :=
  match request_json with
  | JObject fields =>
      match fields_remove "trp_prompt_ref" fields with
      | (_, None) => (request_json, Ok None)
      | (fields, Some prompt_ref) =>
          (JObject fields, result_map Some (read_reference prompt_ref default_environment))
      end
  | _ => (request_json, Err "prompt registry request body must be a JSON object")
  end.

(** ** The text *)

(** The pattern of a variable is a constant, which the crate compiles. *)
Definition VARIABLE_PATTERN : string := "\{\{\s*([A-Za-z0-9_.-]+)\s*\}\}".

(** The variable of a match: its first group, empty if there is none. *)
Definition variable_at (pattern : Rx) (template_text : string) (x : nat * nat) : string :=
  from_option (λ y, slice y.1 y.2 template_text) "" (group_1 pattern template_text x).

Fixpoint missing_from (variables : gmap string string) (names missing : list string) : list string :=
  match names with
  | [] => missing
  | variable :: names' =>
      missing_from variables names'
        (if bool_decide (variables !! variable = None) && negb (bool_decide (variable ∈ missing))
         then missing ++ [variable] else missing)
  end.

Definition render_prompt_template (pattern : Rx) (template_text : string) (variables : gmap string string)
    : result string string :=
  match missing_from variables (variable_at pattern template_text <$> find_spans pattern template_text) [] with
  | [] => Ok (replace_all pattern (λ x, default "" (variables !! variable_at pattern template_text x)) template_text)
  | missing => Err ("prompt template is missing variables: " +:+ join ", " missing)
  end.

(** ** The request *)

Definition infer_protocol (path : string) (request_json : json) : option PromptProtocol :=
  if ends_with path "/v1/messages" then Some AnthropicMessages
  else match json_get request_json "messages" with
       | Some (JArray _) => Some OpenAiChat
       | _ => None
       end.

(** Assigning to the value [get_mut] returned. *)
Definition json_set (v : json) (k : string) (x : json) : json :=
  match v with
  | JObject fields => JObject ((λ e : string * json, if String.eqb e.1 k then (e.1, x) else e) <$> fields)
  | _ => v
  end.

Definition apply_openai_system_prompt (request_json : json) (prompt : string) : result string json :=
  match request_json with
  | JObject _ =>
      match json_get request_json "messages" ≫= json_array with
      | Some messages =>
          Ok (json_set request_json "messages"
                (JArray (json_literal [("role", JString "system"); ("content", JString prompt)] :: messages)))
      | None => Err "OpenAI prompt request must contain a messages array"
      end
  | _ => Err "OpenAI prompt request must be a JSON object"
  end.

Definition apply_anthropic_system_prompt (request_json : json) (prompt : string) : result string json :=
  match request_json with
  | JObject fields =>
      match json_get request_json "system" with
      | Some (JString existing) =>
          Ok (json_set request_json "system" (JString
                (if String.eqb existing "" then prompt
                 else prompt +:+ String "010" (String "010" "") +:+ existing)))
      | Some (JArray blocks) =>
          Ok (json_set request_json "system"
                (JArray (json_literal [("type", JString "text"); ("text", JString prompt)] :: blocks)))
      | Some JNull | None => Ok (JObject (fields_insert "system" (JString prompt) fields))
      | Some _ => Err "Anthropic prompt request system must be a string or array of blocks"
      end
  | _ => Err "Anthropic prompt request must be a JSON object"
  end.

Definition apply_system_prompt (path : string) (request_json : json) (prompt : string) : result string json :=
  match infer_protocol path request_json with
  | Some OpenAiChat => apply_openai_system_prompt request_json prompt
  | Some AnthropicMessages => apply_anthropic_system_prompt request_json prompt
  | None => Err "trp_prompt_ref currently supports OpenAI chat completions and Anthropic messages requests"
  end.

(** ** The plugin *)

Context `{Http} {S : Type} `{DefaultHasher}.

Notation Ctx := (RequestContext (H0 := gateway_types S)).

Definition prompt_json_error (st : StatusCode) (message : string) : Response :=
  json_body_response st (json_to_string (json_literal [("error", JString message)])).

Definition stable_rollout_seed (ctx : Ctx) : option string :=
  or_else (trimmed (hm_get SESSION_ID_HEADER (ctx_headers ctx) ≫= hv_to_str))
    (vk_key_hash <$> x_virtual_key (ctx_ext ctx)).

Definition prompt_project (ctx : Ctx) : option string :=
  or_else (ctx_auth ctx ≫= resolved_project) (vk_project_id <$> x_virtual_key (ctx_ext ctx)).

Definition not_found_message (project_id : string) (r : PromptReference) : string :=
  match pref_version r with
  | Some version => "prompt reference not found for project '" +:+ project_id +:+ "': " +:+ pref_name r +:+ "/" +:+
      pref_environment r +:+ "/" +:+ version
  | None => "active prompt reference not found for project '" +:+ project_id +:+ "': " +:+ pref_name r +:+ "/" +:+
      pref_environment r
  end.

(** The prompt a reference stands for, with its text filled in. *)
Definition resolve_reference (pattern : Rx) (g : GovernanceState) (project_id : string) (seed : option string)
    (r : PromptReference) : result string (ResolvedProjectPrompt * string) :=
  match resolve_project_prompt g project_id (pref_name r) (pref_version r) (pref_environment r) seed with
  | None => Err (not_found_message project_id r)
  | Some resolved =>
      let record := rv_record resolved in
      if negb (eq_ignore_ascii_case (pm_target record) "system") then
        Err ("prompt '" +:+ pm_prompt_name record +:+ "' version '" +:+ pm_version record +:+
             "' uses unsupported target '" +:+ pm_target record +:+ "'")
      else
        let? rendered := render_prompt_template pattern (pm_template_text record) (pref_variables r) in
        Ok (resolved, rendered)
  end.

Definition resolution_audit (resolved : ResolvedProjectPrompt) : PromptResolutionAudit := {|
  pa_prompt_name := pm_prompt_name (rv_record resolved); pa_prompt_version := pm_version (rv_record resolved);
  pa_prompt_environment := pm_environment (rv_record resolved); pa_prompt_rollout_id := rv_rollout_id resolved;
  pa_prompt_rollout_mode := rv_rollout_mode resolved |}.

(** Every error is a 400; the parsed body has by then lost the reference. *)
Definition prompt_on_request (p : PromptRegistry) (pattern : Rx) (g : GovernanceState) (ctx : Ctx) : Ctx * Action :=
  if negb (String.eqb (ctx_method ctx) POST) then (ctx, Continue)
  else
    match ctx_body ctx with
    | None => (ctx, Continue)
    | Some _ =>
        match prompt_project ctx with
        | None => (ctx, Respond (prompt_json_error 400%Z "trp_prompt_ref requires a managed runtime key"))
        | Some project_id =>
            let seed := stable_rollout_seed ctx in
            let path := uri_path (ctx_uri ctx) in
            match cached_request_json ctx with
            | (ctx, None) => (ctx, Continue)
            | (ctx, Some request_json) =>
                let put value ctx := with_ext (λ x, x <| x_cached_request_json := Some value |>) ctx in
                match extract_prompt_reference request_json (pg_default_environment p) with
                | (value, Err error) => (put value ctx, Respond (prompt_json_error 400%Z error))
                | (value, Ok None) => (put value ctx, Continue)
                | (value, Ok (Some reference)) =>
                    match (let? r := resolve_reference pattern g project_id seed reference in
                           let? value := apply_system_prompt path value r.2 in Ok (r.1, value)) with
                    | Err error => (put value ctx, Respond (prompt_json_error 400%Z error))
                    | Ok (resolved, value) =>
                        let ctx := sync_cached_request_json_body (put value ctx) in
                        (with_ext (λ x, x <| x_prompt_audit := Some (resolution_audit resolved) |>) ctx, Continue)
                    end
                end
            end
        end
    end.

End registry.
