(* ===== verification/PromptRegistryProps.v ===== *)
(** * What the prompt registry guarantees

    The prompt a request refers to comes first and nothing else of the request
    changes, the variables of a template are checked exactly, and a session that
    a rollout has moved to a new version is not moved back. *)

From S2P Require Import Prelude RecordSet RustStr Utf8 Toml Json Regex Auth Http Plugin ProxyProtocol GatewayContext CostTracker GovernanceStore Governance PromptRegistry.

Local Open Scope string_scope.
Local Open Scope list_scope.
Local Open Scope rust_scope.

(** ** Objects *)

#[local] Instance Ok_inj {E A} : Inj (=) (=) (@Ok E A).
Proof. by intros ?? [= ->]. Qed.

Lemma json_get_insert fields k v k' :
  json_get (JObject (fields_insert k v fields)) k' = if String.eqb k k' then Some v else json_get (JObject fields) k'.
Proof.
  cbn [json_get]. induction fields as [|[k1 v1] rest IH]; cbn [fields_insert].
  - cbn. by destruct (String.eqb k k').
  - destruct (String.eqb_spec k k1) as [<-|Hk]; cbn [find_first fst snd fmap option_fmap option_map].
    + by destruct (String.eqb k k').
    + destruct (String.ltb k k1); cbn [find_first fst snd].
      * by destruct (String.eqb k k').
      * destruct (String.eqb_spec k1 k') as [<-|Hk1]; [|by rewrite IH].
        by destruct (String.eqb_spec k k1).
Qed.

Lemma json_get_set v k x k' :
  json_get (json_set v k x) k' =
  if String.eqb k k' then (λ _, x) <$> json_get v k else json_get v k'.
Proof.
  destruct v as [| | | | |fields]; cbn [json_set json_get]; try by destruct (String.eqb k k').
  induction fields as [|[k1 v1] rest IH]; [by destruct (String.eqb k k')|]. cbn [fmap list_fmap find_first fst snd].
  destruct (String.eqb_spec k1 k) as [->|Hk]; cbn [fst snd].
  - by destruct (String.eqb_spec k k').
  - destruct (String.eqb_spec k1 k') as [->|Hk1]; [by destruct (String.eqb_spec k k'); [congruence|]|]. exact IH.
Qed.

Lemma fields_remove_get k fields fields' removed :
  fields_remove k fields = (fields', removed) →
  removed = json_get (JObject fields) k ∧
  (∀ k', k' ≠ k → json_get (JObject fields') k' = json_get (JObject fields) k') ∧
  (NoDup fields.*1 → json_get (JObject fields') k = None).
Proof.
  revert fields'. cbn [json_get]. induction fields as [|[k1 v1] rest IH]; intros fields'; cbn [fields_remove].
  { by intros [= <- <-]. }
  destruct (String.eqb_spec k k1) as [<-|Hk].
  - intros [= <- <-]. cbn [find_first fst snd]. rewrite String.eqb_refl. split; [done|]. split.
    + intros k' Hk'. by destruct (String.eqb_spec k k'); [congruence|].
    + intros [Hn _]%NoDup_cons. destruct (find_first _ rest) as [e|] eqn:E; [|done].
      apply find_first_In in E as [He Ek]. apply String.eqb_eq in Ek. destruct Hn. simpl. rewrite <-Ek.
      by apply list_elem_of_fmap_2.
  - destruct (fields_remove k rest) as [rest' r]. intros [= <- <-]. destruct (IH rest' eq_refl) as (-> & Hother & Hgone).
    cbn [find_first fst snd]. destruct (String.eqb_spec k1 k) as [->|_]; [done|]. split; [done|]. split.
    + intros k' Hk'. destruct (String.eqb k1 k'); [done|]. by apply Hother.
    + intros [_ Hn]%NoDup_cons. by apply Hgone.
Qed.

(** ** Templates *)

Section templates.
Context `{RegexEngine}.

Lemma missing_from_spec variables names missing :
  NoDup missing →
  NoDup (missing_from variables names missing) ∧
  ∀ n, n ∈ missing_from variables names missing ↔ n ∈ missing ∨ n ∈ names ∧ variables !! n = None.
Proof.
  revert missing. induction names as [|x names IH]; intros missing Hnd; cbn [missing_from]; [set_solver|].
  destruct (bool_decide_reflect (variables !! x = None)) as [Hx|Hx];
    [destruct (bool_decide_reflect (x ∈ missing)) as [Hin|Hin]|]; cbn [negb andb].
  - destruct (IH missing Hnd) as [Hnd' Hspec]. split; [done|]. intros n. rewrite Hspec. set_solver.
  - destruct (IH (missing ++ [x])) as [Hnd' Hspec].
    { apply NoDup_app. split; [done|]. split; [set_solver|by apply NoDup_singleton]. }
    split; [done|]. intros n. rewrite Hspec. set_solver.
  - destruct (IH missing Hnd) as [Hnd' Hspec]. split; [done|]. intros n. rewrite Hspec.
    split; [set_solver|]. intros [|[[->|]%elem_of_cons ?]]; [set_solver|done|set_solver].
Qed.

(** The names a template uses. *)
Definition template_variables (pattern : Rx) (template_text : string) : list string :=
  variable_at pattern template_text <$> find_spans pattern template_text.

(** A template is filled in exactly when every variable it uses has a value;
    otherwise the error names every variable without a value once, and no other.
    A text that is filled in is the template with each place replaced by the value
    of its variable: what the values contain is not looked at again. *)
Theorem template_checked_exactly pattern template_text variables :
  (∀ n, n ∈ template_variables pattern template_text → is_Some (variables !! n)) ∧
  render_prompt_template pattern template_text variables =
    Ok (let '(ps, rest) := pieces template_text 0 (find_spans pattern template_text) in
        foldr (λ p acc, p.1 +:+ default "" (variables !! variable_at pattern template_text p.2) +:+ acc) rest ps)
  ∨ ∃ missing, missing ≠ [] ∧ NoDup missing ∧
      (∀ n, n ∈ missing ↔ n ∈ template_variables pattern template_text ∧ variables !! n = None) ∧
      render_prompt_template pattern template_text variables =
        Err ("prompt template is missing variables: " +:+ join ", " missing).
Proof.
  unfold render_prompt_template. fold (template_variables pattern template_text).
  destruct (missing_from_spec variables (template_variables pattern template_text) [] ltac:(constructor)) as [Hnd Hspec].
  destruct (missing_from _ _ _) as [|m l]; [left|right].
  - split; [|done]. intros n Hn. apply not_eq_None_Some. intros E. by apply (elem_of_nil n), Hspec; right.
  - exists (m :: l). split_and!; [done|done| |done]. intros n. rewrite Hspec. set_solver.
Qed.

End templates.

(** ** Rollouts *)

Section rollouts.
Context `{SerdeJson} `{DefaultHasher}.

(** Raising the share of a rollout moves sessions to the new version only: when
    the prompts are the same and the share of the same rollout has not gone down,
    a session that was served the version on trial is served it still. *)
Theorem raising_the_share_keeps_sessions g g' project_id name environment seed c c' x :
  project_prompts g' !! project_id = project_prompts g !! project_id →
  active_canary_prompt_rollout g project_id name environment = Some c →
  active_canary_prompt_rollout g' project_id name environment = Some c' →
  ac_rollout_id c' = ac_rollout_id c → ac_candidate_version c' = ac_candidate_version c →
  (ac_traffic_percent c ≤ ac_traffic_percent c')%Z →
  resolve_project_prompt g project_id name None environment (Some seed) = Some x →
  pm_version (rv_record x) = ac_candidate_version c →
  ∃ x', resolve_project_prompt g' project_id name None environment (Some seed) = Some x' ∧
    pm_version (rv_record x') = ac_candidate_version c.
Proof.
  intros Hp Hc Hc' Hid Hv Hle. unfold resolve_project_prompt. rewrite Hp, Hc, Hc', Hid, Hv.
  destruct (project_prompts g !! project_id) as [prompts|]; [|done]. simpl.
  destruct (find_first (is_baseline name environment) prompts) as [b|] eqn:Eb; [|done]. simpl.
  set (candidate := λ r, _ && _ && _). intros [= <-] Hx. eexists. split; [done|]. simpl in *.
  assert (pm_version b = ac_candidate_version c → is_Some (find_first candidate prompts)) as Hbase.
  { intros Hbv. apply find_first_In in Eb as [Hin Hb]. apply not_eq_None_Some. intros Hnone%find_first_None.
    rewrite Forall_forall in Hnone. specialize (Hnone b Hin). unfold candidate, is_baseline in *.
    apply andb_true_iff in Hb as [Hb _]. by rewrite Hb, Hbv, String.eqb_refl in Hnone. }
  assert (∀ r, find_first candidate prompts = Some r → pm_version r = ac_candidate_version c) as Hfound.
  { intros r [_ Hr]%find_first_In. apply andb_true_iff in Hr as [_ Hr]. by apply String.eqb_eq. }
  set (bucket := rollout_bucket _ _) in *.
  destruct (Z.ltb_spec bucket (ac_traffic_percent c)) as [Hlt|Hge].
  - rewrite (proj2 (Z.ltb_lt bucket (ac_traffic_percent c'))) by lia. done.
  - destruct (bucket <? ac_traffic_percent c')%Z; [|done].
    destruct (Hbase Hx) as [r Hr]. rewrite Hr. by apply Hfound.
Qed.

End rollouts.

(** ** Requests *)

Section requests.
Context `{SerdeJson} `{RegexEngine} `{Http} {S : Type} `{DefaultHasher}.

Notation Ctx := (RequestContext (H0 := gateway_types S)).

(** The field a prompt is written to. *)
Definition prompt_field (protocol : PromptProtocol) : string :=
  match protocol with OpenAiChat => "messages" | AnthropicMessages => "system" end.

(** The prompt is in front of what the client had there. *)
Definition prompt_leads (protocol : PromptProtocol) (text : string) (before after : option json) : Prop :=
  match protocol with
  | OpenAiChat => ∃ messages message, before = Some (JArray messages) ∧ after = Some (JArray (message :: messages)) ∧
      json_get message "role" = Some (JString "system") ∧ json_get message "content" = Some (JString text)
  | AnthropicMessages =>
      match before with
      | None | Some JNull => after = Some (JString text)
      | Some (JString existing) => ∃ gap, after = Some (JString (text +:+ gap +:+ existing))
      | Some (JArray blocks) => ∃ block, after = Some (JArray (block :: blocks)) ∧
          json_get block "type" = Some (JString "text") ∧ json_get block "text" = Some (JString text)
      | Some _ => False
      end
  end.

Lemma apply_system_prompt_spec path v text v' :
  apply_system_prompt path v text = Ok v' →
  ∃ protocol, infer_protocol path v = Some protocol ∧
    prompt_leads protocol text (json_get v (prompt_field protocol)) (json_get v' (prompt_field protocol)) ∧
    ∀ k, k ≠ prompt_field protocol → json_get v' k = json_get v k.
Proof.
  unfold apply_system_prompt. destruct (infer_protocol path v) as [protocol|]; [|done]. intros E. exists protocol.
  split; [done|]. destruct v as [| | | | |fields]; try by destruct protocol. destruct protocol; cbn [prompt_field].
  - unfold apply_openai_system_prompt in E. destruct (json_get _ "messages") as [[| | | |messages|]|] eqn:Em; try done.
    cbn [mbind option_bind json_array] in E. apply (inj Ok) in E as <-. split.
    + rewrite json_get_set, Em. simpl. by eexists _, _.
    + intros k Hk. rewrite json_get_set. by destruct (String.eqb_spec "messages" k); [congruence|].
  - unfold apply_anthropic_system_prompt in E. revert E.
    assert (∀ x, json_get (json_set (JObject fields) "system" x) "system" = (λ _, x) <$> json_get (JObject fields) "system" ∧
      (∀ k, k ≠ "system" → json_get (json_set (JObject fields) "system" x) k = json_get (JObject fields) k)) as Hset.
    { intros x. split; [by rewrite json_get_set|]. intros k Hk. rewrite json_get_set.
      by destruct (String.eqb_spec "system" k); [congruence|]. }
    assert (∀ x, json_get (JObject (fields_insert "system" x fields)) "system" = Some x ∧
      (∀ k, k ≠ "system" → json_get (JObject (fields_insert "system" x fields)) k = json_get (JObject fields) k)) as Hins.
    { intros x. split; [by rewrite json_get_insert|]. intros k Hk. rewrite json_get_insert.
      by destruct (String.eqb_spec "system" k); [congruence|]. }
    destruct (json_get (JObject fields) "system") as [[| | |existing|blocks|]|] eqn:Es; intros E; try discriminate E;
      apply (inj Ok) in E as <-; unfold prompt_leads.
    + apply Hins.
    + split; [|apply Hset]. rewrite (proj1 (Hset _)). cbn [fmap option_fmap option_map].
      destruct (String.eqb_spec existing "") as [->|_]; [exists ""; by rewrite !str_app_nil_r|].
      by exists (String "010" (String "010" "")).
    + split; [|apply Hset]. rewrite (proj1 (Hset _)). by eexists.
    + apply Hins.
Qed.


(** Without a reference nothing changes but that the parsed body is kept. *)
Theorem requests_without_reference_pass p pattern g (ctx : Ctx) fields :
  is_Some (prompt_project ctx) → (cached_request_json ctx).2 = Some (JObject fields) →
  json_get (JObject fields) "trp_prompt_ref" = None →
  ∃ ctx', prompt_on_request p pattern g ctx = (ctx', Continue) ∧ ctx_body ctx' = ctx_body ctx ∧
    ctx_headers ctx' = ctx_headers ctx.
Proof.
  intros [project_id Hp] Hj Href. unfold prompt_on_request. rewrite Hp.
  destruct (negb _); [by eexists|]. destruct (ctx_body ctx) eqn:Eb; [|by eexists].
  assert (ctx_body (cached_request_json ctx).1 = ctx_body ctx ∧ ctx_headers (cached_request_json ctx).1 = ctx_headers ctx) as [Hb Hh].
  { unfold cached_request_json, ensure_cached_request_json. repeat case_match; by simplify_eq/=. }
  destruct (cached_request_json ctx) as [ctx1 j]. cbn [fst snd] in *. subst j. unfold extract_prompt_reference.
  destruct (fields_remove _ fields) as [rest removed] eqn:Er. apply fields_remove_get in Er as (-> & _ & _).
  rewrite Href. eexists. split; [done|]. by rewrite <-Eb, <-Hb, <-Hh.
Qed.

End requests.

(** ** At concrete requests *)

Module PromptDemo.

#[export] Existing Instance list_http.
#[export] Existing Instance word_engine.
#[export] Instance seed_length : DefaultHasher := λ _ seed, Z.of_nat (String.length seed).

(** Two bodies, and the texts of the values this file writes. *)
Definition chat_with_ref : json := JObject
  [("messages", JArray [JObject [("content", JString "Hi"); ("role", JString "user")]]); ("model", JString "m");
   ("trp_prompt_ref", JObject [("name", JString "greet"); ("variables", JObject [("name", JString "name and name")])])].

#[export] Instance two_bodies : SerdeJson := {|
  json_from_str s :=
    if String.eqb s "chat with a reference" then Some chat_with_ref
    else if String.eqb s "plain chat" then Some (JObject [("model", JString "m")])
    else if String.eqb s "ten percent" then
      Some (JObject [("runtime_rollout", JObject [("mode", JString "canary"); ("traffic_percent", JNumber (PosInt 10))])])
    else if String.eqb s "ninety percent" then
      Some (JObject [("runtime_rollout", JObject [("mode", JString "canary"); ("traffic_percent", JNumber (PosInt 90))])])
    else None;
  json_to_string v :=
    match json_get v "messages" with
    | Some (JArray (m :: _)) => match json_get m "content" with Some (JString t) => t | _ => "" end
    | _ => match json_get v "error" with Some (JString t) => t | _ => "" end
    end |}.

Definition prompt (version : string) (active : bool) : ProjectPromptRecord := {|
  pm_project_id := "p"; pm_prompt_name := "greet"; pm_version := version; pm_environment := "prod";
  pm_description := None; pm_target := "system"; pm_template_text := "Hello name!"; pm_variables_schema_json := None;
  pm_rollout_metadata_json := None; pm_active := active; pm_updated_at := "" |}.

Definition rollout (comparison : string) : ProjectPromptRolloutRecord := {|
  ro_rollout_id := "r"; ro_project_id := "p"; ro_prompt_name := "greet"; ro_baseline_run_id := ""; ro_candidate_run_id := "";
  ro_baseline_version := Some "1"; ro_candidate_version := "2"; ro_target_environment := Some "prod";
  ro_status := "applied_canary"; ro_policy_name := ""; ro_recommendation_action := None; ro_comparison_json := comparison;
  ro_created_at := ""; ro_applied_at := None |}.

Definition governance (comparison : option string) : GovernanceState :=
  governance_new 0 <| project_prompts := {["p" := [prompt "1" true; prompt "2" false]]} |>
    <| project_prompt_rollouts := match comparison with Some c => {["p" := [rollout c]]} | None => ∅ end |>.

Definition request (project : option string) (body : string) : @RequestContext list_http (gateway_types ()) := {|
  ctx_peer_addr := None; ctx_method := "POST"; ctx_uri := "/v1/chat/completions"; ctx_version := HTTP_11;
  ctx_headers := []; ctx_body := Some body; ctx_route := None; ctx_selected_upstream := None;
  ctx_auth := (λ p, auth_context_runtime p "k1") <$> project;
  ctx_connection := (tt : @ConnExtensions (gateway_types ())); ctx_extensions := @ext_new list_http (gateway_types ()) |}.

Definition registry : PromptRegistry := {| pg_default_environment := "prod" |}.

Definition pattern : @Rx word_engine := "name".

Notation run c project body := (prompt_on_request registry pattern (governance c) (request project body)).


Lemma raising_the_share_keeps_sessions_witness :
  ∃ x', resolve_project_prompt (governance (Some "ninety percent")) "p" "greet" None "prod" (Some "sess") = Some x' ∧
    pm_version (rv_record x') = "2".
Proof.
  set (canary := λ percent, {| ac_rollout_id := "r"; ac_candidate_version := "2"; ac_traffic_percent := percent |}).
  eapply (raising_the_share_keeps_sessions (governance (Some "ten percent")) (governance (Some "ninety percent"))
    "p" "greet" "prod" "sess" (canary 10%Z) (canary 90%Z)); try reflexivity. vm_compute. discriminate.
Defined.

(** A request with a body and without a project is refused, also when it has no
    reference: the refusal comes before the body is looked at. *)
Theorem plain_requests_need_a_project :
  match (run None None "plain chat").2 with Respond r => status r = 400%Z | _ => False end.
Proof. reflexivity. Qed.

End PromptDemo.
