(* ===== verification/GovernanceRows.v ===== *)
(** * Rows of projects in memory

    Governance keeps the rules, tools, prompts and rollouts of each project as a
    sorted list under the project.  Seen from outside such a map of lists is a
    partial function from a project and a key to a record: what the list
    operations of [Governance.v] do to it. *)

From S2P Require Import Prelude RustStr Sql Governance.

Local Open Scope string_scope.
Local Open Scope list_scope.
Local Open Scope rust_scope.

(** ** A list of records with distinct keys *)

Section keyed.
Context {A K : Type} `{EqDecision K} (key : A → K) (hit : K → A → bool).
Hypothesis hit_spec : ∀ k x, hit k x = true ↔ key x = k.

Lemma find_key l k x : NoDup (key <$> l) → find_first (hit k) l = Some x ↔ x ∈ l ∧ key x = k.
Proof using hit_spec.
  intros Hnd. split.
  - intros [Hx Hk]%find_first_In. by rewrite <-hit_spec.
  - intros [Hx Hk]. induction l as [|y l IH]; [by apply elem_of_nil in Hx|]. simpl.
    apply NoDup_cons in Hnd as [Hy Hnd]. destruct (hit k y) eqn:E.
    + apply hit_spec in E. apply elem_of_cons in Hx as [->|Hx]; [done|].
      exfalso. apply Hy. rewrite E, <-Hk. by apply list_elem_of_fmap_2.
    + apply IH; [done|]. apply elem_of_cons in Hx as [->|Hx]; [|done].
      apply hit_spec in Hk. congruence.
Qed.

Lemma find_key_None l k : find_first (hit k) l = None ↔ ∀ x, x ∈ l → key x ≠ k.
Proof using hit_spec.
  rewrite find_first_None, Forall_forall. apply forall_proper. intros x.
  rewrite <-hit_spec. destruct (hit k x); naive_solver.
Qed.

(** Two lists with the same members answer alike. *)
Lemma find_key_members l l' k : NoDup (key <$> l) → NoDup (key <$> l') → (∀ x, x ∈ l ↔ x ∈ l') →
  find_first (hit k) l = find_first (hit k) l'.
Proof using hit_spec.
  intros H1 H2 Hm. apply option_eq. intros x. rewrite !find_key by done. by rewrite Hm.
Qed.

Lemma elem_replace_or_push l r x :
  x ∈ replace_or_push (hit (key r)) r l → x = r ∨ x ∈ l.
Proof using.
  clear hit_spec. induction l as [|y l IH]; simpl.
  - intros ?%list_elem_of_singleton. by left.
  - destruct (hit (key r) y); intros [->|H]%elem_of_cons; set_solver.
Qed.

Lemma elem_replace_or_push_keyed l r x : NoDup (key <$> l) →
  x ∈ replace_or_push (hit (key r)) r l ↔ x = r ∨ x ∈ l ∧ key x ≠ key r.
Proof using hit_spec.
  induction l as [|y l IH]; simpl; intros Hnd; [set_solver|].
  apply NoDup_cons in Hnd as [Hy Hnd]. destruct (hit (key r) y) eqn:E.
  - apply hit_spec in E. split.
    + intros [->|Hx]%elem_of_cons; [by left|right]. split; [by right|]. intros Hk. apply Hy.
      rewrite E, <-Hk. by apply list_elem_of_fmap_2.
    + intros [->|[[->|Hx]%elem_of_cons Hk]]; [by left|done|by right].
  - rewrite elem_of_cons, IH by done. split.
    + intros [->|[->|[Hx Hk]]]; [|by left|right; split; [by right|done]].
      right. split; [by left|]. intros Hk. apply hit_spec in Hk. congruence.
    + intros [->|[[->|Hx]%elem_of_cons Hk]]; [by right; left|by left|right; by right].
Qed.

Lemma replace_or_push_keys l r : NoDup (key <$> l) → NoDup (key <$> replace_or_push (hit (key r)) r l).
Proof using hit_spec.
  induction l as [|y l IH]; simpl; intros Hnd; [apply NoDup_singleton|].
  apply NoDup_cons in Hnd as [Hy Hnd]. destruct (hit (key r) y) eqn:E; simpl.
  - apply hit_spec in E. rewrite <-E. by constructor.
  - constructor; [|by apply IH]. rewrite list_elem_of_fmap. intros (x & Hx & Hin).
    apply elem_replace_or_push_keyed in Hin as [->|[Hin _]]; [|..|done].
    + assert (hit (key r) y = true) by by apply hit_spec. congruence.
    + apply Hy. rewrite Hx. by apply list_elem_of_fmap_2.
Qed.

Lemma filter_keys (P : A → Prop) `{∀ x, Decision (P x)} l : NoDup (key <$> l) → NoDup (key <$> filter P l).
Proof using.
  clear hit_spec. induction l as [|x l IH]; [done|]. rewrite fmap_cons, NoDup_cons, filter_cons.
  intros [Hx Hnd]. case_decide; [|by apply IH]. rewrite fmap_cons. constructor; [|by apply IH].
  contradict Hx. apply list_elem_of_fmap in Hx as (y & -> & [_ Hy]%list_elem_of_filter).
  by apply list_elem_of_fmap_2.
Qed.

End keyed.

(** ** A map of lists *)

Section rows.
Context {A K : Type} `{EqDecision K} (project : A → string) (key : A → K) (hit : K → A → bool).
Hypothesis hit_spec : ∀ k x, hit k x = true ↔ key x = k.

Implicit Types m : gmap string (list A).

Definition row m (p : string) (k : K) : option A := l ← m !! p; find_first (hit k) l.

(** Every list holds records of its project, one per key. *)
Definition rows_ok m : Prop :=
  map_Forall (λ p l, NoDup (key <$> l) ∧ Forall (λ r, project r = p) l) m.

Lemma rows_ok_empty : rows_ok ∅.
Proof using. apply map_Forall_empty. Qed.

Lemma row_default m p k : row m p k = find_first (hit k) (default [] (m !! p)).
Proof using. unfold row. by destruct (m !! p). Qed.

Lemma rows_ok_default m p : rows_ok m →
  NoDup (key <$> default [] (m !! p)) ∧ Forall (λ r, project r = p) (default [] (m !! p)).
Proof using.
  intros Hm. destruct (m !! p) as [l|] eqn:E; [by apply (Hm p)|]. split; constructor.
Qed.

Lemma row_Some m p k x : rows_ok m → row m p k = Some x ↔ x ∈ default [] (m !! p) ∧ key x = k.
Proof using hit_spec. intros Hm. rewrite row_default. apply (find_key _ _ hit_spec). by apply rows_ok_default. Qed.

Lemma row_keys m p k x : rows_ok m → row m p k = Some x → project x = p ∧ key x = k.
Proof using hit_spec.
  intros Hm [Hx Hk]%row_Some; [|done]. split; [|done].
  destruct (rows_ok_default m p Hm) as [_ Hf]. by eapply Forall_forall in Hf.
Qed.

(** A list put in place of the one of a project. *)
Lemma rows_ok_insert m p l : rows_ok m → NoDup (key <$> l) → Forall (λ r, project r = p) l →
  rows_ok (<[p := l]> m).
Proof using. intros Hm H1 H2. by apply map_Forall_insert_2. Qed.

(** [entry(project).or_default()], the record with the key replaced or a new one
    pushed, and the list sorted. *)
Lemma put_rows_ok m r le : rows_ok m →
  rows_ok (update_entry (project r) (λ l, sort_by le (replace_or_push (hit (key r)) r l)) m).
Proof using hit_spec.
  intros Hm. destruct (rows_ok_default m (project r) Hm) as [Hnd Hp]. apply rows_ok_insert; [done|..].
  - rewrite sort_by_perm. by apply (replace_or_push_keys _ _ hit_spec).
  - rewrite sort_by_perm. apply Forall_forall. intros x [->|Hx]%elem_replace_or_push; [done|].
    by eapply Forall_forall in Hp.
Qed.

Lemma put_row m r le p k : rows_ok m →
  row (update_entry (project r) (λ l, sort_by le (replace_or_push (hit (key r)) r l)) m) p k =
  if decide (p = project r ∧ k = key r) then Some r else row m p k.
Proof using hit_spec.
  intros Hm. apply option_eq. intros x. rewrite row_Some by by apply put_rows_ok.
  destruct (rows_ok_default m (project r) Hm) as [Hnd _]. unfold update_entry.
  destruct (decide (p = project r)) as [->|Hne].
  - rewrite lookup_insert_eq. simpl. rewrite sort_by_elem_of, (elem_replace_or_push_keyed _ _ hit_spec) by done.
    destruct (decide (project r = project r ∧ k = key r)) as [[_ ->]|Hk].
    + naive_solver.
    + rewrite row_Some by done. naive_solver.
  - rewrite lookup_insert_ne by done. rewrite decide_False by naive_solver. by rewrite row_Some.
Qed.

(** The records of a project but those with a key. *)
Definition other_rows (k : K) (l : list A) : list A := filter (λ x, negb (hit k x) = true) l.

Lemma elem_other_rows k l x : x ∈ other_rows k l ↔ x ∈ l ∧ key x ≠ k.
Proof using hit_spec.
  unfold other_rows. rewrite list_elem_of_filter, negb_true_iff, <-not_true_iff_false, hit_spec. apply and_comm.
Qed.

Lemma kept_rows_ok m p k l : rows_ok m → m !! p = Some l → rows_ok (<[p := other_rows k l]> m).
Proof using.
  intros Hm E. destruct (Hm p l E) as [Hnd Hp]. apply rows_ok_insert; [done|by apply filter_keys|].
  apply Forall_forall. intros x [_ Hx]%list_elem_of_filter. by eapply Forall_forall in Hp.
Qed.

Lemma kept_row m p k l p' k' : rows_ok m → m !! p = Some l →
  row (<[p := other_rows k l]> m) p' k' = if decide (p' = p ∧ k' = k) then None else row m p' k'.
Proof using hit_spec.
  intros Hm E. apply option_eq. intros x. rewrite row_Some by by apply kept_rows_ok.
  destruct (decide (p' = p)) as [->|Hne].
  - rewrite lookup_insert_eq. simpl. rewrite elem_other_rows. pose proof (row_Some m p k' x Hm) as Hr.
    rewrite E in Hr. simpl in Hr. destruct (decide (p = p ∧ k' = k)) as [[_ ->]|Hk]; [naive_solver|].
    rewrite Hr. naive_solver.
  - rewrite lookup_insert_ne by done. rewrite decide_False by naive_solver. by rewrite row_Some.
Qed.

(** Nothing was dropped exactly when the key was not there. *)
Lemma other_rows_length m p k l : rows_ok m → m !! p = Some l →
  length (other_rows k l) = length l → row m p k = None.
Proof using hit_spec.
  intros Hm E Hl. rewrite row_default, E. simpl. apply (find_key_None _ _ hit_spec). intros x Hx.
  intros Hk. pose proof (length_filter_lt (λ x, negb (hit k x) = true) l x Hx) as Hlt.
  apply hit_spec in Hk. cbv beta in Hlt. rewrite Hk in Hlt. specialize (Hlt ltac:(done)). unfold other_rows in Hl. lia.
Qed.

(** [retain] of what has another key. *)
Lemma retain_rows_ok m p k : rows_ok m → rows_ok (retain_entry (λ x, negb (hit k x)) p m).1.
Proof using.
  intros Hm. unfold retain_entry. destruct (m !! p) as [l|] eqn:E; [|done].
  pose proof (kept_rows_ok m p k l Hm E) as Hk. unfold other_rows in Hk.
  destruct (filter _ l); [|done]. by apply map_Forall_delete.
Qed.

Lemma retain_row m p k p' k' : rows_ok m →
  row (retain_entry (λ x, negb (hit k x)) p m).1 p' k' =
  if decide (p' = p ∧ k' = k) then None else row m p' k'.
Proof using hit_spec.
  intros Hm. unfold retain_entry. destruct (m !! p) as [l|] eqn:E.
  - rewrite <-(kept_row m p k l p' k' Hm E). unfold other_rows. simpl.
    destruct (filter _ l); [|done]. rewrite !row_default. destruct (decide (p = p')) as [<-|].
    + by rewrite lookup_delete_eq, lookup_insert_eq.
    + by rewrite lookup_delete_ne, lookup_insert_ne.
  - simpl. destruct (decide _) as [[-> ->]|]; [|done]. by rewrite row_default, E.
Qed.

(** The records of a project changed in place. *)
Lemma map_rows_ok m p f : rows_ok m → (∀ x, project (f x) = project x) → (∀ x, key (f x) = key x) →
  rows_ok (update_entry p (fmap f) m).
Proof using.
  intros Hm Hp Hk. destruct (rows_ok_default m p Hm) as [Hnd Hf]. apply rows_ok_insert; [done|..].
  - rewrite <-list_fmap_compose. by rewrite (list_fmap_ext (key ∘ f) key _ (λ _ x _, Hk x)).
  - apply Forall_fmap. eapply Forall_impl; [exact Hf|]. intros x <-. apply Hp.
Qed.

Lemma map_row m p f p' k : rows_ok m → (∀ x, project (f x) = project x) → (∀ x, key (f x) = key x) →
  row (update_entry p (fmap f) m) p' k = if decide (p' = p) then f <$> row m p' k else row m p' k.
Proof using hit_spec.
  intros Hm Hp Hk. unfold update_entry. rewrite !row_default. destruct (decide (p' = p)) as [->|Hne].
  - rewrite lookup_insert_eq. simpl. set (l := default [] (m !! p)). clearbody l.
    induction l as [|x l IH]; [done|]. simpl.
    assert (hit k (f x) = hit k x) as ->; [|by destruct (hit k x)].
    apply eq_true_iff_eq. rewrite !hit_spec. by rewrite Hk.
  - by rewrite lookup_insert_ne.
Qed.

(** *** Records grouped by their project *)

Definition add_row m (r : A) : gmap string (list A) := update_entry (project r) (λ rs, rs ++ [r]) m.

Lemma add_rows_lookup l m p :
  default [] (foldl add_row m l !! p) = default [] (m !! p) ++ filter (λ r, project r = p) l.
Proof using.
  revert m. induction l as [|r l IH]; intros m; simpl; [by rewrite app_nil_r|]. rewrite IH.
  unfold add_row, update_entry. rewrite filter_cons. destruct (decide (project r = p)) as [<-|Hne].
  - rewrite lookup_insert_eq. simpl. by rewrite <-app_assoc.
  - by rewrite lookup_insert_ne.
Qed.

(** Records read from a table, grouped and each list sorted. *)
Lemma grouped_rows (le : A → A → bool) (l : list A) :
  (∀ p, NoDup (key <$> filter (λ r, project r = p) l)) →
  let m := sort_by le <$> foldl add_row ∅ l in
  rows_ok m ∧ ∀ p k x, row m p k = Some x ↔ x ∈ l ∧ project x = p ∧ key x = k.
Proof using hit_spec.
  intros Hnd m.
  assert (∀ p x, x ∈ default [] (m !! p) ↔ x ∈ l ∧ project x = p) as Hin.
  { intros p x. unfold m. rewrite lookup_fmap. pose proof (add_rows_lookup l ∅ p) as E.
    destruct (foldl add_row ∅ l !! p) as [rs|]; rewrite lookup_empty in E; simpl in *.
    - rewrite sort_by_elem_of, E, list_elem_of_filter. apply and_comm.
    - rewrite E, list_elem_of_filter. apply and_comm. }
  assert (rows_ok m) as Hm.
  { intros p rs E. pose proof (λ x, Hin p x) as Hp. rewrite E in Hp. simpl in Hp. split.
    - unfold m in E. rewrite lookup_fmap in E. pose proof (add_rows_lookup l ∅ p) as El.
      destruct (foldl add_row ∅ l !! p) as [rs'|]; [|done]. injection E as <-.
      rewrite sort_by_perm. rewrite lookup_empty in El. simpl in El. by rewrite El.
    - apply Forall_forall. intros x Hx. by apply Hp in Hx as [_ ?]. }
  split; [done|]. intros p k x. rewrite row_Some, Hin by done. naive_solver.
Qed.

End rows.


#[export] Hint Resolve rows_ok_empty : trp.

(** ** [sort] and [dedup] *)

Lemma key_le_total x y : key_le x y = false → key_le y x = true.
Proof.
  unfold key_le. rewrite (String.eqb_sym y.1). case_match; apply str_leb_total.
Qed.

Lemma key_le_spec x y : key_le x y = true ↔
  x.1 = y.1 ∧ String.leb x.2 y.2 = true ∨ x.1 ≠ y.1 ∧ String.leb x.1 y.1 = true.
Proof. unfold key_le. destruct (String.eqb_spec x.1 y.1); naive_solver. Qed.

Lemma key_le_antisym x y : key_le x y = true → key_le y x = true → x = y.
Proof.
  rewrite !key_le_spec. destruct x as [x1 x2], y as [y1 y2]; simpl.
  intros [[-> H1]|[Hne H1]] [[E H2]|[? H2]]; try congruence.
  - f_equal. by apply str_leb_antisym.
  - destruct Hne. by apply str_leb_antisym.
Qed.

Lemma key_le_trans x y z : key_le x y = true → key_le y z = true → key_le x z = true.
Proof.
  rewrite !key_le_spec. intros [[E1 H1]|[N1 H1]] [[E2 H2]|[N2 H2]].
  - left. split; [congruence|]. by apply (str_leb_trans _ y.2).
  - right. by rewrite E1.
  - right. by rewrite <-E2.
  - destruct (decide (x.1 = z.1)) as [E|]; [|right; split; [done|by apply (str_leb_trans _ y.1)]].
    rewrite E in *. destruct N1. by apply str_leb_antisym.
Qed.
