(* ===== verification/GovernanceProps.v ===== *)
(** * Governance: what is proved

    The maps in memory against the tables of the store, over any sequence of
    changes and reloads. *)

From S2P Require Import Prelude RecordSet RustStr F64 Json Sql StateResult Auth UsageStore GovernanceStore Governance GovernanceRows.

Local Open Scope string_scope.
Local Open Scope list_scope.
Local Open Scope rust_scope.

(** ** The kinds of rows *)

Definition rule_hit (k : string) (r : RoutingRuleRecord) : bool := String.eqb (rl_rule_id r) k.
Definition tool_hit (k : string) (r : ProjectToolRecord) : bool := String.eqb (pt_tool_name r) k.
Definition version_key (r : ProjectPromptRecord) : string * string := (pm_prompt_name r, pm_version r).
Definition version_hit (k : string * string) (r : ProjectPromptRecord) : bool := is_version k.1 k.2 r.
Definition run_key (r : ProjectPromptRolloutRecord) : string * string := (ro_prompt_name r, ro_rollout_id r).
Definition run_hit (k : string * string) (r : ProjectPromptRolloutRecord) : bool :=
  String.eqb (ro_prompt_name r) k.1 && String.eqb (ro_rollout_id r) k.2.

Lemma rule_hit_spec k r : rule_hit k r = true ↔ rl_rule_id r = k.
Proof. apply String.eqb_eq. Qed.

Lemma tool_hit_spec k r : tool_hit k r = true ↔ pt_tool_name r = k.
Proof. apply String.eqb_eq. Qed.

Lemma version_hit_spec k r : version_hit k r = true ↔ version_key r = k.
Proof.
  unfold version_hit, is_version, version_key. rewrite andb_true_iff, !String.eqb_eq.
  destruct k; simpl. naive_solver.
Qed.

Lemma run_hit_spec k r : run_hit k r = true ↔ run_key r = k.
Proof.
  unfold run_hit, run_key. rewrite andb_true_iff, !String.eqb_eq. destruct k; simpl. naive_solver.
Qed.

#[local] Hint Resolve rule_hit_spec tool_hit_spec version_hit_spec run_hit_spec : trp.

Notation mem_rule g := (row rule_hit (routing_rules g)).
Notation mem_tool g := (row tool_hit (project_tools g)).
Notation mem_prompt g := (row version_hit (project_prompts g)).
Notation mem_rollout g := (row run_hit (project_prompt_rollouts g)).

(** ** Memory and tables *)

(** Every row is filed under its key. *)
Record tables_ok (t : GovTables) : Prop := {
  tk_policies : map_Forall (λ k r, pp_project_id r = k) (t_policies t);
  tk_rules : map_Forall (λ k r, rl_rule_id r = k) (t_rules t);
  tk_safety : map_Forall (λ k r, sp_project_id r = k) (t_safety t);
  tk_semantic : map_Forall (λ k r, sem_project_id r = k) (t_semantic t);
  tk_tools : map_Forall (λ k r, tool_key r = k) (t_tools t);
  tk_prompts : map_Forall (λ k r, prompt_key r = k) (t_prompts t);
  tk_rollouts : map_Forall (λ k r, rollout_key r = k) (t_rollouts t);
}.

Definition rules_sorted (m : gmap string (list RoutingRuleRecord)) : Prop :=
  map_Forall (λ _ l, StronglySorted (λ x y, rule_before x y = true) l) m.

(** Of the versions of a prompt at most one is in use in an environment. *)
Definition one_active (g : GovernanceState) : Prop := ∀ p k k' r r',
  mem_prompt g p k = Some r → mem_prompt g p k' = Some r' → k.1 = k'.1 →
  pm_environment r = pm_environment r' → pm_active r = true → pm_active r' = true → k = k'.

(** The lists in memory are per project and hold one record per key; rules are
    in order, and prompts are in use one version at a time. *)
Record memory_ok (g : GovernanceState) : Prop := {
  mk_rules : rows_ok rl_project_id rl_rule_id (routing_rules g);
  mk_tools : rows_ok pt_project_id pt_tool_name (project_tools g);
  mk_prompts : rows_ok pm_project_id version_key (project_prompts g);
  mk_rollouts : rows_ok ro_project_id run_key (project_prompt_rollouts g);
  mk_sorted : rules_sorted (routing_rules g);
  mk_active : one_active g;
}.

Lemma rule_before_total x y : rule_before x y = false → rule_before y x = true.
Proof.
  unfold rule_before. rewrite (Z.eqb_sym (rl_priority y)). destruct (Z.eqb_spec (rl_priority x) (rl_priority y)).
  - apply str_leb_total.
  - intros ?%Z.ltb_ge. apply Z.ltb_lt. lia.
Qed.

Lemma rule_before_spec x y : rule_before x y = true ↔
  (rl_priority y < rl_priority x)%Z ∨
  rl_priority x = rl_priority y ∧ String.leb (rl_created_at x) (rl_created_at y) = true.
Proof.
  unfold rule_before. destruct (Z.eqb_spec (rl_priority x) (rl_priority y)); [|rewrite Z.ltb_lt]; naive_solver lia.
Qed.

Lemma rule_before_trans x y z : rule_before x y = true → rule_before y z = true → rule_before x z = true.
Proof.
  rewrite !rule_before_spec. intros [|[? E1]] [|[? E2]]; [left; lia..|].
  right. split; [lia|]. by apply (str_leb_trans _ (rl_created_at y)).
Qed.

#[local] Hint Resolve rule_before_total rule_before_trans : trp.

Lemma sorted_rules l : StronglySorted (λ x y, rule_before x y = true) (sort_by rule_before l).
Proof. apply sort_by_StronglySorted; eauto with trp. Qed.

Lemma filter_StronglySorted {A} (R : relation A) (P : A → Prop) `{∀ x, Decision (P x)} l :
  StronglySorted R l → StronglySorted R (filter P l).
Proof.
  induction 1 as [|x l _ IH Hx]; [constructor|]. rewrite filter_cons. case_decide; [|done].
  constructor; [done|]. rewrite Forall_forall in *. intros y [_ Hy]%list_elem_of_filter. by apply Hx.
Qed.

Lemma remove_from_keys_sorted id keys m : rules_sorted m → rules_sorted (remove_from_keys id keys m).1.
Proof.
  revert m. induction keys as [|q keys IH]; intros m Hm; simpl; [done|].
  destruct (m !! q) as [l|] eqn:E; [|by apply IH].
  assert (rules_sorted (<[q := filter (λ r, negb (String.eqb (rl_rule_id r) id) = true) l]> m)) as Hq.
  { apply map_Forall_insert_2; [|done]. apply filter_StronglySorted, (Hm q l E). }
  destruct (negb _); [done|]. by apply IH.
Qed.

(** *** The removal of a rule from whichever project has it *)

Lemma remove_from_keys_spec id keys m :
  rows_ok rl_project_id rl_rule_id m →
  (∀ p, p ∉ keys → row rule_hit m p id = None) →
  (∀ p p', is_Some (row rule_hit m p id) → is_Some (row rule_hit m p' id) → p = p') →
  let m' := (remove_from_keys id keys m).1 in
  rows_ok rl_project_id rl_rule_id m' ∧
  ∀ p k, row rule_hit m' p k = if decide (k = id) then None else row rule_hit m p k.
Proof.
  revert m. induction keys as [|q keys IH]; intros m Hm Hout Huniq; simpl.
  { split; [done|]. intros p k. case_decide as Hk; [|done]. subst. apply Hout, not_elem_of_nil. }
  destruct (m !! q) as [l|] eqn:E; [|apply IH; [done| |done]].
  2:{ intros p Hp. destruct (decide (p = q)) as [->|]; [by rewrite row_default, E|]. apply Hout. set_solver. }
  pose proof (kept_rows_ok rl_project_id rl_rule_id rule_hit m q id l Hm E) as Hok.
  pose proof (λ p k, kept_row _ _ rule_hit rule_hit_spec m q id l p k Hm E) as Hr.
  pose proof (other_rows_length _ _ rule_hit rule_hit_spec m q id l Hm E) as Hl.
  change (filter _ l) with (other_rows rule_hit id l).
  destruct (Nat.eqb_spec (length (other_rows rule_hit id l)) (length l)) as [Hlen|Hlen]; simpl.
  - specialize (Hl Hlen).
    assert (∀ p k, row rule_hit (<[q:=other_rows rule_hit id l]> m) p k = row rule_hit m p k) as Hsame.
    { intros p k. rewrite Hr. by case_decide as Hd; [destruct Hd as [-> ->]|]. }
    destruct (IH (<[q:=other_rows rule_hit id l]> m)) as [I1 I2]; [done| | |].
    + intros p Hp. rewrite Hsame. destruct (decide (p = q)) as [->|]; [done|]. apply Hout. set_solver.
    + intros p p'. rewrite !Hsame. apply Huniq.
    + split; [done|]. intros p k. by rewrite I2, Hsame.
  - split; [done|]. intros p k. rewrite Hr. destruct (decide (k = id)) as [->|]; [|by rewrite decide_False by naive_solver].
    case_decide as Hd; [done|]. destruct (row rule_hit m p id) as [r|] eqn:Ep; [|done]. exfalso. apply Hd.
    split; [|done]. apply Huniq; [by rewrite Ep|]. apply not_eq_None_Some. intros En. apply Hlen. f_equal.
    assert (∀ x, x ∈ l → rl_rule_id x ≠ id) as Hx.
    { rewrite row_default, E in En. by apply (find_key_None _ _ rule_hit_spec). }
    unfold other_rows. clear -Hx. induction l as [|x l IHl]; [done|]. rewrite filter_cons_True.
    + f_equal. apply IHl. intros y Hy. apply Hx. by right.
    + unfold rule_hit. apply negb_true_iff, String.eqb_neq, Hx. by left.
Qed.

Section mirror.
(** The project a routing rule belongs to, by its identifier. *)
Variable owner : string → string.

(** What memory answers is what the tables hold, up to the time stamps the
    database writes; of the rollouts, memory holds only what the table holds. *)
Record agrees (g : GovernanceState) (t : GovTables) : Prop := {
  ag_tables : tables_ok t;
  ag_memory : memory_ok g;
  ag_owner : map_Forall (λ id r, rl_project_id r = owner id) (t_rules t);
  ag_policies : ∀ p, db_policy "" <$> project_policies g !! p = db_policy "" <$> t_policies t !! p;
  ag_safety : ∀ p, db_safety "" <$> safety_policies g !! p = db_safety "" <$> t_safety t !! p;
  ag_semantic : ∀ p, db_semantic "" <$> semantic_policies g !! p = db_semantic "" <$> t_semantic t !! p;
  ag_rules : ∀ p id, mem_rule g p id = if decide (p = owner id) then t_rules t !! id else None;
  ag_tools : ∀ p n, db_tool "" <$> mem_tool g p n = db_tool "" <$> t_tools t !! (p, n);
  ag_prompts : ∀ p n v, db_prompt "" <$> mem_prompt g p (n, v) = db_prompt "" <$> t_prompts t !! (p, n, v);
  ag_rollouts : ∀ p n i r, mem_rollout g p (n, i) = Some r → t_rollouts t !! (p, n, i) = Some r;
}.

Lemma agrees_empty counter : agrees (governance_new counter) gov_empty.
Proof.
  clear. assert (memory_ok (governance_new counter)) by (split; done).
  split; try done. intros p id. by case_decide.
Qed.

(** The counter of changes and the history play no part. *)
Lemma agrees_counter g t c : agrees g t → agrees (g <| change_counter := c |>) t.
Proof. intros [T [] ]. by split. Qed.

Lemma agrees_history g t h : agrees g t → agrees g (t <| t_history := h |>).
Proof. intros [[] M]. by split. Qed.

Lemma lookup_stamped {A K} `{Countable K} (norm : A → A) (m t : gmap K A) k0 x y :
  (∀ k, norm <$> m !! k = norm <$> t !! k) → norm x = norm y →
  ∀ k, norm <$> <[k0 := x]> m !! k = norm <$> <[k0 := y]> t !! k.
Proof.
  intros Hk Hxy k. destruct (decide (k0 = k)) as [<-|]; [by rewrite !lookup_insert_eq; simpl; rewrite Hxy|].
  by rewrite !lookup_insert_ne.
Qed.

Lemma lookup_removed {A K} `{Countable K} (norm : A → A) (m t : gmap K A) k0 :
  (∀ k, norm <$> m !! k = norm <$> t !! k) →
  ∀ k, norm <$> delete k0 m !! k = norm <$> delete k0 t !! k.
Proof.
  intros Hk k. destruct (decide (k0 = k)) as [<-|]; [by rewrite !lookup_delete_eq|].
  by rewrite !lookup_delete_ne.
Qed.

Lemma db_policy_stamp now r : db_policy "" (db_policy now r) = db_policy "" r.
Proof.
  assert (∀ o, db_opt_real (db_opt_real o) = db_opt_real o) as Hr by (by intros [[]|]).
  destruct r. unfold db_policy. cbn. by rewrite !Hr.
Qed.

(** *** What each change does to both *)

Lemma agrees_put_policy g t now r : agrees g t →
  agrees (g <| project_policies := <[pp_project_id r := r]> (project_policies g) |>)
         (t <| t_policies := <[pp_project_id r := db_policy now r]> (t_policies t) |>).
Proof.
  intros [[] [] ]. split; try done; [split; try done; by apply map_Forall_insert_2|].
  apply lookup_stamped; [done|]. by rewrite db_policy_stamp.
Qed.

Lemma agrees_drop_policy g t p : agrees g t →
  agrees (g <| project_policies := delete p (project_policies g) |>)
         (t <| t_policies := delete p (t_policies t) |>).
Proof.
  intros [[] [] ]. split; try done; [split; try done; by apply map_Forall_delete|].
  by apply lookup_removed.
Qed.

Lemma agrees_put_safety g t now r : agrees g t →
  agrees (g <| safety_policies := <[sp_project_id r := r]> (safety_policies g) |>)
         (t <| t_safety := <[sp_project_id r := db_safety now r]> (t_safety t) |>).
Proof.
  intros [[] [] ]. split; try done; [split; try done; by apply map_Forall_insert_2|].
  by apply lookup_stamped.
Qed.

Lemma agrees_drop_safety g t p : agrees g t →
  agrees (g <| safety_policies := delete p (safety_policies g) |>)
         (t <| t_safety := delete p (t_safety t) |>).
Proof.
  intros [[] [] ]. split; try done; [split; try done; by apply map_Forall_delete|].
  by apply lookup_removed.
Qed.

Lemma agrees_put_semantic g t now r : agrees g t →
  agrees (g <| semantic_policies := <[sem_project_id r := r]> (semantic_policies g) |>)
         (t <| t_semantic := <[sem_project_id r := db_semantic now r]> (t_semantic t) |>).
Proof.
  intros [[] [] ]. split; try done; [split; try done; by apply map_Forall_insert_2|].
  by apply lookup_stamped.
Qed.

Lemma agrees_drop_semantic g t p : agrees g t →
  agrees (g <| semantic_policies := delete p (semantic_policies g) |>)
         (t <| t_semantic := delete p (t_semantic t) |>).
Proof.
  intros [[] [] ]. split; try done; [split; try done; by apply map_Forall_delete|].
  by apply lookup_removed.
Qed.

Lemma agrees_put_rule g t r : agrees g t → rl_project_id r = owner (rl_rule_id r) →
  agrees (g <| routing_rules := update_entry (rl_project_id r) (put_rule r) (routing_rules g) |>)
         (t <| t_rules := <[rl_rule_id r := r]> (t_rules t) |>).
Proof.
  intros [[] [] ] Ho. split; try done; simpl.
  - split; try done. by apply map_Forall_insert_2.
  - split; try done; simpl; [by apply (put_rows_ok _ _ _ rule_hit_spec)|].
    apply map_Forall_insert_2; [apply sorted_rules|done].
  - by apply map_Forall_insert_2.
  - intros p id. etrans; [by apply (put_row _ _ _ rule_hit_spec)|].
    destruct (decide (p = rl_project_id r ∧ id = rl_rule_id r)) as [[-> ->]|Hn].
    + by rewrite lookup_insert_eq, decide_True.
    + rewrite ag_rules0. case_decide as Hp; [|done]. rewrite lookup_insert_ne; [done|].
      intros E. apply Hn. split; [by rewrite Hp, Ho, E|done].
Qed.

Lemma agrees_put_tool g t now r : agrees g t →
  agrees (g <| project_tools := update_entry (pt_project_id r) (put_tool r) (project_tools g) |>)
         (t <| t_tools := <[tool_key r := db_tool now r]> (t_tools t) |>).
Proof.
  intros [[] [] ]. split; try done; simpl.
  - split; try done. by apply map_Forall_insert_2.
  - split; try done. by apply (put_rows_ok _ _ _ tool_hit_spec).
  - intros p n. transitivity (db_tool "" <$> if decide (p = pt_project_id r ∧ n = pt_tool_name r)
      then Some r else mem_tool g p n); [f_equal; by apply (put_row _ _ _ tool_hit_spec)|].
    unfold tool_key. destruct (decide _) as [[-> ->]|Hn]; [by rewrite lookup_insert_eq|].
    rewrite lookup_insert_ne by naive_solver. done.
Qed.

Lemma agrees_drop_tool g t p n : agrees g t →
  agrees (remove_project_tool p n g).1 (t <| t_tools := delete (p, n) (t_tools t) |>).
Proof.
  intros [[] [] ]. unfold remove_project_tool.
  pose proof (retain_rows_ok pt_project_id pt_tool_name tool_hit (project_tools g) p n mk_tools0) as Hok.
  pose proof (λ p' n', retain_row pt_project_id pt_tool_name tool_hit tool_hit_spec (project_tools g) p n p' n' mk_tools0) as Hr.
  unfold tool_hit in Hok, Hr at 1. destruct (retain_entry _ _ _) as [m b]. simpl in *.
  split; try done; [split; try done; by apply map_Forall_delete|]. simpl. intros p' n'. rewrite Hr.
  destruct (decide _) as [[-> ->]|Hn]; [by rewrite lookup_delete_eq|]. by rewrite lookup_delete_ne by naive_solver.
Qed.

Lemma agrees_drop_rule g t id : agrees g t →
  agrees (remove_routing_rule id g).1 (t <| t_rules := delete id (t_rules t) |>).
Proof.
  intros [[] [] ]. unfold remove_routing_rule.
  destruct (remove_from_keys_spec id (map_to_list (routing_rules g)).*1 (routing_rules g)) as [Hok Hr]; [done|..].
  - intros p Hp. rewrite row_default. destruct (routing_rules g !! p) as [l|] eqn:E; [|done].
    destruct Hp. apply list_elem_of_fmap. exists (p, l). split; [done|]. by apply elem_of_map_to_list.
  - intros p p' [x Hx] [x' Hx']. rewrite ag_rules0 in Hx, Hx'. by repeat case_decide; subst.
  - pose proof (remove_from_keys_sorted id (map_to_list (routing_rules g)).*1 (routing_rules g) mk_sorted0).
    destruct (remove_from_keys _ _ _) as [m b]. simpl in *. split; try done; simpl.
    + split; try done. by apply map_Forall_delete.
    + by apply map_Forall_delete.
    + intros p k. rewrite Hr, ag_rules0. destruct (decide (k = id)) as [->|].
      * rewrite lookup_delete_eq. by case_decide.
      * by rewrite lookup_delete_ne.
Qed.

Lemma agrees_drop_prompt g t p n v : agrees g t →
  agrees (remove_project_prompt p n v g).1 (t <| t_prompts := delete (p, n, v) (t_prompts t) |>).
Proof.
  intros [[] [] ]. unfold remove_project_prompt.
  pose proof (retain_rows_ok pm_project_id version_key version_hit (project_prompts g) p (n, v) mk_prompts0) as Hok.
  pose proof (λ p' k, retain_row pm_project_id version_key version_hit version_hit_spec (project_prompts g) p (n, v) p' k mk_prompts0) as Hr.
  unfold version_hit in Hok, Hr at 1. simpl in Hok, Hr. destruct (retain_entry _ _ _) as [m b]. simpl in *.
  split; try done; [split; try done; by apply map_Forall_delete|split; try done|]; simpl.
  { intros p' k k' r r'. simpl. rewrite !Hr. intros E E'. case_decide; [done|]. case_decide; [done|].
    by apply (mk_active0 p' k k' r r'). } intros p' n' v'. rewrite Hr.
  destruct (decide (p' = p ∧ _)) as [[-> [= -> ->]]|Hn]; [by rewrite lookup_delete_eq|].
  by rewrite lookup_delete_ne by naive_solver.
Qed.

Lemma agrees_put_rollout g t r : agrees g t →
  agrees (g <| project_prompt_rollouts := update_entry (ro_project_id r) (put_rollout r) (project_prompt_rollouts g) |>)
         (t <| t_rollouts := <[rollout_key r := r]> (t_rollouts t) |>).
Proof.
  intros [[] [] ]. split; try done; simpl.
  - split; try done. by apply map_Forall_insert_2.
  - split; try done. by apply (put_rows_ok _ _ _ run_hit_spec).
  - intros p n i x Hx. assert (Some x = if decide (p = ro_project_id r ∧ (n, i) = run_key r)
      then Some r else mem_rollout g p (n, i)) as E by (rewrite <-Hx; by apply (put_row _ _ _ run_hit_spec)).
    unfold rollout_key. destruct (decide _) as [[-> [= -> ->]]|Hn].
    + rewrite lookup_insert_eq. done.
    + rewrite lookup_insert_ne by (unfold run_key in Hn; naive_solver). by apply ag_rollouts0.
Qed.

(** *** A prompt and those it takes out of use *)

Definition after_upsert (now : Z) (r x : ProjectPromptRecord) : ProjectPromptRecord :=
  if superseded_by r x then deactivated now x else x.

Definition put_prompts (now : Z) (r : ProjectPromptRecord) (g : GovernanceState) : GovernanceState :=
  g <| project_prompts := update_entry (pm_project_id r) (put_prompt now r) (project_prompts g) |>.

Lemma after_upsert_keys now r x :
  pm_project_id (after_upsert now r x) = pm_project_id x ∧ version_key (after_upsert now r x) = version_key x.
Proof. clear owner. unfold after_upsert. by destruct (superseded_by r x). Qed.

Lemma one_active_after now r g p k k' x x' : one_active g →
  (∀ k y, mem_prompt g p k = Some y → k = version_key y) →
  let after k := if decide (p = pm_project_id r ∧ k = version_key r) then Some r
    else if decide (p = pm_project_id r) then after_upsert now r <$> mem_prompt g p k else mem_prompt g p k in
  after k = Some x → after k' = Some x' → k.1 = k'.1 →
  pm_environment x = pm_environment x' → pm_active x = true → pm_active x' = true → k = k'.
Proof.
  clear owner. intros Hone Hkey. cbv zeta.
  (* another version that stays in use is not in the environment of the new one *)
  assert (∀ k y, p = pm_project_id r → k ≠ version_key r → after_upsert now r <$> mem_prompt g p k = Some y →
    k.1 = pm_prompt_name r → pm_environment y = pm_environment r → pm_active r = true → pm_active y = false) as Hout.
  { intros k0 y -> Hk E Hn He Ha. destruct (mem_prompt g _ k0) as [y0|] eqn:E0; [|done]. injection E as <-.
    unfold after_upsert in *. destruct (superseded_by r y0) eqn:Es; [done|].
    specialize (Hkey _ _ E0) as ->. simpl in Hn. unfold superseded_by in Es. rewrite Ha, Hn, He, !String.eqb_refl in Es.
    simpl in Es. destruct (String.eqb_spec (pm_version y0) (pm_version r)) as [Ev|]; [|done].
    destruct Hk. unfold version_key. by rewrite Hn, Ev. }
  assert (∀ y0 y, after_upsert now r <$> y0 = Some y → pm_active y = true → y0 = Some y) as Hstay.
  { intros [y0|] y E Ha; [|done]. injection E as <-. unfold after_upsert in *. by destruct (superseded_by r y0). }
  destruct (decide (p = pm_project_id r)) as [Hp|Hp].
  - destruct (decide (p = pm_project_id r ∧ k = version_key r)) as [[_ ->]|Hk],
      (decide (p = pm_project_id r ∧ k' = version_key r)) as [[_ ->]|Hk']; try done.
    + intros [= <-] E Hn He Ha Ha'. rewrite (Hout k' x') in Ha'; naive_solver.
    + intros E [= <-] Hn He Ha Ha'. rewrite (Hout k x) in Ha; naive_solver.
    + intros E E' Hn He Ha Ha'. apply (Hone p k k' x x'); auto.
  - rewrite !decide_False by naive_solver. apply Hone.
Qed.

Lemma put_prompts_row now r g : memory_ok g →
  memory_ok (put_prompts now r g) ∧
  ∀ p k, mem_prompt (put_prompts now r g) p k =
    if decide (p = pm_project_id r ∧ k = version_key r) then Some r
    else if decide (p = pm_project_id r) then after_upsert now r <$> mem_prompt g p k else mem_prompt g p k.
Proof.
  clear owner. intros []. unfold put_prompts; simpl.
  assert (update_entry (pm_project_id r) (put_prompt now r) (project_prompts g) =
    update_entry (pm_project_id r) (λ l, sort_by prompt_before (replace_or_push (version_hit (version_key r)) r l))
      (update_entry (pm_project_id r) (fmap (after_upsert now r)) (project_prompts g))) as ->.
  { unfold update_entry. by rewrite lookup_insert_eq, insert_insert_eq. }
  pose proof (λ x, proj1 (after_upsert_keys now r x)) as H1. pose proof (λ x, proj2 (after_upsert_keys now r x)) as H2.
  pose proof (map_rows_ok pm_project_id version_key (project_prompts g) (pm_project_id r) _ mk_prompts0 H1 H2) as Hm.
  assert (∀ p k, row version_hit (update_entry (pm_project_id r)
      (λ l, sort_by prompt_before (replace_or_push (version_hit (version_key r)) r l))
      (update_entry (pm_project_id r) (fmap (after_upsert now r)) (project_prompts g))) p k =
    if decide (p = pm_project_id r ∧ k = version_key r) then Some r
    else if decide (p = pm_project_id r) then after_upsert now r <$> mem_prompt g p k else mem_prompt g p k) as Hrow.
  { intros p k. simpl. rewrite (put_row _ _ _ version_hit_spec) by done. case_decide; [done|].
    by apply (map_row pm_project_id version_key version_hit version_hit_spec). }
  split; [|done]. split; try done; simpl; [by apply (put_rows_ok _ _ _ version_hit_spec)|].
  intros p k k' x x'. simpl. rewrite !Hrow. apply one_active_after; [done|].
  intros k0 y E. by apply (row_keys pm_project_id version_key version_hit version_hit_spec _ _ _ _ mk_prompts0) in E as [_ <-].
Qed.

Definition taken_out (now : Z) (r : ProjectPromptRecord) (g : GovernanceState) : list ProjectPromptRecord :=
  deactivated now <$> filter (λ p, superseded_by r p = true) (default [] (project_prompts g !! pm_project_id r)).

Lemma taken_out_spec now r g x : memory_ok g →
  x ∈ taken_out now r g ↔
  ∃ y, mem_prompt g (pm_project_id r) (version_key y) = Some y ∧ superseded_by r y = true ∧ x = deactivated now y.
Proof.
  clear owner. intros []. unfold taken_out. rewrite list_elem_of_fmap. apply exist_proper. intros y.
  rewrite list_elem_of_filter, (row_Some pm_project_id version_key version_hit version_hit_spec) by done. naive_solver.
Qed.

Lemma taken_out_keys now r g : memory_ok g → NoDup (prompt_key <$> taken_out now r g).
Proof.
  clear owner. intros []. unfold taken_out. rewrite <-list_fmap_compose.
  destruct (rows_ok_default pm_project_id version_key _ (pm_project_id r) mk_prompts0) as [Hnd Hp].
  assert (∀ l, NoDup (version_key <$> l) → NoDup (prompt_key ∘ deactivated now <$> l)) as Hk.
  { induction l as [|x l IH]; simpl; [constructor|]. rewrite !NoDup_cons. intros [Hx Hl]. split; [|by apply IH].
    contradict Hx. apply list_elem_of_fmap in Hx as (y & E & Hy). apply list_elem_of_fmap. exists y.
    split; [|done]. unfold prompt_key in E. simpl in E. unfold version_key. congruence. }
  apply Hk. by apply filter_keys.
Qed.

Lemma agrees_put_prompt g t now r stamp tm : agrees g t →
  (∀ x, x ∈ taken_out now r g → db_prompt "" <$> tm !! prompt_key x = Some (db_prompt "" x)) →
  (∀ k, (∀ x, x ∈ taken_out now r g → prompt_key x ≠ k) → tm !! k = t_prompts t !! k) →
  map_Forall (λ k r, prompt_key r = k) tm →
  agrees (put_prompts now r g) (t <| t_prompts := <[prompt_key r := db_prompt stamp r]> tm |>).
Proof.
  intros [[] Hmem ] Hin Hout Hk. destruct (put_prompts_row now r g Hmem) as [Hmem' Hrow].
  pose proof (taken_out_spec now r g) as Hspec.
  split; try done; simpl; [split; try done; by apply map_Forall_insert_2|].
  intros p n v. rewrite Hrow. unfold prompt_key at 1.
  destruct (decide (p = pm_project_id r ∧ (n, v) = version_key r)) as [[-> [= -> ->]]|Hne].
  { by rewrite lookup_insert_eq. }
  rewrite lookup_insert_ne by (unfold version_key in Hne; naive_solver).
  assert (∀ x y, mem_prompt g (pm_project_id r) (version_key y) = Some y →
    x = deactivated now y → prompt_key x = (p, n, v) → p = pm_project_id r ∧ version_key y = (n, v)) as Hkey.
  { intros x y Hy -> E. apply (row_keys pm_project_id version_key version_hit version_hit_spec) in Hy as [Hp _]; [|by apply Hmem].
    unfold prompt_key in E. simpl in E. unfold version_key. by simplify_eq. }
  assert (p ≠ pm_project_id r ∨ (∀ x, mem_prompt g p (n, v) = Some x → superseded_by r x = false) →
    tm !! (p, n, v) = t_prompts t !! (p, n, v)) as Hsame.
  { intros Hcase. apply Hout. intros x Hx E. apply Hspec in Hx as (y & Hy & Hs & ->); [|done].
    destruct (Hkey _ _ Hy eq_refl E) as [-> Ev]. destruct Hcase as [|Hc]; [done|].
    rewrite Ev in Hy. specialize (Hc y Hy). congruence. }
  case_decide as Hp; [subst p|by rewrite Hsame by (by left)].
  destruct (mem_prompt g (pm_project_id r) (n, v)) as [y|] eqn:Ey.
  - destruct (superseded_by r y) eqn:Es.
    + destruct (row_keys pm_project_id version_key version_hit version_hit_spec _ _ _ _ (mk_prompts _ Hmem) Ey) as [E1 E2].
      assert (deactivated now y ∈ taken_out now r g) as Hy by (apply Hspec; [done|exists y; by rewrite E2]).
      apply Hin in Hy. unfold prompt_key in Hy. simpl in Hy. rewrite E1 in Hy.
      injection E2 as E2 E3. rewrite E2, E3 in Hy. rewrite Hy. simpl. unfold after_upsert. by rewrite Es.
    + rewrite Hsame by (right; intros x [= <-]; done). rewrite <-ag_prompts0, Ey. simpl.
      unfold after_upsert. by rewrite Es.
  - rewrite Hsame by (by right). by rewrite <-ag_prompts0, Ey.
Qed.

(** *** A reload *)

Record LoadedRows := {
  ld_policies : list ProjectPolicyRecord;
  ld_rules : list RoutingRuleRecord;
  ld_safety : list SafetyPolicyRecord;
  ld_semantic : list ProjectSemanticPolicyRecord;
  ld_tools : list ProjectToolRecord;
  ld_prompts : list ProjectPromptRecord;
  ld_rollouts : list ProjectPromptRolloutRecord;
}.

(** Memory as the rows that were read make it. *)
Definition loaded (g : GovernanceState) (l : LoadedRows) : GovernanceState :=
  {| project_policies := insert_records pp_project_id (ld_policies l);
     routing_rules := sort_by rule_before <$> group_by_project rl_project_id (ld_rules l);
     safety_policies := insert_records sp_project_id (ld_safety l);
     semantic_policies := insert_records sem_project_id (ld_semantic l);
     project_tools := sort_by tool_before <$> group_by_project pt_project_id (ld_tools l);
     project_prompts := sort_by prompt_before <$> group_by_project pm_project_id (ld_prompts l);
     project_prompt_rollouts := sort_by rollout_before <$> group_by_project ro_project_id (ld_rollouts l);
     provider_stats := provider_stats g; change_counter := change_counter g |}.

Lemma project_keys {A K F} (project : A → string) (key : A → K) (full : A → F) l p :
  (∀ x y, project x = project y → key x = key y → full x = full y) →
  NoDup (full <$> l) → NoDup (key <$> filter (λ r, project r = p) l).
Proof.
  clear owner. intros Hinj. induction l as [|x l IH]; [constructor|]. rewrite fmap_cons, NoDup_cons, filter_cons.
  intros [Hx Hl]. case_decide as Hp; [|by apply IH]. rewrite fmap_cons. constructor; [|by apply IH].
  contradict Hx. apply list_elem_of_fmap in Hx as (y & E & [Hy Hin]%list_elem_of_filter).
  apply list_elem_of_fmap. exists y. split; [|done]. apply Hinj; [congruence|done].
Qed.

Lemma agrees_loaded g1 g t l : agrees g t →
  ld_policies l ≡ₚ rows (t_policies t) → ld_rules l ≡ₚ rows (t_rules t) →
  ld_safety l ≡ₚ rows (t_safety t) → ld_semantic l ≡ₚ rows (t_semantic t) →
  ld_tools l ≡ₚ rows (t_tools t) → ld_prompts l ≡ₚ rows (t_prompts t) →
  NoDup (rollout_key <$> ld_rollouts l) → (∀ x, x ∈ ld_rollouts l → x ∈ rows (t_rollouts t)) →
  agrees (loaded g1 l) t.
Proof.
  intros [T M Ho _ _ _ _ _ Hprompts _] P1 P2 P3 P4 P5 P6 Hnd P7. pose proof T as [].
  destruct (grouped_rows rl_project_id rl_rule_id _ rule_hit_spec rule_before (ld_rules l)) as [M1 R1].
  { intros p. apply (project_keys _ _ rl_rule_id); [done|]. rewrite P2. by apply rows_NoDup. }
  destruct (grouped_rows pt_project_id pt_tool_name _ tool_hit_spec tool_before (ld_tools l)) as [M2 R2].
  { intros p. apply (project_keys _ _ tool_key); [unfold tool_key; congruence|]. rewrite P5. by apply rows_NoDup. }
  destruct (grouped_rows pm_project_id version_key _ version_hit_spec prompt_before (ld_prompts l)) as [M3 R3].
  { intros p. apply (project_keys _ _ prompt_key); [unfold prompt_key, version_key; congruence|].
    rewrite P6. by apply rows_NoDup. }
  destruct (grouped_rows ro_project_id run_key _ run_hit_spec rollout_before (ld_rollouts l)) as [M4 R4].
  { intros p. apply (project_keys _ _ rollout_key); [unfold rollout_key, run_key; congruence|done]. }
  assert (∀ p n v, mem_prompt (loaded g1 l) p (n, v) = t_prompts t !! (p, n, v)) as Hload.
  { intros p n v. apply option_eq. intros x. etrans; [apply R3|].
    rewrite P6, (elem_of_rows_filed prompt_key) by done. unfold version_key. split.
    + by intros (Hx & <- & [= <- <-]).
    + intros Hx. pose proof (tk_prompts0 _ _ Hx) as E. unfold prompt_key in *. by simplify_eq. }
  split; try done; simpl.
  - split; try done; simpl.
    + apply map_Forall_fmap. intros p rs _. apply sorted_rules.
    + intros p [n v] [n' v'] r r'. rewrite !Hload. intros E E' Hn He Ha Ha'. simpl in Hn. subst n'.
      pose proof (Hprompts p n v) as H1. pose proof (Hprompts p n v') as H2. rewrite E in H1. rewrite E' in H2.
      destruct (mem_prompt g p (n, v)) as [y|] eqn:Ey; [|done]. destruct (mem_prompt g p (n, v')) as [y'|] eqn:Ey'; [|done].
      simpl in H1, H2. apply (inj Some) in H1, H2.
      apply (mk_active _ M p (n, v) (n, v') y y'); try done.
      * apply (f_equal pm_environment) in H1, H2. simpl in *. congruence.
      * apply (f_equal pm_active) in H1. simpl in *. congruence.
      * apply (f_equal pm_active) in H2. simpl in *. congruence.
  - intros p. unfold insert_records. by rewrite (insert_all_rows _ (t_policies t)).
  - intros p. unfold insert_records. by rewrite (insert_all_rows _ (t_safety t)).
  - intros p. unfold insert_records. by rewrite (insert_all_rows _ (t_semantic t)).
  - intros p id. apply option_eq. intros x. etrans; [apply R1|]. rewrite P2, (elem_of_rows_filed rl_rule_id) by done.
    split.
    + intros (Hx & <- & <-). rewrite decide_True; [done|]. by apply Ho.
    + case_decide as Hp; [|done]. intros Hx. subst p. rewrite (tk_rules0 _ _ Hx), (Ho _ _ Hx). done.
  - intros p n. f_equal. apply option_eq. intros x. etrans; [apply R2|].
    rewrite P5, (elem_of_rows_filed tool_key) by done. split.
    + by intros (Hx & <- & <-).
    + intros Hx. pose proof (tk_tools0 _ _ Hx) as E. unfold tool_key in *. by simplify_eq.
  - intros p n v. by rewrite <-Hload.
  - intros p n i x Hx. apply R4 in Hx as (Hx & <- & [= <- <-]). apply P7 in Hx.
    by apply (elem_of_rows_filed rollout_key) in Hx.
Qed.

End mirror.

(** ** The calls *)

Inductive GovCall :=
| UpsertPolicy (r : ProjectPolicyRecord)
| DeletePolicy (project_id : string)
| UpsertSafety (r : SafetyPolicyRecord)
| DeleteSafety (project_id : string)
| UpsertSemantic (r : ProjectSemanticPolicyRecord)
| DeleteSemantic (project_id : string)
| UpsertRule (r : RoutingRuleRecord)
| DeleteRule (rule_id : string)
| UpsertTool (r : ProjectToolRecord)
| DeleteTool (project_id tool_name : string)
| UpsertPrompt (r : ProjectPromptRecord)
| DeletePrompt (project_id prompt_name version : string)
| UpsertRollout (r : ProjectPromptRolloutRecord)
| Reload.

Section calls.
Context `{SerdeJson} {St : Type} `{GovernanceStoreOk St}.

Notation State := (GovernanceState * option St)%type.
Notation Op := (ST State StoreError).

Definition gov_call (now : Z) (c : GovCall) : Op () :=
  match c with
  | UpsertPolicy r => upsert_project_policy now r
  | DeletePolicy p => _ ← delete_project_policy now p; mret ()
  | UpsertSafety r => upsert_safety_policy now r
  | DeleteSafety p => _ ← delete_safety_policy now p; mret ()
  | UpsertSemantic r => upsert_semantic_policy now r
  | DeleteSemantic p => _ ← delete_semantic_policy now p; mret ()
  | UpsertRule r => upsert_routing_rule now r
  | DeleteRule id => _ ← delete_routing_rule now id; mret ()
  | UpsertTool r => upsert_project_tool now r
  | DeleteTool p n => _ ← delete_project_tool now p n; mret ()
  | UpsertPrompt r => upsert_project_prompt now r
  | DeletePrompt p n v => _ ← delete_project_prompt now p n v; mret ()
  | UpsertRollout r => upsert_project_prompt_rollout r
  | Reload => load_from_store
  end.

Section steps.
Variable owner : string → string.

Definition in_step (s : State) : Prop := ∃ st, s.2 = Some st ∧ agrees owner s.1 (gov_tables st).

Lemma gov_store_run {A} (call : St → St * result StoreError A) g st :
  gov_store call (g, Some st) = ((g, Some (call st).1), result_map Some (call st).2).
Proof. clear owner. unfold gov_store. simpl. by destruct (call st). Qed.

Lemma history_in_step now p ty id action before after :
  preserves in_step (record_governance_change (St := St) now p ty id action before after).
Proof.
  intros [g o] (st & Ho & Hag). simpl in *. subst o. unfold record_governance_change, mbind, ST_bind.
  unfold gov_store. simpl. match goal with |- context [append_governance_change st ?c] =>
    destruct (append_governance_change st c) as [st' r] eqn:E; apply write_change in E end.
  assert (in_step (g <| change_counter := wrap64 (change_counter g + 1) |>, Some st')) as Hin.
  { exists st'. split; [done|]. apply agrees_counter. simpl. rewrite E. by destruct r; [apply agrees_history|]. }
  by destruct r.
Qed.

(** The tables a failed statement leaves. *)
Definition failure_keeps {A} (call : St → St * result StoreError A) : Prop :=
  ∀ st st' e, call st = (st', Err e) → gov_tables st' = gov_tables st.

(** Store, then memory, then history. *)
Lemma upsert_in_step (call : St → St * result StoreError ()) f (m : Op ()) :
  failure_keeps call →
  (∀ g st st', agrees owner g (gov_tables st) → call st = (st', Ok ()) →
     agrees owner (f g) (gov_tables st')) →
  preserves in_step m →
  preserves in_step (_ ← gov_store call; _ ← gov_modify f; m).
Proof.
  intros Hfail Hok Hm [g o] (st & Ho & Hag). simpl in *. subst o.
  erewrite ST_bind_step by apply gov_store_run. destruct (call st) as [st' [[]|e]] eqn:E; simpl.
  - apply Hm. exists st'. split; [done|]. by eapply Hok.
  - exists st'. split; [done|]. simpl. by rewrite (Hfail _ _ _ E).
Qed.

Lemma delete_policy_in_step now p (call : St → string → St * result StoreError bool) known forget ty id before :
  failure_keeps (λ st, call st p) →
  (∀ g st st' b, agrees owner g (gov_tables st) → call st p = (st', Ok b) →
     agrees owner (forget g) (gov_tables st')) →
  preserves in_step (delete_policy_with now p call known forget ty id before).
Proof.
  intros Hfail Hok. unfold delete_policy_with. apply preserves_bind; [apply preserves_get|]. intros _.
  intros [g o] (st & Ho & Hag). simpl in *. subst o.
  erewrite ST_bind_step by apply gov_store_run. destruct (call st p) as [st' [b|e]] eqn:E; simpl.
  - assert (∀ deleted, preserves in_step (_ ← (if deleted : bool
      then record_governance_change now p ty id "delete" before None else mret ()); mret deleted)) as Hd.
    { intros deleted. apply preserves_bind; [destruct deleted; [apply history_in_step|apply preserves_ret]|].
      intros _. apply preserves_ret. }
    apply Hd. exists st'. split; [done|]. by eapply Hok.
  - exists st'. split; [done|]. simpl. by rewrite (Hfail _ _ _ E).
Qed.

Lemma delete_row_in_step now p ty id (call : St → St * result StoreError bool) forget before :
  failure_keeps call →
  (∀ g st st' b, agrees owner g (gov_tables st) → call st = (st', Ok b) →
     agrees owner (if b then (forget g).1 else g) (gov_tables st')) →
  preserves in_step (delete_row_with now p ty id call forget before).
Proof.
  intros Hfail Hok. unfold delete_row_with. intros [g o] (st & Ho & Hag). simpl in *. subst o.
  erewrite ST_bind_step by apply gov_store_run. destruct (call st) as [st' [b|e]] eqn:E; simpl.
  - assert (∀ deleted, preserves in_step (_ ← (if deleted : bool
      then record_governance_change now p ty id "delete" before None else mret ()); mret deleted)) as Hd.
    { intros deleted. apply preserves_bind; [destruct deleted; [apply history_in_step|apply preserves_ret]|].
      intros _. apply preserves_ret. }
    specialize (Hok g st st' b Hag E). destruct b; apply Hd; by exists st'.
  - exists st'. split; [done|]. simpl. by rewrite (Hfail _ _ _ E).
Qed.

(** What was not in a table is not missed. *)
Lemma delete_affected {K A} `{Countable K} (k : K) (m : gmap K A) :
  affected k m = false → delete k m = m.
Proof. clear owner. intros Ha%bool_decide_eq_false. apply delete_id, eq_None_not_Some, Ha. Qed.

(** Reads the contract of a statement off its run. *)
Ltac by_contract lem :=
  let E := fresh "E" in
  unfold failure_keeps; intros; match goal with E0 : _ = (_, _) |- _ => rename E0 into E end; apply lem in E; cbn in E.

Lemma upsert_rule_in_step now r : rl_project_id r = owner (rl_rule_id r) →
  preserves in_step (upsert_routing_rule (St := St) now r).
Proof.
  intros Ho. apply preserves_bind; [apply preserves_get|]. intros ?. apply upsert_in_step.
  - by_contract write_rule. done.
  - intros g st st' Hag E. apply write_rule in E. rewrite E. by apply agrees_put_rule.
  - apply history_in_step.
Qed.

Lemma delete_rule_in_step now id : preserves in_step (delete_routing_rule (St := St) now id).
Proof.
  intros [g o] (st & Ho & Hag). simpl in *. subst o. unfold delete_routing_rule.
  erewrite ST_bind_step by reflexivity. cbn iota.
  erewrite ST_bind_step by apply gov_store_run. cbv beta.
  destruct (delete_rule_row st id) as [st' [b|e]] eqn:E; cbn;
    apply remove_rule in E as [Et Eb]; simpl in Et.
  - specialize (Eb b eq_refl).
    assert (∀ (m : Op ()), preserves in_step m → preserves in_step (_ ← m; mret b)) as Hk.
    { intros m Hm. apply preserves_bind; [done|]. intros _. apply preserves_ret. }
    destruct b.
    + apply Hk; [case_match; [apply history_in_step|apply preserves_ret]|]. exists st'. split; [done|].
      simpl. rewrite Et. by apply agrees_drop_rule.
    + apply Hk; [apply preserves_ret|]. exists st'. split; [done|]. simpl. rewrite Et.
      rewrite delete_affected by done. by destruct (gov_tables st).
  - exists st'. split; [done|]. simpl. by rewrite Et.
Qed.

(** The rows a prompt takes out of use, written one by one. *)
Lemma write_taken_out l g st s' : NoDup (prompt_key <$> l) →
  st_for l (λ r, _ ← gov_store (λ st, upsert_prompt_row st r); mret ()) (g, Some st) = (s', Ok ()) →
  filed prompt_key (t_prompts (gov_tables st)) →
  ∃ st' tm, s' = (g, Some st') ∧ gov_tables st' = gov_tables st <| t_prompts := tm |> ∧
    filed prompt_key tm ∧
    (∀ x, x ∈ l → db_prompt "" <$> tm !! prompt_key x = Some (db_prompt "" x)) ∧
    (∀ k, (∀ x, x ∈ l → prompt_key x ≠ k) → tm !! k = t_prompts (gov_tables st) !! k).
Proof.
  clear owner. revert st. induction l as [|r l IH]; intros st Hnd E Hf.
  { injection E as <-. exists st, (t_prompts (gov_tables st)). split_and!; try done; [by destruct (gov_tables st)|].
    intros x Hx. by apply elem_of_nil in Hx. }
  rewrite fmap_cons in Hnd. apply NoDup_cons in Hnd as [Hr Hnd]. cbn [st_for] in E.
  apply ST_bind_ok in E as (s1 & [] & E1 & E). apply ST_bind_ok in E1 as (s2 & o & E1 & [= <-]).
  rewrite gov_store_run in E1. cbv beta in E1. destruct (upsert_prompt_row st r) as [st1 [[]|]] eqn:Ew; [|done].
  injection E1 as <- _. apply write_prompt in Ew as [now' Ew]. simpl in Ew.
  apply IH in E as (st' & tm & -> & Et & Htf & Hin & Hout); [|done|].
  2:{ rewrite Ew. by apply map_Forall_insert_2. }
  exists st', tm. split_and!; [done|by rewrite Et, Ew|done|..].
  - intros x [->|Hx]%elem_of_cons; [|by apply Hin]. rewrite Hout.
    + rewrite Ew. simpl. by rewrite lookup_insert_eq.
    + intros y Hy E. apply Hr. rewrite <-E. by apply list_elem_of_fmap_2.
  - intros k Hk. rewrite Hout by (intros x Hx; apply Hk; by right). rewrite Ew. simpl.
    rewrite lookup_insert_ne; [done|]. apply Hk. by left.
Qed.

Lemma upsert_prompt_in_step now r s s' : in_step s →
  upsert_project_prompt (St := St) now r s = (s', Ok ()) → in_step s'.
Proof.
  destruct s as [g o]. intros (st & Ho & Hag) E. simpl in *. subst o. unfold upsert_project_prompt in E.
  erewrite ST_bind_step in E by reflexivity. cbn iota zeta in E.
  erewrite ST_bind_step in E by reflexivity. cbn iota in E. simpl fst in E.
  apply ST_bind_ok in E as (s1 & [] & E1 & E). change (fmap _ (filter _ _)) with (taken_out now r g) in E, E1.
  pose proof Hag as [Ht Hm]. change (g <| project_prompts := _ |>) with (put_prompts now r g) in E1.
  apply write_taken_out in E1 as (st1 & tm & -> & Et & Hf & Hin & Hout); [|by apply taken_out_keys|by apply Ht].
  apply ST_bind_ok in E as (s2 & o & E1 & E). rewrite gov_store_run in E1. cbv beta in E1.
  destruct (upsert_prompt_row st1 r) as [st2 [[]|]] eqn:Ew; [|done]. injection E1 as <- _.
  apply write_prompt in Ew as [stamp Ew]. simpl in Ew.
  assert (in_step (put_prompts now r g, Some st2)) as H2.
  { exists st2. split; [done|]. simpl. rewrite Ew, Et. simpl.
    change (agrees owner (put_prompts now r g)
      (gov_tables st <| t_prompts := <[prompt_key r := db_prompt stamp r]> tm |>)). by apply agrees_put_prompt. }
  assert (∀ m : Op (), preserves in_step m → ∀ s s', in_step s → m s = (s', Ok ()) → in_step s') as Hp.
  { intros m Hpm s0 s0' Hs0 E0. specialize (Hpm s0 Hs0). by rewrite E0 in Hpm. }
  apply ST_bind_ok in E as (s3 & [] & E3 & E).
  eapply (Hp _ (history_in_step _ _ _ _ _ _ _)); [|exact E].
  eapply Hp; [|exact H2|exact E3]. apply preserves_for. intros x _. apply history_in_step.
Qed.

(** *** Loading *)

Lemma read_ok {A B} (q : St → St * result StoreError A) (k : option A → Op B) g st s' b :
  (gov_store q ≫= k) (g, Some st) = (s', Ok b) →
  ∃ st' l, q st = (st', Ok l) ∧ k (Some l) (g, Some st') = (s', Ok b).
Proof.
  clear owner. erewrite ST_bind_step by apply gov_store_run. cbv beta.
  destruct (q st) as [st' [l|e]]; cbn; [|done]. by exists st', l.
Qed.

Lemma load_rollouts_spec keys g st s' :
  load_rollouts keys (g, Some st) = (s', Ok ()) → filed rollout_key (t_rollouts (gov_tables st)) →
  ∃ st' l, s' = (g <| project_prompt_rollouts :=
      foldl (add_row ro_project_id) (project_prompt_rollouts g) l |>, Some st') ∧
    gov_tables st' = gov_tables st ∧
    (∀ x, x ∈ l → x ∈ rows (t_rollouts (gov_tables st)) ∧ (ro_project_id x, ro_prompt_name x) ∈ keys) ∧
    (NoDup keys → NoDup (rollout_key <$> l)).
Proof.
  clear owner. revert g st. induction keys as [|[p n] keys IH]; intros g st E Hf; cbn [load_rollouts] in E.
  { injection E as <-. exists st, []. split_and!; [by destruct g|done|set_solver|constructor]. }
  apply read_ok in E as (st1 & l1 & E1 & E). apply read_rollouts in E1 as [Et Hl1]. specialize (Hl1 l1 eq_refl).
  assert (∀ x, x ∈ l1 ↔ x ∈ rows (t_rollouts (gov_tables st)) ∧ (ro_project_id x, ro_prompt_name x) = (p, n)) as Hin1.
  { intros x. rewrite Hl1. unfold prompt_rollouts_query.
    rewrite sort_by_elem_of, list_elem_of_filter, andb_true_iff, !String.eqb_eq. naive_solver. }
  apply IH in E as (st' & l & -> & Et' & Hin & Hnd); [|by rewrite Et]. rewrite Et in Et', Hin.
  exists st', (l1 ++ l). split_and!; [|done|..].
  - simpl. by rewrite foldl_app.
  - intros x [Hx|Hx]%elem_of_app.
    + apply Hin1 in Hx as [? ->]. split; [done|by left].
    + apply Hin in Hx as [? ?]. split; [done|by right].
  - intros [Hp Hk]%NoDup_cons. rewrite fmap_app. apply NoDup_app. split_and!; [..|by apply Hnd].
    + rewrite Hl1. unfold prompt_rollouts_query. rewrite sort_by_perm.
      apply filter_keys. by apply rows_NoDup.
    + intros k (x & -> & Hx)%list_elem_of_fmap (y & E & Hy)%list_elem_of_fmap.
      apply Hin1 in Hx as [_ Hx]. apply Hin in Hy as [_ Hy]. apply Hp. rewrite <-Hx.
      unfold rollout_key in E. by injection E as -> -> _.
Qed.

Lemma get_run {B} (k : State → Op B) s : (st_get ≫= k) s = k s s.
Proof. clear owner. reflexivity. Qed.

Lemma modify_run {B} f (k : () → Op B) g o : (gov_modify f ≫= k) (g, o) = k () (f g, o).
Proof. clear owner. reflexivity. Qed.

(** Whatever memory held: loading makes it agree with tables that some memory
    agreed with. *)
Lemma load_agrees g1 g st s' : agrees owner g (gov_tables st) →
  load_from_store (St := St) (g1, Some st) = (s', Ok ()) →
  ∃ st', s'.2 = Some st' ∧ gov_tables st' = gov_tables st ∧ agrees owner s'.1 (gov_tables st).
Proof.
  intros Hag E. unfold load_from_store in E.
  pose proof Hag as [Ht _ How]. rewrite get_run in E. cbn [snd] in E.
  rewrite modify_run in E.
  apply read_ok in E as (st1 & l1 & Q1 & E). rewrite modify_run in E.
  apply read_ok in E as (st2 & l2 & Q2 & E). rewrite modify_run in E.
  apply read_ok in E as (st3 & l3 & Q3 & E). rewrite modify_run in E.
  apply read_ok in E as (st4 & l4 & Q4 & E). rewrite modify_run in E.
  apply read_ok in E as (st5 & l5 & Q5 & E). rewrite modify_run in E.
  apply read_ok in E as (st6 & l6 & Q6 & E). rewrite modify_run in E.
  apply read_policies in Q1 as [T1 P1]. apply read_rules in Q2 as [T2 P2]. apply read_safety in Q3 as [T3 P3].
  apply read_semantic in Q4 as [T4 P4]. apply read_tools in Q5 as [T5 P5]. apply read_prompts in Q6 as [T6 P6].
  specialize (P1 _ eq_refl). specialize (P2 _ eq_refl). specialize (P3 _ eq_refl).
  specialize (P4 _ eq_refl). specialize (P5 _ eq_refl). specialize (P6 _ eq_refl).
  assert (gov_tables st6 = gov_tables st) as T by congruence.
  rewrite T1 in P2. rewrite T2, T1 in P3. rewrite T3, T2, T1 in P4. rewrite T4, T3, T2, T1 in P5.
  rewrite T5, T4, T3, T2, T1 in P6.
  apply ST_bind_ok in E as (s1 & [] & E1 & E). apply load_rollouts_spec in E1 as (st' & l7 & -> & T7 & P7 & N7).
  2:{ rewrite T. apply Ht. }
  rewrite T in T7, P7. injection E as <-. exists st'. split_and!; [done..|]. simpl default in *.
  apply (agrees_loaded owner g1 g (gov_tables st) {| ld_policies := l1; ld_rules := l2; ld_safety := l3;
    ld_semantic := l4; ld_tools := l5; ld_prompts := l6; ld_rollouts := l7 |}); simpl; try done.
  - apply N7. apply (dedup_sorted_NoDup key_le); [apply key_le_antisym|].
    apply sort_by_StronglySorted; [apply key_le_total|apply key_le_trans].
  - intros x Hx. by apply P7.
Qed.

Lemma load_in_step s s' : in_step s → load_from_store (St := St) s = (s', Ok ()) → in_step s'.
Proof.
  destruct s as [g o]. intros (st & Ho & Hag) E. simpl in *. subst o.
  destruct (load_agrees _ _ _ _ Hag E) as (st' & ? & Et & ?). exists st'. by rewrite Et.
Qed.

(** *** Any sequence of calls *)

(** A rule keeps its project. *)
Definition rule_stays (c : GovCall) : Prop :=
  match c with UpsertRule r => rl_project_id r = owner (rl_rule_id r) | _ => True end.

(** The calls that change memory before the store has answered. *)
Definition fragile (c : GovCall) : Prop :=
  match c with UpsertPrompt _ | Reload => True | _ => False end.

(** Calls one after the other, whatever they answer; those that change memory
    first are not interrupted by the store. *)
Inductive gov_trace : list (Z * GovCall) → State → State → Prop :=
| trace_nil s : gov_trace [] s s
| trace_call now c calls s s' s'' r :
    gov_call now c s = (s', r) → (fragile c → r = Ok ()) →
    gov_trace calls s' s'' → gov_trace ((now, c) :: calls) s s''.

Lemma drop_result {A} (m : Op A) : preserves in_step m → preserves in_step (_ ← m; mret ()).
Proof. intros Hm. apply preserves_bind; [done|]. intros _. apply preserves_ret. Qed.

Lemma steady_call_in_step now c : rule_stays c → ¬ fragile c → preserves in_step (gov_call now c).
Proof.
  intros Hr Hf.
  assert (∀ (k : State → Op ()), (∀ s, preserves in_step (k s)) → preserves in_step (s ← st_get; k s)) as Hget.
  { intros k Hk. apply preserves_bind; [apply preserves_get|done]. }
  destruct c as [r|p|r|p|r|p|r|id|r|p n|r|p n v|r|]; simpl in Hf; try (by destruct Hf); cbn [gov_call].
  - apply Hget. intros ?. apply upsert_in_step; [by_contract write_policy; by destruct E|..|apply history_in_step].
    intros g st st' Hag [now' ->]%write_policy. by apply agrees_put_policy.
  - apply drop_result. apply preserves_bind; [apply preserves_get|]. intros ?.
    apply delete_policy_in_step; [by_contract remove_policy; by destruct E|].
    intros g st st' b Hag [-> _]%remove_policy. by apply agrees_drop_policy.
  - apply Hget. intros ?. apply upsert_in_step; [by_contract write_safety; by destruct E|..|apply history_in_step].
    intros g st st' Hag [now' ->]%write_safety. by apply agrees_put_safety.
  - apply drop_result. apply preserves_bind; [apply preserves_get|]. intros ?.
    apply delete_policy_in_step; [by_contract remove_safety; by destruct E|].
    intros g st st' b Hag [-> _]%remove_safety. by apply agrees_drop_safety.
  - apply Hget. intros ?. apply upsert_in_step; [by_contract write_semantic; by destruct E|..|apply history_in_step].
    intros g st st' Hag [now' ->]%write_semantic. by apply agrees_put_semantic.
  - apply drop_result. apply preserves_bind; [apply preserves_get|]. intros ?.
    apply delete_policy_in_step; [by_contract remove_semantic; by destruct E|].
    intros g st st' b Hag [-> _]%remove_semantic. by apply agrees_drop_semantic.
  - by apply upsert_rule_in_step.
  - apply drop_result, delete_rule_in_step.
  - apply Hget. intros ?. apply upsert_in_step; [by_contract write_tool; by destruct E|..|apply history_in_step].
    intros g st st' Hag [now' ->]%write_tool. by apply agrees_put_tool.
  - apply drop_result. apply preserves_bind; [apply preserves_get|]. intros ?.
    apply delete_row_in_step; [by_contract remove_tool; by destruct E|].
    intros g st st' b Hag [-> Hb]%remove_tool. specialize (Hb b eq_refl). simpl.
    destruct b; [by apply agrees_drop_tool|]. rewrite delete_affected by done. by destruct (gov_tables st).
  - apply drop_result. apply preserves_bind; [apply preserves_get|]. intros ?.
    apply delete_row_in_step; [by_contract remove_prompt; by destruct E|].
    intros g st st' b Hag [-> Hb]%remove_prompt. specialize (Hb b eq_refl). simpl.
    destruct b; [by apply agrees_drop_prompt|]. rewrite delete_affected by done. by destruct (gov_tables st).
  - intros [g o] (st & Ho & Hag). simpl in *. subst o. unfold upsert_project_prompt_rollout.
    erewrite ST_bind_step by apply gov_store_run. cbv beta.
    destruct (upsert_rollout_row st r) as [st' [[]|e]] eqn:E; cbn; apply write_rollout in E; simpl in E;
      exists st'; (split; [done|]); cbn; rewrite E; [by apply agrees_put_rollout|done].
Qed.

Lemma trace_in_step calls s s' : Forall (λ c, rule_stays c.2) calls → gov_trace calls s s' → in_step s → in_step s'.
Proof.
  intros Hr Ht. revert Hr. induction Ht as [s|now c calls s s' s'' r E Hf Ht IH]; intros Hr Hs; [done|].
  apply Forall_cons in Hr as [Hc Hr]. apply IH; [done|]. simpl in Hc.
  destruct c; try (specialize (steady_call_in_step now _ Hc ltac:(intros []) s Hs) as Hp; by rewrite E in Hp);
    specialize (Hf I); subst r; [by eapply upsert_prompt_in_step|by eapply load_in_step].
Qed.

Lemma gov_start_in_step counter st0 : gov_tables st0 = gov_empty → in_step (governance_new counter, Some st0).
Proof. intros E. exists st0. split; [done|]. rewrite E. apply agrees_empty. Qed.

End steps.

(** What memory answers, up to the stamps the database writes; of a list of
    rules, as a set. *)
Definition same_answers (g g' : GovernanceState) : Prop :=
  (∀ p, db_policy "" <$> project_policy g p = db_policy "" <$> project_policy g' p) ∧
  (∀ p, db_safety "" <$> safety_policy g p = db_safety "" <$> safety_policy g' p) ∧
  (∀ p, db_semantic "" <$> semantic_policy g p = db_semantic "" <$> semantic_policy g' p) ∧
  (∀ p, list_routing_rules g (Some p) ≡ₚ list_routing_rules g' (Some p)) ∧
  (∀ p n, db_tool "" <$> project_tool g p n = db_tool "" <$> project_tool g' p n) ∧
  (∀ p n v, db_prompt "" <$> project_prompt g p n v = db_prompt "" <$> project_prompt g' p n v).

Lemma rules_of_table owner g t p r : agrees owner g t →
  r ∈ list_routing_rules g (Some p) ↔ t_rules t !! rl_rule_id r = Some r ∧ rl_project_id r = p.
Proof.
  intros [T M]. simpl. pose proof (row_Some _ _ _ rule_hit_spec _ p (rl_rule_id r) r (mk_rules _ M)) as Hr.
  rewrite ag_rules0 in Hr. split.
  - intros Hin. assert (rl_project_id r = p) as Hp.
    { destruct (rows_ok_default _ _ _ p (mk_rules _ M)) as [_ Hf]. by eapply Forall_forall in Hf. }
    pose proof (proj2 Hr (conj Hin eq_refl)) as E. case_decide; [by split|done].
  - intros [Hin <-]. apply Hr. rewrite decide_True; [done|]. by apply (ag_owner0 _ _ Hin).
Qed.

Lemma agreeing_answers owner g g' t : agrees owner g t → agrees owner g' t → same_answers g g'.
Proof.
  intros Hg Hg'. pose proof (rules_of_table owner g t) as R. pose proof (rules_of_table owner g' t) as R'.
  assert (∀ g p, agrees owner g t → NoDup (list_routing_rules g (Some p))) as Hnd.
  { intros g0 p [_ M]. destruct (rows_ok_default _ _ _ p (mk_rules _ M)) as [Hnd _]. by eapply NoDup_fmap_1. }
  split_and!.
  - intros p. unfold project_policy. by rewrite (ag_policies _ _ _ Hg), (ag_policies _ _ _ Hg').
  - intros p. unfold safety_policy. by rewrite (ag_safety _ _ _ Hg), (ag_safety _ _ _ Hg').
  - intros p. unfold semantic_policy. by rewrite (ag_semantic _ _ _ Hg), (ag_semantic _ _ _ Hg').
  - intros p. apply NoDup_Permutation; [by apply Hnd..|]. intros r. by rewrite R, R'.
  - intros p n. etrans; [apply (ag_tools _ _ _ Hg)|symmetry; apply (ag_tools _ _ _ Hg')].
  - intros p n v. etrans; [apply (ag_prompts _ _ _ Hg)|symmetry; apply (ag_prompts _ _ _ Hg')].
Qed.

(** C24: Governance memory is a faithful cache of the store, as long as no rule
    changes its project: after any sequence of changes to policies, rules, tools,
    prompts and rollouts that starts from empty tables and in which every identifier
    of a rule is used by one project only ([owner]), whatever the store answered (a
    prompt change or a reload that the store interrupts apart), every read from
    memory is the row of the table up to the time stamp the database writes, and a
    rollout in memory is the stored one.  (Two projects that write rules under one
    identifier are the case left out: the second takes the row over and memory
    keeps both.) *)
Theorem governance_mirrors_store owner counter calls st0 s :
  gov_tables st0 = gov_empty → Forall (λ c, rule_stays owner c.2) calls →
  gov_trace calls (governance_new counter, Some st0) s →
  ∃ st, s.2 = Some st ∧ let g := s.1 in let t := gov_tables st in
  (∀ p, db_policy "" <$> project_policy g p = db_policy "" <$> t_policies t !! p) ∧
  (∀ p, db_safety "" <$> safety_policy g p = db_safety "" <$> t_safety t !! p) ∧
  (∀ p, db_semantic "" <$> semantic_policy g p = db_semantic "" <$> t_semantic t !! p) ∧
  (∀ p r, r ∈ list_routing_rules g (Some p) ↔ t_rules t !! rl_rule_id r = Some r ∧ rl_project_id r = p) ∧
  (∀ p n, db_tool "" <$> project_tool g p n = db_tool "" <$> t_tools t !! (p, n)) ∧
  (∀ p n v, db_prompt "" <$> project_prompt g p n v = db_prompt "" <$> t_prompts t !! (p, n, v)) ∧
  (∀ p n i r, project_prompt_rollout g p n i = Some r → t_rollouts t !! (p, n, i) = Some r).
Proof.
  intros Hempty Hrules Htrace. destruct (trace_in_step owner _ _ _ Hrules Htrace (gov_start_in_step owner counter st0 Hempty))
    as (st & Hst & Hag). exists st. split; [done|]. simpl in *. split_and!; try apply Hag.
  intros p r. by apply (rules_of_table owner).
Qed.

(** Governance survives a restart: a process that loads the store another one
    has written to answers as that one did: the same policies, rules, tools and
    prompts, up to the time stamps. *)
Theorem governance_survives_restart owner counter calls st0 s g1 s' :
  gov_tables st0 = gov_empty → Forall (λ c, rule_stays owner c.2) calls →
  gov_trace calls (governance_new counter, Some st0) s →
  load_from_store (g1, s.2) = (s', Ok ()) → same_answers s'.1 s.1.
Proof.
  intros Hempty Hrules Htrace Hload.
  destruct (trace_in_step owner _ _ _ Hrules Htrace (gov_start_in_step owner counter st0 Hempty)) as (st & Hst & Hag).
  rewrite Hst in Hload. destruct (load_agrees owner _ _ _ _ Hag Hload) as (st'' & _ & _ & Hag'). by eapply agreeing_answers.
Qed.

(** Of a prompt at most one version is in use in an environment: however
    versions are written, deleted and reloaded, two active versions of a prompt
    of a project in the same environment are the same one; the version a request
    gets that names none is therefore determined. *)
Theorem one_version_in_use owner counter calls st0 s p n r r' :
  gov_tables st0 = gov_empty → Forall (λ c, rule_stays owner c.2) calls →
  gov_trace calls (governance_new counter, Some st0) s →
  r ∈ list_project_prompts s.1 (Some p) (Some n) → r' ∈ list_project_prompts s.1 (Some p) (Some n) →
  pm_environment r = pm_environment r' → pm_active r = true → pm_active r' = true → r = r'.
Proof.
  intros Hempty Hrules Htrace. destruct (trace_in_step owner _ _ _ Hrules Htrace (gov_start_in_step owner counter st0 Hempty))
    as (st & _ & [_ M]). clear -M. simpl in *.
  intros [Hn Hr]%list_elem_of_filter [Hn' Hr']%list_elem_of_filter He Ha Ha'.
  apply String.eqb_eq in Hn, Hn'.
  pose proof (λ x, row_Some _ _ _ version_hit_spec _ p (version_key x) x (mk_prompts _ M)) as Hrow.
  assert (mem_prompt s.1 p (version_key r) = Some r) as Er by by apply Hrow.
  assert (mem_prompt s.1 p (version_key r') = Some r') as Er' by by apply Hrow.
  assert (version_key r = version_key r') as Ek.
  { apply (mk_active _ M p _ _ r r'); try done. simpl. congruence. }
  rewrite Ek in Er. congruence.
Qed.

End calls.

(** ** At a concrete store *)

Module GovernanceDemo.

#[export] Existing Instance array_json.

Definition demo_store (faults : list (option string)) : GovDb := {|
  db_tables := {| gd_tables := gov_empty; gd_datetime := λ _, "now"; gd_stamps := 0 |};
  db_faults := faults |}.

Definition prompt (version : string) : ProjectPromptRecord := {|
  pm_project_id := "p"; pm_prompt_name := "greet"; pm_version := version; pm_environment := "prod";
  pm_description := None; pm_target := "system"; pm_template_text := "hi"; pm_variables_schema_json := None;
  pm_rollout_metadata_json := None; pm_active := true; pm_updated_at := "" |}.

Definition rule (project_id : string) (deny : option string) : RoutingRuleRecord := {|
  rl_rule_id := "r1"; rl_project_id := project_id; rl_name := "rule"; rl_priority := 0; rl_enabled := true;
  rl_match_path := None; rl_match_model := None; rl_match_streaming := None; rl_match_role := None;
  rl_match_headers := None; rl_min_prompt_tokens := None; rl_max_prompt_tokens := None;
  rl_deny_reason := deny; rl_provider_order := None; rl_provider_weights := None;
  rl_timeout_secs := None; rl_created_at := "" |}.

(** The calls one after the other, their answers dropped. *)
Definition run_calls (calls : list (Z * GovCall)) (s : GovernanceState * option GovDb) :=
  foldl (λ s c, (gov_call c.1 c.2 s).1) s calls.

Fixpoint all_ok (calls : list (Z * GovCall)) (s : GovernanceState * option GovDb) : bool :=
  match calls with
  | [] => true
  | c :: calls' =>
      match gov_call c.1 c.2 s with
      | (s', Ok _) => all_ok calls' s'
      | _ => false
      end
  end.

Lemma run_trace calls s : all_ok calls s = true → gov_trace calls s (run_calls calls s).
Proof.
  revert s. induction calls as [|[now c] calls IH]; intros s H; [constructor|].
  simpl in *. destruct (gov_call now c s) as [s' [[]|e]] eqn:E; [|done].
  eapply trace_call; [exact E|done|]. by apply IH.
Qed.

Definition start (faults : list (option string)) : GovernanceState * option GovDb :=
  (governance_new 0%Z, Some (demo_store faults)).

Definition calls : list (Z * GovCall) :=
  [(1, UpsertRule (rule "p" None)); (2, UpsertPrompt (prompt "1")); (3, UpsertPrompt (prompt "2")); (4, Reload);
   (5, DeletePrompt "p" "greet" "1")]%Z.

Lemma governance_mirrors_store_witness :
  ∃ st, (run_calls calls (start [])).2 = Some st ∧
    project_prompt (run_calls calls (start [])).1 "p" "greet" "1" = None ∧
    t_prompts (gov_tables st) !! ("p", "greet", "1") = None.
Proof.
  destruct (governance_mirrors_store (λ _, "p") 0%Z calls (demo_store []) (run_calls calls (start [])))
    as (st & Hst & _ & _ & _ & _ & _ & H & _).
  - done.
  - by repeat constructor.
  - apply run_trace. by vm_compute.
  - assert (project_prompt (run_calls calls (start [])).1 "p" "greet" "1" = None) as E by (vm_compute; reflexivity).
    exists st. split; [exact Hst|]. split; [exact E|]. specialize (H "p" "greet" "1"). rewrite E in H.
    destruct (t_prompts (gov_tables st) !! ("p", "greet", "1")); [discriminate H|reflexivity].
Defined.

Lemma governance_survives_restart_witness :
  same_answers (load_from_store (governance_new 7%Z, (run_calls calls (start [])).2)).1.1
    (run_calls calls (start [])).1.
Proof.
  apply (governance_survives_restart (λ _, "p") 0%Z calls (demo_store []) _ (governance_new 7%Z)).
  - done.
  - by repeat constructor.
  - apply run_trace. by vm_compute.
  - assert (snd (load_from_store (governance_new 7%Z, (run_calls calls (start [])).2)) = Ok ()) as E by (by vm_compute).
    rewrite <-E. apply surjective_pairing.
Defined.

Lemma one_version_in_use_witness :
  Forall (λ r, pm_environment r = "prod" → pm_active r = true → r = prompt "2")
    (list_project_prompts (run_calls (take 3 calls) (start [])).1 (Some "p") (Some "greet")).
Proof.
  apply Forall_forall. intros r Hr He Ha.
  apply (one_version_in_use (λ _, "p") 0%Z (take 3 calls) (demo_store []) (run_calls (take 3 calls) (start [])) "p" "greet");
    [reflexivity|by repeat constructor|apply run_trace; vm_compute; reflexivity|exact Hr|
     vm_compute; by repeat constructor|exact He|exact Ha|reflexivity].
Defined.

(** A prompt changes memory before the store.  When the store refuses the row of
    the version taken out of use, nothing takes that version out later: the next
    version that is put in use leaves two of them active in the table, and after
    a restart the old one is served. *)
Theorem interrupted_prompt_comes_back :
  let s := run_calls [(1, UpsertPrompt (prompt "1")); (2, UpsertPrompt (prompt "2")); (3, UpsertPrompt (prompt "3"))]%Z
             (start [None; None; Some "database is locked"]) in
  let served s := pm_version <$> find_first (is_baseline "greet" "prod") (list_project_prompts s.1 (Some "p") None) in
  served s = Some "3" ∧ served (load_from_store s).1 = Some "1".
Proof. vm_compute. by split. Qed.

(** The identifier of a rule is not tied to a project: writing a rule under the
    identifier of another project's rule moves the row, and the other project
    keeps applying the rule until the next restart takes it away. *)
Theorem rule_is_taken_over :
  let s := run_calls [(1, UpsertRule (rule "a" None)); (2, UpsertRule (rule "b" None))]%Z (start []) in
  let rules s := rl_project_id <$> list_routing_rules s.1 (Some "a") in
  rules s = ["a"] ∧ rules (load_from_store s).1 = [].
Proof. vm_compute. by split. Qed.

End GovernanceDemo.
