(* ===== verification/ProjectConfig.v ===== *)
(** * Project configurations

    Model of the part of [plugin-llm-gateway/src/api.rs] that treats the
    configuration of a project as one thing: snapshots and their validation, the
    revisions kept in the history, applying a snapshot with the automatic return
    to the one before, rolling back to a revision, and the changes of single
    records, each of which records a revision. *)

From S2P Require Import Prelude RecordSet RustStr Utf8 F64 Json Sql StateResult Http Auth Plugin UsageStore GatewayContext SemanticService GovernanceStore Governance SemanticSafety Management.

Local Open Scope string_scope.
Local Open Scope list_scope.
Local Open Scope rust_scope.

(** ** Snapshots and revisions *)

Record ProjectConfigSnapshot := {
  sn_project_id : string;
  sn_policy : option ProjectPolicyRecord;
  sn_routing_rules : list RoutingRuleRecord;
  sn_safety_policy : option SafetyPolicyRecord;
  sn_semantic_policy : option ProjectSemanticPolicyRecord;
  sn_tools : list ProjectToolRecord;
  sn_prompts : list ProjectPromptRecord;
  sn_rollout_policies : list ProjectRolloutPolicyRecord;
}.

Record ProjectConfigRevision := {
  rev_revision_id : string;
  rev_project_id : string;
  rev_source : string;
  rev_snapshot : ProjectConfigSnapshot;
  rev_recorded_at : string;
}.

Record ProjectConfigRevisionState := {
  rs_project_id : string;
  rs_active_revision_id : string;
  rs_last_known_good_revision_id : string;
  rs_updated_at : string;
}.

(** The derived JSON forms. *)
Class RevisionTexts := {
  revision_to_string : ProjectConfigRevision → result string string;
  revision_from_str : string → option ProjectConfigRevision;
  revision_state_to_string : ProjectConfigRevisionState → result string string;
  revision_state_from_str : string → option ProjectConfigRevisionState;
}.

(** ** Validation *)

Section validation.
Context `{SerdeJson} (serde_error : string → string).

(** [let _: Value = serde_json::from_str(raw)?] *)
Definition check_json (raw : string) : result string () :=
  match json_from_str raw with Some _ => Ok () | None => Err (serde_error raw) end.

Definition check_opt_json (raw : option string) : result string () := from_option check_json (Ok ()) raw.

(** [for x in l { check(x)?; }] *)
Fixpoint check_all {A} (check : A → result string ()) (l : list A) : result string () :=
  match l with
  | [] => Ok ()
  | x :: l' => let? _ := check x in check_all check l'
  end.

Definition refuse_unless (b : bool) (message : string) : result string () := if b then Ok () else Err message.

Definition check_rule (project_id : string) (r : RoutingRuleRecord) : result string () :=
  let? _ := refuse_unless (String.eqb (rl_project_id r) project_id)
              "routing rule project_id does not match snapshot project_id" in
  let? _ := check_opt_json (rl_match_headers r) in
  let? _ := check_opt_json (rl_provider_order r) in
  check_opt_json (rl_provider_weights r).

Definition check_tool (project_id : string) (r : ProjectToolRecord) : result string () :=
  let? _ := refuse_unless (String.eqb (pt_project_id r) project_id)
              "tool project_id does not match snapshot project_id" in
  let? _ := check_json (pt_input_schema_json r) in
  check_opt_json (pt_executor_config_json r).

Definition check_prompt (project_id : string) (r : ProjectPromptRecord) : result string () :=
  let? _ := refuse_unless (String.eqb (pm_project_id r) project_id)
              "prompt project_id does not match snapshot project_id" in
  let? _ := check_opt_json (pm_variables_schema_json r) in
  check_opt_json (pm_rollout_metadata_json r).

Definition check_rollout_policy (project_id : string) (r : ProjectRolloutPolicyRecord) : result string () :=
  let? _ := refuse_unless (String.eqb (rp_project_id r) project_id)
              "rollout policy project_id does not match snapshot project_id" in
  check_json (rp_gate_config_json r).

Definition validate_project_config_snapshot_inner (snapshot : ProjectConfigSnapshot) : result string () :=
  let project_id := sn_project_id snapshot in
  let owned {A} (project : A → string) (o : option A) :=
    from_option (λ r, String.eqb (project r) project_id) true o in
  let? _ := refuse_unless (negb (String.eqb (unicode_trim project_id) ""))
              "project config snapshot project_id must not be empty" in
  let? _ := refuse_unless (owned pp_project_id (sn_policy snapshot))
              "project policy project_id does not match snapshot project_id" in
  let? _ := refuse_unless (owned sp_project_id (sn_safety_policy snapshot))
              "safety policy project_id does not match snapshot project_id" in
  let? _ := refuse_unless (owned sem_project_id (sn_semantic_policy snapshot))
              "semantic policy project_id does not match snapshot project_id" in
  let? _ := check_all (check_rule project_id) (sn_routing_rules snapshot) in
  let? _ := check_all (check_tool project_id) (sn_tools snapshot) in
  let? _ := check_all (check_prompt project_id) (sn_prompts snapshot) in
  let? _ := check_all (check_rollout_policy project_id) (sn_rollout_policies snapshot) in
  let? _ := from_option (λ p, check_all check_opt_json
              [pp_fallback_order p; pp_provider_rpm_limits p; pp_provider_tpm_limits p; pp_provider_timeouts p;
               pp_provider_input_costs p; pp_provider_output_costs p; pp_allowed_tools p]) (Ok ()) (sn_policy snapshot) in
  let? _ := from_option (λ p, check_opt_json (sp_rules_json p)) (Ok ()) (sn_safety_policy snapshot) in
  from_option (λ p, let? _ := check_opt_json (sem_entities_json p) in check_opt_json (sem_topics_json p))
    (Ok ()) (sn_semantic_policy snapshot).

(** [if !set.insert(key) { return Err(..) }], then the rest of the body. *)
Fixpoint check_distinct {A} (key : A → string) (duplicate : A → string) (body : A → result string ())
    (seen : list string) (l : list A) : result string () :=
  match l with
  | [] => Ok ()
  | x :: l' =>
      if bool_decide (key x ∈ seen) then Err (duplicate x)
      else let? _ := body x in check_distinct key duplicate body (key x :: seen) l'
  end.

Section references.
Variable provider_names : list string.

Definition ensure_provider_names (field : string) (names : list string) : result string () :=
  check_all (λ name, refuse_unless (bool_decide (name ∈ provider_names))
    ("unknown provider '" +:+ name +:+ "' referenced by " +:+ field)) names.

(** A list of names, and the keys of an object. *)
Definition check_names (field : string) (raw : option string) : result string () :=
  from_option (λ raw, match strings_from_str raw with
                      | Some names => ensure_provider_names field names
                      | None => Err (serde_error raw)
                      end) (Ok ()) raw.

Definition check_keys (field : string) (raw : option string) : result string () :=
  from_option (λ raw, match json_from_str raw ≫= json_object with
                      | Some fields => ensure_provider_names field fields.*1
                      | None => Err (serde_error raw)
                      end) (Ok ()) raw.

Definition prompt_environment_key (r : ProjectPromptRecord) : string :=
  pm_prompt_name r +:+ ":" +:+ pm_version r +:+ ":" +:+ pm_environment r.

Definition validate_project_config_snapshot_provider_references (snapshot : ProjectConfigSnapshot)
    : result string () :=
  let? _ := from_option (λ p,
      let? _ := check_names "policy.fallback_order" (pp_fallback_order p) in
      let? _ := check_keys "policy.provider_rpm_limits" (pp_provider_rpm_limits p) in
      let? _ := check_keys "policy.provider_tpm_limits" (pp_provider_tpm_limits p) in
      let? _ := check_keys "policy.provider_timeouts" (pp_provider_timeouts p) in
      let? _ := check_keys "policy.provider_input_costs" (pp_provider_input_costs p) in
      check_keys "policy.provider_output_costs" (pp_provider_output_costs p)) (Ok ()) (sn_policy snapshot) in
  let? _ := check_distinct rl_rule_id (λ r, "duplicate routing rule id '" +:+ rl_rule_id r +:+ "'")
      (λ r, let? _ := check_names "routing_rule.provider_order" (rl_provider_order r) in
            check_keys "routing_rule.provider_weights" (rl_provider_weights r)) [] (sn_routing_rules snapshot) in
  let? _ := check_distinct pt_tool_name (λ r, "duplicate tool '" +:+ pt_tool_name r +:+ "'") (λ _, Ok ())
      [] (sn_tools snapshot) in
  let? _ := check_distinct prompt_environment_key (λ r, "duplicate prompt '" +:+ prompt_environment_key r +:+ "'")
      (λ _, Ok ()) [] (sn_prompts snapshot) in
  check_distinct rp_policy_name (λ r, "duplicate rollout policy '" +:+ rp_policy_name r +:+ "'") (λ _, Ok ())
    [] (sn_rollout_policies snapshot).

End references.

(** [projects] are the ids of [list_projects], [providers] the names of
    [configured_providers]. *)
Definition validate_project_config_snapshot_against_runtime (projects : option (list string))
    (providers : list string) (snapshot : ProjectConfigSnapshot) : result string () :=
  let? _ := validate_project_config_snapshot_inner snapshot in
  let? _ := refuse_unless (from_option (λ ids, bool_decide (sn_project_id snapshot ∈ ids)) true projects)
              ("project '" +:+ sn_project_id snapshot +:+ "' does not exist") in
  match providers with
  | [] => Ok ()
  | _ => validate_project_config_snapshot_provider_references providers snapshot
  end.

(** *** The whole control plane *)

Record ControlPlaneProjectSnapshot := {
  cp_project_id : string;
  cp_name : string;
  cp_description : option string;
  cp_active : bool;
  cp_created_at : string;
}.

Record ControlPlaneSnapshot := {
  cs_exported_at : string;
  cs_projects : list ControlPlaneProjectSnapshot;
  cs_managed_providers : list ManagedProviderRecord;
  cs_virtual_keys : list VirtualKeyRecord;
  cs_project_configs : list ProjectConfigSnapshot;
}.

Fixpoint check_providers (names : list string) (l : list ManagedProviderRecord) : result string (list string) :=
  match l with
  | [] => Ok names
  | p :: l' =>
      let? _ := refuse_unless (negb (String.eqb (unicode_trim (mp_name p)) ""))
                  "control plane snapshot contains a provider with an empty name" in
      if bool_decide (mp_name p ∈ names) then Err ("duplicate provider '" +:+ mp_name p +:+ "'")
      else check_providers (mp_name p :: names) l'
  end.

Fixpoint check_projects (ids : list string) (l : list ControlPlaneProjectSnapshot) : result string (list string) :=
  match l with
  | [] => Ok ids
  | p :: l' =>
      let? _ := refuse_unless (negb (String.eqb (unicode_trim (cp_project_id p)) ""))
                  "control plane snapshot contains a project with an empty project_id" in
      if bool_decide (cp_project_id p ∈ ids) then Err ("duplicate project '" +:+ cp_project_id p +:+ "'")
      else check_projects (cp_project_id p :: ids) l'
  end.

Fixpoint check_keys_of (ids names seen : list string) (l : list VirtualKeyRecord) : result string () :=
  match l with
  | [] => Ok ()
  | k :: l' =>
      let hash := vr_key_hash k in
      let? _ := refuse_unless (negb (String.eqb (unicode_trim hash) ""))
                  "control plane snapshot contains a key with an empty key_hash" in
      let? _ := refuse_unless (negb (bool_decide (hash ∈ seen))) ("duplicate virtual key '" +:+ hash +:+ "'") in
      let? _ := refuse_unless (bool_decide (vr_project_id k ∈ ids))
                  ("virtual key '" +:+ hash +:+ "' references unknown project '" +:+ vr_project_id k +:+ "'") in
      let? _ := refuse_unless (bool_decide (vr_provider_name k ∈ names))
                  ("virtual key '" +:+ hash +:+ "' references unknown provider '" +:+ vr_provider_name k +:+ "'") in
      check_keys_of ids names (hash :: seen) l'
  end.

Fixpoint check_configs (ids names seen : list string) (l : list ProjectConfigSnapshot) : result string () :=
  match l with
  | [] => Ok ()
  | c :: l' =>
      let? _ := refuse_unless (bool_decide (sn_project_id c ∈ ids))
                  ("project config for '" +:+ sn_project_id c +:+ "' does not have a matching project record") in
      let? _ := refuse_unless (negb (bool_decide (sn_project_id c ∈ seen)))
                  ("duplicate project config snapshot for '" +:+ sn_project_id c +:+ "'") in
      let? _ := validate_project_config_snapshot_inner c in
      let? _ := validate_project_config_snapshot_provider_references names c in
      check_configs ids names (sn_project_id c :: seen) l'
  end.

(** [static_providers]: the names of the configuration file. *)
Definition validate_control_plane_snapshot_inner (static_providers : list string) (snapshot : ControlPlaneSnapshot)
    : result string () :=
  let? ids := check_projects [] (cs_projects snapshot) in
  let? names := check_providers static_providers (cs_managed_providers snapshot) in
  let? _ := check_keys_of ids names [] (cs_virtual_keys snapshot) in
  check_configs ids names [] (cs_project_configs snapshot).

End validation.

(** ** The operations *)

(** What the operations change; [ca_clock] is the wall clock as it is read, and
    [ca_sequence] is [PROJECT_CONFIG_REVISION_SEQUENCE]. *)
Record ConfigState (St R : Type) := {
  ca_gov : GovernanceState;
  ca_store : option St;
  ca_remote : R;
  ca_sequence : Z;
  ca_clock : nat → Z;
  ca_ticks : nat;
}.
Arguments ca_gov {St R}.
Arguments ca_store {St R}.
Arguments ca_remote {St R}.
Arguments ca_sequence {St R}.
Arguments ca_clock {St R}.
Arguments ca_ticks {St R}.

#[export] Instance ConfigState_set St R : Settable (ConfigState St R) := λ s,
  {| ca_gov := ca_gov s; ca_store := ca_store s; ca_remote := ca_remote s; ca_sequence := ca_sequence s;
     ca_clock := ca_clock s; ca_ticks := ca_ticks s |}.

(** What does not change: whether there is a governance state, the semantic
    safety plugin, the known projects and providers. *)
Record ConfigParts := {
  cx_governance : bool;
  cx_safety : option SemanticSafety;
  cx_projects : option (list string);
  cx_providers : list string;
}.

Section operations.
Context `{SerdeJson} (serde_error : string → string) `{RevisionTexts} `{PolicyTexts}
  {St : Type} `{GovernanceStore St} {R : Type} `{SafetyClient R} (parts : ConfigParts).

Notation CM := (ST (ConfigState St R) string).

Definition read_clock : CM Z := λ s,
  (s <| ca_ticks := S (ca_ticks s) |>, Ok (ca_clock s (ca_ticks s))).

(** A governance call; its error as text. *)
Definition governance_call {A} (op : ST (GovernanceState * option St) StoreError A) : CM A := λ s,
  let '((g, st), r) := op (ca_gov s, ca_store s) in
  (s <| ca_gov := g |> <| ca_store := st |>,
   match r with Ok a => Ok a | Err e => Err (store_error_text e) end).

Definition in_governance {A} (op : Z → ST (GovernanceState * option St) StoreError A) : CM A :=
  now ← read_clock;
  governance_call (op now).

(** A statement of the store, where there is one. *)
Definition on_store {A} (call : St → St * result StoreError A) : CM A := λ s,
  match ca_store s with
  | None => (s, Err "store not enabled")
  | Some st =>
      let '(st, r) := call st in
      (s <| ca_store := Some st |>, match r with Ok a => Ok a | Err e => Err (store_error_text e) end)
  end.

Definition in_remote {A} (op : ST R string A) : CM A := st_zoom ca_remote (λ r s, s <| ca_remote := r |>) op.

Definition of_result {A} (r : result string A) : CM A := λ s, (s, r).

(** [self.governance.as_ref().ok_or("governance not enabled")?] *)
Definition need_governance : CM () :=
  if cx_governance parts then mret () else st_fail "governance not enabled".

Definition validate_snapshot (snapshot : ProjectConfigSnapshot) : CM () :=
  of_result (validate_project_config_snapshot_against_runtime serde_error (cx_projects parts) (cx_providers parts) snapshot).

Definition project_config_snapshot_inner (project_id : string) : CM ProjectConfigSnapshot :=
  _ ← need_governance;
  s ← st_get;
  rollout_policies ←
    (match ca_store s with
     | Some _ => on_store (λ st, get_rollout_policy_rows st (Some project_id))
     | None => mret []
     end);
  s ← st_get;
  let g := ca_gov s in
  mret {| sn_project_id := project_id; sn_policy := project_policy g project_id;
          sn_routing_rules := list_routing_rules g (Some project_id);
          sn_safety_policy := safety_policy g project_id; sn_semantic_policy := semantic_policy g project_id;
          sn_tools := list_project_tools g (Some project_id);
          sn_prompts := list_project_prompts g (Some project_id) None;
          sn_rollout_policies := rollout_policies |}.

(** [generate_unique_id(prefix, &PROJECT_CONFIG_REVISION_SEQUENCE)] *)
Definition draw_sequence : CM Z := λ s, (s <| ca_sequence := wrap64 (ca_sequence s + 1) |>, Ok (ca_sequence s)).

Definition draw_id (prefix : string) : CM string :=
  now ← read_clock;
  sequence ← draw_sequence;
  mret (generate_unique_id prefix now sequence).

Definition record_project_config_revision (project_id source : string) : CM (option ProjectConfigRevision) :=
  s ← st_get;
  match ca_store s with
  | None => mret None
  | Some _ =>
      snapshot ← project_config_snapshot_inner project_id;
      _ ← of_result (validate_project_config_snapshot_inner serde_error snapshot);
      revision_id ← draw_id "cfg";
      now ← read_clock;
      let revision := {| rev_revision_id := revision_id; rev_project_id := project_id; rev_source := source;
                         rev_snapshot := snapshot; rev_recorded_at := current_timestamp_string now |} in
      snapshot_json ← of_result (revision_to_string revision);
      _ ← on_store (λ st, append_governance_change st
        {| gc_change_id := revision_id; gc_project_id := project_id;
           gc_resource_type := "project_config_revision"; gc_resource_id := revision_id; gc_action := source;
           gc_before_json := None; gc_after_json := Some snapshot_json;
           gc_changed_at := rev_recorded_at revision |});
      state_id ← draw_id "cfgstate";
      state_json ← of_result (revision_state_to_string
        {| rs_project_id := project_id; rs_active_revision_id := revision_id;
           rs_last_known_good_revision_id := revision_id; rs_updated_at := rev_recorded_at revision |});
      _ ← on_store (λ st, append_governance_change st
        {| gc_change_id := state_id; gc_project_id := project_id;
           gc_resource_type := "project_config_revision_state"; gc_resource_id := project_id;
           gc_action := source; gc_before_json := None; gc_after_json := Some state_json;
           gc_changed_at := rev_recorded_at revision |});
      mret (Some revision)
  end.

Definition ensure_project_config_revision_recorded (project_id source : string) : CM () :=
  _ ← record_project_config_revision project_id source;
  mret ().

(** *** Applying a snapshot *)

(** [existing.difference(&desired)], in the order of the set. *)
Definition difference `{Countable K} (existing desired : list K) : list K :=
  elements (list_to_set existing ∖ list_to_set desired : gset K).

(** One record to have, or none. *)
Definition apply_record {A} (record : option A) (upsert : A → CM ()) (remove : CM ()) : CM () :=
  match record with
  | Some r => upsert r
  | None => remove
  end.

(** The records to have: those of the project that are not among them go. *)
Definition apply_records {A K} `{Countable K} (key : A → K) (existing : ConfigState St R → list A)
    (records : list A) (remove : K → CM ()) (upsert : A → CM ()) : CM () :=
  s ← st_get;
  _ ← st_for (difference (key <$> existing s) (key <$> records)) remove;
  st_for records upsert.

Definition gov_unit {A} (op : Z → ST (GovernanceState * option St) StoreError A) : CM () :=
  _ ← in_governance op; mret ().

Definition apply_semantic_policy (snapshot : ProjectConfigSnapshot) : CM () :=
  apply_record (sn_semantic_policy snapshot)
    (λ record,
      _ ← in_governance (λ now, upsert_semantic_policy now record);
      match cx_safety parts with
      | None => mret ()
      | Some plugin =>
          result ← in_remote (λ r, let '(r, m) := sync_policy_record plugin record r in (r, Ok m));
          match mr_sync_error result with
          | Some error => st_fail error
          | None => mret ()
          end
      end)
    (_ ← in_governance (λ now, delete_semantic_policy now (sn_project_id snapshot));
     match cx_safety parts with
     | None => mret ()
     | Some plugin => in_remote (client_delete_policy plugin (sn_project_id snapshot))
     end).

Definition apply_rollout_policies (snapshot : ProjectConfigSnapshot) : CM () :=
  existing ← on_store (λ st, get_rollout_policy_rows st (Some (sn_project_id snapshot)));
  _ ← st_for (difference (rp_policy_name <$> existing) (rp_policy_name <$> sn_rollout_policies snapshot))
        (λ name, _ ← on_store (λ st, delete_rollout_policy_row st (sn_project_id snapshot, name)); mret ());
  st_for (sn_rollout_policies snapshot) (λ r, on_store (λ st, upsert_rollout_policy_row st r)).

Definition apply_project_config_snapshot_inner (snapshot : ProjectConfigSnapshot) : CM () :=
  let project_id := sn_project_id snapshot in
  _ ← validate_snapshot snapshot;
  _ ← need_governance;
  s ← st_get;
  _ ← (match ca_store s with Some _ => mret () | None => st_fail "store not enabled" end);
  _ ← apply_record (sn_policy snapshot)
        (λ r, in_governance (λ now, Governance.upsert_project_policy now r))
        (gov_unit (λ now, Governance.delete_project_policy now project_id));
  _ ← apply_records rl_rule_id (λ s, list_routing_rules (ca_gov s) (Some project_id)) (sn_routing_rules snapshot)
        (λ id, gov_unit (λ now, delete_routing_rule now id))
        (λ r, in_governance (λ now, upsert_routing_rule now r));
  _ ← apply_record (sn_safety_policy snapshot)
        (λ r, in_governance (λ now, upsert_safety_policy now r))
        (gov_unit (λ now, delete_safety_policy now project_id));
  _ ← apply_semantic_policy snapshot;
  _ ← apply_records pt_tool_name (λ s, list_project_tools (ca_gov s) (Some project_id)) (sn_tools snapshot)
        (λ n, gov_unit (λ now, delete_project_tool now project_id n))
        (λ r, in_governance (λ now, upsert_project_tool now r));
  _ ← apply_records (λ r, (pm_prompt_name r, pm_version r))
        (λ s, list_project_prompts (ca_gov s) (Some project_id) None) (sn_prompts snapshot)
        (λ k, gov_unit (λ now, delete_project_prompt now project_id k.1 k.2))
        (λ r, in_governance (λ now, upsert_project_prompt now r));
  apply_rollout_policies snapshot.

(** [None] without a governance state or a store. *)
Definition config_enabled (s : ConfigState St R) : bool := cx_governance parts && is_some (ca_store s).

Definition when_enabled {A} (m : CM A) : CM (option A) :=
  s ← st_get;
  if config_enabled s then a ← m; mret (Some a) else mret None.

(** Applies the snapshot, or returns to the one before; then records what is in
    force. *)
Definition apply_or_restore (snapshot previous_snapshot : ProjectConfigSnapshot) : CM () := λ s,
  match apply_project_config_snapshot_inner snapshot s with
  | (s, Err apply_error) =>
      let '(s, restored) := apply_project_config_snapshot_inner previous_snapshot s in
      (s, Err (match restored with
               | Err restore_error =>
                   "project config apply failed (" +:+ apply_error
                   +:+ "); automatic rollback also failed (" +:+ restore_error +:+ ")"
               | Ok _ => "project config apply failed (" +:+ apply_error +:+ "); previous snapshot restored"
               end))
  | (s, Ok _) => (s, Ok ())
  end.

Definition apply_config (snapshot : ProjectConfigSnapshot) (source : string) : CM ProjectConfigRevision :=
  _ ← validate_snapshot snapshot;
  previous_snapshot ← project_config_snapshot_inner (sn_project_id snapshot);
  _ ← apply_or_restore snapshot previous_snapshot;
  revision ← record_project_config_revision (sn_project_id snapshot) source;
  match revision with
  | Some revision => mret revision
  | None => st_fail "store not enabled"
  end.

Definition apply_project_config (snapshot : ProjectConfigSnapshot) (source : string)
    : CM (option ProjectConfigRevision) := when_enabled (apply_config snapshot source).

(** *** Revisions *)

(** [Some(result)] of a facade function that needs the store. *)
Definition when_stored {A} (call : St → St * result StoreError A) : CM (option A) :=
  s ← st_get;
  match ca_store s with
  | None => mret None
  | Some _ => a ← on_store call; mret (Some a)
  end.

Definition api_get_governance_changes (project_id : string) (resource_type : option string) (limit : Z)
    : CM (option (list GovernanceChangeRecord)) :=
  when_stored (λ st, get_governance_changes st project_id resource_type limit).

Definition list_project_config_revisions (project_id : string) (limit : Z)
    : CM (option (list ProjectConfigRevision)) :=
  changes ← api_get_governance_changes project_id (Some "project_config_revision") limit;
  mret (filter_map revision_from_str ∘ filter_map gc_after_json <$> changes).

Definition get_project_config_revision (project_id revision_id : string)
    : CM (option (option ProjectConfigRevision)) :=
  revisions ← list_project_config_revisions project_id 500;
  mret (find_first (λ r, String.eqb (rev_revision_id r) revision_id) <$> revisions).

Definition get_project_config_revision_state (project_id : string)
    : CM (option (option ProjectConfigRevisionState)) :=
  changes ← api_get_governance_changes project_id (Some "project_config_revision_state") 1;
  mret ((λ l, find_map gc_after_json l ≫= revision_state_from_str) <$> changes).

Definition rollback_project_config (project_id revision_id : string) : CM (option ProjectConfigRevision) :=
  when_enabled
    (found ← get_project_config_revision project_id revision_id;
     match found with
     | Some (Some revision) =>
         applied ← apply_project_config (rev_snapshot revision) ("rollback_project_config:" +:+ revision_id);
         match applied with
         | Some r => mret r
         | None => st_fail "store not enabled"
         end
     | Some None => st_fail ("revision '" +:+ revision_id +:+ "' not found")
     | None => st_fail "store not enabled"
     end).

(** *** Single records *)

(** [None] without a governance state; a revision after every change. *)
Definition when_governed {A} (m : CM A) : CM (option A) :=
  if cx_governance parts then a ← m; mret (Some a) else mret None.

Definition upsert_recorded (op : Z → ST (GovernanceState * option St) StoreError ()) (project_id source : string)
    : CM (option ()) :=
  when_governed (_ ← in_governance op; ensure_project_config_revision_recorded project_id source).

(** A revision only when something went. *)
Definition delete_recorded (op : Z → ST (GovernanceState * option St) StoreError bool) (project_id : option string)
    (source : string) : CM (option bool) :=
  when_governed
    (deleted ← in_governance op;
     _ ← (match deleted, project_id with
          | true, Some p => ensure_project_config_revision_recorded p source
          | _, _ => mret ()
          end);
     mret deleted).

Definition api_upsert_project_policy (r : ProjectPolicyRecord) : CM (option ()) :=
  upsert_recorded (λ now, Governance.upsert_project_policy now r) (pp_project_id r) "upsert_project_policy".

Definition api_delete_project_policy (project_id : string) : CM (option bool) :=
  delete_recorded (λ now, Governance.delete_project_policy now project_id) (Some project_id) "delete_project_policy".

Definition api_upsert_routing_rule (r : RoutingRuleRecord) : CM (option ()) :=
  upsert_recorded (λ now, upsert_routing_rule now r) (rl_project_id r) "upsert_routing_rule".

Definition api_delete_routing_rule (rule_id : string) : CM (option bool) :=
  s ← st_get;
  delete_recorded (λ now, delete_routing_rule now rule_id)
    (rl_project_id <$> find_first (λ r, String.eqb (rl_rule_id r) rule_id) (list_routing_rules (ca_gov s) None))
    "delete_routing_rule".

Definition api_upsert_safety_policy (r : SafetyPolicyRecord) : CM (option ()) :=
  upsert_recorded (λ now, upsert_safety_policy now r) (sp_project_id r) "upsert_safety_policy".

Definition api_delete_safety_policy (project_id : string) : CM (option bool) :=
  delete_recorded (λ now, delete_safety_policy now project_id) (Some project_id) "delete_safety_policy".

Definition api_upsert_project_tool (r : ProjectToolRecord) : CM (option ()) :=
  upsert_recorded (λ now, upsert_project_tool now r) (pt_project_id r) "upsert_project_tool".

Definition api_delete_project_tool (project_id tool_name : string) : CM (option bool) :=
  delete_recorded (λ now, delete_project_tool now project_id tool_name) (Some project_id) "delete_project_tool".

Definition api_upsert_project_prompt (r : ProjectPromptRecord) : CM (option ()) :=
  upsert_recorded (λ now, upsert_project_prompt now r) (pm_project_id r) "upsert_project_prompt".

Definition api_delete_project_prompt (project_id prompt_name version : string) : CM (option bool) :=
  delete_recorded (λ now, delete_project_prompt now project_id prompt_name version) (Some project_id)
    "delete_project_prompt".

Definition api_upsert_project_rollout_policy (r : ProjectRolloutPolicyRecord) : CM (option ()) :=
  done ← when_stored (λ st, upsert_rollout_policy_row st r);
  match done with
  | None => mret None
  | Some _ =>
      _ ← ensure_project_config_revision_recorded (rp_project_id r) "upsert_project_rollout_policy";
      mret (Some ())
  end.

Definition api_delete_project_rollout_policy (project_id policy_name : string) : CM (option bool) :=
  deleted ← when_stored (λ st, delete_rollout_policy_row st (project_id, policy_name));
  _ ← (match deleted with
       | Some true => ensure_project_config_revision_recorded project_id "delete_project_rollout_policy"
       | _ => mret ()
       end);
  mret deleted.

Definition api_upsert_project_prompt_rollout (r : ProjectPromptRolloutRecord) : CM (option ()) :=
  when_governed (in_governance (λ _, upsert_project_prompt_rollout r)).

(** *** Semantic policies *)

Record SemanticPolicyDeleteResult := {
  dr_existed : bool;
  dr_synced : bool;
  dr_sync_error : option string;
}.

Definition api_upsert_semantic_policy (record : ProjectSemanticPolicyRecord)
    : CM (option SemanticPolicyMutationResult) :=
  when_governed
    (_ ← in_governance (λ now, upsert_semantic_policy now record);
     result ←
       (match cx_safety parts with
        | Some plugin => in_remote (λ r, let '(r, m) := sync_policy_record plugin record r in (r, Ok m))
        | None => mret {| mr_policy_version := sem_version record; mr_synced := false;
                          mr_sync_error := Some "semantic safety plugin not enabled" |}
        end);
     _ ← (if mr_synced result || is_some (mr_sync_error result)
          then ensure_project_config_revision_recorded (sem_project_id record) "upsert_semantic_policy"
          else mret ());
     mret result).

Definition api_delete_semantic_policy (project_id : string) : CM (option SemanticPolicyDeleteResult) :=
  when_governed
    (existed ← in_governance (λ now, delete_semantic_policy now project_id);
     sync ←
       (match cx_safety parts with
        | Some plugin => in_remote (λ r,
            let '(r, answer) := client_delete_policy plugin project_id r in
            (r, Ok match answer with
                   | Ok _ => {| dr_existed := existed; dr_synced := true; dr_sync_error := None |}
                   | Err e => {| dr_existed := existed; dr_synced := false; dr_sync_error := Some e |}
                   end))
        | None => mret {| dr_existed := existed; dr_synced := false;
                          dr_sync_error := Some "semantic safety plugin not enabled" |}
        end);
     _ ← (match existed with
          | true => ensure_project_config_revision_recorded project_id "delete_semantic_policy"
          | false => mret ()
          end);
     mret sync).

End operations.
