(* ===== verification/ProjectConfigProps.v ===== *)
(** * Project configurations: what is proved

    A configuration is read as one function from the keys of its records to the
    rows of the tables; every change is a change of that function, and applying a
    snapshot, returning to the one before and rolling back to a revision are
    stated over it. *)

From S2P Require Import Prelude RecordSet RustStr Utf8 F64 Codec Json Sql StateResult Http Auth Plugin UsageStore GatewayContext SemanticService GovernanceStore Governance GovernanceRows GovernanceProps SemanticSafety Management ProjectConfig.

Local Open Scope string_scope.
Local Open Scope list_scope.
Local Open Scope rust_scope.

(** ** The configuration as a function *)

Inductive ConfigKey :=
| KPolicy (project_id : string)
| KRule (rule_id : string)
| KSafety (project_id : string)
| KSemantic (project_id : string)
| KTool (project_id tool_name : string)
| KPrompt (project_id prompt_name version : string)
| KRolloutPolicy (project_id policy_name : string).

Inductive ConfigRow :=
| RPolicy (r : ProjectPolicyRecord)
| RRule (r : RoutingRuleRecord)
| RSafety (r : SafetyPolicyRecord)
| RSemantic (r : ProjectSemanticPolicyRecord)
| RTool (r : ProjectToolRecord)
| RPrompt (r : ProjectPromptRecord)
| RRolloutPolicy (r : ProjectRolloutPolicyRecord).

#[export] Instance ConfigKey_eq : EqDecision ConfigKey.
Proof. solve_decision. Defined.

(** The rows, up to the time stamps the database writes. *)
Definition row_policy (r : ProjectPolicyRecord) : ConfigRow := RPolicy (db_policy "" r).
Definition row_safety (r : SafetyPolicyRecord) : ConfigRow := RSafety (db_safety "" r).
Definition row_semantic (r : ProjectSemanticPolicyRecord) : ConfigRow := RSemantic (db_semantic "" r).
Definition row_tool (r : ProjectToolRecord) : ConfigRow := RTool (db_tool "" r).
Definition row_prompt (r : ProjectPromptRecord) : ConfigRow := RPrompt (db_prompt "" r).
Definition row_rollout_policy (r : ProjectRolloutPolicyRecord) : ConfigRow := RRolloutPolicy (db_rollout_policy "" r).

Definition config (t : GovTables) (k : ConfigKey) : option ConfigRow :=
  match k with
  | KPolicy p => row_policy <$> t_policies t !! p
  | KRule id => RRule <$> t_rules t !! id
  | KSafety p => row_safety <$> t_safety t !! p
  | KSemantic p => row_semantic <$> t_semantic t !! p
  | KTool p n => row_tool <$> t_tools t !! (p, n)
  | KPrompt p n v => row_prompt <$> t_prompts t !! (p, n, v)
  | KRolloutPolicy p n => row_rollout_policy <$> t_rollout_policies t !! (p, n)
  end.

(** A change of the function. *)
Definition Effect : Type := ConfigKey → option ConfigRow → option ConfigRow.

Definition and_then (F G : Effect) : Effect := λ k o, G k (F k o).

Definition put (k0 : ConfigKey) (row : option ConfigRow) : Effect := λ k old,
  if decide (k = k0) then row else old.

(** A prompt that is put in use takes the others of its name and environment out
    of use. *)
Definition retire (r : ProjectPromptRecord) : Effect := λ k old,
  match k, old with
  | KPrompt p n v, Some (RPrompt x) =>
      if decide (p = pm_project_id r) then
        Some (RPrompt (if superseded_by r x then x <| pm_active := false |> else x))
      else old
  | _, _ => old
  end.

Definition put_prompt_row (r : ProjectPromptRecord) : Effect := λ k old,
  if decide (k = KPrompt (pm_project_id r) (pm_prompt_name r) (pm_version r)) then Some (row_prompt r)
  else retire r k old.

(** What a call of the governance state does. *)
Definition call_effect (c : GovCall) : Effect :=
  match c with
  | UpsertPolicy r => put (KPolicy (pp_project_id r)) (Some (row_policy r))
  | DeletePolicy p => put (KPolicy p) None
  | UpsertSafety r => put (KSafety (sp_project_id r)) (Some (row_safety r))
  | DeleteSafety p => put (KSafety p) None
  | UpsertSemantic r => put (KSemantic (sem_project_id r)) (Some (row_semantic r))
  | DeleteSemantic p => put (KSemantic p) None
  | UpsertRule r => put (KRule (rl_rule_id r)) (Some (RRule r))
  | DeleteRule id => put (KRule id) None
  | UpsertTool r => put (KTool (pt_project_id r) (pt_tool_name r)) (Some (row_tool r))
  | DeleteTool p n => put (KTool p n) None
  | UpsertPrompt r => put_prompt_row r
  | DeletePrompt p n v => put (KPrompt p n v) None
  | UpsertRollout _ | Reload => λ _ old, old
  end.

(** ** Rows of one table *)

Section tables.
Variable t : GovTables.

Lemma config_put_policy now r k :
  config (t <| t_policies := <[pp_project_id r := db_policy now r]> (t_policies t) |>) k
  = put (KPolicy (pp_project_id r)) (Some (row_policy r)) k (config t k).
Proof.
  unfold put. destruct k as [p|p|p|p|p n|p n v|p n]; try done. simpl.
  case_decide as Hk; [injection Hk as ->; rewrite lookup_insert_eq; simpl; unfold row_policy; by rewrite db_policy_stamp|].
  by rewrite lookup_insert_ne by congruence.
Qed.

Ltac one_row :=
  intros; unfold put;
  match goal with k : ConfigKey |- _ => destruct k as [p'|p'|p'|p'|p' n'|p' n' v'|p' n'] end; try done; simpl;
  case_decide as Hk; simplify_eq; [by rewrite ?lookup_insert_eq, ?lookup_delete_eq|];
  by rewrite ?lookup_insert_ne, ?lookup_delete_ne by (unfold tool_key, prompt_key, rollout_policy_key; congruence).

Lemma config_drop_policy p k :
  config (t <| t_policies := delete p (t_policies t) |>) k = put (KPolicy p) None k (config t k).
Proof. one_row. Qed.

Lemma config_put_safety now r k :
  config (t <| t_safety := <[sp_project_id r := db_safety now r]> (t_safety t) |>) k
  = put (KSafety (sp_project_id r)) (Some (row_safety r)) k (config t k).
Proof. one_row. Qed.

Lemma config_drop_safety p k :
  config (t <| t_safety := delete p (t_safety t) |>) k = put (KSafety p) None k (config t k).
Proof. one_row. Qed.

Lemma config_put_semantic now r k :
  config (t <| t_semantic := <[sem_project_id r := db_semantic now r]> (t_semantic t) |>) k
  = put (KSemantic (sem_project_id r)) (Some (row_semantic r)) k (config t k).
Proof. one_row. Qed.

Lemma config_drop_semantic p k :
  config (t <| t_semantic := delete p (t_semantic t) |>) k = put (KSemantic p) None k (config t k).
Proof. one_row. Qed.

Lemma config_put_rule r k :
  config (t <| t_rules := <[rl_rule_id r := r]> (t_rules t) |>) k
  = put (KRule (rl_rule_id r)) (Some (RRule r)) k (config t k).
Proof. one_row. Qed.

Lemma config_drop_rule id k :
  config (t <| t_rules := delete id (t_rules t) |>) k = put (KRule id) None k (config t k).
Proof. one_row. Qed.

Lemma config_put_tool now r k :
  config (t <| t_tools := <[tool_key r := db_tool now r]> (t_tools t) |>) k
  = put (KTool (pt_project_id r) (pt_tool_name r)) (Some (row_tool r)) k (config t k).
Proof. one_row. Qed.

Lemma config_drop_tool p n k :
  config (t <| t_tools := delete (p, n) (t_tools t) |>) k = put (KTool p n) None k (config t k).
Proof. one_row. Qed.

Lemma config_drop_prompt p n v k :
  config (t <| t_prompts := delete (p, n, v) (t_prompts t) |>) k = put (KPrompt p n v) None k (config t k).
Proof. one_row. Qed.

Lemma config_put_rollout_policy now r k :
  config (t <| t_rollout_policies := <[rollout_policy_key r := db_rollout_policy now r]> (t_rollout_policies t) |>) k
  = put (KRolloutPolicy (rp_project_id r) (rp_policy_name r)) (Some (row_rollout_policy r)) k (config t k).
Proof. one_row. Qed.

Lemma config_drop_rollout_policy p n k :
  config (t <| t_rollout_policies := delete (p, n) (t_rollout_policies t) |>) k
  = put (KRolloutPolicy p n) None k (config t k).
Proof. one_row. Qed.

Lemma config_history h k : config (t <| t_history := h |>) k = config t k.
Proof. by destruct k. Qed.

End tables.

(** ** The calls of the governance state *)

Section calls.
Context `{SerdeJson} {St : Type} `{GovernanceStoreOk St}.

Notation State := (GovernanceState * option St)%type.
Notation Op := (ST State StoreError).

Definition stored_config (o : option St) (k : ConfigKey) : option ConfigRow :=
  o ≫= λ st, config (gov_tables st) k.

Definition is_ok {E A} (r : result E A) : Prop := match r with Ok _ => True | Err _ => False end.

(** A change of the history is none of the configuration. *)
Definition keeps_config {A} (m : Op A) : Prop := ∀ g st, ∃ st',
  (m (g, Some st)).1.2 = Some st' ∧ ∀ k, config (gov_tables st') k = config (gov_tables st) k.

Lemma record_keeps_config now p ty id action before after :
  keeps_config (record_governance_change (St := St) now p ty id action before after).
Proof.
  intros g st. unfold record_governance_change, mbind, ST_bind, gov_store. simpl.
  match goal with |- context [append_governance_change st ?c] =>
    destruct (append_governance_change st c) as [st' r] eqn:E; apply write_change in E end.
  exists st'. split; [by destruct r|]. intros k. rewrite E. destruct r; [apply config_history|done].
Qed.

Lemma ret_keeps_config {A} (a : A) : keeps_config (mret a : Op A).
Proof. intros g st. by exists st. Qed.

Lemma bind_keeps_config {A B} (m : Op A) (f : A → Op B) :
  keeps_config m → (∀ a, keeps_config (f a)) → keeps_config (m ≫= f).
Proof.
  intros Hm Hf g st. destruct (Hm g st) as (st1 & E1 & C1). unfold mbind, ST_bind.
  destruct (m (g, Some st)) as [[g1 o1] [a|e]]; simpl in E1; subst o1; [|by exists st1].
  destruct (Hf a g1 st1) as (st2 & E2 & C2). exists st2. split; [done|]. intros k. by rewrite C2.
Qed.

Lemma for_keeps_config {A} (l : list A) (f : A → Op ()) :
  (∀ a, keeps_config (f a)) → keeps_config (st_for l f).
Proof.
  intros Hf. induction l as [|a l IH]; [apply ret_keeps_config|]. by apply bind_keeps_config.
Qed.

#[local] Hint Resolve record_keeps_config ret_keeps_config bind_keeps_config for_keeps_config : trp.

(** What follows a statement leaves the configuration as the statement does. *)
Lemma after_store {A B} (call : St → St * result StoreError A) (m : option A → Op B) g st s' b :
  (gov_store call ≫= m) (g, Some st) = (s', b) → (∀ o, keeps_config (m o)) →
  ∃ st1 a, call st = (st1, a) ∧ (is_ok b → is_ok a) ∧ ∀ k, stored_config s'.2 k = config (gov_tables st1) k.
Proof.
  erewrite ST_bind_step by apply gov_store_run. destruct (call st) as [st1 [a|e]]; simpl.
  - intros E Hm. exists st1, (Ok a). split; [done|]. split; [done|]. destruct (Hm (Some a) g st1) as (st2 & E2 & Hk).
    rewrite E in E2. simpl in E2. rewrite E2. exact Hk.
  - intros [= <- <-] _. by exists st1, (Err e).
Qed.

Lemma modify_keeps_config f : keeps_config (gov_modify (St := St) f).
Proof. intros g st. by exists st. Qed.

Lemma get_keeps_config {A} (f : State → Op A) : (∀ s, keeps_config (f s)) → keeps_config (s ← st_get; f s).
Proof. intros Hf. apply bind_keeps_config; [by intros g st; exists st|done]. Qed.

Lemma if_keeps_config {A} (b : bool) (m m' : Op A) :
  keeps_config m → keeps_config m' → keeps_config (if b then m else m').
Proof. by destruct b. Qed.

#[local] Hint Resolve modify_keeps_config get_keeps_config if_keeps_config : trp.

Lemma upsert_config (call : St → St * result StoreError ()) f (m : State → Op ()) g st s' b :
  (∀ s, keeps_config (m s)) →
  (s ← st_get; _ ← gov_store call; _ ← gov_modify f; m s) (g, Some st) = (s', b) →
  ∃ st1 b', call st = (st1, b') ∧ (is_ok b → is_ok b') ∧ ∀ k, stored_config s'.2 k = config (gov_tables st1) k.
Proof.
  intros Hm. erewrite ST_bind_step by reflexivity. cbn iota. intros E.
  apply (after_store call (λ _, _ ← gov_modify f; m (g, Some st))) in E; [done|].
  intros _. apply bind_keeps_config; auto with trp.
Qed.

Lemma delete_rule_config now id g st s' b :
  delete_routing_rule now id (g, Some st) = (s', b) →
  ∃ st1 b', delete_rule_row st id = (st1, b') ∧ (is_ok b → is_ok b') ∧ ∀ k, stored_config s'.2 k = config (gov_tables st1) k.
Proof.
  unfold delete_routing_rule. erewrite ST_bind_step by reflexivity. cbn iota. cbv zeta. intros E.
  eapply (after_store (λ st, delete_rule_row st id)); [exact E|]. intros o. apply get_keeps_config. intros s.
  apply bind_keeps_config; [auto with trp|]. intros _.
  apply bind_keeps_config; [apply if_keeps_config; [destruct (routing_rule _ _)|]; auto with trp|auto with trp].
Qed.

Lemma delete_policy_config now p (call : St → string → St * result StoreError bool) known forget ty id before g st s' b :
  delete_policy_with now p call known forget ty id before (g, Some st) = (s', b) →
  ∃ st1 b', call st p = (st1, b') ∧ (is_ok b → is_ok b') ∧ ∀ k, stored_config s'.2 k = config (gov_tables st1) k.
Proof.
  unfold delete_policy_with. erewrite ST_bind_step by reflexivity. cbn iota. intros E.
  eapply (after_store (λ st, call st p)); [exact E|]. intros o. apply get_keeps_config. intros s. cbv zeta.
  apply bind_keeps_config; [auto with trp|]. intros _.
  apply bind_keeps_config; auto with trp.
Qed.

Lemma delete_row_config now p ty id (call : St → St * result StoreError bool) forget before g st s' b :
  delete_row_with now p ty id call forget before (g, Some st) = (s', b) →
  ∃ st1 b', call st = (st1, b') ∧ (is_ok b → is_ok b') ∧ ∀ k, stored_config s'.2 k = config (gov_tables st1) k.
Proof.
  intros E. eapply after_store; [exact E|]. intros o. apply get_keeps_config. intros s. cbv zeta.
  apply bind_keeps_config; [auto with trp|]. intros _.
  apply bind_keeps_config; auto with trp.
Qed.

(** The rows a prompt takes out of use. *)
Lemma taken_out_row now r g p n v : memory_ok g →
  (∃ x, x ∈ taken_out now r g ∧ prompt_key x = (p, n, v) ∧ superseded_by r <$> mem_prompt g p (n, v) = Some true ∧
     p = pm_project_id r ∧ Some x = deactivated now <$> mem_prompt g p (n, v)) ∨
  (∀ x, x ∈ taken_out now r g → prompt_key x ≠ (p, n, v)) ∧
  (p = pm_project_id r → superseded_by r <$> mem_prompt g p (n, v) ≠ Some true).
Proof.
  intros M. pose proof (λ p k x, row_keys pm_project_id version_key version_hit version_hit_spec _ p k x (mk_prompts _ M)) as K.
  assert (∀ x, x ∈ taken_out now r g → prompt_key x = (p, n, v) → p = pm_project_id r ∧
    ∃ y, mem_prompt g p (n, v) = Some y ∧ superseded_by r y = true ∧ x = deactivated now y) as Hx.
  { intros x (y & Hy & Hs & ->)%taken_out_spec E; [|done]. destruct (K _ _ _ Hy) as [E1 _].
    unfold prompt_key in E. simpl in E. simplify_eq. split; [congruence|]. exists y. by rewrite E1. }
  destruct (decide (p = pm_project_id r)) as [->|Hp]; [|right; split; [|done]; intros x I1 I2; by destruct (Hx x I1 I2)].
  destruct (mem_prompt g (pm_project_id r) (n, v)) as [y|] eqn:Ey; [destruct (superseded_by r y) eqn:Es|].
  - destruct (K _ _ _ Ey) as [E1 E2]. left. exists (deactivated now y). split_and!; try done; [| |by cbn; rewrite Es].
    + apply taken_out_spec; [done|]. exists y. by rewrite E2.
    + unfold prompt_key, version_key in *; cbn. congruence.
  - right. split; [|cbn; congruence]. intros x I1 I2. destruct (Hx x I1 I2) as (_ & z & [= <-] & ? & _). congruence.
  - right. split; [|done]. intros x I1 I2. by destruct (Hx x I1 I2) as (_ & z & ? & _).
Qed.

Lemma retire_row r p n v z : retire r (KPrompt p n v) (Some (row_prompt z)) =
  Some (row_prompt (if decide (p = pm_project_id r)
                    then if superseded_by r z then z <| pm_active := false |> else z else z)).
Proof.
  unfold retire, row_prompt. case_decide; [|done].
  change (superseded_by r (db_prompt "" z)) with (superseded_by r z). by destruct (superseded_by r z).
Qed.

Lemma prompt_config owner now r g st tm stamp k : agrees owner g (gov_tables st) →
  (∀ x, x ∈ taken_out now r g → db_prompt "" <$> tm !! prompt_key x = Some (db_prompt "" x)) →
  (∀ k, (∀ x, x ∈ taken_out now r g → prompt_key x ≠ k) → tm !! k = t_prompts (gov_tables st) !! k) →
  config (gov_tables st <| t_prompts := <[prompt_key r := db_prompt stamp r]> tm |>) k
  = put_prompt_row r k (config (gov_tables st) k).
Proof.
  intros Hag Hin Hout. unfold put_prompt_row. destruct k as [p|p|p|p|p n|p n v|p n]; try done.
  destruct (decide (KPrompt p n v = _)) as [[= -> -> ->]|Hne]; [cbn; by rewrite lookup_insert_eq|].
  cbn [config]. change (t_prompts (gov_tables st <| t_prompts := <[prompt_key r := db_prompt stamp r]> tm |>))
    with (<[prompt_key r := db_prompt stamp r]> tm).
  rewrite lookup_insert_ne by (unfold prompt_key; congruence).
  pose proof (ag_prompts _ _ _ Hag p n v) as Hp.
  assert (∀ y z, db_prompt "" y = db_prompt "" z → superseded_by r z = superseded_by r y ∧
    db_prompt "" (deactivated now y) = db_prompt "" (z <| pm_active := false |>)) as Hyz.
  { intros y z E. split; [|change (db_prompt "" y <| pm_active := false |> = db_prompt "" z <| pm_active := false |>); by rewrite E].
    change (superseded_by r z) with (superseded_by r (db_prompt "" z)). by rewrite <-E. }
  destruct (taken_out_row now r g p n v (ag_memory _ _ _ Hag)) as [(x & Hx & Ek & Es & Hpr & Ex)|[Hx Hs]].
  - specialize (Hin x Hx). rewrite Ek in Hin. destruct (mem_prompt g p (n, v)) as [y|]; [|done]. cbn in Es, Ex. simplify_eq.
    destruct (t_prompts (gov_tables st) !! _) as [z|]; [|done]. destruct (tm !! _) as [w|]; [|done].
    apply (inj Some) in Hp, Hin. destruct (Hyz y z Hp) as [Es' Ed]. cbn [fmap option_fmap option_map].
    rewrite retire_row, decide_True, Es', Es by done. unfold row_prompt. by rewrite Hin, Ed.
  - rewrite Hout by done. destruct (t_prompts (gov_tables st) !! (p, n, v)) as [z|]; [|done].
    cbn [fmap option_fmap option_map]. rewrite retire_row. case_decide as Hpr; [|done]. specialize (Hs Hpr).
    destruct (mem_prompt g p (n, v)) as [y|]; [|done]. apply (inj Some) in Hp. destruct (Hyz y z Hp) as [Es' _].
    rewrite Es'. cbn in Hs. by destruct (superseded_by r y).
Qed.

Lemma upsert_prompt_config owner now r g st s' : agrees owner g (gov_tables st) →
  upsert_project_prompt now r (g, Some st) = (s', Ok ()) →
  ∀ k, stored_config s'.2 k = put_prompt_row r k (config (gov_tables st) k).
Proof.
  intros Hag E. unfold upsert_project_prompt in E.
  erewrite ST_bind_step in E by reflexivity. cbn iota zeta in E.
  erewrite ST_bind_step in E by reflexivity. cbn iota in E. simpl fst in E.
  apply ST_bind_ok in E as (s1 & [] & E1 & E). change (fmap _ (filter _ _)) with (taken_out now r g) in E, E1.
  apply write_taken_out in E1 as (st1 & tm & -> & Et & Hf & Hin & Hout);
    [|by apply taken_out_keys, (ag_memory _ _ _ Hag)|apply (tk_prompts _ (ag_tables _ _ _ Hag))].
  apply after_store in E as (st2 & [[]|] & [stamp Ew]%write_prompt & Hok & Hk);
    [|by destruct Hok|intros _; apply bind_keeps_config; auto with trp].
  intros k. rewrite Hk, Ew, Et. cbn [written].
  change (config (gov_tables st <| t_prompts := <[prompt_key r := db_prompt stamp r]> tm |>) k = put_prompt_row r k (config (gov_tables st) k)).
  by eapply prompt_config.
Qed.

(** What a call does to the configuration: all of its effect or, when it fails,
    perhaps nothing. *)
Lemma steady_call_config now c g st s' r : ¬ fragile c → gov_call now c (g, Some st) = (s', r) →
  (∀ k, stored_config s'.2 k = call_effect c k (config (gov_tables st) k)) ∨
  ¬ is_ok r ∧ ∀ k, stored_config s'.2 k = config (gov_tables st) k.
Proof.
  intros Hf E.
  assert (∀ m : Op bool, (_ ← m; mret ()) (g, Some st) = (s', r) →
    ∃ b, m (g, Some st) = (s', b) ∧ (is_ok r → is_ok b)) as Hd.
  { intros m. unfold mbind, ST_bind. destruct (m (g, Some st)) as [s1 [b|e]]; intros [= <- <-];
      [by exists (Ok b)|by exists (Err e)]. }
  destruct c as [x|p|x|p|x|p|x|id|x|p n|x|p n v|x|]; try (by destruct Hf); cbn [gov_call] in E; cbn [call_effect].
  - apply upsert_config in E as (st1 & b & [stamp Et]%write_policy & Hok & Hk); [|auto with trp].
    destruct b; [left|right; split; [by intros ?%Hok|]]; intros k; rewrite Hk, Et; [apply config_put_policy|done].
  - apply Hd in E as (b & E & Hb). apply delete_policy_config in E as (st1 & b' & [Et _]%remove_policy & Hok & Hk).
    destruct b'; [left|right; split; [by intros ?%Hb%Hok|]]; intros k; rewrite Hk, Et; [apply config_drop_policy|done].
  - apply upsert_config in E as (st1 & b & [stamp Et]%write_safety & Hok & Hk); [|auto with trp].
    destruct b; [left|right; split; [by intros ?%Hok|]]; intros k; rewrite Hk, Et; [apply config_put_safety|done].
  - apply Hd in E as (b & E & Hb). apply delete_policy_config in E as (st1 & b' & [Et _]%remove_safety & Hok & Hk).
    destruct b'; [left|right; split; [by intros ?%Hb%Hok|]]; intros k; rewrite Hk, Et; [apply config_drop_safety|done].
  - apply upsert_config in E as (st1 & b & [stamp Et]%write_semantic & Hok & Hk); [|auto with trp].
    destruct b; [left|right; split; [by intros ?%Hok|]]; intros k; rewrite Hk, Et; [apply config_put_semantic|done].
  - apply Hd in E as (b & E & Hb). apply delete_policy_config in E as (st1 & b' & [Et _]%remove_semantic & Hok & Hk).
    destruct b'; [left|right; split; [by intros ?%Hb%Hok|]]; intros k; rewrite Hk, Et; [apply config_drop_semantic|done].
  - apply upsert_config in E as (st1 & b & Et%write_rule & Hok & Hk); [|auto with trp].
    destruct b; [left|right; split; [by intros ?%Hok|]]; intros k; rewrite Hk, Et; [apply config_put_rule|done].
  - apply Hd in E as (b & E & Hb). apply delete_rule_config in E as (st1 & b' & [Et _]%remove_rule & Hok & Hk).
    destruct b'; [left|right; split; [by intros ?%Hb%Hok|]]; intros k; rewrite Hk, Et; [apply config_drop_rule|done].
  - apply upsert_config in E as (st1 & b & [stamp Et]%write_tool & Hok & Hk); [|auto with trp].
    destruct b; [left|right; split; [by intros ?%Hok|]]; intros k; rewrite Hk, Et; [apply config_put_tool|done].
  - apply Hd in E as (b & E & Hb). apply delete_row_config in E as (st1 & b' & [Et _]%remove_tool & Hok & Hk).
    destruct b'; [left|right; split; [by intros ?%Hb%Hok|]]; intros k; rewrite Hk, Et; [apply config_drop_tool|done].
  - apply Hd in E as (b & E & Hb). apply delete_row_config in E as (st1 & b' & [Et _]%remove_prompt & Hok & Hk).
    destruct b'; [left|right; split; [by intros ?%Hb%Hok|]]; intros k; rewrite Hk, Et; [apply config_drop_prompt|done].
  - apply (after_store _ (λ _, gov_modify _)) in E as (st1 & b & Et%write_rollout & Hok & Hk); [|auto with trp].
    destruct b; [left|right; split; [by intros ?%Hok|]]; intros k; rewrite Hk, Et; by destruct k.
Qed.

Lemma call_config owner now c s s' : rule_stays owner c → c ≠ Reload → in_step owner s →
  gov_call now c s = (s', Ok ()) →
  in_step owner s' ∧ ∀ k, stored_config s'.2 k = call_effect c k (stored_config s.2 k).
Proof.
  intros Hr Hl Hs E. split.
  { destruct c; try done; try (specialize (steady_call_in_step owner now _ Hr ltac:(intros []) s Hs) as Hp; by rewrite E in Hp).
    by eapply upsert_prompt_in_step. }
  destruct s as [g o]. destruct Hs as (st & Ho & Hag). cbn in Ho. subst o. cbn [snd stored_config].
  destruct c; try done; try (apply steady_call_config in E as [Hk|[Hn _]]; [exact Hk|by destruct Hn|by intros []]).
  by eapply upsert_prompt_config.
Qed.

End calls.

(** ** Operations on the configuration *)

Definition find_key_of {A K} `{EqDecision K} (key : A → K) (κ : K) (l : list A) : option A :=
  find_first (λ r, bool_decide (key r = κ)) l.

Lemma find_key_of_None {A K} `{EqDecision K} (key : A → K) κ l :
  κ ∉ key <$> l → find_key_of key κ l = None.
Proof.
  intros Hκ. apply find_first_None, Forall_forall. intros x Hx. apply bool_decide_eq_false. intros <-.
  by apply Hκ, list_elem_of_fmap_2.
Qed.

Lemma find_key_of_Some {A K} `{EqDecision K} (key : A → K) l r :
  NoDup (key <$> l) → r ∈ l → find_key_of key (key r) l = Some r.
Proof.
  intros Hnd Hr.
  assert (∀ κ r, bool_decide (key r = κ) = true ↔ key r = κ) as Hspec by (intros; apply bool_decide_eq_true).
  by apply (proj2 (find_key key (λ κ r, bool_decide (key r = κ)) Hspec l (key r) r Hnd)).
Qed.

Section effects.
Context {St : Type} `{GovernanceStoreOk St} {R : Type}.
Variable owner : string → string.

Notation CM := (ST (ConfigState St R) string).

Definition in_force (s : ConfigState St R) : ConfigKey → option ConfigRow := stored_config (ca_store s).

(** Memory and tables agree, and the rollout policies are under their keys. *)
Definition steady (s : ConfigState St R) : Prop :=
  in_step owner (ca_gov s, ca_store s) ∧
  ∀ p n r, in_force s (KRolloutPolicy p n) = Some (RRolloutPolicy r) → rollout_policy_key r = (p, n).

(** What an operation that succeeds does to the configuration. *)
Definition effects {A} (m : CM A) (F : Effect) : Prop := ∀ s s' a,
  steady s → m s = (s', Ok a) → steady s' ∧ ∀ k, in_force s' k = F k (in_force s k).

Lemma effects_bind {A B} (m : CM A) (f : A → CM B) F G :
  effects m F → (∀ a, effects (f a) G) → effects (m ≫= f) (λ k o, G k (F k o)).
Proof.
  intros Hm Hf s s' b Hs (s1 & a & E1 & E)%ST_bind_ok. destruct (Hm s s1 a Hs E1) as [Hs1 F1].
  destruct (Hf a s1 s' b Hs1 E) as [Hs' G1]. split; [done|]. intros k. by rewrite G1, F1.
Qed.

Lemma effects_seq {A B} (m : CM A) (f : A → CM B) F G :
  effects m F → (∀ a, effects (f a) G) → effects (m ≫= f) (and_then F G).
Proof. exact (effects_bind m f F G). Qed.

Lemma effects_keeps {A} (m : CM A) :
  (∀ s, ca_gov (m s).1 = ca_gov s ∧ ca_store (m s).1 = ca_store s) → effects m (λ _ o, o).
Proof.
  intros Hm s s' a Hs E. specialize (Hm s). rewrite E in Hm. destruct Hm as [Hg Ho]. simpl in Hg, Ho.
  unfold steady, in_force. by rewrite Hg, Ho.
Qed.

Lemma effects_ret {A} (a : A) : effects (mret a) (λ _ o, o).
Proof. by apply effects_keeps. Qed.

Lemma effects_fail {A} e F : effects (st_fail e : CM A) F.
Proof. by intros s s' a Hs [=]. Qed.

Lemma effects_then {A B} (m : CM A) (f : A → CM B) F :
  effects m (λ _ o, o) → (∀ a, effects (f a) F) → effects (m ≫= f) F.
Proof. apply effects_bind. Qed.

Lemma effects_drop {A B} (m : CM A) (b : B) F : effects m F → effects (_ ← m; mret b) F.
Proof. intros Hm. apply (effects_bind m _ F (λ _ o, o)); [done|]. intros _. apply effects_ret. Qed.

Lemma effects_for {A} (l : list A) (f : A → CM ()) (F : A → Effect) :
  (∀ a, a ∈ l → effects (f a) (F a)) → effects (st_for l f) (λ k o, foldl (λ o a, F a k o) o l).
Proof.
  induction l as [|a l IH]; intros Hf; [apply effects_ret|].
  apply (effects_bind _ _ (F a) (λ k o, foldl (λ o a, F a k o) o l)); [apply Hf; by left|]. intros _. apply IH. intros x Hx. apply Hf. by right.
Qed.

Lemma effects_ext {A} (m : CM A) F G : effects m F → (∀ k o, F k o = G k o) → effects m G.
Proof.
  intros Hm HFG s s' a Hs E. destruct (Hm s s' a Hs E) as [Hs' Hk]. split; [done|]. intros k. by rewrite Hk.
Qed.

Lemma in_remote_effects {A} (op : ST R string A) : effects (in_remote op) (λ _ o, o).
Proof. apply effects_keeps. intros s. unfold in_remote, st_zoom. by destruct (op (ca_remote s)). Qed.

Lemma of_result_effects {A} (r : result string A) : effects (of_result r) (λ _ o, o).
Proof. by apply effects_keeps. Qed.

(** A call of the governance state. *)
Lemma governance_effects `{SerdeJson} {A} c (op : Z → ST (GovernanceState * option St) StoreError A) :
  rule_stays owner c → c ≠ Reload →
  (∀ now s s' a, op now s = (s', Ok a) → gov_call now c s = (s', Ok ())) →
  effects (in_governance op) (call_effect c).
Proof.
  intros Hr Hl Hop. apply effects_then; [by apply effects_keeps|]. intros now s s' a [Hs Hf] E.
  unfold governance_call in E. destruct (op now (ca_gov s, ca_store s)) as [[g st] [a'|e]] eqn:Eo; [|done].
  injection E as <- _. apply Hop in Eo. destruct (call_config owner now c _ _ Hr Hl Hs Eo) as [Hs' Hk].
  split; [|exact Hk]. split; [exact Hs'|]. intros p n r Hi. apply (Hf p n r).
  change (stored_config st (KRolloutPolicy p n) = Some (RRolloutPolicy r)) in Hi.
  cbn [snd] in Hk. rewrite <-Hi, Hk. unfold call_effect, put, put_prompt_row. destruct c; by try (rewrite decide_False by congruence).
Qed.

(** A write of a rollout policy. *)
Lemma put_rollout_policy_effects r :
  effects (on_store (λ st, upsert_rollout_policy_row st r))
    (put (KRolloutPolicy (rp_project_id r) (rp_policy_name r)) (Some (row_rollout_policy r))).
Proof.
  intros s s' a [Hs Hf] E. unfold on_store in E. destruct Hs as (st & Ho & Hag). cbn in Ho, Hag. rewrite Ho in E.
  destruct (upsert_rollout_policy_row st r) as [st' [[]|]] eqn:Ew; [|done]. injection E as <- _.
  apply write_rollout_policy in Ew as [now Et]. cbn in Et.
  assert (∀ k, in_force (s <| ca_store := Some st' |>) k = put (KRolloutPolicy (rp_project_id r) (rp_policy_name r))
    (Some (row_rollout_policy r)) k (in_force s k)) as Hk.
  { intros k. unfold in_force. cbn [stored_config ca_store]. rewrite Ho. cbn. rewrite Et. apply config_put_rollout_policy. }
  split; [|exact Hk]. split.
  - exists st'. split; [done|]. cbn. rewrite Et. destruct Hag as [[] M]. by split.
  - intros p n r'. rewrite Hk. unfold put. case_decide as E; [|apply Hf]. by injection E as -> ->; intros [= <-].
Qed.

Lemma drop_rollout_policy_effects p n :
  effects (on_store (λ st, delete_rollout_policy_row st (p, n))) (put (KRolloutPolicy p n) None).
Proof.
  intros s s' a [Hs Hf] E. unfold on_store in E. destruct Hs as (st & Ho & Hag). cbn in Ho, Hag. rewrite Ho in E.
  destruct (delete_rollout_policy_row st (p, n)) as [st' [b|]] eqn:Ew; [|done]. injection E as <- _.
  apply remove_rollout_policy in Ew as [Et _]. cbn in Et.
  assert (∀ k, in_force (s <| ca_store := Some st' |>) k = put (KRolloutPolicy p n) None k (in_force s k)) as Hk.
  { intros k. unfold in_force. cbn [stored_config ca_store]. rewrite Ho. cbn. rewrite Et. apply config_drop_rollout_policy. }
  split; [|exact Hk]. split.
  - exists st'. split; [done|]. cbn. rewrite Et. destruct Hag as [[] M]. by split.
  - intros p' n' r'. rewrite Hk. unfold put. case_decide as E; [done|apply Hf].
Qed.

Lemma steady_agrees (s : ConfigState St R) : steady s →
  ∃ st, ca_store s = Some st ∧ agrees owner (ca_gov s) (gov_tables st) ∧ ∀ k, in_force s k = config (gov_tables st) k.
Proof.
  intros [(st & Ho & Hag) _]. exists st. split; [done|]. split; [done|]. intros k. unfold in_force.
  cbn in Ho. by rewrite Ho.
Qed.

Lemma rollout_policies_read (s : ConfigState St R) s1 l p : steady s →
  on_store (λ st, get_rollout_policy_rows st (Some p)) s = (s1, Ok l) →
  steady s1 ∧ ca_gov s1 = ca_gov s ∧ (∀ k, in_force s1 k = in_force s k) ∧
  NoDup (rp_policy_name <$> l) ∧
  ∀ r, r ∈ l ↔ rp_project_id r = p ∧ ∃ st, ca_store s = Some st ∧ t_rollout_policies (gov_tables st) !! (p, rp_policy_name r) = Some r.
Proof.
  intros [(st & Ho & Hag) Hf] E. cbn in Ho, Hag. unfold on_store in E. rewrite Ho in E.
  destruct (get_rollout_policy_rows st (Some p)) as [st' [l'|]] eqn:Er; [|done]. injection E as <- ->.
  apply read_rollout_policies in Er as [Et Hl]. specialize (Hl l eq_refl). unfold rollout_policies_query in Hl. cbn [from_option] in Hl.
  assert (filed rollout_policy_key (t_rollout_policies (gov_tables st))) as Hfiled.
  { intros [q n] r Hr. change (rollout_policy_key (db_rollout_policy "" r) = (q, n)). apply (Hf q n).
    unfold in_force. rewrite Ho. cbn. by rewrite Hr. }
  assert (∀ k, in_force (s <| ca_store := Some st' |>) k = in_force s k) as Hk.
  { intros k. unfold in_force. rewrite Ho. cbn. by rewrite Et. }
  split_and!; [|done|done|..].
  - split; [|intros q n r; rewrite Hk; apply Hf]. exists st'. split; [done|]. cbn. by rewrite Et.
  - rewrite Hl, sort_by_perm. rewrite (list_filter_iff _ (λ r, rp_project_id r = p)) by (intros r; apply String.eqb_eq).
    apply (project_keys _ _ rollout_policy_key); [unfold rollout_policy_key; congruence|]. by apply rows_NoDup.
  - intros r. rewrite Hl, sort_by_perm, list_elem_of_filter, String.eqb_eq, (elem_of_rows_filed rollout_policy_key) by done.
    unfold rollout_policy_key. rewrite Ho. naive_solver.
Qed.

End effects.

(** *** The records of one kind *)

Section records.
Context {St : Type} `{GovernanceStoreOk St} {R : Type}.
Variable owner : string → string.

Notation CM := (ST (ConfigState St R) string).

Context {A K : Type} `{Countable K} (key : A → K) (row : A → ConfigRow) (mk : K → ConfigKey).
(** The keys that are the project's, and what the write of a record does to the
    other records. *)
Variables (slot : ConfigKey → option K) (touch : A → Effect) (records : list A).
Hypothesis slot_mk : ∀ k κ, slot k = Some κ → k = mk κ.
Hypothesis slot_record : ∀ r, r ∈ records → slot (mk (key r)) = Some (key r).
Hypothesis touch_none : ∀ r k, touch r k None = None.
Hypothesis touch_out : ∀ r k o, r ∈ records → slot k = None → touch r k o = o.
Hypothesis touch_in : ∀ r r', r ∈ records → r' ∈ records → key r ≠ key r' →
  touch r (mk (key r')) (Some (row r')) = Some (row r').
Hypothesis records_keys : NoDup (key <$> records).

Definition write_record (r : A) : Effect := λ k o, if decide (k = mk (key r)) then Some (row r) else touch r k o.

(** The records of the project are those given. *)
Definition hold_records : Effect := λ k o,
  match slot k with
  | Some κ => row <$> find_key_of key κ records
  | None => o
  end.

Lemma removed_rows κs k o : foldl (λ o κ, put (mk κ) None k o) o κs = if decide (k ∈ mk <$> κs) then None else o.
Proof.
  clear -κs. revert o. induction κs as [|κ κs IH]; intros o; cbn [foldl fmap list_fmap].
  { rewrite decide_False; [done|apply not_elem_of_nil]. }
  rewrite IH. unfold put. destruct (decide (k = mk κ)) as [->|Hne].
  - rewrite (decide_True (P := mk κ ∈ _ :: _)) by (by left). by case_decide.
  - case_decide as Hin; [by rewrite decide_True by (by right)|]. rewrite decide_False; [done|]. set_solver.
Qed.

Lemma written_outside l k o : l ⊆ records → slot k = None → foldl (λ o r, write_record r k o) o l = o.
Proof.
  intros Hl Hk. induction l as [|r l IH]; [done|]. cbn [foldl].
  assert (write_record r k o = o) as ->.
  { unfold write_record. rewrite decide_False; [apply touch_out; [set_solver|done]|].
    intros ->. rewrite slot_record in Hk; [done|set_solver]. }
  apply IH. set_solver.
Qed.

Lemma written_none l κ : κ ∉ key <$> l → slot (mk κ) = Some κ → l ⊆ records →
  foldl (λ o r, write_record r (mk κ) o) None l = None.
Proof.
  intros Hκ Hs Hl. induction l as [|r l IH]; [done|]. cbn [foldl]. unfold write_record at 2.
  rewrite decide_False.
  - rewrite touch_none. apply IH; set_solver.
  - intros E. rewrite E, slot_record in Hs by set_solver. injection Hs as Hs. set_solver.
Qed.

Lemma written_stays l r : key r ∉ key <$> l → r ∈ records → l ⊆ records →
  foldl (λ o x, write_record x (mk (key r)) o) (Some (row r)) l = Some (row r).
Proof.
  intros Hκ Hr Hl. induction l as [|x l IH]; [done|]. cbn [foldl].
  assert (write_record x (mk (key r)) (Some (row r)) = Some (row r)) as ->; [|apply IH; set_solver].
  unfold write_record. rewrite decide_False.
  - apply touch_in; [set_solver|done|]. intros E. apply Hκ. rewrite <-E. by left.
  - intros E. pose proof (slot_record x) as Sx. rewrite <-E, slot_record in Sx by done.
    specialize (Sx ltac:(set_solver)). injection Sx as Sx. set_solver.
Qed.

Lemma written_in l r o : r ∈ l → NoDup (key <$> l) → l ⊆ records →
  foldl (λ o x, write_record x (mk (key r)) o) o l = Some (row r).
Proof.
  intros Hr Hnd Hl. revert o. induction l as [|x l IH]; intros o; [by apply elem_of_nil in Hr|].
  rewrite fmap_cons in Hnd. apply NoDup_cons in Hnd as [Hx Hnd]. apply elem_of_cons in Hr as [->|Hr]; cbn [foldl].
  - unfold write_record at 2. rewrite decide_True by done. apply written_stays; [done|set_solver..].
  - apply IH; [done|done|set_solver].
Qed.

Lemma apply_records_at (existing : ConfigState St R → list A) (remove : K → CM ()) (upsert : A → CM ()) s s' :
  (∀ κ, effects owner (remove κ) (put (mk κ) None)) →
  (∀ r, r ∈ records → effects owner (upsert r) (write_record r)) →
  steady owner s → (∀ κ, κ ∈ key <$> existing s → slot (mk κ) = Some κ) →
  (∀ κ, slot (mk κ) = Some κ → is_Some (in_force s (mk κ)) → κ ∈ key <$> existing s) →
  apply_records key existing records remove upsert s = (s', Ok ()) →
  steady owner s' ∧ ∀ k, in_force s' k = hold_records k (in_force s k).
Proof.
  intros Hrm Hup Hs Hslot Hall E. unfold apply_records in E.
  erewrite ST_bind_step in E by reflexivity. cbn iota in E.
  set (κs := difference _ _) in E. assert (∀ κ, κ ∈ κs ↔ κ ∈ key <$> existing s ∧ κ ∉ key <$> records) as Hκs.
  { intros κ. unfold κs, difference. rewrite elem_of_elements, elem_of_difference, !elem_of_list_to_set. done. }
  destruct (effects_bind owner _ _ _ _ (effects_for owner κs remove (λ κ, put (mk κ) None) (λ κ _, Hrm κ))
    (λ _ : (), effects_for owner records upsert write_record Hup) s s' () Hs E) as [Hs' Hk].
  split; [done|]. intros k. rewrite Hk, removed_rows. unfold hold_records. clear Hk E Hup Hrm.
  destruct (slot k) as [κ|] eqn:Ek.
  - pose proof (slot_mk _ _ Ek) as ->. destruct (decide (κ ∈ key <$> records)) as [Hin|Hout].
    + apply list_elem_of_fmap in Hin as (r & -> & Hr). rewrite find_key_of_Some by done. by apply written_in.
    + rewrite find_key_of_None by done. case_decide as Hd; [by apply written_none|].
      assert (in_force s (mk κ) = None) as ->; [|by apply written_none].
      apply eq_None_not_Some. intros Hi. apply Hd. apply list_elem_of_fmap_2, Hκs. split; [|done]. by apply Hall.
  - rewrite decide_False; [by apply written_outside|]. intros (κ & -> & Hκ)%list_elem_of_fmap.
    apply Hκs in Hκ as [Hκ _]. by rewrite Hslot in Ek.
Qed.

End records.

(** ** Snapshots *)

(** The configuration a snapshot stands for. *)
Definition snapshot_config (c : ProjectConfigSnapshot) (k : ConfigKey) : option ConfigRow :=
  match k with
  | KPolicy _ => row_policy <$> sn_policy c
  | KRule id => RRule <$> find_key_of rl_rule_id id (sn_routing_rules c)
  | KSafety _ => row_safety <$> sn_safety_policy c
  | KSemantic _ => row_semantic <$> sn_semantic_policy c
  | KTool _ n => row_tool <$> find_key_of pt_tool_name n (sn_tools c)
  | KPrompt _ n v => row_prompt <$> find_key_of version_key (n, v) (sn_prompts c)
  | KRolloutPolicy _ n => row_rollout_policy <$> find_key_of rp_policy_name n (sn_rollout_policies c)
  end.

(** The project of a key; a rule's is that of its identifier. *)
Definition key_project (owner : string → string) (k : ConfigKey) : string :=
  match k with
  | KPolicy p | KSafety p | KSemantic p | KTool p _ | KPrompt p _ _ | KRolloutPolicy p _ => p
  | KRule id => owner id
  end.

(** The records belong to the project. *)
Record snapshot_owned (c : ProjectConfigSnapshot) : Prop := {
  so_policy : ∀ r, sn_policy c = Some r → pp_project_id r = sn_project_id c;
  so_safety : ∀ r, sn_safety_policy c = Some r → sp_project_id r = sn_project_id c;
  so_semantic : ∀ r, sn_semantic_policy c = Some r → sem_project_id r = sn_project_id c;
  so_rules : ∀ r, r ∈ sn_routing_rules c → rl_project_id r = sn_project_id c;
  so_tools : ∀ r, r ∈ sn_tools c → pt_project_id r = sn_project_id c;
  so_prompts : ∀ r, r ∈ sn_prompts c → pm_project_id r = sn_project_id c;
  so_rollout_policies : ∀ r, r ∈ sn_rollout_policies c → rp_project_id r = sn_project_id c;
}.

(** One record per key, the identifiers of the rules are the project's, and one
    version of a prompt is in use per environment. *)
Record snapshot_distinct (owner : string → string) (c : ProjectConfigSnapshot) : Prop := {
  sd_rules : NoDup (rl_rule_id <$> sn_routing_rules c);
  sd_tools : NoDup (pt_tool_name <$> sn_tools c);
  sd_prompts : NoDup (version_key <$> sn_prompts c);
  sd_rollout_policies : NoDup (rp_policy_name <$> sn_rollout_policies c);
  sd_owner : ∀ r, r ∈ sn_routing_rules c → owner (rl_rule_id r) = rl_project_id r;
  sd_active : ∀ r r', r ∈ sn_prompts c → r' ∈ sn_prompts c → pm_prompt_name r = pm_prompt_name r' →
    pm_environment r = pm_environment r' → pm_active r = true → pm_active r' = true → pm_version r = pm_version r';
}.

Lemma check_all_Ok {A} (check : A → result string ()) l :
  check_all check l = Ok () → ∀ x, x ∈ l → check x = Ok ().
Proof.
  induction l as [|x l IH]; cbn; [by intros _ ? ?%elem_of_nil|].
  destruct (check x) as [[]|] eqn:E; [|done]. intros Hl y [->|Hy]%elem_of_cons; [done|]. by apply IH.
Qed.

Lemma refuse_unless_Ok b m : refuse_unless b m = Ok () → b = true.
Proof. by destruct b. Qed.

Lemma check_then (m k : result string ()) : (let? _ := m in k) = Ok () → m = Ok () ∧ k = Ok ().
Proof. by destruct m as [[]|]. Qed.

Lemma owned_by {A} (project : A → string) p (o : option A) m :
  refuse_unless (from_option (λ r, String.eqb (project r) p) true o) m = Ok () → ∀ r, o = Some r → project r = p.
Proof. intros E%refuse_unless_Ok r ->. by apply String.eqb_eq. Qed.

Lemma validated_owned `{SerdeJson} serde_error c :
  validate_project_config_snapshot_inner serde_error c = Ok () → snapshot_owned c.
Proof.
  unfold validate_project_config_snapshot_inner. cbv zeta.
  intros [_ [V1 [V2 [V3 [V4 [V5 [V6 [V7 _]%check_then]%check_then]%check_then]%check_then]%check_then]%check_then]%check_then]%check_then.
  split; [by apply (owned_by _ _ _ _ V1)|by apply (owned_by _ _ _ _ V2)|by apply (owned_by _ _ _ _ V3)|..]; intros r Hr.
  - by apply (check_all_Ok _ _ V4), check_then in Hr as [?%refuse_unless_Ok%String.eqb_eq _].
  - by apply (check_all_Ok _ _ V5), check_then in Hr as [?%refuse_unless_Ok%String.eqb_eq _].
  - by apply (check_all_Ok _ _ V6), check_then in Hr as [?%refuse_unless_Ok%String.eqb_eq _].
  - by apply (check_all_Ok _ _ V7), check_then in Hr as [?%refuse_unless_Ok%String.eqb_eq _].
Qed.

(** ** Applying a snapshot *)

Section apply.
Context `{SerdeJson} `{PolicyTexts} {St : Type} `{GovernanceStoreOk St} {R : Type} `{SafetyClient R}
  (parts : ConfigParts).
Variable owner : string → string.

Notation CM := (ST (ConfigState St R) string).

Lemma unit_effects {A} c (op : Z → ST (GovernanceState * option St) StoreError A) :
  rule_stays owner c → c ≠ Reload →
  (∀ now s, gov_call now c s = (_ ← op now; mret ()) s) →
  effects owner (gov_unit (R := R) op) (call_effect c).
Proof.
  intros Hr Hl Hop. apply effects_drop. apply (governance_effects owner c); [done|done|].
  intros now s s' a E. rewrite Hop. by erewrite ST_bind_step by exact E.
Qed.

Lemma call_effects c (op : Z → ST (GovernanceState * option St) StoreError ()) :
  rule_stays owner c → c ≠ Reload → (∀ now s, gov_call now c s = op now s) →
  effects owner (in_governance (R := R) op) (call_effect c).
Proof. intros Hr Hl Hop. apply (governance_effects owner c); [done|done|]. intros now s s' [] E. by rewrite Hop. Qed.

Lemma apply_record_effects {A} (o : option A) (upsert : A → CM ()) (remove : CM ()) k row :
  (∀ r, o = Some r → effects owner (upsert r) (put k (Some (row r)))) →
  effects owner remove (put k None) → effects owner (apply_record o upsert remove) (put k (row <$> o)).
Proof. destruct o as [r|]; intros Hu Hr; [by apply Hu|done]. Qed.

(** *** The stages *)

Variable c : ProjectConfigSnapshot.
Hypothesis owned : snapshot_owned c.
Hypothesis distinct : snapshot_distinct owner c.

Notation project_id := (sn_project_id c).

Definition is_policy_key (k : ConfigKey) : bool := match k with KPolicy _ => true | _ => false end.
Definition is_rule_key (k : ConfigKey) : bool := match k with KRule _ => true | _ => false end.
Definition is_safety_key (k : ConfigKey) : bool := match k with KSafety _ => true | _ => false end.
Definition is_semantic_key (k : ConfigKey) : bool := match k with KSemantic _ => true | _ => false end.
Definition is_tool_key (k : ConfigKey) : bool := match k with KTool _ _ => true | _ => false end.
Definition is_prompt_key (k : ConfigKey) : bool := match k with KPrompt _ _ _ => true | _ => false end.
Definition is_rollout_policy_key (k : ConfigKey) : bool := match k with KRolloutPolicy _ _ => true | _ => false end.

(** The records of one kind are those of the snapshot. *)
Definition stage (kind : ConfigKey → bool) : Effect := λ k o,
  if decide (kind k = true ∧ key_project owner k = project_id) then snapshot_config c k else o.

Ltac stage_at_key :=
  let k := fresh "k" in let o := fresh "o" in
  intros k o; unfold put, stage; destruct k; cbn; repeat case_decide; naive_solver.

Lemma policy_stage : effects owner
  (apply_record (R := R) (sn_policy c)
     (λ r, in_governance (λ now, Governance.upsert_project_policy now r))
     (gov_unit (λ now, Governance.delete_project_policy now project_id))) (stage is_policy_key).
Proof.
  eapply effects_ext; [apply (apply_record_effects _ _ _ (KPolicy project_id) row_policy)|stage_at_key].
  - intros r Hr. rewrite <-(so_policy _ owned r Hr). by apply (call_effects (UpsertPolicy r)).
  - by apply (unit_effects (DeletePolicy project_id)).
Qed.

Lemma safety_stage : effects owner
  (apply_record (R := R) (sn_safety_policy c)
     (λ r, in_governance (λ now, upsert_safety_policy now r))
     (gov_unit (λ now, delete_safety_policy now project_id))) (stage is_safety_key).
Proof.
  eapply effects_ext; [apply (apply_record_effects _ _ _ (KSafety project_id) row_safety)|stage_at_key].
  - intros r Hr. rewrite <-(so_safety _ owned r Hr). by apply (call_effects (UpsertSafety r)).
  - by apply (unit_effects (DeleteSafety project_id)).
Qed.

Lemma semantic_stage : effects owner (apply_semantic_policy parts c) (stage is_semantic_key).
Proof.
  eapply effects_ext; [apply (apply_record_effects _ _ _ (KSemantic project_id) row_semantic)|stage_at_key].
  - intros r Hr. rewrite <-(so_semantic _ owned r Hr).
    apply (effects_bind owner _ _ (call_effect (UpsertSemantic r)) (λ _ o, o)); [by apply (call_effects (UpsertSemantic r))|].
    intros _. destruct (cx_safety parts) as [plugin|]; [|apply effects_ret].
    apply effects_then; [apply in_remote_effects|]. intros m. destruct (mr_sync_error m); [apply effects_fail|apply effects_ret].
  - apply (effects_bind owner _ _ (call_effect (DeleteSemantic project_id)) (λ _ o, o)).
    + apply (governance_effects owner (DeleteSemantic project_id)); [done|done|].
      intros now s s' b E. cbn [gov_call]. by erewrite ST_bind_step by exact E.
    + intros _. destruct (cx_safety parts) as [plugin|]; [apply in_remote_effects|apply effects_ret].
Qed.

(** *** The lists *)

Definition rule_slot (k : ConfigKey) : option string :=
  match k with KRule id => if decide (owner id = project_id) then Some id else None | _ => None end.

Definition tool_slot (k : ConfigKey) : option string :=
  match k with KTool p n => if decide (p = project_id) then Some n else None | _ => None end.

Definition prompt_slot (k : ConfigKey) : option (string * string) :=
  match k with KPrompt p n v => if decide (p = project_id) then Some (n, v) else None | _ => None end.

Definition rollout_policy_slot (k : ConfigKey) : option string :=
  match k with KRolloutPolicy p n => if decide (p = project_id) then Some n else None | _ => None end.

Definition untouched {A} : A → Effect := λ _ _ o, o.

Lemma rules_stage : effects owner
  (apply_records (R := R) rl_rule_id (λ s, list_routing_rules (ca_gov s) (Some project_id)) (sn_routing_rules c)
     (λ id, gov_unit (λ now, delete_routing_rule now id))
     (λ r, in_governance (λ now, upsert_routing_rule now r))) (stage is_rule_key).
Proof.
  assert (∀ r, r ∈ sn_routing_rules c → owner (rl_rule_id r) = project_id) as Hr.
  { intros r Hr. rewrite (sd_owner _ _ distinct r Hr). by apply (so_rules _ owned). }
  intros s s' [] Hs E. destruct (steady_agrees owner s Hs) as (st & Ho & Hag & Hi).
  eapply (apply_records_at owner rl_rule_id RRule KRule rule_slot untouched) in E as [Hs' Hk]; try done.
  - split; [done|]. intros k. rewrite Hk. unfold hold_records, stage.
    destruct k; try done. cbn. repeat case_decide; naive_solver.
  - intros [] κ; cbn; try done. case_decide; [by intros [= ->]|done].
  - intros r Hin. cbn. by rewrite decide_True by auto.
  - apply (sd_rules _ _ distinct).
  - intros κ. by apply (unit_effects (DeleteRule κ)).
  - intros r Hin. apply (call_effects (UpsertRule r)); [|done|done]. cbn. by rewrite (sd_owner _ _ distinct r Hin).
  - intros κ (r & -> & Hin)%list_elem_of_fmap. cbn. rewrite decide_True; [done|].
    apply (rules_of_table owner _ _ _ _ Hag) in Hin as [Ht <-]. symmetry. by apply (ag_owner _ _ _ Hag).
  - intros κ Hκ [x Hx]. rewrite Hi in Hx. cbn in Hx. destruct (t_rules (gov_tables st) !! κ) as [r|] eqn:Er; [|done].
    cbn in Hκ. case_decide as Ho'; [|done].
    pose proof (tk_rules _ (ag_tables _ _ _ Hag) _ _ Er) as <-. apply list_elem_of_fmap_2.
    apply (rules_of_table owner _ _ _ _ Hag). split; [done|]. rewrite <-Ho'. by apply (ag_owner _ _ _ Hag).
Qed.

Lemma tools_stage : effects owner
  (apply_records (R := R) pt_tool_name (λ s, list_project_tools (ca_gov s) (Some project_id)) (sn_tools c)
     (λ n, gov_unit (λ now, delete_project_tool now project_id n))
     (λ r, in_governance (λ now, upsert_project_tool now r))) (stage is_tool_key).
Proof.
  intros s s' [] Hs E. destruct (steady_agrees owner s Hs) as (st & Ho & Hag & Hi).
  eapply (apply_records_at owner pt_tool_name row_tool (KTool project_id) tool_slot untouched) in E as [Hs' Hk]; try done.
  - split; [done|]. intros k. rewrite Hk. unfold hold_records, stage.
    destruct k; try done. cbn. repeat case_decide; naive_solver.
  - intros [] κ; cbn; try done. case_decide; [by subst; intros [= ->]|done].
  - intros r Hin. cbn. by rewrite decide_True.
  - apply (sd_tools _ _ distinct).
  - intros κ. by apply (unit_effects (DeleteTool project_id κ)).
  - intros r Hin. unfold write_record. rewrite <-(so_tools _ owned r Hin). by apply (call_effects (UpsertTool r)).
  - intros κ _. cbn. by rewrite decide_True.
  - intros κ _ [x Hx]. rewrite Hi in Hx. cbn in Hx.
    pose proof (ag_tools _ _ _ Hag project_id κ) as Ht. destruct (t_tools (gov_tables st) !! _) as [z|]; [|done].
    destruct (mem_tool (ca_gov s) project_id κ) as [r|] eqn:Er; [|done].
    apply (row_Some pt_project_id pt_tool_name _ tool_hit_spec) in Er as [Hin <-]; [by apply list_elem_of_fmap_2|].
    apply (mk_tools _ (ag_memory _ _ _ Hag)).
Qed.

Lemma prompts_stage : effects owner
  (apply_records (R := R) version_key (λ s, list_project_prompts (ca_gov s) (Some project_id) None) (sn_prompts c)
     (λ k, gov_unit (λ now, delete_project_prompt now project_id k.1 k.2))
     (λ r, in_governance (λ now, upsert_project_prompt now r))) (stage is_prompt_key).
Proof.
  intros s s' [] Hs E. destruct (steady_agrees owner s Hs) as (st & Ho & Hag & Hi).
  eapply (apply_records_at owner version_key row_prompt (λ k, KPrompt project_id k.1 k.2) prompt_slot retire) in E as [Hs' Hk]; try done.
  - split; [done|]. intros k. rewrite Hk. unfold hold_records, stage.
    destruct k; try done. cbn. repeat case_decide; naive_solver.
  - intros [] κ; cbn; try done. case_decide; [by subst; intros [= <-]|done].
  - intros r Hin. cbn. by rewrite decide_True.
  - by intros r [].
  - intros r k o Hin. pose proof (so_prompts _ owned r Hin). destruct k; try done. cbn. case_decide as Hp; [done|]. intros _.
    destruct o as [[]|]; try done. rewrite decide_False; congruence.
  - intros r r' Hin Hin' Hne. rewrite retire_row. do 2 f_equal. case_decide; [|done].
    destruct (superseded_by r r') eqn:Es; [|done]. exfalso. apply Hne. unfold superseded_by in Es.
    rewrite !andb_true_iff, !String.eqb_eq in Es. destruct Es as (Ha & ((Hn & He) & _) & Ha').
    unfold version_key. rewrite Hn. f_equal. by apply (sd_active _ _ distinct).
  - apply (sd_prompts _ _ distinct).
  - intros κ. by apply (unit_effects (DeletePrompt project_id κ.1 κ.2)).
  - intros r Hin. unfold write_record. rewrite <-(so_prompts _ owned r Hin). by apply (call_effects (UpsertPrompt r)).
  - intros [n v] _. cbn. by rewrite decide_True.
  - intros [n v] _ [x Hx]. rewrite Hi in Hx. cbn in Hx.
    pose proof (ag_prompts _ _ _ Hag project_id n v) as Ht. destruct (t_prompts (gov_tables st) !! _) as [z|]; [|done].
    destruct (mem_prompt (ca_gov s) project_id (n, v)) as [r|] eqn:Er; [|done].
    apply (row_Some pm_project_id version_key _ version_hit_spec) in Er as [Hin <-]; [by apply list_elem_of_fmap_2|].
    apply (mk_prompts _ (ag_memory _ _ _ Hag)).
Qed.

Lemma rollout_policies_stage : effects owner (apply_rollout_policies (R := R) c) (stage is_rollout_policy_key).
Proof.
  intros s s' [] Hs (s1 & l & E1 & E)%ST_bind_ok.
  destruct (rollout_policies_read owner s s1 l project_id Hs E1) as (Hs1 & _ & Hi & _ & Hl).
  change (apply_records (R := R) rp_policy_name (λ _, l) (sn_rollout_policies c)
    (λ n, _ ← on_store (λ st, delete_rollout_policy_row st (project_id, n)); mret ())
    (λ r, on_store (λ st, upsert_rollout_policy_row st r)) s1 = (s', Ok ())) in E.
  eapply (apply_records_at owner rp_policy_name row_rollout_policy (KRolloutPolicy project_id) rollout_policy_slot untouched)
    in E as [Hs' Hk]; try done.
  - split; [done|]. intros k. rewrite Hk, Hi. unfold hold_records, stage.
    destruct k; try done. cbn. repeat case_decide; naive_solver.
  - intros [] κ; cbn; try done. case_decide; [by subst; intros [= ->]|done].
  - intros r Hin. cbn. by rewrite decide_True.
  - apply (sd_rollout_policies _ _ distinct).
  - intros κ. apply effects_drop, drop_rollout_policy_effects.
  - intros r Hin. unfold write_record. rewrite <-(so_rollout_policies _ owned r Hin). apply put_rollout_policy_effects.
  - intros κ _. cbn. by rewrite decide_True.
  - intros κ _ [x Hx]. rewrite Hi in Hx. destruct (steady_agrees owner s Hs) as (st & Ho & _ & Hc). rewrite Hc in Hx. cbn in Hx.
    destruct (t_rollout_policies (gov_tables st) !! (project_id, κ)) as [r|] eqn:Er; [|done].
    assert (rollout_policy_key r = (project_id, κ)) as [= E1' E2'].
    { destruct Hs as [_ Hf]. apply (Hf project_id κ (db_rollout_policy "" r)). rewrite Hc. cbn. by rewrite Er. }
    rewrite <-E2'. apply list_elem_of_fmap_2, Hl. split; [done|]. exists st. by rewrite E2'.
Qed.

Definition apply_effect : Effect := λ k o, if decide (key_project owner k = project_id) then snapshot_config c k else o.

End apply.

(** ** The operations *)

Section operations.
Context `{SerdeJson} (serde_error : string → string) {texts : RevisionTexts} `{PolicyTexts}
  {St : Type} `{GovernanceStoreOk St} {R : Type} `{SafetyClient R} (parts : ConfigParts).
Variable owner : string → string.

Notation CM := (ST (ConfigState St R) string).

Lemma need_governance_effects : effects (R := R) owner (need_governance parts) (λ _ o, o).
Proof. unfold need_governance. destruct (cx_governance parts); [apply effects_ret|apply effects_fail]. Qed.

Lemma store_effects (s : ConfigState St R) : effects owner
  (match ca_store s with Some _ => mret () | None => st_fail "store not enabled" end : CM ()) (λ _ o, o).
Proof. destruct (ca_store s); [apply effects_ret|apply effects_fail]. Qed.

Lemma apply_inner_effects c : snapshot_distinct owner c →
  effects owner (apply_project_config_snapshot_inner serde_error parts c) (apply_effect owner c).
Proof.
  intros Hd s s' [] Hs E.
  assert (snapshot_owned c) as Ho.
  { apply ST_bind_ok in E as (s1 & [] & [= _ E1] & _). unfold validate_project_config_snapshot_against_runtime in E1.
    apply check_then in E1 as [E1 _]. by eapply validated_owned. }
  eapply (effects_ext owner _ (and_then (stage owner c is_policy_key) (and_then (stage owner c is_rule_key)
    (and_then (stage owner c is_safety_key) (and_then (stage owner c is_semantic_key)
    (and_then (stage owner c is_tool_key) (and_then (stage owner c is_prompt_key)
    (stage owner c is_rollout_policy_key)))))))); [| |exact Hs|exact E].
  - unfold apply_project_config_snapshot_inner.
    apply effects_then; [apply of_result_effects|]. intros _.
    apply effects_then; [apply need_governance_effects|]. intros _.
    apply effects_then; [by apply effects_keeps|]. intros s0.
    apply effects_then; [apply store_effects|]. intros _.
    apply effects_seq; [by apply policy_stage|]. intros _.
    apply effects_seq; [by apply rules_stage|]. intros _.
    apply effects_seq; [by apply safety_stage|]. intros _.
    apply effects_seq; [by apply semantic_stage|]. intros _.
    apply effects_seq; [by apply tools_stage|]. intros _.
    apply effects_seq; [by apply prompts_stage|]. intros _.
    by apply rollout_policies_stage.
  - intros k o. unfold and_then, stage, apply_effect. destruct k; cbn; repeat case_decide; naive_solver.
Qed.

(** *** Reading the configuration *)

Lemma find_row {A K} `{EqDecision K} (key : A → K) (hit : K → A → bool) (m : gmap string (list A)) p κ :
  (∀ κ x, hit κ x = true ↔ key x = κ) → find_key_of key κ (default [] (m !! p)) = row hit m p κ.
Proof.
  clear. intros Hhit. rewrite row_default. unfold find_key_of. induction (default [] (m !! p)) as [|x l IH]; [done|].
  cbn. rewrite IH. destruct (hit κ x) eqn:E.
  - apply Hhit in E. by rewrite bool_decide_true.
  - rewrite bool_decide_false; [done|]. intros Hk. apply Hhit in Hk. congruence.
Qed.

Lemma fmap_agree {A} (norm : A → A) (f : A → ConfigRow) (o o' : option A) :
  norm <$> o = norm <$> o' → f ∘ norm <$> o = f ∘ norm <$> o'.
Proof. clear. destruct o as [x|], o' as [x'|]; try done. intros [= E]. cbn. unfold compose. by rewrite E. Qed.

(** A snapshot that is taken stands for the configuration in force. *)
Lemma taken_snapshot p (s s1 : ConfigState St R) c : steady owner s →
  project_config_snapshot_inner parts p s = (s1, Ok c) →
  steady owner s1 ∧ (∀ k, in_force s1 k = in_force s k) ∧ sn_project_id c = p ∧ snapshot_distinct owner c ∧
  ∀ k, key_project owner k = p → snapshot_config c k = in_force s k.
Proof.
  intros Hs E. destruct (steady_agrees owner s Hs) as (st & Ho & Hag & Hi). pose proof (ag_memory _ _ _ Hag) as M.
  apply ST_bind_ok in E as (s0 & [] & E0 & E). assert (s0 = s) as ->.
  { revert E0. unfold need_governance. by destruct (cx_governance parts); intros [= <-]. }
  erewrite ST_bind_step in E by reflexivity. cbn iota in E. rewrite Ho in E. apply ST_bind_ok in E as (s2 & l & E1 & E).
  erewrite ST_bind_step in E by reflexivity. injection E as <- <-.
  destruct (rollout_policies_read owner s s2 l p Hs E1) as (Hs2 & Hg & Hk & Hnd & Hl). rewrite Hg.
  split_and!; [done|done|done|..].
  - split; cbn.
    + apply (rows_ok_default _ _ _ p (mk_rules _ M)).
    + apply (rows_ok_default _ _ _ p (mk_tools _ M)).
    + apply (rows_ok_default _ _ _ p (mk_prompts _ M)).
    + done.
    + intros r Hr. apply (rules_of_table owner _ _ p r Hag) in Hr as [Hr <-]. symmetry. by apply (ag_owner _ _ _ Hag).
    + intros r r' Hr Hr' Hn He Ha Ha'.
      assert (version_key r = version_key r') as [= _ ?]; [|done].
      apply (mk_active _ M p _ _ r r'); try done; by apply (row_Some _ _ _ version_hit_spec _ _ _ _ (mk_prompts _ M)).
  - intros k <-. rewrite Hi. destruct k as [p|id|p|p|p n|p n v|p n]; cbn.
    + apply (fmap_agree _ RPolicy), (ag_policies _ _ _ Hag).
    + f_equal. etrans; [apply (find_row rl_rule_id rule_hit), rule_hit_spec|].
      rewrite (ag_rules _ _ _ Hag). by rewrite decide_True.
    + apply (fmap_agree _ RSafety), (ag_safety _ _ _ Hag).
    + apply (fmap_agree _ RSemantic), (ag_semantic _ _ _ Hag).
    + apply (fmap_agree _ RTool). rewrite <-(ag_tools _ _ _ Hag). f_equal. apply (find_row pt_tool_name tool_hit), tool_hit_spec.
    + apply (fmap_agree _ RPrompt). rewrite <-(ag_prompts _ _ _ Hag). f_equal.
      apply (find_row version_key version_hit), version_hit_spec.
    + f_equal. apply option_eq. intros r. rewrite Ho in Hl. unfold find_key_of.
      rewrite (find_key rp_policy_name (λ κ r, bool_decide (rp_policy_name r = κ))) by (done || intros; apply bool_decide_eq_true).
      split; [intros [(_ & st' & [= <-] & Hr)%Hl <-]; done|]. intros Hr.
      assert (rollout_policy_key r = (p, n)) as [= E3 E4].
      { destruct Hs as [_ Hf]. apply (Hf p n (db_rollout_policy "" r)). rewrite Hi. cbn. by rewrite Hr. }
      split; [|done]. apply Hl. split; [done|]. exists st. by rewrite E4.
Qed.

(** *** What stays, whatever the outcome *)

Definition holds (P : ConfigKey → Prop) (base : ConfigKey → option ConfigRow) (s : ConfigState St R) : Prop :=
  steady owner s ∧ ∀ k, P k → in_force s k = base k.

Section holds.
Variables (P : ConfigKey → Prop) (base : ConfigKey → option ConfigRow).

Lemma holds_keeps {A} (m : CM A) :
  (∀ s, ca_gov (m s).1 = ca_gov s ∧ ca_store (m s).1 = ca_store s) → preserves (holds P base) m.
Proof. intros Hm s [Hs Hk]. destruct (Hm s) as [Hg Ho]. unfold holds, steady, in_force. by rewrite Hg, Ho. Qed.

Lemma holds_effects {A} (m : CM A) F s s' a :
  effects owner m F → (∀ k o, P k → F k o = o) → holds P base s → m s = (s', Ok a) → holds P base s'.
Proof.
  intros Hm HF [Hs Hk] E. destruct (Hm s s' a Hs E) as [Hs' Hk']. split; [done|]. intros k Hp. by rewrite Hk', HF, Hk.
Qed.

Lemma holds_call {A} c (op : Z → ST (GovernanceState * option St) StoreError A) :
  rule_stays owner c → ¬ fragile c → (∀ k o, P k → call_effect c k o = o) →
  (∀ now s, gov_call now c s = (_ ← op now; mret ()) s) → preserves (holds P base) (in_governance op).
Proof.
  intros Hr Hf HF Hop. apply preserves_bind; [by apply holds_keeps|]. intros now s [[Hs Hfile] Hk].
  unfold governance_call. destruct (op now (ca_gov s, ca_store s)) as [[g o] r] eqn:Eo.
  assert (∃ r', gov_call now c (ca_gov s, ca_store s) = ((g, o), r')) as [r' Ec].
  { rewrite Hop. erewrite ST_bind_step by exact Eo. destruct r; by eexists. }
  pose proof (steady_call_in_step owner now c Hr Hf _ Hs) as Hs'. rewrite Ec in Hs'.
  destruct (steady_agrees owner s (conj Hs Hfile)) as (st & Ho & Hag & Hi). rewrite Ho in Ec.
  assert (∀ k, P k ∨ is_rollout_policy_key k = true → stored_config o k = in_force s k) as Hsame.
  { intros k Hp. rewrite Hi. apply steady_call_config in Ec as [Hc|[_ Hc]]; [|done|done]. cbn [snd] in Hc. rewrite Hc.
    destruct Hp as [Hp|Hp]; [by apply HF|]. destruct k; try done. unfold call_effect, put, put_prompt_row.
    destruct c; by try (rewrite decide_False by congruence). }
  split; [split; [exact Hs'|]|].
  - intros p n x Hx. apply (Hfile p n x). rewrite <-Hsame by (by right). exact Hx.
  - intros k Hp. rewrite <-Hk, <-Hsame by (done || by left). done.
Qed.

(** A statement that leaves the configuration when it fails. *)
Lemma holds_store {A} (call : St → St * result StoreError A) F :
  failure_keeps call → effects owner (on_store call : CM A) F → (∀ k o, P k → F k o = o) →
  preserves (holds P base) (on_store call).
Proof.
  intros Hfail HF HP s Hs. destruct (on_store call s) as [s' [a|e]] eqn:E; cbn; [by eapply holds_effects|].
  destruct Hs as [Hs Hk]. destruct (steady_agrees owner s Hs) as (st & Ho & Hag & Hi). unfold on_store in E. rewrite Ho in E.
  destruct (call st) as [st' [a|e']] eqn:Ec; [done|]. injection E as <- _. apply Hfail in Ec.
  assert (∀ k, in_force (s <| ca_store := Some st' |>) k = in_force s k) as Hsame.
  { intros k. rewrite Hi. unfold in_force. cbn. by rewrite Ec. }
  split; [|intros k Hp; by rewrite Hsame, Hk]. split; [exists st'; cbn; by rewrite Ec|].
  intros p n r. rewrite Hsame. by apply Hs.
Qed.

Lemma append_effects change :
  effects owner (on_store (λ st, append_governance_change st change) : CM ()) (λ _ o, o).
Proof.
  intros s s' a [Hs Hf] E. unfold on_store in E. destruct Hs as (st & Ho & Hag). cbn in Ho, Hag. rewrite Ho in E.
  destruct (append_governance_change st change) as [st' [[]|]] eqn:Ew; [|done]. injection E as <- _.
  apply write_change in Ew. cbn in Ew.
  assert (∀ k, in_force (s <| ca_store := Some st' |>) k = in_force s k) as Hsame.
  { intros k. unfold in_force. cbn [stored_config ca_store]. rewrite Ho. cbn. rewrite Ew. apply config_history. }
  split; [|done]. split; [|intros p n r; rewrite Hsame; apply Hf].
  exists st'. split; [done|]. cbn. rewrite Ew. by apply agrees_history.
Qed.

Lemma read_rollout_policies_effects p :
  effects owner (on_store (λ st, get_rollout_policy_rows st (Some p)) : CM _) (λ _ o, o).
Proof. intros s s' l Hs E. destruct (rollout_policies_read owner s s' l p Hs E) as (? & _ & ? & _). done. Qed.

Lemma holds_append change : preserves (holds P base) (on_store (λ st, append_governance_change st change)).
Proof. apply (holds_store _ (λ _ o, o)); [|apply append_effects|done]. intros st st' e E%write_change. done. Qed.

Lemma holds_read p : preserves (holds P base) (on_store (λ st, get_rollout_policy_rows st (Some p))).
Proof.
  apply (holds_store _ (λ _ o, o)); [|apply read_rollout_policies_effects|done].
  intros st st' e [E _]%read_rollout_policies. done.
Qed.

Lemma holds_snapshot p : preserves (holds P base) (project_config_snapshot_inner parts p).
Proof.
  apply preserves_bind; [unfold need_governance; destruct (cx_governance parts); by apply holds_keeps|]. intros _.
  apply preserves_bind; [by apply holds_keeps|]. intros s.
  apply preserves_bind; [destruct (ca_store s); [apply holds_read|by apply holds_keeps]|]. intros l.
  apply preserves_bind; [by apply holds_keeps|]. intros ?. by apply holds_keeps.
Qed.

Lemma holds_draw prefix : preserves (holds P base) (draw_id prefix).
Proof.
  apply preserves_bind; [by apply holds_keeps|]. intros now. apply preserves_bind; [by apply holds_keeps|].
  intros q. by apply holds_keeps.
Qed.

Lemma holds_record p source : preserves (holds P base) (record_project_config_revision serde_error parts p source).
Proof.
  apply preserves_bind; [by apply holds_keeps|]. intros s. destruct (ca_store s) as [st|]; [|by apply holds_keeps].
  apply preserves_bind; [apply holds_snapshot|]. intros c.
  apply preserves_bind; [by apply holds_keeps|]. intros _.
  apply preserves_bind; [apply holds_draw|]. intros id.
  apply preserves_bind; [by apply holds_keeps|]. intros now.
  apply preserves_bind; [by apply holds_keeps|]. intros text.
  apply preserves_bind; [apply holds_append|]. intros _.
  apply preserves_bind; [apply holds_draw|]. intros id'.
  apply preserves_bind; [by apply holds_keeps|]. intros text'.
  apply preserves_bind; [apply holds_append|]. intros _. by apply holds_keeps.
Qed.

End holds.

(** *** Revisions *)

Definition history (s : ConfigState St R) : gmap string GovernanceChangeRecord :=
  from_option (λ st, t_history (gov_tables st)) ∅ (ca_store s).

Lemma appended (s s' : ConfigState St R) change :
  on_store (λ st, append_governance_change st change) s = (s', Ok ()) →
  history s' = <[gc_change_id change := change]> (history s).
Proof.
  unfold on_store, history. destruct (ca_store s) as [st|]; [|done].
  destruct (append_governance_change st change) as [st' [[]|]] eqn:E; [|done]. apply write_change in E.
  intros [= <-]. cbn. by rewrite E.
Qed.

Definition revision_change (r : ProjectConfigRevision) (text : string) : GovernanceChangeRecord := {|
  gc_change_id := rev_revision_id r; gc_project_id := rev_project_id r;
  gc_resource_type := "project_config_revision"; gc_resource_id := rev_revision_id r; gc_action := rev_source r;
  gc_before_json := None; gc_after_json := Some text; gc_changed_at := rev_recorded_at r |}.

(** What is recorded is the configuration in force, and it is in the history. *)
Lemma recorded p source (s s' : ConfigState St R) rev : steady owner s →
  record_project_config_revision serde_error parts p source s = (s', Ok (Some rev)) →
  rev_project_id rev = p ∧ rev_source rev = source ∧ sn_project_id (rev_snapshot rev) = p ∧
  snapshot_distinct owner (rev_snapshot rev) ∧
  (∀ k, key_project owner k = p → snapshot_config (rev_snapshot rev) k = in_force s k) ∧
  ∃ text, revision_to_string rev = Ok text ∧ history s' !! rev_revision_id rev = Some (revision_change rev text).
Proof.
  intros Hs E. apply ST_bind_ok in E as (s0 & s0' & [= <- <-] & E). destruct (ca_store s) as [st|]; [|done].
  apply ST_bind_ok in E as (s1 & c & E1 & E). destruct (taken_snapshot p s s1 c Hs E1) as (_ & _ & Hp & Hd & Hc).
  apply ST_bind_ok in E as (s2 & [] & _ & E). apply ST_bind_ok in E as (s3 & id & Eid & E).
  apply ST_bind_ok in E as (s4 & now & _ & E). cbv zeta in E.
  apply ST_bind_ok in E as (s5 & text & [= _ Et] & E). apply ST_bind_ok in E as (s6 & [] & Ea & E).
  apply ST_bind_ok in E as (s7 & id' & Eid' & E). apply ST_bind_ok in E as (s8 & text' & [= <- _] & E).
  apply ST_bind_ok in E as (s9 & [] & Ea' & [= <- <-]). cbn.
  split_and!; try done. exists text. split; [done|]. apply appended in Ea, Ea'. cbn in Ea'.
  injection Eid as _ <-. injection Eid' as <- <-. rewrite Ea'. cbn in Ea. rewrite lookup_insert_ne by (unfold generate_unique_id; done).
  match goal with |- history ?s !! _ = _ => change (history s) with (history s6) end.
  rewrite Ea. by rewrite lookup_insert_eq.
Qed.

(** *** Applying *)

Lemma when_enabled_ok {A} (m : CM A) s s' o : when_enabled parts m s = (s', Ok (Some o)) → m s = (s', Ok o).
Proof.
  unfold when_enabled. erewrite ST_bind_step by reflexivity. cbn iota. destruct (config_enabled parts s); [|done].
  intros (s1 & a & E & [= <- ->])%ST_bind_ok. done.
Qed.

Lemma apply_config_ok c source s s' rev : steady owner s → snapshot_distinct owner c →
  apply_config serde_error parts c source s = (s', Ok rev) →
  ∃ s1, (∀ k, in_force s1 k = apply_effect owner c k (in_force s k)) ∧ steady owner s1 ∧
    record_project_config_revision serde_error parts (sn_project_id c) source s1 = (s', Ok (Some rev)).
Proof.
  intros Hs Hd E. apply ST_bind_ok in E as (s0 & [] & [= <- _] & E). apply ST_bind_ok in E as (s1 & prev & E1 & E).
  destruct (taken_snapshot _ s s1 prev Hs E1) as (Hs1 & Hk1 & _).
  apply ST_bind_ok in E as (s2 & [] & E2 & E). unfold apply_or_restore in E2.
  destruct (apply_project_config_snapshot_inner serde_error parts c s1) as [s2' [[]|]] eqn:Ea.
  2:{ destruct (apply_project_config_snapshot_inner serde_error parts prev s2') as [? []]; done. }
  injection E2 as <-. destruct (apply_inner_effects c Hd s1 s2' () Hs1 Ea) as [Hs2 Hk2].
  apply ST_bind_ok in E as (s3 & [r|] & Er & E); [|done]. injection E as <- <-.
  exists s2'. split_and!; [|done|done]. intros k. by rewrite Hk2, Hk1.
Qed.

Lemma recorded_in_force p source (s s' : ConfigState St R) r : steady owner s →
  record_project_config_revision serde_error parts p source s = (s', r) →
  steady owner s' ∧ ∀ k, in_force s' k = in_force s k.
Proof.
  intros Hs E. pose proof (holds_record (λ _, True) (in_force s) p source s ltac:(split; done)) as Hh.
  rewrite E in Hh. destruct Hh as [Hs' Hk]. split; [done|]. intros k. by apply Hk.
Qed.

Lemma applied_stays_steady c source s s' rev : steady owner s → snapshot_distinct owner c →
  apply_project_config serde_error parts c source s = (s', Ok (Some rev)) → steady owner s'.
Proof.
  intros Hs Hd (s1 & _ & Hs1 & Er)%when_enabled_ok%apply_config_ok; [|done|done]. by eapply recorded_in_force.
Qed.

(** *** A snapshot that is not applied to the end *)

Section frame.
Variables (c : ProjectConfigSnapshot) (base : ConfigKey → option ConfigRow).
Hypothesis owned : snapshot_owned c.
Hypothesis distinct : snapshot_distinct owner c.

Notation framed := (preserves (holds (λ k, key_project owner k ≠ sn_project_id c) base)).

Lemma framed_put k row k0 o : key_project owner k0 = sn_project_id c →
  key_project owner k ≠ sn_project_id c → put k0 row k o = o.
Proof using -(owned distinct texts serde_error). intros H0' Hk. unfold put. rewrite decide_False by congruence. done. Qed.

Lemma framed_upsert call (op : Z → ST (GovernanceState * option St) StoreError ()) :
  rule_stays owner call → ¬ fragile call →
  (∀ k o, key_project owner k ≠ sn_project_id c → call_effect call k o = o) →
  (∀ now s, gov_call now call s = op now s) → framed (in_governance op).
Proof using -(owned distinct texts serde_error).
  intros Hr Hf He Hop. apply (holds_call _ base call); [done..|]. intros now s. rewrite Hop.
  unfold mbind, ST_bind. by destruct (op now s) as [? [[]|]].
Qed.

Lemma framed_delete {A} call (op : Z → ST (GovernanceState * option St) StoreError A) :
  rule_stays owner call → ¬ fragile call →
  (∀ k o, key_project owner k ≠ sn_project_id c → call_effect call k o = o) →
  (∀ now s, gov_call now call s = (_ ← op now; mret ()) s) → framed (gov_unit op).
Proof using -(owned distinct texts serde_error).
  intros Hr Hf He Hop. apply preserves_bind; [by apply (holds_call _ base call)|]. intros _. by apply holds_keeps.
Qed.

Lemma framed_records {A K} `{Countable K} (key : A → K) existing records (remove : K → CM ()) (upsert : A → CM ()) :
  (∀ s κ, steady owner s → κ ∈ key <$> existing s → framed (remove κ)) →
  (∀ r, r ∈ records → framed (upsert r)) → framed (apply_records key existing records remove upsert).
Proof using -(owned distinct texts serde_error).
  intros Hrm Hup s Hs. unfold apply_records. erewrite ST_bind_step by reflexivity. cbn iota. revert s Hs.
  assert (∀ s0, steady owner s0 → framed (_ ← st_for (difference (key <$> existing s0) (key <$> records)) remove;
    st_for records upsert)) as Hf; [|intros s Hs; apply Hf; [apply Hs|done]].
  intros s0 Hs0. apply preserves_bind; [|intros _; apply preserves_for; exact Hup]. apply preserves_for.
  intros κ Hκ. apply (Hrm s0); [done|]. unfold difference in Hκ.
  apply elem_of_elements, elem_of_difference in Hκ as [Hκ _]. by apply elem_of_list_to_set in Hκ.
Qed.

Lemma policy_framed : framed (apply_record (sn_policy c)
  (λ r, in_governance (λ now, Governance.upsert_project_policy now r))
  (gov_unit (λ now, Governance.delete_project_policy now (sn_project_id c)))).
Proof using -(distinct texts serde_error).
  destruct (sn_policy c) as [r|] eqn:Er.
  - apply (framed_upsert (UpsertPolicy r)); [done|by intros []| |done]. intros k o. apply framed_put. by apply (so_policy _ owned).
  - apply (framed_delete (DeletePolicy (sn_project_id c))); [done|by intros []| |done]. intros k o. by apply framed_put.
Qed.

Lemma safety_framed : framed (apply_record (sn_safety_policy c)
  (λ r, in_governance (λ now, upsert_safety_policy now r))
  (gov_unit (λ now, delete_safety_policy now (sn_project_id c)))).
Proof using -(distinct texts serde_error).
  destruct (sn_safety_policy c) as [r|] eqn:Er.
  - apply (framed_upsert (UpsertSafety r)); [done|by intros []| |done]. intros k o. apply framed_put. by apply (so_safety _ owned).
  - apply (framed_delete (DeleteSafety (sn_project_id c))); [done|by intros []| |done]. intros k o. by apply framed_put.
Qed.

Lemma semantic_framed : framed (apply_semantic_policy parts c).
Proof using -(distinct texts serde_error).
  assert (∀ A (op : ST R string A), framed (in_remote (St := St) op)) as Hremote.
  { intros A op. apply holds_keeps. intros s. unfold in_remote, st_zoom. by destruct (op (ca_remote s)). }
  unfold apply_semantic_policy. destruct (sn_semantic_policy c) as [r|] eqn:Er; cbn [apply_record].
  - apply preserves_bind.
    + apply (framed_upsert (UpsertSemantic r)); [done|by intros []| |done]. intros k o. apply framed_put. by apply (so_semantic _ owned).
    + intros _. destruct (cx_safety parts) as [plugin|]; [|by apply holds_keeps]. apply preserves_bind; [apply Hremote|].
      intros m. destruct (mr_sync_error m); by apply holds_keeps.
  - apply preserves_bind.
    + apply (holds_call _ base (DeleteSemantic (sn_project_id c))); [done|by intros []| |done]. intros k o. by apply framed_put.
    + intros _. destruct (cx_safety parts) as [plugin|]; [apply Hremote|by apply holds_keeps].
Qed.

Lemma rules_framed : framed (apply_records rl_rule_id (λ s, list_routing_rules (ca_gov s) (Some (sn_project_id c)))
  (sn_routing_rules c) (λ id, gov_unit (λ now, delete_routing_rule now id))
  (λ r, in_governance (λ now, upsert_routing_rule now r))).
Proof using -(texts serde_error).
  apply framed_records.
  - intros s κ Hs (r & -> & Hr)%list_elem_of_fmap. destruct (steady_agrees owner s Hs) as (st & _ & Hag & _).
    destruct (proj1 (rules_of_table owner _ _ _ _ Hag) Hr) as [Ht Hp].
    apply (framed_delete (DeleteRule (rl_rule_id r))); [done|by intros []| |done]. intros k o. apply framed_put.
    cbn. rewrite <-Hp. symmetry. by apply (ag_owner _ _ _ Hag).
  - intros r Hr. pose proof (sd_owner _ _ distinct r Hr) as Ho.
    apply (framed_upsert (UpsertRule r)); [done|by intros []| |done]. intros k o. apply framed_put.
    cbn. rewrite Ho. by apply (so_rules _ owned).
Qed.

Lemma tools_framed : framed (apply_records pt_tool_name (λ s, list_project_tools (ca_gov s) (Some (sn_project_id c)))
  (sn_tools c) (λ n, gov_unit (λ now, delete_project_tool now (sn_project_id c) n))
  (λ r, in_governance (λ now, upsert_project_tool now r))).
Proof using -(distinct texts serde_error).
  apply framed_records.
  - intros s n _ _. apply (framed_delete (DeleteTool (sn_project_id c) n)); [done|by intros []| |done].
    intros k o. by apply framed_put.
  - intros r Hr. apply (framed_upsert (UpsertTool r)); [done|by intros []| |done]. intros k o. apply framed_put.
    by apply (so_tools _ owned).
Qed.

Lemma prompts_framed : sn_prompts c = [] →
  framed (apply_records (λ r, (pm_prompt_name r, pm_version r))
    (λ s, list_project_prompts (ca_gov s) (Some (sn_project_id c)) None) (sn_prompts c)
    (λ k, gov_unit (λ now, delete_project_prompt now (sn_project_id c) k.1 k.2))
    (λ r, in_governance (λ now, upsert_project_prompt now r))).
Proof using -(owned distinct texts serde_error).
  intros Hnone. apply framed_records.
  - intros s κ _ _. apply (framed_delete (DeletePrompt (sn_project_id c) κ.1 κ.2)); [done|by intros []| |done].
    intros k o. by apply framed_put.
  - intros r. rewrite Hnone. by intros ?%elem_of_nil.
Qed.

Lemma rollout_policies_framed : framed (apply_rollout_policies c).
Proof using -(distinct texts serde_error).
  apply preserves_bind; [apply holds_read|]. intros l. apply preserves_bind.
  - apply preserves_for. intros n _. apply preserves_bind; [|intros b; by apply holds_keeps].
    apply (holds_store _ _ _ (put (KRolloutPolicy (sn_project_id c) n) None)).
    + intros st st' e [E _]%remove_rollout_policy. done.
    + apply drop_rollout_policy_effects.
    + intros k o. by apply framed_put.
  - intros _. apply preserves_for. intros r Hr.
    apply (holds_store _ _ _ (put (KRolloutPolicy (rp_project_id r) (rp_policy_name r)) (Some (row_rollout_policy r)))).
    + intros st st' e [now E]%write_rollout_policy. done.
    + apply put_rollout_policy_effects.
    + intros k o. apply framed_put. by apply (so_rollout_policies _ owned).
Qed.

End frame.

(** However far it comes, applying a snapshot without prompts leaves memory and
    store in agreement and the other projects alone. *)
Lemma apply_inner_framed c base : snapshot_distinct owner c → sn_prompts c = [] →
  preserves (holds (λ k, key_project owner k ≠ sn_project_id c) base)
    (apply_project_config_snapshot_inner serde_error parts c).
Proof.
  intros Hd Hp s Hs. unfold apply_project_config_snapshot_inner. cbv zeta. erewrite ST_bind_step by reflexivity.
  destruct (validate_project_config_snapshot_against_runtime serde_error (cx_projects parts) (cx_providers parts) c)
    as [[]|e] eqn:V; [|done]. unfold validate_project_config_snapshot_against_runtime in V.
  apply check_then in V as [V%validated_owned _]. revert s Hs.
  apply preserves_bind; [unfold need_governance; destruct (cx_governance parts); by apply holds_keeps|]. intros _.
  apply preserves_bind; [by apply holds_keeps|]. intros s0.
  apply preserves_bind; [destruct (ca_store s0); by apply holds_keeps|]. intros _.
  apply preserves_bind; [by apply policy_framed|]. intros _.
  apply preserves_bind; [by apply rules_framed|]. intros _.
  apply preserves_bind; [by apply safety_framed|]. intros _.
  apply preserves_bind; [by apply semantic_framed|]. intros _.
  apply preserves_bind; [by apply tools_framed|]. intros _.
  apply preserves_bind; [by apply prompts_framed|]. intros _. by apply rollout_policies_framed.
Qed.

(** C12: A snapshot that is applied is what is in force.  Suppose memory agrees with
    the store, no two records of the snapshot have the same key, no two versions of
    a prompt in it are active in the same environment, and no identifier of a rule
    of the snapshot belongs to a rule of another project (identifiers are assigned
    to projects by [owner]; a snapshot that names another project's rule takes the
    rule over).  When applying the snapshot succeeds, every policy, rule, tool,
    prompt and rollout policy of its project is the snapshot's and nothing else is
    left of the project, no other project has changed, memory still agrees with the
    store, and the revision that is returned stands for the same configuration. *)
Theorem applied_snapshot_in_force c source s s' rev : steady owner s → snapshot_distinct owner c →
  apply_project_config serde_error parts c source s = (s', Ok (Some rev)) →
  steady owner s' ∧
  (∀ k, in_force s' k = if decide (key_project owner k = sn_project_id c) then snapshot_config c k else in_force s k) ∧
  rev_project_id rev = sn_project_id c ∧
  ∀ k, key_project owner k = sn_project_id c → snapshot_config (rev_snapshot rev) k = snapshot_config c k.
Proof.
  intros Hs Hd (s1 & Hk1 & Hs1 & Er)%when_enabled_ok%apply_config_ok; [|done|done].
  destruct (recorded_in_force _ _ s1 s' _ Hs1 Er) as [Hs' Hk']. destruct (recorded _ _ s1 s' rev Hs1 Er) as (Hp & _ & _ & _ & Hc & _).
  split_and!; [done|intros k; by rewrite Hk', Hk1|done|].
  intros k Hk. rewrite Hc, Hk1 by done. unfold apply_effect. by rewrite decide_True.
Qed.

(** C14: A snapshot that cannot be applied to the end is undone.  Suppose memory
    agrees with the store and the snapshot has no prompts, no two records with the
    same key and no rule whose identifier belongs to another project.  When applying
    it fails half way and the configuration from before, as it was read just
    before, can be applied again, the error says so, every project has in store and
    memory the configuration it had, and the two agree. *)
Theorem failed_apply_is_undone c prev s s1 s2 s' e : steady owner s → snapshot_distinct owner c → sn_prompts c = [] →
  project_config_snapshot_inner parts (sn_project_id c) s = (s1, Ok prev) →
  apply_project_config_snapshot_inner serde_error parts c s1 = (s2, Err e) →
  apply_project_config_snapshot_inner serde_error parts prev s2 = (s', Ok ()) →
  apply_or_restore serde_error parts c prev s1
    = (s', Err ("project config apply failed (" +:+ e +:+ "); previous snapshot restored")) ∧
  steady owner s' ∧ ∀ k, in_force s' k = in_force s k.
Proof.
  intros Hs Hd Hnone Ht Ea Er. split; [unfold apply_or_restore; by rewrite Ea, Er|].
  destruct (taken_snapshot _ s s1 prev Hs Ht) as (Hs1 & Hk1 & Hp & Hdp & Hc).
  assert (holds (λ k, key_project owner k ≠ sn_project_id c) (in_force s) s2) as [Hs2 Hk2].
  { pose proof (apply_inner_framed c (in_force s) Hd Hnone s1) as Hf. rewrite Ea in Hf. apply Hf. split; [done|].
    intros k _. apply Hk1. }
  destruct (apply_inner_effects prev Hdp s2 s' () Hs2 Er) as [Hs' Hk']. split; [done|]. intros k.
  rewrite Hk'. unfold apply_effect. rewrite Hp. case_decide as Hk; [by apply Hc|by apply Hk2].
Qed.

(** *** Returning to a revision *)

(** Every change is under its identifier, and what reads as a revision is the
    revision of that identifier. *)
Definition history_filed (s : ConfigState St R) : Prop := ∀ id ch, history s !! id = Some ch →
  gc_change_id ch = id ∧
  ∀ text r, gc_after_json ch = Some text → revision_from_str text = Some r →
    gc_resource_type ch = "project_config_revision" → rev_revision_id r = id.

Definition revisions_of (p : string) (s : ConfigState St R) : list GovernanceChangeRecord :=
  filter (λ ch, String.eqb (gc_project_id ch) p &&
                from_option (String.eqb (gc_resource_type ch)) true (Some "project_config_revision") = true)
    (rows (history s)).

Lemma read_back_found p (s s' : ConfigState St R) rev text found :
  revision_to_string rev = Ok text → revision_from_str text = Some rev → rev_project_id rev = p →
  history s !! rev_revision_id rev = Some (revision_change rev text) → history_filed s →
  (length (revisions_of p s) ≤ 500)%nat → steady owner s →
  get_project_config_revision p (rev_revision_id rev) s = (s', Ok found) →
  found = Some (Some rev) ∧ steady owner s' ∧ ca_gov s' = ca_gov s ∧ ∀ k, in_force s' k = in_force s k.
Proof.
  intros Htext Hback Hp Hrow Hfiled Hlen Hs E. destruct (steady_agrees owner s Hs) as (st & Ho & Hag & Hi).
  apply ST_bind_ok in E as (s1 & revs & E & [= <- <-]). apply ST_bind_ok in E as (s2 & changes & E & [= <- <-]).
  unfold api_get_governance_changes, when_stored in E. erewrite ST_bind_step in E by reflexivity. cbn iota in E. rewrite Ho in E.
  apply ST_bind_ok in E as (s3 & l & E & [= <- <-]). unfold on_store in E. rewrite Ho in E.
  destruct (get_governance_changes st p (Some "project_config_revision") 500) as [st' [l'|]] eqn:El; [|done].
  injection E as <- ->. apply read_changes in El as [Et Hl]. specialize (Hl l eq_refl).
  assert (∀ ch, ch ∈ l ↔ ch ∈ revisions_of p s) as Hin.
  { intros ch. assert (history s = t_history (gov_tables st)) as Eh by (unfold history; by rewrite Ho).
    unfold revisions_of in Hlen |- *. rewrite Eh in Hlen |- *. rewrite Hl. unfold changes_query.
    rewrite take_ge by (rewrite sort_by_perm; exact Hlen). by rewrite sort_by_perm. }
  split_and!; [| |done|].
  - cbn. f_equal. unfold compose.
    assert (∀ r, r ∈ filter_map revision_from_str (filter_map gc_after_json l) →
      rev_revision_id r = rev_revision_id rev → r = rev) as Huniq.
    { intros r (text' & (ch & Hch & Ea)%list_elem_of_omap & Er)%list_elem_of_omap Eid.
      apply Hin in Hch. unfold revisions_of in Hch. apply list_elem_of_filter in Hch as [Hc (id & Hid)%elem_of_rows].
      apply andb_true_iff in Hc as [_ Hty%String.eqb_eq]. destruct (Hfiled _ _ Hid) as [_ Hr].
      rewrite <-(Hr text' r Ea Er Hty), Eid, Hrow in Hid. injection Hid as <-. cbn in Ea. congruence. }
    assert (rev ∈ filter_map revision_from_str (filter_map gc_after_json l)) as Hmem.
    { apply list_elem_of_omap. exists text. split; [|done]. apply list_elem_of_omap. exists (revision_change rev text).
      split; [|done]. apply Hin. unfold revisions_of. apply list_elem_of_filter. split; [cbn; by rewrite Hp, String.eqb_refl|].
      apply elem_of_rows. by eexists. }
    destruct (find_first _ _) as [r|] eqn:Ef.
    + apply find_first_In in Ef as [Hr He%String.eqb_eq]. f_equal. by apply Huniq.
    + rewrite find_first_None, Forall_forall in Ef. specialize (Ef rev Hmem). by rewrite String.eqb_refl in Ef.
  - destruct Hs as [Hs Hf]. split; [exists st'; cbn; by rewrite Et|]. intros q n r Hr. apply (Hf q n r). rewrite Hi.
    unfold in_force in Hr. cbn in Hr. by rewrite Et in Hr.
  - intros k. rewrite Hi. unfold in_force. cbn. by rewrite Et.
Qed.

End operations.

(** What is serialized is read back. *)
Class RevisionTextsOk `{RevisionTexts} := {
  revision_read_back r text : revision_to_string r = Ok text → revision_from_str text = Some r;
}.

Section rollback.
Context `{SerdeJson} (serde_error : string → string) `{RevisionTextsOk} `{PolicyTexts}
  {St : Type} `{GovernanceStoreOk St} {R : Type} `{SafetyClient R} (parts : ConfigParts).


End rollback.

(** ** At a concrete store *)

Module ConfigDemo.

#[export] Existing Instance array_json.

#[export] Instance demo_policy_texts : PolicyTexts := {|
  entities_from_str _ := Err "unsupported"; entities_to_string _ := Err "unsupported";
  topics_from_str _ := Err "unsupported"; topics_to_string _ := Err "unsupported" |}.

(** A service that cannot be reached. *)
#[export] Instance unreachable : SafetyClient () := {|
  endpoint_from_shared _ := Err "down"; metadata_value _ := Err "down";
  call_evaluate r _ _ := (r, Err "down"); call_upsert r _ _ := (r, Err "down"); call_delete r _ _ := (r, Err "down");
  call_sync_status r _ _ := (r, Err "down"); call_sync_states r _ := (r, Err "down"); call_health r _ := (r, Err "down") |}.

#[export] Instance policy_eq : EqDecision ProjectPolicyRecord.
Proof. solve_decision. Defined.
#[export] Instance rule_eq : EqDecision RoutingRuleRecord.
Proof. solve_decision. Defined.
#[export] Instance safety_eq : EqDecision SafetyPolicyRecord.
Proof. solve_decision. Defined.
#[export] Instance semantic_eq : EqDecision ProjectSemanticPolicyRecord.
Proof. solve_decision. Defined.
#[export] Instance tool_eq : EqDecision ProjectToolRecord.
Proof. solve_decision. Defined.
#[export] Instance prompt_eq : EqDecision ProjectPromptRecord.
Proof. solve_decision. Defined.
#[export] Instance rollout_policy_eq : EqDecision ProjectRolloutPolicyRecord.
Proof. solve_decision. Defined.
#[export] Instance snapshot_eq : EqDecision ProjectConfigSnapshot.
Proof. solve_decision. Defined.

Definition tool (schema : string) : ProjectToolRecord := {|
  pt_project_id := "p"; pt_tool_name := "search"; pt_description := None; pt_input_schema_json := schema;
  pt_executor_kind := "http"; pt_executor_config_json := None; pt_enabled := true; pt_timeout_ms := None;
  pt_updated_at := "" |}.

Definition bare_snapshot : ProjectConfigSnapshot := {|
  sn_project_id := "p"; sn_policy := None; sn_routing_rules := []; sn_safety_policy := None;
  sn_semantic_policy := None; sn_tools := []; sn_prompts := []; sn_rollout_policies := [] |}.

Definition full_snapshot : ProjectConfigSnapshot := {|
  sn_project_id := "p"; sn_policy := None; sn_routing_rules := [GovernanceDemo.rule "p" None];
  sn_safety_policy := Some {| sp_project_id := "p"; sp_mode := "block"; sp_rules_json := None; sp_updated_at := "" |};
  sn_semantic_policy := None; sn_tools := [tool "[]"]; sn_prompts := [GovernanceDemo.prompt "1"];
  sn_rollout_policies := [{| rp_project_id := "p"; rp_policy_name := "gate"; rp_description := None;
    rp_gate_config_json := "[]"; rp_target_environment := None; rp_updated_at := "now" |}] |}.

(** The texts of the revisions of these two. *)
Definition known : list ProjectConfigSnapshot := [bare_snapshot; full_snapshot].

#[export] Instance demo_texts : RevisionTexts := {|
  revision_to_string r :=
    match list_find (λ c, c = rev_snapshot r) known with
    | Some (i, _) => Ok (to_text (rev_revision_id r, rev_project_id r, rev_source r, rev_recorded_at r, i))
    | None => Err "unsupported"
    end;
  revision_from_str s :=
    match of_text (A := string * string * string * string * nat) s with
    | Ok (id, p, source, at_, i) =>
        (λ c, {| rev_revision_id := id; rev_project_id := p; rev_source := source; rev_snapshot := c;
                 rev_recorded_at := at_ |}) <$> known !! i
    | Err _ => None
    end;
  revision_state_to_string r := Ok (rs_active_revision_id r);
  revision_state_from_str _ := None;
|}.

#[export] Instance demo_texts_ok : RevisionTextsOk.
Proof.
  split. intros r text. unfold revision_to_string, revision_from_str; cbn [demo_texts].
  destruct (list_find _ _) as [[i c]|] eqn:E; [|done]. intros [= <-].
  apply list_find_Some in E as (Hi & -> & _). rewrite of_to_text, Hi. by destruct r.
Qed.

Definition parts : ConfigParts := {|
  cx_governance := true; cx_safety := None; cx_projects := None; cx_providers := [] |}.

Definition start (faults : list (option string)) : ConfigState GovDb () := {|
  ca_gov := governance_new 0; ca_store := Some (GovernanceDemo.demo_store faults); ca_remote := (); ca_sequence := 1;
  ca_clock := λ n, (Z.of_nat n * 1000000000)%Z; ca_ticks := 0 |}.

Definition owner (id : string) : string := "p".

Notation apply_snapshot c source := (apply_project_config (λ _, "bad json") parts c source).

(** The database refuses the statement after the first [n]. *)
Definition refuse_after (n : nat) : list (option string) := replicate n None ++ [Some "database is locked"].

Lemma start_steady faults : steady owner (start faults).
Proof.
  split; [apply gov_start_in_step; reflexivity|]. intros p n r Hr. unfold in_force, start in Hr. cbn in Hr.
  by rewrite lookup_empty in Hr.
Qed.

Lemma full_distinct : snapshot_distinct owner full_snapshot.
Proof.
  split; cbn; try (repeat constructor; set_solver).
Qed.

Lemma bare_distinct : snapshot_distinct owner bare_snapshot.
Proof. split; cbn; try apply NoDup_nil_2; set_solver. Qed.

Lemma ran {S E A} (m : ST S E A) s a : (m s).2 = Ok a → m s = ((m s).1, Ok a).
Proof. intros <-. apply surjective_pairing. Qed.

Lemma failed {S E A} (m : ST S E A) s e : (m s).2 = Err e → m s = ((m s).1, Err e).
Proof. intros <-. apply surjective_pairing. Qed.

(** After the first snapshot. *)
Definition applied (faults : list (option string)) : ConfigState GovDb () := (apply_snapshot full_snapshot "import" (start faults)).1.

Definition first_revision : ProjectConfigRevision := {|
  rev_revision_id := "cfg-6000000000-0000000000000001"; rev_project_id := "p"; rev_source := "import";
  rev_snapshot := full_snapshot; rev_recorded_at := "7" |}.

Lemma applied_steady faults :
  (apply_snapshot full_snapshot "import" (start faults)).2 = Ok (Some first_revision) → steady owner (applied faults).
Proof.
  intros E. apply (applied_stays_steady (λ _, "bad json") parts owner full_snapshot "import" (start faults) _ first_revision).
  - apply start_steady.
  - apply full_distinct.
  - exact (ran _ _ _ E).
Qed.

Lemma applied_snapshot_in_force_witness : in_force (applied []) (KTool "p" "search") = Some (row_tool (tool "[]")).
Proof.
  destruct (applied_snapshot_in_force (λ _, "bad json") parts owner full_snapshot "import" (start []) (applied []) first_revision)
    as (_ & H & _).
  - apply start_steady.
  - apply full_distinct.
  - apply (ran (apply_snapshot full_snapshot "import") (start [])). vm_compute. reflexivity.
  - rewrite H. reflexivity.
Defined.

(** The tool cannot be deleted. *)
Definition before_failure : ConfigState GovDb () := applied (refuse_after 22).

Notation read_config := (project_config_snapshot_inner parts "p").
Notation apply_inner c := (apply_project_config_snapshot_inner (λ _, "bad json") parts c).

Lemma failed_apply_is_undone_witness :
  let s1 := (read_config before_failure).1 in let s2 := (apply_inner bare_snapshot s1).1 in
  in_force s2 (KRule "r1") = None ∧ in_force (apply_inner full_snapshot s2).1 (KRule "r1") = Some (RRule (GovernanceDemo.rule "p" None)).
Proof.
  cbv zeta. split; [vm_compute; reflexivity|].
  destruct (failed_apply_is_undone (λ _, "bad json") parts owner bare_snapshot full_snapshot before_failure (read_config before_failure).1
    (apply_inner bare_snapshot (read_config before_failure).1).1
    (apply_inner full_snapshot (apply_inner bare_snapshot (read_config before_failure).1).1).1 "database error: database is locked") as (_ & _ & H).
  - apply applied_steady. vm_compute. reflexivity.
  - apply bare_distinct.
  - reflexivity.
  - apply (ran read_config before_failure). vm_compute. reflexivity.
  - apply (failed (apply_inner bare_snapshot)). vm_compute. reflexivity.
  - apply (ran (apply_inner full_snapshot)). vm_compute. reflexivity.
  - rewrite H. vm_compute. reflexivity.
Defined.

Definition cleared : ConfigState GovDb () := (apply_snapshot bare_snapshot "clear" (applied [])).1.

Definition second_revision : ProjectConfigRevision := {|
  rev_revision_id := "cfg-15000000000-0000000000000003"; rev_project_id := "p"; rev_source := "clear";
  rev_snapshot := bare_snapshot; rev_recorded_at := "16" |}.

Lemma cleared_steady : steady owner cleared.
Proof.
  apply (applied_stays_steady (λ _, "bad json") parts owner bare_snapshot "clear" (applied []) cleared second_revision).
  - apply applied_steady. vm_compute. reflexivity.
  - apply bare_distinct.
  - unfold cleared. apply (ran (apply_snapshot bare_snapshot "clear")). vm_compute. reflexivity.
Qed.

Definition rolled_back : ConfigState GovDb () * result string (option ProjectConfigRevision) :=
  rollback_project_config (λ _, "bad json") parts "p" "cfg-6000000000-0000000000000001" cleared.

Definition filed_change (x : string * GovernanceChangeRecord) : bool :=
  String.eqb (gc_change_id x.2) x.1
  && match gc_after_json x.2 ≫= revision_from_str with
     | Some r => negb (String.eqb (gc_resource_type x.2) "project_config_revision") || String.eqb (rev_revision_id r) x.1
     | None => true
     end.

Lemma filed_changes_ok (s : ConfigState GovDb ()) : forallb filed_change (map_to_list (history s)) = true → history_filed s.
Proof.
  intros Hall id ch Hch. rewrite forallb_forall in Hall. specialize (Hall (id, ch)).
  rewrite <-list_elem_of_In, elem_of_map_to_list in Hall. specialize (Hall Hch). unfold filed_change in Hall. cbn [fst snd] in Hall.
  apply andb_true_iff in Hall as [Hid%String.eqb_eq Hr]. split; [done|]. intros text r Ht Hf Hty. rewrite Ht in Hr.
  change (Some text ≫= revision_from_str) with (revision_from_str text) in Hr. rewrite Hf, Hty in Hr. by apply String.eqb_eq.
Qed.


(** A prompt changes memory before the store: when the store refuses its row, the
    error says that the previous snapshot is restored, and the prompt is still
    served from memory, since the deletion finds no row. *)
Theorem restored_but_prompt_stays :
  let r := apply_snapshot full_snapshot "import" (start (refuse_after 9)) in
  r.2 = Err "project config apply failed (database error: database is locked); previous snapshot restored" ∧
  in_force r.1 (KPrompt "p" "greet" "1") = None ∧
  list_project_prompts (ca_gov r.1) (Some "p") None = [GovernanceDemo.prompt "1"].
Proof. vm_compute. by split. Qed.

(** Returning to the configuration from before is validated like a new one: when
    it names a provider that is no longer configured it is refused, and the
    project is left with half of each. *)
Definition old_rule : RoutingRuleRecord := {|
  rl_rule_id := "r1"; rl_project_id := "p"; rl_name := "rule"; rl_priority := 0; rl_enabled := true;
  rl_match_path := None; rl_match_model := None; rl_match_streaming := None; rl_match_role := None;
  rl_match_headers := None; rl_min_prompt_tokens := None; rl_max_prompt_tokens := None; rl_deny_reason := None;
  rl_provider_order := Some (write_array ["gone"]); rl_provider_weights := None; rl_timeout_secs := None; rl_created_at := "" |}.

Definition parts_with_provider : ConfigParts := {|
  cx_governance := true; cx_safety := None; cx_projects := None; cx_providers := ["other"] |}.

Definition with_old_rule (faults : list (option string)) : ConfigState GovDb () :=
  let s := GovernanceDemo.run_calls [(1%Z, UpsertTool (tool "[]")); (2%Z, UpsertRule old_rule)] (GovernanceDemo.start faults) in
  start [] <| ca_gov := s.1 |> <| ca_store := s.2 |>.

Theorem restore_is_refused :
  let s := with_old_rule (refuse_after 10) in
  let r := apply_project_config (λ _, "bad json") parts_with_provider bare_snapshot "clear" s in
  r.2 = Err ("project config apply failed (database error: database is locked); automatic rollback also failed ("
             +:+ "unknown provider 'gone' referenced by routing_rule.provider_order)") ∧
  in_force s (KRule "r1") = Some (RRule old_rule) ∧
  in_force r.1 (KRule "r1") = None ∧ in_force r.1 (KTool "p" "search") = Some (row_tool (tool "[]")).
Proof. vm_compute. by split. Qed.

(** A failure to record the revision is reported as a failure to apply, although
    the new configuration is in force. *)
Theorem applied_but_reported_failed :
  let r := apply_snapshot full_snapshot "import" (start (refuse_after 14)) in
  r.2 = Err "database error: database is locked" ∧
  in_force r.1 (KTool "p" "search") = Some (row_tool (tool "[]")).
Proof. vm_compute. by split. Qed.

(** Two tools of one name are refused only when some provider is configured. *)
Theorem duplicates_pass_without_providers :
  let c := {| sn_project_id := "p"; sn_policy := None; sn_routing_rules := []; sn_safety_policy := None;
              sn_semantic_policy := None; sn_tools := [tool "[]"; tool "[]"]; sn_prompts := []; sn_rollout_policies := [] |} in
  validate_project_config_snapshot_against_runtime (λ _, "bad json") None [] c = Ok () ∧
  validate_project_config_snapshot_against_runtime (λ _, "bad json") None ["other"] c = Err "duplicate tool 'search'".
Proof. vm_compute. by split. Qed.

End ConfigDemo.
