(* ===== verification/Routing.v ===== *)
(** * The LLM gateway: routing

    Model of routing in [plugin-llm-gateway/src/governance.rs]: which rule of a
    project applies to a request, how providers are scored and ranked, and what
    the ranking may depend on. *)

From S2P Require Import Prelude RecordSet RustStr F64 Json Auth Http UsageStore GovernanceStore Governance.

Local Open Scope string_scope.
Local Open Scope list_scope.
Local Open Scope rust_scope.

(** ** Data *)

Record RoutingDecision := {
  rd_deny_reason : option string;
  rd_ordered_providers : list string;
  rd_provider_weights : gmap string Z;
  rd_timeout_override : option Duration;
  rd_cache_affinity_provider : option string;
  rd_cache_affinity_applied : bool;
  rd_matched_rule_id : option string;
  rd_matched_rule_name : option string;
}.

#[export] Instance RoutingDecision_set : Settable RoutingDecision := λ d,
  {| rd_deny_reason := rd_deny_reason d; rd_ordered_providers := rd_ordered_providers d;
     rd_provider_weights := rd_provider_weights d; rd_timeout_override := rd_timeout_override d;
     rd_cache_affinity_provider := rd_cache_affinity_provider d;
     rd_cache_affinity_applied := rd_cache_affinity_applied d;
     rd_matched_rule_id := rd_matched_rule_id d; rd_matched_rule_name := rd_matched_rule_name d |}.

(** What the prompt caches of providers say for and against them
    ([prompt_cache.rs]). *)
Record PromptCacheRoutingAffinity := {
  preferred_provider : option string;
  positive_bonuses : gmap string f64;
  negative_penalties : gmap string f64;
}.

Definition affinity_is_empty (a : PromptCacheRoutingAffinity) : bool :=
  bool_decide (positive_bonuses a = ∅) && bool_decide (negative_penalties a = ∅).

(** ** Texts of a rule *)

Definition wildcard_match (value pattern : string) : bool :=
  if String.eqb pattern "*" then true
  else
    match split_once "*" pattern with
    | Some (prefix, suffix) => starts_with value prefix && ends_with value suffix
    | None => String.eqb value pattern
    end.

Section texts.
Context `{SerdeJson}.

Definition parse_string_list (raw : string) : option (list string) :=
  value ← json_from_str raw;
  filter_map json_str <$> json_array value.

Definition parse_weight_map (raw : string) : option (gmap string Z) :=
  value ← json_from_str raw;
  object ← json_object value;
  Some (foldl (λ m e, match json_u64 e.2 with Some w => <[e.1 := wrap32 w]> m | None => m end) ∅ object).

Definition parse_float_map (raw : string) : option (gmap string f64) :=
  value ← json_from_str raw;
  object ← json_object value;
  entries ← mapM (λ e : string * json, pair e.1 <$> json_f64 e.2) object;
  Some (foldl (λ m e, <[e.1 := e.2]> m) ∅ entries).

(** ** Which rule applies *)

Section rules.
Context `{Http}.

(** Every header named contains the text given for it; a missing header reads as
    empty. *)
Definition header_predicates_match (headers : HeaderMap) (raw : string) : bool :=
  match json_from_str raw with
  | Some (JObject object) =>
      forallb (λ e : string * json,
        let header_value := default "" (get_str (to_lowercase e.1) headers) in
        from_option (contains header_value) false (json_str e.2)) object
  | _ => false
  end.

(** What of a request routing looks at. *)
Record RoutingInput := {
  ri_role : option Role;
  ri_path : string;
  ri_model : option string;
  ri_streaming : bool;
  ri_headers : HeaderMap;
  ri_prompt_tokens : Z;
}.

Definition routing_rule_matches (rule : RoutingRuleRecord) (i : RoutingInput) : bool :=
  from_option (wildcard_match (ri_path i)) true (rl_match_path rule)
  && from_option (λ m, from_option (λ v, wildcard_match v m) false (ri_model i)) true (rl_match_model rule)
  && from_option (Bool.eqb (ri_streaming i)) true (rl_match_streaming rule)
  && from_option (λ m, from_option (λ r, String.eqb (role_as_str r) m) false (ri_role i)) true
       (rl_match_role rule)
  && from_option (λ t, t <=? ri_prompt_tokens i)%Z true (rl_min_prompt_tokens rule)
  && from_option (λ t, ri_prompt_tokens i <=? t)%Z true (rl_max_prompt_tokens rule)
  && from_option (header_predicates_match (ri_headers i)) true (rl_match_headers rule).

Definition rule_applies (i : RoutingInput) (rule : RoutingRuleRecord) : bool :=
  rl_enabled rule && routing_rule_matches rule i.

Definition matched_rule (g : GovernanceState) (project_id : string) (i : RoutingInput)
    : option RoutingRuleRecord :=
  rules ← routing_rules g !! project_id;
  find_first (rule_applies i) rules.

End rules.
End texts.

(** ** Scores *)

Section scores.
Variable g : GovernanceState.

Definition routing_score (provider_name : string) (preferred_index : option Z) (weight : option Z)
    (adaptive_enabled : bool) (prompt_tokens : Z) (provider_input_costs : option (gmap string f64))
    (cache_affinity : option PromptCacheRoutingAffinity) : f64 :=
  let score := f64_mul (f64_of_Z (default 10000%Z preferred_index)) (f64_of_Z 1000) in
  let score := f64_add score
    (from_option (λ v, f64_div (f64_of_Z 1000) (f64_of_Z (Z.max v 1%Z))) (f64_of_Z 100) weight) in
  let score :=
    match cache_affinity with
    | Some a =>
        f64_add (f64_sub score (default f_zero (positive_bonuses a !! provider_name)))
                (default f_zero (negative_penalties a !! provider_name))
    | None => score
    end in
  if adaptive_enabled then
    let score := f64_add score (penalty_total (provider_penalty_breakdown g provider_name)) in
    f64_add score
      (match costs ← provider_input_costs; costs !! provider_name with
       | Some input_cost_per_1k =>
           f64_mul (f64_mul (f64_div (f64_of_Z prompt_tokens) (f64_of_Z 1000)) input_cost_per_1k)
             (f64_of_Z 10000)
       | None => f_zero
       end)
  else score.

(** [enumerate] collected into a map: the last place of a name counts. *)
Definition preferred_indexes (preferred_order : list string) : gmap string Z :=
  foldl (λ m e, <[e.2 := Z.of_nat e.1]> m) ∅ (enumerate preferred_order).

(** [partial_cmp], ties and [NaN] by name, as "goes no later". *)
Definition scored_before (score : string → f64) (left right : string) : bool :=
  match SFcompare (score left) (score right) with
  | Some Lt => true
  | Some Gt => false
  | Some Eq | None => String.leb left right
  end.

Definition rank_providers (available_providers preferred_order : list string)
    (provider_weights : gmap string Z) (adaptive_enabled : bool) (prompt_tokens : Z)
    (provider_input_costs : option (gmap string f64))
    (cache_affinity : option PromptCacheRoutingAffinity) : list string :=
  let preferred_index := preferred_indexes preferred_order in
  sort_by (scored_before (λ p, routing_score p (preferred_index !! p) (provider_weights !! p)
             adaptive_enabled prompt_tokens provider_input_costs cache_affinity))
    available_providers.

End scores.

(** ** The decision *)

Section decision.
Context `{SerdeJson} `{Http}.

Definition evaluate_routing_with_cache_affinity (g : GovernanceState) (project_id : string)
    (i : RoutingInput) (available_providers : list string)
    (cache_affinity : option PromptCacheRoutingAffinity) : RoutingDecision :=
  let policy := project_policy g project_id in
  let decision :=
    {| rd_deny_reason := None;
       rd_ordered_providers :=
         default available_providers (p ← policy; raw ← pp_fallback_order p; parse_string_list raw);
       rd_provider_weights := ∅; rd_timeout_override := None;
       rd_cache_affinity_provider := a ← cache_affinity; preferred_provider a;
       rd_cache_affinity_applied := false; rd_matched_rule_id := None;
       rd_matched_rule_name := None |} in
  let rank (decision : RoutingDecision) :=
    let adaptive_enabled := from_option pp_adaptive_enabled true policy in
    let provider_input_costs := p ← policy; raw ← pp_provider_input_costs p; parse_float_map raw in
    let ranked := rank_providers g available_providers (rd_ordered_providers decision)
      (rd_provider_weights decision) adaptive_enabled (ri_prompt_tokens i) provider_input_costs in
    decision <| rd_ordered_providers := ranked cache_affinity |>
      <| rd_cache_affinity_applied :=
           from_option (λ a, negb (affinity_is_empty a)) false cache_affinity
           && negb (bool_decide (ranked cache_affinity = ranked None)) |> in
  match matched_rule g project_id i with
  | None => rank decision
  | Some rule =>
      if is_some (rl_deny_reason rule) then
        decision <| rd_matched_rule_id := Some (rl_rule_id rule) |>
          <| rd_matched_rule_name := Some (rl_name rule) |>
          <| rd_deny_reason := rl_deny_reason rule |> <| rd_ordered_providers := [] |>
      else
        rank (decision
          <| rd_ordered_providers :=
               default (rd_ordered_providers decision) (raw ← rl_provider_order rule; parse_string_list raw) |>
          <| rd_provider_weights :=
               default (rd_provider_weights decision) (raw ← rl_provider_weights rule; parse_weight_map raw) |>
          <| rd_timeout_override := from_secs <$> rl_timeout_secs rule |>
          <| rd_matched_rule_id := Some (rl_rule_id rule) |>
          <| rd_matched_rule_name := Some (rl_name rule) |>)
  end.

Definition evaluate_routing (g : GovernanceState) (project_id : string) (i : RoutingInput)
    (available_providers : list string) : RoutingDecision :=
  evaluate_routing_with_cache_affinity g project_id i available_providers None.

End decision.
