(* ===== verification/RoutingProps.v ===== *)
(** * Routing: what is proved

    The health statistics of providers stay in their ranges; a ranking is a
    permutation in the order of the scores that does not depend on the order of
    the configuration; a decision denies or ranks, by the first rule that
    applies. *)

From stdpp Require Import sorting.
From S2P Require Import Prelude RecordSet RustStr F64 FloatRound Json Auth Http UsageStore GovernanceStore Governance GovernanceRows GovernanceProps Routing.

Local Open Scope string_scope.
Local Open Scope list_scope.
Local Open Scope rust_scope.

(** ** The health of a provider *)

(** A rate is a double between zero and one. *)
Definition in_unit (x : f64) : Prop := ffin x ∧ f_le x f_one = true.

Record stats_ok (s : ProviderStats) : Prop := {
  so_latency : fpos (ewma_latency_ms s);
  so_error : in_unit (ewma_error_rate s);
  so_timeout : in_unit (ewma_timeout_rate s);
  so_limit : in_unit (ewma_rate_limit_rate s);
  so_active : in_u32 (active_requests s);
  so_samples : in_u64 (samples s);
}.

Lemma in_unit_zero : in_unit f_zero.
Proof. by split. Qed.

Lemma in_unit_one : in_unit f_one.
Proof. by split. Qed.

Lemma ewma_in_unit x v : in_unit x → in_unit v → in_unit (ewma x v).
Proof.
  intros [Hx Hx1] [Hv Hv1]. unfold ewma. destruct (f_eq x f_zero); [done|].
  set (w := f64_sub f_one f_quarter). assert (ffin w) as Hw by done. assert (ffin f_quarter) as Hq by done.
  assert (ffin f_one) as H1 by done.
  pose proof (f64_mul_mono x w f_one w Hx Hw H1 Hw Hx1 eq_refl) as M1.
  pose proof (f64_mul_mono v f_quarter f_one f_quarter Hv Hq H1 Hq Hv1 eq_refl) as M2.
  destruct (f64_mul_spec x w Hx Hw) as [P1 _], (f64_mul_spec v f_quarter Hv Hq) as [P2 _].
  assert (f_le (f64_add (f64_mul x w) (f64_mul v f_quarter)) f_one = true) as Hle.
  { change f_one with (f64_add (f64_mul f_one w) (f64_mul f_one f_quarter)).
    by apply f64_add_mono. }
  split; [|done]. apply (ffin_le _ f_one); [|done..]. by apply f64_add_spec.
Qed.

Lemma ewma_fpos x v : fpos x → fpos v → fpos (ewma x v).
Proof.
  intros Hx Hv. unfold ewma. destruct (f_eq x f_zero); [done|].
  apply f64_add_spec; by apply f64_mul_fpos.
Qed.

Definition outcome_ok (o : ProviderOutcome) : Prop :=
  match o with
  | OutcomeSuccess d | OutcomeErrorStatus d | OutcomeRateLimited d => (0 ≤ d)%Z
  | OutcomeTimeout => True
  end.

#[local] Hint Resolve in_unit_zero in_unit_one ewma_in_unit ewma_fpos : trp.

Lemma latency_ms_fpos d : (0 ≤ d)%Z → fpos (latency_ms d).
Proof. intros Hd. apply f64_mul_fpos; [by apply as_secs_f64_fpos|done..]. Qed.

Lemma apply_outcome_ok o s : outcome_ok o → stats_ok s → stats_ok (apply_outcome o s).
Proof.
  intros Ho []. destruct o as [d|d|d|]; split; simpl;
    first [done|by apply ewma_in_unit; auto with trp|apply ewma_fpos; [done|by apply latency_ms_fpos]].
Qed.

(** What happens to the statistics of providers. *)
Inductive HealthEvent :=
| EvBegin (provider : string)
| EvOutcome (provider : string) (o : ProviderOutcome).

Definition health_event (g : GovernanceState) (e : HealthEvent) : GovernanceState :=
  match e with
  | EvBegin p => begin_provider_request p g
  | EvOutcome p o => record_provider_outcome p o g
  end.

Definition event_ok (e : HealthEvent) : Prop :=
  match e with EvBegin _ => True | EvOutcome _ o => outcome_ok o end.

Lemma stats_default_ok : stats_ok stats_default.
Proof. split; simpl; auto with trp; done. Qed.

Lemma health_event_ok g e : event_ok e →
  map_Forall (λ _, stats_ok) (provider_stats g) → map_Forall (λ _, stats_ok) (provider_stats (health_event g e)).
Proof.
  intros He Hg.
  assert (∀ p, stats_ok (default stats_default (provider_stats g !! p))) as Hd.
  { intros p. destruct (provider_stats g !! p) eqn:E; [by apply (Hg p)|apply stats_default_ok]. }
  destruct e as [p|p o]; simpl; apply map_Forall_insert_2; try done; specialize (Hd p).
  - destruct Hd; split; simpl; try done. unfold in_u32, u32_max in *. lia.
  - apply apply_outcome_ok; [done|]. destruct Hd; split; simpl; try done;
      unfold in_u32, in_u64, u32_max, u64_max in *; lia.
Qed.

(** The health statistics are rates: after any sequence of requests and
    outcomes, the error, timeout and rate-limit averages of a provider are
    doubles between zero and one, its latency is not negative, and its counters
    are in the range of their types; nothing overflows into [NaN] or wraps. *)
Theorem provider_rates_in_range counter events :
  Forall event_ok events →
  map_Forall (λ _, stats_ok) (provider_stats (foldl health_event (governance_new counter) events)).
Proof.
  assert (map_Forall (λ _, stats_ok) (provider_stats (governance_new counter))) as H0 by apply map_Forall_empty.
  revert H0. generalize (governance_new counter). induction events as [|e events IH]; intros g Hg Hf; [done|].
  apply Forall_cons in Hf as [He Hf]. simpl. apply IH; [by apply health_event_ok|done].
Qed.

Lemma provider_rates_in_range_witness :
  map_Forall (λ _, stats_ok) (provider_stats (foldl health_event (governance_new 0%Z)
    [EvBegin "a"; EvOutcome "a" (OutcomeErrorStatus 5000000%Z); EvOutcome "a" OutcomeTimeout])).
Proof. apply provider_rates_in_range. repeat constructor; done. Defined.

(** A provider that has only succeeded keeps an error average of zero, which
    counts as no sample: its first failure sets the average to one, however many
    successes came before. *)
Theorem first_error_counts_in_full p counter latencies d :
  let g := foldl health_event (governance_new counter) ((λ l, EvOutcome p (OutcomeSuccess l)) <$> latencies) in
  ewma_error_rate (default stats_default (provider_stats (record_provider_outcome p (OutcomeErrorStatus d) g) !! p))
    = f_one.
Proof.
  assert (∀ g, ewma_error_rate (default stats_default (provider_stats g !! p)) = f_zero →
    ewma_error_rate (default stats_default (provider_stats
      (foldl health_event g ((λ l, EvOutcome p (OutcomeSuccess l)) <$> latencies)) !! p)) = f_zero) as Hz.
  { induction latencies as [|l ls IH]; intros g Hg; [done|]. simpl. apply IH. simpl.
    rewrite lookup_insert_eq. simpl. by rewrite Hg. }
  specialize (Hz (governance_new counter) eq_refl). cbv zeta. simpl. rewrite lookup_insert_eq. simpl.
  by rewrite Hz.
Qed.

(** ** The order of a ranking *)

Section ranking.
Variable g : GovernanceState.
Hypothesis stats : map_Forall (λ _, stats_ok) (provider_stats g).

Lemma penalties_fpos p : fpos (penalty_total (provider_penalty_breakdown g p)).
Proof using stats.
  assert (∀ z, (0 < z)%Z → (z <= u64_max)%Z → ffin (f64_of_Z z) ∧ fval (f64_of_Z z) ≠ 0%Z) as Hc.
  { intros z H1 H2. split; [apply f64_of_Z_ffin; lia|by apply f64_of_Z_nonzero]. }
  unfold provider_penalty_breakdown. destruct (provider_stats g !! p) as [s|] eqn:E; [|done].
  destruct (stats p s E) as [Hl [He _] [Ht _] [Hr _] Ha _]. unfold penalty_total.
  cbn [pb_active_requests pb_latency pb_error pb_timeout pb_rate_limit].
  assert (∀ x z, fpos x → (0 < z <= u64_max)%Z → fpos (f64_mul x (f64_of_Z z))) as Hm.
  { intros x z Hx Hz. apply f64_mul_fpos; [done|apply Hc; lia..]. }
  assert (∀ x y, fpos x → fpos y → fpos (f64_add x y)) as Hadd by (intros; by apply f64_add_spec).
  unfold in_u32 in Ha. repeat apply Hadd; try done; apply Hm; unfold u64_max;
    try lia; auto with trp. apply f64_of_Z_fpos; lia.
Qed.

(** The tokens of a request in thousands. *)
Lemma per_thousand_ffin t : in_u64 t → ffin (f64_div (f64_of_Z t) (f64_of_Z 1000)).
Proof using.
  clear g stats. intros [Ht0 Ht]. assert (ffin (f64_of_Z 1000)) as Hk by (by apply f64_of_Z_ffin).
  destruct (f64_div_spec (f64_of_Z t) (f64_of_Z 1000)) as [Hp Hb]; [by apply f64_of_Z_ffin|done|by vm_compute|].
  apply fpos_ffin; [done|]. apply (Z.le_lt_trans _ (2 ^ (65 + 1074))%Z); [|by vm_compute].
  apply Hb; [done|by vm_compute|].
  pose proof (f64_of_Z_mono t u64_max ltac:(lia)) as Hm. apply f_le_fval in Hm; [|by apply f64_of_Z_fpos..].
  apply (Z.le_lt_trans _ _ _ Hm). by vm_compute.
Qed.

Definition costs_ok (costs : option (gmap string f64)) : Prop :=
  from_option (map_Forall (λ _, ffin)) True costs.

Lemma routing_score_fpos p index weight adaptive tokens costs :
  from_option (λ i, 0 <= i)%Z True index → from_option in_u32 True weight → in_u64 tokens → costs_ok costs →
  fpos (routing_score g p index weight adaptive tokens costs None).
Proof using stats.
  intros Hi Hw Ht Hc. unfold routing_score.
  assert (∀ x y, fpos x → fpos y → fpos (f64_add x y)) as Hadd by (intros; by apply f64_add_spec).
  assert (fpos (f64_add (f64_mul (f64_of_Z (default 10000%Z index)) (f64_of_Z 1000))
    (from_option (λ v, f64_div (f64_of_Z 1000) (f64_of_Z (Z.max v 1%Z))) (f64_of_Z 100) weight))) as Hbase.
  { apply Hadd.
    - apply f64_mul_fpos; [apply f64_of_Z_fpos; destruct index; simpl in *; lia|done|by vm_compute].
    - destruct weight as [w|]; [|done]. unfold in_u32, u32_max in Hw. simpl in Hw. apply f64_div_fpos;
        [by apply f64_of_Z_ffin|apply f64_of_Z_ffin; unfold u64_max; lia|apply f64_of_Z_nonzero; lia]. }
  destruct adaptive; [|done]. apply Hadd; [apply Hadd; [done|apply penalties_fpos]|].
  destruct costs as [costs|]; simpl; [|done]. destruct (costs !! p) as [c|] eqn:E; [|done].
  apply f64_mul_fpos; [|done|by vm_compute]. apply f64_mul_spec; [by apply per_thousand_ffin|by apply (Hc p)].
Qed.

End ranking.

Lemma preferred_indexes_nonneg order p i : preferred_indexes order !! p = Some i → (0 <= i)%Z.
Proof.
  unfold preferred_indexes. assert (map_Forall (λ _ (i : Z), (0 <= i)%Z) (∅ : gmap string Z)) as H0 by apply map_Forall_empty.
  revert H0. generalize (∅ : gmap string Z).
  induction (enumerate order) as [|e l IH]; intros m Hm; [by apply (Hm p)|].
  apply IH, map_Forall_insert_2; [lia|done].
Qed.

(** The order "smaller score first, then by name" on scores that compare. *)
Section score_order.
Variable score : string → f64.
Hypothesis score_fpos : ∀ p, fpos (score p).

Lemma scored_before_spec p q :
  scored_before score p q = true ↔
  (fval (score p) < fval (score q))%Z ∨ fval (score p) = fval (score q) ∧ String.leb p q = true.
Proof using Type*.
  unfold scored_before. rewrite SFcompare_fval by done.
  destruct (Z.compare_spec (fval (score p)) (fval (score q))); [naive_solver lia..|].
  split; [done|]. lia.
Qed.

Lemma scored_before_total p q : scored_before score p q = false → scored_before score q p = true.
Proof using Type*.
  intros H. apply scored_before_spec. destruct (String.leb p q) eqn:E.
  - destruct (Z.lt_trichotomy (fval (score q)) (fval (score p))) as [|[|]]; [by left|..];
      assert (scored_before score p q = true) by (apply scored_before_spec; naive_solver); congruence.
  - apply str_leb_total in E.
    destruct (Z.lt_trichotomy (fval (score q)) (fval (score p))) as [|[|]]; [by left|by right|].
    assert (scored_before score p q = true) by (apply scored_before_spec; by left). congruence.
Qed.

Lemma scored_before_trans p q r :
  scored_before score p q = true → scored_before score q r = true → scored_before score p r = true.
Proof using Type*.
  rewrite !scored_before_spec. intros [|[? E1]] [|[? E2]]; [left; lia..|].
  right. split; [lia|]. by apply (str_leb_trans _ q).
Qed.

Lemma scored_before_antisym p q :
  scored_before score p q = true → scored_before score q p = true → p = q.
Proof using Type*.
  rewrite !scored_before_spec. intros [|[? E1]] [|[? E2]]; try lia. by apply str_leb_antisym.
Qed.

End score_order.

(** The ranking of providers: whatever the health of the providers has
    become and whatever their weights and prices, no score is [NaN], so the
    ranking lists every available provider once, cheapest score first and ties
    by name, and it does not depend on the order in which the providers are
    configured. *)
Theorem ranking_is_canonical g available available' order weights adaptive tokens costs :
  map_Forall (λ _, stats_ok) (provider_stats g) →
  map_Forall (λ _, in_u32) weights → in_u64 tokens → costs_ok costs →
  available ≡ₚ available' →
  let score p := routing_score g p (preferred_indexes order !! p) (weights !! p) adaptive tokens costs None in
  let ranked := rank_providers g available order weights adaptive tokens costs None in
  ranked ≡ₚ available
  ∧ StronglySorted (λ p q, f_lt (score p) (score q) = true ∨ f_eq (score p) (score q) = true ∧ String.leb p q = true) ranked
  ∧ rank_providers g available' order weights adaptive tokens costs None = ranked.
Proof.
  intros Hs Hw Ht Hc Hp score ranked.
  assert (∀ p, fpos (score p)) as Hfp.
  { intros p. apply routing_score_fpos; try done.
    - destruct (preferred_indexes order !! p) as [i|] eqn:E; [|done]. by apply preferred_indexes_nonneg in E.
    - destruct (weights !! p) eqn:E; [by apply (Hw p)|done]. }
  assert (∀ l, StronglySorted (λ p q, scored_before score p q = true) (sort_by (scored_before score) l)) as Hsort.
  { intros l. apply sort_by_StronglySorted; [by apply scored_before_total|by apply scored_before_trans]. }
  split_and!.
  - apply sort_by_perm.
  - apply (StronglySorted_weaken (λ p q, scored_before score p q = true)); [|apply Hsort]. intros p q H. apply scored_before_spec in H; [|done].
    unfold f_lt, f_eq, SFltb, SFeqb. rewrite SFcompare_fval by done.
    destruct H as [H|[H ?]]; [left; apply Z.compare_lt_iff in H|right; apply Z.compare_eq_iff in H]; by rewrite H.
  - apply (StronglySorted_unique_strong (λ p q, scored_before score p q = true)); [|apply Hsort..|].
    + intros p q _ _. by apply scored_before_antisym.
    + unfold ranked, rank_providers. by rewrite !sort_by_perm.
Qed.

(** ** The decision *)

Section decision.
Context `{SerdeJson} `{Http}.

Lemma matched_rule_first g project_id i rule : memory_ok g →
  matched_rule g project_id i = Some rule →
  rule ∈ list_routing_rules g (Some project_id) ∧ rule_applies i rule = true ∧
  ∀ r, r ∈ list_routing_rules g (Some project_id) → rule_applies i r = true → r = rule ∨ rule_before rule r = true.
Proof.
  intros [] E. unfold matched_rule in E. simpl in *.
  destruct (routing_rules g !! project_id) as [rules|] eqn:El; [|done]. simpl in *.
  apply find_first_Some in E as (l1 & l2 & -> & Ha & Hl). split_and!; [set_solver|done|].
  intros r Hr Hra. specialize (mk_sorted _ _ El). simpl in mk_sorted.
  rewrite Forall_forall in Hl. apply elem_of_app in Hr as [Hr|[->|Hr]%elem_of_cons]; [|by left|right].
  - specialize (Hl _ Hr). simpl in Hl. congruence.
  - clear -mk_sorted Hr. induction l1 as [|x l1 IH]; simpl in *.
    + apply StronglySorted_inv in mk_sorted as [_ Hf]. by eapply Forall_forall in Hf.
    + apply StronglySorted_inv in mk_sorted as [Hs _]. by apply IH.
Qed.

(** C25: A routing decision: the rule that decides is the enabled rule of the
    project that matches the request with the highest priority, the oldest first
    among equals; it denies the request with its reason and no providers, or
    ranks all available providers, each once, with the timeout of the rule; no
    rule decides only when none matches. *)
Theorem routing_decision_exact g project_id i available : memory_ok g →
  let d := evaluate_routing g project_id i available in
  let rules := list_routing_rules g (Some project_id) in
  match matched_rule g project_id i with
  | Some rule =>
      rule ∈ rules ∧ rule_applies i rule = true ∧
      (∀ r, r ∈ rules → rule_applies i r = true → r = rule ∨ rule_before rule r = true) ∧
      rd_matched_rule_id d = Some (rl_rule_id rule) ∧
      match rl_deny_reason rule with
      | Some reason => rd_deny_reason d = Some reason ∧ rd_ordered_providers d = []
      | None => rd_deny_reason d = None ∧ rd_ordered_providers d ≡ₚ available ∧
                rd_timeout_override d = from_secs <$> rl_timeout_secs rule
      end
  | None =>
      (∀ r, r ∈ rules → rule_applies i r = false) ∧ rd_matched_rule_id d = None ∧
      rd_deny_reason d = None ∧ rd_ordered_providers d ≡ₚ available ∧ rd_timeout_override d = None
  end.
Proof.
  intros Hm d rules. unfold d, evaluate_routing, evaluate_routing_with_cache_affinity.
  destruct (matched_rule g project_id i) as [rule|] eqn:E.
  - destruct (matched_rule_first g project_id i rule Hm E) as (? & ? & ?). split_and!; [done..| |];
      destruct (rl_deny_reason rule) as [reason|]; simpl; try done.
    split_and!; [done|apply sort_by_perm|done].
  - split_and!; [|done|done|apply sort_by_perm|done]. intros r Hr. unfold matched_rule in E. unfold rules in Hr. simpl in Hr.
    destruct (routing_rules g !! project_id) as [l|]; [|by apply elem_of_nil in Hr]. simpl in *.
    apply find_first_None in E. by eapply Forall_forall in E.
Qed.

End decision.

(** ** At concrete rules *)

Module RoutingDemo.
Import GovernanceDemo.

#[export] Existing Instance list_http.
#[export] Existing Instance array_json.

Definition request (path : string) : RoutingInput := {|
  ri_role := None; ri_path := path; ri_model := None; ri_streaming := false; ri_headers := ([] : list (string * string));
  ri_prompt_tokens := 0 |}.

Definition ruled : GovernanceState := (run_calls [(1, UpsertRule (rule "p" (Some "closed")))]%Z (start [])).1.

Lemma routing_decision_exact_witness :
  rd_ordered_providers (evaluate_routing ruled "p" (request "/v1") ["b"; "a"]) = [].
Proof.
  assert (memory_ok ruled) as Hm.
  { destruct (trace_in_step (λ _, "p") [(1, UpsertRule (rule "p" (Some "closed")))]%Z (start [])
      (run_calls [(1, UpsertRule (rule "p" (Some "closed")))]%Z (start []))) as (st & _ & []); [|..|done].
    - by repeat constructor.
    - apply run_trace. vm_compute. reflexivity.
    - by apply gov_start_in_step. }
  pose proof (routing_decision_exact ruled "p" (request "/v1") ["b"; "a"] Hm) as H.
  assert (matched_rule ruled "p" (request "/v1") = Some (rule "p" (Some "closed"))) as E by (vm_compute; reflexivity).
  rewrite E in H. by destruct H as (_ & _ & _ & _ & _ & ->).
Defined.

Lemma ranking_is_canonical_witness :
  rank_providers ruled ["a"; "b"] [] ∅ true 10 None None = rank_providers ruled ["b"; "a"] [] ∅ true 10 None None.
Proof.
  destruct (ranking_is_canonical ruled ["b"; "a"] ["a"; "b"] [] ∅ true 10 None) as (_ & _ & H).
  - apply map_Forall_empty.
  - apply map_Forall_empty.
  - by vm_compute.
  - exact I.
  - apply Permutation_swap.
  - exact H.
Defined.

(** The weights of a rule say nothing about providers that are in the order,
    which without an order of its own is the order of the configuration: a
    weight of one against four billion changes nothing. *)
Theorem weights_do_not_move_ordered_providers :
  rank_providers ruled ["a"; "b"] ["a"; "b"] ({["a" := 1%Z; "b" := u32_max]}) false 0 None None = ["a"; "b"].
Proof. vm_compute. reflexivity. Qed.

(** The two halves of a pattern may overlap in the text: [a*a] matches [a]. *)
Theorem wildcard_halves_overlap : wildcard_match "a" "a*a" = true ∧ wildcard_match "abc" "a*b*c" = false.
Proof. vm_compute. by split. Qed.

End RoutingDemo.
