(* ===== verification/SemanticCache.v ===== *)
(** * The semantic cache

    Model of [plugin-llm-gateway/src/semantic_cache.rs]: answers to earlier
    requests, found again by the words of a prompt, in memory and in the store,
    and what they say about the choice of a provider.  The digest of a cache id is
    the one of [Auth], the store is an interface with the SQLite tables behind
    it.  A method that reads the clock is given the reading. *)

From S2P Require Import Prelude RecordSet StateResult RustStr Utf8 F64 Toml Json Sql Auth Http Plugin GatewayContext CostTracker GatewayLimits GovernanceStore Governance Routing PromptRegistry.

Local Open Scope string_scope.
Local Open Scope list_scope.
Local Open Scope rust_scope.

(** ** Data *)

Record SemanticCacheOptIn := {
  oi_enabled : bool;
  oi_ttl_secs : Z;
  oi_similarity_threshold : f64;
}.

Record SemanticCacheRoutingPreference := {
  rp_model : string;
  rp_normalized_prompt : string;
  rp_similarity_threshold : f64;
}.

Record SemanticCacheEntry := {
  ce_cache_id : string;
  ce_project_id : string;
  ce_provider_name : string;
  ce_model : string;
  ce_tokens : gset string;
  ce_response_status : Z;
  ce_content_type : option string;
  ce_response_body : string;
  ce_prompt_tokens : Z;
  ce_created_at_ms : Z;
  ce_expires_at_ms : Z;
}.

Record SemanticCacheEntryRecord := {
  er_cache_id : string;
  er_project_id : string;
  er_provider_name : string;
  er_model : string;
  er_tokens_json : string;
  er_response_status : Z;
  er_content_type : option string;
  er_response_body : string;
  er_prompt_tokens : Z;
  er_created_at_ms : Z;
  er_expires_at_ms : Z;
}.

Record SemanticCacheStatusSnapshot := {
  st_default_ttl_secs : Z;
  st_default_similarity_threshold : f64;
  st_max_entries : Z;
  st_store_backed : bool;
  st_entry_count : Z;
  st_hits : Z;
  st_misses : Z;
  st_stores : Z;
  st_skips : Z;
  st_saved_prompt_tokens : Z;
}.

(** The store is kept beside the cache; [sk_governance] says whether the plugin
    has one. *)
Record SemanticCache := {
  sk_default_ttl_secs : Z;
  sk_default_similarity_threshold : f64;
  sk_max_entries : Z;
  sk_entries : list SemanticCacheEntry;
  sk_hits : Z;
  sk_misses : Z;
  sk_stores : Z;
  sk_skips : Z;
  sk_saved_prompt_tokens : Z;
  sk_metrics : option (list MetricEvent);
  sk_governance : bool;
}.

#[export] Instance SemanticCache_set : Settable SemanticCache := λ c,
  {| sk_default_ttl_secs := sk_default_ttl_secs c;
     sk_default_similarity_threshold := sk_default_similarity_threshold c; sk_max_entries := sk_max_entries c;
     sk_entries := sk_entries c; sk_hits := sk_hits c; sk_misses := sk_misses c; sk_stores := sk_stores c;
     sk_skips := sk_skips c; sk_saved_prompt_tokens := sk_saved_prompt_tokens c; sk_metrics := sk_metrics c;
     sk_governance := sk_governance c |}.

(** [(0.0..=1.0).contains(&x)] *)
Definition in_unit_range (x : f64) : bool := f_le f_zero x && f_le x (f64_of_Z 1).

Definition semantic_cache_new `{Toml} (config : tvalue) : result string SemanticCache :=
  let int k (d : Z) := from_option wrap64 d (toml_get config k ≫= as_integer) in
  let threshold := default (f64_literal "0.85") (toml_get config "default_similarity_threshold" ≫= as_float) in
  if negb (in_unit_range threshold)
  then Err "semantic_cache.default_similarity_threshold must be between 0.0 and 1.0"
  else Ok {| sk_default_ttl_secs := int "default_ttl_secs" 300%Z; sk_default_similarity_threshold := threshold;
             sk_max_entries := int "max_entries" 1024%Z; sk_entries := []; sk_hits := 0%Z; sk_misses := 0%Z;
             sk_stores := 0%Z; sk_skips := 0%Z; sk_saved_prompt_tokens := 0%Z; sk_metrics := None;
             sk_governance := false |}.

Definition semantic_cache_with_metrics (c : SemanticCache) : SemanticCache := c <| sk_metrics := Some [] |>.
Definition semantic_cache_with_governance (c : SemanticCache) : SemanticCache := c <| sk_governance := true |>.

Definition semantic_cache_status (c : SemanticCache) (store_backed : bool) : SemanticCacheStatusSnapshot := {|
  st_default_ttl_secs := sk_default_ttl_secs c;
  st_default_similarity_threshold := sk_default_similarity_threshold c; st_max_entries := sk_max_entries c;
  st_store_backed := store_backed; st_entry_count := Z.of_nat (length (sk_entries c)); st_hits := sk_hits c;
  st_misses := sk_misses c; st_stores := sk_stores c; st_skips := sk_skips c;
  st_saved_prompt_tokens := sk_saved_prompt_tokens c |}.

(** ** Prompts *)

(** A character of several bytes becomes several spaces, which the split below
    drops. *)
Definition normal_byte (a : ascii) : ascii :=
  if is_ascii_alphanumeric a || is_ascii_whitespace a then ascii_lower a else " "%char.

Fixpoint normal_bytes (s : string) : string :=
  match s with
  | EmptyString => ""
  | String a s' => String (normal_byte a) (normal_bytes s')
  end.

Definition normalize_prompt (text : string) : string := join " " (split_whitespace (normal_bytes text)).

Definition tokenize (normalized_prompt : string) : gset string := list_to_set (split_whitespace normalized_prompt).

Definition text_or_content (v : json) : list string :=
  match json_get v "text" ≫= json_str with
  | Some text => [text]
  | None => match json_get v "content" ≫= json_str with Some text => [text] | None => [] end
  end.

Definition collect_value_text (v : json) : list string :=
  match v with
  | JString text => [text]
  | JArray items =>
      flat_map (λ item, match item with JString text => [text] | JObject _ => text_or_content item | _ => [] end) items
  | JObject _ => text_or_content v
  | _ => []
  end.

Definition opt_texts (o : option json) : list string := from_option collect_value_text [] o.

Definition message_texts (message : json) : list string :=
  from_option (λ role, [role]) [] (json_get message "role" ≫= json_str) ++ opt_texts (json_get message "content").

Definition extract_request_prompt (request_json : json) : option string :=
  let segments := opt_texts (json_get request_json "system")
    ++ flat_map message_texts (default [] (json_get request_json "messages" ≫= json_array))
    ++ opt_texts (json_get request_json "input") in
  match normalize_prompt (join (String "010" "") segments) with
  | EmptyString => None
  | normalized => Some normalized
  end.

(** [left.intersection(right).count() / left.union(right).count()] *)
Definition jaccard_similarity (l r : gset string) : f64 :=
  if bool_decide (l = ∅) || bool_decide (r = ∅) then f_zero
  else
    let intersection := f64_of_Z (Z.of_nat (size (l ∩ r))) in
    let union := f64_of_Z (Z.of_nat (size (l ∪ r))) in
    if f_eq union f_zero then f_zero else f64_div intersection union.

(** ** What a request asks of the cache *)

(** The option is taken out of the request. *)
Definition extract_opt_in (request_json : json) (default_enabled : bool) (default_ttl_secs : Z)
    (default_similarity_threshold : f64) : json * result string (option SemanticCacheOptIn) :=
  match request_json with
  | JObject fields =>
      match fields_remove "trp_semantic_cache" fields with
      | (_, None) =>
          (request_json, Ok (if default_enabled then Some {| oi_enabled := true; oi_ttl_secs := default_ttl_secs;
             oi_similarity_threshold := default_similarity_threshold |} else None))
      | (fields, Some raw) =>
          (JObject fields,
           match json_object raw with
           | None => Err "trp_semantic_cache must be an object"
           | Some _ =>
               let threshold := default default_similarity_threshold (json_get raw "similarity_threshold" ≫= json_f64) in
               if negb (in_unit_range threshold)
               then Err "trp_semantic_cache.similarity_threshold must be between 0.0 and 1.0"
               else Ok (Some {| oi_enabled := default true (json_get raw "enabled" ≫= json_bool);
                                oi_ttl_secs := default default_ttl_secs (json_get raw "ttl_secs" ≫= json_u64);
                                oi_similarity_threshold := threshold |})
           end)
      end
  | _ => (request_json, Err "semantic_cache request body must be a JSON object")
  end.

(** The defaults of the project, and those of the plugin. *)
Definition opt_in_of (c : SemanticCache) (project_policy : option ProjectPolicyRecord) (request_json : json)
    : json * result string (option SemanticCacheOptIn) :=
  let threshold := t ← (project_policy ≫= pp_semantic_cache_similarity_threshold); if in_unit_range t then Some t else None in
  extract_opt_in request_json (default false (project_policy ≫= pp_semantic_cache_enabled))
    (default (sk_default_ttl_secs c) (project_policy ≫= pp_semantic_cache_ttl_secs))
    (default (sk_default_similarity_threshold c) threshold).

Definition project_refuses (project_policy : option ProjectPolicyRecord) : bool :=
  bool_decide (project_policy ≫= pp_semantic_cache_enabled = Some false).

Definition unsupported (request_json : json) : bool :=
  default false (json_get request_json "stream" ≫= json_bool)
  || bool_decide (is_Some (json_get request_json "trp_tools")) || bool_decide (is_Some (json_get request_json "tools")).

(** ** Records *)

Section records.
Context `{SerdeJson} `{TokenDigest}.

Definition NUL : string := String "000" "".

Definition semantic_cache_id (project_id provider_name model normalized_prompt : string) : string :=
  "semcache-" +:+ hash_token (project_id +:+ NUL +:+ provider_name +:+ NUL +:+ model +:+ NUL +:+ normalized_prompt).

Definition serialize_tokens (tokens : gset string) : string :=
  strings_to_string (sort_by String.leb (elements tokens)).

Definition deserialize_tokens (tokens_json : string) : option (gset string) :=
  list_to_set <$> strings_from_str tokens_json.

Definition entry_to_record (e : SemanticCacheEntry) : SemanticCacheEntryRecord := {|
  er_cache_id := ce_cache_id e; er_project_id := ce_project_id e; er_provider_name := ce_provider_name e;
  er_model := ce_model e; er_tokens_json := serialize_tokens (ce_tokens e);
  er_response_status := ce_response_status e; er_content_type := ce_content_type e;
  er_response_body := ce_response_body e; er_prompt_tokens := ce_prompt_tokens e;
  er_created_at_ms := ce_created_at_ms e; er_expires_at_ms := ce_expires_at_ms e |}.

Definition entry_from_record (r : SemanticCacheEntryRecord) : option SemanticCacheEntry :=
  tokens ← deserialize_tokens (er_tokens_json r);
  Some {| ce_cache_id := er_cache_id r; ce_project_id := er_project_id r; ce_provider_name := er_provider_name r;
          ce_model := er_model r; ce_tokens := tokens; ce_response_status := er_response_status r;
          ce_content_type := er_content_type r; ce_response_body := er_response_body r;
          ce_prompt_tokens := er_prompt_tokens r; ce_created_at_ms := er_created_at_ms r;
          ce_expires_at_ms := er_expires_at_ms r |}.

End records.

(** ** The store *)

Class CacheStore (St : Type) := {
  get_semantic_cache_entries : St → Z → Z → St * result StoreError (list SemanticCacheEntryRecord);
  upsert_semantic_cache_entry : St → SemanticCacheEntryRecord → St * result StoreError ();
  prune_semantic_cache_entries : St → Z → Z → St * result StoreError ();
}.

(** What a store does: a row that is read was there, a write that succeeds adds its
    row, and no operation adds another one. *)
Class CacheStoreOk (St : Type) `{CacheStore St} := {
  cache_rows : St → list SemanticCacheEntryRecord;
  get_entries_ok st now limit st' r :
    get_semantic_cache_entries st now limit = (st', r) → cache_rows st' = cache_rows st ∧
    ∀ l, r = Ok l → (Z.of_nat (length l) ≤ Z.max 0 limit)%Z ∧
      ∀ x, x ∈ l → x ∈ cache_rows st ∧ (as_i64 now < as_i64 (er_expires_at_ms x))%Z;
  upsert_entry_ok st x st' r : upsert_semantic_cache_entry st x = (st', r) →
    ∀ y, y ∈ cache_rows st' → y = x ∨ y ∈ cache_rows st;
  prune_entries_ok st now limit st' r : prune_semantic_cache_entries st now limit = (st', r) →
    ∀ y, y ∈ cache_rows st' → y ∈ cache_rows st;
}.

(** *** SQLite

    Integers are bound as [i64] and compared as such. *)

Definition CacheDb : Type := SqlDb (gmap string SemanticCacheEntryRecord).

Definition live_row (now : Z) (r : SemanticCacheEntryRecord) : bool := (as_i64 now <? as_i64 (er_expires_at_ms r))%Z.

Definition older_row (x y : SemanticCacheEntryRecord) : bool :=
  (as_i64 (er_created_at_ms x) <=? as_i64 (er_created_at_ms y))%Z.

Definition sqlite_get_semantic_cache_entries (s : CacheDb) (now limit : Z)
    : CacheDb * result StoreError (list SemanticCacheEntryRecord) :=
  execute s (λ t, (t, take (Z.to_nat limit) (sort_by (λ x y, older_row y x) (filter (λ r, live_row now r = true) (rows t))))).

Definition sqlite_upsert_semantic_cache_entry (s : CacheDb) (r : SemanticCacheEntryRecord)
    : CacheDb * result StoreError () :=
  execute s (λ t, (<[er_cache_id r := r]> t, ())).

Definition cache_sql {A} (stmt : gmap string SemanticCacheEntryRecord → gmap string SemanticCacheEntryRecord * A)
    : ST CacheDb StoreError A := λ s, execute s stmt.

Definition sqlite_prune_semantic_cache_entries (s : CacheDb) (now max_entries : Z) : CacheDb * result StoreError () :=
  (_ ← cache_sql (λ t, (filter (λ e, live_row now e.2 = true) t, ()));
   if (max_entries =? 0)%Z then cache_sql (λ t, (∅, ()))
   else
     total ← cache_sql (λ t, (t, Z.of_nat (size t)));
     if (total <=? max_entries)%Z then mret ()
     else cache_sql (λ t,
       let oldest := er_cache_id <$> take (Z.to_nat (total - max_entries)) (sort_by older_row (rows t)) in
       (filter (λ e, er_cache_id e.2 ∉ oldest) t, ()))) s.

#[export] Instance sqlite_cache_store : CacheStore CacheDb := {|
  get_semantic_cache_entries := sqlite_get_semantic_cache_entries;
  upsert_semantic_cache_entry := sqlite_upsert_semantic_cache_entry;
  prune_semantic_cache_entries := sqlite_prune_semantic_cache_entries;
|}.

(** ** Operations *)

Definition cache_metric (e : MetricEvent) (c : SemanticCache) : SemanticCache := c <| sk_metrics := report e (sk_metrics c) |>.

Definition cache_counted (provider_name outcome : string) (c : SemanticCache) : SemanticCache :=
  cache_metric (inc "semantic_cache_requests_total" [provider_name; outcome]) c.

Definition entries_gauge (n : nat) (c : SemanticCache) : SemanticCache :=
  cache_metric {| me_metric := "semantic_cache_entries"; me_labels := []; me_update := SetGauge (Z.of_nat n) |} c.

(** [self.max_entries.try_into().unwrap_or(u32::MAX)] *)
Definition row_limit (c : SemanticCache) : Z := Z.min (sk_max_entries c) u32_max.

Definition live_entry (now : Z) (e : SemanticCacheEntry) : bool := (now <? ce_expires_at_ms e)%Z.

(** [entries.retain(|candidate| candidate.expires_at_ms > now)] *)
Definition drop_expired (now : Z) (c : SemanticCache) : SemanticCache :=
  c <| sk_entries := filter (λ e, live_entry now e = true) (sk_entries c) |>.

(** The entry goes behind the others; the oldest are dropped when there are too
    many. *)
Definition put_entry (now : Z) (e : SemanticCacheEntry) (max_entries : Z) (l : list SemanticCacheEntry)
    : list SemanticCacheEntry :=
  let l := filter (λ x, live_entry now x && negb (String.eqb (ce_cache_id x) (ce_cache_id e)) = true) l ++ [e] in
  if (max_entries <? Z.of_nat (length l))%Z
  then drop (Z.to_nat (Z.of_nat (length l) - max_entries))
         (sort_by (λ x y, (ce_created_at_ms x <=? ce_created_at_ms y)%Z) l)
  else l.

(** The best of the entries that match, the first of equals. *)
Fixpoint best_hit (wanted : SemanticCacheEntry → bool) (prompt_tokens : gset string) (similarity_threshold : f64)
    (l : list SemanticCacheEntry) (best : option (SemanticCacheEntry * f64)) : option (SemanticCacheEntry * f64) :=
  match l with
  | [] => best
  | e :: l' =>
      let similarity := jaccard_similarity prompt_tokens (ce_tokens e) in
      let best :=
        if negb (wanted e) || f_lt similarity similarity_threshold then best
        else if from_option (λ b, f_lt b.2 similarity) true best then Some (e, similarity) else best in
      best_hit wanted prompt_tokens similarity_threshold l' best
  end.

Definition find_hit (now : Z) (project_id provider_name model normalized_prompt : string) (similarity_threshold : f64)
    (c : SemanticCache) : SemanticCache * option (SemanticCacheEntry * f64) :=
  let c := drop_expired now c in
  (c, best_hit (λ e, String.eqb (ce_project_id e) project_id && String.eqb (ce_provider_name e) provider_name
                     && String.eqb (ce_model e) model)
        (tokenize normalized_prompt) similarity_threshold (sk_entries c) None).

Definition record_skip (provider_name : string) (c : SemanticCache) : SemanticCache :=
  cache_counted provider_name "skip" (c <| sk_skips := wrap64 (sk_skips c + 1) |>).

(** *** Routing *)

Definition SEMANTIC_CACHE_ROUTE_MAX_BONUS : f64 := f64_of_Z 3500.
Definition SEMANTIC_CACHE_ROUTE_MIN_FRESHNESS : f64 := f64_literal "0.2".

(** [x.clamp(0.0, 1.0)]; NaN stays. *)
Definition clamp_unit (x : f64) : f64 :=
  if f_lt x f_zero then f_zero else if f_lt (f64_of_Z 1) x then f64_of_Z 1 else x.

(** [u64::saturating_sub] *)
Definition saturating_sub_u64 (a b : Z) : Z := Z.max 0 (a - b).

Definition semantic_cache_route_bonus (e : SemanticCacheEntry) (similarity : f64) (now : Z) : f64 :=
  let remaining := saturating_sub_u64 (ce_expires_at_ms e) now in
  if (remaining =? 0)%Z then f_zero
  else
    let total := saturating_sub_u64 (ce_expires_at_ms e) (ce_created_at_ms e) in
    let freshness := if (total =? 0)%Z then f64_of_Z 1 else clamp_unit (f64_div (f64_of_Z remaining) (f64_of_Z total)) in
    f64_mul (f64_mul SEMANTIC_CACHE_ROUTE_MAX_BONUS (clamp_unit similarity))
      (f64_max freshness SEMANTIC_CACHE_ROUTE_MIN_FRESHNESS).

(** The provider with the highest bonus, the first by name of equals. *)
Definition bonus_beats (x y : string * f64) : bool :=
  match SFcompare x.2 y.2 with
  | Some Gt => true
  | Some Lt => false
  | _ => String.ltb x.1 y.1
  end.

Fixpoint highest_bonus (l : list (string * f64)) : option (string * f64) :=
  match l with
  | [] => None
  | x :: l' =>
      if f_lt f_zero x.2
      then match highest_bonus l' with Some y => Some (if bonus_beats x y then x else y) | None => Some x end
      else highest_bonus l'
  end.

Definition affinity_default : PromptCacheRoutingAffinity :=
  {| preferred_provider := None; positive_bonuses := ∅; negative_penalties := ∅ |}.

Definition refresh_preferred_provider (a : PromptCacheRoutingAffinity) : PromptCacheRoutingAffinity := {|
  preferred_provider := fst <$> highest_bonus (map_to_list (positive_bonuses a));
  positive_bonuses := positive_bonuses a; negative_penalties := negative_penalties a |}.

Definition add_positive_bonus (provider_name : string) (bonus : f64) (a : PromptCacheRoutingAffinity)
    : PromptCacheRoutingAffinity :=
  if f_le bonus f_zero then a
  else refresh_preferred_provider {|
    preferred_provider := preferred_provider a;
    positive_bonuses := <[provider_name := f64_add (default f_zero (positive_bonuses a !! provider_name)) bonus]> (positive_bonuses a);
    negative_penalties := negative_penalties a |}.

Definition add_negative_penalty (provider_name : string) (penalty : f64) (a : PromptCacheRoutingAffinity)
    : PromptCacheRoutingAffinity :=
  if f_le penalty f_zero then a
  else {| preferred_provider := preferred_provider a; positive_bonuses := positive_bonuses a;
    negative_penalties :=
      <[provider_name := f64_add (default f_zero (negative_penalties a !! provider_name)) penalty]> (negative_penalties a) |}.

Definition affinity_merge (a other : PromptCacheRoutingAffinity) : PromptCacheRoutingAffinity :=
  let a := foldl (λ a e, add_positive_bonus e.1 e.2 a) a (map_to_list (positive_bonuses other)) in
  let a := foldl (λ a e, add_negative_penalty e.1 e.2 a) a (map_to_list (negative_penalties other)) in
  refresh_preferred_provider a.

Definition better_bonus (provider_name : string) (bonus : f64) (m : gmap string f64) : gmap string f64 :=
  let current := default f_zero (m !! provider_name) in
  <[provider_name := if f_lt current bonus then bonus else current]> m.

Definition routing_affinity (now : Z) (project_id model normalized_prompt : string) (similarity_threshold : f64)
    (available_providers : list string) (c : SemanticCache) : SemanticCache * PromptCacheRoutingAffinity :=
  let c := drop_expired now c in
  let bonuses := foldl (λ m e,
    let similarity := jaccard_similarity (tokenize normalized_prompt) (ce_tokens e) in
    if negb (String.eqb (ce_project_id e) project_id) || negb (String.eqb (ce_model e) model)
       || negb (bool_decide (ce_provider_name e ∈ available_providers)) || f_lt similarity similarity_threshold then m
    else better_bonus (ce_provider_name e) (semantic_cache_route_bonus e similarity now) m) ∅ (sk_entries c) in
  (c, foldl (λ a b, add_positive_bonus b.1 b.2 a) affinity_default (map_to_list bonuses)).

Section cache.
Context `{SerdeJson} `{TokenDigest} {St : Type} `{CacheStore St}.

Definition CacheState : Type := SemanticCache * option St.

Definition routing_preference_from_json (c : SemanticCache) (request_json : json)
    (project_policy : option ProjectPolicyRecord) : result string (option SemanticCacheRoutingPreference) :=
  let '(request_json, opt_in) := opt_in_of c project_policy request_json in
  let? opt_in := opt_in in
  Ok (o ← opt_in;
      if project_refuses project_policy && oi_enabled o || negb (oi_enabled o) || unsupported request_json then None
      else
        model ← extract_model (json_to_string request_json);
        normalized_prompt ← extract_request_prompt request_json;
        Some {| rp_model := model; rp_normalized_prompt := normalized_prompt;
                rp_similarity_threshold := oi_similarity_threshold o |}).

Definition routing_preference_from_body (c : SemanticCache) (body : option string)
    (project_policy : option ProjectPolicyRecord) : result string (option SemanticCacheRoutingPreference) :=
  match body ≫= json_from_str with
  | Some request_json => routing_preference_from_json c request_json project_policy
  | None => Ok None
  end.

Definition routing_affinity_from_preference (now : Z) (project_id : string) (p : SemanticCacheRoutingPreference)
    (available_providers : list string) (c : SemanticCache) : SemanticCache * option PromptCacheRoutingAffinity :=
  let '(c, a) := routing_affinity now project_id (rp_model p) (rp_normalized_prompt p) (rp_similarity_threshold p)
                   available_providers c in
  (c, if affinity_is_empty a then None else Some a).

Definition affinity_for_preference (now : Z) (project_id : string) (available_providers : list string)
    (preference : result string (option SemanticCacheRoutingPreference)) (c : SemanticCache)
    : SemanticCache * result string (option PromptCacheRoutingAffinity) :=
  match preference with
  | Err e => (c, Err e)
  | Ok None => (c, Ok None)
  | Ok (Some p) => let '(c, a) := routing_affinity_from_preference now project_id p available_providers c in (c, Ok a)
  end.

Definition routing_affinity_for_request_json (now : Z) (project_id : string) (request_json : json)
    (available_providers : list string) (project_policy : option ProjectPolicyRecord) (c : SemanticCache)
    : SemanticCache * result string (option PromptCacheRoutingAffinity) :=
  affinity_for_preference now project_id available_providers (routing_preference_from_json c request_json project_policy) c.

Definition routing_affinity_for_request (now : Z) (project_id : string) (body : option string)
    (available_providers : list string) (project_policy : option ProjectPolicyRecord) (c : SemanticCache)
    : SemanticCache * result string (option PromptCacheRoutingAffinity) :=
  affinity_for_preference now project_id available_providers (routing_preference_from_body c body project_policy) c.

(** *** The store *)

(** Records that cannot be read are left out. *)
Definition semantic_cache_load (now : Z) (s : CacheState) : CacheState * result StoreError () :=
  match s.2 with
  | None => (s, Ok ())
  | Some st =>
      let '(st, r) := get_semantic_cache_entries st now (row_limit s.1) in
      match r with
      | Err e => ((s.1, Some st), Err e)
      | Ok records =>
          let loaded := filter_map entry_from_record records in
          ((entries_gauge (length loaded) (s.1 <| sk_entries := loaded |>), Some st), Ok ())
      end
  end.

(** What the store answers is only logged. *)
Definition insert_entry (now : Z) (e : SemanticCacheEntry) (s : CacheState) : CacheState :=
  let entries := put_entry now e (sk_max_entries s.1) (sk_entries s.1) in
  let c := entries_gauge (length entries) (s.1 <| sk_entries := entries |>) in
  (c, (λ st, (prune_semantic_cache_entries (upsert_semantic_cache_entry st (entry_to_record e)).1 now (row_limit c)).1) <$> s.2).

(** *** The plugin *)

Context `{Http} {S : Type}.

Notation Ctx := (RequestContext (H0 := gateway_types S)).

(** [{:.3}] of a number that is neither negative nor too large *)
Definition thousandths (m e : Z) : Z :=
  let n := (m * 1000 * 2 ^ Z.max 0 e)%Z in
  let d := (2 ^ Z.max 0 (- e))%Z in
  let q := (n / d)%Z in
  let r := (2 * (n mod d))%Z in
  if (d <? r)%Z || (d =? r)%Z && Z.odd q then (q + 1)%Z else q.

Definition three_digits (z : Z) : string :=
  (if (z <? 10)%Z then "00" else if (z <? 100)%Z then "0" else "") +:+ pretty z.

Definition format_3 (x : f64) : string :=
  match x with
  | S754_nan => "NaN"
  | S754_infinity s => (if s then "-" else "") +:+ "inf"
  | S754_zero s => (if s then "-" else "") +:+ "0.000"
  | S754_finite s m e =>
      let t := thousandths (Zpos m) e in
      (if s then "-" else "") +:+ pretty (t / 1000)%Z +:+ "." +:+ three_digits (t mod 1000)
  end.

Definition with_cache_headers (resp : Response) (cache_status : string) (similarity : option f64) : Response :=
  let h := hm_insert "x-trp-semantic-cache" (default (hv_from_static "unknown") (hv_from_str cache_status)) (resp_headers resp) in
  {| status := status resp;
     resp_headers := from_option (λ x, insert_text "x-trp-semantic-cache-similarity" (format_3 x) h) h similarity;
     resp_body := resp_body resp |}.

Definition insert_opt (name : string) (text : option string) (h : HeaderMap) : HeaderMap :=
  from_option (λ t, insert_text name t h) h text.

Definition insert_list (name : string) (l : list string) (h : HeaderMap) : HeaderMap :=
  match l with [] => h | _ => insert_text name (join "," l) h end.

Definition attach_routing_debug_headers (t : RoutingDebugTrace) (h : HeaderMap) : HeaderMap :=
  let h := insert_opt "x-trp-provider-selected" (rt_selected_provider t) h in
  let h := insert_opt "x-trp-prompt-cache-route" (rt_prompt_cache_preferred_provider t) h in
  let h := insert_opt "x-trp-semantic-cache-route" (rt_semantic_cache_preferred_provider t) h in
  let h := insert_list "x-trp-prompt-cache-negative" (rt_prompt_cache_negative_providers t) h in
  let h := if bool_decide (is_Some (rt_prompt_cache_preferred_provider t))
              || negb (bool_decide (rt_prompt_cache_negative_providers t = []))
           then hm_insert "x-trp-prompt-cache-affinity"
                  (hv_from_static (if rt_prompt_cache_affinity_applied t then "applied" else "observed")) h
           else h in
  let h := insert_list "x-trp-provider-order" (rt_ordered_providers t) h in
  let h := insert_list "x-trp-provider-attempts" (rt_attempted_providers t) h in
  insert_opt "x-trp-routing-rule" (or_else (rt_matched_rule_name t) (rt_matched_rule_id t)) h.

(** [Response::builder()] keeps the first error, which [body] returns. *)
Definition cached_response (e : SemanticCacheEntry) (similarity : f64) : Response :=
  let built :=
    if negb ((100 <=? ce_response_status e)%Z && (ce_response_status e <? 1000)%Z) then None
    else
      h ← match ce_content_type e with
          | None => Some hm_new
          | Some ct => (λ v, hm_append "content-type" v hm_new) <$> hv_from_str ct
          end;
      length ← hv_from_str (pretty (String.length (ce_response_body e)));
      Some {| status := ce_response_status e; resp_headers := hm_append "content-length" length h;
              resp_body := full_body (ce_response_body e) |} in
  with_cache_headers (default (prompt_json_error 500%Z "failed to build semantic cache response") built) "hit" (Some similarity).

(** What is served for a hit: with the trace of routing, when it is asked for. *)
Definition hit_response (ctx : Ctx) (e : SemanticCacheEntry) (similarity : f64) : Response :=
  let response := cached_response e similarity in
  match x_routing_trace (ctx_ext ctx) with
  | Some t =>
      if rt_enabled t
      then {| status := status response; resp_headers := attach_routing_debug_headers t (resp_headers response);
              resp_body := resp_body response |}
      else response
  | None => response
  end.

Definition count_hit (provider_name : string) (e : SemanticCacheEntry) (c : SemanticCache) : SemanticCache :=
  let c := c <| sk_hits := wrap64 (sk_hits c + 1) |>
             <| sk_saved_prompt_tokens := wrap64 (sk_saved_prompt_tokens c + ce_prompt_tokens e) |> in
  cache_metric {| me_metric := "semantic_cache_saved_prompt_tokens_total"; me_labels := [provider_name];
                  me_update := IncBy (ce_prompt_tokens e) |} (cache_counted provider_name "hit" c).

Definition count_miss (provider_name : string) (c : SemanticCache) : SemanticCache :=
  cache_counted provider_name "miss" (c <| sk_misses := wrap64 (sk_misses c + 1) |>).

(** A request the cache is to answer: the search, and what a miss leaves behind. *)
Definition look_up (now : Z) (key : VirtualKeyMeta) (o : SemanticCacheOptIn) (model normalized_prompt body : string)
    (c : SemanticCache) (ctx : Ctx) : SemanticCache * Ctx * Action :=
  let provider := vk_provider_name key in
  match find_hit now (vk_project_id key) provider model normalized_prompt (oi_similarity_threshold o) c with
  | (c, Some (e, similarity)) => (count_hit provider e c, ctx, Respond (hit_response ctx e similarity))
  | (c, None) =>
      let meta := {| cm_project_id := vk_project_id key; cm_provider_name := provider; cm_model := model;
                     cm_normalized_prompt := normalized_prompt; cm_prompt_tokens := estimate_prompt_tokens body;
                     cm_ttl_secs := oi_ttl_secs o |} in
      (count_miss provider c, update_request_body body (with_ext (λ x, x <| x_semantic_cache := Some meta |>) ctx), Continue)
  end.

Definition semantic_cache_on_request (g : GovernanceState) (now : Z) (c : SemanticCache) (ctx : Ctx)
    : SemanticCache * Ctx * Action :=
  if from_option disable_semantic_cache false (ext_brownout (ctx_extensions ctx)) then (c, ctx, Continue)
  else
    match x_virtual_key (ctx_ext ctx), ctx_body ctx with
    | Some key, Some _ =>
        match cached_request_json ctx with
        | (ctx, None) => (c, ctx, Continue)
        | (ctx, Some request_json) =>
            let policy := if sk_governance c then project_policy g (vk_project_id key) else None in
            let '(request_json, opt_in) := opt_in_of c policy request_json in
            let ctx := with_ext (λ x, x <| x_cached_request_json := Some request_json |>) ctx in
            let skip ctx := (record_skip (vk_provider_name key) c, ctx, Continue) in
            match opt_in with
            | Err error => (c, ctx, Respond (prompt_json_error 400%Z error))
            | Ok None => (c, ctx, Continue)
            | Ok (Some o) =>
                if project_refuses policy && oi_enabled o || negb (oi_enabled o) || unsupported request_json
                then skip (sync_cached_request_json_body ctx)
                else
                  let body := json_to_string request_json in
                  match extract_model body with
                  | None => skip (update_request_body body ctx)
                  | Some model =>
                      match extract_request_prompt request_json with
                      | None => skip (update_request_body body ctx)
                      | Some normalized_prompt => look_up now key o model normalized_prompt body c ctx
                      end
                  end
            end
        end
    | _, _ => (c, ctx, Continue)
    end.

(** [now.saturating_add(ttl_secs.saturating_mul(1000))] *)
Definition expiry (now ttl_secs : Z) : Z := Z.min u64_max (now + Z.min u64_max (ttl_secs * 1000)).

Definition entry_of (m : SemanticCacheRequestMeta) (now : Z) (resp : Response) (body : string) : SemanticCacheEntry := {|
  ce_cache_id := semantic_cache_id (cm_project_id m) (cm_provider_name m) (cm_model m) (cm_normalized_prompt m);
  ce_project_id := cm_project_id m; ce_provider_name := cm_provider_name m; ce_model := cm_model m;
  ce_tokens := tokenize (cm_normalized_prompt m); ce_response_status := status resp;
  ce_content_type := get_str "content-type" (resp_headers resp); ce_response_body := body;
  ce_prompt_tokens := cm_prompt_tokens m; ce_created_at_ms := now; ce_expires_at_ms := expiry now (cm_ttl_secs m) |}.

(** [now] is read for the entry, [now'] when it is put in. *)
Definition semantic_cache_transform_response (now now' : Z) (s : CacheState) (ctx : Ctx) (resp : Response)
    : CacheState * Response :=
  match x_semantic_cache (ctx_ext ctx) with
  | None => (s, resp)
  | Some m =>
      if negb (Http.is_success (status resp)) || is_sse (resp_headers resp)
      then ((record_skip (cm_provider_name m) s.1, s.2), with_cache_headers resp "skip" None)
      else
        match collect (resp_body resp) with
        | None =>
            ((record_skip (cm_provider_name m) s.1, s.2),
             with_cache_headers {| status := status resp; resp_headers := resp_headers resp; resp_body := full_body "" |} "skip" None)
        | Some body =>
            let s := insert_entry now' (entry_of m now resp body) s in
            let c := cache_counted (cm_provider_name m) "store" (s.1 <| sk_stores := wrap64 (sk_stores s.1 + 1) |>) in
            ((c, s.2),
             with_cache_headers {| status := status resp; resp_headers := hm_remove "content-length" (resp_headers resp);
                                   resp_body := full_body body |} "miss" None)
        end
  end.

End cache.
