(* ===== verification/SemanticCacheProps.v ===== *)
(** * What the semantic cache guarantees

    An answer from the cache was given by the provider for a prompt of the same
    project, provider and model that is similar enough and is not over; the most
    similar one is taken; an answer that was kept is found again by the same
    prompt; the cache stays within its limit. *)

From S2P Require Import Prelude RecordSet StateResult RustStr Utf8 F64 FloatRound StreamUsage Toml Json Sql Auth Http Plugin ProxyProtocol GatewayContext CostTracker GatewayLimits UsageStore GovernanceStore Governance Regex ContentFilter Routing PromptRegistry SemanticCache.

Local Open Scope string_scope.
Local Open Scope list_scope.
Local Open Scope rust_scope.

(** ** Words *)

Definition plain (a : ascii) : Prop := (N_of_ascii a < 128)%N.

(** A word: bytes of ASCII that are not white space, at least one. *)
Fixpoint wordy (s : string) : Prop :=
  match s with EmptyString => True | String a s' => plain a ∧ is_ascii_whitespace a = false ∧ wordy s' end.

Definition word (s : string) : Prop := s ≠ "" ∧ wordy s.

Fixpoint plain_text (s : string) : Prop :=
  match s with EmptyString => True | String a s' => plain a ∧ plain_text s' end.

Lemma split_words_plain a s : plain a →
  split_words (String a s) =
    let '(w, l) := split_words s in if is_ascii_whitespace a then ("", push_word w l) else (String a w, l).
Proof.
  intros Ha. cbn [split_words]. destruct (is_ascii_whitespace a); [done|].
  assert (∀ n : N, (128 <= n)%N → (N_of_ascii a =? n)%N = false) as Hn.
  { intros n Hn. apply N.eqb_neq. unfold plain in Ha. lia. }
  destruct s as [|b s2]; [done|]. unfold whitespace2 at 1. cbv zeta. rewrite Hn by done. cbn [andb].
  destruct s2 as [|c s3]; [by destruct (split_words _)|]. unfold whitespace3 at 1. cbv zeta. rewrite !Hn by done. by destruct (split_words _).
Qed.

Lemma split_words_word w s : wordy w →
  split_words (w +:+ s) = (w +:+ (split_words s).1, (split_words s).2).
Proof.
  induction w as [|a w IH]; intros Hw; [cbn [String.append]; by destruct (split_words s)|]. destruct Hw as (Ha & Hws & Hw).
  change (String a w +:+ s) with (String a (w +:+ s)). by rewrite split_words_plain, IH, Hws.
Qed.

Lemma split_whitespace_join ws : Forall word ws → split_whitespace (join " " ws) = ws.
Proof.
  unfold split_whitespace. induction ws as [|w ws IH]; intros Hws; [done|]. apply Forall_cons in Hws as [[Hne Hw] Hws].
  assert (∀ l, push_word w l = w :: l) as Hpush.
  { intros l. unfold push_word. by destruct (String.eqb_spec w ""). }
  destruct ws as [|w2 ws]; [change (join " " [w]) with w|change (join " " (w :: w2 :: ws)) with (w +:+ " " +:+ join " " (w2 :: ws))].
  - rewrite <-(str_app_nil_r w), split_words_word, !str_app_nil_r by done. apply Hpush.
  - rewrite split_words_word by done. specialize (IH Hws). set (rest := join " " (w2 :: ws)) in *.
    change (" " +:+ rest) with (String " " rest). rewrite (split_words_plain " ") by done.
    destruct (split_words rest) as [w' l']. cbn [fst snd]. change (is_ascii_whitespace " ") with true. cbv iota.
    cbn [fst snd]. by rewrite str_app_nil_r, Hpush, IH.
Qed.

Lemma split_whitespace_words s : plain_text s → Forall word (split_whitespace s).
Proof.
  intros Hs. enough (wordy (split_words s).1 ∧ Forall word (split_words s).2) as [H1 H2].
  { unfold split_whitespace, push_word. destruct (split_words s) as [w l]. cbn in *.
    destruct (String.eqb_spec w ""); [done|]. by constructor. }
  induction s as [|a s IH]; [done|]. destruct Hs as [Ha Hs]. rewrite split_words_plain by done.
  specialize (IH Hs). destruct (split_words s) as [w l]. destruct IH as [Hw Hl]. cbn [fst snd] in *.
  destruct (is_ascii_whitespace a) eqn:E; cbn [fst snd]; [|done]. split; [done|].
  unfold push_word. destruct (String.eqb_spec w ""); [done|]. by constructor.
Qed.

Lemma normal_byte_plain a : plain (normal_byte a).
Proof. by destruct a as [[] [] [] [] [] [] [] []]. Qed.

Lemma normal_bytes_plain s : plain_text (normal_bytes s).
Proof. induction s as [|a s IH]; [done|]. split; [apply normal_byte_plain|done]. Qed.

(** The words of a prompt are read back from its normal form. *)
Lemma tokenize_normalize text : tokenize (normalize_prompt text) = list_to_set (split_whitespace (normal_bytes text)).
Proof.
  unfold tokenize, normalize_prompt. by rewrite split_whitespace_join by apply split_whitespace_words, normal_bytes_plain.
Qed.

Lemma prompt_has_words v prompt : extract_request_prompt v = Some prompt → tokenize prompt ≠ ∅.
Proof.
  unfold extract_request_prompt. set (text := join _ _). destruct (normalize_prompt text) as [|a p] eqn:En; [done|].
  intros [= <-]. rewrite <-En, tokenize_normalize.
  unfold normalize_prompt in En. destruct (split_whitespace (normal_bytes text)) as [|w ws]; [done|].
  intros E. apply (f_equal (λ X : gset string, w ∈ X)) in E. cbn in E.
  assert (w ∈ ({[w]} ∪ list_to_set ws : gset string)) as Hin by (apply elem_of_union; left; by apply elem_of_singleton).
  rewrite E in Hin. by apply elem_of_empty in Hin.
Qed.

(** ** Similarity *)

Lemma f64_div_self x : ffin x → fval x ≠ 0%Z → f64_div x x = f64_of_Z 1.
Proof.
  destruct x as [s| | |[] m e]; try done. intros _ _. unfold f64_div, SFdiv.
  assert (SFdiv_core_binary f64_prec f64_emax (Zpos m) e (Zpos m) e = (2 ^ 53, -53, loc_Exact)%Z) as ->.
  { unfold SFdiv_core_binary. set (d := Zdigits2 (Zpos m)).
    replace (fexp f64_prec f64_emax (d + e - (d + e)))%Z with (-53)%Z by (rewrite Z.sub_diag; reflexivity).
    rewrite Z.sub_diag. change (Z.min (-53) 0) with (-53)%Z. change (0 - -53)%Z with 53%Z. cbv beta iota zeta.
    assert (Z.shiftl (Zpos m) 53 = 2 ^ 53 * Zpos m)%Z as -> by (rewrite Z.shiftl_mul_pow2 by lia; lia).
    pose proof (Z_div_mod (2 ^ 53 * Zpos m) (Zpos m) ltac:(lia)) as Hdiv.
    destruct (Z.div_eucl (2 ^ 53 * Zpos m) (Zpos m)) as [q r]. destruct Hdiv as [Hq Hr].
    assert (r = Zpos m * (2 ^ 53 - q))%Z as Hr' by lia.
    assert (2 ^ 53 - q = 0)%Z as Hz by (destruct (Z.lt_trichotomy (2 ^ 53 - q) 0) as [?|[?|?]]; nia).
    rewrite Hz, Z.mul_0_r in Hr'. subst r. replace q with (2 ^ 53)%Z by lia.
    unfold new_location, new_location_even, new_location_odd. by destruct (Z.even (Zpos m)). }
  reflexivity.
Qed.

Lemma f_lt_irrefl x : f_lt x x = false.
Proof.
  destruct (f_lt x x) eqn:E; [|done]. apply f_lt_le in E as Hle. by rewrite (f_le_not_lt _ _ Hle) in E.
Qed.

Lemma f_lt_not_nan x y : f_lt x y = true → is_nan x = false ∧ is_nan y = false.
Proof. by destruct x as [|[]| |[]], y as [|[]| |[]]. Qed.

Lemma f_lt_trans x y z : f_lt x y = true → f_lt y z = true → f_lt x z = true.
Proof.
  intros Hxy Hyz. destruct (f_lt x z) eqn:Exz; [done|].
  apply f_not_lt_le in Exz; [|by apply f_lt_not_nan in Hyz as []|by apply f_lt_not_nan in Hxy as []].
  pose proof (f_le_trans _ _ _ (f_lt_le _ _ Hyz) Exz) as Hyx. by rewrite (f_le_not_lt _ _ Hyx) in Hxy.
Qed.

Lemma f_lt_asym x y : f_lt x y = true → f_lt y x = false.
Proof. intros E. by apply f_le_not_lt, f_lt_le. Qed.

Lemma jaccard_self (t : gset string) : t ≠ ∅ → (Z.of_nat (size t) ≤ u64_max)%Z → jaccard_similarity t t = f64_of_Z 1.
Proof.
  intros Hne Hsize. unfold jaccard_similarity. rewrite !bool_decide_eq_false_2 by done. cbn [orb].
  assert (t ∩ t = t) as -> by (apply set_eq; set_solver). assert (t ∪ t = t) as -> by (apply set_eq; set_solver).
  assert (0 < Z.of_nat (size t))%Z as Hpos.
  { apply (inj_lt 0). apply Nat.neq_0_lt_0. intros E%size_empty_inv. by apply leibniz_equiv in E. }
  assert (ffin (f64_of_Z (Z.of_nat (size t)))) as Hf by (apply f64_of_Z_ffin; lia). pose proof (f64_of_Z_nonzero _ Hpos) as Hn.
  rewrite f64_div_self by done. destruct (f_eq _ f_zero) eqn:E; [|done].
  apply f_eq_le in E as [E _]. apply f_le_fval in E; [|by apply ffin_fpos|done].
  pose proof (fval_nonneg (f64_of_Z (Z.of_nat (size t)))). simpl in E. lia.
Qed.

(** ** The search *)

Section search.
Variables (wanted : SemanticCacheEntry → bool) (tokens : gset string) (threshold : f64).

Notation sim e := (jaccard_similarity tokens (ce_tokens e)).

Definition matching (e : SemanticCacheEntry) : Prop := wanted e = true ∧ f_lt (sim e) threshold = false.

Lemma best_hit_spec l best :
  match best_hit wanted tokens threshold l best with
  | None => best = None ∧ ∀ e, e ∈ l → ¬ matching e
  | Some (e, x) =>
      (best = Some (e, x) ∨ e ∈ l ∧ matching e ∧ x = sim e) ∧
      (∀ b, best = Some b → x = b.2 ∨ f_lt b.2 x = true) ∧ ∀ e', e' ∈ l → matching e' → f_lt x (sim e') = false
  end.
Proof.
  revert best. induction l as [|e0 l IH]; intros best; cbn [best_hit].
  { destruct best as [[e x]|]; [|set_solver]. split; [by left|]. split; [|set_solver]. intros b [= <-]. by left. }
  destruct (negb (wanted e0) || f_lt (sim e0) threshold) eqn:Em.
  - specialize (IH best). assert (¬ matching e0) as Hno.
    { intros [Hw Ht]. by rewrite Hw, Ht in Em. }
    destruct (best_hit _ _ _ _ _) as [[e x]|]; set_solver.
  - assert (matching e0) as He0.
    { apply orb_false_iff in Em as [Hw Ht]. by apply negb_false_iff in Hw. }
    destruct (from_option (λ b, f_lt b.2 (sim e0)) true best) eqn:Eb.
    + specialize (IH (Some (e0, sim e0))). destruct (best_hit _ _ _ _ _) as [[e x]|]; [|set_solver].
      destruct IH as (Hwhere & Hbest & Hall). pose proof (Hbest _ eq_refl) as H0. cbn in H0. split_and!.
      * right. destruct Hwhere as [[= <- <-]|?]; set_solver.
      * intros b ->. cbn in Eb. right. destruct H0 as [->|H0]; [done|]. by eapply f_lt_trans.
      * intros e' [->|Hin]%elem_of_cons; [|by apply Hall]. intros _.
        destruct H0 as [->|H0]; [apply f_lt_irrefl|by apply f_lt_asym].
    + destruct best as [b|]; [|done]. cbn in Eb. specialize (IH (Some b)).
      destruct (best_hit _ _ _ _ _) as [[e x]|]; [|set_solver].
      destruct IH as (Hwhere & Hbest & Hall). split_and!; [destruct Hwhere as [?|?]; [by left|right; set_solver]|done|].
      intros e' [->|Hin]%elem_of_cons; [|by apply Hall]. intros _.
      destruct (Hbest b eq_refl) as [->|Hb]; [done|]. destruct (f_lt x (sim e0)) eqn:E; [|done].
      by rewrite (f_lt_trans _ _ _ Hb E) in Eb.
Qed.

End search.

(** ** The SQLite store *)

Lemma cache_sql_shrinks {A} (w : gmap string SemanticCacheEntryRecord → gmap string SemanticCacheEntryRecord * A) s s' r :
  (∀ t, (w t).1 ⊆ t) → cache_sql w s = (s', r) → db_tables s' ⊆ db_tables s.
Proof. intros Hw E. apply execute_cases in E. destruct r; [destruct E as [-> _]; apply Hw|by rewrite E]. Qed.

Lemma sqlite_prune_shrinks st now limit st' r :
  sqlite_prune_semantic_cache_entries st now limit = (st', r) → db_tables st' ⊆ db_tables st.
Proof.
  unfold sqlite_prune_semantic_cache_entries. intros E.
  destruct (cache_sql (λ t, (filter (λ e, live_row now e.2 = true) t, ())) st) as [s1 r1] eqn:E1.
  apply cache_sql_shrinks in E1 as H1; [|intros t; apply map_filter_subseteq].
  erewrite ST_bind_step in E by exact E1. destruct r1 as [[]|]; [|by simplify_eq].
  destruct (limit =? 0)%Z.
  { apply cache_sql_shrinks in E; [|intros t; apply map_empty_subseteq]. by etrans. }
  destruct (cache_sql (λ t, (t, Z.of_nat (size t))) s1) as [s2 r2] eqn:E2. apply cache_sql_shrinks in E2 as H2; [|done].
  erewrite ST_bind_step in E by exact E2. destruct r2 as [total|]; [|simplify_eq; by etrans].
  destruct (total <=? limit)%Z; [injection E as <- <-; by etrans|].
  apply cache_sql_shrinks in E; [|intros t; apply map_filter_subseteq]. etrans; [exact E|by etrans].
Qed.

Lemma sqlite_get_ok st now limit st' r :
  sqlite_get_semantic_cache_entries st now limit = (st', r) → rows (db_tables st') = rows (db_tables st) ∧
  ∀ l, r = Ok l → (Z.of_nat (length l) ≤ Z.max 0 limit)%Z ∧
    ∀ x, x ∈ l → x ∈ rows (db_tables st) ∧ (as_i64 now < as_i64 (er_expires_at_ms x))%Z.
Proof.
  intros E. apply execute_select in E as [Et El]. split; [by rewrite Et|].
  intros l ->. specialize (El l eq_refl). subst l. split; [rewrite length_take; lia|].
  intros x Hx%elem_of_take. destruct Hx as (i & Hi & _).
  apply list_elem_of_lookup_2, sort_by_elem_of, list_elem_of_filter in Hi as [Hlive Hin]. split; [done|].
  by apply Z.ltb_lt.
Qed.

Lemma sqlite_upsert_ok st x st' r : sqlite_upsert_semantic_cache_entry st x = (st', r) →
  ∀ y, y ∈ rows (db_tables st') → y = x ∨ y ∈ rows (db_tables st).
Proof.
  intros E y. apply execute_write in E. rewrite E, !elem_of_rows. destruct r; [|by right].
  intros [k Hk]. apply lookup_insert_Some in Hk as [[_ ->]|[_ Hk]]; [by left|right; by exists k].
Qed.

Lemma sqlite_prune_ok st now limit st' r : sqlite_prune_semantic_cache_entries st now limit = (st', r) →
  ∀ y, y ∈ rows (db_tables st') → y ∈ rows (db_tables st).
Proof.
  intros Hsub%sqlite_prune_shrinks y. rewrite !elem_of_rows. intros [k Hk]. exists k. by eapply lookup_weaken.
Qed.

#[export] Instance sqlite_cache_store_ok : CacheStoreOk CacheDb := {|
  cache_rows s := rows (db_tables s);
  get_entries_ok := sqlite_get_ok;
  upsert_entry_ok := sqlite_upsert_ok;
  prune_entries_ok := sqlite_prune_ok;
|}.

(** ** Lists *)

Lemma sort_by_last {A} (leb : A → A → bool) l x :
  (∀ y, y ∈ l → leb y x = true) → sort_by leb (l ++ [x]) = sort_by leb l ++ [x].
Proof.
  assert (∀ l y, leb y x = true → insert_by leb y (l ++ [x]) = insert_by leb y l ++ [x]) as Hins.
  { intros l' y Hy. induction l' as [|z l' IH]; cbn; [by rewrite Hy|]. destruct (leb y z); [done|]. by rewrite IH. }
  induction l as [|y l IH]; intros Hl; [done|]. cbn. rewrite IH by set_solver. apply Hins. set_solver.
Qed.

(** ** Histories *)

Section histories.
Context `{SerdeJsonOk} `{TokenDigest} {St : Type} `{CacheStoreOk St} `{Http} {S : Type}.

Notation Ctx := (RequestContext (H0 := gateway_types S)).

(** What can happen to a cache: a request asks it, an answer passes it, routing
    asks it, or the process is started again with the store it has. *)
Inductive CacheCall :=
| CacheRequest (g : GovernanceState) (now : Z) (ctx : Ctx)
| CacheAnswer (now now' : Z) (ctx : Ctx) (resp : Response)
| CacheAffinity (now : Z) (project_id : string) (request_json : json) (providers : list string)
    (policy : option ProjectPolicyRecord)
| CacheRestart (now : Z).

Definition run_cache (s : CacheState) (call : CacheCall) : CacheState :=
  match call with
  | CacheRequest g now ctx => ((semantic_cache_on_request g now s.1 ctx).1.1, s.2)
  | CacheAnswer now now' ctx resp => (semantic_cache_transform_response now now' s ctx resp).1
  | CacheAffinity now project_id request_json providers policy =>
      ((routing_affinity_for_request_json now project_id request_json providers policy s.1).1, s.2)
  | CacheRestart now => (semantic_cache_load now (s.1 <| sk_entries := [] |>, s.2)).1
  end.

(** The entry an answer leaves: the request was looked up, and the answer is a
    complete success that is not a stream. *)
Definition kept_by (call : CacheCall) : option SemanticCacheEntry :=
  match call with
  | CacheAnswer now _ ctx resp =>
      m ← x_semantic_cache (ctx_ext ctx);
      if negb (Http.is_success (status resp)) || is_sse (resp_headers resp) then None
      else entry_of m now resp <$> collect (resp_body resp)
  | _ => None
  end.

Definition kept (calls : list CacheCall) : list SemanticCacheEntry := omap kept_by calls.

(** *** What an operation does to the entries *)

Lemma strings_read_back (l : list string) : strings_from_str (strings_to_string l) = Some l.
Proof.
  unfold strings_from_str, strings_to_string. rewrite strings_roundtrip. simpl. unfold strings_of_json. simpl.
  apply mapM_Some, Forall2_fmap_l, Forall2_same_length_lookup_2; [done|]. intros i x y. simpl. congruence.
Qed.

Lemma tokens_read_back (t : gset string) : deserialize_tokens (serialize_tokens t) = Some t.
Proof.
  unfold deserialize_tokens, serialize_tokens. rewrite strings_read_back. simpl. f_equal. apply set_eq. intros x.
  by rewrite elem_of_list_to_set, sort_by_elem_of, elem_of_elements.
Qed.

Lemma entry_record_roundtrip e : entry_from_record (entry_to_record e) = Some e.
Proof. unfold entry_from_record, entry_to_record. cbn [er_tokens_json]. rewrite tokens_read_back. by destruct e. Qed.

Lemma put_entry_sub now e max l x : x ∈ put_entry now e max l → x = e ∨ x ∈ l.
Proof.
  unfold put_entry. set (l' := filter _ l ++ [e]).
  assert (x ∈ l' → x = e ∨ x ∈ l) as Hl'.
  { unfold l'. rewrite elem_of_app, list_elem_of_filter, list_elem_of_singleton. naive_solver. }
  destruct (_ <? _)%Z; [|done]. intros (i & Hi)%list_elem_of_lookup_1. rewrite lookup_drop in Hi.
  apply list_elem_of_lookup_2, sort_by_elem_of in Hi. by apply Hl'.
Qed.

Lemma drop_expired_sub now c x : x ∈ sk_entries (drop_expired now c) → x ∈ sk_entries c ∧ (now < ce_expires_at_ms x)%Z.
Proof. cbn. rewrite list_elem_of_filter. unfold live_entry. rewrite Z.ltb_lt. naive_solver. Qed.

Lemma on_request_entries g now c (ctx : Ctx) :
  sk_entries (semantic_cache_on_request g now c ctx).1.1 = sk_entries c ∨
  sk_entries (semantic_cache_on_request g now c ctx).1.1 = sk_entries (drop_expired now c).
Proof.
  unfold semantic_cache_on_request, look_up, find_hit. repeat case_match; simplify_eq/=; auto.
Qed.

Lemma affinity_entries now project_id request_json providers policy c :
  let c' := (routing_affinity_for_request_json now project_id request_json providers policy c).1 in
  sk_entries c' = sk_entries c ∨ sk_entries c' = sk_entries (drop_expired now c).
Proof.
  unfold routing_affinity_for_request_json, affinity_for_preference, routing_affinity_from_preference, routing_affinity.
  repeat case_match; simplify_eq/=; auto.
Qed.

(** *** Everything in the cache was kept *)

Definition backed (known : list SemanticCacheEntry) (s : CacheState) : Prop :=
  (∀ e, e ∈ sk_entries s.1 → e ∈ known) ∧
  ∀ st, s.2 = Some st → ∀ r, r ∈ cache_rows st → ∃ e, e ∈ known ∧ r = entry_to_record e.

Lemma backed_weaken known known' s : (∀ e, e ∈ known → e ∈ known') → backed known s → backed known' s.
Proof. intros Hsub [He Hr]. split; [auto|]. intros st Est r Hin. destruct (Hr st Est r Hin) as (e & ? & ?). eauto. Qed.

Lemma backed_entries known s c' :
  (∀ e, e ∈ sk_entries c' → e ∈ sk_entries s.1) → backed known s → backed known (c', s.2).
Proof. intros Hsub [He Hr]. split; [|done]. intros e Hin. by apply He, Hsub. Qed.

Lemma backed_insert known now e s : e ∈ known → backed known s → backed known (insert_entry now e s).
Proof.
  intros Hk [He Hr]. split.
  - intros x [->|Hx]%put_entry_sub; [done|by apply He].
  - cbn. destruct s.2 as [st|] eqn:Es; [|done]. intros st' [= <-] r.
    destruct (upsert_semantic_cache_entry st (entry_to_record e)) as [st1 r1] eqn:E1. cbn [fst].
    destruct (prune_semantic_cache_entries st1 now _) as [st2 r2] eqn:E2. cbn [fst].
    intros Hin. apply (prune_entries_ok _ _ _ _ _ E2), (upsert_entry_ok _ _ _ _ E1) in Hin as [->|Hin]; [by exists e|].
    by apply (Hr st).
Qed.

Lemma backed_load known now s : backed known s → backed known (semantic_cache_load now s).1.
Proof.
  intros [He Hr]. unfold semantic_cache_load. destruct s as [c [st|]]; [|done]. cbn [fst snd] in *.
  destruct (get_semantic_cache_entries st now _) as [st' r] eqn:Eg. apply get_entries_ok in Eg as [Hrows Hl].
  destruct r as [records|].
  - split; cbn.
    + intros e (x & Hx & Ex)%list_elem_of_omap. apply (Hl _ eq_refl) in Hx as [Hx _].
      destruct (Hr st eq_refl x Hx) as (e' & He' & ->). rewrite entry_record_roundtrip in Ex. by simplify_eq.
    + intros st'' [= <-] x. rewrite Hrows. by apply (Hr st).
  - split; cbn; [done|]. intros st'' [= <-] x. rewrite Hrows. by apply (Hr st).
Qed.

Lemma backed_step known s call : backed known s → backed (known ++ option_list (kept_by call)) (run_cache s call).
Proof.
  intros Hb. assert (backed (known ++ option_list (kept_by call)) s) as Hb'.
  { eapply backed_weaken; [|done]. set_solver. }
  destruct call as [g now ctx|now now' ctx resp|now project_id request_json providers policy|now]; cbn [run_cache].
  - apply (backed_entries _ s); [|done]. intros e He. destruct (on_request_entries g now s.1 ctx) as [E|E]; rewrite E in He; [done|].
    by apply drop_expired_sub in He as [].
  - cbn [kept_by] in Hb' |- *. unfold semantic_cache_transform_response.
    destruct (x_semantic_cache (ctx_ext ctx)) as [m|]; cbn [mbind option_bind] in *; [|done].
    destruct (negb _ || _); [by apply (backed_entries _ s)|].
    destruct (collect (resp_body resp)) as [body|]; cbn in *; [|by apply (backed_entries _ s)].
    apply (backed_insert _ now' (entry_of m now resp body)) in Hb'; [exact Hb'|]. apply elem_of_app. right. by left.
  - apply (backed_entries _ s); [|done]. intros e He.
    destruct (affinity_entries now project_id request_json providers policy s.1) as [E|E]; rewrite E in He; [done|].
    by apply drop_expired_sub in He as [].
  - apply backed_load. split; [set_solver|]. apply Hb'.
Qed.

Lemma backed_run calls s known : backed known s → backed (known ++ kept calls) (foldl run_cache s calls).
Proof.
  revert s known. induction calls as [|call calls IH]; intros s known Hb; cbn [foldl]; [by rewrite app_nil_r|].
  apply (backed_step _ _ call) in Hb. apply IH in Hb.
  eapply backed_weaken; [|exact Hb]. intros e. unfold kept. cbn [omap list_omap].
  destruct (kept_by call); cbn; rewrite !elem_of_app; set_solver.
Qed.

(** A cache without entries, with a store without rows or without one. *)
Definition cache_start (s : CacheState) : Prop :=
  sk_entries s.1 = [] ∧ ∀ st, s.2 = Some st → cache_rows st = [].

Lemma start_backed s : cache_start s → backed [] s.
Proof. intros [He Hr]. split; [by rewrite He|]. intros st Est r. rewrite (Hr st Est). set_solver. Qed.

(** *** Answers from the cache *)

Lemma find_hit_Some now project_id provider_name model prompt threshold c c' e x :
  find_hit now project_id provider_name model prompt threshold c = (c', Some (e, x)) →
  e ∈ sk_entries c ∧ (now < ce_expires_at_ms e)%Z ∧
  ce_project_id e = project_id ∧ ce_provider_name e = provider_name ∧ ce_model e = model ∧
  x = jaccard_similarity (tokenize prompt) (ce_tokens e) ∧ f_lt x threshold = false ∧
  (∀ e', e' ∈ sk_entries c → (now < ce_expires_at_ms e')%Z → ce_project_id e' = project_id →
     ce_provider_name e' = provider_name → ce_model e' = model →
     f_lt x (jaccard_similarity (tokenize prompt) (ce_tokens e')) = false ∨
     f_lt (jaccard_similarity (tokenize prompt) (ce_tokens e')) threshold = true).
Proof.
  unfold find_hit. intros E. apply (f_equal snd) in E. cbn [snd] in E. set (wanted := λ e, _ && _ && _) in E.
  pose proof (best_hit_spec wanted (tokenize prompt) threshold (sk_entries (drop_expired now c)) None) as Hs.
  assert (∀ e, wanted e = true ↔ ce_project_id e = project_id ∧ ce_provider_name e = provider_name ∧ ce_model e = model) as Hw.
  { intros e'. unfold wanted. rewrite !andb_true_iff, !String.eqb_eq. tauto. }
  rewrite E in Hs. destruct Hs as ([|(Hin & [Hwe Ht] & ->)] & _ & Hall); [done|].
  apply drop_expired_sub in Hin as [Hin Hlive]. apply Hw in Hwe as (? & ? & ?). split_and!; try done.
  intros e' Hin' Hlive' ???. destruct (f_lt (jaccard_similarity _ (ce_tokens e')) threshold) eqn:Et; [by right|left].
  apply Hall; [|by split; [apply Hw|]].
  cbn. apply list_elem_of_filter. split; [by apply Z.ltb_lt|done].
Qed.

(** What a request looks up: its key, its options, its model and its prompt. *)
Definition looks_up (g : GovernanceState) (c : SemanticCache) (ctx : Ctx) (key : VirtualKeyMeta) (o : SemanticCacheOptIn)
    (model prompt : string) : Prop :=
  from_option disable_semantic_cache false (ext_brownout (ctx_extensions ctx)) = false ∧
  x_virtual_key (ctx_ext ctx) = Some key ∧ is_Some (ctx_body ctx) ∧
  ∃ v value, (cached_request_json ctx).2 = Some v ∧
    let policy := if sk_governance c then project_policy g (vk_project_id key) else None in
    opt_in_of c policy v = (value, Ok (Some o)) ∧ oi_enabled o = true ∧ project_refuses policy = false ∧
    unsupported value = false ∧ extract_model (json_to_string value) = Some model ∧
    extract_request_prompt value = Some prompt.

Lemma looks_up_runs g now c ctx key o model prompt :
  looks_up g c ctx key o model prompt →
  ∃ body ctx1, semantic_cache_on_request g now c ctx = look_up now key o model prompt body c ctx1.
Proof.
  intros (Hb & Hk & [body Hbody] & v & value & Hj & Ho & Hen & Hpr & Hun & Hm & Hp). unfold semantic_cache_on_request.
  rewrite Hb, Hk, Hbody. destruct (cached_request_json ctx) as [ctx1 j]. cbn [snd] in Hj. subst j. cbv zeta in *.
  rewrite Ho, Hen, Hpr, Hun. cbn [negb andb orb]. rewrite Hm, Hp. by eexists _, _.
Qed.

(** A request that the cache answers asked it, or had wrong options. *)
Lemma on_request_answers g now c (ctx ctx' : Ctx) c' r :
  semantic_cache_on_request g now c ctx = (c', ctx', Respond r) →
  (∃ error, r = prompt_json_error 400%Z error) ∨
  ∃ key o model prompt body, looks_up g c ctx key o model prompt ∧
    look_up now key o model prompt body c ctx' = (c', ctx', Respond r).
Proof.
  unfold semantic_cache_on_request. destruct (from_option _ _ _) eqn:Eb; [done|].
  destruct (x_virtual_key (ctx_ext ctx)) as [key|] eqn:Ek; [|done]. destruct (ctx_body ctx) eqn:Ebody; [|done].
  destruct (cached_request_json ctx) as [ctx1 [v|]] eqn:Ej; [|done]. cbv zeta.
  destruct (opt_in_of _ _ v) as [value opt_in] eqn:Eo.
  destruct opt_in as [[o|]|error]; [|done|by intros [= _ _ <-]; left; exists error].
  destruct (_ || _ || _) eqn:Es; [done|]. destruct (extract_model _) as [model|] eqn:Em; [|done].
  destruct (extract_request_prompt value) as [prompt|] eqn:Ep; [|done]. intros E. right.
  apply orb_false_iff in Es as [[Hr Hen%negb_false_iff]%orb_false_iff Hun]. rewrite Hen, andb_true_r in Hr.
  assert (ctx' = with_ext (λ x, x <| x_cached_request_json := Some value |>) ctx1) as ->.
  { unfold look_up in E. by destruct (find_hit _ _ _ _ _ _ _) as [? [[? ?]|]]; injection E. }
  exists key, o, model, prompt, (json_to_string value). split; [|exact E].
  split; [done|]. split; [done|]. split; [by eexists|]. exists v, value. rewrite Ej. split; [done|]. cbv zeta. by rewrite Eo.
Qed.

(** C19: An answer from the cache is backed.  After any sequence of requests, answers,
    questions of routing and restarts, a request that the cache answers, other than
    to say that its options are wrong, asks the cache ([looks_up]: its virtual key,
    and the model, the words and the threshold of similarity that its body and the
    policy of its project give) and gets exactly the response built from an answer
    that was kept earlier and from its similarity: one given with success under a
    key of the same project and provider for the same model, not over yet, to a
    prompt whose words are at least as similar to those of this request as the
    threshold of this request asks, and no other live answer of the project,
    provider and model is more similar. *)
Theorem cached_answers_are_backed calls s0 g now (ctx ctx' : Ctx) c' r :
  cache_start s0 →
  let s := foldl run_cache s0 calls in
  semantic_cache_on_request g now s.1 ctx = (c', ctx', Respond r) →
  (∃ error, r = prompt_json_error 400%Z error) ∨
  ∃ key o model prompt e, looks_up g s.1 ctx key o model prompt ∧
    let similarity (e : SemanticCacheEntry) := jaccard_similarity (tokenize prompt) (ce_tokens e) in
    r = hit_response ctx' e (similarity e) ∧
    e ∈ kept calls ∧ (now < ce_expires_at_ms e)%Z ∧
    ce_project_id e = vk_project_id key ∧ ce_provider_name e = vk_provider_name key ∧ ce_model e = model ∧
    f_lt (similarity e) (oi_similarity_threshold o) = false ∧
    (∀ e', e' ∈ sk_entries s.1 → (now < ce_expires_at_ms e')%Z → ce_project_id e' = vk_project_id key →
       ce_provider_name e' = vk_provider_name key → ce_model e' = model →
       f_lt (similarity e) (similarity e') = false ∨
       f_lt (similarity e') (oi_similarity_threshold o) = true).
Proof.
  intros Hstart s Hreq. pose proof (backed_run calls s0 [] (start_backed _ Hstart)) as [Hb _]. fold s in Hb.
  destruct (on_request_answers _ _ _ _ _ _ _ Hreq) as [?|(key & o & model & prompt & body & Hl & Hrun)]; [by left|right].
  unfold look_up in Hrun. destruct (find_hit _ _ _ _ _ _ _) as [c1 [[e x]|]] eqn:Eh; [|done].
  apply find_hit_Some in Eh as (Hin & Hlive & Hp & Hpr & Hm & -> & Ht & Hbest). injection Hrun as _ <-.
  exists key, o, model, prompt, e. split; [exact Hl|]. cbv zeta. split_and!; try done. by apply Hb.
Qed.

(** *** The limit *)

Lemma put_entry_length now e max l : (0 ≤ max)%Z → (Z.of_nat (length (put_entry now e max l)) ≤ max)%Z.
Proof.
  intros Hmax. unfold put_entry. set (l' := filter _ l ++ [e]). destruct (Z.ltb_spec max (Z.of_nat (length l'))); [|lia].
  rewrite length_drop, (Permutation_length (sort_by_perm _ _)). lia.
Qed.

Lemma drop_expired_length now c : (length (sk_entries (drop_expired now c)) ≤ length (sk_entries c))%nat.
Proof. cbn. apply length_filter. Qed.

Definition within_limit (max : Z) (c : SemanticCache) : Prop :=
  sk_max_entries c = max ∧ (Z.of_nat (length (sk_entries c)) ≤ max)%Z.

Lemma on_request_max g now c (ctx : Ctx) : sk_max_entries (semantic_cache_on_request g now c ctx).1.1 = sk_max_entries c.
Proof. unfold semantic_cache_on_request, look_up, find_hit. by repeat case_match; simplify_eq/=. Qed.

Lemma affinity_max now project_id request_json providers policy c :
  sk_max_entries (routing_affinity_for_request_json now project_id request_json providers policy c).1 = sk_max_entries c.
Proof.
  unfold routing_affinity_for_request_json, affinity_for_preference, routing_affinity_from_preference, routing_affinity.
  by repeat case_match; simplify_eq/=.
Qed.

Lemma load_within_limit max now s :
  (0 ≤ max)%Z → within_limit max s.1 → within_limit max (semantic_cache_load now s).1.1.
Proof.
  intros Hmax Hw. unfold semantic_cache_load. destruct s as [c [st|]]; cbn [fst snd] in *; [|done].
  destruct (get_semantic_cache_entries st now (row_limit c)) as [st' [records|]] eqn:Eg; [|done].
  apply get_entries_ok in Eg as [_ Hrec]. destruct (Hrec records eq_refl) as [Hlen _]. destruct Hw as [Hm _].
  split; [done|]. change (Z.of_nat (length (filter_map entry_from_record records)) ≤ max)%Z.
  pose proof (filter_map_length entry_from_record records).
  assert (row_limit c ≤ max)%Z by (unfold row_limit; lia). lia.
Qed.

Lemma transform_within_limit max now now' s (ctx : Ctx) resp :
  (0 ≤ max)%Z → within_limit max s.1 → within_limit max (semantic_cache_transform_response now now' s ctx resp).1.1.
Proof.
  intros Hmax [Hm Hl]. unfold semantic_cache_transform_response.
  destruct (x_semantic_cache _) as [m|]; [|done]. destruct (negb _ || _); [done|].
  destruct (collect _) as [body|]; [|done]. split; [done|].
  change (Z.of_nat (length (put_entry now' (entry_of m now resp body) (sk_max_entries s.1) (sk_entries s.1))) ≤ max)%Z.
  rewrite Hm. by apply put_entry_length.
Qed.

Lemma within_limit_step max s call : (0 ≤ max)%Z → within_limit max s.1 → within_limit max (run_cache s call).1.
Proof.
  intros Hmax Hw. pose proof Hw as [Hm Hl].
  destruct call as [g now ctx|now now' ctx resp|now project_id request_json providers policy|now]; cbn [run_cache fst].
  - split; [by rewrite on_request_max|]. pose proof (drop_expired_length now s.1).
    destruct (on_request_entries g now s.1 ctx) as [E|E]; rewrite E; lia.
  - by apply transform_within_limit.
  - split; [by rewrite affinity_max|]. pose proof (drop_expired_length now s.1).
    destruct (affinity_entries now project_id request_json providers policy s.1) as [E|E]; rewrite E; lia.
  - apply load_within_limit; [done|]. by split; [|exact Hmax].
Qed.

(** The cache stays within its limit: whatever is asked, kept and loaded, it never
    has more entries than the configuration allows. *)
Theorem cache_stays_within_limit calls s0 :
  (0 ≤ sk_max_entries s0.1)%Z → cache_start s0 →
  (Z.of_nat (length (sk_entries (foldl run_cache s0 calls).1)) ≤ sk_max_entries s0.1)%Z.
Proof.
  intros Hmax [He _]. enough (within_limit (sk_max_entries s0.1) (foldl run_cache s0 calls).1) as [_ ?] by done.
  assert (within_limit (sk_max_entries s0.1) s0.1) as Hw by (split; [done|]; rewrite He; done).
  clear He. revert Hw Hmax. generalize (sk_max_entries s0.1) as max. intros max. revert s0.
  induction calls as [|call calls IH]; intros s0 Hw Hmax; [done|]. cbn [foldl]. apply IH; [|done]. by apply within_limit_step.
Qed.

(** *** Found again *)

Lemma put_entry_keeps now e max l :
  (1 ≤ max)%Z → (∀ x, x ∈ l → (ce_created_at_ms x ≤ ce_created_at_ms e)%Z) → e ∈ put_entry now e max l.
Proof.
  intros Hmax Hl. unfold put_entry. set (l' := filter _ l). destruct (Z.ltb_spec max (Z.of_nat (length (l' ++ [e])))); [|apply elem_of_app; right; by left].
  rewrite sort_by_last.
  - rewrite drop_app_le; [apply elem_of_app; right; by left|]. rewrite (Permutation_length (sort_by_perm _ _)), length_app in *. simpl in *. lia.
  - intros y [_ Hy]%list_elem_of_filter. apply Z.leb_le. by apply Hl.
Qed.

(** A call that leaves an entry in memory: it comes before the entry is over, and
    an answer that is kept is for other words and finds room. *)
Definition spares (e : SemanticCacheEntry) (s : CacheState (St := St)) (call : CacheCall) : Prop :=
  match call with
  | CacheRequest _ now _ | CacheAffinity now _ _ _ _ => (now < ce_expires_at_ms e)%Z
  | CacheAnswer _ now' _ _ =>
      ∀ e', kept_by call = Some e' → (now' < ce_expires_at_ms e)%Z ∧ ce_cache_id e ≠ ce_cache_id e' ∧
        (Z.of_nat (length (sk_entries s.1)) < sk_max_entries s.1)%Z
  | CacheRestart _ => False
  end.

Fixpoint spared (e : SemanticCacheEntry) (s : CacheState (St := St)) (calls : list CacheCall) : Prop :=
  match calls with
  | [] => True
  | call :: calls => spares e s call ∧ spared e (run_cache s call) calls
  end.

Lemma drop_expired_keeps now c e : (now < ce_expires_at_ms e)%Z → e ∈ sk_entries c → e ∈ sk_entries (drop_expired now c).
Proof. intros Hn He. cbn. apply list_elem_of_filter. split; [by apply Z.ltb_lt|done]. Qed.

Lemma put_entry_spares now e e' max l : (now < ce_expires_at_ms e)%Z → ce_cache_id e ≠ ce_cache_id e' →
  (Z.of_nat (length l) < max)%Z → e ∈ l → e ∈ put_entry now e' max l.
Proof.
  intros Hn Hid Hlen He. unfold put_entry. set (l' := filter _ l).
  assert (length l' ≤ length l)%nat by apply length_filter.
  destruct (Z.ltb_spec max (Z.of_nat (length (l' ++ [e'])))) as [Hlt|_]; [rewrite length_app in Hlt; simpl in Hlt; lia|].
  apply elem_of_app. left. apply list_elem_of_filter. split; [|done].
  unfold live_entry. by rewrite (proj2 (Z.ltb_lt _ _) Hn), (proj2 (String.eqb_neq _ _) Hid).
Qed.

Lemma spares_step e s call : spares e s call → e ∈ sk_entries s.1 → e ∈ sk_entries (run_cache s call).1.
Proof.
  destruct call as [g now ctx|now now' ctx resp|now project_id request_json providers policy|now]; intros Hs He; [| | |done].
  - cbn [run_cache fst]. destruct (on_request_entries g now s.1 ctx) as [-> | ->]; [done|by apply drop_expired_keeps].
  - cbn [run_cache]. cbn [spares kept_by] in Hs. unfold semantic_cache_transform_response.
    destruct (x_semantic_cache (ctx_ext ctx)) as [m|]; cbn [mbind option_bind] in *; [|done].
    destruct (negb _ || _); [done|]. destruct (collect (resp_body resp)) as [body|]; cbn in *; [|done].
    destruct (Hs _ eq_refl) as (Hn & Hid & Hlen). by apply put_entry_spares.
  - cbn [run_cache fst]. destruct (affinity_entries now project_id request_json providers policy s.1) as [-> | ->]; [done|].
    by apply drop_expired_keeps.
Qed.

Lemma spared_stays e calls s : spared e s calls → e ∈ sk_entries s.1 → e ∈ sk_entries (foldl run_cache s calls).1.
Proof.
  revert s. induction calls as [|call calls IH]; intros s Hs He; [done|]. destruct Hs as [Hc Hcs].
  cbn [foldl]. apply IH; [done|]. by apply spares_step.
Qed.

(** A live entry of the same words is found, or one as similar. *)
Lemma find_hit_same_words now project_id provider_name model prompt threshold c e0 :
  tokenize prompt ≠ ∅ → (Z.of_nat (size (tokenize prompt)) ≤ u64_max)%Z → in_unit_range threshold = true →
  e0 ∈ sk_entries c → (now < ce_expires_at_ms e0)%Z → ce_project_id e0 = project_id →
  ce_provider_name e0 = provider_name → ce_model e0 = model → ce_tokens e0 = tokenize prompt →
  ∃ e x, (find_hit now project_id provider_name model prompt threshold c).2 = Some (e, x) ∧
    f_lt x (f64_of_Z 1) = false.
Proof.
  intros Hne Hsize [_ Hu]%andb_true_iff Hin Hlive Hp Hpr Hm Ht.
  assert (jaccard_similarity (tokenize prompt) (ce_tokens e0) = f64_of_Z 1) as Hone by (rewrite Ht; by apply jaccard_self).
  destruct (find_hit _ _ _ _ _ _ _) as [c' [[e x]|]] eqn:Eh; cbn [snd].
  - apply find_hit_Some in Eh as (_ & _ & _ & _ & _ & _ & _ & Hbest). exists e, x. split; [done|].
    destruct (Hbest e0) as [Hb|Hb]; try done; rewrite Hone in Hb; [done|]. by rewrite (f_le_not_lt _ _ Hu) in Hb.
  - exfalso. apply (f_equal snd) in Eh. unfold find_hit in Eh. cbn [snd] in Eh. revert Eh.
    match goal with |- best_hit ?w ?t ?th ?l _ = _ → _ => pose proof (best_hit_spec w t th l None) as Hs end.
    intros Eh. rewrite Eh in Hs. destruct Hs as [_ Hs]. apply (Hs e0); [by apply drop_expired_keeps|].
    split; [by rewrite Hp, Hpr, Hm, !String.eqb_refl|]. rewrite Hone. by apply f_le_not_lt.
Qed.

(** C20: An answer that was kept is found again.  Suppose a success has been kept, the
    clock having not gone back and the cache having room for an entry, and nothing
    has happened since that takes the answer out of memory ([spared]: no restart, no
    call after its time is over, and every answer kept since was for other words and
    found a free place).  Then a request under a key of the same project and
    provider for the same model with the same words and a threshold between zero and
    one, before the time the answer was kept for is over, is answered from the cache: it gets the response built from an
    answer in memory that is not over, of the same project, provider and model, and
    whose words are not less similar to those of the request than one, that is, than
    those of the answer that was kept. *)
Theorem kept_answer_is_served s now now' (ctx1 : Ctx) resp m body calls g now2 (ctx2 : Ctx) key o prompt :
  x_semantic_cache (ctx_ext ctx1) = Some m → Http.is_success (status resp) = true → is_sse (resp_headers resp) = false →
  collect (resp_body resp) = Some body →
  (1 ≤ sk_max_entries s.1)%Z → (∀ e, e ∈ sk_entries s.1 → (ce_created_at_ms e ≤ now)%Z) →
  let s1 := run_cache s (CacheAnswer now now' ctx1 resp) in
  spared (entry_of m now resp body) s1 calls →
  let s2 := foldl run_cache s1 calls in
  looks_up g s2.1 ctx2 key o (cm_model m) prompt → tokenize prompt = tokenize (cm_normalized_prompt m) →
  vk_project_id key = cm_project_id m → vk_provider_name key = cm_provider_name m → (now2 < expiry now (cm_ttl_secs m))%Z →
  in_unit_range (oi_similarity_threshold o) = true → (Z.of_nat (size (tokenize prompt)) ≤ u64_max)%Z →
  ∃ c' ctx' e, let similarity := jaccard_similarity (tokenize prompt) (ce_tokens e) in
    semantic_cache_on_request g now2 s2.1 ctx2 = (c', ctx', Respond (hit_response ctx' e similarity)) ∧
    e ∈ sk_entries s2.1 ∧ (now2 < ce_expires_at_ms e)%Z ∧
    ce_project_id e = cm_project_id m ∧ ce_provider_name e = cm_provider_name m ∧ ce_model e = cm_model m ∧
    f_lt similarity (f64_of_Z 1) = false.
Proof.
  intros Hx Hok Hsse Hbody Hmax Hold s1 Hspared s2 Hlook Hwords Hproj Hprov Hlive Hunit Hsize.
  assert (tokenize prompt ≠ ∅) as Hne.
  { destruct Hlook as (_ & _ & _ & v & value & _ & _ & _ & _ & _ & _ & Hp). by eapply prompt_has_words. }
  assert (entry_of m now resp body ∈ sk_entries s2.1) as Hin.
  { apply spared_stays; [done|]. unfold s1. cbn [run_cache]. unfold semantic_cache_transform_response.
    rewrite Hx, Hok, Hsse, Hbody. cbn. by apply put_entry_keeps. }
  destruct (looks_up_runs _ now2 _ _ _ _ _ _ Hlook) as (b & ctx3 & ->). unfold look_up.
  destruct (find_hit_same_words now2 (vk_project_id key) (vk_provider_name key) (cm_model m) prompt
    (oi_similarity_threshold o) s2.1 (entry_of m now resp body)) as (e & x & Eh & Hx1); try done.
  destruct (find_hit _ _ _ _ _ _ _) as [c' h] eqn:Ef. cbn [snd] in Eh. subst h.
  apply find_hit_Some in Ef as (He & Hl & Hp & Hpr & Hm & -> & _). eexists _, _, e. cbv zeta.
  split_and!; [reflexivity|done|done|congruence|congruence|done|done].
Qed.

End histories.

(** ** At concrete requests *)

Module CacheDemo.

#[export] Existing Instance list_http.
#[export] Instance demo_digest : TokenDigest := λ s, "digest of " +:+ s.

(** Lists of strings, and chats of one message with the options of the cache. *)
Definition chat (extra : list (string * json)) (prompt : string) : json :=
  JObject (extra ++ [("messages", JArray [JObject [("content", JString prompt); ("role", JString "user")]]);
                     ("model", JString "m"); ("trp_semantic_cache", JObject [])]).

Definition chat_text (v : json) : string :=
  match json_get v "messages" with
  | Some (JArray [m]) => default "" (json_get m "content" ≫= json_str)
  | _ => ""
  end.

Definition after (prefix s : string) : option string :=
  if starts_with s prefix then Some (str_drop (String.length prefix) s) else None.

#[export] Instance chat_json : SerdeJson := {|
  json_from_str s :=
    match read_array s with
    | Some l => Some (JArray (JString <$> l))
    | None => or_else (chat [("max_tokens", JNumber (PosInt 5))] <$> after "ask briefly " s) (chat [] <$> after "ask " s)
    end;
  json_to_string v :=
    match strings_of_json v with
    | Some l => write_array l
    | None => quoted_key "model" +:+ ":" +:+ quoted_key "m" +:+ " " +:+ chat_text v
    end;
|}.

#[export] Instance chat_json_ok : SerdeJsonOk.
Proof. intros l. unfold json_from_str, json_to_string, chat_json. rewrite strings_of_json_strings. by rewrite read_write_array. Qed.

Definition demo_cache : SemanticCache := {|
  sk_default_ttl_secs := 60%Z; sk_default_similarity_threshold := f64_of_Z 1; sk_max_entries := 8%Z; sk_entries := [];
  sk_hits := 0%Z; sk_misses := 0%Z; sk_stores := 0%Z; sk_skips := 0%Z; sk_saved_prompt_tokens := 0%Z;
  sk_metrics := None; sk_governance := false |}.

Definition demo_db : CacheDb := {| db_tables := ∅; db_faults := [] |}.

Definition key : VirtualKeyMeta := {|
  vk_key_hash := "k1"; vk_project_id := "p"; vk_provider_name := "openai"; vk_budget_limit := None;
  vk_budget_duration := None; vk_budget_window_start := None; vk_rpm_limit := None; vk_tpm_limit := None;
  vk_tool_approval_mode := AllowAll; vk_allowed_tools := None |}.

Definition St0 : Type := FilterState (V := ()).

Definition request (body : string) : @RequestContext list_http (gateway_types St0) :=
  with_ext (λ x, x <| x_virtual_key := Some key |>) {|
    ctx_peer_addr := None; ctx_method := "POST"; ctx_uri := "/v1/chat/completions"; ctx_version := HTTP_11;
    ctx_headers := []; ctx_body := Some body; ctx_route := None; ctx_selected_upstream := None;
    ctx_auth := Some (auth_context_runtime "p" "k1");
    ctx_connection := (tt : @ConnExtensions (gateway_types St0));
    ctx_extensions := @ext_new list_http (gateway_types St0) |}.

Definition answer (headers : list (string * string)) (body : string) : @Response list_http :=
  {| status := 200%Z; resp_headers := headers; resp_body := full_body body |}.

(** A request that is not known, and its answer a second later. *)
Definition asked (body : string) (now : Z) (s : CacheState (St := CacheDb)) :=
  semantic_cache_on_request (governance_new 0) now s.1 (request body).

Definition calls_of (body : string) (headers : list (string * string)) (text : string) (s : CacheState (St := CacheDb))
    : list (CacheCall (S := St0)) :=
  [CacheRequest (governance_new 0) 1000 (request body);
   CacheAnswer 2000 2000 (asked body 1000 s).1.2 (answer headers text)].

Definition s0 : CacheState (St := CacheDb) := (demo_cache, Some demo_db).
Definition calls : list CacheCall := calls_of "ask dog bites man" [("content-type", "application/json")] "woof" s0.
Definition s1 : CacheState (St := CacheDb) := foldl run_cache s0 calls.

Definition reply (a : @Action list_http) : option (Z * option string) :=
  match a with Respond r => Some (status r, collect (resp_body r)) | _ => None end.

Lemma start_ok : cache_start s0.
Proof. split; [done|]. intros st [= <-]. done. Qed.

Lemma cached_answers_are_backed_witness :
  ∃ e, e ∈ kept calls ∧ ce_project_id e = "p" ∧ (3000 < ce_expires_at_ms e)%Z.
Proof.
  assert (reply (asked "ask dog bites man" 3000 s1).2 = Some (200%Z, Some "woof")) as Hr by (vm_compute; reflexivity).
  destruct (asked "ask dog bites man" 3000 s1) as [[c' ctx'] a] eqn:E.
  destruct a as [|r]; try discriminate Hr.
  destruct (cached_answers_are_backed calls s0 (governance_new 0) 3000 (request "ask dog bites man") ctx' c' r start_ok E)
    as [[error ->]|(k & o & model & prompt & e & (_ & Hk & _) & _ & Hin & Hlive & Hp & _)].
  - cbn in Hr. discriminate Hr.
  - exists e. assert (key = k) as <- by (cbn in Hk; congruence). split; [exact Hin|]. split; [exact Hp|exact Hlive].
Defined.

Lemma cache_stays_within_limit_witness : (Z.of_nat (length (sk_entries s1.1)) ≤ 8)%Z.
Proof. apply (cache_stays_within_limit calls s0); [vm_compute; discriminate|exact start_ok]. Defined.

(** The same words in another order, after another request has been asked. *)
Definition asked_before : CacheState (St := CacheDb) :=
  run_cache s0 (CacheRequest (governance_new 0) 1000 (request "ask dog bites man")).

Definition answered : CacheState (St := CacheDb) :=
  run_cache asked_before (CacheAnswer 2000 2000 (asked "ask dog bites man" 1000 s0).1.2
    (answer [("content-type", "application/json")] "woof")).

Definition between : list (CacheCall (S := St0)) := [CacheRequest (governance_new 0) 2500 (request "ask cat")].

Lemma kept_answer_is_served_witness :
  ∃ c' ctx' e,
    let similarity := jaccard_similarity (tokenize "user man bites dog") (ce_tokens e) in
    semantic_cache_on_request (governance_new 0) 3000 (foldl run_cache answered between).1 (request "ask man bites dog")
      = (c', ctx', Respond (hit_response ctx' e similarity)) ∧
    e ∈ sk_entries (foldl run_cache answered between).1 ∧ (3000 < ce_expires_at_ms e)%Z ∧
    ce_project_id e = "p" ∧ ce_provider_name e = "openai" ∧ ce_model e = "m" ∧
    f_lt similarity (f64_of_Z 1) = false.
Proof.
  apply (kept_answer_is_served asked_before 2000 2000
    (asked "ask dog bites man" 1000 s0).1.2 (answer [("content-type", "application/json")] "woof")
    {| cm_project_id := "p"; cm_provider_name := "openai"; cm_model := "m"; cm_normalized_prompt := "user dog bites man";
       cm_prompt_tokens := 6; cm_ttl_secs := 60 |} "woof" between (governance_new 0) 3000 (request "ask man bites dog") key
    {| oi_enabled := true; oi_ttl_secs := 60; oi_similarity_threshold := f64_of_Z 1 |}).
  - vm_compute. reflexivity.
  - reflexivity.
  - reflexivity.
  - reflexivity.
  - vm_compute. discriminate.
  - intros e He. vm_compute in He. inversion He.
  - split; [vm_compute; reflexivity|exact I].
  - split; [reflexivity|]. split; [reflexivity|]. split; [by eexists|].
    exists (chat [] "man bites dog"), (JObject (take 2 (default [] (json_object (chat [] "man bites dog"))))).
    split; [vm_compute; reflexivity|]. cbv zeta. split; [vm_compute; reflexivity|].
    split; [reflexivity|]. split; [reflexivity|]. split; [reflexivity|]. split; vm_compute; reflexivity.
  - vm_compute. reflexivity.
  - reflexivity.
  - reflexivity.
  - vm_compute. reflexivity.
  - vm_compute. reflexivity.
  - vm_compute. discriminate.
Defined.

(** A prompt is its set of words: another order is the same prompt, at the highest
    threshold. *)
Theorem word_order_is_ignored :
  reply (asked "ask man bites dog" 3000 s1).2 = Some (200%Z, Some "woof").
Proof. vm_compute. reflexivity. Qed.

(** Letters beyond ASCII are blanks, so texts in other scripts are all the same
    prompt: that of the role alone. *)
Definition in_greek (a b : ascii) : string := "ask " +:+ String "206" (String a (String "206" (String b ""))).

Theorem other_scripts_collide :
  let s := foldl run_cache s0 (calls_of (in_greek "177" "178") [] "alpha beta" s0) in
  reply (asked (in_greek "179" "180") 3000 s).2 = Some (200%Z, Some "alpha beta").
Proof. vm_compute. reflexivity. Qed.

(** The parameters of a request are not part of what it is known by. *)
Theorem parameters_are_ignored :
  let s := foldl run_cache s0 (calls_of "ask briefly dog bites man" [] "wo" s0) in
  json_from_str "ask briefly dog bites man" = Some (chat [("max_tokens", JNumber (PosInt 5))] "dog bites man") ∧
  json_from_str "ask dog bites man" = Some (chat [] "dog bites man") ∧
  reply (asked "ask dog bites man" 3000 s).2 = Some (200%Z, Some "wo").
Proof. vm_compute. by split. Qed.

(** Of the headers of an answer only its type is kept: a compressed body is served
    without saying so. *)
Theorem encoding_is_forgotten :
  let s := foldl run_cache s0 (calls_of "ask dog bites man" [("content-encoding", "gzip")] "(compressed)" s0) in
  match (asked "ask dog bites man" 3000 s).2 with
  | Respond r => collect (resp_body r) = Some "(compressed)" ∧ get_str "content-encoding" (resp_headers r) = None
  | _ => False
  end.
Proof. vm_compute. by split. Qed.

(** An expiry beyond the signed range is negative in the store: the entry is written
    and pruned at once, and only memory has it. *)
Theorem endless_entries_are_not_stored :
  let c := demo_cache <| sk_default_ttl_secs := u64_max |> in
  let s := foldl run_cache (c, Some demo_db) (calls_of "ask dog bites man" [] "woof" (c, Some demo_db)) in
  length (sk_entries s.1) = 1 ∧ (rows ∘ db_tables <$> s.2) = Some [].
Proof. vm_compute. by split. Qed.

(** The content filter redacts the body and not the parsed body; the cache behind it
    writes the parsed body back, and what was redacted is sent. *)
#[export] Existing Instance word_engine.
#[export] Instance silent : VerifierClient () := {| verifier_call v _ _ := (v, None) |}.

Definition filter : ContentFilter := {|
  cf_action := FilterRedactAndForward;
  cf_input_rules := [{| fr_pattern := Some "token"; fr_description := None; fr_detector_class := None; fr_action := None;
    fr_verification := None; fr_replacement := None; fr_path_patterns := []; fr_allowlist_patterns := [] |}];
  cf_output_rules := []; cf_governance := false; cf_remote_verifier_config := remote_verifier_default |}.

Theorem cache_undoes_redaction :
  let ctx := (cached_request_json (request "ask my token")).1 in
  let filtered := filter_on_request filter {| ft_governance := governance_new 0; ft_verifier := () |} ctx in
  let '(_, out, a) := semantic_cache_on_request (governance_new 0) 1000 demo_cache filtered.1.2 in
  filtered.2 = Continue ∧ a = Continue ∧
  option_map (λ b, contains b "my token") (ctx_body filtered.1.2) = Some false ∧
  option_map (λ b, contains b "my token") (ctx_body out) = Some true.
Proof. vm_compute. by split. Qed.

End CacheDemo.
