(* ===== verification/PromptCache.v ===== *)
(** * Prompt caches of providers

    Model of [plugin-llm-gateway/src/prompt_cache.rs]: the controls a request puts on
    the prompt cache of its provider, what the provider reports back, and the
    memory of which provider has a prompt warm, with its copy in the store.  A
    method that reads the clock is given its readings. *)

From S2P Require Import Prelude RecordSet StateResult RustStr Utf8 F64 Toml Json Sql ConfigSurfaces Auth Http Plugin ProxyProtocol GatewayContext StreamUsage CostTracker GatewayLimits Routing PromptRegistry SemanticCache.

Local Open Scope string_scope.
Local Open Scope list_scope.
Local Open Scope rust_scope.

Definition PROMPT_CACHE_WARM_MAX_BONUS : f64 := f64_of_Z 2000.
Definition PROMPT_CACHE_WARM_MIN_FRESHNESS : f64 := f64_literal "0.15".
Definition PROMPT_CACHE_NEGATIVE_MAX_PENALTY : f64 := f64_of_Z 2500.
Definition PROMPT_CACHE_NEGATIVE_TTL_SECS : Z := 90.
Definition DEFAULT_ROUTING_FLUSH_INTERVAL_MS : Z := 2000.
Definition DEFAULT_ROUTING_PRUNE_INTERVAL_SECS : Z := 60.

(** ** Data *)

Inductive PromptCacheScope := ScopeAuto | ScopeSystem | ScopeTools | ScopeMessages.

Definition scope_as_str (s : PromptCacheScope) : string :=
  match s with ScopeAuto => "auto" | ScopeSystem => "system" | ScopeTools => "tools" | ScopeMessages => "messages" end.

Definition scope_parse (value : string) : option PromptCacheScope :=
  if String.eqb value "auto" then Some ScopeAuto
  else if String.eqb value "system" then Some ScopeSystem
  else if String.eqb value "tools" then Some ScopeTools
  else if String.eqb value "messages" then Some ScopeMessages
  else None.

Record PromptCacheOptIn := {
  po_enabled : bool;
  po_ttl : option string;
  po_scope : PromptCacheScope;
  po_key : option string;
}.

Inductive PromptCacheRoutingRequirement := AnyPromptCache | OpenAiControls | AnthropicControls.

Record PromptCacheRoutingHint := {
  ph_enabled : bool;
  ph_requirement : PromptCacheRoutingRequirement;
}.

Definition required_capability (h : PromptCacheRoutingHint) : ProviderExtraCapability :=
  match ph_requirement h with
  | AnyPromptCache => PromptCacheRequestControls
  | OpenAiControls => PromptCacheOpenAi
  | AnthropicControls => PromptCacheAnthropic
  end.

Record PromptCacheRoutingPreference := {
  pr_hint : PromptCacheRoutingHint;
  pr_key : option string;
}.

Inductive PromptCacheRouteSignalKind := SignalWarm | SignalNegative.

Definition signal_as_str (k : PromptCacheRouteSignalKind) : string :=
  match k with SignalWarm => "warm" | SignalNegative => "negative" end.

Definition signal_parse (value : string) : option PromptCacheRouteSignalKind :=
  if String.eqb value "warm" then Some SignalWarm
  else if String.eqb value "negative" then Some SignalNegative
  else None.

Record PromptCacheRouteRecord := {
  rr_route_id : string;
  rr_project_id : string;
  rr_cache_key : string;
  rr_provider_name : string;
  rr_signal_kind : string;
  rr_signal_strength : f64;
  rr_observed_at_ms : Z;
  rr_expires_at_ms : Z;
}.

Inductive PromptCacheRouteMutation :=
| UpsertRoute (record : PromptCacheRouteRecord)
| DeleteRoute (route_id : string).

Definition mutation_route_id (m : PromptCacheRouteMutation) : string :=
  match m with UpsertRoute record => rr_route_id record | DeleteRoute route_id => route_id end.

Record PromptCacheRouteSignal := {
  sg_provider_name : string;
  sg_kind : PromptCacheRouteSignalKind;
  sg_signal_strength : f64;
  sg_observed_at_ms : Z;
  sg_expires_at_ms : Z;
}.

Record PromptCacheRoutingState := {
  ps_warm : option PromptCacheRouteSignal;
  ps_negatives : gmap string PromptCacheRouteSignal;
}.

#[export] Instance PromptCacheRoutingState_set : Settable PromptCacheRoutingState := λ s,
  {| ps_warm := ps_warm s; ps_negatives := ps_negatives s |}.

Definition routing_state_new : PromptCacheRoutingState := {| ps_warm := None; ps_negatives := ∅ |}.

(** ** The routing memory *)

Notation PromptCacheRoutingMemory := (gmap string PromptCacheRoutingState).

Definition composite_key (project_id cache_key : string) : string := project_id +:+ String "031" cache_key.

Definition state_is_empty (s : PromptCacheRoutingState) : bool :=
  match ps_warm s with None => bool_decide (ps_negatives s = ∅) | Some _ => false end.

Definition signal_live (now : Z) (g : PromptCacheRouteSignal) : bool := (now <? sg_expires_at_ms g)%Z.

Definition cleaned (now : Z) (s : PromptCacheRoutingState) : PromptCacheRoutingState := {|
  ps_warm := ps_warm s ≫= (λ g, if signal_live now g then Some g else None);
  ps_negatives := filter (λ e, signal_live now e.2 = true) (ps_negatives s) |}.

Definition cleanup_state (storage_key : string) (now : Z) (m : PromptCacheRoutingMemory)
    : PromptCacheRoutingMemory * option PromptCacheRoutingState :=
  match m !! storage_key with
  | None => (m, None)
  | Some s =>
      let s := cleaned now s in
      if state_is_empty s then (delete storage_key m, None) else (<[storage_key := s]> m, Some s)
  end.

Definition remember_until (now : Z) (project_id cache_key provider_name : string) (signal_strength : f64)
    (observed_at_ms expires_at_ms : Z) (m : PromptCacheRoutingMemory) : PromptCacheRoutingMemory :=
  let storage_key := composite_key project_id cache_key in
  let '(m, state) := cleanup_state storage_key now m in
  let state := default routing_state_new state in
  <[storage_key := {|
      ps_warm := Some {| sg_provider_name := provider_name; sg_kind := SignalWarm; sg_signal_strength := signal_strength;
                         sg_observed_at_ms := observed_at_ms; sg_expires_at_ms := expires_at_ms |};
      ps_negatives := delete provider_name (ps_negatives state) |}]> m.

Definition remember_negative_until (now : Z) (project_id cache_key provider_name : string) (signal_strength : f64)
    (observed_at_ms expires_at_ms : Z) (m : PromptCacheRoutingMemory) : PromptCacheRoutingMemory :=
  let storage_key := composite_key project_id cache_key in
  let '(m, state) := cleanup_state storage_key now m in
  let state := default routing_state_new state in
  <[storage_key := state <| ps_negatives :=
      <[provider_name := {| sg_provider_name := provider_name; sg_kind := SignalNegative;
          sg_signal_strength := signal_strength; sg_observed_at_ms := observed_at_ms; sg_expires_at_ms := expires_at_ms |}]>
        (ps_negatives state) |>]> m.

Definition forget_warm (project_id cache_key provider_name : string) (m : PromptCacheRoutingMemory)
    : PromptCacheRoutingMemory * bool :=
  let storage_key := composite_key project_id cache_key in
  match m !! storage_key with
  | None => (m, false)
  | Some s =>
      let removed := from_option (λ g, String.eqb (sg_provider_name g) provider_name) false (ps_warm s) in
      let s := if removed then s <| ps_warm := None |> else s in
      (if state_is_empty s then delete storage_key m else <[storage_key := s]> m, removed)
  end.

Definition decayed_signal_value (now : Z) (g : PromptCacheRouteSignal) (max_value : f64) : f64 :=
  let strength := clamp_unit (sg_signal_strength g) in
  if f_le strength f_zero then f_zero
  else
    let remaining := saturating_sub_u64 (sg_expires_at_ms g) now in
    if (remaining =? 0)%Z then f_zero
    else
      let total := saturating_sub_u64 (sg_expires_at_ms g) (sg_observed_at_ms g) in
      let freshness := if (total =? 0)%Z then f64_of_Z 1 else clamp_unit (f64_div (f64_of_Z remaining) (f64_of_Z total)) in
      let freshness := match sg_kind g with
        | SignalWarm => f64_max freshness PROMPT_CACHE_WARM_MIN_FRESHNESS
        | SignalNegative => freshness
        end in
      f64_mul (f64_mul max_value strength) freshness.

(** The clock is read for the cleaning, once more, and for every signal. *)
Definition memory_affinity (clk : nat → Z) (project_id cache_key : string) (available_providers : list string)
    (m : PromptCacheRoutingMemory) : PromptCacheRoutingMemory * PromptCacheRoutingAffinity :=
  match cleanup_state (composite_key project_id cache_key) (clk 0) m with
  | (m, None) => (m, affinity_default)
  | (m, Some state) =>
      let a := match ps_warm state with
        | Some warm =>
            if bool_decide (sg_provider_name warm ∈ available_providers)
            then add_positive_bonus (sg_provider_name warm)
                   (decayed_signal_value (clk 2) warm PROMPT_CACHE_WARM_MAX_BONUS) affinity_default
            else affinity_default
        | None => affinity_default
        end in
      (m, foldl (λ a e,
            match ps_negatives state !! e.2 with
            | Some negative =>
                if signal_live (clk 1) negative
                then add_negative_penalty e.2
                       (decayed_signal_value (clk (3 + e.1)) negative PROMPT_CACHE_NEGATIVE_MAX_PENALTY) a
                else a
            | None => a
            end) a (enumerate available_providers))
  end.

(** The keys are collected first, and each is cleaned. *)
Definition entry_count (count : PromptCacheRoutingState → Z) (now : Z) (m : PromptCacheRoutingMemory)
    : PromptCacheRoutingMemory * Z :=
  foldl (λ p key,
    let '(m, state) := cleanup_state key now p.1 in
    (m, from_option (λ s, Z.min u64_max (p.2 + count s)) p.2 state)) (m, 0%Z) (map_to_list m).*1.

Definition warmed_entry_count : Z → PromptCacheRoutingMemory → PromptCacheRoutingMemory * Z :=
  entry_count (λ s, match ps_warm s with Some _ => 1%Z | None => 0%Z end).

Definition negative_entry_count : Z → PromptCacheRoutingMemory → PromptCacheRoutingMemory * Z :=
  entry_count (λ s, Z.of_nat (size (ps_negatives s))).

(** ** The store *)

Class RouteStore (St : Type) := {
  get_prompt_cache_routes : St → Z → Z → St * result StoreError (list PromptCacheRouteRecord);
  upsert_prompt_cache_route : St → PromptCacheRouteRecord → St * result StoreError ();
  delete_prompt_cache_route : St → string → St * result StoreError bool;
  prune_prompt_cache_routes : St → Z → St * result StoreError ();
}.

Definition RouteDb : Type := SqlDb (gmap string PromptCacheRouteRecord).

Definition route_live (now : Z) (r : PromptCacheRouteRecord) : bool := (as_i64 now <? as_i64 (rr_expires_at_ms r))%Z.

Definition sqlite_get_prompt_cache_routes (s : RouteDb) (now limit : Z) : RouteDb * result StoreError (list PromptCacheRouteRecord) :=
  execute s (λ t, (t, take (Z.to_nat limit)
    (sort_by (λ x y, as_i64 (rr_expires_at_ms y) <=? as_i64 (rr_expires_at_ms x))%Z
       (filter (λ r, route_live now r = true) (rows t))))).

Definition sqlite_upsert_prompt_cache_route (s : RouteDb) (r : PromptCacheRouteRecord) : RouteDb * result StoreError () :=
  execute s (λ t, (<[rr_route_id r := r]> t, ())).

Definition sqlite_delete_prompt_cache_route (s : RouteDb) (route_id : string) : RouteDb * result StoreError bool :=
  execute s (λ t, (delete route_id t, affected route_id t)).

Definition sqlite_prune_prompt_cache_routes (s : RouteDb) (now : Z) : RouteDb * result StoreError () :=
  execute s (λ t, (filter (λ e, route_live now e.2 = true) t, ())).

#[export] Instance sqlite_route_store : RouteStore RouteDb := {|
  get_prompt_cache_routes := sqlite_get_prompt_cache_routes;
  upsert_prompt_cache_route := sqlite_upsert_prompt_cache_route;
  delete_prompt_cache_route := sqlite_delete_prompt_cache_route;
  prune_prompt_cache_routes := sqlite_prune_prompt_cache_routes;
|}.

(** The updates that wait for the store; the store itself is kept beside. *)
Record PromptCachePersistence := {
  pp_pending : gmap string PromptCacheRouteMutation;
  pp_flush_interval_ms : Z;
  pp_prune_interval_secs : Z;
  pp_last_flush_unix_ms : Z;
}.

#[export] Instance PromptCachePersistence_set : Settable PromptCachePersistence := λ p,
  {| pp_pending := pp_pending p; pp_flush_interval_ms := pp_flush_interval_ms p;
     pp_prune_interval_secs := pp_prune_interval_secs p; pp_last_flush_unix_ms := pp_last_flush_unix_ms p |}.

Definition persistence_new (flush_interval_ms prune_interval_secs : Z) : PromptCachePersistence :=
  {| pp_pending := ∅; pp_flush_interval_ms := flush_interval_ms; pp_prune_interval_secs := prune_interval_secs;
     pp_last_flush_unix_ms := 0%Z |}.

Definition enqueue (m : PromptCacheRouteMutation) (p : PromptCachePersistence) : PromptCachePersistence :=
  p <| pp_pending := <[mutation_route_id m := m]> (pp_pending p) |>.

Definition pending_update_count (p : PromptCachePersistence) : Z := Z.of_nat (size (pp_pending p)).

Definition last_flush_unix_ms (p : PromptCachePersistence) : option Z :=
  if (pp_last_flush_unix_ms p =? 0)%Z then None else Some (pp_last_flush_unix_ms p).

Section persistence.
Context {St : Type} `{RouteStore St}.

Definition apply_mutation (m : PromptCacheRouteMutation) : ST St StoreError () := λ st,
  match m with
  | UpsertRoute record => upsert_prompt_cache_route st record
  | DeleteRoute route_id => let '(st, r) := delete_prompt_cache_route st route_id in (st, result_map (λ _, ()) r)
  end.

(** Taking the updates out, in the order the map gave its keys. *)
Definition drain (keys : list string) (p : PromptCachePersistence) : PromptCachePersistence * list PromptCacheRouteMutation :=
  (p <| pp_pending := foldl (λ m k, delete k m) (pp_pending p) keys |>, filter_map (λ k, pp_pending p !! k) keys).

(** [others i] is what other tasks put in while the [i]-th statement is awaited.
    When the store refuses an update, it and those behind it are put in again. *)
Fixpoint apply_drained (others : nat → list PromptCacheRouteMutation) (index : nat) (drained : list PromptCacheRouteMutation)
    (p : PromptCachePersistence) (st : St) : PromptCachePersistence * St * result StoreError Z :=
  match drained with
  | [] => (p, st, Ok 0%Z)
  | m :: drained' =>
      let '(st, r) := apply_mutation m st in
      let p := foldl (λ p m, enqueue m p) p (others index) in
      match r with
      | Err e => (foldl (λ p m, enqueue m p) p drained, st, Err e)
      | Ok _ =>
          let '(p, st, r) := apply_drained others (S index) drained' p st in
          (p, st, result_map (λ n, Z.min u64_max (n + 1)) r)
      end
  end.

Definition flush_pending (now : Z) (keys : list string) (others : nat → list PromptCacheRouteMutation)
    (p : PromptCachePersistence) (st : St) : PromptCachePersistence * St * result StoreError Z :=
  match drain keys p with
  | (p, []) => (p, st, Ok 0%Z)
  | (p, drained) =>
      let '(p, st, r) := apply_drained others 0 drained p st in
      match r with
      | Err e => (p, st, Err e)
      | Ok applied => (p <| pp_last_flush_unix_ms := now |>, st, Ok applied)
      end
  end.

(** One round of the task behind its sleep: flush, and prune when it is time. *)
Definition persistence_round (now : Z) (keys : list string) (others : nat → list PromptCacheRouteMutation) (last_prune_ms : Z)
    (p : PromptCachePersistence) (st : St) : PromptCachePersistence * St * Z :=
  let '(p, st, _) := flush_pending now keys others p st in
  if (Z.min u64_max (pp_prune_interval_secs p * 1000) <=? saturating_sub_u64 now last_prune_ms)%Z
  then match prune_prompt_cache_routes st now with
       | (st, Ok _) => (p, st, now)
       | (st, Err _) => (p, st, last_prune_ms)
       end
  else (p, st, last_prune_ms).

End persistence.

(** ** Options of a request *)

Definition parse_opt_in_value (opt_in : json) (anthropic_default_scope : PromptCacheScope) : result string PromptCacheOptIn :=
  match json_object opt_in with
  | None => Err "trp_prompt_cache must be an object"
  | Some _ =>
      let? scope := match json_get opt_in "scope" ≫= json_str with
        | Some value => ok_or (scope_parse value) "trp_prompt_cache.scope must be one of: auto, system, tools, messages"
        | None => Ok anthropic_default_scope
        end in
      Ok {| po_enabled := default true (json_get opt_in "enabled" ≫= json_bool);
            po_ttl := json_get opt_in "ttl" ≫= json_str; po_scope := scope;
            po_key := trimmed (json_get opt_in "key" ≫= json_str) |}
  end.

Definition extract_prompt_opt_in (request_json : json) (anthropic_default_scope : PromptCacheScope)
    : json * result string (option PromptCacheOptIn) :=
  match request_json with
  | JObject fields =>
      match fields_remove "trp_prompt_cache" fields with
      | (_, None) => (request_json, Ok None)
      | (fields, Some value) => (JObject fields, result_map Some (parse_opt_in_value value anthropic_default_scope))
      end
  | _ => (request_json, Err "prompt cache request body must be a JSON object")
  end.

Definition routing_requirement_for_opt_in (o : PromptCacheOptIn) : PromptCacheRoutingRequirement :=
  match po_key o, po_scope o with
  | Some _, _ => OpenAiControls
  | None, ScopeAuto =>
      match po_ttl o with
      | Some ttl =>
          if String.eqb ttl "in_memory" || String.eqb ttl "24h" then OpenAiControls
          else if String.eqb ttl "5m" || String.eqb ttl "1h" then AnthropicControls
          else AnyPromptCache
      | None => AnyPromptCache
      end
  | None, _ => AnthropicControls
  end.

Definition prompt_cache_routing_ttl_secs (protocol : option PromptCacheProtocol) (o : PromptCacheOptIn) : Z :=
  match protocol with
  | Some PcOpenAi => if bool_decide (po_ttl o = Some "24h") then 24 * 60 * 60 else 5 * 60
  | Some PcAnthropic => if bool_decide (po_ttl o = Some "1h") then 60 * 60 else 5 * 60
  | None => 5 * 60
  end.

Definition prompt_cache_routing_preference_from_json (request_json : json) (anthropic_default_scope : PromptCacheScope)
    : result string (option PromptCacheRoutingPreference) :=
  match json_get request_json "trp_prompt_cache" with
  | None => Ok None
  | Some value =>
      let? o := parse_opt_in_value value anthropic_default_scope in
      Ok (Some {| pr_hint := {| ph_enabled := po_enabled o; ph_requirement := routing_requirement_for_opt_in o |};
                  pr_key := po_key o |})
  end.

Definition prompt_cache_routing_preference_from_body `{SerdeJson} (body : option string)
    (anthropic_default_scope : PromptCacheScope) : result string (option PromptCacheRoutingPreference) :=
  match body ≫= json_from_str with
  | Some request_json => prompt_cache_routing_preference_from_json request_json anthropic_default_scope
  | None => Ok None
  end.

(** ** Providers *)

Definition infer_prompt_cache_protocol (p : ProviderKeyConfig) : option PromptCacheProtocol :=
  let protocol := prompt_cache_protocol (prompt_cache_semantics p) in
  if String.eqb protocol "anthropic" then Some PcAnthropic
  else if String.eqb protocol "openai" then Some PcOpenAi
  else None.

Definition provider_supports_prompt_cache (p : ProviderKeyConfig) : bool := supports_prompt_cache (prompt_cache_semantics p).

Definition provider_request_controls (p : ProviderKeyConfig) : bool := request_controls_supported (prompt_cache_semantics p).

Definition provider_matches_prompt_cache_hint (p : ProviderKeyConfig) (h : PromptCacheRoutingHint) : bool :=
  if negb (ph_enabled h) then true
  else
    match ph_requirement h with
    | AnyPromptCache => provider_supports_prompt_cache p
    | OpenAiControls =>
        match infer_prompt_cache_protocol p with Some PcOpenAi => provider_request_controls p | _ => false end
    | AnthropicControls => match infer_prompt_cache_protocol p with Some PcAnthropic => true | _ => false end
    end.

(** ** Controls of a request *)

Definition apply_openai_request_controls (request_json : json) (o : PromptCacheOptIn) (controls_supported : bool)
    : result string json :=
  match request_json with
  | JObject fields =>
      match po_scope o with
      | ScopeAuto =>
          if bool_decide (is_Some (json_get request_json "prompt_cache_key"))
             || bool_decide (is_Some (json_get request_json "prompt_cache_retention"))
          then Err "request already contains prompt_cache_key or prompt_cache_retention; use one interface"
          else if (bool_decide (is_Some (po_key o)) || bool_decide (is_Some (po_ttl o))) && negb controls_supported
          then Err "provider supports prompt cache reporting but not OpenAI prompt cache request controls"
          else
            let fields := from_option (λ key, fields_insert "prompt_cache_key" (JString key) fields) fields (po_key o) in
            match po_ttl o with
            | None => Ok (JObject fields)
            | Some ttl =>
                if String.eqb ttl "in_memory" then Ok (JObject fields)
                else if String.eqb ttl "24h" then Ok (JObject (fields_insert "prompt_cache_retention" (JString "24h") fields))
                else Err ("OpenAI prompt cache ttl must be one of: in_memory, 24h (got '" +:+ ttl +:+ "')")
            end
      | _ => Err "OpenAI prompt cache only supports scope=auto"
      end
  | _ => Err "OpenAI prompt cache request must be a JSON object"
  end.

Fixpoint has_existing_anthropic_cache_control (v : json) : bool :=
  match v with
  | JObject fields =>
      (fix any_field (l : list (string * json)) : bool :=
         match l with
         | [] => false
         | (k, x) :: l' => String.eqb k "cache_control" || has_existing_anthropic_cache_control x || any_field l'
         end) fields
  | JArray items => existsb has_existing_anthropic_cache_control items
  | _ => false
  end.

Definition marked_text (text : string) (cache_control : json) : json :=
  json_literal [("type", JString "text"); ("text", JString text); ("cache_control", cache_control)].

Definition insert_cache_control_into_block (block cache_control : json) : result string json :=
  match block with
  | JString text => Ok (marked_text text cache_control)
  | JObject fields =>
      if bool_decide (is_Some (json_get block "cache_control")) then Err "Anthropic content block already contains cache_control"
      else Ok (JObject (fields_insert "cache_control" cache_control fields))
  | _ => Err "Anthropic content block must be a string or object"
  end.

(** [if let Some(last) = l.last_mut()], with the error when there is none. *)
Fixpoint update_last {A} (f : A → result string A) (empty : string) (l : list A) : result string (list A) :=
  match l with
  | [] => Err empty
  | [x] => let? x := f x in Ok [x]
  | x :: l' => let? l' := update_last f empty l' in Ok (x :: l')
  end.

(** A text, or the last of its blocks. *)
Definition mark_content (cache_control : json) (empty wrong : string) (content : json) : result string json :=
  match content with
  | JString text => Ok (JArray [marked_text text cache_control])
  | JArray blocks =>
      result_map JArray (update_last (λ b, insert_cache_control_into_block b cache_control) empty blocks)
  | _ => Err wrong
  end.

Definition insert_anthropic_system_cache_control (request_json cache_control : json) : result string json :=
  match request_json with
  | JObject _ =>
      match json_get request_json "system" with
      | None => Err "Anthropic request is missing system content for prompt cache scope=system"
      | Some system =>
          result_map (json_set request_json "system")
            (mark_content cache_control "Anthropic system content is empty"
               "Anthropic system content must be a string or array" system)
      end
  | _ => Err "Anthropic prompt cache request must be a JSON object"
  end.

Definition mark_tool (cache_control tool : json) : result string json :=
  match tool with
  | JObject fields =>
      if bool_decide (is_Some (json_get tool "cache_control")) then Err "Anthropic tool definition already contains cache_control"
      else Ok (JObject (fields_insert "cache_control" cache_control fields))
  | _ => Err "Anthropic tool definition must be an object"
  end.

Definition insert_anthropic_tool_cache_control (request_json cache_control : json) : result string json :=
  match request_json with
  | JObject _ =>
      match json_get request_json "tools" ≫= json_array with
      | None => Err "Anthropic request is missing tools for prompt cache scope=tools"
      | Some tools =>
          result_map (λ tools, json_set request_json "tools" (JArray tools))
            (update_last (mark_tool cache_control) "Anthropic request has no tool definitions to cache" tools)
      end
  | _ => Err "Anthropic prompt cache request must be a JSON object"
  end.

Definition mark_message (cache_control message : json) : result string json :=
  match message with
  | JObject _ =>
      match json_get message "content" with
      | None => Err "Anthropic message is missing content"
      | Some content =>
          result_map (json_set message "content")
            (mark_content cache_control "Anthropic message content is empty"
               "Anthropic message content must be a string or array" content)
      end
  | _ => Err "Anthropic message must be an object"
  end.

Definition insert_anthropic_message_cache_control (request_json cache_control : json) : result string json :=
  match request_json with
  | JObject _ =>
      match json_get request_json "messages" ≫= json_array with
      | None => Err "Anthropic request is missing messages"
      | Some messages =>
          result_map (λ messages, json_set request_json "messages" (JArray messages))
            (update_last (mark_message cache_control) "Anthropic request has no messages to cache" messages)
      end
  | _ => Err "Anthropic prompt cache request must be a JSON object"
  end.

Definition resolve_anthropic_scope (request_json : json) (requested : PromptCacheScope) : PromptCacheScope :=
  match requested with
  | ScopeAuto =>
      match json_get request_json "system" with
      | Some _ => ScopeSystem
      | None =>
          match json_get request_json "tools" ≫= json_array with
          | Some (_ :: _) => ScopeTools
          | _ => ScopeMessages
          end
      end
  | _ => requested
  end.

Definition cache_control_for (ttl : option string) : result string json :=
  match ttl with
  | None => Ok (json_literal [("type", JString "ephemeral")])
  | Some ttl =>
      if String.eqb ttl "5m" then Ok (json_literal [("type", JString "ephemeral")])
      else if String.eqb ttl "1h" then Ok (json_literal [("type", JString "ephemeral"); ("ttl", JString "1h")])
      else Err ("Anthropic prompt cache ttl must be one of: 5m, 1h (got '" +:+ ttl +:+ "')")
  end.

Definition apply_anthropic_request_controls (request_json : json) (o : PromptCacheOptIn) : result string json :=
  match po_key o with
  | Some _ => Err "Anthropic prompt cache does not support a gateway cache key"
  | None =>
      if has_existing_anthropic_cache_control request_json
      then Err "request already contains provider-native cache_control; use one interface"
      else
        let? cache_control := cache_control_for (po_ttl o) in
        match resolve_anthropic_scope request_json (po_scope o) with
        | ScopeSystem => insert_anthropic_system_cache_control request_json cache_control
        | ScopeTools => insert_anthropic_tool_cache_control request_json cache_control
        | ScopeMessages | ScopeAuto => insert_anthropic_message_cache_control request_json cache_control
        end
  end.

(** ** What a provider reports *)

Definition prompt_cache_outcome (read_tokens write_tokens : Z) : string :=
  match (0 <? read_tokens)%Z, (0 <? write_tokens)%Z with
  | true, true => "hit_write"
  | true, false => "hit"
  | false, true => "write"
  | false, false => "miss"
  end.

Definition protocol_name (meta : PromptCacheRequestMeta) : string := from_option prompt_cache_str "none" (pq_protocol meta).

Definition extract_prompt_cache_usage_from_tail (meta : PromptCacheRequestMeta) (tail : list Z) : option PromptCacheUsage :=
  text ← from_utf8 tail;
  after_usage ← from_last (quoted_key "usage") text;
  usage_obj ← from_char "{" after_usage;
  usage_str ← upto_char "}" usage_obj;
  let field name := default 0%Z (extract_int_field usage_str name) in
  let '(read_tokens, write_tokens) := match pq_protocol meta with
    | Some PcOpenAi => (field "cached_tokens", field "cache_write_tokens")
    | Some PcAnthropic => (field "cache_read_input_tokens", field "cache_creation_input_tokens")
    | None => (0%Z, 0%Z)
    end in
  if (read_tokens =? 0)%Z && (write_tokens =? 0)%Z && negb (pq_opt_in_requested meta) then None
  else Some {| pu_provider_name := pq_provider_name meta; pu_protocol := protocol_name meta; pu_read_tokens := read_tokens;
               pu_write_tokens := write_tokens; pu_outcome := prompt_cache_outcome read_tokens write_tokens |}.

(** A request that asked for the cache and got no report counts as a miss. *)
Definition usage_or_miss (meta : PromptCacheRequestMeta) (usage : option PromptCacheUsage) : option PromptCacheUsage :=
  match usage with
  | Some _ => usage
  | None =>
      if pq_opt_in_requested meta
      then Some {| pu_provider_name := pq_provider_name meta; pu_protocol := protocol_name meta; pu_read_tokens := 0%Z;
                   pu_write_tokens := 0%Z; pu_outcome := "miss" |}
      else None
  end.

(** *** Streams *)

Definition PROMPT_TAIL_CAPACITY : nat := 4096.

Definition prompt_append_to_tail (tail_buf data : list Z) : list Z :=
  let t := tail_buf ++ data in drop (length t - PROMPT_TAIL_CAPACITY) t.

(** Polling the body to its end or to an error, what it passes on and what it
    sends; nothing is sent for a body that is dropped before. *)
Fixpoint prompt_poll_frames (meta : PromptCacheRequestMeta) (tail_buf : list Z) (inner : Body)
    : Body * option PromptCacheUsage :=
  match inner with
  | [] => ([], extract_prompt_cache_usage_from_tail meta tail_buf)
  | Data data :: rest =>
      let '(out, usage) := prompt_poll_frames meta (prompt_append_to_tail tail_buf (bytes_of data)) rest in
      (Data data :: out, usage)
  | Trailers :: rest => let '(out, usage) := prompt_poll_frames meta tail_buf rest in (Trailers :: out, usage)
  | ReadError :: rest => (ReadError :: rest, extract_prompt_cache_usage_from_tail meta tail_buf)
  end.

(** ** The plugin *)

Record PromptCache := {
  pm_providers : gmap string ProviderKeyConfig;
  pm_anthropic_default_scope : PromptCacheScope;
  pm_metrics : option (list MetricEvent);
  pm_routing_memory : PromptCacheRoutingMemory;
  pm_persist_routing_hints : bool;
  pm_routing_flush_interval_ms : Z;
  pm_routing_prune_interval_secs : Z;
  pm_persistence : option PromptCachePersistence;
}.

#[export] Instance PromptCache_set : Settable PromptCache := λ c,
  {| pm_providers := pm_providers c; pm_anthropic_default_scope := pm_anthropic_default_scope c; pm_metrics := pm_metrics c;
     pm_routing_memory := pm_routing_memory c; pm_persist_routing_hints := pm_persist_routing_hints c;
     pm_routing_flush_interval_ms := pm_routing_flush_interval_ms c;
     pm_routing_prune_interval_secs := pm_routing_prune_interval_secs c; pm_persistence := pm_persistence c |}.

Definition provider_map (providers : list ProviderKeyConfig) : gmap string ProviderKeyConfig :=
  foldl (λ m p, let p := refresh_derived_semantics p in <[pk_name p := p]> m) ∅ providers.

Definition parse_positive_u64 `{Toml} (config : tvalue) (field : string) (fallback : Z) : result string Z :=
  match toml_get config field with
  | None => Ok fallback
  | Some value =>
      match as_integer value with
      | Some n =>
          if (n <? 0)%Z then Err ("prompt_cache." +:+ field +:+ " must be a positive integer")
          else if (n =? 0)%Z then Err ("prompt_cache." +:+ field +:+ " must be greater than 0")
          else Ok n
      | None => Err ("prompt_cache." +:+ field +:+ " must be a positive integer")
      end
  end.

Definition prompt_cache_new `{Toml} (config : tvalue) (providers : list ProviderKeyConfig) : result string PromptCache :=
  let? scope := match toml_get config "anthropic_default_scope" ≫= as_str with
    | Some value => ok_or (scope_parse value)
        "prompt_cache.anthropic_default_scope must be one of: auto, system, tools, messages"
    | None => Ok ScopeAuto
    end in
  let? flush := parse_positive_u64 config "routing_flush_interval_ms" DEFAULT_ROUTING_FLUSH_INTERVAL_MS in
  let? prune := parse_positive_u64 config "routing_prune_interval_secs" DEFAULT_ROUTING_PRUNE_INTERVAL_SECS in
  Ok {| pm_providers := provider_map providers; pm_anthropic_default_scope := scope; pm_metrics := None;
        pm_routing_memory := ∅;
        pm_persist_routing_hints := default true (toml_get config "persist_routing_hints" ≫= as_bool);
        pm_routing_flush_interval_ms := flush; pm_routing_prune_interval_secs := prune; pm_persistence := None |}.

Definition prompt_cache_with_metrics (c : PromptCache) : PromptCache := c <| pm_metrics := Some [] |>.

Definition prompt_cache_with_store (c : PromptCache) : PromptCache :=
  if pm_persist_routing_hints c
  then c <| pm_persistence := Some (persistence_new (pm_routing_flush_interval_ms c) (pm_routing_prune_interval_secs c)) |>
  else c.

Definition set_provider_configs (providers : list ProviderKeyConfig) (c : PromptCache) : PromptCache :=
  c <| pm_providers := provider_map providers |>.

(** *** The status endpoint *)

Record PromptCacheProviderSnapshot := {
  pv_name : string;
  pv_family : string;
  pv_stability : string;
  pv_surfaces : ProviderSurfaceCatalog;
  pv_semantics : ProviderRuntimeSemantics;
  pv_prompt_cache : ProviderPromptCacheSemantics;
}.

Record PromptCacheStatusSnapshot := {
  pt_anthropic_default_scope : string;
  pt_store_backed : bool;
  pt_routing_hint_persistence_enabled : bool;
  pt_routing_flush_interval_ms : Z;
  pt_routing_prune_interval_secs : Z;
  pt_warmed_route_count : Z;
  pt_negative_route_count : Z;
  pt_pending_route_updates : Z;
  pt_last_route_flush_unix_ms : option Z;
  pt_providers : list PromptCacheProviderSnapshot;
}.

Definition provider_snapshot (p : ProviderKeyConfig) : PromptCacheProviderSnapshot := {|
  pv_name := pk_name p; pv_family := enum_str (family_kind p); pv_stability := stability_str (provider_stability p);
  pv_surfaces := pk_surfaces p; pv_semantics := runtime_semantics p; pv_prompt_cache := prompt_cache_semantics p |}.

(** The two counts clean the memory, each at its reading of the clock. *)
Definition prompt_cache_status (warm_now negative_now : Z) (c : PromptCache) : PromptCache * PromptCacheStatusSnapshot :=
  let providers := sort_by (λ x y, String.leb (pv_name x) (pv_name y)) (provider_snapshot <$> (map_to_list (pm_providers c)).*2) in
  let '(m, warmed) := warmed_entry_count warm_now (pm_routing_memory c) in
  let '(m, negative) := negative_entry_count negative_now m in
  (c <| pm_routing_memory := m |>,
   {| pt_anthropic_default_scope := scope_as_str (pm_anthropic_default_scope c);
      pt_store_backed := is_some (pm_persistence c);
      pt_routing_hint_persistence_enabled := is_some (pm_persistence c);
      pt_routing_flush_interval_ms := pm_routing_flush_interval_ms c;
      pt_routing_prune_interval_secs := pm_routing_prune_interval_secs c;
      pt_warmed_route_count := warmed;
      pt_negative_route_count := negative;
      pt_pending_route_updates := from_option pending_update_count 0%Z (pm_persistence c);
      pt_last_route_flush_unix_ms := pm_persistence c ≫= last_flush_unix_ms;
      pt_providers := providers |}).

(** *** The memory and its copy *)

Section routes.
Context `{TokenDigest}.

Definition prompt_cache_route_id (project_id cache_key signal_kind : string) (provider_name : option string) : string :=
  "pcroute-" +:+ hash_token (project_id +:+ NUL +:+ cache_key +:+ NUL +:+ signal_kind +:+
    from_option (λ p, NUL +:+ p) "" provider_name).

Definition prompt_cache_warm_route_id (project_id cache_key : string) : string :=
  prompt_cache_route_id project_id cache_key "warm" None.

Definition prompt_cache_negative_route_id (project_id cache_key provider_name : string) : string :=
  prompt_cache_route_id project_id cache_key "negative" (Some provider_name).

Definition route_record (meta : PromptCacheRequestMeta) (cache_key route_id : string) (kind : PromptCacheRouteSignalKind)
    (observed expires : Z) : PromptCacheRouteRecord := {|
  rr_route_id := route_id; rr_project_id := pq_project_id meta; rr_cache_key := cache_key;
  rr_provider_name := pq_provider_name meta; rr_signal_kind := signal_as_str kind; rr_signal_strength := f64_of_Z 1;
  rr_observed_at_ms := observed; rr_expires_at_ms := expires |}.

(** Tokens read or written make the provider warm, a miss speaks against it.  The
    clock is read for the time of the observation, for the expiry, and by the
    memory. *)
Definition apply_prompt_cache_routing_memory_update (clk : nat → Z) (meta : PromptCacheRequestMeta) (usage : PromptCacheUsage)
    (m : PromptCacheRoutingMemory) (p : option PromptCachePersistence)
    : PromptCacheRoutingMemory * option PromptCachePersistence :=
  match pq_routing_cache_key meta, pq_routing_ttl_secs meta with
  | Some cache_key, Some ttl_secs =>
      let project_id := pq_project_id meta in
      let provider := pq_provider_name meta in
      let warm_id := prompt_cache_warm_route_id project_id cache_key in
      let negative_id := prompt_cache_negative_route_id project_id cache_key provider in
      if (0 <? pu_read_tokens usage)%Z || (0 <? pu_write_tokens usage)%Z then
        let observed := clk 0 in
        let expires := expiry (clk 1) ttl_secs in
        (remember_until (clk 2) project_id cache_key provider (f64_of_Z 1) observed expires m,
         (λ p, enqueue (DeleteRoute negative_id)
                 (enqueue (UpsertRoute (route_record meta cache_key warm_id SignalWarm observed expires)) p)) <$> p)
      else if String.eqb (pu_outcome usage) "miss" then
        let '(m, removed_warm) := forget_warm project_id cache_key provider m in
        let observed := clk 0 in
        let expires := expiry observed PROMPT_CACHE_NEGATIVE_TTL_SECS in
        (remember_negative_until (clk 2) project_id cache_key provider (f64_of_Z 1) observed expires m,
         (λ p, enqueue (UpsertRoute (route_record meta cache_key negative_id SignalNegative observed expires))
                 (if removed_warm then enqueue (DeleteRoute warm_id) p else p)) <$> p)
      else (m, p)
  | _, _ => (m, p)
  end.

Definition record_usage (clk : nat → Z) (meta : PromptCacheRequestMeta) (usage : PromptCacheUsage) (c : PromptCache)
    : PromptCache :=
  let '(m, p) := apply_prompt_cache_routing_memory_update clk meta usage (pm_routing_memory c) (pm_persistence c) in
  c <| pm_routing_memory := m |> <| pm_persistence := p |>.

Definition record_prompt_cache_observation (usage : PromptCacheUsage) (c : PromptCache) : PromptCache :=
  let provider := pu_provider_name usage in
  c <| pm_metrics := foldl (λ m e, report e m) (pm_metrics c)
    [inc "prompt_cache_requests_total" [provider; pu_outcome usage];
     {| me_metric := "prompt_cache_read_tokens_total"; me_labels := [provider]; me_update := IncBy (pu_read_tokens usage) |};
     {| me_metric := "prompt_cache_write_tokens_total"; me_labels := [provider]; me_update := IncBy (pu_write_tokens usage) |}] |>.

(** A record of the table put back into memory, the [i]-th. *)
Definition restore_route (restore_now now : Z) (record : PromptCacheRouteRecord) (m : PromptCacheRoutingMemory)
    : PromptCacheRoutingMemory :=
  let observed := if (rr_observed_at_ms record =? 0)%Z then Z.min restore_now (rr_expires_at_ms record)
                  else rr_observed_at_ms record in
  match signal_parse (rr_signal_kind record) with
  | Some SignalWarm => remember_until now (rr_project_id record) (rr_cache_key record) (rr_provider_name record)
      (rr_signal_strength record) observed (rr_expires_at_ms record) m
  | Some SignalNegative => remember_negative_until now (rr_project_id record) (rr_cache_key record) (rr_provider_name record)
      (rr_signal_strength record) observed (rr_expires_at_ms record) m
  | None => m
  end.

Context {St : Type} `{RouteStore St}.

(** The clock is read for the query, for the restoring, and by every record; the
    counts that are logged clean the memory. *)
Definition prompt_cache_load (clk : nat → Z) (c : PromptCache) (st : St) : PromptCache * St * result StoreError () :=
  match pm_persistence c with
  | None => (c, st, Ok ())
  | Some _ =>
      let '(st, r) := get_prompt_cache_routes st (clk 0) 10000 in
      match r with
      | Err e => (c, st, Err e)
      | Ok records =>
          let m := foldl (λ m e, restore_route (clk 1) (clk (4 + e.1)) e.2 m) (pm_routing_memory c) (enumerate records) in
          let m := (warmed_entry_count (clk 2) m).1 in
          let m := (negative_entry_count (clk 3) m).1 in
          (c <| pm_routing_memory := m |>, st, Ok ())
      end
  end.

(** *** The hooks *)

Context `{SerdeJson} `{Http} {S : Type}.

Notation Ctx := (RequestContext (H := H2) (H0 := gateway_types S)).

Definition prompt_meta (key : VirtualKeyMeta) (protocol : option PromptCacheProtocol) (o : option PromptCacheOptIn)
    : PromptCacheRequestMeta := {|
  pq_project_id := vk_project_id key; pq_provider_name := vk_provider_name key; pq_protocol := protocol;
  pq_opt_in_requested := match o with Some _ => true | None => false end;
  pq_routing_cache_key := o ≫= (λ o, if po_enabled o then po_key o else None);
  pq_routing_ttl_secs := o ≫= (λ o, if po_enabled o then Some (prompt_cache_routing_ttl_secs protocol o) else None) |}.

Definition apply_request_controls (protocol : PromptCacheProtocol) (provider : ProviderKeyConfig) (o : PromptCacheOptIn)
    (request_json : json) : result string json :=
  if po_enabled o then
    match protocol with
    | PcOpenAi => apply_openai_request_controls request_json o (provider_request_controls provider)
    | PcAnthropic => apply_anthropic_request_controls request_json o
    end
  else Ok request_json.

(** What a refused request leaves of its parsed body is not kept: it is answered. *)
Definition prompt_cache_on_request (c : PromptCache) (ctx : Ctx) : Ctx * Action :=
  if from_option disable_prompt_cache false (ext_brownout (ctx_extensions ctx)) then (ctx, Continue)
  else
    match x_virtual_key (ctx_ext ctx) with
    | None => (ctx, Continue)
    | Some key =>
        match pm_providers c !! vk_provider_name key with
        | None => (ctx, Continue)
        | Some provider =>
            let protocol := infer_prompt_cache_protocol provider in
            let put o ctx := with_ext (λ x, x <| x_prompt_cache := Some (prompt_meta key protocol o) |>) ctx in
            let set_json v ctx := with_ext (λ x, x <| x_cached_request_json := Some v |>) ctx in
            match ctx_body ctx with
            | None => (put None ctx, Continue)
            | Some _ =>
                match cached_request_json ctx with
                | (ctx, None) => (put None ctx, Continue)
                | (ctx, Some request_json) =>
                    match extract_prompt_opt_in request_json (pm_anthropic_default_scope c) with
                    | (v, Err error) => (set_json v ctx, Respond (prompt_json_error 400%Z error))
                    | (v, Ok None) => (put None (set_json v ctx), Continue)
                    | (v, Ok (Some o)) =>
                        match protocol with
                        | None =>
                            let ctx := sync_cached_request_json_body (set_json v ctx) in
                            if po_enabled o
                            then (ctx, Respond (prompt_json_error 400%Z "provider does not support gateway prompt cache controls"))
                            else (put (Some o) ctx, Continue)
                        | Some protocol =>
                            match apply_request_controls protocol provider o v with
                            | Err error => (set_json v ctx, Respond (prompt_json_error 400%Z error))
                            | Ok v => (put (Some o) (sync_cached_request_json_body (set_json v ctx)), Continue)
                            end
                        end
                    end
                end
            end
        end
    end.

Definition attach_response_headers (u : PromptCacheUsage) (h : HeaderMap) : HeaderMap :=
  let h := insert_text "x-trp-prompt-cache-provider" (pu_provider_name u) h in
  let h := insert_text "x-trp-prompt-cache-protocol" (pu_protocol u) h in
  let h := insert_text "x-trp-prompt-cache-status" (pu_outcome u) h in
  let h := insert_text "x-trp-prompt-cache-read-tokens" (pretty (pu_read_tokens u)) h in
  insert_text "x-trp-prompt-cache-write-tokens" (pretty (pu_write_tokens u)) h.

Definition prompt_cache_transform_response (clk : nat → Z) (c : PromptCache) (ctx : Ctx) (resp : Response)
    : PromptCache * Ctx * Response :=
  match x_prompt_cache (ctx_ext ctx) with
  | None => (c, ctx, resp)
  | Some meta =>
      if is_sse (resp_headers resp) then (c, ctx, resp)
      else
        match collect (resp_body resp) with
        | None => (c, ctx, {| status := status resp; resp_headers := resp_headers resp; resp_body := full_body "" |})
        | Some bytes =>
            let usage := usage_or_miss meta (extract_prompt_cache_usage_from_tail meta (bytes_of bytes)) in
            let h := insert_text "content-length" (pretty (String.length bytes)) (resp_headers resp) in
            let answer h := {| status := status resp; resp_headers := h; resp_body := full_body bytes |} in
            match usage with
            | Some u =>
                (record_usage clk meta u c, with_ext (λ x, x <| x_prompt_cache_usage := Some u |>) ctx,
                 answer (attach_response_headers u h))
            | None => (c, ctx, answer h)
            end
        end
  end.

Definition prompt_cache_on_response (c : PromptCache) (ctx : Ctx) (resp : ResponseContext) : PromptCache :=
  if is_sse (rc_headers resp) then c
  else from_option (λ u, record_prompt_cache_observation u c) c (x_prompt_cache_usage (ctx_ext ctx)).

(** The body of a stream and the task behind it, [dropped] when the client leaves
    before the end. *)
Definition prompt_cache_wrap_response_body (clk : nat → Z) (dropped : bool) (c : PromptCache) (ctx : Ctx)
    (resp : ResponseContext) (body : Body) : PromptCache * Body :=
  if negb (is_sse (rc_headers resp)) then (c, body)
  else
    match x_prompt_cache (ctx_ext ctx) with
    | None => (c, body)
    | Some meta =>
        let '(out, sent) := prompt_poll_frames meta [] body in
        match usage_or_miss meta (if dropped then None else sent) with
        | Some u => (record_prompt_cache_observation u (record_usage clk meta u c), out)
        | None => (c, out)
        end
    end.

End routes.
