(* ===== verification/PromptCacheProps.v ===== *)
(** * What the prompt cache guarantees

    The routing memory answers as a log that forgets nothing, the copy in the store
    loses no update when the store fails, and a request for an Anthropic provider
    is marked at one place. *)

From S2P Require Import Prelude RecordSet StateResult RustStr Utf8 F64 Toml Json Sql ConfigSurfaces Auth Http Plugin ProxyProtocol GatewayContext StreamUsage CostTracker GatewayLimits Routing PromptRegistry PromptRegistryProps SemanticCache PromptCache.

Local Open Scope string_scope.
Local Open Scope list_scope.
Local Open Scope rust_scope.

(** ** The memory *)

(** *** Cleaning *)

Definition keep_live (now : Z) (o : option PromptCacheRouteSignal) : option PromptCacheRouteSignal :=
  o ≫= (λ g, if signal_live now g then Some g else None).

Lemma keep_live_later now now' o : (now ≤ now')%Z → keep_live now' (keep_live now o) = keep_live now' o.
Proof.
  intros Hle. destruct o as [g|]; [|done]. cbn. destruct (signal_live now g) eqn:E; [done|]. cbn.
  unfold signal_live in *. apply Z.ltb_ge in E. destruct (Z.ltb_spec now' (sg_expires_at_ms g)); [lia|done].
Qed.

Lemma cleaned_negative now s q : ps_negatives (cleaned now s) !! q = keep_live now (ps_negatives s !! q).
Proof.
  cbn. rewrite map_lookup_filter. destruct (ps_negatives s !! q) as [g|]; [|done]. cbn.
  destruct (signal_live now g); cbn; [by rewrite option_guard_True|by rewrite option_guard_False].
Qed.

Lemma state_ext s s' : ps_warm s = ps_warm s' → (∀ q, ps_negatives s !! q = ps_negatives s' !! q) → s = s'.
Proof. destruct s, s'. cbn. intros -> Hn. f_equal. by apply map_eq. Qed.

Lemma cleaned_later now now' s : (now ≤ now')%Z → cleaned now' (cleaned now s) = cleaned now' s.
Proof.
  intros Hle. apply state_ext; [by apply (keep_live_later now now')|].
  intros q. by rewrite !cleaned_negative, keep_live_later.
Qed.

(** Two states that cannot be told apart from [now] on. *)
Definition same_live (now : Z) (s s' : PromptCacheRoutingState) : Prop := cleaned now s = cleaned now s'.

Lemma same_live_later now now' s s' : (now ≤ now')%Z → same_live now s s' → same_live now' s s'.
Proof. intros Hle H. unfold same_live in *. by rewrite <-(cleaned_later now now' s), H, cleaned_later. Qed.

Lemma same_live_warm now s s' : same_live now s s' → keep_live now (ps_warm s) = keep_live now (ps_warm s').
Proof. intros H. by apply (f_equal ps_warm) in H. Qed.

Lemma same_live_negative now s s' q :
  same_live now s s' → keep_live now (ps_negatives s !! q) = keep_live now (ps_negatives s' !! q).
Proof. intros H. by rewrite <-!cleaned_negative, H. Qed.

Lemma same_live_intro now s s' :
  keep_live now (ps_warm s) = keep_live now (ps_warm s') →
  (∀ q, keep_live now (ps_negatives s !! q) = keep_live now (ps_negatives s' !! q)) → same_live now s s'.
Proof. intros Hw Hn. apply state_ext; [done|]. intros q. by rewrite !cleaned_negative. Qed.

Definition state_at (m : PromptCacheRoutingMemory) (k : string) : PromptCacheRoutingState := default routing_state_new (m !! k).

Lemma empty_state s : state_is_empty s = true → s = routing_state_new.
Proof.
  unfold state_is_empty. destruct s as [[w|] n]; [done|]. cbn. intros E%bool_decide_eq_true. by rewrite E.
Qed.

Lemma cleanup_state_at k now m k' :
  state_at (cleanup_state k now m).1 k' = if String.eqb k k' then cleaned now (state_at m k) else state_at m k'.
Proof.
  unfold cleanup_state, state_at. destruct (m !! k) as [s|] eqn:Ek; cbn [default from_option fst].
  - destruct (state_is_empty (cleaned now s)) eqn:Ee; cbn [fst]; destruct (String.eqb_spec k k') as [<-|Hne].
    + rewrite lookup_delete_eq. cbn. by rewrite (empty_state _ Ee).
    + by rewrite lookup_delete_ne.
    + by rewrite lookup_insert_eq.
    + by rewrite lookup_insert_ne.
  - destruct (String.eqb_spec k k') as [<-|Hne]; [by rewrite Ek|done].
Qed.

Lemma cleanup_state_result k now m : default routing_state_new (cleanup_state k now m).2 = cleaned now (state_at m k).
Proof.
  unfold cleanup_state, state_at. destruct (m !! k) as [s|]; [|done]. cbn.
  destruct (state_is_empty (cleaned now s)) eqn:Ee; [|done]. by rewrite (empty_state _ Ee).
Qed.

(** *** The log *)

(** Whatever has been said about a route, with nothing cleaned. *)
Definition log_warm (g : PromptCacheRouteSignal) (s : PromptCacheRoutingState) : PromptCacheRoutingState :=
  {| ps_warm := Some g; ps_negatives := delete (sg_provider_name g) (ps_negatives s) |}.

Definition log_negative (g : PromptCacheRouteSignal) (s : PromptCacheRoutingState) : PromptCacheRoutingState :=
  {| ps_warm := ps_warm s ≫= (λ w, if String.eqb (sg_provider_name w) (sg_provider_name g) then None else Some w);
     ps_negatives := <[sg_provider_name g := g]> (ps_negatives s) |}.

Lemma log_warm_same now g s s' : same_live now s s' → same_live now (log_warm g s) (log_warm g s').
Proof.
  intros H. apply same_live_intro; [done|]. intros q. cbn.
  destruct (decide (sg_provider_name g = q)) as [<-|Hne]; [by rewrite !lookup_delete_eq|].
  rewrite !lookup_delete_ne by done. by apply same_live_negative.
Qed.

Definition without_provider (p : string) (o : option PromptCacheRouteSignal) : option PromptCacheRouteSignal :=
  o ≫= (λ w, if String.eqb (sg_provider_name w) p then None else Some w).

Lemma keep_live_without now p o : keep_live now (without_provider p o) = without_provider p (keep_live now o).
Proof.
  destruct o as [w|]; [|done]. cbn. destruct (String.eqb (sg_provider_name w) p) eqn:E, (signal_live now w) eqn:El; cbn;
    by rewrite ?E, ?El.
Qed.

Lemma log_negative_same now g s s' : same_live now s s' → same_live now (log_negative g s) (log_negative g s').
Proof.
  intros H. apply same_live_intro.
  - change (keep_live now (without_provider (sg_provider_name g) (ps_warm s)) =
      keep_live now (without_provider (sg_provider_name g) (ps_warm s'))).
    by rewrite !keep_live_without, (same_live_warm _ _ _ H).
  - intros q. cbn. destruct (decide (sg_provider_name g = q)) as [<-|Hne]; [by rewrite !lookup_insert_eq|].
    rewrite !lookup_insert_ne by done. by apply same_live_negative.
Qed.

(** *** The updates, at every route *)

Definition signal (kind : PromptCacheRouteSignalKind) (provider : string) (strength : f64) (observed expires : Z)
    : PromptCacheRouteSignal :=
  {| sg_provider_name := provider; sg_kind := kind; sg_signal_strength := strength; sg_observed_at_ms := observed;
     sg_expires_at_ms := expires |}.

Lemma state_at_insert m k s k' : state_at (<[k := s]> m) k' = if String.eqb k k' then s else state_at m k'.
Proof.
  unfold state_at. destruct (String.eqb_spec k k') as [<-|Hne]; [by rewrite lookup_insert_eq|by rewrite lookup_insert_ne].
Qed.

Lemma remember_until_at now p k q x obs exp m k' :
  state_at (remember_until now p k q x obs exp m) k' =
  if String.eqb (composite_key p k) k' then log_warm (signal SignalWarm q x obs exp) (cleaned now (state_at m (composite_key p k)))
  else state_at m k'.
Proof.
  unfold remember_until. pose proof (cleanup_state_at (composite_key p k) now m k') as Hat.
  pose proof (cleanup_state_result (composite_key p k) now m) as Hres.
  destruct (cleanup_state _ now m) as [m' s]. cbn [fst snd] in *. rewrite state_at_insert, Hat, Hres.
  by destruct (String.eqb _ k').
Qed.

Lemma remember_negative_until_at now p k q x obs exp m k' :
  state_at (remember_negative_until now p k q x obs exp m) k' =
  if String.eqb (composite_key p k) k'
  then let s := cleaned now (state_at m (composite_key p k)) in
       {| ps_warm := ps_warm s; ps_negatives := <[q := signal SignalNegative q x obs exp]> (ps_negatives s) |}
  else state_at m k'.
Proof.
  unfold remember_negative_until. pose proof (cleanup_state_at (composite_key p k) now m k') as Hat.
  pose proof (cleanup_state_result (composite_key p k) now m) as Hres.
  destruct (cleanup_state _ now m) as [m' s]. cbn [fst snd] in *. rewrite state_at_insert, Hat, Hres.
  by destruct (String.eqb _ k').
Qed.

Lemma forget_warm_at p k q m k' :
  state_at (forget_warm p k q m).1 k' =
  if String.eqb (composite_key p k) k'
  then let s := state_at m k' in {| ps_warm := without_provider q (ps_warm s); ps_negatives := ps_negatives s |}
  else state_at m k'.
Proof.
  unfold forget_warm. set (ck := composite_key p k). destruct (m !! ck) as [s|] eqn:Ek; cbn [fst].
  - set (removed := from_option _ _ _). set (s' := if removed then _ else s).
    assert (s' = {| ps_warm := without_provider q (ps_warm s); ps_negatives := ps_negatives s |}) as Hs'.
    { unfold s', removed. destruct s as [[w|] n]; cbn; [|done]. by destruct (String.eqb (sg_provider_name w) q). }
    destruct (String.eqb_spec ck k') as [<-|Hne].
    + unfold state_at at 2 3. rewrite Ek. cbn zeta. cbn [default from_option].
      destruct (state_is_empty s') eqn:Ee.
      * unfold state_at. rewrite lookup_delete_eq. cbn. rewrite <-Hs'. by rewrite (empty_state _ Ee).
      * rewrite state_at_insert, String.eqb_refl. done.
    + destruct (state_is_empty s'); [unfold state_at; by rewrite lookup_delete_ne|].
      rewrite state_at_insert. by destruct (String.eqb_spec ck k').
  - destruct (String.eqb_spec ck k') as [<-|Hne]; [|done]. unfold state_at. by rewrite Ek.
Qed.

Section log.
Context `{TokenDigest}.

(** An answer of a provider, with the readings of the clock. *)
Record Observation := {
  ob_clk : nat → Z;
  ob_meta : PromptCacheRequestMeta;
  ob_usage : PromptCacheUsage;
}.

Definition observe (m : PromptCacheRoutingMemory) (o : Observation) : PromptCacheRoutingMemory :=
  (apply_prompt_cache_routing_memory_update (ob_clk o) (ob_meta o) (ob_usage o) m None).1.

(** The memory does not depend on the copy in the store. *)
Lemma update_memory clk meta usage m p :
  (apply_prompt_cache_routing_memory_update clk meta usage m p).1 =
  (apply_prompt_cache_routing_memory_update clk meta usage m None).1.
Proof. unfold apply_prompt_cache_routing_memory_update. by repeat case_match. Qed.

(** What the log keeps of an answer. *)
Definition log_step (log : PromptCacheRoutingMemory) (o : Observation) : PromptCacheRoutingMemory :=
  match pq_routing_cache_key (ob_meta o), pq_routing_ttl_secs (ob_meta o) with
  | Some cache_key, Some ttl_secs =>
      let k := composite_key (pq_project_id (ob_meta o)) cache_key in
      let g kind expires := signal kind (pq_provider_name (ob_meta o)) (f64_of_Z 1) (ob_clk o 0) expires in
      if (0 <? pu_read_tokens (ob_usage o))%Z || (0 <? pu_write_tokens (ob_usage o))%Z
      then <[k := log_warm (g SignalWarm (expiry (ob_clk o 1) ttl_secs)) (state_at log k)]> log
      else if String.eqb (pu_outcome (ob_usage o)) "miss"
      then <[k := log_negative (g SignalNegative (expiry (ob_clk o 0) PROMPT_CACHE_NEGATIVE_TTL_SECS)) (state_at log k)]> log
      else log
  | _, _ => log
  end.

Definition same_memory (now : Z) (m log : PromptCacheRoutingMemory) : Prop :=
  ∀ k, same_live now (state_at m k) (state_at log k).

Lemma observe_same now m log o :
  (now ≤ ob_clk o 2)%Z → same_memory now m log → same_memory (ob_clk o 2) (observe m o) (log_step log o).
Proof.
  intros Hle Hsame k. assert (same_live (ob_clk o 2) (state_at m k) (state_at log k)) as Hk
    by (eapply same_live_later; [done|apply Hsame]).
  unfold observe, apply_prompt_cache_routing_memory_update, log_step.
  destruct (pq_routing_cache_key _) as [cache_key|]; [|done]. destruct (pq_routing_ttl_secs _) as [ttl|]; [|done].
  set (ck := composite_key _ cache_key). destruct (_ || _).
  - cbn [fst]. rewrite remember_until_at, state_at_insert. fold ck. destruct (String.eqb_spec ck k) as [<-|_]; [|done].
    apply log_warm_same. unfold same_live in *. by rewrite cleaned_later.
  - destruct (String.eqb (pu_outcome _) "miss"); [|done].
    pose proof (forget_warm_at (pq_project_id (ob_meta o)) cache_key (pq_provider_name (ob_meta o)) m k) as Hf.
    destruct (forget_warm _ _ _ m) as [m1 removed]. cbn [fst] in *.
    rewrite remember_negative_until_at, state_at_insert. fold ck in Hf |- *.
    destruct (String.eqb_spec ck k) as [<-|_]; [|by rewrite Hf].
    cbv zeta in *. rewrite Hf. etrans; [|apply log_negative_same, Hk].
    set (t := ob_clk o 2) in *. set (s := state_at m ck). set (q := pq_provider_name (ob_meta o)).
    apply same_live_intro.
    + change (keep_live t (keep_live t (without_provider q (ps_warm s))) = keep_live t (without_provider q (ps_warm s))).
      by apply keep_live_later.
    + intros p. cbn [ps_negatives log_negative signal sg_provider_name].
      destruct (decide (q = p)) as [<-|Hne]; [by rewrite !lookup_insert_eq|]. rewrite !lookup_insert_ne by done.
      change (ps_negatives (cleaned t {| ps_warm := without_provider q (ps_warm s); ps_negatives := ps_negatives s |}) !! p)
        with (ps_negatives (cleaned t s) !! p).
      rewrite cleaned_negative. by apply keep_live_later.
Qed.

(** Observations in the order of time, and the time of the last. *)
Fixpoint in_order (now : Z) (l : list Observation) : Prop :=
  match l with [] => True | o :: l' => (now ≤ ob_clk o 2)%Z ∧ in_order (ob_clk o 2) l' end.

Fixpoint last_time (now : Z) (l : list Observation) : Z :=
  match l with [] => now | o :: l' => last_time (ob_clk o 2) l' end.

Lemma observations_same now l m log :
  in_order now l → same_memory now m log → same_memory (last_time now l) (foldl observe m l) (foldl log_step log l).
Proof.
  revert now m log. induction l as [|o l IH]; intros now m log Hin Hsame; [done|]. destruct Hin as [Hle Hin].
  cbn. apply IH; [done|]. by apply observe_same with now.
Qed.

(** What the memory says of a route, from its state. *)
Definition affinity_of (clk : nat → Z) (providers : list string) (state : PromptCacheRoutingState) : PromptCacheRoutingAffinity :=
  let a := match ps_warm state with
    | Some warm =>
        if bool_decide (sg_provider_name warm ∈ providers)
        then add_positive_bonus (sg_provider_name warm) (decayed_signal_value (clk 2) warm PROMPT_CACHE_WARM_MAX_BONUS) affinity_default
        else affinity_default
    | None => affinity_default
    end in
  foldl (λ a e,
    match ps_negatives state !! e.2 with
    | Some negative =>
        if signal_live (clk 1) negative
        then add_negative_penalty e.2 (decayed_signal_value (clk (3 + e.1)) negative PROMPT_CACHE_NEGATIVE_MAX_PENALTY) a
        else a
    | None => a
    end) a (enumerate providers).

Lemma affinity_of_new clk providers : affinity_of clk providers routing_state_new = affinity_default.
Proof.
  unfold affinity_of. cbn [ps_warm ps_negatives routing_state_new].
  induction (enumerate providers) as [|e l IH]; [done|]. cbn. by rewrite lookup_empty.
Qed.

Lemma memory_affinity_of clk project_id cache_key providers m :
  (memory_affinity clk project_id cache_key providers m).2 =
  affinity_of clk providers (cleaned (clk 0) (state_at m (composite_key project_id cache_key))).
Proof.
  unfold memory_affinity. pose proof (cleanup_state_result (composite_key project_id cache_key) (clk 0) m) as Hres.
  destruct (cleanup_state _ _ m) as [m' [s|]]; cbn [snd default from_option] in *; rewrite <-Hres; [done|].
  by rewrite affinity_of_new.
Qed.

(** C22: What the memory forgets cannot be missed: after any answers of providers in the
    order of time, what routing is told about a prompt is what the complete log of
    all answers says, in which the last success of a prompt is its warm provider
    unless that provider has missed it since, and the last miss of a provider
    counts against it unless it has served the prompt since. *)
Theorem memory_answers_as_the_log (now : Z) (l : list Observation) (clk : nat → Z) (project_id cache_key : string) (providers : list string) :
  in_order now l → (last_time now l ≤ clk 0%nat)%Z →
  (memory_affinity clk project_id cache_key providers (foldl observe ∅ l)).2 =
  affinity_of clk providers (cleaned (clk 0) (state_at (foldl log_step ∅ l) (composite_key project_id cache_key))).
Proof.
  intros Hin Hle. rewrite memory_affinity_of.
  assert (same_memory (clk 0) (foldl observe ∅ l) (foldl log_step ∅ l)) as Hs.
  { intros k. eapply same_live_later; [exact Hle|]. by apply observations_same. }
  by rewrite (Hs _).
Qed.

End log.

(** ** The copy in the store *)

(** What a store promises: a statement it refuses changes nothing. *)
Class RouteStoreOk (St : Type) `{RouteStore St} := {
  route_rows : St → gmap string PromptCacheRouteRecord;
  upsert_route_ok : ∀ st r,
    let '(st', x) := upsert_prompt_cache_route st r in
    route_rows st' = match x with Ok _ => <[rr_route_id r := r]> (route_rows st) | Err _ => route_rows st end;
  delete_route_ok : ∀ st id,
    let '(st', x) := delete_prompt_cache_route st id in
    route_rows st' = match x with Ok _ => delete id (route_rows st) | Err _ => route_rows st end;
}.

Lemma sqlite_upsert_route_ok (st : RouteDb) r :
  let '(st', x) := upsert_prompt_cache_route st r in
  db_tables st' = match x with Ok _ => <[rr_route_id r := r]> (db_tables st) | Err _ => db_tables st end.
Proof. destruct (upsert_prompt_cache_route st r) as [st' x] eqn:E. by apply execute_write in E. Qed.

Lemma sqlite_delete_route_ok (st : RouteDb) id :
  let '(st', x) := delete_prompt_cache_route st id in
  db_tables st' = match x with Ok _ => delete id (db_tables st) | Err _ => db_tables st end.
Proof.
  destruct (delete_prompt_cache_route st id) as [st' x] eqn:E. apply execute_cases in E. destruct x; naive_solver.
Qed.

#[export] Instance sqlite_route_store_ok : RouteStoreOk RouteDb := {|
  route_rows := db_tables;
  upsert_route_ok := sqlite_upsert_route_ok;
  delete_route_ok := sqlite_delete_route_ok;
|}.

(** What an update says of its route. *)
Definition mutation_value (m : PromptCacheRouteMutation) : option PromptCacheRouteRecord :=
  match m with UpsertRoute r => Some r | DeleteRoute _ => None end.

(** A route as the updates that wait and the table together have it. *)
Definition visible (rows : gmap string PromptCacheRouteRecord) (pending : gmap string PromptCacheRouteMutation) (id : string)
    : option PromptCacheRouteRecord :=
  match pending !! id with Some m => mutation_value m | None => rows !! id end.

Definition pending_wf (p : PromptCachePersistence) : Prop :=
  ∀ id m, pp_pending p !! id = Some m → mutation_route_id m = id.

Definition enqueue_all (l : list PromptCacheRouteMutation) (p : PromptCachePersistence) : PromptCachePersistence :=
  foldl (λ p m, enqueue m p) p l.

Lemma enqueue_pending m p id :
  pp_pending (enqueue m p) !! id = if String.eqb (mutation_route_id m) id then Some m else pp_pending p !! id.
Proof.
  cbn. destruct (String.eqb_spec (mutation_route_id m) id) as [<-|Hne]; [by rewrite lookup_insert_eq|by rewrite lookup_insert_ne].
Qed.

Lemma enqueue_all_other l p id :
  id ∉ mutation_route_id <$> l → pp_pending (enqueue_all l p) !! id = pp_pending p !! id.
Proof.
  revert p. induction l as [|m l IH]; intros p Hid; [done|]. apply not_elem_of_cons in Hid as [Hne Hid].
  cbn. unfold enqueue_all in IH. rewrite IH by done. rewrite enqueue_pending. by destruct (String.eqb_spec (mutation_route_id m) id).
Qed.

Lemma enqueue_all_in l p m :
  NoDup (mutation_route_id <$> l) → m ∈ l → pp_pending (enqueue_all l p) !! mutation_route_id m = Some m.
Proof.
  revert p. induction l as [|m' l IH]; intros p Hnd Hin; [by apply not_elem_of_nil in Hin|].
  apply NoDup_cons in Hnd as [Hnot Hnd]. apply elem_of_cons in Hin as [->|Hin]; [|by apply IH].
  change (pp_pending (enqueue_all l (enqueue m' p)) !! mutation_route_id m' = Some m').
  by rewrite enqueue_all_other, enqueue_pending, String.eqb_refl.
Qed.

(** [enqueue] keys an update by its route. *)
Lemma enqueue_wf m p : pending_wf p → pending_wf (enqueue m p).
Proof.
  intros Hwf id m'. rewrite enqueue_pending. destruct (String.eqb_spec (mutation_route_id m) id) as [<-|_]; [|apply Hwf].
  by intros [= <-].
Qed.

Section flush.
Context `{RouteStoreOk St}.

Lemma apply_mutation_rows m st st' r :
  apply_mutation m st = (st', r) →
  route_rows st' = match r with
    | Ok _ => partial_alter (λ _, mutation_value m) (mutation_route_id m) (route_rows st)
    | Err _ => route_rows st
    end.
Proof.
  unfold apply_mutation. destruct m as [rec|id]; cbn [mutation_value mutation_route_id].
  - pose proof (upsert_route_ok st rec) as Hok. intros E. rewrite E in Hok. exact Hok.
  - pose proof (delete_route_ok st id) as Hok. destruct (delete_prompt_cache_route st id) as [st1 x].
    intros E. destruct x; inversion E; subst; exact Hok.
Qed.

Lemma apply_mutation_at m st st' r id :
  apply_mutation m st = (st', r) → mutation_route_id m ≠ id → route_rows st' !! id = route_rows st !! id.
Proof. intros E Hne. rewrite (apply_mutation_rows _ _ _ _ E). destruct r; [by rewrite lookup_partial_alter_ne|done]. Qed.

Notation ids := (fmap mutation_route_id).

(** Others leave the routes in hand alone. *)
Definition apart (others : nat → list PromptCacheRouteMutation) (id : string) : Prop :=
  ∀ i m, m ∈ others i → mutation_route_id m ≠ id.

Lemma others_other others i p id : apart others id → pp_pending (enqueue_all (others i) p) !! id = pp_pending p !! id.
Proof.
  intros Hap. apply enqueue_all_other. intros [m [-> Hin]]%list_elem_of_fmap. by apply (Hap i m).
Qed.

(** What the loop leaves behind. *)
Record flushed (others : nat → list PromptCacheRouteMutation) (drained : list PromptCacheRouteMutation)
    (p : PromptCachePersistence) (st : St) (p' : PromptCachePersistence) (st' : St) (r : result StoreError Z) : Prop := {
  flushed_visible : ∀ m, m ∈ drained → visible (route_rows st') (pp_pending p') (mutation_route_id m) = mutation_value m;
  flushed_rows : ∀ id, id ∉ ids drained → route_rows st' !! id = route_rows st !! id;
  flushed_pending : ∀ id, apart others id → id ∉ ids drained → pp_pending p' !! id = pp_pending p !! id;
  flushed_all : ∀ n id, r = Ok n → id ∈ ids drained → pp_pending p' !! id = None;
}.

(** The store refuses the first of them: all are put in again. *)
Lemma flushed_refused others i drained p st st' e :
  NoDup (ids drained) → route_rows st' = route_rows st →
  flushed others drained p st (enqueue_all drained (enqueue_all (others i) p)) st' (Err e).
Proof.
  intros Hnd Hrows. split.
  - intros m Hin. unfold visible. by rewrite enqueue_all_in.
  - intros id _. by rewrite Hrows.
  - intros id Hap Hid. by rewrite enqueue_all_other, others_other.
  - done.
Qed.

(** The store takes the first of them. *)
Lemma flushed_taken others i m l p st st1 p' st' r :
  NoDup (ids (m :: l)) → (∀ id, id ∈ ids (m :: l) → apart others id) → pp_pending p !! mutation_route_id m = None →
  apply_mutation m st = (st1, Ok ()) → flushed others l (enqueue_all (others i) p) st1 p' st' r →
  flushed others (m :: l) p st p' st' (result_map (λ n, Z.min u64_max (n + 1)) r).
Proof.
  intros [Hm Hnd]%NoDup_cons Hap Hnone Em [Hv Hr Hp Ha].
  assert (apart others (mutation_route_id m)) as Hapm by (apply Hap; left).
  assert (pp_pending p' !! mutation_route_id m = None) as Hpm by (rewrite Hp, others_other by done; exact Hnone).
  split.
  - intros m' [->|Hin]%elem_of_cons; [|by apply Hv]. unfold visible. rewrite Hpm, Hr by done.
    rewrite (apply_mutation_rows _ _ _ _ Em). by rewrite lookup_partial_alter_eq.
  - intros id [Hne Hid]%not_elem_of_cons. rewrite Hr by done. by apply (apply_mutation_at m) with (r := Ok ()).
  - intros id Hapid [Hne Hid]%not_elem_of_cons. by rewrite Hp, others_other.
  - intros n id Hn [->|Hid]%elem_of_cons; [done|]. destruct r as [n'|e]; [|done]. by apply (Ha n').
Qed.

Lemma apply_drained_spec others drained index p st p' st' r :
  NoDup (ids drained) → (∀ id, id ∈ ids drained → apart others id) →
  (∀ id, id ∈ ids drained → pp_pending p !! id = None) →
  apply_drained others index drained p st = (p', st', r) → flushed others drained p st p' st' r.
Proof.
  revert index p st p' st' r. induction drained as [|m l IH]; intros index p st p' st' r Hnd Hap Hnone E.
  { cbn in E. inversion E; subst. split; try done; intros; exfalso; by eapply not_elem_of_nil. }
  cbn [apply_drained] in E. destruct (apply_mutation m st) as [st1 [[]|e]] eqn:Em.
  - destruct (apply_drained _ _ l _ st1) as [[p2 st2] r2] eqn:El. inversion E; subst; clear E.
    eapply flushed_taken; [done..|apply Hnone; left|exact Em|].
    apply NoDup_cons in Hnd as [Hm Hnd]. apply (IH (S index)); [done| |  |exact El].
    + intros id Hid. apply Hap. by right.
    + intros id Hid. change (pp_pending (enqueue_all (others index) p) !! id = None).
      rewrite others_other by (apply Hap; by right). apply Hnone. by right.
  - inversion E; subst; clear E. apply (flushed_refused others index); [done|]. by rewrite (apply_mutation_rows _ _ _ _ Em).
Qed.

Lemma drain_pending keys p id :
  pp_pending (drain keys p).1 !! id = if bool_decide (id ∈ keys) then None else pp_pending p !! id.
Proof.
  cbn. generalize (pp_pending p). induction keys as [|k keys IH]; intros m; [done|]. cbn [foldl]. rewrite IH.
  destruct (decide (k = id)) as [<-|Hne].
  - rewrite (bool_decide_true (k ∈ k :: keys)) by left. case_bool_decide; [done|apply lookup_delete_eq].
  - rewrite lookup_delete_ne by done. rewrite (bool_decide_ext (id ∈ k :: keys) (id ∈ keys)); [done|].
    rewrite elem_of_cons. naive_solver.
Qed.

Lemma drained_in keys p m :
  pending_wf p → m ∈ (drain keys p).2 ↔ mutation_route_id m ∈ keys ∧ pp_pending p !! mutation_route_id m = Some m.
Proof.
  intros Hwf. cbn. rewrite list_elem_of_omap. split.
  - intros [k [Hk Hm]]. by rewrite (Hwf k m Hm).
  - naive_solver.
Qed.

Lemma drained_ids keys p : pending_wf p → NoDup keys → NoDup (ids (drain keys p).2) ∧ ids (drain keys p).2 ⊆ keys.
Proof.
  intros Hwf Hnd. cbn. induction Hnd as [|k keys Hk Hnd [IHn IHs]]; [split; [constructor|done]|].
  cbn. destruct (pp_pending p !! k) as [m|] eqn:Em; cbn.
  - rewrite (Hwf k m Em). split.
    + constructor; [|done]. intros Hin. by apply Hk, IHs.
    + intros x [->|Hx]%elem_of_cons; [left|right; by apply IHs].
  - split; [done|]. intros x Hx. right. by apply IHs.
Qed.

Lemma flush_pending_drained now keys others p st p' st' r :
  pending_wf p → NoDup keys → (∀ id, id ∈ keys → apart others id) →
  flush_pending now keys others p st = (p', st', r) →
  flushed others (drain keys p).2 (drain keys p).1 st p' st' r.
Proof.
  intros Hwf Hnd Hap E. destruct (drained_ids keys p Hwf Hnd) as [Hids Hsub].
  assert (∀ id, id ∈ ids (drain keys p).2 → pp_pending (drain keys p).1 !! id = None) as Hnone.
  { intros id Hid. rewrite drain_pending, bool_decide_true; [done|]. by apply Hsub. }
  unfold flush_pending in E. destruct (drain keys p) as [p0 drained]. cbn [fst snd] in *.
  assert (∀ id, id ∈ ids drained → apart others id) as Hapd by (intros id Hid; apply Hap; by apply Hsub).
  pose proof (apply_drained_spec others drained 0 p0 st) as Hspec.
  destruct drained as [|m l]; [by apply Hspec; cbn|].
  destruct (apply_drained others 0 (m :: l) p0 st) as [[p1 st1] r1] eqn:E1.
  specialize (Hspec p1 st1 r1 Hids Hapd Hnone eq_refl).
  destruct r1; inversion E; subst; [|done]. by destruct Hspec; split.
Qed.

(** C23: The copy of the routing hints in the store loses no update, whatever the store
    refuses: when the updates under [keys] are flushed and other tasks leave those
    routes alone meanwhile, each of the routes is, in the updates that wait and the
    table taken together, what it was; no other row is touched, and after a
    success none of the updates waits any more. *)
Theorem flush_loses_nothing (now : Z) (keys : list string) (others : nat → list PromptCacheRouteMutation)
    (p : PromptCachePersistence) (st : St) :
  pending_wf p → NoDup keys → (∀ id, id ∈ keys → apart others id) →
  let '(p', st', r) := flush_pending now keys others p st in
  (∀ id, id ∈ keys →
     visible (route_rows st') (pp_pending p') id = visible (route_rows st) (pp_pending p) id ∧
     ∀ n, r = Ok n → pp_pending p' !! id = None) ∧
  (∀ id, id ∉ keys → route_rows st' !! id = route_rows st !! id).
Proof.
  intros Hwf Hnd Hap. destruct (flush_pending now keys others p st) as [[p' st'] r] eqn:E.
  destruct (flush_pending_drained _ _ _ _ _ _ _ _ Hwf Hnd Hap E) as [Hv Hr Hp Ha].
  pose proof (drained_in keys p) as Hin. destruct (drained_ids keys p Hwf Hnd) as [_ Hsub]. split.
  - intros id Hid. destruct (pp_pending p !! id) as [m|] eqn:Em.
    + pose proof (Hwf _ _ Em) as Hm. subst id.
      assert (m ∈ (drain keys p).2) as Hd by (by apply Hin). split.
      * rewrite Hv by done. unfold visible. by rewrite Em.
      * intros n Hn. apply (Ha n); [done|]. by apply list_elem_of_fmap_2.
    + assert (id ∉ ids (drain keys p).2) as Hnot.
      { intros [m [-> Hd]]%list_elem_of_fmap. apply Hin in Hd as [_ Hd]; [|done]. congruence. }
      assert (pp_pending p' !! id = None) as Hp'
        by (rewrite Hp, drain_pending, bool_decide_true by (done || by apply Hap); done).
      split; [|done]. unfold visible. by rewrite Hp', Em, Hr.
  - intros id Hid. apply Hr. intros Hd. by apply Hid, Hsub.
Qed.

End flush.

(** ** Runs *)

Module PromptCacheDemo.

#[export] Instance demo_digest : TokenDigest := λ s, "digest of " +:+ s.

Definition meta (provider : string) : PromptCacheRequestMeta := {|
  pq_project_id := "p"; pq_provider_name := provider; pq_protocol := Some PcOpenAi; pq_opt_in_requested := true;
  pq_routing_cache_key := Some "k"; pq_routing_ttl_secs := Some 300%Z |}.

Definition usage (provider outcome : string) (read : Z) : PromptCacheUsage := {|
  pu_provider_name := provider; pu_protocol := "openai"; pu_read_tokens := read; pu_write_tokens := 0%Z;
  pu_outcome := outcome |}.

Definition at_time (now : Z) : nat → Z := λ _, now.

(** One provider serves the prompt, another misses it, and the first misses it. *)
Definition history : list Observation :=
  [{| ob_clk := at_time 1000; ob_meta := meta "a"; ob_usage := usage "a" "hit" 10 |};
   {| ob_clk := at_time 2000; ob_meta := meta "b"; ob_usage := usage "b" "miss" 0 |};
   {| ob_clk := at_time 3000; ob_meta := meta "a"; ob_usage := usage "a" "miss" 0 |}].

Lemma memory_answers_as_the_log_witness :
  (memory_affinity (at_time 4000) "p" "k" ["a"; "b"] (foldl observe ∅ history)).2 =
  affinity_of (at_time 4000) ["a"; "b"] (cleaned 4000 (state_at (foldl log_step ∅ history) (composite_key "p" "k"))).
Proof.
  apply (memory_answers_as_the_log 0 history (at_time 4000) "p" "k" ["a"; "b"]); [|vm_compute; discriminate].
  vm_compute. repeat split; discriminate.
Defined.

(** A row of the table, and an update of it that waits. *)
Definition row (provider : string) (observed : Z) : PromptCacheRouteRecord := {|
  rr_route_id := "r"; rr_project_id := "p"; rr_cache_key := "k"; rr_provider_name := provider; rr_signal_kind := "warm";
  rr_signal_strength := f64_of_Z 1; rr_observed_at_ms := observed; rr_expires_at_ms := 900000%Z |}.

Definition waiting : PromptCachePersistence := enqueue (UpsertRoute (row "a" 1000)) (persistence_new 2000 60).

Definition failing_db : RouteDb := {| db_tables := ∅; db_faults := [Some "disk full"] |}.

Lemma flush_loses_nothing_witness :
  let '(p', st', r) := flush_pending 2000 ["r"] (λ _, []) waiting failing_db in
  (∀ id, id ∈ ["r"] →
     visible (route_rows st') (pp_pending p') id = visible (route_rows failing_db) (pp_pending waiting) id ∧
     ∀ n, r = Ok n → pp_pending p' !! id = None) ∧
  (∀ id, id ∉ ["r"] → route_rows st' !! id = route_rows failing_db !! id).
Proof.
  apply (flush_loses_nothing 2000 ["r"] (λ _, []) waiting failing_db).
  - apply enqueue_wf. intros id m Hm. discriminate Hm.
  - apply NoDup_singleton.
  - intros id _ i m Hm. by apply not_elem_of_nil in Hm.
Defined.

(** While the statement that fails is awaited, a newer update of the same route is put
    in; the older one, put in again, takes its place. *)
Theorem failed_flush_undoes_newer_updates :
  let others := λ i, match i with 0 => [UpsertRoute (row "b" 2000)] | _ => [] end in
  let '(p', _, r) := flush_pending 2500 ["r"] others waiting failing_db in
  r = Err (Db "disk full") ∧ pp_pending p' !! "r" = Some (UpsertRoute (row "a" 1000)).
Proof. vm_compute. done. Qed.

End PromptCacheDemo.

(** An answer that reports nothing, an error of the provider say, counts as a miss: the
    provider is no longer warm for the prompt, whatever the status of the answer. *)
Theorem error_answers_count_as_misses `{TokenDigest} `{SerdeJson} `{Http} {S : Type} clk c
    (ctx : RequestContext (H0 := gateway_types S)) meta bytes (resp : Response) k ttl :
  x_prompt_cache (ctx_ext ctx) = Some meta → pq_opt_in_requested meta = true →
  pq_routing_cache_key meta = Some k → pq_routing_ttl_secs meta = Some ttl →
  is_sse (resp_headers resp) = false → collect (resp_body resp) = Some bytes →
  extract_prompt_cache_usage_from_tail meta (bytes_of bytes) = None →
  let c' := (prompt_cache_transform_response clk c ctx resp).1.1 in
  ∀ w, ps_warm (state_at (pm_routing_memory c') (composite_key (pq_project_id meta) k)) = Some w →
    sg_provider_name w ≠ pq_provider_name meta.
Proof.
  intros Hm Hopt Hk Ht Hsse Hb Hu. unfold prompt_cache_transform_response. rewrite Hm, Hsse, Hb, Hu.
  unfold usage_or_miss. rewrite Hopt. cbn [fst]. unfold record_usage, apply_prompt_cache_routing_memory_update.
  rewrite Hk, Ht. cbn [pu_read_tokens pu_write_tokens pu_outcome]. change (0 <? 0)%Z with false. cbn [orb].
  rewrite String.eqb_refl.
  pose proof (forget_warm_at (pq_project_id meta) k (pq_provider_name meta) (pm_routing_memory c)
                (composite_key (pq_project_id meta) k)) as Hf.
  destruct (forget_warm _ _ _ _) as [m1 removed]. cbn [fst] in Hf.
  match goal with |- context [pm_routing_memory ?x] => change (pm_routing_memory x) with
    (remember_negative_until (clk 2) (pq_project_id meta) k (pq_provider_name meta) (f64_of_Z 1) (clk 0)
      (expiry (clk 0) PROMPT_CACHE_NEGATIVE_TTL_SECS) m1) end.
  rewrite remember_negative_until_at, String.eqb_refl, Hf, String.eqb_refl. cbn [ps_warm cleaned].
  destruct (ps_warm (state_at _ _)) as [w|]; cbn; [|done].
  destruct (String.eqb_spec (sg_provider_name w) (pq_provider_name meta)); cbn; [done|].
  destruct (signal_live _ w); cbn; congruence.
Qed.
