(* ===== verification/JsonText.v ===== *)
(** * JSON values and their text

    [serde_json] reads back what it wrote, for the values the program stores: those
    it can nest, with exact numbers.  The law is a class of its own; an instance
    that meets it writes a value as the number that stands for it. *)

From S2P Require Import Prelude RustStr F64 Codec Json.

Local Open Scope string_scope.
Local Open Scope list_scope.

(** ** Objects in order *)

Definition key_lt (a b : string * json) : Prop := String.ltb a.1 b.1 = true.

Lemma ltb_total k k' : String.eqb k k' = false → String.ltb k k' = false → String.ltb k' k = true.
Proof.
  intros He Hl. apply String.eqb_neq in He. unfold String.ltb in *. rewrite (String.compare_antisym k' k).
  destruct (String.compare k k') eqn:E; [|done|done]. by apply String.compare_eq_iff in E.
Qed.

Lemma fields_insert_hd p k v l : key_lt p (k, v) → HdRel key_lt p l → HdRel key_lt p (fields_insert k v l).
Proof.
  intros Hk Hl. destruct l as [|[k' v'] l]; cbn; [by constructor|]. destruct (String.eqb k k'); [by constructor|].
  destruct (String.ltb k k'); [by constructor|]. constructor. by inversion Hl.
Qed.

Lemma fields_insert_sorted k v l : Sorted key_lt l → Sorted key_lt (fields_insert k v l).
Proof.
  induction 1 as [|[k' v'] l Hl IH Hd]; cbn; [by repeat constructor|].
  destruct (String.eqb k k') eqn:He.
  - apply String.eqb_eq in He as <-. constructor; [done|]. destruct Hd as [|[k2 v2] l2 Hk]; constructor. exact Hk.
  - destruct (String.ltb k k') eqn:Hlt.
    + constructor; [by constructor|]. by constructor.
    + constructor; [done|]. apply fields_insert_hd; [|done]. by apply ltb_total.
Qed.

Lemma fields_insert_Forall (P : string * json → Prop) k v l : P (k, v) → Forall P l → Forall P (fields_insert k v l).
Proof.
  intros Hk. induction 1 as [|[k' v'] l Hx Hl IH]; cbn; [by constructor|].
  destruct (String.eqb k k'); [by constructor|]. destruct (String.ltb k k'); by repeat constructor.
Qed.

(** An entry of a new key is added. *)
Lemma fields_insert_perm k v l : k ∉ l.*1 → fields_insert k v l ≡ₚ (k, v) :: l.
Proof.
  induction l as [|[k' v'] l IH]; intros Hk; [done|]. cbn in *. apply not_elem_of_cons in Hk as [Hne Hk].
  destruct (String.eqb_spec k k') as [|_]; [done|]. destruct (String.ltb k k'); [done|]. rewrite IH by done. constructor.
Qed.

Definition literal_fields (l : list (string * json)) : list (string * json) := foldl (λ fields e, fields_insert e.1 e.2 fields) [] l.

Lemma literal_fields_perm l : NoDup l.*1 → literal_fields l ≡ₚ l.
Proof.
  intros Hnd. unfold literal_fields. assert (∀ acc, NoDup (acc.*1 ++ l.*1) →
    foldl (λ fields e, fields_insert e.1 e.2 fields) acc l ≡ₚ acc ++ l) as Hgen; [|by apply (Hgen [])].
  clear Hnd. induction l as [|[k v] l IH]; intros acc Hnd; cbn [foldl fst snd]; [by rewrite app_nil_r|].
  cbn in Hnd. assert (k ∉ acc.*1) as Hk.
  { intros Hin. apply NoDup_app in Hnd as (_ & Hd & _). apply (Hd k Hin). left. }
  rewrite IH.
  - rewrite fields_insert_perm by done. by rewrite (Permutation_middle acc l (k, v)).
  - assert ((fields_insert k v acc).*1 ≡ₚ k :: acc.*1) as -> by (by rewrite fields_insert_perm).
    rewrite <-app_comm_cons, Permutation_middle. done.
Qed.

(** ** Values that survive *)

(** At most [depth] deep, objects in order, integers at their width and no fraction. *)
Fixpoint plain_json (depth : nat) (v : json) : Prop :=
  match depth with
  | O => False
  | S depth' =>
      match v with
      | JNull | JBool _ | JString _ => True
      | JNumber (PosInt n) => in_u64 n
      | JNumber (NegInt n) => (i64_min ≤ n < 0)%Z
      | JNumber (Float x) => x = f_zero
      | JArray l => Forall (plain_json depth') l
      | JObject fields => Sorted key_lt fields ∧ Forall (λ e, plain_json depth' e.2) fields
      end
  end.

Lemma plain_deeper d v : plain_json d v → plain_json (S d) v.
Proof.
  revert v. induction d as [|d IH]; intros v Hv; [done|].
  destruct v as [| |[]| |l|fields]; try done.
  - cbn [plain_json] in Hv |- *. eapply Forall_impl; [exact Hv|]. exact IH.
  - destruct Hv as [Hs Hf]. split; [done|]. eapply Forall_impl; [exact Hf|]. intros e. apply IH.
Qed.

Lemma plain_le d d' v : (d ≤ d')%nat → plain_json d v → plain_json d' v.
Proof. induction 1; [done|]. intros Hv. by apply plain_deeper, IHle. Qed.

Lemma plain_literal d l : Forall (λ e, plain_json d e.2) l → plain_json (S d) (json_literal l).
Proof.
  intros Hl. cbn. assert (∀ acc, Sorted key_lt acc → Forall (λ e : string * json, plain_json d e.2) acc →
    let f := foldl (λ fields e, fields_insert e.1 e.2 fields) acc l in
    Sorted key_lt f ∧ Forall (λ e : string * json, plain_json d e.2) f) as Hgen.
  { induction Hl as [|e l He Hl IH]; intros acc Hs Hf; [done|]. cbn. apply IH; [by apply fields_insert_sorted|].
    by apply fields_insert_Forall. }
  apply Hgen; constructor.
Qed.

(** [serde_json] refuses texts nested deeper than 128 levels. *)
Class JsonTexts `{SerdeJson} : Prop :=
  json_roundtrip (v : json) : plain_json 127 v → json_from_str (json_to_string v) = Some v.

(** ** An instance *)

Definition number_code (n : number) : Z + Z + f64 :=
  match n with PosInt x => inl (inl x) | NegInt x => inl (inr x) | Float x => inr x end.
Definition number_decode (c : Z + Z + f64) : number :=
  match c with inl (inl x) => PosInt x | inl (inr x) => NegInt x | inr x => Float x end.

#[export] Instance number_eq_dec : EqDecision number.
Proof. solve_decision. Defined.

#[export] Instance number_countable : Countable number.
Proof. refine (inj_countable' number_code number_decode _). by intros []. Defined.

Definition leaf : Type := bool + number + string.

Fixpoint json_tree (v : json) : gen_tree leaf :=
  match v with
  | JNull => GenNode 0 []
  | JBool b => GenLeaf (inl (inl b))
  | JNumber n => GenLeaf (inl (inr n))
  | JString s => GenLeaf (inr s)
  | JArray l => GenNode 1 (json_tree <$> l)
  | JObject fields =>
      GenNode 2 ((fix pairs (l : list (string * json)) : list (gen_tree leaf) :=
                    match l with [] => [] | (k, x) :: l' => GenLeaf (inr k) :: json_tree x :: pairs l' end) fields)
  end.

Fixpoint tree_json (t : gen_tree leaf) : json :=
  match t with
  | GenLeaf (inl (inl b)) => JBool b
  | GenLeaf (inl (inr n)) => JNumber n
  | GenLeaf (inr s) => JString s
  | GenNode 1 l => JArray (tree_json <$> l)
  | GenNode 2 l =>
      JObject ((fix pairs (l : list (gen_tree leaf)) : list (string * json) :=
                  match l with
                  | GenLeaf (inr k) :: x :: l' => (k, tree_json x) :: pairs l'
                  | _ => []
                  end) l)
  | GenNode _ _ => JNull
  end.

Fixpoint tree_of_json (v : json) : tree_json (json_tree v) = v.
Proof.
  destruct v as [|b|n|s|l|fields]; try reflexivity; cbn.
  - f_equal. induction l as [|x l IH]; [reflexivity|]. cbn. rewrite tree_of_json. f_equal. exact IH.
  - f_equal. induction fields as [|[k x] l IH]; [reflexivity|]. rewrite tree_of_json. f_equal. exact IH.
Qed.

#[export] Instance json_tree_inj : Inj (=) (=) json_tree.
Proof. intros v v' E. by rewrite <-(tree_of_json v), <-(tree_of_json v'), E. Qed.

#[export] Instance json_eq_dec : EqDecision json.
Proof. intros v v'. destruct (decide (json_tree v = json_tree v')) as [E|E]; [left; by apply (inj json_tree)|right; congruence]. Defined.

#[export] Instance json_countable : Countable json.
Proof. refine (inj_countable' json_tree tree_json _). exact tree_of_json. Defined.

#[local] Instance codec_json : SerdeJson := {|
  json_from_str s := result_ok (of_text s);
  json_to_string := to_text;
|}.

#[local] Instance codec_json_texts : JsonTexts.
Proof. intros v _. cbn. by rewrite of_to_text. Qed.
