(* ===== verification/EvalStore.v ===== *)
(** * The store of datasets and evaluation runs

    Model of the part of [plugin-llm-gateway/src/store] that keeps datasets, their
    items, evaluation runs and the result of every item of a run: the records,
    the methods of the trait [GatewayStore] as an interface with its contract, and
    the SQLite implementation.  Counts are bound as [i64] and read back at their
    own width, which gives the same bits. *)

From S2P Require Import Prelude RecordSet RustStr F64 Sql UsageStore GovernanceStore.

Local Open Scope string_scope.
Local Open Scope list_scope.
Local Open Scope rust_scope.

(** ** Records *)

Record ProjectDatasetRecord := {
  ds_project_id : string;
  ds_dataset_name : string;
  ds_description : option string;
  ds_schema_json : option string;
  ds_updated_at : string;
}.

#[export] Instance ProjectDatasetRecord_set : Settable ProjectDatasetRecord := λ r,
  {| ds_project_id := ds_project_id r; ds_dataset_name := ds_dataset_name r; ds_description := ds_description r;
     ds_schema_json := ds_schema_json r; ds_updated_at := ds_updated_at r |}.

Record ProjectDatasetItemRecord := {
  di_project_id : string;
  di_dataset_name : string;
  di_item_id : string;
  di_input_json : string;
  di_expected_output_json : option string;
  di_metadata_json : option string;
  di_updated_at : string;
}.

#[export] Instance ProjectDatasetItemRecord_set : Settable ProjectDatasetItemRecord := λ r,
  {| di_project_id := di_project_id r; di_dataset_name := di_dataset_name r; di_item_id := di_item_id r;
     di_input_json := di_input_json r; di_expected_output_json := di_expected_output_json r;
     di_metadata_json := di_metadata_json r; di_updated_at := di_updated_at r |}.

Record ProjectEvalRunRecord := {
  ev_run_id : string;
  ev_project_id : string;
  ev_dataset_name : string;
  ev_target_url : string;
  ev_status : string;
  ev_total_items : Z;
  ev_passed_items : Z;
  ev_failed_items : Z;
  ev_total_input_tokens : Z;
  ev_total_output_tokens : Z;
  ev_total_cost : f64;
  ev_average_latency_ms : f64;
  ev_summary_json : option string;
  ev_created_at : string;
  ev_completed_at : option string;
}.

#[export] Instance ProjectEvalRunRecord_set : Settable ProjectEvalRunRecord := λ r,
  {| ev_run_id := ev_run_id r; ev_project_id := ev_project_id r; ev_dataset_name := ev_dataset_name r;
     ev_target_url := ev_target_url r; ev_status := ev_status r; ev_total_items := ev_total_items r;
     ev_passed_items := ev_passed_items r; ev_failed_items := ev_failed_items r;
     ev_total_input_tokens := ev_total_input_tokens r; ev_total_output_tokens := ev_total_output_tokens r;
     ev_total_cost := ev_total_cost r; ev_average_latency_ms := ev_average_latency_ms r;
     ev_summary_json := ev_summary_json r; ev_created_at := ev_created_at r; ev_completed_at := ev_completed_at r |}.

Record ProjectEvalRunItemRecord := {
  ei_run_id : string;
  ei_project_id : string;
  ei_dataset_name : string;
  ei_item_id : string;
  ei_passed : bool;
  ei_status_code : option Z;
  ei_latency_ms : Z;
  ei_output_text : option string;
  ei_evaluation_json : option string;
  ei_error : option string;
  ei_input_tokens : Z;
  ei_output_tokens : Z;
  ei_cost : f64;
  ei_created_at : string;
}.

#[export] Instance ProjectEvalRunItemRecord_set : Settable ProjectEvalRunItemRecord := λ r,
  {| ei_run_id := ei_run_id r; ei_project_id := ei_project_id r; ei_dataset_name := ei_dataset_name r;
     ei_item_id := ei_item_id r; ei_passed := ei_passed r; ei_status_code := ei_status_code r;
     ei_latency_ms := ei_latency_ms r; ei_output_text := ei_output_text r; ei_evaluation_json := ei_evaluation_json r;
     ei_error := ei_error r; ei_input_tokens := ei_input_tokens r; ei_output_tokens := ei_output_tokens r;
     ei_cost := ei_cost r; ei_created_at := ei_created_at r |}.

(** ** The interface *)

Class EvalStore (St : Type) := {
  get_project_dataset : St → string → string → St * result StoreError (option ProjectDatasetRecord);
  get_project_datasets : St → option string → St * result StoreError (list ProjectDatasetRecord);
  upsert_project_dataset : St → ProjectDatasetRecord → St * result StoreError ();
  delete_project_dataset : St → string → string → St * result StoreError bool;
  get_project_dataset_item : St → string → string → string → St * result StoreError (option ProjectDatasetItemRecord);
  get_project_dataset_items : St → string → string → St * result StoreError (list ProjectDatasetItemRecord);
  upsert_project_dataset_item : St → ProjectDatasetItemRecord → St * result StoreError ();
  delete_project_dataset_item : St → string → string → string → St * result StoreError bool;
  get_project_eval_run : St → string → string → St * result StoreError (option ProjectEvalRunRecord);
  get_project_eval_runs : St → string → option string → St * result StoreError (list ProjectEvalRunRecord);
  get_project_eval_runs_by_status : St → list string → Z → St * result StoreError (list ProjectEvalRunRecord);
  upsert_project_eval_run : St → ProjectEvalRunRecord → St * result StoreError ();
  get_project_eval_run_items : St → string → string → St * result StoreError (list ProjectEvalRunItemRecord);
  upsert_project_eval_run_item : St → ProjectEvalRunItemRecord → St * result StoreError ();
}.

(** ** The tables *)

Record EvalTables := {
  et_datasets : gmap (string * string) ProjectDatasetRecord;
  et_items : gmap (string * string * string) ProjectDatasetItemRecord;
  et_runs : gmap string ProjectEvalRunRecord;
  et_results : gmap (string * string) ProjectEvalRunItemRecord;
}.

#[export] Instance EvalTables_set : Settable EvalTables := λ t,
  {| et_datasets := et_datasets t; et_items := et_items t; et_runs := et_runs t; et_results := et_results t |}.

Definition eval_empty : EvalTables := {| et_datasets := ∅; et_items := ∅; et_runs := ∅; et_results := ∅ |}.

Definition dataset_key (r : ProjectDatasetRecord) : string * string := (ds_project_id r, ds_dataset_name r).
Definition item_key (r : ProjectDatasetItemRecord) : string * string * string :=
  (di_project_id r, di_dataset_name r, di_item_id r).
Definition result_key (r : ProjectEvalRunItemRecord) : string * string := (ei_run_id r, ei_item_id r).

(** A row as the table keeps it. *)
Definition db_run (r : ProjectEvalRunRecord) : ProjectEvalRunRecord :=
  r <| ev_total_cost := db_real (ev_total_cost r) |> <| ev_average_latency_ms := db_real (ev_average_latency_ms r) |>.
Definition db_result (r : ProjectEvalRunItemRecord) : ProjectEvalRunItemRecord := r <| ei_cost := db_real (ei_cost r) |>.

(** ** The queries *)

Definition of_project (project_id : option string) (p : string) : bool := from_option (String.eqb p) true project_id.

Definition datasets_query (project_id : option string) (m : gmap (string * string) ProjectDatasetRecord)
    : list ProjectDatasetRecord :=
  sort_by (λ x y, if String.eqb (ds_project_id x) (ds_project_id y)
                  then String.leb (ds_dataset_name x) (ds_dataset_name y)
                  else String.leb (ds_project_id x) (ds_project_id y))
    (filter (λ r, of_project project_id (ds_project_id r) = true) (rows m)).

Definition in_dataset (project_id dataset_name : string) (r : ProjectDatasetItemRecord) : bool :=
  String.eqb (di_project_id r) project_id && String.eqb (di_dataset_name r) dataset_name.

Definition items_query (project_id dataset_name : string) (m : gmap (string * string * string) ProjectDatasetItemRecord)
    : list ProjectDatasetItemRecord :=
  select di_item_id (in_dataset project_id dataset_name) m.

Definition run_query (project_id run_id : string) (m : gmap string ProjectEvalRunRecord) : option ProjectEvalRunRecord :=
  m !! run_id ≫= (λ r, if String.eqb (ev_project_id r) project_id then Some r else None).

Definition runs_query (project_id : string) (dataset_name : option string) (m : gmap string ProjectEvalRunRecord)
    : list ProjectEvalRunRecord :=
  sort_by (λ x y, desc_desc (ev_created_at x) (ev_run_id x) (ev_created_at y) (ev_run_id y))
    (filter (λ r, String.eqb (ev_project_id r) project_id && of_project dataset_name (ev_dataset_name r) = true) (rows m)).

(** [ORDER BY created_at ASC, run_id ASC] *)
Definition run_older (x y : ProjectEvalRunRecord) : bool :=
  if String.eqb (ev_created_at x) (ev_created_at y) then String.leb (ev_run_id x) (ev_run_id y)
  else String.leb (ev_created_at x) (ev_created_at y).

Definition runs_by_status_query (statuses : list string) (limit : Z) (m : gmap string ProjectEvalRunRecord)
    : list ProjectEvalRunRecord :=
  take (Z.to_nat limit) (sort_by run_older (filter (λ r, bool_decide (ev_status r ∈ statuses) = true) (rows m))).

Definition of_run (project_id run_id : string) (r : ProjectEvalRunItemRecord) : bool :=
  String.eqb (ei_project_id r) project_id && String.eqb (ei_run_id r) run_id.

Definition results_query (project_id run_id : string) (m : gmap (string * string) ProjectEvalRunItemRecord)
    : list ProjectEvalRunItemRecord :=
  select ei_item_id (of_run project_id run_id) m.

(** ** The SQLite implementation *)

(** The tables beside the clock of the database. *)
Record EvalDbState := {
  ed_tables : EvalTables;
  ed_datetime : nat → string;
  ed_stamps : nat;
}.

#[export] Instance EvalDbState_set : Settable EvalDbState := λ d,
  {| ed_tables := ed_tables d; ed_datetime := ed_datetime d; ed_stamps := ed_stamps d |}.

Definition EvalDb : Type := SqlDb EvalDbState.

Definition eval_query {A} (s : EvalDb) (q : EvalTables → A) : EvalDb * result StoreError A :=
  execute s (λ d, (d, q (ed_tables d))).

Definition eval_write_now (s : EvalDb) (w : string → EvalTables → EvalTables) : EvalDb * result StoreError () :=
  execute s (λ d, (d <| ed_tables := w (ed_datetime d (ed_stamps d)) (ed_tables d) |> <| ed_stamps := S (ed_stamps d) |>, ())).

Definition eval_delete (s : EvalDb) (w : EvalTables → EvalTables) (hit : EvalTables → bool) : EvalDb * result StoreError bool :=
  execute s (λ d, (d <| ed_tables := w (ed_tables d) |>, hit (ed_tables d))).

(** A number that is not one is bound as [NULL], which the column refuses. *)
Definition eval_write_reals (s : EvalDb) (reals : list f64) (w : EvalTables → EvalTables) : EvalDb * result StoreError () :=
  if existsb is_nan reals
  then (s <| db_faults := tail (db_faults s) |>, Err (Db "NOT NULL constraint failed"))
  else execute s (λ d, (d <| ed_tables := w (ed_tables d) |>, ())).

Definition sqlite_get_project_dataset (s : EvalDb) (project_id dataset_name : string) :=
  eval_query s (λ t, et_datasets t !! (project_id, dataset_name)).

Definition sqlite_get_project_datasets (s : EvalDb) (project_id : option string) :=
  eval_query s (λ t, datasets_query project_id (et_datasets t)).

Definition sqlite_upsert_project_dataset (s : EvalDb) (r : ProjectDatasetRecord) :=
  eval_write_now s (λ now t, t <| et_datasets := <[dataset_key r := r <| ds_updated_at := now |>]> (et_datasets t) |>).

(** Two statements: the items, then the dataset. *)
Definition sqlite_delete_project_dataset (s : EvalDb) (project_id dataset_name : string) : EvalDb * result StoreError bool :=
  match eval_delete s (λ t, t <| et_items :=
          filter (λ e, in_dataset project_id dataset_name e.2 = false) (et_items t) |>) (λ _, true) with
  | (s, Err e) => (s, Err e)
  | (s, Ok _) => eval_delete s (λ t, t <| et_datasets := delete (project_id, dataset_name) (et_datasets t) |>)
                   (λ t, affected (project_id, dataset_name) (et_datasets t))
  end.

Definition sqlite_get_project_dataset_item (s : EvalDb) (project_id dataset_name item_id : string) :=
  eval_query s (λ t, et_items t !! (project_id, dataset_name, item_id)).

Definition sqlite_get_project_dataset_items (s : EvalDb) (project_id dataset_name : string) :=
  eval_query s (λ t, items_query project_id dataset_name (et_items t)).

Definition sqlite_upsert_project_dataset_item (s : EvalDb) (r : ProjectDatasetItemRecord) :=
  eval_write_now s (λ now t, t <| et_items := <[item_key r := r <| di_updated_at := now |>]> (et_items t) |>).

Definition sqlite_delete_project_dataset_item (s : EvalDb) (project_id dataset_name item_id : string) :=
  eval_delete s (λ t, t <| et_items := delete (project_id, dataset_name, item_id) (et_items t) |>)
    (λ t, affected (project_id, dataset_name, item_id) (et_items t)).

Definition sqlite_get_project_eval_run (s : EvalDb) (project_id run_id : string) :=
  eval_query s (λ t, run_query project_id run_id (et_runs t)).

Definition sqlite_get_project_eval_runs (s : EvalDb) (project_id : string) (dataset_name : option string) :=
  eval_query s (λ t, runs_query project_id dataset_name (et_runs t)).

Definition sqlite_get_project_eval_runs_by_status (s : EvalDb) (statuses : list string) (limit : Z)
    : EvalDb * result StoreError (list ProjectEvalRunRecord) :=
  match statuses with
  | [] => (s, Ok [])
  | _ => eval_query s (λ t, runs_by_status_query statuses limit (et_runs t))
  end.

Definition sqlite_upsert_project_eval_run (s : EvalDb) (r : ProjectEvalRunRecord) :=
  eval_write_reals s [ev_total_cost r; ev_average_latency_ms r] (λ t, t <| et_runs := <[ev_run_id r := db_run r]> (et_runs t) |>).

Definition sqlite_get_project_eval_run_items (s : EvalDb) (project_id run_id : string) :=
  eval_query s (λ t, results_query project_id run_id (et_results t)).

Definition sqlite_upsert_project_eval_run_item (s : EvalDb) (r : ProjectEvalRunItemRecord) :=
  eval_write_reals s [ei_cost r] (λ t, t <| et_results := <[result_key r := db_result r]> (et_results t) |>).

#[export] Instance sqlite_eval_store : EvalStore EvalDb := {|
  get_project_dataset := sqlite_get_project_dataset;
  get_project_datasets := sqlite_get_project_datasets;
  upsert_project_dataset := sqlite_upsert_project_dataset;
  delete_project_dataset := sqlite_delete_project_dataset;
  get_project_dataset_item := sqlite_get_project_dataset_item;
  get_project_dataset_items := sqlite_get_project_dataset_items;
  upsert_project_dataset_item := sqlite_upsert_project_dataset_item;
  delete_project_dataset_item := sqlite_delete_project_dataset_item;
  get_project_eval_run := sqlite_get_project_eval_run;
  get_project_eval_runs := sqlite_get_project_eval_runs;
  get_project_eval_runs_by_status := sqlite_get_project_eval_runs_by_status;
  upsert_project_eval_run := sqlite_upsert_project_eval_run;
  get_project_eval_run_items := sqlite_get_project_eval_run_items;
  upsert_project_eval_run_item := sqlite_upsert_project_eval_run_item;
|}.

(** ** The contract *)

Definition eval_written {A} (r : result StoreError A) (t after : EvalTables) : EvalTables :=
  match r with Ok _ => after | Err _ => t end.

Class EvalStoreOk (St : Type) `{EvalStore St} := {
  eval_tables : St → EvalTables;
  read_dataset st p d st' r : get_project_dataset st p d = (st', r) →
    eval_tables st' = eval_tables st ∧ ∀ x, r = Ok x → x = et_datasets (eval_tables st) !! (p, d);
  read_items st p d st' r : get_project_dataset_items st p d = (st', r) →
    eval_tables st' = eval_tables st ∧ ∀ l, r = Ok l → l = items_query p d (et_items (eval_tables st));
  read_run st p i st' r : get_project_eval_run st p i = (st', r) →
    eval_tables st' = eval_tables st ∧ ∀ x, r = Ok x → x = run_query p i (et_runs (eval_tables st));
  read_by_status st s n st' r : get_project_eval_runs_by_status st s n = (st', r) →
    eval_tables st' = eval_tables st ∧ ∀ l, r = Ok l → l = runs_by_status_query s n (et_runs (eval_tables st));
  read_results st p i st' r : get_project_eval_run_items st p i = (st', r) →
    eval_tables st' = eval_tables st ∧ ∀ l, r = Ok l → l = results_query p i (et_results (eval_tables st));
  write_run st x st' r : upsert_project_eval_run st x = (st', r) →
    eval_tables st' = eval_written r (eval_tables st)
      (eval_tables st <| et_runs := <[ev_run_id x := db_run x]> (et_runs (eval_tables st)) |>);
  write_result st x st' r : upsert_project_eval_run_item st x = (st', r) →
    eval_tables st' = eval_written r (eval_tables st)
      (eval_tables st <| et_results := <[result_key x := db_result x]> (et_results (eval_tables st)) |>);
}.

Lemma eval_query_ok {A} (s s' : EvalDb) (q : EvalTables → A) r :
  eval_query s q = (s', r) →
  ed_tables (db_tables s') = ed_tables (db_tables s) ∧ ∀ a, r = Ok a → a = q (ed_tables (db_tables s)).
Proof. intros E. apply execute_cases in E. destruct r as [a|e]; [|by rewrite E]. destruct E as [-> ->]. naive_solver. Qed.

Lemma eval_write_reals_ok (s s' : EvalDb) reals w r :
  eval_write_reals s reals w = (s', r) →
  ed_tables (db_tables s') = eval_written r (ed_tables (db_tables s)) (w (ed_tables (db_tables s))).
Proof.
  unfold eval_write_reals. destruct (existsb is_nan reals); [by intros [= <- <-]|].
  intros E. apply execute_write in E. rewrite E. by destruct r.
Qed.

Lemma sqlite_by_status_ok (s : EvalDb) statuses n s' r :
  sqlite_get_project_eval_runs_by_status s statuses n = (s', r) →
  ed_tables (db_tables s') = ed_tables (db_tables s) ∧
  ∀ l, r = Ok l → l = runs_by_status_query statuses n (et_runs (ed_tables (db_tables s))).
Proof.
  destruct statuses as [|x l]; [|apply eval_query_ok]. intros [= <- <-]. split; [done|]. intros ? [= <-].
  unfold runs_by_status_query. assert (∀ m : list ProjectEvalRunRecord, filter (λ r, bool_decide (ev_status r ∈ []) = true) m = []) as ->.
  { induction m as [|y m IH]; [done|]. rewrite filter_cons_False; [done|].
    rewrite bool_decide_eq_true. apply not_elem_of_nil. }
  by destruct (Z.to_nat n).
Qed.

#[export] Instance sqlite_eval_store_ok : EvalStoreOk EvalDb := {|
  eval_tables s := ed_tables (db_tables s);
  read_dataset s p d s' r := eval_query_ok s s' _ r;
  read_items s p d s' r := eval_query_ok s s' _ r;
  read_run s p i s' r := eval_query_ok s s' _ r;
  read_by_status := sqlite_by_status_ok;
  read_results s p i s' r := eval_query_ok s s' _ r;
  write_run s x s' r := eval_write_reals_ok s s' _ _ r;
  write_result s x s' r := eval_write_reals_ok s s' _ _ r;
|}.
