(* ===== verification/Evals.v ===== *)
(** * Evaluation runs

    Model of [plugin-llm-gateway/src/evals.rs]: a run sends every item of a dataset to
    a target, checks the answers against what the item expects, by matchers and
    by a judge, and keeps the results; two runs are compared and a gate decides on
    the comparison.  The HTTP client, [serde_json], the regex crate and the case
    tables of Unicode are interfaces. *)

From S2P Require Import Prelude RecordSet StateResult RustStr F64 Json Sql Regex Http Management Providers CostTracker EvalStore.

Local Open Scope string_scope.
Local Open Scope list_scope.
Local Open Scope rust_scope.

(** ** Data *)

(** Timeouts are in milliseconds. *)
Record ProjectEvalRunRequest := {
  rq_dataset_name : string;
  rq_target_url : string;
  rq_headers : gmap string string;
  rq_timeout_ms : option Z;
  rq_judge_url : option string;
  rq_judge_kind : option string;
  rq_judge_model : option string;
  rq_judge_headers : gmap string string;
  rq_judge_timeout_ms : option Z;
  rq_prompt_name : option string;
  rq_prompt_version : option string;
  rq_provider_name : option string;
  rq_model : option string;
  rq_route_path : option string;
  rq_safety_profile : option string;
}.

Record ProjectEvalRunExecution := {
  ex_run : ProjectEvalRunRecord;
  ex_items : list ProjectEvalRunItemRecord;
}.

Record ProjectEvalRunComparisonSummary := {
  sm_baseline_pass_rate : f64;
  sm_candidate_pass_rate : f64;
  sm_delta_pass_rate : f64;
  sm_baseline_average_latency_ms : f64;
  sm_candidate_average_latency_ms : f64;
  sm_delta_average_latency_ms : f64;
  sm_baseline_total_cost : f64;
  sm_candidate_total_cost : f64;
  sm_delta_total_cost : f64;
  sm_improved_items : Z;
  sm_regressed_items : Z;
  sm_unchanged_items : Z;
}.

Inductive ProjectEvalRunComparisonGatePreset := Strict | Balanced | Exploratory.

Record ProjectEvalRunComparisonGateRequest := {
  gr_preset : option ProjectEvalRunComparisonGatePreset;
  gr_max_regressions : option Z;
  gr_min_candidate_pass_rate : option f64;
  gr_min_pass_rate_delta : option f64;
  gr_max_latency_increase_ms : option f64;
  gr_max_cost_increase : option f64;
}.

#[export] Instance GateRequest_set : Settable ProjectEvalRunComparisonGateRequest := λ r,
  {| gr_preset := gr_preset r; gr_max_regressions := gr_max_regressions r;
     gr_min_candidate_pass_rate := gr_min_candidate_pass_rate r; gr_min_pass_rate_delta := gr_min_pass_rate_delta r;
     gr_max_latency_increase_ms := gr_max_latency_increase_ms r; gr_max_cost_increase := gr_max_cost_increase r |}.

Record ProjectEvalRunComparisonContext := {
  cx_baseline : json;
  cx_candidate : json;
  cx_changed_fields : list string;
}.

Inductive ProjectEvalRunRolloutAction := Promote | Canary | Review | Hold.

Record ProjectEvalRunRolloutRecommendation := {
  rc_action : ProjectEvalRunRolloutAction;
  rc_summary : string;
  rc_changed_context_fields : list string;
}.

Record ProjectEvalRunComparisonGate := {
  ga_passed : bool;
  ga_reasons : list string;
  ga_preset : option ProjectEvalRunComparisonGatePreset;
  ga_thresholds : ProjectEvalRunComparisonGateRequest;
  ga_recommendation : ProjectEvalRunRolloutRecommendation;
}.

Record ProjectEvalRunItemComparison := {
  ic_item_id : string;
  ic_baseline_passed : option bool;
  ic_candidate_passed : option bool;
  ic_improved : bool;
  ic_regressed : bool;
  ic_changed : bool;
  ic_baseline_output_text : option string;
  ic_candidate_output_text : option string;
  ic_baseline_evaluation_json : option string;
  ic_candidate_evaluation_json : option string;
}.

Record ProjectEvalRunComparison := {
  cp_baseline_run : ProjectEvalRunRecord;
  cp_candidate_run : ProjectEvalRunRecord;
  cp_summary : ProjectEvalRunComparisonSummary;
  cp_context : ProjectEvalRunComparisonContext;
  cp_items : list ProjectEvalRunItemComparison;
  cp_gate : option ProjectEvalRunComparisonGate;
}.

Inductive JudgeMode := JudgeWebhook | JudgeOpenAi | JudgeAnthropic.

Record ExtractedUsage := {
  xu_input_tokens : Z;
  xu_output_tokens : Z;
  xu_cost : f64;
}.

Record EvalOutcome := {
  oc_passed : bool;
  oc_evaluation_json : option string;
  oc_output_text : option string;
  oc_status_code : option Z;
  oc_error : option string;
  oc_input_tokens : Z;
  oc_output_tokens : Z;
  oc_cost : f64;
  oc_latency_ms : Z;
}.

Record JudgeExpectation := {
  je_rubric : string;
  je_min_score : option f64;
  je_require_passed : bool;
}.

(** What the boxed error of a call was made from. *)
Inductive EvalError :=
| EvalMessage (message : string)
| InvalidHeaderName
| InvalidHeaderValue
| InvalidUri
| EvalStoreError (e : StoreError).

(** ** Values *)

Definition number_eqb (a b : number) : bool :=
  match a, b with
  | PosInt x, PosInt y | NegInt x, NegInt y => (x =? y)%Z
  | Float x, Float y => f_eq x y
  | _, _ => false
  end.

(** [==] of values. *)
Fixpoint json_eqb (a b : json) : bool :=
  match a, b with
  | JNull, JNull => true
  | JBool x, JBool y => eqb x y
  | JNumber x, JNumber y => number_eqb x y
  | JString x, JString y => String.eqb x y
  | JArray l, JArray l' =>
      (fix all (l l' : list json) : bool :=
         match l, l' with
         | [], [] => true
         | x :: l, y :: l' => json_eqb x y && all l l'
         | _, _ => false
         end) l l'
  | JObject l, JObject l' =>
      (fix all (l l' : list (string * json)) : bool :=
         match l, l' with
         | [], [] => true
         | (k, x) :: l, (k', y) :: l' => String.eqb k k' && json_eqb x y && all l l'
         | _, _ => false
         end) l l'
  | _, _ => false
  end.

Definition opt_json_eqb (a b : option json) : bool :=
  match a, b with
  | Some x, Some y => json_eqb x y
  | None, None => true
  | _, _ => false
  end.

Definition json_strings (l : list string) : json := JArray (JString <$> l).

Definition opt_f64_json (o : option f64) : json := from_option json_of_f64 JNull o.

Definition opt_bool_json (o : option bool) : json := from_option JBool JNull o.

(** [json!] of a map of texts. *)
Definition json_of_map (m : gmap string string) : json := json_literal (prod_map id JString <$> map_to_list m).

Definition fields_get (k : string) (fields : list (string * json)) : option json := json_get (JObject fields) k.

Definition non_empty (s : string) : option string := if String.eqb s "" then None else Some s.

(** [choices[0].message.content] *)
Definition first_choice (v : json) : option json := (json_get v "choices" ≫= json_array) ≫= (λ l : list json, head l).

Definition choice_content (v : json) : option json :=
  (first_choice v ≫= (λ c, json_get c "message")) ≫= (λ m, json_get m "content").

Definition value_to_text (v : json) : option string :=
  match v with
  | JString text => Some text
  | JArray items =>
      match filter_map (λ item, match item with
        | JString text => Some text
        | JObject _ => json_get item "text" ≫= json_str
        | _ => None
        end) items with
      | [] => None
      | segments => Some (join (String "010" "") segments)
      end
  | JObject _ => json_get v "text" ≫= json_str
  | _ => None
  end.

Definition extract_output_text (v : json) : option string :=
  match choice_content v with
  | Some content => value_to_text content
  | None =>
      match (first_choice v ≫= (λ c, json_get c "text")) ≫= json_str with
      | Some text => Some text
      | None =>
          match json_get v "content" with
          | Some content => value_to_text content
          | None => json_get v "output_text" ≫= json_str
          end
      end
  end.

Definition extract_u64 (v : option json) : option Z :=
  v ≫= (λ v, or_else (json_u64 v) (json_i64 v ≫= (λ n, if (0 <=? n)%Z then Some n else None))).

Definition extract_usage (v : json) : ExtractedUsage :=
  let usage := default JNull (json_get v "usage") in
  {| xu_input_tokens := default 0%Z (or_else (extract_u64 (json_get usage "prompt_tokens")) (extract_u64 (json_get usage "input_tokens")));
     xu_output_tokens := default 0%Z (or_else (extract_u64 (json_get usage "completion_tokens")) (extract_u64 (json_get usage "output_tokens")));
     xu_cost := default f_zero (or_else (json_get usage "total_cost" ≫= json_f64) (json_get v "cost" ≫= json_f64)) |}.

Definition extract_output_value (v : json) : option json :=
  match choice_content v with
  | Some content => Some content
  | None => or_else (json_get v "content") (json_get v "output_json")
  end.

Definition string_or_array_values (v : option json) : list string :=
  match v with
  | Some (JString single) => [single]
  | Some (JArray values) => filter_map json_str values
  | _ => []
  end.

(** One step of a path. *)
Definition path_step (current : option json) (segment : string) : option json :=
  current ≫= (λ v,
    if String.eqb segment "" then None
    else match v with
         | JObject _ => json_get v segment
         | JArray values => parse_uint usize_max segment ≫= (λ i, values !! Z.to_nat i)
         | _ => None
         end).

Definition resolve_json_path (v : json) (path : string) : option json :=
  if String.eqb path "" then Some v else foldl path_step (Some v) (split "." path).

(** ** Expectations *)

(** [str::to_lowercase], by the case tables of Unicode. *)
Class Lowercase := lowercase : string → string.

Section matchers.
Context `{SerdeJson} `{RegexEngine} `{Lowercase}.

Definition json_value_to_text (v : json) : string :=
  match v with JNull => "" | JString text => text | _ => json_to_string v end.

Definition output_text_json (output_text : option string) : option json := output_text ≫= json_from_str.

Definition structured_output_source (response_json : option json) (output_text : option string) : option string :=
  let from_text := (λ _, "output_text_json") <$> output_text_json output_text in
  match response_json with
  | None => from_text
  | Some v =>
      if is_some (json_get v "output_json") then Some "output_json"
      else match extract_output_value v with
           | Some (JObject _) | Some (JArray _) => Some "provider_output_value"
           | Some (JString text) => if is_some (json_from_str text) then Some "provider_output_text_json" else from_text
           | _ => from_text
           end
  end.

Definition normalized_output_json (response_json : option json) (output_text : option string) : option json :=
  let from_text := output_text_json output_text in
  match response_json with
  | None => from_text
  | Some v =>
      match json_get v "output_json" with
      | Some output_json => Some output_json
      | None =>
          match extract_output_value v with
          | Some (JObject f) => Some (JObject f)
          | Some (JArray l) => Some (JArray l)
          | Some (JString text) => or_else (json_from_str text) from_text
          | _ => from_text
          end
      end
  end.

Definition unavailable : json := json_literal [("passed", JBool false); ("error", JString "structured output unavailable")].

Definition result_map_of (results : list (string * json)) : json :=
  JObject (foldl (λ fields e, fields_insert e.1 e.2 fields) [] results).

Definition evaluate_json_path_exists (output_json : option json) (paths : list string) : bool * json :=
  match paths, output_json with
  | [], _ => (true, JObject [])
  | _, None => (false, result_map_of ((λ path, (path, unavailable)) <$> paths))
  | _, Some v =>
      let exists_ path := is_some (resolve_json_path v path) in
      (forallb exists_ paths, result_map_of ((λ path, (path, json_literal [("passed", JBool (exists_ path))])) <$> paths))
  end.

Definition evaluate_json_path_equals (output_json : option json) (expectations : list (string * json)) : bool * json :=
  match expectations, output_json with
  | [], _ => (true, JObject [])
  | _, None => (false, result_map_of ((λ e, (e.1, unavailable)) <$> expectations))
  | _, Some v =>
      let path_passed e := opt_json_eqb (resolve_json_path v e.1) (Some e.2) in
      (forallb path_passed expectations,
       result_map_of ((λ e, (e.1, json_literal [("passed", JBool (path_passed e)); ("expected", e.2);
         ("actual", default JNull (resolve_json_path v e.1))])) <$> expectations))
  end.

(** A text holds all terms, whatever their case. *)
Definition holds_terms (text : string) (terms : list string) : bool :=
  forallb (λ term, contains (lowercase text) (lowercase term)) terms.

Definition evaluate_json_path_contains (output_json : option json) (expectations : list (string * json)) : bool * json :=
  match expectations, output_json with
  | [], _ => (true, JObject [])
  | _, None => (false, result_map_of ((λ e, (e.1, unavailable)) <$> expectations))
  | _, Some v =>
      let terms (e : string * json) := string_or_array_values (Some e.2) in
      let actual_text (e : string * json) := from_option json_value_to_text "" (resolve_json_path v e.1) in
      let path_passed e := match terms e with [] => false | l => holds_terms (actual_text e) l end in
      (forallb path_passed expectations,
       result_map_of ((λ e, (e.1, json_literal [("passed", JBool (path_passed e)); ("expected_terms", json_strings (terms e));
         ("actual", default JNull (resolve_json_path v e.1))])) <$> expectations))
  end.

(** The matchers of an expectation. *)
Record Matchers := {
  mt_contains : list string;
  mt_not_contains : list string;
  mt_equals : option string;
  mt_starts_with : option string;
  mt_ends_with : option string;
  mt_regex : option string;
  mt_status_code : option Z;
  mt_json_path_exists : list string;
  mt_json_path_equals : list (string * json);
  mt_json_path_contains : list (string * json);
}.

Definition matchers_of (expected : json) : Matchers := {|
  mt_contains := string_or_array_values (json_get expected "contains");
  mt_not_contains := string_or_array_values (json_get expected "not_contains");
  mt_equals := json_get expected "equals" ≫= json_str;
  mt_starts_with := json_get expected "starts_with" ≫= json_str;
  mt_ends_with := json_get expected "ends_with" ≫= json_str;
  mt_regex := json_get expected "regex" ≫= json_str;
  mt_status_code := (json_get expected "status_code" ≫= json_u64) ≫= (λ n, if (n <=? u16_max)%Z then Some n else None);
  mt_json_path_exists := string_or_array_values (json_get expected "json_path_exists");
  mt_json_path_equals := default [] (json_get expected "json_path_equals" ≫= json_object);
  mt_json_path_contains := default [] (json_get expected "json_path_contains" ≫= json_object) |}.

Definition is_nil {A} (l : list A) : bool := match l with [] => true | _ => false end.

Definition matcher_defined (m : Matchers) : bool :=
  negb (is_nil (mt_contains m)) || negb (is_nil (mt_not_contains m)) || is_some (mt_equals m) || is_some (mt_starts_with m)
  || is_some (mt_ends_with m) || is_some (mt_regex m) || is_some (mt_status_code m)
  || (negb (is_nil (mt_json_path_exists m)) || negb (is_nil (mt_json_path_equals m)) || negb (is_nil (mt_json_path_contains m))).

Definition regex_verdict (pattern : option string) (output : string) : bool * option string :=
  match pattern with
  | Some pattern => match regex_new pattern with Ok rx => (is_match rx output, None) | Err e => (false, Some e) end
  | None => (true, None)
  end.

Definition matchers_pass (m : Matchers) (output : string) (structured : option json) (st : Z) : bool :=
  holds_terms output (mt_contains m)
  && forallb (λ term, negb (contains (lowercase output) (lowercase term))) (mt_not_contains m)
  && from_option (λ v, String.eqb output v) true (mt_equals m)
  && from_option (λ v, starts_with (lowercase output) (lowercase v)) true (mt_starts_with m)
  && from_option (λ v, ends_with (lowercase output) (lowercase v)) true (mt_ends_with m)
  && (regex_verdict (mt_regex m) output).1
  && from_option (λ v, (st =? v)%Z) true (mt_status_code m)
  && (evaluate_json_path_exists structured (mt_json_path_exists m)).1
  && (evaluate_json_path_equals structured (mt_json_path_equals m)).1
  && (evaluate_json_path_contains structured (mt_json_path_contains m)).1.

Definition evaluate_expectation (expected_value : option json) (output_text : option string) (response_json : option json) (st : Z)
    : bool * json :=
  let output := default "" output_text in
  match expected_value with
  | None =>
      (is_success st, json_literal [("kind", JString "status_only"); ("status_code", json_of_Z st); ("passed", JBool (is_success st))])
  | Some expected =>
      let m := matchers_of expected in
      let structured := normalized_output_json response_json output_text in
      let passed := (is_some (mt_status_code m) || is_success st)
                    && (negb (matcher_defined m) || matchers_pass m output structured st) in
      (passed, json_literal [
        ("kind", JString "expectation"); ("status_code", json_of_Z st);
        ("expected_status_code", json_opt_Z (mt_status_code m));
        ("contains", json_strings (mt_contains m)); ("not_contains", json_strings (mt_not_contains m));
        ("equals", json_opt_str (mt_equals m)); ("starts_with", json_opt_str (mt_starts_with m));
        ("ends_with", json_opt_str (mt_ends_with m)); ("regex", json_opt_str (mt_regex m));
        ("regex_error", json_opt_str (regex_verdict (mt_regex m) output).2); ("output_text", json_opt_str output_text);
        ("structured_output_source", json_opt_str (structured_output_source response_json output_text));
        ("structured_output", default JNull structured);
        ("json_path_exists", json_strings (mt_json_path_exists m));
        ("json_path_exists_results", (evaluate_json_path_exists structured (mt_json_path_exists m)).2);
        ("json_path_equals", JObject (mt_json_path_equals m));
        ("json_path_equals_results", (evaluate_json_path_equals structured (mt_json_path_equals m)).2);
        ("json_path_contains", JObject (mt_json_path_contains m));
        ("json_path_contains_results", (evaluate_json_path_contains structured (mt_json_path_contains m)).2);
        ("passed", JBool passed)])
  end.

Definition parse_expected_output_json `{SerdeTexts} (text : option string) : result string (option json) :=
  match text with
  | Some text => match json_from_str text with Some v => Ok (Some v) | None => Err (json_error text) end
  | None => Ok None
  end.

Definition judge_expectation_from_expected (expected_value : option json) : option JudgeExpectation :=
  v ← expected_value;
  judge ← json_get v "judge";
  _ ← json_object judge;
  rubric ← json_get judge "rubric";
  rubric ← json_str rubric;
  let rubric := unicode_trim rubric in
  if String.eqb rubric "" then None
  else Some {| je_rubric := rubric; je_min_score := json_get judge "min_score" ≫= json_f64;
               je_require_passed := default true (json_get judge "require_passed" ≫= json_bool) |}.

End matchers.

(** ** The gate *)

Definition preset_as_str (p : ProjectEvalRunComparisonGatePreset) : string :=
  match p with Strict => "strict" | Balanced => "balanced" | Exploratory => "exploratory" end.

Definition preset_from_str (value : string) : option ProjectEvalRunComparisonGatePreset :=
  if String.eqb value "strict" then Some Strict
  else if String.eqb value "balanced" then Some Balanced
  else if String.eqb value "exploratory" then Some Exploratory
  else None.

Definition gate_default : ProjectEvalRunComparisonGateRequest := {|
  gr_preset := None; gr_max_regressions := None; gr_min_candidate_pass_rate := None; gr_min_pass_rate_delta := None;
  gr_max_latency_increase_ms := None; gr_max_cost_increase := None |}.

Definition f64_neg (x : f64) : f64 := SFopp x.

Definition default_thresholds (p : ProjectEvalRunComparisonGatePreset) : ProjectEvalRunComparisonGateRequest :=
  let thresholds regressions delta latency cost := {|
    gr_preset := Some p; gr_max_regressions := Some regressions; gr_min_candidate_pass_rate := None;
    gr_min_pass_rate_delta := Some delta; gr_max_latency_increase_ms := Some latency; gr_max_cost_increase := Some cost |} in
  match p with
  | Strict => thresholds 0%Z f_zero (f64_of_Z 25) (f64_literal "0.01")
  | Balanced => thresholds 1%Z (f64_neg (f64_literal "0.02")) (f64_of_Z 75) (f64_literal "0.05")
  | Exploratory => thresholds 2%Z (f64_neg (f64_literal "0.05")) (f64_of_Z 250) (f64_literal "0.25")
  end.

Definition gate_is_empty (r : ProjectEvalRunComparisonGateRequest) : bool :=
  negb (is_some (gr_preset r)) && negb (is_some (gr_max_regressions r)) && negb (is_some (gr_min_candidate_pass_rate r))
  && negb (is_some (gr_min_pass_rate_delta r)) && negb (is_some (gr_max_latency_increase_ms r))
  && negb (is_some (gr_max_cost_increase r)).

Definition gate_merged_with (r overrides : ProjectEvalRunComparisonGateRequest) : ProjectEvalRunComparisonGateRequest := {|
  gr_preset := or_else (gr_preset overrides) (gr_preset r);
  gr_max_regressions := or_else (gr_max_regressions overrides) (gr_max_regressions r);
  gr_min_candidate_pass_rate := or_else (gr_min_candidate_pass_rate overrides) (gr_min_candidate_pass_rate r);
  gr_min_pass_rate_delta := or_else (gr_min_pass_rate_delta overrides) (gr_min_pass_rate_delta r);
  gr_max_latency_increase_ms := or_else (gr_max_latency_increase_ms overrides) (gr_max_latency_increase_ms r);
  gr_max_cost_increase := or_else (gr_max_cost_increase overrides) (gr_max_cost_increase r) |}.

Definition comparison_gate_requested (r : ProjectEvalRunComparisonGateRequest) : bool := negb (gate_is_empty r).

Definition rollout_action_as_str (a : ProjectEvalRunRolloutAction) : string :=
  match a with Promote => "promote" | Canary => "canary" | Review => "review" | Hold => "hold" end.

(** What the request does not set keeps the value of its preset. *)
Definition resolve_comparison_gate_thresholds (r : ProjectEvalRunComparisonGateRequest) : ProjectEvalRunComparisonGateRequest :=
  let e := from_option default_thresholds gate_default (gr_preset r) in
  {| gr_preset := gr_preset r;
     gr_max_regressions := or_else (gr_max_regressions r) (gr_max_regressions e);
     gr_min_candidate_pass_rate := or_else (gr_min_candidate_pass_rate r) (gr_min_candidate_pass_rate e);
     gr_min_pass_rate_delta := or_else (gr_min_pass_rate_delta r) (gr_min_pass_rate_delta e);
     gr_max_latency_increase_ms := or_else (gr_max_latency_increase_ms r) (gr_max_latency_increase_ms e);
     gr_max_cost_increase := or_else (gr_max_cost_increase r) (gr_max_cost_increase e) |}.

(** [{:.n}]: the nearest decimal of [n] digits, the even one of two. *)
Definition decimal_units (n : nat) (m e : Z) : Z :=
  let num := (m * 10 ^ Z.of_nat n * 2 ^ Z.max 0 e)%Z in
  let den := (2 ^ Z.max 0 (- e))%Z in
  let q := (num / den)%Z in
  let r := (2 * (num mod den))%Z in
  if (den <? r)%Z || (den =? r)%Z && Z.odd q then (q + 1)%Z else q.

Fixpoint zeros (n : nat) : string := match n with 0%nat => "" | S n' => String "0" (zeros n') end.

Definition padded (n : nat) (z : Z) : string := let s := pretty z in zeros (n - String.length s) +:+ s.

Definition format_n (n : nat) (x : f64) : string :=
  match x with
  | S754_nan => "NaN"
  | S754_infinity s => (if s then "-" else "") +:+ "inf"
  | S754_zero s => (if s then "-" else "") +:+ "0." +:+ zeros n
  | S754_finite s m e =>
      let t := decimal_units n (Zpos m) e in
      (if s then "-" else "") +:+ pretty (t / 10 ^ Z.of_nat n)%Z +:+ "." +:+ padded n (t mod 10 ^ Z.of_nat n)
  end.

Definition gate_reason {T} (threshold : option T) (broken : T → bool) (reason : T → string) : list string :=
  match threshold with
  | Some t => if broken t then [reason t] else []
  | None => []
  end.

Definition gate_reasons (s : ProjectEvalRunComparisonSummary) (t : ProjectEvalRunComparisonGateRequest) : list string :=
  gate_reason (gr_max_regressions t) (λ n, (n <? sm_regressed_items s)%Z)
    (λ n, "regressed_items " +:+ pretty (sm_regressed_items s) +:+ " exceeded max_regressions " +:+ pretty n)
  ++ gate_reason (gr_min_candidate_pass_rate t) (λ x, f_lt (sm_candidate_pass_rate s) x)
    (λ x, "candidate_pass_rate " +:+ format_n 4 (sm_candidate_pass_rate s) +:+ " was below min_candidate_pass_rate " +:+ format_n 4 x)
  ++ gate_reason (gr_min_pass_rate_delta t) (λ x, f_lt (sm_delta_pass_rate s) x)
    (λ x, "delta_pass_rate " +:+ format_n 4 (sm_delta_pass_rate s) +:+ " was below min_pass_rate_delta " +:+ format_n 4 x)
  ++ gate_reason (gr_max_latency_increase_ms t) (λ x, f_lt x (sm_delta_average_latency_ms s))
    (λ x, "delta_average_latency_ms " +:+ format_n 4 (sm_delta_average_latency_ms s)
          +:+ " exceeded max_latency_increase_ms " +:+ format_n 4 x)
  ++ gate_reason (gr_max_cost_increase t) (λ x, f_lt x (sm_delta_total_cost s))
    (λ x, "delta_total_cost " +:+ format_n 6 (sm_delta_total_cost s) +:+ " exceeded max_cost_increase " +:+ format_n 6 x).

Definition recommendation_of (preset : option ProjectEvalRunComparisonGatePreset) (passed : bool) (changed : list string)
    : ProjectEvalRunRolloutRecommendation :=
  let say action summary := {| rc_action := action; rc_summary := summary; rc_changed_context_fields := changed |} in
  match preset, passed with
  | Some Strict, true => say Promote "Candidate met the strict rollout gate."
  | Some Balanced, true => say Canary "Candidate met the balanced rollout gate."
  | Some Exploratory, true => say Review "Candidate met the exploratory rollout gate."
  | Some preset, false => say Hold ("Candidate failed the " +:+ preset_as_str preset +:+ " rollout gate.")
  | None, true => say Review "Candidate met the requested comparison gate."
  | None, false => say Hold "Candidate failed the requested comparison gate."
  end.

Definition evaluate_comparison_gate (s : ProjectEvalRunComparisonSummary) (c : ProjectEvalRunComparisonContext)
    (r : ProjectEvalRunComparisonGateRequest) : ProjectEvalRunComparisonGate :=
  let thresholds := resolve_comparison_gate_thresholds r in
  let reasons := gate_reasons s thresholds in
  let passed := is_nil reasons in
  {| ga_passed := passed; ga_reasons := reasons; ga_preset := gr_preset thresholds; ga_thresholds := thresholds;
     ga_recommendation := recommendation_of (gr_preset thresholds) passed (cx_changed_fields c) |}.

(** ** Comparing two runs *)

Definition pass_rate (r : ProjectEvalRunRecord) : f64 :=
  if (ev_total_items r =? 0)%Z then f_zero else f64_div (f64_of_Z (ev_passed_items r)) (f64_of_Z (ev_total_items r)).

Section compare.
Context `{SerdeJson}.

Definition parse_eval_summary (summary_json : option string) : option json := summary_json ≫= json_from_str.

Definition extract_eval_context_from_run (r : ProjectEvalRunRecord) : json :=
  default (JObject []) (parse_eval_summary (ev_summary_json r) ≫= (λ s, json_get s "context")).

Definition build_comparison_context (baseline_run candidate_run : ProjectEvalRunRecord) : ProjectEvalRunComparisonContext :=
  let baseline := default [] (json_object (extract_eval_context_from_run baseline_run)) in
  let candidate := default [] (json_object (extract_eval_context_from_run candidate_run)) in
  {| cx_baseline := JObject baseline; cx_candidate := JObject candidate;
     cx_changed_fields := filter (λ k, opt_json_eqb (fields_get k baseline) (fields_get k candidate) = false)
                            (set_of_list (baseline.*1 ++ candidate.*1)) |}.

Definition by_item (items : list ProjectEvalRunItemRecord) : gmap string ProjectEvalRunItemRecord :=
  foldl (λ m item, <[ei_item_id item := item]> m) ∅ items.

Definition compare_item (baseline candidate : gmap string ProjectEvalRunItemRecord) (item_id : string)
    : ProjectEvalRunItemComparison :=
  let b := baseline !! item_id in
  let c := candidate !! item_id in
  let baseline_passed := ei_passed <$> b in
  let candidate_passed := ei_passed <$> c in
  let baseline_text := b ≫= ei_output_text in
  let candidate_text := c ≫= ei_output_text in
  {| ic_item_id := item_id; ic_baseline_passed := baseline_passed; ic_candidate_passed := candidate_passed;
     ic_improved := bool_decide (baseline_passed = Some false) && bool_decide (candidate_passed = Some true);
     ic_regressed := bool_decide (baseline_passed = Some true) && bool_decide (candidate_passed = Some false);
     ic_changed := negb (bool_decide (baseline_passed = candidate_passed)) || negb (bool_decide (baseline_text = candidate_text));
     ic_baseline_output_text := baseline_text; ic_candidate_output_text := candidate_text;
     ic_baseline_evaluation_json := b ≫= ei_evaluation_json; ic_candidate_evaluation_json := c ≫= ei_evaluation_json |}.

(** The counters behind an item, and behind the loop. *)
Definition count_item (n : Z * Z * Z) (i : ProjectEvalRunItemComparison) : Z * Z * Z :=
  let '(improved, regressed, unchanged) := n in
  if ic_improved i then (wrap32 (improved + 1), regressed, unchanged)
  else if ic_regressed i then (improved, wrap32 (regressed + 1), unchanged)
  else (improved, regressed, wrap32 (unchanged + 1)).

Definition count_items (items : list ProjectEvalRunItemComparison) : Z * Z * Z := foldl count_item (0, 0, 0)%Z items.

Definition compare_items (baseline_items candidate_items : list ProjectEvalRunItemRecord) : list ProjectEvalRunItemComparison :=
  compare_item (by_item baseline_items) (by_item candidate_items)
    <$> set_of_list ((ei_item_id <$> baseline_items) ++ (ei_item_id <$> candidate_items)).

Definition comparison_summary (baseline_run candidate_run : ProjectEvalRunRecord) (counts : Z * Z * Z)
    : ProjectEvalRunComparisonSummary := {|
  sm_baseline_pass_rate := pass_rate baseline_run; sm_candidate_pass_rate := pass_rate candidate_run;
  sm_delta_pass_rate := f64_sub (pass_rate candidate_run) (pass_rate baseline_run);
  sm_baseline_average_latency_ms := ev_average_latency_ms baseline_run;
  sm_candidate_average_latency_ms := ev_average_latency_ms candidate_run;
  sm_delta_average_latency_ms := f64_sub (ev_average_latency_ms candidate_run) (ev_average_latency_ms baseline_run);
  sm_baseline_total_cost := ev_total_cost baseline_run; sm_candidate_total_cost := ev_total_cost candidate_run;
  sm_delta_total_cost := f64_sub (ev_total_cost candidate_run) (ev_total_cost baseline_run);
  sm_improved_items := counts.1.1; sm_regressed_items := counts.1.2; sm_unchanged_items := counts.2 |}.

Context {St : Type} `{EvalStore St}.

Definition eval_store {A} (m : St → St * result StoreError A) : ST St EvalError A := λ st,
  let '(st, r) := m st in (st, match r with Ok a => Ok a | Err e => Err (EvalStoreError e) end).

Definition required_run (run_id : string) (r : option ProjectEvalRunRecord) : ST St EvalError ProjectEvalRunRecord :=
  match r with Some r => mret r | None => st_fail (EvalMessage ("eval run not found: " +:+ run_id)) end.

Definition compare_project_eval_runs (project_id baseline_run_id candidate_run_id : string)
    (gate_request : option ProjectEvalRunComparisonGateRequest) : ST St EvalError ProjectEvalRunComparison :=
  baseline_run ← eval_store (λ st, get_project_eval_run st project_id baseline_run_id);
  baseline_run ← required_run baseline_run_id baseline_run;
  candidate_run ← eval_store (λ st, get_project_eval_run st project_id candidate_run_id);
  candidate_run ← required_run candidate_run_id candidate_run;
  if negb (String.eqb (ev_dataset_name baseline_run) (ev_dataset_name candidate_run))
  then st_fail (EvalMessage ("cannot compare eval runs from different datasets: '" +:+ ev_dataset_name baseline_run
         +:+ "' vs '" +:+ ev_dataset_name candidate_run +:+ "'"))
  else
    baseline_items ← eval_store (λ st, get_project_eval_run_items st project_id baseline_run_id);
    candidate_items ← eval_store (λ st, get_project_eval_run_items st project_id candidate_run_id);
    let items := compare_items baseline_items candidate_items in
    let context := build_comparison_context baseline_run candidate_run in
    let summary := comparison_summary baseline_run candidate_run (count_items items) in
    mret {| cp_baseline_run := baseline_run; cp_candidate_run := candidate_run; cp_summary := summary; cp_context := context;
            cp_items := items;
            cp_gate := gate_request ≫= (λ r, if comparison_gate_requested r
                                            then Some (evaluate_comparison_gate summary context r) else None) |}.

End compare.

(** ** Calls *)

(** A request of a run, a POST. *)
Record EvalRequest `{Http} := {
  eq_uri : Uri;
  eq_headers : HeaderMap;
  eq_body : string;
}.

(** What the client answers under a timeout: an answer with its body or the error of
    reading it, the error of the call, or nothing in time. *)
Inductive EvalReply :=
| Replied (status : Z) (body : result string string)
| CallFailed (message : string)
| CallTimedOut.

(** The HTTP client, with the milliseconds a call took until its head was there. *)
Class EvalClient (V : Type) `{Http} := eval_call : V → Z → EvalRequest → V * (Z * EvalReply).

Section headers.
Context `{Http}.

Notation PreparedHeaders := (list (string * HeaderValue)).

Record PreparedJudge := {
  pj_mode : JudgeMode;
  pj_uri : Uri;
  pj_model : option string;
  pj_headers : PreparedHeaders;
  pj_request_timeout : Z;
}.

Record PreparedEvalRun := {
  pe_run : ProjectEvalRunRecord;
  pe_dataset_items : list ProjectDatasetItemRecord;
  pe_prepared_headers : PreparedHeaders;
  pe_uri : Uri;
  pe_judge : option PreparedJudge;
  pe_request_timeout : Z;
  pe_context_json : json;
  pe_request_json : json;
}.

(** The order in which a [HashMap] gives its entries.  It is random and another one
    for every map, so that the headers of the target and of the judge, and those of
    a run and of the same run taken up later, come in orders of their own. *)
Definition HashOrder : Type := gmap string string → list (string * string).

Record HeaderOrders := {
  target_order : HashOrder;
  judge_order : HashOrder;
}.

(** Every entry is given once. *)
Definition entries_once (order : HashOrder) : Prop := ∀ m, order m ≡ₚ map_to_list m.

Definition lawful_orders (o : HeaderOrders) : Prop := entries_once (target_order o) ∧ entries_once (judge_order o).

Definition prepare_header (e : string * string) : result EvalError (string * HeaderValue) :=
  if header_name_ok e.1
  then let? v := ok_or (hv_from_str e.2) InvalidHeaderValue in Ok (to_lowercase e.1, v)
  else Err InvalidHeaderName.

(** In the order the map gives its entries. *)
Definition prepare_eval_headers (order : HashOrder) (raw_headers : gmap string string) : result EvalError PreparedHeaders :=
  collect_results (prepare_header <$> order raw_headers).

(** The parts are parsed already, so the builder refuses nothing. *)
Definition build_eval_request (uri : Uri) (headers : PreparedHeaders) (body : string) : EvalRequest := {|
  eq_uri := uri;
  eq_headers := foldl (λ h e, hm_insert e.1 e.2 h) (hm_insert "content-type" (hv_from_static "application/json") hm_new) headers;
  eq_body := body |}.

(** ** The judge *)

Definition parse_judge_mode (judge_kind : option string) : result EvalError JudgeMode :=
  match (unicode_trim <$> judge_kind) ≫= non_empty with
  | None => Ok JudgeWebhook
  | Some kind =>
      if String.eqb kind "webhook" then Ok JudgeWebhook
      else if String.eqb kind "openai" then Ok JudgeOpenAi
      else if String.eqb kind "anthropic" then Ok JudgeAnthropic
      else Err (EvalMessage ("unsupported judge_kind: " +:+ kind))
  end.

Definition needs_model (m : JudgeMode) : bool := match m with JudgeWebhook => false | _ => true end.

Definition prepare_judge (order : HashOrder) (judge_url judge_kind judge_model : option string) (judge_headers : gmap string string)
    (judge_timeout_ms : option Z) (default_timeout : Z) : result EvalError (option PreparedJudge) :=
  match judge_url with
  | None => Ok None
  | Some judge_url =>
      let? mode := parse_judge_mode judge_kind in
      let model := (unicode_trim <$> judge_model) ≫= non_empty in
      if needs_model mode && negb (is_some model)
      then Err (EvalMessage ("judge_model is required when judge_kind is '" +:+ default "" judge_kind +:+ "'"))
      else
        let? uri := ok_or (parse_uri judge_url) InvalidUri in
        let? headers := prepare_eval_headers order judge_headers in
        Ok (Some {| pj_mode := mode; pj_uri := uri; pj_model := model; pj_headers := headers;
                    pj_request_timeout := default default_timeout judge_timeout_ms |})
  end.

Definition extract_openai_judge_content (v : json) : option string :=
  content ← choice_content v;
  match json_str content with
  | Some text => Some text
  | None =>
      parts ← json_array content;
      non_empty (join "" (filter_map (λ part,
        or_else (json_get part "text" ≫= json_str) (json_get part "content" ≫= json_str)) parts))
  end.

Definition extract_anthropic_judge_content (v : json) : option string :=
  match (unicode_trim <$> (json_get v "content" ≫= json_str)) ≫= non_empty with
  | Some text => Some text
  | None =>
      content ← json_get v "content";
      parts ← json_array content;
      non_empty (join "" (filter_map (λ part,
        if bool_decide (json_get part "type" ≫= json_str = Some "text") then json_get part "text" ≫= json_str else None) parts))
  end.

Definition judge_error (message : string) (rest : list (string * json)) : json :=
  json_literal ([("kind", JString "judge_error"); ("message", JString message)] ++ rest ++ [("passed", JBool false)]).

Section judge.
Context `{SerdeJson} `{SerdeTexts} {V : Type} `{!EvalClient V}.

Definition item_input (item : ProjectDatasetItemRecord) : json :=
  default (JString (di_input_json item)) (json_from_str (di_input_json item)).

Definition item_metadata (item : ProjectDatasetItemRecord) : json := default JNull (di_metadata_json item ≫= json_from_str).

(** The call up to a successful answer in JSON; what goes wrong is the verdict. *)
Definition call_judge (judge : PreparedJudge) (label : string) (body : json) (v : V) : V * result json (Z * json) :=
  let '(v, (_, reply)) := eval_call v (pj_request_timeout judge)
    (build_eval_request (pj_uri judge) (pj_headers judge) (json_to_string body)) in
  (v, match reply with
      | CallFailed message => Err (judge_error message [])
      | CallTimedOut => Err (json_literal [("kind", JString "judge_timeout"); ("timeout_ms", json_of_Z (pj_request_timeout judge));
                                           ("passed", JBool false)])
      | Replied _ (Err message) => Err (judge_error message [])
      | Replied st (Ok text) =>
          match json_from_str text with
          | None => Err (judge_error ("invalid " +:+ label +:+ " response: " +:+ json_error text) [("judge_status_code", json_of_Z st)])
          | Some response =>
              if is_success st then Ok (st, response)
              else Err (judge_error ("judge returned HTTP " +:+ pretty st) [("judge_status_code", json_of_Z st); ("response", response)])
          end
      end).

(** The verdict in an answer of the judge. *)
Definition judge_passes (e : JudgeExpectation) (answer : json) : bool :=
  (if je_require_passed e then default false (json_get answer "passed" ≫= json_bool) else true)
  && from_option (λ min_score, from_option (λ score, f_le min_score score) false (json_get answer "score" ≫= json_f64)) true
       (je_min_score e).

Definition judge_fields (e : JudgeExpectation) (answer : json) (st : Z) : list (string * json) :=
  [("min_score", opt_f64_json (je_min_score e)); ("require_passed", JBool (je_require_passed e));
   ("judge_status_code", json_of_Z st); ("score", opt_f64_json (json_get answer "score" ≫= json_f64));
   ("judge_passed", opt_bool_json (json_get answer "passed" ≫= json_bool))].

Definition evaluate_with_webhook_judge (judge : PreparedJudge) (item : ProjectDatasetItemRecord) (context_json : json)
    (output_text : option string) (output_json : option json) (st : Z) (e : JudgeExpectation) (v : V) : V * json :=
  let body := json_literal [
    ("item_id", JString (di_item_id item)); ("input", item_input item); ("metadata", item_metadata item);
    ("output_text", json_opt_str output_text); ("output_json", default JNull output_json); ("status_code", json_of_Z st);
    ("context", context_json);
    ("judge", json_literal [("rubric", JString (je_rubric e)); ("min_score", opt_f64_json (je_min_score e));
                            ("require_passed", JBool (je_require_passed e))])] in
  match call_judge judge "judge" body v with
  | (v, Err verdict) => (v, verdict)
  | (v, Ok (jst, response)) =>
      (v, json_literal ([("kind", JString "judge"); ("rubric", JString (je_rubric e))] ++ judge_fields e response jst
                        ++ [("response", response); ("passed", JBool (judge_passes e response))]))
  end.

(** The prompt for a model that judges. *)
Definition judge_prompt (item : ProjectDatasetItemRecord) (context_json : json) (output_text : option string)
    (output_json : option json) (st : Z) (e : JudgeExpectation) : json :=
  json_literal [
    ("rubric", JString (je_rubric e)); ("min_score", opt_f64_json (je_min_score e));
    ("require_passed", JBool (je_require_passed e)); ("item_id", JString (di_item_id item)); ("input", item_input item);
    ("metadata", item_metadata item); ("output_text", json_opt_str output_text); ("output_json", default JNull output_json);
    ("status_code", json_of_Z st); ("context", context_json)].

Definition JUDGE_INSTRUCTIONS : string := "You are an evaluation judge. Return JSON only with keys passed, score, and reasoning.".

Definition chat_message (role content : string) : json := json_literal [("role", JString role); ("content", JString content)].

(** The answer of a model holds the verdict as a text. *)
Definition model_verdict (kind missing invalid model : string) (content : option string) (e : JudgeExpectation)
    (st : Z) (response : json) : json :=
  let wrong message := judge_error message [("judge_status_code", json_of_Z st); ("response", response)] in
  match content with
  | None => wrong missing
  | Some text =>
      match json_from_str text with
      | None => wrong (invalid +:+ json_error text)
      | Some parsed =>
          json_literal ([("kind", JString kind); ("rubric", JString (je_rubric e)); ("model", JString model)]
            ++ judge_fields e parsed st
            ++ [("parsed_response", parsed); ("response", response); ("passed", JBool (judge_passes e parsed))])
      end
  end.

Definition evaluate_with_openai_judge (judge : PreparedJudge) (item : ProjectDatasetItemRecord) (context_json : json)
    (output_text : option string) (output_json : option json) (st : Z) (e : JudgeExpectation) (v : V) : V * json :=
  match pj_model judge with
  | None => (v, judge_error "judge_model is required when judge_kind is 'openai'" [])
  | Some model =>
      let prompt := judge_prompt item context_json output_text output_json st e in
      let body := json_literal [
        ("model", JString model); ("temperature", json_of_Z 0);
        ("response_format", json_literal [("type", JString "json_object")]);
        ("messages", JArray [chat_message "system" JUDGE_INSTRUCTIONS; chat_message "user" (json_to_string prompt)])] in
      match call_judge judge "OpenAI judge" body v with
      | (v, Err verdict) => (v, verdict)
      | (v, Ok (jst, response)) =>
          (v, model_verdict "judge_openai" "OpenAI judge response was missing choices[0].message.content"
                "invalid OpenAI judge JSON payload: " model (extract_openai_judge_content response) e jst response)
      end
  end.

Definition evaluate_with_anthropic_judge (judge : PreparedJudge) (item : ProjectDatasetItemRecord) (context_json : json)
    (output_text : option string) (output_json : option json) (st : Z) (e : JudgeExpectation) (v : V) : V * json :=
  match pj_model judge with
  | None => (v, judge_error "judge_model is required when judge_kind is 'anthropic'" [])
  | Some model =>
      let prompt := judge_prompt item context_json output_text output_json st e in
      let body := json_literal [
        ("model", JString model); ("max_tokens", json_of_Z 256); ("temperature", json_of_Z 0);
        ("system", JString JUDGE_INSTRUCTIONS); ("messages", JArray [chat_message "user" (json_to_string prompt)])] in
      match call_judge judge "Anthropic judge" body v with
      | (v, Err verdict) => (v, verdict)
      | (v, Ok (jst, response)) =>
          (v, model_verdict "judge_anthropic" "Anthropic judge response was missing content text"
                "invalid Anthropic judge JSON payload: " model (extract_anthropic_judge_content response) e jst response)
      end
  end.

Definition evaluate_with_judge (judge : PreparedJudge) : ProjectDatasetItemRecord → json → option string → option json → Z →
    JudgeExpectation → V → V * json :=
  match pj_mode judge with
  | JudgeWebhook => evaluate_with_webhook_judge judge
  | JudgeOpenAi => evaluate_with_openai_judge judge
  | JudgeAnthropic => evaluate_with_anthropic_judge judge
  end.

(** ** Items *)

Context `{RegexEngine} `{Lowercase}.

Definition no_usage : ExtractedUsage := {| xu_input_tokens := 0%Z; xu_output_tokens := 0%Z; xu_cost := f_zero |}.

Definition eval_outcome (passed : bool) (evaluation : json) (output_text : option string) (st : option Z) (error : option string)
    (u : ExtractedUsage) (latency : Z) : EvalOutcome := {|
  oc_passed := passed; oc_evaluation_json := Some (json_to_string evaluation); oc_output_text := output_text;
  oc_status_code := st; oc_error := error; oc_input_tokens := xu_input_tokens u; oc_output_tokens := xu_output_tokens u;
  oc_cost := xu_cost u; oc_latency_ms := latency |}.

Definition message_json (kind message : string) : json := json_literal [("kind", JString kind); ("message", JString message)].

Definition invalid_expected (message : string) : json :=
  json_literal [("kind", JString "invalid_expected_output"); ("message", JString message); ("passed", JBool false)].

Definition missing_judge : json :=
  json_literal [("kind", JString "judge_error");
                ("message", JString "judge_url is required when expected_output.judge is configured"); ("passed", JBool false)].

Definition json_insert (k : string) (x : json) (v : json) : json :=
  match v with JObject fields => JObject (fields_insert k x fields) | _ => v end.

(** What the judge says, when the item asks for one. *)
Definition judged (judge : option PreparedJudge) (item : ProjectDatasetItemRecord) (context_json : json)
    (output_text : option string) (structured : option json) (st : Z) (e : option JudgeExpectation) (v : V) : V * option json :=
  match e with
  | None => (v, None)
  | Some e =>
      match judge with
      | Some judge =>
          let '(v, verdict) := evaluate_with_judge judge item context_json output_text structured st e v in (v, Some verdict)
      | None => (v, Some missing_judge)
      end
  end.

(** An answer of the target. *)
Definition evaluate_answer (judge : option PreparedJudge) (context_json : json) (item : ProjectDatasetItemRecord)
    (st latency : Z) (body : string) (v : V) : V * EvalOutcome :=
  let response_json := json_from_str body in
  let output_text := response_json ≫= extract_output_text in
  let usage := from_option extract_usage no_usage response_json in
  let invalid message := eval_outcome false (invalid_expected message) output_text (Some st) (Some "invalid expected output") usage latency in
  match parse_expected_output_json (di_expected_output_json item) with
  | Err error => (v, invalid error)
  | Ok expected =>
      let structured := normalized_output_json response_json output_text in
      let '(passed, evaluation) := evaluate_expectation expected output_text response_json st in
      let e := judge_expectation_from_expected expected in
      if is_some (expected ≫= (λ x, json_get x "judge")) && negb (is_some e)
      then (v, invalid "expected_output.judge must include a non-empty rubric")
      else
        let '(v, verdict) := judged judge item context_json output_text structured st e v in
        let judge_passed := from_option (λ x, default false (json_get x "passed" ≫= json_bool)) true verdict in
        let passed := passed && judge_passed in
        let evaluation := from_option (λ x, json_insert "passed" (JBool passed) (json_insert "judge" x evaluation)) evaluation verdict in
        (v, eval_outcome passed evaluation output_text (Some st)
              (if is_success st then None else Some ("upstream returned HTTP " +:+ pretty st)) usage latency)
  end.

Definition evaluate_dataset_item (uri : Uri) (headers : PreparedHeaders) (judge : option PreparedJudge) (request_timeout : Z)
    (context_json : json) (item : ProjectDatasetItemRecord) (v : V) : V * EvalOutcome :=
  let '(v, (latency, reply)) := eval_call v request_timeout (build_eval_request uri headers (di_input_json item)) in
  match reply with
  | CallFailed message => (v, eval_outcome false (message_json "request_error" message) None None (Some message) no_usage latency)
  | CallTimedOut =>
      (v, eval_outcome false (json_literal [("kind", JString "request_timeout"); ("timeout_ms", json_of_Z request_timeout)])
            None None (Some "request timed out") no_usage latency)
  | Replied st (Err message) =>
      (v, eval_outcome false (message_json "response_error" message) None (Some st) (Some message) no_usage latency)
  | Replied st (Ok body) => evaluate_answer judge context_json item st latency body v
  end.

(** ** Runs *)

Definition build_eval_summary_json (rate : f64) (request_timeout : Z) (context_json request_json : json)
    (extra : list (string * json)) : string :=
  json_to_string (json_literal ([("pass_rate", json_of_f64 rate); ("timeout_ms", json_of_Z request_timeout);
    ("context", context_json); ("request", request_json)] ++ extra)).

Definition opt_field (name : string) (text : option string) : list (string * json) :=
  match text with Some t => [(name, JString t)] | None => [] end.

Definition eval_context_json (r : ProjectEvalRunRequest) : json :=
  json_literal (opt_field "prompt_name" (rq_prompt_name r) ++ opt_field "prompt_version" (rq_prompt_version r)
    ++ opt_field "provider_name" (rq_provider_name r) ++ opt_field "model" (rq_model r)
    ++ opt_field "route_path" (rq_route_path r) ++ opt_field "safety_profile" (rq_safety_profile r)
    ++ (if is_some (rq_judge_url r) then [("judge_enabled", JBool true)] else [])
    ++ opt_field "judge_kind" (rq_judge_kind r) ++ opt_field "judge_model" (rq_judge_model r)).

Definition eval_request_json (r : ProjectEvalRunRequest) : json :=
  json_literal [("headers", json_of_map (rq_headers r)); ("judge_url", json_opt_str (rq_judge_url r));
    ("judge_kind", json_opt_str (rq_judge_kind r)); ("judge_model", json_opt_str (rq_judge_model r));
    ("judge_headers", json_of_map (rq_judge_headers r)); ("judge_timeout_ms", json_opt_Z (rq_judge_timeout_ms r))].

Definition string_entry (description : string) (m : gmap string string) (e : string * json) : result EvalError (gmap string string) :=
  match json_str e.2 with
  | Some text => Ok (<[e.1 := text]> m)
  | None => Err (EvalMessage (description +:+ " entry '" +:+ e.1 +:+ "' must be a string"))
  end.

Fixpoint string_map_entries (description : string) (m : gmap string string) (l : list (string * json))
    : result EvalError (gmap string string) :=
  match l with
  | [] => Ok m
  | e :: l' => let? m := string_entry description m e in string_map_entries description m l'
  end.

Definition string_map_from_json_field (request_json : json) (field description : string) : result EvalError (gmap string string) :=
  match json_get request_json field with
  | None => Ok ∅
  | Some v =>
      match json_object v with
      | None => Err (EvalMessage (description +:+ " must be an object"))
      | Some l => string_map_entries description ∅ l
      end
  end.

Definition request_headers_from_json (request_json : json) : result EvalError (gmap string string) :=
  string_map_from_json_field request_json "headers" "eval summary request.headers".

Definition judge_headers_from_json (request_json : json) : result EvalError (gmap string string) :=
  string_map_from_json_field request_json "judge_headers" "eval summary request.judge_headers".

Definition prepare_judge_from_request_json (order : HashOrder) (request_json : json) (default_timeout : Z) : result EvalError (option PreparedJudge) :=
  let? headers := judge_headers_from_json request_json in
  prepare_judge order (json_get request_json "judge_url" ≫= json_str) (json_get request_json "judge_kind" ≫= json_str)
    (json_get request_json "judge_model" ≫= json_str) headers (json_get request_json "judge_timeout_ms" ≫= json_u64) default_timeout.

Definition generate_eval_run_id (nanos sequence : Z) : string := "eval-" +:+ pretty nanos +:+ "-" +:+ pretty sequence.

Context {St : Type} `{EvalStore St}.

(** The run as it is before its first item. *)
Definition fresh_run (run_id project_id dataset_name target_url status : string) (total : nat) (summary created_at : string)
    : ProjectEvalRunRecord := {|
  ev_run_id := run_id; ev_project_id := project_id; ev_dataset_name := dataset_name; ev_target_url := target_url;
  ev_status := status; ev_total_items := wrap32 (Z.of_nat total); ev_passed_items := 0%Z; ev_failed_items := 0%Z;
  ev_total_input_tokens := 0%Z; ev_total_output_tokens := 0%Z; ev_total_cost := f_zero; ev_average_latency_ms := f_zero;
  ev_summary_json := Some summary; ev_created_at := created_at; ev_completed_at := None |}.

Definition lift_result {A} (r : result EvalError A) : ST St EvalError A := λ st, (st, r).

Definition prepare_eval_run (o : HeaderOrders) (run_id created_at project_id : string) (request : ProjectEvalRunRequest) (initial_status : string)
    : ST St EvalError PreparedEvalRun :=
  dataset ← eval_store (λ st, get_project_dataset st project_id (rq_dataset_name request));
  match dataset with
  | None => st_fail (EvalMessage ("dataset not found: " +:+ rq_dataset_name request))
  | Some dataset =>
      dataset_items ← eval_store (λ st, get_project_dataset_items st project_id (rq_dataset_name request));
      headers ← lift_result (prepare_eval_headers (target_order o) (rq_headers request));
      uri ← lift_result (ok_or (parse_uri (rq_target_url request)) InvalidUri);
      let request_timeout := default 15000%Z (rq_timeout_ms request) in
      judge ← lift_result (prepare_judge (judge_order o) (rq_judge_url request) (rq_judge_kind request) (rq_judge_model request)
                             (rq_judge_headers request) (rq_judge_timeout_ms request) request_timeout);
      let context_json := eval_context_json request in
      let request_json := eval_request_json request in
      mret {| pe_run := fresh_run run_id project_id (ds_dataset_name dataset) (rq_target_url request) initial_status
                          (length dataset_items) (build_eval_summary_json f_zero request_timeout context_json request_json [])
                          created_at;
              pe_dataset_items := dataset_items; pe_prepared_headers := headers; pe_uri := uri; pe_judge := judge;
              pe_request_timeout := request_timeout; pe_context_json := context_json; pe_request_json := request_json |}
  end.

Definition prepare_eval_run_from_record (o : HeaderOrders) (run : ProjectEvalRunRecord) (dataset_items : list ProjectDatasetItemRecord)
    : result EvalError PreparedEvalRun :=
  let summary := parse_eval_summary (ev_summary_json run) in
  let context_json := default (JObject []) (summary ≫= (λ s, json_get s "context")) in
  let request_json := default (JObject []) (summary ≫= (λ s, json_get s "request")) in
  let request_timeout := default 15000%Z (summary ≫= (λ s, json_get s "timeout_ms" ≫= json_u64)) in
  let? raw_headers := request_headers_from_json request_json in
  let? headers := prepare_eval_headers (target_order o) raw_headers in
  let? judge := prepare_judge_from_request_json (judge_order o) request_json request_timeout in
  let? uri := ok_or (parse_uri (ev_target_url run)) InvalidUri in
  Ok {| pe_run := fresh_run (ev_run_id run) (ev_project_id run) (ev_dataset_name run) (ev_target_url run) (ev_status run)
                    (length dataset_items)
                    (build_eval_summary_json f_zero request_timeout context_json request_json
                       [("previous_status", JString (ev_status run)); ("recovered", JBool true)])
                    (ev_created_at run);
        pe_dataset_items := dataset_items; pe_prepared_headers := headers; pe_uri := uri; pe_judge := judge;
        pe_request_timeout := request_timeout; pe_context_json := context_json; pe_request_json := request_json |}.

(** The counters of the run behind an item. *)
Definition count_outcome (o : EvalOutcome) (r : ProjectEvalRunRecord) : ProjectEvalRunRecord :=
  let r := if oc_passed o then r <| ev_passed_items := wrap32 (ev_passed_items r + 1) |>
           else r <| ev_failed_items := wrap32 (ev_failed_items r + 1) |> in
  r <| ev_total_input_tokens := wrap64 (ev_total_input_tokens r + oc_input_tokens o) |>
    <| ev_total_output_tokens := wrap64 (ev_total_output_tokens r + oc_output_tokens o) |>
    <| ev_total_cost := f64_add (ev_total_cost r) (oc_cost o) |>.

Definition item_record (r : ProjectEvalRunRecord) (item : ProjectDatasetItemRecord) (o : EvalOutcome) (created_at : string)
    : ProjectEvalRunItemRecord := {|
  ei_run_id := ev_run_id r; ei_project_id := ev_project_id r; ei_dataset_name := ev_dataset_name r; ei_item_id := di_item_id item;
  ei_passed := oc_passed o; ei_status_code := oc_status_code o; ei_latency_ms := oc_latency_ms o;
  ei_output_text := oc_output_text o; ei_evaluation_json := oc_evaluation_json o; ei_error := oc_error o;
  ei_input_tokens := oc_input_tokens o; ei_output_tokens := oc_output_tokens o; ei_cost := oc_cost o; ei_created_at := created_at |}.

(** The store and the client. *)
Notation World := (St * V)%type.

(** The loop over the items, [ts] the time of each. *)
Fixpoint run_items (ts : nat → string) (index : nat) (p : PreparedEvalRun) (items : list ProjectDatasetItemRecord)
    (run : ProjectEvalRunRecord) (total_latency_ms : Z) (w : World)
    : World * ProjectEvalRunRecord * result StoreError (Z * list ProjectEvalRunItemRecord) :=
  match items with
  | [] => (w, run, Ok (total_latency_ms, []))
  | item :: items' =>
      let '(v, o) := evaluate_dataset_item (pe_uri p) (pe_prepared_headers p) (pe_judge p) (pe_request_timeout p)
                       (pe_context_json p) item w.2 in
      let run := count_outcome o run in
      let r := item_record run item o (ts index) in
      match upsert_project_eval_run_item w.1 r with
      | (st, Err e) => ((st, v), run, Err e)
      | (st, Ok _) =>
          let '(w, run, res) := run_items ts (S index) p items' run (wrap64 (total_latency_ms + oc_latency_ms o)) (st, v) in
          (w, run, result_map (λ x, (x.1, r :: x.2)) res)
      end
  end.

Definition completed_run (p : PreparedEvalRun) (completed_at : string) (total_latency_ms : Z) (run : ProjectEvalRunRecord)
    : ProjectEvalRunRecord :=
  let run := run <| ev_status := "completed" |> <| ev_completed_at := Some completed_at |> in
  let run := if (0 <? ev_total_items run)%Z
             then run <| ev_average_latency_ms := f64_div (f64_of_Z total_latency_ms) (f64_of_Z (ev_total_items run)) |> else run in
  run <| ev_summary_json := Some (build_eval_summary_json (pass_rate run) (pe_request_timeout p) (pe_context_json p) (pe_request_json p) []) |>.

(** The run is given back also when the store fails. *)
Definition execute_prepared_eval_run (ts : nat → string) (p : PreparedEvalRun) (transition_from_queued : bool) (w : World)
    : World * ProjectEvalRunRecord * result StoreError ProjectEvalRunExecution :=
  let run := if transition_from_queued then pe_run p <| ev_status := "running" |> else pe_run p in
  let '(st, started) := if transition_from_queued then upsert_project_eval_run w.1 run else (w.1, Ok ()) in
  match started with
  | Err e => ((st, w.2), run, Err e)
  | Ok _ =>
      let '(w, run, res) := run_items ts 1 p (pe_dataset_items p) run 0 (st, w.2) in
      match res with
      | Err e => (w, run, Err e)
      | Ok (total_latency_ms, items) =>
          let run := completed_run p (ts 0) total_latency_ms run in
          match upsert_project_eval_run w.1 run with
          | (st, Err e) => ((st, w.2), run, Err e)
          | (st, Ok _) => ((st, w.2), run, Ok {| ex_run := run; ex_items := items |})
          end
      end
  end.

Definition mark_eval_run_failed (completed_at : string) (p : PreparedEvalRun) (run : ProjectEvalRunRecord) (error : string) (st : St)
    : St * result StoreError () :=
  upsert_project_eval_run st (run <| ev_status := "failed" |> <| ev_completed_at := Some completed_at |>
    <| ev_summary_json := Some (build_eval_summary_json (pass_rate run) (pe_request_timeout p) (pe_context_json p)
         (pe_request_json p)
         [("failure", json_literal [("kind", JString "background_error"); ("message", JString error)])]) |>).

Definition execute_project_eval_run (o : HeaderOrders) (ts : nat → string) (run_id created_at project_id : string) (request : ProjectEvalRunRequest)
    (w : World) : World * result EvalError ProjectEvalRunExecution :=
  match prepare_eval_run o run_id created_at project_id request "running" w.1 with
  | (st, Err e) => ((st, w.2), Err e)
  | (st, Ok p) =>
      match upsert_project_eval_run st (pe_run p) with
      | (st, Err e) => ((st, w.2), Err (EvalStoreError e))
      | (st, Ok _) =>
          let '(w, _, res) := execute_prepared_eval_run ts p false (st, w.2) in
          (w, match res with Ok x => Ok x | Err e => Err (EvalStoreError e) end)
      end
  end.

(** The call that queues a run; [queued_task] is the task it leaves behind. *)
Definition queue_project_eval_run (o : HeaderOrders) (run_id created_at project_id : string) (request : ProjectEvalRunRequest)
    : ST St EvalError PreparedEvalRun :=
  p ← prepare_eval_run o run_id created_at project_id request "queued";
  _ ← eval_store (λ st, upsert_project_eval_run st (pe_run p));
  mret p.

Definition queued_task (ts : nat → string) (failed_at : string) (p : PreparedEvalRun) (w : World) : World :=
  let '(w, run, res) := execute_prepared_eval_run ts p true w in
  match res with
  | Ok _ => w
  | Err e => ((mark_eval_run_failed failed_at p run (store_error_text e) w.1).1, w.2)
  end.

(** ** Recovery *)

Definition recover_project_eval_run (o : HeaderOrders) (ts : nat → string) (run : ProjectEvalRunRecord) (w : World)
    : World * result EvalError ProjectEvalRunExecution :=
  match eval_store (λ st, get_project_dataset_items st (ev_project_id run) (ev_dataset_name run)) w.1 with
  | (st, Err e) => ((st, w.2), Err e)
  | (st, Ok dataset_items) =>
      match prepare_eval_run_from_record o run dataset_items with
      | Err e => ((st, w.2), Err e)
      | Ok p =>
          let '(w, _, res) := execute_prepared_eval_run ts p true (st, w.2) in
          (w, match res with Ok x => Ok x | Err e => Err (EvalStoreError e) end)
      end
  end.

Definition pending_statuses : list string := ["queued"; "running"].

(** The task of a start; [ts i] is the clock while the [i]-th run is recovered and [os i]
    the orders of its headers. *)
Definition eval_recovery_task (os : nat → HeaderOrders) (ts : nat → nat → string) (w : World) : World :=
  match get_project_eval_runs_by_status w.1 pending_statuses 128 with
  | (st, Err _) => (st, w.2)
  | (st, Ok pending) => foldl (λ w e, (recover_project_eval_run (os e.1) (ts e.1) e.2 w).1) (st, w.2) (enumerate pending)
  end.

End judge.
End headers.

(** ** The facade

    Without a store every call answers nothing. *)

Section api.
Context {St : Type} `{EvalStore St}.

Definition with_eval_store {A} (store : option St) (m : St → St * result StoreError A) : option St * option (result StoreError A) :=
  match store with
  | None => (None, None)
  | Some st => let '(st, r) := m st in (Some st, Some r)
  end.

Definition api_list_project_datasets (store : option St) (project_id : option string) :=
  with_eval_store store (λ st, get_project_datasets st project_id).

Definition api_get_project_dataset (store : option St) (project_id dataset_name : string) :=
  with_eval_store store (λ st, get_project_dataset st project_id dataset_name).

Definition api_upsert_project_dataset (store : option St) (record : ProjectDatasetRecord) :=
  with_eval_store store (λ st, upsert_project_dataset st record).

Definition api_delete_project_dataset (store : option St) (project_id dataset_name : string) :=
  with_eval_store store (λ st, delete_project_dataset st project_id dataset_name).

Definition api_list_project_dataset_items (store : option St) (project_id dataset_name : string) :=
  with_eval_store store (λ st, get_project_dataset_items st project_id dataset_name).

Definition api_get_project_dataset_item (store : option St) (project_id dataset_name item_id : string) :=
  with_eval_store store (λ st, get_project_dataset_item st project_id dataset_name item_id).

Definition api_upsert_project_dataset_item (store : option St) (record : ProjectDatasetItemRecord) :=
  with_eval_store store (λ st, upsert_project_dataset_item st record).

Definition api_delete_project_dataset_item (store : option St) (project_id dataset_name item_id : string) :=
  with_eval_store store (λ st, delete_project_dataset_item st project_id dataset_name item_id).

Definition api_list_project_eval_runs (store : option St) (project_id : string) (dataset_name : option string) :=
  with_eval_store store (λ st, get_project_eval_runs st project_id dataset_name).

Definition api_get_project_eval_run (store : option St) (project_id run_id : string) :=
  with_eval_store store (λ st, get_project_eval_run st project_id run_id).

Definition api_list_project_eval_run_items (store : option St) (project_id run_id : string) :=
  with_eval_store store (λ st, get_project_eval_run_items st project_id run_id).

End api.
