(* ===== verification/EvalsProps.v ===== *)
(** * What evaluation runs guarantee

    The totals of a run are those of its items, a run that was interrupted is taken up
    with what it was started with, recovery leaves finished runs alone, and the
    gate decides on the items of both runs. *)

From S2P Require Import Prelude RecordSet StateResult RustStr F64 Codec Json JsonText Sql Regex Http Management Providers CostTracker PromptRegistry PromptRegistryProps EvalStore Evals.

Local Open Scope string_scope.
Local Open Scope list_scope.
Local Open Scope rust_scope.

(** ** Items of a run *)

Definition sum_of (f : ProjectEvalRunItemRecord → Z) (l : list ProjectEvalRunItemRecord) : Z := foldr (λ x n, (f x + n)%Z) 0%Z l.
Definition count_passed : list ProjectEvalRunItemRecord → Z := sum_of (λ x, if ei_passed x then 1 else 0)%Z.
Definition count_failed : list ProjectEvalRunItemRecord → Z := sum_of (λ x, if ei_passed x then 0 else 1)%Z.

Lemma sum_of_cons f x l : sum_of f (x :: l) = (f x + sum_of f l)%Z.
Proof. done. Qed.

Lemma count_all l : (count_passed l + count_failed l)%Z = Z.of_nat (length l).
Proof.
  unfold count_passed, count_failed. induction l as [|x l IH]; [done|]. rewrite !sum_of_cons. cbn [length]. destruct (ei_passed x); lia.
Qed.

Lemma counts_nonneg l : (0 ≤ count_passed l ∧ 0 ≤ count_failed l)%Z.
Proof.
  unfold count_passed, count_failed. induction l as [|x l IH]; [done|]. rewrite !sum_of_cons. destruct (ei_passed x); lia.
Qed.

Lemma wrap32_add a b c : wrap32 (wrap32 (a + b) + c) = wrap32 (a + (b + c)).
Proof. unfold wrap32. rewrite Zplus_mod_idemp_l. f_equal. lia. Qed.

Lemma wrap64_add a b c : wrap64 (wrap64 (a + b) + c) = wrap64 (a + (b + c)).
Proof. unfold wrap64. rewrite Zplus_mod_idemp_l. f_equal. lia. Qed.

(** The results a run leaves in the table. *)
Definition put_results (l : list ProjectEvalRunItemRecord) (m : gmap (string * string) ProjectEvalRunItemRecord)
    : gmap (string * string) ProjectEvalRunItemRecord :=
  foldl (λ m x, <[result_key x := db_result x]> m) m l.

Lemma put_results_other l m k : (∀ x, x ∈ l → result_key x ≠ k) → put_results l m !! k = m !! k.
Proof.
  revert m. induction l as [|x l IH]; intros m Hk; [done|]. cbn. unfold put_results in IH.
  rewrite IH by (intros y Hy; apply Hk; by right). apply lookup_insert_ne, Hk. by left.
Qed.

Lemma put_results_in l m x : NoDup (result_key <$> l) → x ∈ l → put_results l m !! result_key x = Some (db_result x).
Proof.
  revert m. induction l as [|y l IH]; intros m Hnd Hin; [by apply not_elem_of_nil in Hin|].
  apply NoDup_cons in Hnd as [Hy Hnd]. cbn. apply elem_of_cons in Hin as [->|Hin]; [|by apply IH].
  change (put_results l (<[result_key y := db_result y]> m) !! result_key y = Some (db_result y)).
  rewrite put_results_other, lookup_insert_eq; [done|]. intros z Hz E. apply Hy. rewrite <-E. by apply list_elem_of_fmap_2.
Qed.

(** ** Texts of a request *)

Lemma string_entries_strings description l m :
  string_map_entries description m (prod_map id JString <$> l) = Ok (foldl (λ m e, <[e.1 := e.2]> m) m l).
Proof. revert m. induction l as [|[k t] l IH]; intros m; [done|]. cbn. apply IH. Qed.

Lemma foldl_insert_map (l : list (string * string)) :
  foldl (λ m e, <[e.1 := e.2]> m) (∅ : gmap string string) l = list_to_map (reverse l).
Proof.
  induction l as [|[k t] l IH] using rev_ind; [done|]. rewrite foldl_app, reverse_snoc. cbn. by rewrite IH.
Qed.

Lemma json_of_map_read m description : ∃ fields, json_of_map m = JObject fields ∧ string_map_entries description ∅ fields = Ok m.
Proof.
  exists (literal_fields (prod_map id JString <$> map_to_list m)). split; [done|].
  set (l := map_to_list m). assert (NoDup l.*1) as Hnd by apply NoDup_fst_map_to_list.
  assert ((prod_map id JString <$> l).*1 = l.*1) as Hk by (by rewrite <-list_fmap_compose).
  assert (NoDup (prod_map id JString <$> l).*1) as Hnd' by (by rewrite Hk).
  apply literal_fields_perm in Hnd'. apply Permutation_map_inv in Hnd' as (l' & -> & Hp).
  rewrite (string_entries_strings description l'). f_equal. rewrite foldl_insert_map.
  rewrite <-(list_to_map_to_list m). fold l. symmetry. apply list_to_map_proper; [done|].
  by rewrite reverse_Permutation, Hp.
Qed.

Lemma json_of_map_plain m : plain_json 2 (json_of_map m).
Proof. apply (plain_literal 1), Forall_fmap, Forall_forall. by intros [k t] _. Qed.

(** The fields of an object written as a literal. *)
Lemma literal_get l k :
  json_get (json_literal l) k = foldl (λ o e, if String.eqb e.1 k then Some e.2 else o) None l.
Proof.
  unfold json_literal. assert (∀ acc, json_get (JObject (foldl (λ fields e, fields_insert e.1 e.2 fields) acc l)) k =
    foldl (λ o e, if String.eqb e.1 k then Some e.2 else o) (json_get (JObject acc) k) l) as Hgen; [|apply (Hgen [])].
  induction l as [|[k' v] l IH]; intros acc; [done|]. cbn [foldl fst snd]. by rewrite IH, json_get_insert.
Qed.

Section runs.
Context `{Http} `{SerdeJson} `{SerdeTexts} {V : Type} `{!EvalClient V} `{RegexEngine} `{Lowercase} {St : Type} `{EvalStoreOk St}.

(** What stays as it is while the items are counted. *)
Record same_run (r r' : ProjectEvalRunRecord) : Prop := {
  same_run_id : ev_run_id r' = ev_run_id r;
  same_run_project : ev_project_id r' = ev_project_id r;
  same_run_total : ev_total_items r' = ev_total_items r;
  same_run_status : ev_status r' = ev_status r;
}.

Lemma count_outcome_same o r : same_run r (count_outcome o r).
Proof. unfold count_outcome. by destruct (oc_passed o); split. Qed.

Lemma same_run_trans r1 r2 r3 : same_run r1 r2 → same_run r2 r3 → same_run r1 r3.
Proof. intros [] []. split; congruence. Qed.

(** The loop over the items, whatever comes of it. *)
Record counted (items : list ProjectDatasetItemRecord) (run : ProjectEvalRunRecord) (st : St) (run' : ProjectEvalRunRecord) (st' : St)
    (rs : list ProjectEvalRunItemRecord) : Prop := {
  counted_same : same_run run run';
  counted_ids : ei_item_id <$> rs = di_item_id <$> items;
  counted_run : Forall (λ x, ei_run_id x = ev_run_id run ∧ ei_project_id x = ev_project_id run) rs;
  counted_passed : ev_passed_items run' = wrap32 (ev_passed_items run + count_passed rs);
  counted_failed : ev_failed_items run' = wrap32 (ev_failed_items run + count_failed rs);
  counted_input : ev_total_input_tokens run' = wrap64 (ev_total_input_tokens run + sum_of ei_input_tokens rs);
  counted_output : ev_total_output_tokens run' = wrap64 (ev_total_output_tokens run + sum_of ei_output_tokens rs);
  counted_tables : eval_tables st' = eval_tables st <| et_results := put_results rs (et_results (eval_tables st)) |>;
}.

(** The counters are machine words. *)
Definition counters_ok (r : ProjectEvalRunRecord) : Prop :=
  in_u32 (ev_passed_items r) ∧ in_u32 (ev_failed_items r) ∧ in_u64 (ev_total_input_tokens r) ∧ in_u64 (ev_total_output_tokens r).

Lemma count_outcome_ok o r : counters_ok r → counters_ok (count_outcome o r).
Proof.
  intros (? & ? & ? & ?). unfold count_outcome, counters_ok. destruct (oc_passed o); cbn;
    eauto using wrap32_range, wrap64_range.
Qed.

Lemma run_items_counted ts index p items run latency w w' run' latency' rs :
  counters_ok run → run_items ts index p items run latency w = (w', run', Ok (latency', rs)) →
  counted items run w.1 run' w'.1 rs.
Proof.
  revert index run latency w w' run' latency' rs.
  induction items as [|item items IH]; intros index run latency w w' run' latency' rs Hok E; cbn [run_items] in E.
  { inversion E; subst. destruct Hok as (? & ? & ? & ?). split; try done; cbn [sum_of count_passed count_failed foldr];
      rewrite ?Z.add_0_r, ?wrap32_small, ?wrap64_small by done; try done. by destruct (eval_tables (w'.1)). }
  destruct (evaluate_dataset_item _ _ _ _ _ item w.2) as [v o]. set (run1 := count_outcome o run) in E.
  set (x := item_record run1 item o (ts index)) in E.
  destruct (upsert_project_eval_run_item w.1 x) as [st [[]|e]] eqn:Eu; [|by inversion E].
  destruct (run_items ts (S index) p items run1 _ (st, v)) as [[w2 run2] res2] eqn:Er.
  destruct res2 as [[lat2 rs2]|e]; [|by inversion E].
  inversion E; subst w' run' latency' rs; clear E.
  destruct (IH _ _ _ _ _ _ _ _ (count_outcome_ok o run Hok) Er) as [Hs Hi Hr Hp Hf Hin Hout Ht].
  pose proof (count_outcome_same o run) as Hs1. destruct Hs1 as [Hid Hpid Htot Hst].
  apply write_result in Eu. split.
  - by eapply same_run_trans; [|exact Hs].
  - cbn. by rewrite Hi.
  - constructor; [done|]. eapply Forall_impl; [exact Hr|]. cbn. intros y [-> ->]. by split.
  - rewrite Hp. unfold run1, count_outcome, count_passed. rewrite sum_of_cons.
    change (ei_passed x) with (oc_passed o). destruct (oc_passed o); cbn; [by rewrite wrap32_add|done].
  - rewrite Hf. unfold run1, count_outcome, count_failed. rewrite sum_of_cons.
    change (ei_passed x) with (oc_passed o). destruct (oc_passed o); cbn; [done|by rewrite wrap32_add].
  - rewrite Hin. unfold run1, count_outcome. rewrite sum_of_cons. by destruct (oc_passed o); cbn; rewrite wrap64_add.
  - rewrite Hout. unfold run1, count_outcome. rewrite sum_of_cons. by destruct (oc_passed o); cbn; rewrite wrap64_add.
  - rewrite Ht. cbn [fst]. rewrite Eu. cbn. done.
Qed.

(** A run that is prepared, before its first item. *)
Definition fresh (p : PreparedEvalRun) : Prop :=
  ev_total_items (pe_run p) = wrap32 (Z.of_nat (length (pe_dataset_items p))) ∧ ev_passed_items (pe_run p) = 0%Z ∧
  ev_failed_items (pe_run p) = 0%Z ∧ ev_total_input_tokens (pe_run p) = 0%Z ∧ ev_total_output_tokens (pe_run p) = 0%Z.

Lemma completed_run_same p at_ latency r :
  let r' := completed_run p at_ latency r in
  ev_run_id r' = ev_run_id r ∧ ev_project_id r' = ev_project_id r ∧ ev_total_items r' = ev_total_items r ∧
  ev_passed_items r' = ev_passed_items r ∧ ev_failed_items r' = ev_failed_items r ∧
  ev_total_input_tokens r' = ev_total_input_tokens r ∧ ev_total_output_tokens r' = ev_total_output_tokens r ∧
  ev_status r' = "completed".
Proof. unfold completed_run. cbn zeta. by destruct (0 <? _)%Z. Qed.

(** What a run that came to its end is. *)
Record run_done (items : list ProjectDatasetItemRecord) (run_id project_id : string) (st' : St) (x : ProjectEvalRunExecution) : Prop := {
  done_ids : ei_item_id <$> ex_items x = di_item_id <$> items;
  done_status : ev_status (ex_run x) = "completed";
  done_total : ev_total_items (ex_run x) = Z.of_nat (length items);
  done_passed : ev_passed_items (ex_run x) = count_passed (ex_items x);
  done_failed : ev_failed_items (ex_run x) = count_failed (ex_items x);
  done_input : ev_total_input_tokens (ex_run x) = wrap64 (sum_of ei_input_tokens (ex_items x));
  done_output : ev_total_output_tokens (ex_run x) = wrap64 (sum_of ei_output_tokens (ex_items x));
  done_run : run_query project_id run_id (et_runs (eval_tables st')) = Some (db_run (ex_run x));
  done_results : ∀ i, i ∈ ex_items x → et_results (eval_tables st') !! (run_id, ei_item_id i) = Some (db_result i);
}.

Lemma ids_of_run rs run_id : Forall (λ x, ei_run_id x = run_id) rs → result_key <$> rs = pair run_id <$> (ei_item_id <$> rs).
Proof. induction 1 as [|x l Hx Hl IH]; [done|]. cbn. rewrite IH. unfold result_key. by rewrite Hx. Qed.

Lemma counted_done p items run st run' st1 rs latency at_ st2 :
  (Z.of_nat (length items) ≤ u32_max)%Z → NoDup (di_item_id <$> items) → ev_total_items run = wrap32 (Z.of_nat (length items)) →
  ev_passed_items run = 0%Z → ev_failed_items run = 0%Z → ev_total_input_tokens run = 0%Z → ev_total_output_tokens run = 0%Z →
  counted items run st run' st1 rs →
  upsert_project_eval_run st1 (completed_run p at_ latency run') = (st2, Ok ()) →
  run_done items (ev_run_id run) (ev_project_id run) st2 {| ex_run := completed_run p at_ latency run'; ex_items := rs |}.
Proof.
  intros Hlen Hnd Htot Hp0 Hf0 Hi0 Ho0 [[Hid Hpid Ht Hst] Hids Hrun Hp Hf Hin Hout Htab] Eu.
  assert (length rs = length items) as Hl by (by rewrite <-(length_fmap ei_item_id rs), Hids, length_fmap).
  pose proof (count_all rs) as Hall. pose proof (counts_nonneg rs) as [Hcp Hcf].
  destruct (completed_run_same p at_ latency run') as (Eid & Epid & Etot & Ep & Ef & Ei & Eo & Es).
  set (r := completed_run p at_ latency run') in *. clearbody r.
  rewrite Hp0 in Hp. rewrite Hf0 in Hf. rewrite Hi0 in Hin. rewrite Ho0 in Hout.
  rewrite Z.add_0_l in Hp, Hf, Hin, Hout.
  rewrite wrap32_small in Hp by (unfold in_u32; lia). rewrite wrap32_small in Hf by (unfold in_u32; lia).
  rewrite wrap32_small in Htot by (unfold in_u32; lia).
  apply write_run in Eu. cbn [eval_written] in Eu. split; cbn [ex_run ex_items]; try congruence.
  - rewrite Eu. unfold run_query. cbn. rewrite Eid, Hid, lookup_insert_eq. cbn.
    by rewrite Epid, Hpid, String.eqb_refl.
  - intros i Hi. rewrite Eu. cbn. rewrite Htab. cbn.
    assert (ei_run_id i = ev_run_id run) as <- by (by apply (proj1 (Forall_forall _ _) Hrun)).
    apply put_results_in; [|done]. rewrite (ids_of_run _ (ev_run_id run)).
    + rewrite Hids. apply NoDup_fmap_2; [|done]. by intros ?? [=].
    + eapply Forall_impl; [exact Hrun|]. by intros ? [].
Qed.

Lemma execute_prepared_done ts p b w w' run x :
  fresh p → (Z.of_nat (length (pe_dataset_items p)) ≤ u32_max)%Z → NoDup (di_item_id <$> pe_dataset_items p) →
  execute_prepared_eval_run ts p b w = (w', run, Ok x) →
  run_done (pe_dataset_items p) (ev_run_id (pe_run p)) (ev_project_id (pe_run p)) w'.1 x.
Proof.
  intros (Htot & Hp & Hf & Hi & Ho) Hlen Hnd E. unfold execute_prepared_eval_run in E.
  set (run0 := if b then _ else pe_run p) in E.
  assert (counters_ok run0) as Hok.
  { unfold counters_ok. by destruct b; unfold run0; cbn; rewrite Hp, Hf, Hi, Ho. }
  assert (ev_total_items run0 = wrap32 (Z.of_nat (length (pe_dataset_items p))) ∧ ev_passed_items run0 = 0%Z ∧
    ev_failed_items run0 = 0%Z ∧ ev_total_input_tokens run0 = 0%Z ∧ ev_total_output_tokens run0 = 0%Z ∧
    ev_run_id run0 = ev_run_id (pe_run p) ∧ ev_project_id run0 = ev_project_id (pe_run p)) as (? & ? & ? & ? & ? & <- & <-)
    by (by destruct b).
  clearbody run0.
  destruct (if b then _ else _) as [st [[]|e]]; [|by inversion E].
  destruct (run_items ts 1 p (pe_dataset_items p) run0 0 (st, w.2)) as [[w1 run1] res] eqn:Er.
  destruct res as [[latency rs]|e]; [|by inversion E].
  destruct (upsert_project_eval_run w1.1 _) as [st2 [[]|e]] eqn:Eu; [|by inversion E].
  inversion E; subst. pose proof (run_items_counted _ _ _ _ _ _ _ _ _ _ _ Hok Er) as Hc. cbn [fst] in Hc |- *.
  by apply (counted_done p (pe_dataset_items p) run0 st run1 w1.1 rs latency (ts 0) st2).
Qed.

(** *** Preparing *)

Lemma eval_store_ok {A} (m : St → St * result StoreError A) st st' a :
  eval_store m st = (st', Ok a) → m st = (st', Ok a).
Proof. unfold eval_store. destruct (m st) as [st1 [x|e]]; congruence. Qed.

(** What a prepared run is made from. *)
Record prepared (o : HeaderOrders) (run_id created_at project_id : string) (request : ProjectEvalRunRequest) (status : string) (st : St)
    (p : PreparedEvalRun) : Prop := {
  prepared_items : pe_dataset_items p = items_query project_id (rq_dataset_name request) (et_items (eval_tables st));
  prepared_headers : prepare_eval_headers (target_order o) (rq_headers request) = Ok (pe_prepared_headers p);
  prepared_uri : parse_uri (rq_target_url request) = Some (pe_uri p);
  prepared_timeout : pe_request_timeout p = default 15000%Z (rq_timeout_ms request);
  prepared_judge : prepare_judge (judge_order o) (rq_judge_url request) (rq_judge_kind request) (rq_judge_model request) (rq_judge_headers request)
    (rq_judge_timeout_ms request) (pe_request_timeout p) = Ok (pe_judge p);
  prepared_context : pe_context_json p = eval_context_json request;
  prepared_request : pe_request_json p = eval_request_json request;
  prepared_run : ∃ dataset, et_datasets (eval_tables st) !! (project_id, rq_dataset_name request) = Some dataset ∧
    pe_run p = fresh_run run_id project_id (ds_dataset_name dataset) (rq_target_url request) status (length (pe_dataset_items p))
      (build_eval_summary_json f_zero (pe_request_timeout p) (pe_context_json p) (pe_request_json p) []) created_at;
}.

Lemma prepare_eval_run_ok o run_id created_at project_id request status st st' p :
  prepare_eval_run o run_id created_at project_id request status st = (st', Ok p) →
  eval_tables st' = eval_tables st ∧ prepared o run_id created_at project_id request status st p.
Proof.
  unfold prepare_eval_run. intros E. apply ST_bind_ok in E as (st1 & dataset & Ed%eval_store_ok & E).
  apply read_dataset in Ed as [Hd Hdv]. specialize (Hdv _ eq_refl). destruct dataset as [dataset|]; [|done].
  apply ST_bind_ok in E as (st2 & items & Ei%eval_store_ok & E). apply read_items in Ei as [Hi Hiv]. specialize (Hiv _ eq_refl).
  apply ST_bind_ok in E as (st3 & headers & Eh & E). unfold lift_result in Eh.
  apply ST_bind_ok in E as (st4 & uri & Eu & E). unfold lift_result in Eu.
  apply ST_bind_ok in E as (st5 & judge & Ej & E). unfold lift_result in Ej.
  inversion Eh; subst st3. inversion Eu; subst st4. inversion Ej; subst st5. unfold mret, ST_ret in E.
  inversion E; subst st' p. split; [congruence|]. rewrite Hd in Hiv. split; cbn; try done.
  - destruct (parse_uri (rq_target_url request)); [|done]. cbn in *. congruence.
  - exists dataset. split; [congruence|done].
Qed.

Lemma prepared_fresh o run_id created_at project_id request status st p :
  prepared o run_id created_at project_id request status st p →
  fresh p ∧ ev_run_id (pe_run p) = run_id ∧ ev_project_id (pe_run p) = project_id.
Proof. intros [_ _ _ _ _ _ _ (dataset & _ & E)]. unfold fresh. by rewrite E. Qed.

Lemma items_query_ids (p d : string) (m : gmap (string * string * string) ProjectDatasetItemRecord) :
  filed item_key m → NoDup (di_item_id <$> items_query p d m).
Proof.
  intros Hm. unfold items_query. rewrite (select_perm di_item_id (in_dataset p d) m).
  pose proof (rows_NoDup item_key m Hm) as Hnd. induction (rows m) as [|x l IH]; [constructor|].
  apply NoDup_cons in Hnd as [Hx Hnd]. rewrite filter_cons. destruct (decide (in_dataset p d x = true)) as [Hxd|]; [|by apply IH].
  cbn. constructor; [|by apply IH]. intros (y & Ey & [Hyd Hy]%list_elem_of_filter)%list_elem_of_fmap. apply Hx.
  apply list_elem_of_fmap. exists y. split; [|done]. unfold item_key, in_dataset in *.
  apply andb_prop in Hxd as [->%String.eqb_eq ->%String.eqb_eq]. apply andb_prop in Hyd as [->%String.eqb_eq ->%String.eqb_eq].
  by rewrite Ey.
Qed.

(** C27: A finished run says what its items say: it has one result per item of the
    dataset, in their order, it is marked as completed, its counts are those of
    the items that passed and failed, its tokens the sums, and the tables hold the
    run and every result. *)
Theorem run_totals_match_items (o : HeaderOrders) (ts : nat → string) (run_id created_at project_id : string) (request : ProjectEvalRunRequest)
    (w w' : St * V) (x : ProjectEvalRunExecution) :
  let items := items_query project_id (rq_dataset_name request) (et_items (eval_tables w.1)) in
  filed item_key (et_items (eval_tables w.1)) → (Z.of_nat (length items) ≤ u32_max)%Z →
  execute_project_eval_run o ts run_id created_at project_id request w = (w', Ok x) →
  run_done items run_id project_id w'.1 x.
Proof.
  intros items Hfiled Hlen E. unfold execute_project_eval_run in E.
  destruct (prepare_eval_run _ _ _ _ _ _ w.1) as [st [p|e]] eqn:Ep; [|by inversion E].
  apply prepare_eval_run_ok in Ep as [Ht Hp]. destruct (prepared_fresh _ _ _ _ _ _ _ _ Hp) as (Hfresh & Hid & Hpid).
  destruct (upsert_project_eval_run st (pe_run p)) as [st1 [[]|e]]; [|by inversion E].
  destruct (execute_prepared_eval_run ts p false (st1, w.2)) as [[w2 run] [x2|e]] eqn:Ex; [|by inversion E].
  inversion E; subst w2 x2. rewrite <-Hid, <-Hpid. assert (items = pe_dataset_items p) as Hi by (by rewrite (prepared_items _ _ _ _ _ _ _ _ Hp)).
  rewrite Hi in *. eapply execute_prepared_done; [done|done| |exact Ex]. rewrite <-Hi. by apply items_query_ids.
Qed.

(** *** Taking up a run *)

(** Whatever decides how the items are evaluated, up to the order of the headers. *)
Record same_judge (j j' : PreparedJudge) : Prop := {
  judge_same_mode : pj_mode j' = pj_mode j;
  judge_same_uri : pj_uri j' = pj_uri j;
  judge_same_model : pj_model j' = pj_model j;
  judge_same_headers : pj_headers j' ≡ₚ pj_headers j;
  judge_same_timeout : pj_request_timeout j' = pj_request_timeout j;
}.

Record same_execution (p p' : PreparedEvalRun) : Prop := {
  same_headers : pe_prepared_headers p' ≡ₚ pe_prepared_headers p;
  same_uri : pe_uri p' = pe_uri p;
  same_judges : option_Forall2 same_judge (pe_judge p) (pe_judge p');
  same_timeout : pe_request_timeout p' = pe_request_timeout p;
  same_context : pe_context_json p' = pe_context_json p;
  same_request : pe_request_json p' = pe_request_json p;
}.

(** Two messages with the same target, the same values under every header name and
    the same body. *)
Definition same_message (a b : EvalRequest) : Prop :=
  eq_uri a = eq_uri b ∧ eq_body a = eq_body b ∧ ∀ n, get_all n (eq_headers a) = get_all n (eq_headers b).

(** No two names of the map are the same header. *)
Definition names_distinct (m : gmap string string) : Prop := NoDup (to_lowercase ∘ fst <$> map_to_list m).

Lemma prepared_names order (m : gmap string string) l :
  prepare_eval_headers order m = Ok l → l.*1 = to_lowercase ∘ fst <$> order m.
Proof.
  unfold prepare_eval_headers. intros E%collect_results_ok. revert l E.
  induction (order m) as [|e es IH]; intros [|x l] E; try done. cbn in E. injection E as Ex El.
  cbn. rewrite (IH l El). f_equal. unfold prepare_header in Ex.
  destruct (header_name_ok e.1); [|done]. destruct (hv_from_str e.2); [|done]. by injection Ex as <-.
Qed.

(** The order decides about the order only. *)
Lemma prepare_headers_perm o o' (m : gmap string string) l : entries_once o → entries_once o' →
  prepare_eval_headers o m = Ok l → ∃ l', prepare_eval_headers o' m = Ok l' ∧ l' ≡ₚ l.
Proof.
  intros Ho Ho' E%collect_results_ok.
  assert (prepare_header <$> o' m ≡ₚ Ok <$> l) as Hp by (by rewrite <-E, (Ho m), (Ho' m)).
  apply Permutation_map_inv in Hp as (l' & El & Hl). exists l'. split; [by apply collect_results_ok|by symmetry].
Qed.

Notation inserted h l := (foldl (λ h e, hm_insert e.1 e.2 h) h l).

Lemma inserted_other `{!HttpOk} n (l : list (string * HeaderValue)) h : n ∉ l.*1 → get_all n (inserted h l) = get_all n h.
Proof.
  revert h. induction l as [|e l IH]; intros h Hn; [done|]. cbn in Hn |- *. apply not_elem_of_cons in Hn as [Hne Hn].
  by rewrite IH, get_all_insert_ne by done.
Qed.

Lemma inserted_once `{!HttpOk} n v (l : list (string * HeaderValue)) h : NoDup l.*1 → (n, v) ∈ l → get_all n (inserted h l) = [v].
Proof.
  revert h. induction l as [|e l IH]; intros h Hnd Hin; [by apply elem_of_nil in Hin|]. cbn in Hnd |- *.
  apply NoDup_cons in Hnd as [He Hnd]. apply elem_of_cons in Hin as [<-|Hin]; [|by apply IH].
  by rewrite inserted_other, get_all_insert_eq.
Qed.

Lemma inserted_perm `{!HttpOk} n (l l' : list (string * HeaderValue)) h : NoDup l.*1 → l' ≡ₚ l →
  get_all n (inserted h l) = get_all n (inserted h l').
Proof.
  intros Hnd Hl. assert (NoDup l'.*1) by (by rewrite Hl). destruct (decide (n ∈ l.*1)) as [Hin|Hno].
  - apply list_elem_of_fmap in Hin as ([n' v] & -> & Hin). rewrite (inserted_once _ v l) by done.
    rewrite (inserted_once _ v l'); [done..|by rewrite Hl].
  - rewrite !inserted_other; [done|by rewrite Hl|done].
Qed.

Lemma built_same_message `{!HttpOk} order (m : gmap string string) uri (l l' : list (string * HeaderValue)) body :
  entries_once order → names_distinct m → prepare_eval_headers order m = Ok l → l' ≡ₚ l →
  same_message (build_eval_request uri l body) (build_eval_request uri l' body).
Proof.
  intros Ho Hd El Hl. split; [done|]. split; [done|]. intros n. apply inserted_perm; [|done].
  rewrite (prepared_names _ _ _ El). unfold names_distinct in Hd. by rewrite (Ho m).
Qed.

Lemma prepare_judge_perm (o o' : HashOrder) url kind model (hs : gmap string string) t d j : entries_once o → entries_once o' →
  prepare_judge o url kind model hs t d = Ok j →
  ∃ j', prepare_judge o' url kind model hs t d = Ok j' ∧ option_Forall2 same_judge j j'.
Proof.
  intros Ho Ho'. unfold prepare_judge. destruct url as [url|]; [|intros [= <-]; exists None; split; [done|constructor]].
  destruct (parse_judge_mode kind) as [mode|]; [|done]. cbn [result_bind]. destruct (needs_model mode && _); [done|].
  destruct (ok_or _ _) as [uri|]; [|done]. cbn [result_bind].
  destruct (prepare_eval_headers o hs) as [l|] eqn:El; [|done]. cbn [result_bind]. intros [= <-].
  destruct (prepare_headers_perm o o' hs l Ho Ho' El) as (l' & -> & Hl). cbn [result_bind].
  eexists. split; [reflexivity|]. by constructor.
Qed.

Lemma prepare_judge_headers order url kind model (hs : gmap string string) t d o j :
  prepare_judge order url kind model hs t d = Ok o → o = Some j → prepare_eval_headers order hs = Ok (pj_headers j).
Proof.
  unfold prepare_judge. intros E ->. destruct url as [url|]; [|done].
  destruct (parse_judge_mode kind) as [mode|]; [|done]. cbn [result_bind] in E. destruct (needs_model mode && _); [done|].
  destruct (ok_or _ _) as [uri|]; [|done]. cbn [result_bind] in E.
  destruct (prepare_eval_headers order hs) as [l|]; [|done]. cbn [result_bind] in E. by injection E as <-.
Qed.

Definition timeouts_ok (r : ProjectEvalRunRequest) : Prop :=
  from_option in_u64 True (rq_timeout_ms r) ∧ from_option in_u64 True (rq_judge_timeout_ms r).

Lemma opt_field_plain name o : Forall (λ e : string * json, plain_json 1 e.2) (opt_field name o).
Proof. destruct o; by repeat constructor. Qed.

Lemma eval_context_plain r : plain_json 2 (eval_context_json r).
Proof.
  apply (plain_literal 1). rewrite !Forall_app. repeat split; try apply opt_field_plain.
  destruct (is_some _); by repeat constructor.
Qed.

Lemma json_opt_str_plain d o : plain_json (S d) (json_opt_str o).
Proof. by destruct o. Qed.

Lemma json_of_Z_plain n d : in_u64 n → plain_json (S d) (json_of_Z n).
Proof. intros Hn. unfold json_of_Z. destruct (Z.leb_spec 0 n); [done|]. unfold in_u64 in Hn. lia. Qed.

Lemma eval_request_plain r : timeouts_ok r → plain_json 3 (eval_request_json r).
Proof.
  intros [_ Ht]. apply (plain_literal 2). repeat apply Forall_cons_2; try apply Forall_nil_2; cbn [snd]; try apply json_opt_str_plain; try apply json_of_map_plain.
  destruct (rq_judge_timeout_ms r); [by apply json_of_Z_plain|done].
Qed.

Lemma default_timeout_ok r : timeouts_ok r → in_u64 (default 15000%Z (rq_timeout_ms r)).
Proof. intros [Ht _]. destruct (rq_timeout_ms r); [done|]. unfold in_u64, u64_max. cbn. lia. Qed.

Lemma request_headers_read r : request_headers_from_json (eval_request_json r) = Ok (rq_headers r).
Proof.
  unfold request_headers_from_json, string_map_from_json_field, eval_request_json. rewrite literal_get. cbn [foldl fst snd String.eqb Ascii.eqb Bool.eqb].
  by destruct (json_of_map_read (rq_headers r) "eval summary request.headers") as (fields & -> & Hf).
Qed.

Lemma json_of_Z_u64 n : in_u64 n → json_u64 (json_of_Z n) = Some n.
Proof. intros Hn. unfold json_of_Z. destruct (Z.leb_spec 0 n); [done|]. unfold in_u64 in Hn. lia. Qed.

Lemma judge_read order r t : timeouts_ok r →
  prepare_judge_from_request_json order (eval_request_json r) t =
  prepare_judge order (rq_judge_url r) (rq_judge_kind r) (rq_judge_model r) (rq_judge_headers r) (rq_judge_timeout_ms r) t.
Proof.
  intros [_ Ht]. unfold prepare_judge_from_request_json, judge_headers_from_json, string_map_from_json_field, eval_request_json.
  rewrite !literal_get. cbn [foldl fst snd String.eqb Ascii.eqb Bool.eqb].
  destruct (json_of_map_read (rq_judge_headers r) "eval summary request.judge_headers") as (fields & -> & Hf).
  cbn [json_object]. rewrite Hf. cbn [result_bind]. f_equal; try (by destruct (rq_judge_url r)); try (by destruct (rq_judge_kind r));
    try (by destruct (rq_judge_model r)). destruct (rq_judge_timeout_ms r); [|done]. cbn. by apply json_of_Z_u64.
Qed.

Lemma summary_read `{!JsonTexts} rate t c r : timeouts_ok r → in_u64 t → rate = f_zero → c = eval_context_json r →
  parse_eval_summary (Some (build_eval_summary_json rate t c (eval_request_json r) [])) =
  Some (json_literal [("pass_rate", json_of_f64 f_zero); ("timeout_ms", json_of_Z t); ("context", c); ("request", eval_request_json r)]).
Proof.
  intros Hr Ht -> ->. unfold parse_eval_summary, build_eval_summary_json. cbn [mbind option_bind app]. apply json_roundtrip.
  apply (plain_le 4); [lia|]. apply (plain_literal 3). repeat apply Forall_cons_2; try apply Forall_nil_2; cbn [snd].
  - done.
  - by apply json_of_Z_plain.
  - apply (plain_le 2); [lia|]. apply eval_context_plain.
  - by apply eval_request_plain.
Qed.

(** The row of a run, as it is taken up. *)
Lemma resumed `{!JsonTexts} o o' run_id created_at project_id request status st p run items :
  lawful_orders o → lawful_orders o' →
  timeouts_ok request → prepared o run_id created_at project_id request status st p →
  ev_summary_json run = ev_summary_json (pe_run p) → ev_target_url run = ev_target_url (pe_run p) →
  ∃ p', prepare_eval_run_from_record o' run items = Ok p' ∧ same_execution p p' ∧ fresh p' ∧ pe_dataset_items p' = items ∧
    ev_run_id (pe_run p') = ev_run_id run ∧ ev_project_id (pe_run p') = ev_project_id run.
Proof.
  intros [Ho1 Ho2] [Ho1' Ho2'] Ht Hp Hs Hu. pose proof Hp as [_ Hh Huri Hto Hj Hc Hr (dataset & _ & Erun)].
  rewrite Erun in Hs, Hu. cbn in Hs, Hu. unfold prepare_eval_run_from_record. rewrite Hs, Hu, Hc, Hr.
  pose proof (default_timeout_ok request Ht) as Hdt. rewrite <-Hto in Hdt.
  rewrite summary_read by done. cbn [mbind option_bind]. rewrite !literal_get. cbn [foldl fst snd String.eqb Ascii.eqb Bool.eqb default].
  cbn [mbind option_bind id]. rewrite json_of_Z_u64 by done. cbn [default id]. rewrite request_headers_read. cbn [result_bind].
  destruct (prepare_headers_perm _ (target_order o') _ _ Ho1 Ho1' Hh) as (l' & -> & Hl). cbn [result_bind].
  destruct (prepare_judge_perm _ (judge_order o') _ _ _ _ _ _ _ Ho2 Ho2' Hj) as (j' & Ej & Hjj).
  rewrite judge_read, Ej by done. cbn [result_bind]. rewrite Huri. cbn [ok_or result_bind].
  eexists. split; [reflexivity|]. repeat split; cbn; done.
Qed.

(** C28: A queued run survives a restart.  When a run has been queued with time-outs
    that fit 64 bits, its row is in the table, marked as queued, and whoever takes it
    up later, whether the row still says so or another status and in whatever order
    the hash maps then give their entries, prepares a run under its identifier that
    counts from zero, has the same target, time-out, judge, context and options and
    the same headers up to their order.  The items are not in the row: they are those
    given, which recovery reads from the dataset as it is then.  When no two of its
    headers have the same name up to case, what is sent to the target for a body is
    the same message, and when no two of the judge's do, so is what is sent to the
    judge. *)
Theorem queued_run_is_resumed `{!HttpOk} `{!JsonTexts} (o o' : HeaderOrders) (run_id created_at project_id : string)
    (request : ProjectEvalRunRequest) (st st' : St) (p : PreparedEvalRun) :
  lawful_orders o → lawful_orders o' → timeouts_ok request →
  queue_project_eval_run o run_id created_at project_id request st = (st', Ok p) →
  ∃ row, run_query project_id run_id (et_runs (eval_tables st')) = Some row ∧ ev_status row = "queued" ∧
    ∀ status items, ∃ p', prepare_eval_run_from_record o' (row <| ev_status := status |>) items = Ok p' ∧
      same_execution p p' ∧ fresh p' ∧ pe_dataset_items p' = items ∧ ev_run_id (pe_run p') = run_id ∧
      (names_distinct (rq_headers request) → ∀ body,
         same_message (build_eval_request (pe_uri p) (pe_prepared_headers p) body)
                      (build_eval_request (pe_uri p') (pe_prepared_headers p') body)) ∧
      (names_distinct (rq_judge_headers request) → ∀ j j' body, pe_judge p = Some j → pe_judge p' = Some j' →
         same_message (build_eval_request (pj_uri j) (pj_headers j) body)
                      (build_eval_request (pj_uri j') (pj_headers j') body)).
Proof.
  intros Ho Ho' Ht E. unfold queue_project_eval_run in E. apply ST_bind_ok in E as (st1 & p1 & Ep & E).
  apply ST_bind_ok in E as (st2 & [] & Eu%eval_store_ok & E). unfold mret, ST_ret in E. inversion E; subst st2 p1.
  apply prepare_eval_run_ok in Ep as [Htab Hp]. apply write_run in Eu. cbn [eval_written] in Eu.
  destruct (prepared_fresh _ _ _ _ _ _ _ _ Hp) as (_ & Hid & Hpid). exists (db_run (pe_run p)).
  split; [|split].
  - unfold run_query. rewrite Eu, Hid. cbn -[db_run]. rewrite lookup_insert_eq. cbn [mbind option_bind].
    change (ev_project_id (db_run (pe_run p))) with (ev_project_id (pe_run p)). by rewrite Hpid, String.eqb_refl.
  - destruct Hp as [_ _ _ _ _ _ _ (dataset & _ & Erun)]. by rewrite Erun.
  - intros status items. destruct (resumed o o' run_id created_at project_id request "queued" st p
      (db_run (pe_run p) <| ev_status := status |>) items Ho Ho' Ht Hp) as (p' & E' & Hs & Hf & Hi & Hid' & _);
      [by destruct (pe_run p)..|].
    exists p'. do 4 (split; [done|]). split; [rewrite Hid'; destruct (pe_run p); exact Hid|]. split.
    + intros Hd body. rewrite (same_uri _ _ Hs).
      eapply built_same_message; [exact (proj1 Ho)|exact Hd|exact (prepared_headers _ _ _ _ _ _ _ _ Hp)|exact (same_headers _ _ Hs)].
    + intros Hd j j' body Ej Ej'. pose proof (same_judges _ _ Hs) as Hj. rewrite Ej, Ej' in Hj.
      inversion Hj as [? ? Hjj|]; subst. rewrite (judge_same_uri _ _ Hjj).
      pose proof (prepare_judge_headers _ _ _ _ _ _ _ _ _ (prepared_judge _ _ _ _ _ _ _ _ Hp) Ej) as El.
      eapply built_same_message; [exact (proj2 Ho)|exact Hd|exact El|exact (judge_same_headers _ _ Hjj)].
Qed.

(** *** Recovery *)

(** Only the run [id] has changed. *)
Record only_run (id : string) (t t' : EvalTables) : Prop := {
  only_runs : ∀ k, k ≠ id → et_runs t' !! k = et_runs t !! k;
  only_results : ∀ k i, k ≠ id → et_results t' !! (k, i) = et_results t !! (k, i);
}.

#[local] Instance only_run_refl id : Reflexive (only_run id).
Proof. by intros t. Qed.

#[local] Instance only_run_trans id : Transitive (only_run id).
Proof.
  intros t1 t2 t3 [Hr Hs] [Hr' Hs']. split; intros; [by rewrite Hr', Hr|by rewrite Hs', Hs].
Qed.

Lemma write_run_only st x st' r : upsert_project_eval_run st x = (st', r) → only_run (ev_run_id x) (eval_tables st) (eval_tables st').
Proof.
  intros E%write_run. rewrite E. destruct r; [|done]. split; [|done]. intros k Hk. cbn. by rewrite lookup_insert_ne.
Qed.

Lemma write_result_only st x st' r :
  upsert_project_eval_run_item st x = (st', r) → only_run (ei_run_id x) (eval_tables st) (eval_tables st').
Proof.
  intros E%write_result. rewrite E. destruct r; [|done]. split; [done|]. intros k i Hk. cbn. rewrite lookup_insert_ne; [done|].
  unfold result_key. congruence.
Qed.

Lemma run_items_only ts index p items run latency w w' run' res :
  run_items ts index p items run latency w = (w', run', res) →
  ev_run_id run' = ev_run_id run ∧ only_run (ev_run_id run) (eval_tables w.1) (eval_tables w'.1).
Proof.
  revert index run latency w w' run' res.
  induction items as [|item items IH]; intros index run latency w w' run' res E; cbn [run_items] in E.
  { inversion E; subst. done. }
  destruct (evaluate_dataset_item _ _ _ _ _ item w.2) as [v o]. pose proof (same_run_id _ _ (count_outcome_same o run)) as Hid.
  set (run1 := count_outcome o run) in *. destruct (upsert_project_eval_run_item w.1 _) as [st [[]|e]] eqn:Eu;
    apply write_result_only in Eu; change (ei_run_id (item_record run1 item o (ts index))) with (ev_run_id run1) in Eu; rewrite Hid in Eu.
  - destruct (run_items ts (S index) p items run1 _ (st, v)) as [[w2 run2] res2] eqn:Er. inversion E; subst.
    apply IH in Er as [Hid2 Ho]. rewrite Hid in *. split; [done|]. by etrans; [exact Eu|].
  - inversion E; subst. done.
Qed.

Lemma execute_prepared_only ts p b w w' run res :
  execute_prepared_eval_run ts p b w = (w', run, res) → only_run (ev_run_id (pe_run p)) (eval_tables w.1) (eval_tables w'.1).
Proof.
  unfold execute_prepared_eval_run. set (run0 := if b then _ else pe_run p). intros E.
  assert (ev_run_id run0 = ev_run_id (pe_run p)) as <- by (by destruct b).
  destruct (if b then upsert_project_eval_run w.1 run0 else (w.1, Ok ())) as [st started] eqn:Es.
  assert (only_run (ev_run_id run0) (eval_tables w.1) (eval_tables st)) as Hst0.
  { destruct b; [by apply write_run_only in Es|]. by inversion Es. }
  destruct started as [[]|e]; [|by inversion E; subst].
  destruct (run_items ts 1 p (pe_dataset_items p) run0 0 (st, w.2)) as [[w1 run1] res1] eqn:Er.
  apply run_items_only in Er as [Hid Hst1]. cbn [fst] in Hst1.
  assert (only_run (ev_run_id run0) (eval_tables w.1) (eval_tables w1.1)) as Hst01 by (by etrans).
  destruct res1 as [[latency rs]|e]; [|by inversion E; subst].
  destruct (upsert_project_eval_run w1.1 _) as [st2 r2] eqn:Eu. apply write_run_only in Eu.
  destruct (completed_run_same p (ts 0) latency run1) as [Eid _]. rewrite Eid, Hid in Eu.
  destruct r2; inversion E; subst; cbn [fst]; by etrans.
Qed.

Lemma from_record_id o run items p : prepare_eval_run_from_record o run items = Ok p → ev_run_id (pe_run p) = ev_run_id run.
Proof.
  unfold prepare_eval_run_from_record. cbv zeta.
  destruct (request_headers_from_json _) as [hs|e]; [|done]. cbn [result_bind].
  destruct (prepare_eval_headers _ hs) as [headers|e]; [|done]. cbn [result_bind].
  destruct (prepare_judge_from_request_json _ _ _) as [judge|e]; [|done]. cbn [result_bind].
  destruct (parse_uri _) as [uri|]; [|done]. cbn [ok_or result_bind]. intros E. inversion E. done.
Qed.

Lemma recover_only o ts run w : only_run (ev_run_id run) (eval_tables w.1) (eval_tables (recover_project_eval_run o ts run w).1.1).
Proof.
  unfold recover_project_eval_run, eval_store. destruct (get_project_dataset_items w.1 _ _) as [st r] eqn:Ei.
  apply read_items in Ei as [Ht _]. destruct r as [items|e]; [|by cbn; rewrite Ht].
  destruct (prepare_eval_run_from_record o run items) as [p|e] eqn:Ep; [|by cbn; rewrite Ht].
  destruct (execute_prepared_eval_run ts p true (st, w.2)) as [[w2 run2] res] eqn:Ex.
  apply execute_prepared_only in Ex. cbn [fst] in *. by rewrite Ht, (from_record_id _ _ _ _ Ep) in Ex.
Qed.

Lemma recover_all_other l k w (g : nat * ProjectEvalRunRecord → HeaderOrders) (f : nat * ProjectEvalRunRecord → nat → string) :
  (∀ e, e ∈ l → ev_run_id e.2 ≠ k) →
  let w' := foldl (λ w e, (recover_project_eval_run (g e) (f e) e.2 w).1) w l in
  et_runs (eval_tables w'.1) !! k = et_runs (eval_tables w.1) !! k ∧
  ∀ i, et_results (eval_tables w'.1) !! (k, i) = et_results (eval_tables w.1) !! (k, i).
Proof.
  revert w. induction l as [|e l IH]; intros w Hl; [done|]. cbn [foldl].
  destruct (recover_only (g e) (f e) e.2 w) as [Hr Hs]. assert (k ≠ ev_run_id e.2) as Hk by (intros ->; by apply (Hl e); [left|]).
  destruct (IH (recover_project_eval_run (g e) (f e) e.2 w).1) as [Hr' Hs']; [intros e' He'; apply Hl; by right|].
  split; [by rewrite Hr', Hr|]. intros i. by rewrite Hs', Hs.
Qed.

(** The recovery of a start touches interrupted runs only: a run that is neither
    queued nor running keeps its row and all its results, whatever the targets
    answer and the store refuses. *)
Theorem recovery_keeps_finished_runs (os : nat → HeaderOrders) (ts : nat → nat → string) (w : St * V) (run_id : string) :
  filed ev_run_id (et_runs (eval_tables w.1)) →
  (∀ r, et_runs (eval_tables w.1) !! run_id = Some r → ev_status r ∉ pending_statuses) →
  let w' := eval_recovery_task os ts w in
  et_runs (eval_tables w'.1) !! run_id = et_runs (eval_tables w.1) !! run_id ∧
  ∀ i, et_results (eval_tables w'.1) !! (run_id, i) = et_results (eval_tables w.1) !! (run_id, i).
Proof.
  intros Hfiled Hdone. unfold eval_recovery_task. destruct (get_project_eval_runs_by_status w.1 _ _) as [st r] eqn:Es.
  apply read_by_status in Es as [Ht Hl]. destruct r as [pending|e]; [|by cbn; rewrite Ht]. specialize (Hl _ eq_refl).
  cbn zeta. rewrite <-Ht. apply (recover_all_other (enumerate pending) run_id (st, w.2) (λ e, os e.1) (λ e, ts e.1)).
  unfold enumerate. intros e (i & y & -> & Hi)%elem_of_lookup_imap_1 Hid.
  cbn in Hid. assert (y ∈ pending) as Hp by (by apply list_elem_of_lookup_2 in Hi).
  rewrite Hl in Hp. unfold runs_by_status_query in Hp. apply elem_of_take in Hp as (j & Hj & _).
  apply list_elem_of_lookup_2 in Hj. rewrite sort_by_perm in Hj. apply list_elem_of_filter in Hj as [Hst Hrow].
  apply (elem_of_rows_filed ev_run_id) in Hrow; [|done]. rewrite Hid in Hrow. apply bool_decide_eq_true in Hst.
  by apply (Hdone y).
Qed.

End runs.

(** ** Comparisons *)

(** The result of an item in a run. *)
Definition result_of (m : gmap (string * string) ProjectEvalRunItemRecord) (project_id run_id item_id : string)
    : option ProjectEvalRunItemRecord :=
  m !! (run_id, item_id) ≫= (λ r, if String.eqb (ei_project_id r) project_id then Some r else None).

Lemma result_of_some m p run id r :
  result_of m p run id = Some r ↔ m !! (run, id) = Some r ∧ ei_project_id r = p.
Proof.
  unfold result_of. destruct (m !! (run, id)) as [x|]; cbn; [|naive_solver].
  destruct (String.eqb_spec (ei_project_id x) p); naive_solver.
Qed.

Lemma results_query_elem (p run : string) (m : gmap (string * string) ProjectEvalRunItemRecord) (r : ProjectEvalRunItemRecord) : filed result_key m →
  r ∈ results_query p run m ↔ result_of m p run (ei_item_id r) = Some r.
Proof.
  intros Hm. unfold results_query. rewrite (select_perm ei_item_id (of_run p run) m), list_elem_of_filter.
  rewrite (elem_of_rows_filed result_key m r Hm), result_of_some. unfold of_run, result_key.
  rewrite andb_true_iff, !String.eqb_eq. split; [intros [[-> ->] ?]; done|]. intros [Hr Hp].
  pose proof (Hm _ _ Hr) as Hk. unfold result_key in Hk. assert (ei_run_id r = run) as Hrun by congruence. by rewrite Hrun.
Qed.

Lemma results_query_ids (p run : string) (m : gmap (string * string) ProjectEvalRunItemRecord) : filed result_key m →
  NoDup (ei_item_id <$> results_query p run m).
Proof.
  intros Hm. unfold results_query. rewrite (select_perm ei_item_id (of_run p run) m).
  pose proof (rows_NoDup result_key m Hm) as Hnd. induction (rows m) as [|x l IH]; [constructor|].
  apply NoDup_cons in Hnd as [Hx Hnd]. rewrite filter_cons. destruct (decide (of_run p run x = true)) as [Hxd|]; [|by apply IH].
  cbn. constructor; [|by apply IH]. intros (y & Ey & [Hyd Hy]%list_elem_of_filter)%list_elem_of_fmap. apply Hx.
  apply list_elem_of_fmap. exists y. split; [|done]. unfold result_key, of_run in *.
  apply andb_prop in Hxd as [_ ->%String.eqb_eq]. apply andb_prop in Hyd as [_ ->%String.eqb_eq]. by rewrite Ey.
Qed.

Lemma by_item_lookup (p run : string) (m : gmap (string * string) ProjectEvalRunItemRecord) (id : string) : filed result_key m →
  by_item (results_query p run m) !! id = result_of m p run id.
Proof.
  intros Hm. apply option_eq. intros r. unfold by_item.
  rewrite (insert_rows_lookup ei_item_id), lookup_empty by (by apply results_query_ids).
  split; [intros [[Hr <-]|[? _]]; [by apply results_query_elem|done]|].
  intros Hr. left. assert (ei_item_id r = id) as Hid.
  { apply result_of_some in Hr as [Hr _]. pose proof (Hm _ _ Hr) as Hk. unfold result_key in Hk. congruence. }
  split; [|done]. apply results_query_elem; [done|]. by rewrite Hid.
Qed.

Lemma set_of_list_NoDup l : NoDup (set_of_list l).
Proof.
  unfold set_of_list. assert (∀ acc, NoDup acc → NoDup (foldl (λ s x, set_insert x s) acc l)) as Hgen; [|apply Hgen; constructor].
  induction l as [|x l IH]; intros acc Hacc; [done|]. cbn. apply IH. unfold set_insert. case_bool_decide; [done|].
  rewrite insert_by_perm. by constructor.
Qed.

(** The counts of a comparison, exactly. *)
Definition tally (want : ProjectEvalRunItemComparison → bool) (l : list ProjectEvalRunItemComparison) : Z :=
  foldr (λ i n, ((if want i then 1 else 0) + n)%Z) 0%Z l.

Definition unchanged (i : ProjectEvalRunItemComparison) : bool := negb (ic_improved i) && negb (ic_regressed i).

Lemma tally_cons want i l : tally want (i :: l) = ((if want i then 1 else 0) + tally want l)%Z.
Proof. done. Qed.

Lemma tally_bounds want l : (0 ≤ tally want l ≤ Z.of_nat (length l))%Z.
Proof. induction l as [|i l IH]; [done|]. rewrite tally_cons. cbn [length]. destruct (want i); lia. Qed.

Definition exclusive (i : ProjectEvalRunItemComparison) : Prop := ic_improved i && ic_regressed i = false.

Lemma compare_item_exclusive b c id : exclusive (compare_item b c id).
Proof.
  unfold exclusive. cbn. repeat case_bool_decide; cbn; try done; congruence.
Qed.

Lemma count_items_exact l : (Z.of_nat (length l) ≤ u32_max)%Z → Forall exclusive l →
  count_items l = (tally ic_improved l, tally ic_regressed l, tally unchanged l).
Proof.
  intros Hlen Hex. unfold count_items.
  assert (∀ a b c, (0 ≤ a ∧ 0 ≤ b ∧ 0 ≤ c ∧ a + Z.of_nat (length l) ≤ u32_max ∧ b + Z.of_nat (length l) ≤ u32_max ∧
    c + Z.of_nat (length l) ≤ u32_max)%Z → foldl count_item (a, b, c) l = (a + tally ic_improved l, b + tally ic_regressed l, c + tally unchanged l)%Z)
    as Hgen; [|rewrite Hgen; [done|lia]].
  clear Hlen. induction Hex as [|i l Hi Hex IH]; intros a b c Hb; cbn [foldl count_item]; [by rewrite !Z.add_0_r|].
  rewrite !tally_cons. unfold unchanged at 1. unfold exclusive in Hi. cbn [length] in Hb.
  destruct (ic_improved i), (ic_regressed i); try done; cbn [negb andb];
    rewrite wrap32_small by (unfold in_u32; lia); rewrite IH by lia; (apply (f_equal2 pair); [apply (f_equal2 pair)|]; lia).
Qed.

(** *** The gate *)

(** Every threshold that is set is kept. *)
Record within (s : ProjectEvalRunComparisonSummary) (t : ProjectEvalRunComparisonGateRequest) : Prop := {
  within_regressions : ∀ n, gr_max_regressions t = Some n → (sm_regressed_items s ≤ n)%Z;
  within_pass_rate : ∀ x, gr_min_candidate_pass_rate t = Some x → f_lt (sm_candidate_pass_rate s) x = false;
  within_delta : ∀ x, gr_min_pass_rate_delta t = Some x → f_lt (sm_delta_pass_rate s) x = false;
  within_latency : ∀ x, gr_max_latency_increase_ms t = Some x → f_lt x (sm_delta_average_latency_ms s) = false;
  within_cost : ∀ x, gr_max_cost_increase t = Some x → f_lt x (sm_delta_total_cost s) = false;
}.

Lemma gate_reason_nil {T} (o : option T) broken reason : gate_reason o broken reason = [] ↔ ∀ t, o = Some t → broken t = false.
Proof. destruct o as [t|]; cbn; [|by split]. destruct (broken t) eqn:E; split; [done| |by intros _ t' [= <-]|done]. intros Hb. by rewrite (Hb t eq_refl) in E. Qed.

Lemma gate_reasons_nil s t : is_nil (gate_reasons s t) = true ↔ within s t.
Proof.
  assert (is_nil (gate_reasons s t) = true ↔ gate_reasons s t = []) as -> by (by destruct (gate_reasons s t)).
  unfold gate_reasons. rewrite !app_nil, !gate_reason_nil. split.
  - intros (H1 & H2 & H3 & H4 & H5). split; [|done..]. intros n Hn. by apply Z.ltb_ge, H1.
  - intros [H1 H2 H3 H4 H5]. split; [|done]. intros n Hn. by apply Z.ltb_ge, H1.
Qed.

(** An item that passed in one run and failed in the other. *)
Definition regressed_between (m : gmap (string * string) ProjectEvalRunItemRecord) (p b c id : string) : bool :=
  bool_decide (ei_passed <$> result_of m p b id = Some true) && bool_decide (ei_passed <$> result_of m p c id = Some false).

Lemma compared_items (m : gmap (string * string) ProjectEvalRunItemRecord) (p b c : string) : filed result_key m →
  let items := compare_items (results_query p b m) (results_query p c m) in
  NoDup (ic_item_id <$> items) ∧
  (∀ id, id ∈ ic_item_id <$> items ↔ is_Some (result_of m p b id) ∨ is_Some (result_of m p c id)) ∧
  Forall exclusive items ∧
  tally ic_regressed items = Z.of_nat (length (filter (λ id, regressed_between m p b c id = true) (ic_item_id <$> items))).
Proof.
  intros Hm. unfold compare_items. set (f := compare_item _ _). set (ids := set_of_list _).
  assert (ic_item_id <$> (f <$> ids) = ids) as Hids by (rewrite <-list_fmap_compose; apply list_fmap_id).
  cbn zeta. rewrite Hids. split; [apply set_of_list_NoDup|split; [|split]].
  - intros id. unfold ids. rewrite set_of_list_elem, elem_of_app, !list_elem_of_fmap.
    assert (∀ run, (∃ y, id = ei_item_id y ∧ y ∈ results_query p run m) ↔ is_Some (result_of m p run id)) as Hrun; [|by rewrite !Hrun].
    intros run. split; [intros (y & -> & Hy%results_query_elem); eauto|]. intros [r Hr]. exists r.
    assert (ei_item_id r = id) as Hid.
    { pose proof Hr as [Hr' _]%result_of_some. pose proof (Hm _ _ Hr') as Hk. unfold result_key in Hk. congruence. }
    split; [done|]. apply results_query_elem; [done|]. by rewrite Hid.
  - apply Forall_fmap, Forall_forall. intros id _. apply compare_item_exclusive.
  - clear Hids. induction ids as [|id ids IH]; [done|]. rewrite fmap_cons, tally_cons, IH, filter_cons.
    assert (ic_regressed (f id) = regressed_between m p b c id) as ->.
    { unfold f. cbn. by rewrite !by_item_lookup. }
    destruct (regressed_between m p b c id); [rewrite decide_True by done; cbn [length]; lia|by rewrite decide_False].
Qed.

Section gate.
Context `{SerdeJson} {St : Type} `{EvalStoreOk St}.

Lemma required_run_ok run_id (o : option ProjectEvalRunRecord) (st st' : St) r :
  required_run run_id o st = (st', Ok r) → o = Some r ∧ st' = st.
Proof. destruct o; cbn; [|done]. intros E. inversion E. done. Qed.

(** What a comparison is made from. *)
Lemma compare_ok p b c gate (st st' : St) x : compare_project_eval_runs p b c gate st = (st', Ok x) →
  let m := et_results (eval_tables st) in
  cp_items x = compare_items (results_query p b m) (results_query p c m) ∧
  cp_summary x = comparison_summary (cp_baseline_run x) (cp_candidate_run x) (count_items (cp_items x)) ∧
  run_query p b (et_runs (eval_tables st)) = Some (cp_baseline_run x) ∧
  run_query p c (et_runs (eval_tables st)) = Some (cp_candidate_run x) ∧
  cp_gate x = gate ≫= (λ r, if comparison_gate_requested r then Some (evaluate_comparison_gate (cp_summary x) (cp_context x) r) else None).
Proof.
  unfold compare_project_eval_runs. intros E.
  apply ST_bind_ok in E as (st1 & o1 & E1%eval_store_ok & E). apply read_run in E1 as [T1 V1]. specialize (V1 _ eq_refl).
  apply ST_bind_ok in E as (st2 & r1 & [-> ->]%required_run_ok & E).
  apply ST_bind_ok in E as (st3 & o2 & E2%eval_store_ok & E). apply read_run in E2 as [T2 V2]. specialize (V2 _ eq_refl).
  apply ST_bind_ok in E as (st4 & r2 & [-> ->]%required_run_ok & E).
  destruct (negb _); [done|].
  apply ST_bind_ok in E as (st5 & l1 & E3%eval_store_ok & E). apply read_results in E3 as [T3 V3]. specialize (V3 _ eq_refl).
  apply ST_bind_ok in E as (st6 & l2 & E4%eval_store_ok & E). apply read_results in E4 as [T4 V4]. specialize (V4 _ eq_refl).
  unfold mret, ST_ret in E. inversion E; subst x st6. cbn [cp_items cp_summary cp_baseline_run cp_candidate_run cp_gate cp_context].
  rewrite T1 in T2, V2. rewrite T2 in T3, V3. rewrite T3 in V4. by rewrite V3, V4.
Qed.

(** C29: The gate decides on the items of both runs: it passes exactly when the items
    that passed in the baseline and fail in the candidate are no more than
    allowed, and no other threshold, the preset's where the request sets none, is
    broken. Every item with a result in either run is compared once; a candidate
    that does not pass is held, and only the strict preset promotes. *)
Theorem comparison_gate_exact (p b c : string) (r : ProjectEvalRunComparisonGateRequest) (st st' : St) (x : ProjectEvalRunComparison) :
  let m := et_results (eval_tables st) in
  filed result_key m → (Z.of_nat (length (cp_items x)) ≤ u32_max)%Z → comparison_gate_requested r = true →
  compare_project_eval_runs p b c (Some r) st = (st', Ok x) →
  let ids := ic_item_id <$> cp_items x in
  NoDup ids ∧ (∀ id, id ∈ ids ↔ is_Some (result_of m p b id) ∨ is_Some (result_of m p c id)) ∧
  sm_regressed_items (cp_summary x) = Z.of_nat (length (filter (λ id, regressed_between m p b c id = true) ids)) ∧
  ∃ g, cp_gate x = Some g ∧ (ga_passed g = true ↔ within (cp_summary x) (resolve_comparison_gate_thresholds r)) ∧
    (ga_passed g = false ↔ rc_action (ga_recommendation g) = Hold) ∧
    (rc_action (ga_recommendation g) = Promote → gr_preset r = Some Strict).
Proof.
  intros m Hm Hlen Hreq E. apply compare_ok in E as (Hi & Hs & _ & _ & Hg). fold m in Hi.
  destruct (compared_items m p b c Hm) as (Hnd & Hids & Hex & Ht). rewrite <-Hi in *.
  split; [done|]. split; [done|]. split.
  { rewrite Hs. cbn. by rewrite count_items_exact. }
  cbn in Hg. rewrite Hreq in Hg. eexists. split; [exact Hg|]. cbn. split; [apply gate_reasons_nil|].
  set (passed := is_nil _). destruct (gr_preset r) as [[]|], passed; cbn; naive_solver.
Qed.

End gate.

(** ** What the code lets through *)

(** A matcher of the wrong type is no matcher: an item that expects a number passes with
    any answer. *)
Theorem mistyped_matcher_passes `{SerdeJson} `{RegexEngine} `{Lowercase} n output_text response_json :
  (evaluate_expectation (Some (JObject [("equals", JNumber n)])) output_text response_json 200%Z).1 = true.
Proof. done. Qed.

(** A candidate without results, one that has not run yet say, has no regressions. *)
Theorem unfinished_candidate_has_no_regressions `{SerdeJson} {St : Type} `{EvalStoreOk St} p b c gate (st st' : St) x :
  results_query p c (et_results (eval_tables st)) = [] → compare_project_eval_runs p b c gate st = (st', Ok x) →
  sm_regressed_items (cp_summary x) = 0%Z.
Proof.
  intros Hc E. apply compare_ok in E as (Hi & Hs & _). rewrite Hs, Hi, Hc. cbn [sm_regressed_items comparison_summary].
  unfold compare_items, count_items. change (by_item []) with (∅ : gmap string ProjectEvalRunItemRecord).
  assert (∀ ids n, n.1.2 = 0%Z → (foldl count_item n (compare_item (by_item (results_query p b (et_results (eval_tables st)))) ∅ <$> ids)).1.2 = 0%Z)
    as Hgen; [|by apply Hgen].
  induction ids as [|id ids IH]; intros [[i r] u] Hn; [done|]. cbn [fmap list_fmap foldl]. apply IH.
  assert (ic_regressed (compare_item (by_item (results_query p b (et_results (eval_tables st)))) ∅ id) = false) as Hr.
  { cbn. rewrite lookup_empty. cbn. apply andb_false_r. }
  unfold count_item. rewrite Hr. by destruct (ic_improved _).
Qed.

(** The thresholds of a preset can be overridden one by one; the recommendation still goes
    by the name of the preset. *)
Theorem loosened_strict_gate_promotes s c n :
  (sm_regressed_items s ≤ n)%Z → f_lt (sm_delta_pass_rate s) (f64_neg (f64_of_Z 1)) = false →
  f_lt (f64_of_Z 1000000) (sm_delta_average_latency_ms s) = false → f_lt (f64_of_Z 1000000) (sm_delta_total_cost s) = false →
  rc_action (ga_recommendation (evaluate_comparison_gate s c {|
    gr_preset := Some Strict; gr_max_regressions := Some n; gr_min_candidate_pass_rate := None;
    gr_min_pass_rate_delta := Some (f64_neg (f64_of_Z 1)); gr_max_latency_increase_ms := Some (f64_of_Z 1000000);
    gr_max_cost_increase := Some (f64_of_Z 1000000) |})) = Promote.
Proof.
  intros Hn Hd Hl Hc. unfold evaluate_comparison_gate. cbn [ga_recommendation gr_preset resolve_comparison_gate_thresholds].
  set (t := resolve_comparison_gate_thresholds _). assert (is_nil (gate_reasons s t) = true) as ->; [|done].
  apply gate_reasons_nil. split; cbn; intros ? [= <-]; done.
Qed.

(** ** Runs to look at *)

Module EvalDemo.

#[export] Existing Instance list_http.
#[export] Existing Instance codec_json.
#[export] Existing Instance codec_json_texts.
#[export] Existing Instance word_engine.
#[export] Instance demo_lowercase : Lowercase := to_lowercase.
#[export] Instance demo_texts : SerdeTexts := {|
  surfaces_from_str _ := Err "unreadable"; strings_error _ := "unreadable"; json_error _ := "unreadable" |}.

(** A target that answers every request alike. *)
#[export] Instance demo_client : EvalClient () := λ v _ _,
  (v, (7%Z, Replied 200 (Ok (json_to_string (JObject [("output_text", JString "Paris")]))))).

Definition item (id : string) (expected : json) : ProjectDatasetItemRecord := {|
  di_project_id := "p"; di_dataset_name := "d"; di_item_id := id; di_input_json := "{}";
  di_expected_output_json := Some (json_to_string expected); di_metadata_json := None; di_updated_at := "t0" |}.

Definition dataset : ProjectDatasetRecord := {|
  ds_project_id := "p"; ds_dataset_name := "d"; ds_description := None; ds_schema_json := None; ds_updated_at := "t0" |}.

Definition tables : EvalTables := {|
  et_datasets := {[ dataset_key dataset := dataset ]};
  et_items := {[ ("p", "d", "i1") := item "i1" (JObject [("contains", JString "paris")]) ]};
  et_runs := ∅; et_results := ∅ |}.

Definition db (t : EvalTables) (faults : list (option string)) : EvalDb := {|
  db_tables := {| ed_tables := t; ed_datetime := λ _, "now"; ed_stamps := 0 |}; db_faults := faults |}.

Definition request : ProjectEvalRunRequest := {|
  rq_dataset_name := "d"; rq_target_url := "http://target/"; rq_headers := {[ "x-key" := "secret"; "Accept" := "text/plain" ]}; rq_timeout_ms := Some 500%Z;
  rq_judge_url := None; rq_judge_kind := None; rq_judge_model := None; rq_judge_headers := ∅; rq_judge_timeout_ms := None;
  rq_prompt_name := None; rq_prompt_version := None; rq_provider_name := None; rq_model := Some "m"; rq_route_path := None;
  rq_safety_profile := None |}.

Definition ts : nat → string := λ _, "t1".

(** Two hash maps that give their entries in opposite orders. *)
Definition forwards : HeaderOrders := {| target_order := map_to_list; judge_order := map_to_list |}.
Definition backwards : HeaderOrders := {| target_order := λ m, reverse (map_to_list m); judge_order := λ m, reverse (map_to_list m) |}.

Lemma forwards_lawful : lawful_orders forwards.
Proof. by split; intros m. Qed.

Lemma backwards_lawful : lawful_orders backwards.
Proof. split; intros m; apply reverse_Permutation. Qed.

Definition executed (faults : list (option string)) : (EvalDb * ()) * result EvalError ProjectEvalRunExecution :=
  execute_project_eval_run forwards ts "run" "t1" "p" request (db tables faults, ()).

Definition succeeded {E A} (r : result E A) : bool := match r with Ok _ => true | Err _ => false end.

Lemma demo_filed : filed item_key (et_items tables).
Proof. by apply map_Forall_singleton. Qed.

Lemma run_totals_match_items_witness :
  match executed [] with
  | (w', Ok x) => run_done (items_query "p" "d" (et_items tables)) "run" "p" w'.1 x
  | _ => False
  end.
Proof.
  assert (succeeded (executed []).2 = true) as Hok by (vm_compute; reflexivity).
  destruct (executed []) as [w' [x|e]] eqn:E; [|discriminate Hok].
  unfold executed in E.
  refine (run_totals_match_items forwards ts "run" "t1" "p" request (db tables [], ()) w' x demo_filed _ E).
  vm_compute. discriminate.
Defined.

Definition queued : EvalDb * result EvalError PreparedEvalRun :=
  queue_project_eval_run forwards "run" "t1" "p" request (db tables []).

Lemma queued_run_is_resumed_witness :
  match queued with
  | (st', Ok p) => ∃ row, run_query "p" "run" (et_runs (eval_tables st')) = Some row ∧ ev_status row = "queued" ∧
      ∃ p', prepare_eval_run_from_record backwards (row <| ev_status := "running" |>) [] = Ok p' ∧
        same_execution p p' ∧ fresh p' ∧ ev_run_id (pe_run p') = "run" ∧
        same_message (build_eval_request (pe_uri p) (pe_prepared_headers p) "{}")
                     (build_eval_request (pe_uri p') (pe_prepared_headers p') "{}")
  | _ => False
  end.
Proof.
  assert (succeeded queued.2 = true) as Hok by (vm_compute; reflexivity).
  destruct queued as [st' [p|e]] eqn:E; [|discriminate Hok].
  destruct (queued_run_is_resumed forwards backwards "run" "t1" "p" request (db tables []) st' p
    forwards_lawful backwards_lawful) as (row & Hrow & Hst & Hall); [|exact E|].
  { split; [vm_compute; split; discriminate|exact I]. }
  exists row. split; [exact Hrow|]. split; [exact Hst|].
  destruct (Hall "running" []) as (p' & Ep & Hs & Hf & _ & Hid & Hm & _).
  exists p'. split; [exact Ep|]. split; [exact Hs|]. split; [exact Hf|]. split; [exact Hid|].
  apply Hm. unfold names_distinct. apply (bool_decide_unpack _). vm_compute. exact I.
Defined.

(** One run is finished, the other was interrupted. *)
Definition run (id status : string) : ProjectEvalRunRecord := fresh_run id "p" "d" "http://target/" status 1 "" "t0".

Definition run_tables (l : list ProjectEvalRunRecord) (results : list ProjectEvalRunItemRecord) : EvalTables :=
  tables <| et_runs := foldr (λ r m, <[ev_run_id r := r]> m) ∅ l |>
         <| et_results := foldr (λ r m, <[result_key r := r]> m) ∅ results |>.

Definition two_runs : EvalTables := run_tables [run "a" "completed"; run "b" "running"] [].

Lemma filed_rows {K A} `{Countable K} (key : A → K) l : filed key (foldr (λ r m, <[key r := r]> m) (∅ : gmap K A) l).
Proof. induction l as [|x l IH]; [apply map_Forall_empty|]. by apply map_Forall_insert_2. Qed.

Definition interrupted : EvalDb * () := (db two_runs [], ()).

Lemma recovery_keeps_finished_runs_witness :
  let w' := eval_recovery_task (λ _, forwards) (λ _, ts) interrupted in
  et_runs (eval_tables w'.1) !! "a" = et_runs (eval_tables interrupted.1) !! "a" ∧
  ∀ i, et_results (eval_tables w'.1) !! ("a", i) = et_results (eval_tables interrupted.1) !! ("a", i).
Proof.
  refine (recovery_keeps_finished_runs (λ _, forwards) (λ _, ts) interrupted "a" _ _); [apply (filed_rows ev_run_id)|].
  intros r Hr. assert (Some (run "a" "completed") = Some r) as E by exact Hr. apply (inj Some) in E. subst r.
  apply (bool_decide_eq_false_1 _). vm_compute. reflexivity.
Defined.

Definition result (run_id id : string) (passed : bool) : ProjectEvalRunItemRecord := {|
  ei_run_id := run_id; ei_project_id := "p"; ei_dataset_name := "d"; ei_item_id := id; ei_passed := passed;
  ei_status_code := Some 200%Z; ei_latency_ms := 7%Z; ei_output_text := None; ei_evaluation_json := None; ei_error := None;
  ei_input_tokens := 0%Z; ei_output_tokens := 0%Z; ei_cost := f_zero; ei_created_at := "t1" |}.

Definition compared_tables : EvalTables := run_tables [run "a" "completed"; run "b" "completed"]
  [result "a" "i1" true; result "a" "i2" false; result "b" "i1" false; result "b" "i2" true].

Definition strict : ProjectEvalRunComparisonGateRequest := gate_default <| gr_preset := Some Strict |>.

Definition compared_db : EvalDb := db compared_tables [].

Definition comparison : EvalDb * Prelude.result EvalError ProjectEvalRunComparison :=
  compare_project_eval_runs "p" "a" "b" (Some strict) compared_db.

Lemma comparison_gate_exact_witness :
  match comparison with
  | (st', Ok x) =>
      let ids := ic_item_id <$> cp_items x in
      let m := et_results (eval_tables compared_db) in
      NoDup ids ∧ (∀ id, id ∈ ids ↔ is_Some (result_of m "p" "a" id) ∨ is_Some (result_of m "p" "b" id)) ∧
      sm_regressed_items (cp_summary x) = Z.of_nat (length (filter (λ id, regressed_between m "p" "a" "b" id = true) ids)) ∧
      ∃ g, cp_gate x = Some g ∧ (ga_passed g = true ↔ within (cp_summary x) (resolve_comparison_gate_thresholds strict)) ∧
        (ga_passed g = false ↔ rc_action (ga_recommendation g) = Hold) ∧
        (rc_action (ga_recommendation g) = Promote → gr_preset strict = Some Strict)
  | _ => False
  end.
Proof.
  assert (match comparison.2 with Ok x => (length (cp_items x) =? 2)%nat | Err _ => false end = true) as Hok by (vm_compute; reflexivity).
  destruct comparison as [st' [x|e]] eqn:E; [|discriminate Hok].
  unfold comparison in E.
  refine (comparison_gate_exact "p" "a" "b" strict compared_db st' x (filed_rows result_key _) _ eq_refl E).
  apply Nat.eqb_eq in Hok. cbn [snd] in Hok. rewrite Hok. vm_compute. discriminate.
Defined.

Definition status_of (w : EvalDb * ()) : option string := ev_status <$> et_runs (eval_tables w.1) !! "run".

(** The caller is told that the run failed; its row says that it is running, and the next
    start runs it again. *)
Theorem failed_run_is_run_again :
  let out := executed [None; None; None; Some "disk full"] in
  succeeded out.2 = false ∧ status_of out.1 = Some "running" ∧
  status_of (eval_recovery_task (λ _, forwards) (λ _, ts) out.1) = Some "completed".
Proof. vm_compute. done. Qed.

(** Two names that differ in case are the same header, and the hash map decides which of
    the two values is sent: another one after a restart, perhaps. *)
Definition key_sent (order : HashOrder) : option string :=
  match prepare_eval_headers order {[ "X-Key" := "old"; "x-key" := "new" ]}, parse_uri "http://target/" with
  | Ok l, Some uri => get_str "x-key" (eq_headers (build_eval_request uri l "{}"))
  | _, _ => None
  end.

Theorem case_variants_are_drawn :
  {[ key_sent (target_order forwards); key_sent (target_order backwards) ]} = ({[ Some "old"; Some "new" ]} : gset (option string)).
Proof. apply (bool_decide_unpack _). vm_compute. exact I. Qed.

End EvalDemo.
